(* ===== verification/_CoqProject ===== *)
-Q . S2P
Prelude.v
Errors.v
Utf8.v
Parse.v
Format.v
Base64.v
Lut.v
LutSpec.v
Probe.v
HashTable.v
HashTableSpec.v
Enums.v
Buffer.v
BufferSpec.v
StdDev.v
Capture.v
CaptureSpec.v
PosOut.v
PosOutSpec.v
Prepare.v
Changes.v
Mux.v
MuxSpec.v
ExtOut.v
Output.v
OutputSpec.v
Table.v
TableSpec.v
TableFieldSpec.v
Hardware.v
HardwareSpec.v
Metadata.v
Fields.v
FieldsSpec.v
Entity.v
EntitySpec.v
Floats.v
TimeClass.v
Types.v
Extension.v
Registers.v
RegistersSpec.v
Indent.v
IndentSpec.v
Database.v
DatabaseSpec.v
DataServer.v
DataServerSpec.v
DataStreamSpec.v
DataClientSpec.v
PandaStream.v
PandaStreamSpec.v
SystemCommand.v
SystemCommandSpec.v
Persistence.v
PersistenceSpec.v
BufferedFile.v
BufferedFileSpec.v
ConfigSocket.v
ConfigSocketSpec.v
LinkedList.v
Sessions.v
SessionsSpec.v
DataHeader.v
DataHeaderSpec.v
PandaBlock.v
PandaBlockSpec.v
MacAddress.v
SlowLoad.v
DataConnection.v
DataConnectionSpec.v
L2Lockdown.v
DriverCore.v
TableSetup.v
TableSetupSpec.v
Quantise.v
GainBridge.v
GainBridgeSpec.v
StateExport.v
LqrResolve.v
