(* ===== verification/Prelude.v ===== *)
(** * The PandA server: its model and what is proved of it

    panda-server (src/panda-server/server/) is the C program that runs on the
    processor of a PandA box.  It loads a description of the blocks in the FPGA,
    serves text commands on one port that read and write the fields of those blocks
    through registers, and streams the data the FPGA captures to clients of another
    port.  A thread of it, the bridge (lqr_bridge.cpp and include/lqrbridge), computes the
    gains of a controller in the FPGA from the state that the FPGA exports.  This library
    translates the code into Rocq functions, function by function and under the same
    names, and proves what each component is meant to guarantee.

    ** How the code is translated

    A machine integer is a [Z] with its wrap-around written out ([u8], [u32], [u64],
    [ulong]); the width of [long] and the sign of [char] are those of a [Platform].  A
    C string is the list of its bytes, a cursor [const char **] the part still to read.
    [outcome] is the result of C code that can go wrong: [Ret], [Panic] for a failed
    assertion, [Undef] for an access outside an object or an undefined conversion.
    [error__t] is a stack of messages (Errors), [res] and [parser] are the monads for
    the chains of [?:] of the source.  Shared state is passed explicitly; a structure
    reached through several pointers is a store and indices into it (Output, Fields,
    Database).  Threads are step relations whose steps are the critical sections
    (BufferSpec, Changes, DataServerSpec, PandaStreamSpec, PandaBlockSpec), and
    Sessions is a step function, in which a thread can also stop while it holds the lock.  Code that runs against hardware which moves by itself is
    a program of single accesses, [prog], interleaved with the clock (GainBridgeSpec) or
    with the writes of the memory (StateExport).  Doubles are those of SpecFloat, with every
    operation rounded.

    What lies outside the repository, or is only reached through it, is an interface:
    the FPGA behind the register map is the class [Fpga] (Hardware, which has a plain
    memory as an instance), the extension server [ExtensionServer], a hash table
    with keys of strings [StringTable] (HashTableSpec, whose instance is the hash
    table of the server and whose laws are its refinement theorems), a class of fields
    the records [class_methods] and [class_loader], the conversion of a sample
    [SampleConversion], of which DataClientSpec makes capture.c an instance, and what
    sends the data of a capture [Sender] (DataServer), with its laws [SenderSpec]
    (DataStreamSpec): a script of blocks there, a buffered socket in DataConnection.
    What the programs of the bridge access is a [Bus] (GainBridge), of which the registers
    of the server are an instance.

    ** The parts

    - Text.  Prelude (integers, outcomes, strings), Errors (error.c, error.h), Utf8
      (utf8_check.c), Parse and Floats (parse.c, first half, with [strtoul] and
      [strtod]), Format and Floats (the formatting functions of config_server.c), Base64
      (base64.c), Indent (parse.c, indented files), Lut (parse_lut.c).
    - Containers.  Probe and HashTable (hashtable.c), Enums (enums.c), LinkedList
      (list.h).
    - The FPGA.  Hardware (hardware.c, the registers and their check at start), Extension
      (extension.c), TableSetup (hardware.c and table.c, the making of tables).
    - Fields.  Types (types.c), TimeClass (time.c), Registers (register.c), Table
      (table.c), Mux (pos_mux.c, bit_out.c), PosOut (pos_out.c), ExtOut (ext_out.c),
      Output (output.c).
    - The database and its commands.  Fields (fields.c, attributes.c), Database
      (database.c), Metadata (metadata.c), Changes (the change sets of attributes.c and
      config_server.c), Entity (config_command.c), SystemCommand (system_command.c).
    - Captured data.  StdDev (std_dev.c), Capture (capture.c and the grouping of
      prepare.c), Prepare and DataHeader (prepare.c: options, XML text, the header),
      Buffer (buffer.c), DataServer (data_server.c, the capture thread, arming and the
      stream of a client), DataConnection (data_server.c, a whole conversation, and the
      ASCII output of capture.c).
    - Sockets and files.  BufferedFile (buffered_file.c), ConfigSocket (config_server.c,
      the loop of a connection), Sessions (socket_server.c), Persistence (persistence.c),
      MacAddress (mac_address.c).
    - The kernel.  PandaStream (driver/panda_stream.c), PandaBlock (driver/panda_block.c),
      DriverCore (driver/panda_core.c, driver/panda_map.c and the opening of
      driver/panda_stream.c), L2Lockdown (kernel/l2_lockdown).
    - SlowLoad (slow_load.c), the program that loads the slow FPGA.
    - The bridge.  Quantise (fixed_point/), the encoding of the gains; GainBridge
      (publisher.hpp, transport/, the loop of lqr_bridge.cpp, and the bank of the FPGA in
      panda-fpga/modules/lqr/hdl); StateExport (state_abi.hpp, control/, and
      state_export.vhd); LqrResolve (lqr_resolve.c), its registers.

    A file [XSpec], or a module [XSpec] at the end of [X], holds the specification and
    the proofs of [X].

    ** What the theorems show

    - Captured data: a client that connects is given the blocks of the capture in order
      and without a gap from where it was told it starts, and knows when it has them all
      or has been overrun (BufferSpec); each conversion reads the words it laid out and
      no others (CaptureSpec); the standard deviation is the exact integer formula with
      four roundings (StdDev); the stream is the conversion of the data whatever the
      blocks, and, put together, what a client is sent is what was sampled, all of it or
      a first part if the socket fails or the buffer is overrun; raw data in frames needs
      blocks of at least a sample (DataStreamSpec, DataClientSpec); the header describes
      the sample that follows it (DataHeaderSpec); a conversation over a socket that works
      sends, unless the client wants less, the reply to the request, the header, the data
      of each capture that goes well and the reason it ended, and refuses a bad request
      (DataConnectionSpec); the data thread, the commands and the
      clients never break the protocol of the buffer (DataServerSpec).
    - Configuration: an indented file is parsed as the tree it draws, within a fixed
      stack (Indent, IndentSpec); a database that loads has a base for every block and
      registers for every field (DatabaseSpec), no two registers it hands out collide in
      the FPGA (FieldsSpec, HardwareSpec), the rows of tables and the positions on
      the buses do not overlap (TableFieldSpec, PosOutSpec), and a table that is made has
      registers of its own and the memory its moves need, while one that the kernel
      refuses keeps what was opened for it (TableSetupSpec).
    - Commands: a table command takes effect or fails, without effect but for the reset of
      a driver whose table could not change its mode (TableSpec), the registers follow the
      multiplexers, times and parameters (MuxSpec, TimeClass, RegistersSpec), a register
      of the extension server gets what the server answers (ExtensionSpec), the names
      reported can be used (EntitySpec), a question never changes the server
      (SystemCommandSpec), and what is written is read back: tables, parameters, look-up
      tables, base 64, and metadata, of which a string of 256 characters or more is
      accepted but answers an error when it is read.
    - Changes: what changes between two reports is in the second, for the values that take
      their index under their mutex; the changes of bus values and of polled attributes
      can be missed (Changes).  The check for changes agrees with the report (FieldsSpec).
    - Connections and files: the lines read from a socket are those sent whatever the
      pieces they come in (BufferedFileSpec), a connection answers each command once and
      in order (ConfigSocketSpec), sessions are never used after they are freed up to an
      orderly end, with runs that fault where it is not (SessionsSpec), the state saved is
      the commands for the values in memory, long strings of metadata cut off, and these
      are carried out when it is loaded (PersistenceSpec), and the file of MAC addresses
      is loaded whole or refused (MacAddressSpec).
    - The drivers: what is read from the stream is what the engine wrote, in order, and
      reading reaches the end, after an overrun too; the end can be reported early only
      when a block but the last is without data; the engine and the reader never hold the
      same block (PandaStreamSpec); the words written to a table reach the FPGA once and in
      order, and every waiting writer is told (PandaBlockSpec); a failed probe, open or
      load gives back what it took, but for the counter of a stream that could not be
      opened, and a mapping stays inside the registers
      (DriverCoreSpec); the ways of the cache are partitioned between the processors
      (L2LockdownSpec).
    - The slow FPGA: the bits of the file are clocked out in order, the lowest of each
      byte first (SlowLoad).
    - The bridge: each gain is sent as the nearest code, saturated (Quantise); the
      controller computes with the gains of one frame at a time, whenever clocks, passes
      and accesses fall, as long as the publisher waits for its confirmation
      (GainBridgeSpec); a snapshot of the state that is taken without a lock is one that
      the FPGA froze (StateExport); the registers that the publisher writes are refused
      to clients, but for the attribute RAW of a scalar or a time (LqrResolve).
    - Containers: the hash table is a finite map whatever it has been through
      (HashTableSpec), enumerations are two maps inverse to each other (Enums), and the
      expression compiler computes the truth table of the expression (LutSpec).

    Theorems that state what the code does where that is not what it means to do say so
    in their comments.

    ** Fuel

    A loop that is not structural takes fuel, and the theorem about it shows that the fuel
    its caller gives is enough: the bytes of the input for the parsers and printers (each
    turn consumes one), the slots of the table for the probe loops (Probe shows that they
    visit every slot), the blocks of the ring for [count_lost_bytes], the bytes of a
    block for [process_capture_block], the reads of the script for
    [capture_experiment], the bytes a socket gives for [read_line] and the bytes of the
    commands for [command_loop], the bytes of a file for the loops that load it.

    ** What is not modelled

    - server.c and locking.c: the options of the command line, the order of
      initialisation, signals and mutexes.  The sections a mutex protects are
      single steps, except where a signal can fall between (Sessions).
    - The system calls that make sockets, threads, devices and mappings, and the log:
      there is nothing to compute.  Where their answers matter they are scripts in the
      state.
    - sim_hardware.c, the memory behind the hardware, and the parts of hardware.c that open
      devices: the other side of the interface [Fpga].
    - Of the bridge: the scheduling of its thread, the probe of the cache, the mapping of
      the window, and the optimiser, which is an argument of the loop.  Loads and stores
      are single steps in the order of the program, as the barriers of the code ask.
    - Of the FPGA: all but the bank of gains and the export of the state.  The programs of
      tests/, test/ and bench/, and the images that are built. *)

From Stdlib Require Import ZArith Znumtheory Lia.
From stdpp Require Import base numbers list list_numbers option strings gmap.

Declare Scope panda_scope.
Delimit Scope panda_scope with panda.
Open Scope Z_scope.

(** ** Platform *)

(** The server is built for 32-bit ARM (Zynq), for 64-bit ARM (ZynqMP) and, as
    a simulation server, for x86-64.  [long] and [size_t] are 32 bits wide on
    the first and 64 bits wide on the others; a plain [char] is signed on x86
    only.  What depends on this takes the platform as an instance argument. *)
Class Platform := {
  long_bits : Z;
  char_signed : bool;
  long_bits_ok : long_bits = 32 ∨ long_bits = 64;
}.

Definition ARM32 : Platform :=
  {| long_bits := 32; char_signed := false; long_bits_ok := or_introl eq_refl |}.
Definition AARCH64 : Platform :=
  {| long_bits := 64; char_signed := false; long_bits_ok := or_intror eq_refl |}.
Definition X86_64 : Platform :=
  {| long_bits := 64; char_signed := true; long_bits_ok := or_intror eq_refl |}.

(** ** Machine integers: values are [Z], wrap-around is explicit. *)

Definition wrap (w : Z) (x : Z) : Z := x mod 2 ^ w.
Abbreviation u8 := (wrap 8).
Abbreviation u32 := (wrap 32).
Abbreviation u64 := (wrap 64).
Definition ulong `{Platform} (x : Z) : Z := wrap long_bits x.

(** Two's complement reading of a [w]-bit pattern. *)
Definition to_signed (w : Z) (x : Z) : Z :=
  let y := wrap w x in if decide (y < 2 ^ (w - 1)) then y else y - 2 ^ w.

Lemma wrap_range w x : 0 ≤ w → 0 ≤ wrap w x < 2 ^ w.
Proof. intros. unfold wrap. apply Z.mod_pos_bound. lia. Qed.

Lemma wrap_small w x : 0 ≤ x < 2 ^ w → wrap w x = x.
Proof. intros. unfold wrap. by apply Z.mod_small. Qed.

Lemma wrap_wrap w x : 0 ≤ w → wrap w (wrap w x) = wrap w x.
Proof. intros. apply wrap_small, wrap_range. done. Qed.

Lemma wrap_eq w x y : wrap w x = wrap w y ↔ (x - y) mod 2 ^ w = 0.
Proof.
  unfold wrap. destruct (decide (2 ^ w = 0)) as [E|E].
  - rewrite E, !Z.mod_0_r. lia.
  - split; intros H.
    + rewrite Zminus_mod, H, Z.sub_diag. apply Z.mod_0_l; lia.
    + apply Z.mod_divide in H as [q Hq]; [|lia].
      replace x with (y + q * 2 ^ w) by lia. by rewrite Z.mod_add by lia.
Qed.

(** Wrapping to [w] bits and then keeping fewer is keeping fewer. *)
Lemma wrap_narrow v w x : 0 ≤ v ≤ w → wrap v (wrap w x) = wrap v x.
Proof.
  intros. unfold wrap. symmetry. apply Znumtheory.Zmod_div_mod; [lia..|].
  exists (2 ^ (w - v)). rewrite <-Z.pow_add_r by lia. f_equal; lia.
Qed.

(** Wrapping early does not change a later wrapped sum. *)
Lemma wrap_add_l w x y : wrap w (wrap w x + y) = wrap w (x + y).
Proof. unfold wrap. apply Zplus_mod_idemp_l. Qed.

Lemma wrap_mul_l w x y : wrap w (wrap w x * y) = wrap w (x * y).
Proof. unfold wrap. apply Zmult_mod_idemp_l. Qed.

Lemma land_ones_wrap w x : 0 ≤ w → Z.land x (2 ^ w - 1) = wrap w x.
Proof. intros. unfold wrap. rewrite <-Z.land_ones, Z.ones_equiv by done. f_equal. Qed.

Lemma land_255 x : Z.land x 255 = u8 x.
Proof. apply (land_ones_wrap 8). lia. Qed.

Lemma land_63 x : Z.land x 63 = wrap 6 x.
Proof. apply (land_ones_wrap 6). lia. Qed.

Lemma shiftr_range x w n : 0 ≤ x < 2 ^ w → 0 ≤ n ≤ w → 0 ≤ Z.shiftr x n < 2 ^ (w - n).
Proof.
  intros ??. rewrite Z.shiftr_div_pow2 by lia. split; [apply Z.div_pos; lia|].
  apply Z.div_lt_upper_bound; [lia|]. rewrite <-Z.pow_add_r by lia.
  replace (n + (w - n)) with w by lia. lia.
Qed.

(** A [w]-bit value is determined by its bits. *)
Lemma wrap_bits w x y :
  0 ≤ w → 0 ≤ y < 2 ^ w →
  (∀ n, 0 ≤ n < w → Z.testbit x n = Z.testbit y n) → wrap w x = y.
Proof.
  intros Hw Hy H. rewrite <-(wrap_small w y) by done. unfold wrap.
  apply Z.bits_inj'. intros n Hn. destruct (decide (n < w)).
  - rewrite !Z.mod_pow2_bits_low by lia. apply H. lia.
  - rewrite !Z.mod_pow2_bits_high by lia. done.
Qed.

(** ** Outcomes of C code *)

(** [Ret a]: the code returns.  [Panic]: a failed [ASSERT_OK] stops the server
    through [_error_panic].  [Undef]: the code reads or writes outside an array
    or an object, where C gives no meaning. *)
Inductive outcome (A : Type) : Type :=
  | Ret (a : A)
  | Panic
  | Undef.
Arguments Ret {A} a.
Arguments Panic {A}.
Arguments Undef {A}.

#[export] Instance outcome_ret : MRet outcome := λ A a, Ret a.
#[export] Instance outcome_bind : MBind outcome := λ A B f o,
  match o with Ret a => f a | Panic => Panic | Undef => Undef end.
#[export] Instance outcome_fmap : FMap outcome := λ A B f o,
  match o with Ret a => Ret (f a) | Panic => Panic | Undef => Undef end.

Definition assert_ok (b : bool) : outcome unit := if b then Ret tt else Panic.
Definition in_range (b : bool) : outcome unit := if b then Ret tt else Undef.

(** ** C strings *)

(** A [const char *] is the list of its bytes up to the terminating zero, which
    is implicit; a cursor [const char **] is the suffix still to be read. *)
Abbreviation cstring := (list Z).

Definition cstring_wf (s : cstring) : Prop := Forall (λ c, 0 < c < 256) s.

#[export] Instance cstring_wf_dec s : Decision (cstring_wf s).
Proof. unfold cstring_wf. apply _. Defined.

(** [**s]: at the end of the string the terminator is read. *)
Definition cur (s : cstring) : Z := match s with [] => 0 | c :: _ => c end.

(** The string held by a buffer: its bytes up to the first zero. *)
Fixpoint c_str (buffer : list Z) : cstring :=
  match buffer with
  | [] => []
  | c :: rest => if decide (c = 0) then [] else c :: c_str rest
  end.

Lemma c_str_terminated s rest : Forall (λ c, c ≠ 0) s → c_str (s ++ 0 :: rest) = s.
Proof. induction 1; simpl; [done|]. rewrite decide_False by done. by f_equal. Qed.

(** The bytes of a Rocq string, for the literals of the source. *)
Fixpoint bytes_of (s : string) : cstring :=
  match s with
  | EmptyString => []
  | String a s' => Z.of_N (Ascii.N_of_ascii a) :: bytes_of s'
  end.

Definition char_code (a : Ascii.ascii) : Z := Z.of_N (Ascii.N_of_ascii a).
Coercion char_code : Ascii.ascii >-> Z.

Lemma cstring_wf_app s1 s2 : cstring_wf (s1 ++ s2) ↔ cstring_wf s1 ∧ cstring_wf s2.
Proof. apply Forall_app. Qed.

Lemma cur_wf s : cstring_wf s → 0 ≤ cur s < 256.
Proof. destruct 1; simpl; lia. Qed.

Lemma cur_nonzero s : cur s ≠ 0 → ∃ t, s = cur s :: t.
Proof. destruct s as [|c t]; [done|]. intros _. by exists t. Qed.

(** ** Finite checks by computation *)

Definition zrange (n : Z) : list Z := seqZ 0 n.

Lemma forallb_zrange (f : Z → bool) n :
  forallb f (zrange n) = true → ∀ x, 0 ≤ x < n → f x = true.
Proof.
  intros H x Hx. rewrite forallb_forall in H. apply H.
  apply list_elem_of_In. apply elem_of_seqZ. lia.
Qed.

(** ** Lists *)

Section list_facts.
Context {A : Type}.
Implicit Types l : list A.

Lemma lookup_total_snoc `{Inhabited A} l x : (l ++ [x]) !!! length l = x.
Proof. rewrite lookup_total_app_r by done. by rewrite Nat.sub_diag. Qed.
End list_facts.

(** Sum of a list of integers. *)
Definition zsum (l : list Z) : Z := foldr Z.add 0 l.

Lemma zsum_app l1 l2 : zsum (l1 ++ l2) = zsum l1 + zsum l2.
Proof. induction l1 as [|x l1 IH]; simpl; [done|]. unfold zsum in *. simpl. lia. Qed.

(** ** Automation *)

Create HintDb panda discriminated.
#[export] Hint Resolve wrap_range cur_wf : panda.

(** Bit [n] of a combination of shifts and masks, for a literal [n]. *)
Ltac literal_bits :=
  repeat match goal with
  | |- context [Z.testbit (Z.lor ?x ?y) ?n] => rewrite (Z.lor_spec x y n)
  | |- context [Z.testbit (Z.land ?x ?y) ?n] => rewrite (Z.land_spec x y n)
  | |- context [Z.testbit ?x ?n] => rewrite (Z.testbit_neg_r x n) by lia
  | |- context [Z.testbit (Z.shiftl ?x ?k) ?n] => rewrite (Z.shiftl_spec x k n) by lia
  | |- context [Z.testbit (Z.shiftr ?x ?k) ?n] => rewrite (Z.shiftr_spec x k n) by lia
  | |- context [Z.testbit (Zpos ?p) ?n] =>
      let b := eval vm_compute in (Z.testbit (Zpos p) n) in
      change (Z.testbit (Zpos p) n) with b
  end;
  repeat match goal with
  | |- context [Z.testbit ?x ?n] =>
      let n' := eval vm_compute in n in
      progress (change (Z.testbit x n) with (Z.testbit x n'))
  end;
  rewrite ?andb_true_r, ?andb_false_r, ?orb_false_r, ?orb_false_l, ?andb_true_l.

(** Case analysis on the [if]s, [decide]s and [match]es that block a goal. *)
Ltac case_all :=
  repeat (case_decide || case_match || case_bool_decide); simplify_eq.
