(* ===== verification/Errors.v ===== *)
(** * Error values: panda-server/server/error.h and error.c

    [error__t] is a pointer to a bounded stack of messages, [NULL] for success.
    The first half models the functions of error.c; the second half gives the
    chained [TEST_OK_(...) ?: ...] style of the callers as two small monads:
    [res] for calls that only fail, [parser] for calls that also advance a
    cursor [const char **], which stays advanced when they fail. *)

From S2P Require Import Prelude.
From stdpp Require Import base numbers list strings pretty.
Open Scope Z_scope.

Module Error.

Definition MAX_ERROR_DEPTH : nat := 10.

(** [struct error__t]; [count] is the length of [messages]. *)
Record error := mk_error {
  messages : list string;
  formatted : option string;
}.

(** [error__t]: [None] is [ERROR_OK]. *)
Definition error__t := option error.

#[export] Instance error_eq_dec : EqDecision error.
Proof. solve_decision. Defined.

(** [_error_create]. *)
Definition error_create (extra : option string) (message : string) : error :=
  match extra with
  | Some x => mk_error [x; message] None
  | None => mk_error [message] None
  end.

(** [error_extend]: asserts that the stack of messages has room. *)
Definition error_extend (e : error__t) (message : string) : outcome error__t :=
  match e with
  | None => Ret None
  | Some e =>
      _ ← assert_ok (bool_decide (length (messages e) < MAX_ERROR_DEPTH)%nat);
      Ret (Some (mk_error (messages e ++ [message]) (formatted e)))
  end.

(** The [sprintf] loop of [error_format], [n] counting down to 0. *)
Fixpoint format_loop (msgs : list string) (n : nat) : string :=
  match n with
  | O => msgs !!! 0%nat
  | S n' => (msgs !!! n) +:+ ": " +:+ format_loop msgs n'
  end.

(** [error_format]: the string, and the error with the string cached in it. *)
Definition error_format (e : error__t) : string * error__t :=
  match e with
  | None => ("OK", None)
  | Some e =>
      let result :=
        match length (messages e) with O => EmptyString | S n => format_loop (messages e) n end in
      (result, Some (mk_error (messages e) (Some result)))
  end.

(** The size [error_format] allocates. *)
Definition format_alloc (e : error) : nat :=
  foldl (λ n m, (n + (String.length m + 2))%nat) 0%nat (messages e).

(** [error_discard]: whether there was an error to release. *)
Definition error_discard (e : error__t) : bool :=
  match e with Some _ => true | None => false end.

(** [error_report]: the lines sent to the log, and whether there was an error. *)
Definition error_report (e : error__t) : list string * bool :=
  match e with
  | Some _ => ([(error_format e).1], error_discard e)
  | None => ([], error_discard e)
  end.

(** [errno] values the modelled calls can set, and the text of [strerror_r]. *)
Inductive errno := ERANGE.
Definition errno_number (e : errno) : Z := match e with ERANGE => 34 end.
Definition strerror (e : errno) : string :=
  match e with ERANGE => "Numerical result out of range" end.

(** [_error_extra_io_errno]. *)
Definition error_extra_io_errno (e : errno) : string :=
  "(" +:+ pretty (errno_number e) +:+ ") " +:+ strerror e.

(** ** The chaining macros *)

(** The value of a call that may fail. *)
Inductive res (A : Type) : Type :=
  | OK (a : A)
  | Err (e : error).

Definition TEST_OK_ (b : bool) (message : string) : error__t :=
  if b then None else Some (error_create None message).

Definition TEST_OK_IO_ (b : bool) (eno : errno) (message : string) : error__t :=
  if b then None else Some (error_create (Some (error_extra_io_errno eno)) message).

(** [ERROR_EXTEND]: applies to a failing expression only. *)
Definition ERROR_EXTEND (e : error__t) (message : string) : outcome error__t :=
  error_extend e message.

End Error.

Export Error.
Arguments OK {A} a.
Arguments Err {A} e.

#[export] Instance res_ret : MRet res := λ A a, OK a.
#[export] Instance res_bind : MBind res := λ A B f r,
  match r with OK a => f a | Err e => Err e end.

Definition res_of (e : error__t) : res unit :=
  match e with None => OK tt | Some e => Err e end.
Definition err_of {A} (r : res A) : error__t :=
  match r with OK _ => None | Err e => Some e end.
Definition is_ok {A} (r : res A) : bool := match r with OK _ => true | Err _ => false end.
Definition fail {A} (message : string) : res A := Err (error_create None message).
Definition test_ok (b : bool) (message : string) : res unit := res_of (TEST_OK_ b message).

(** A parser reads from a cursor; the cursor it leaves behind is part of the
    result even when it fails. *)
Definition parser (A : Type) : Type := cstring → res A * cstring.

#[export] Instance parser_ret : MRet parser := λ A a s, (OK a, s).
#[export] Instance parser_bind : MBind parser := λ A B f p s,
  match p s with
  | (OK a, s') => f a s'
  | (Err e, s') => (Err e, s')
  end.

(** A check that does not move the cursor. *)
Definition lift {A} (r : res A) : parser A := λ s, (r, s).
(** The character under the cursor, [**string]. *)
Definition peek : parser Z := λ s, (OK (cur s), s).

(** ** Facts *)

Definition error_wf (e : error) : Prop := (1 ≤ length (messages e) ≤ MAX_ERROR_DEPTH)%nat.

Lemma string_length_app s t : String.length (s +:+ t) = (String.length s + String.length t)%nat.
Proof. induction s as [|a s IH]; simpl; [done|]. f_equal. apply IH. Qed.

Lemma format_loop_take msgs n :
  (n < length msgs)%nat → format_loop (take (S n) msgs) n = format_loop msgs n.
Proof.
  intros Hn. assert (H : ∀ k, (k ≤ n)%nat → format_loop (take (S n) msgs) k = format_loop msgs k).
  { induction k as [|k IH]; intros Hk; cbn [format_loop];
      rewrite lookup_total_take_lt by lia; [done|]. by rewrite IH by lia. }
  by apply H.
Qed.

Lemma format_loop_snoc msgs m :
  msgs ≠ [] → format_loop (msgs ++ [m]) (length msgs) =
    m +:+ ": " +:+ format_loop msgs (length msgs - 1).
Proof.
  intros Hne. destruct msgs as [|x msgs]; [done|].
  cbn [length]. cbn [format_loop]. f_equal.
  - change (S (length msgs)) with (length (x :: msgs)). apply lookup_total_snoc.
  - f_equal. replace (S (length msgs) - 1)%nat with (length msgs) by lia.
    rewrite <-format_loop_take by (rewrite length_app; simpl; lia). f_equal.
    change (S (length msgs)) with (length (x :: msgs)). by rewrite take_app_length.
Qed.

(** Adding context puts the new message in front of the formatted text. *)
Theorem error_extend_format e message :
  error_wf e → (length (messages e) < MAX_ERROR_DEPTH)%nat →
  ∃ e', error_extend (Some e) message = Ret (Some e') ∧ error_wf e' ∧
    (error_format (Some e')).1 = message +:+ ": " +:+ (error_format (Some e)).1.
Proof.
  intros [Hlo Hhi] Hroom. exists (mk_error (messages e ++ [message]) (formatted e)).
  unfold error_extend, error_wf. rewrite bool_decide_true by done.
  cbn [messages]. split_and!; [done|rewrite length_app; simpl; lia..|].
  unfold error_format. simpl. destruct (messages e) as [|m ms] eqn:E; [simpl in Hlo; lia|].
  rewrite <-E in *. rewrite length_app, Nat.add_1_r.
  rewrite format_loop_snoc by (by rewrite E). rewrite E. simpl. by rewrite Nat.sub_0_r.
Qed.

(** Extending a full stack of messages stops the server. *)
Theorem error_extend_full e message :
  length (messages e) = MAX_ERROR_DEPTH → error_extend (Some e) message = Panic.
Proof. intros H. unfold error_extend. rewrite bool_decide_false by lia. done. Qed.

Lemma foldl_alloc l n :
  foldl (λ n m, (n + (String.length m + 2))%nat) n l =
  (n + foldr (λ m n, String.length m + 2 + n) 0 l)%nat.
Proof. revert n. induction l as [|m l IH]; intros n; simpl; [lia|]. rewrite IH. lia. Qed.

Lemma format_loop_length msgs n :
  (n < length msgs)%nat →
  (String.length (format_loop msgs n) + 2 =
    foldr (λ m n, String.length m + 2 + n) 0 (take (S n) msgs))%nat.
Proof.
  induction n as [|n IH]; intros Hn.
  - destruct msgs as [|m msgs]; [simpl in Hn; lia|]. simpl. lia.
  - cbn [format_loop]. rewrite !string_length_app.
    destruct (lookup_lt_is_Some_2 msgs (S n) Hn) as [m Hm].
    rewrite (list_lookup_total_correct _ _ _ Hm).
    rewrite (take_S_r _ _ _ Hm), foldr_app. simpl.
    assert (Hf : ∀ l k, foldr (λ m n, String.length m + 2 + n)%nat k l =
      (foldr (λ m n, String.length m + 2 + n) 0 l + k)%nat).
    { induction l as [|a l IHl]; intros k; simpl; [done|]. rewrite IHl. lia. }
    rewrite Hf, <-IH by lia. lia.
Qed.

(** The formatted text and its terminator fit the allocated buffer. *)
Theorem error_format_fits e :
  error_wf e → (String.length (error_format (Some e)).1 + 1 ≤ format_alloc e)%nat.
Proof.
  intros [Hlo Hhi]. unfold error_format, format_alloc. rewrite foldl_alloc. simpl.
  destruct (length (messages e)) as [|n] eqn:E; [lia|].
  pose proof (format_loop_length (messages e) n ltac:(lia)) as H.
  rewrite take_ge in H by lia. lia.
Qed.

Lemma error_extend_format_witness :
  ∃ e', error_extend (Some (mk_error ["Invalid number"] None)) "Error parsing field" = Ret (Some e') ∧
    (error_format (Some e')).1 = "Error parsing field: Invalid number".
Proof.
  destruct (error_extend_format (mk_error ["Invalid number"] None) "Error parsing field")
    as (e' & E & _ & H); [unfold error_wf, MAX_ERROR_DEPTH; simpl; lia|unfold MAX_ERROR_DEPTH; simpl; lia|].
  exists e'. exact (conj E H).
Defined.
