(* ===== verification/Utf8.v ===== *)
(** * UTF-8 validation: panda-server/server/utf8_check.c

    [utf8_check] scans a zero terminated string and returns where the first
    malformed sequence starts.  Reads are modelled one by one, in the order in
    which [||] evaluates them, so that reading past the terminator would show. *)

From S2P Require Import Prelude.
From stdpp Require Import base numbers list.
Open Scope Z_scope.

Module Utf8.

(** [s[i]]: a byte, the terminator, or a read outside the string. *)
Definition rd (s : cstring) (i : nat) : outcome Z :=
  match s !! i with
  | Some c => Ret c
  | None => if decide (i = length s) then Ret 0 else Undef
  end.

(** C's [||] and [&&] on conditions that read memory. *)
Definition cor (a b : outcome bool) : outcome bool := v ← a; if (v : bool) then Ret true else b.
Definition cand (a b : outcome bool) : outcome bool := v ← a; if (v : bool) then b else Ret false.
Infix "<||>" := cor (at level 60, right associativity).
Infix "<&&>" := cand (at level 59, right associativity).

(** [(s[i] & mask) == value] and comparisons of one byte. *)
Definition masked (s : cstring) (i : nat) (mask value : Z) : outcome bool :=
  x ← rd s i; Ret (bool_decide (Z.land x mask = value)).
Definition unmasked (s : cstring) (i : nat) (mask value : Z) : outcome bool :=
  x ← rd s i; Ret (bool_decide (Z.land x mask ≠ value)).
Definition equals (s : cstring) (i : nat) (value : Z) : outcome bool :=
  x ← rd s i; Ret (bool_decide (x = value)).
Definition above (s : cstring) (i : nat) (value : Z) : outcome bool :=
  x ← rd s i; Ret (bool_decide (x > value)).

(** One turn of the loop: [None] leaves it, [Some n] advances by [n]. *)
Definition utf8_step (s : cstring) : outcome (option nat) :=
  c ← rd s 0;
  if decide (c = 0) then Ret None
  else if decide (c < 128) then Ret (Some 1%nat)
  else if decide (Z.land c 224 = 192) then
    bad ← unmasked s 1 192 128 <||> masked s 0 254 192;
    Ret (if (bad : bool) then None else Some 2%nat)
  else if decide (Z.land c 240 = 224) then
    bad ← unmasked s 1 192 128 <||> unmasked s 2 192 128 <||>
          (equals s 0 224 <&&> masked s 1 224 128) <||>
          (equals s 0 237 <&&> masked s 1 224 160) <||>
          (equals s 0 239 <&&> equals s 1 191 <&&> masked s 2 254 190);
    Ret (if (bad : bool) then None else Some 3%nat)
  else if decide (Z.land c 248 = 240) then
    bad ← unmasked s 1 192 128 <||> unmasked s 2 192 128 <||> unmasked s 3 192 128 <||>
          (equals s 0 240 <&&> masked s 1 240 128) <||>
          (equals s 0 244 <&&> above s 1 143) <||> above s 0 244;
    Ret (if (bad : bool) then None else Some 4%nat)
  else Ret None.

(** The loop; [None] when [fuel] runs out. *)
Fixpoint utf8_loop (fuel : nat) (s : cstring) : option (outcome cstring) :=
  match fuel with
  | O => None
  | S fuel =>
      match utf8_step s with
      | Ret None => Some (Ret s)
      | Ret (Some n) => utf8_loop fuel (drop n s)
      | Panic => Some Panic
      | Undef => Some Undef
      end
  end.

(** Each turn consumes a byte, so one turn per byte and one to stop is enough. *)
Definition utf8_check (s : cstring) : option (outcome cstring) :=
  utf8_loop (S (length s)) s.

(** ** Reference: code points and their encodings *)

(** The code points the scan accepts: no zero, no surrogate, neither U+FFFE nor
    U+FFFF, nothing beyond U+10FFFF. *)
Definition valid_cp (cp : Z) : Prop :=
  0 < cp < 1114112 ∧ ¬ (55296 ≤ cp < 57344) ∧ cp ≠ 65534 ∧ cp ≠ 65535.

Definition utf8_encode (cp : Z) : cstring :=
  if decide (cp < 128) then [cp]
  else if decide (cp < 2048) then [192 + cp / 64; 128 + cp mod 64]
  else if decide (cp < 65536) then
    [224 + cp / 4096; 128 + (cp / 64) mod 64; 128 + cp mod 64]
  else [240 + cp / 262144; 128 + (cp / 4096) mod 64; 128 + (cp / 64) mod 64; 128 + cp mod 64].

Definition encode_all (cps : list Z) : cstring := concat (utf8_encode <$> cps).

(** ** Masks as ranges *)

Lemma mask_range mask value lo hi :
  forallb (λ x, bool_decide (Z.land x mask = value ↔ lo ≤ x < hi)) (zrange 256) = true →
  ∀ x, 0 ≤ x < 256 → Z.land x mask = value ↔ lo ≤ x < hi.
Proof. intros H x Hx. exact (bool_decide_eq_true_1 _ (forallb_zrange _ _ H x Hx)). Qed.

Ltac by_mask := apply mask_range; vm_compute; reflexivity.
Lemma mask_224_192 : ∀ x, 0 ≤ x < 256 → Z.land x 224 = 192 ↔ 192 ≤ x < 224.
Proof. by_mask. Qed.
Lemma mask_240_224 : ∀ x, 0 ≤ x < 256 → Z.land x 240 = 224 ↔ 224 ≤ x < 240.
Proof. by_mask. Qed.
Lemma mask_248_240 : ∀ x, 0 ≤ x < 256 → Z.land x 248 = 240 ↔ 240 ≤ x < 248.
Proof. by_mask. Qed.
Lemma mask_192_128 : ∀ x, 0 ≤ x < 256 → Z.land x 192 = 128 ↔ 128 ≤ x < 192.
Proof. by_mask. Qed.
Lemma mask_254_192 : ∀ x, 0 ≤ x < 256 → Z.land x 254 = 192 ↔ 192 ≤ x < 194.
Proof. by_mask. Qed.
Lemma mask_224_128 : ∀ x, 0 ≤ x < 256 → Z.land x 224 = 128 ↔ 128 ≤ x < 160.
Proof. by_mask. Qed.
Lemma mask_224_160 : ∀ x, 0 ≤ x < 256 → Z.land x 224 = 160 ↔ 160 ≤ x < 192.
Proof. by_mask. Qed.
Lemma mask_254_190 : ∀ x, 0 ≤ x < 256 → Z.land x 254 = 190 ↔ 190 ≤ x < 192.
Proof. by_mask. Qed.
Lemma mask_240_128 : ∀ x, 0 ≤ x < 256 → Z.land x 240 = 128 ↔ 128 ≤ x < 144.
Proof. by_mask. Qed.

(** Masks in the hypotheses, as ranges. *)
Ltac ranges :=
  repeat match goal with
  | H : context [Z.land ?x ?m = ?v] |- _ =>
      first [rewrite (mask_224_192 x) in H by lia | rewrite (mask_240_224 x) in H by lia
            |rewrite (mask_248_240 x) in H by lia | rewrite (mask_192_128 x) in H by lia
            |rewrite (mask_254_192 x) in H by lia | rewrite (mask_224_128 x) in H by lia
            |rewrite (mask_224_160 x) in H by lia | rewrite (mask_254_190 x) in H by lia
            |rewrite (mask_240_128 x) in H by lia]
  end.

(** Runs one turn on a string whose first bytes are known, splitting on each
    test in the order of the code. *)
Ltac run_step :=
  unfold utf8_step, unmasked, masked, equals, above, cor, cand, rd;
  repeat (progress simpl || case_decide || case_bool_decide).

Lemma step_total s : cstring_wf s → ∃ o, utf8_step s = Ret o.
Proof.
  intros Hs. destruct s as [|a [|b [|c [|d rest]]]];
    unfold cstring_wf in Hs; decompose_Forall_hyps;
    run_step; eauto; exfalso; ranges; try lia; done.
Qed.

(** The parts of a code point: [cp = 64 * hi + lo]. *)
Lemma split_64 x : 0 ≤ x → ∃ hi lo, x / 64 = hi ∧ x mod 64 = lo ∧ x = 64 * hi + lo ∧ 0 ≤ lo < 64 ∧ 0 ≤ hi.
Proof.
  intros. exists (x / 64), (x mod 64). split_and!; try done.
  - apply Z.div_mod. lia.
  - apply Z.mod_pos_bound. lia.
  - apply Z.mod_pos_bound. lia.
  - apply Z.div_pos; lia.
Qed.

Lemma div_4096 x : x / 4096 = x / 64 / 64.
Proof. rewrite Z.div_div by lia. done. Qed.
Lemma div_262144 x : x / 262144 = x / 64 / 64 / 64.
Proof. rewrite !Z.div_div by lia. done. Qed.

Lemma step_complete cp rest :
  valid_cp cp → utf8_step (utf8_encode cp ++ rest) = Ret (Some (length (utf8_encode cp))).
Proof.
  unfold valid_cp, utf8_encode. intros (? & ? & ? & ?).
  rewrite div_262144, div_4096.
  destruct (split_64 cp) as (h1 & l1 & -> & -> & ? & ? & ?); [lia|].
  destruct (split_64 h1) as (h2 & l2 & -> & -> & ? & ? & ?); [lia|].
  destruct (split_64 h2) as (h3 & l3 & -> & -> & ? & ? & ?); [lia|].
  repeat case_decide; simpl.
  all: run_step; try done; exfalso; ranges; try lia; done.
Qed.

Lemma split_unique hi lo : 0 ≤ lo < 64 → (64 * hi + lo) / 64 = hi ∧ (64 * hi + lo) mod 64 = lo.
Proof.
  intros. split; symmetry.
  - apply (Z.div_unique _ _ _ lo); lia.
  - apply (Z.mod_unique _ _ hi); lia.
Qed.

(** Every accepted shape is the encoding of a valid code point. *)
Definition encodes (l : list Z) : Prop := ∃ cp, valid_cp cp ∧ utf8_encode cp = l.

Lemma encodes_1 a : 0 < a < 128 → encodes [a].
Proof.
  intros. exists a. unfold valid_cp, utf8_encode. rewrite decide_True by lia. split_and!; lia || done.
Qed.

Lemma encodes_2 a b : 194 ≤ a < 224 → 128 ≤ b < 192 → encodes [a; b].
Proof.
  intros. exists (64 * (a - 192) + (b - 128)). unfold valid_cp, utf8_encode.
  rewrite decide_False, decide_True by lia. split; [lia|].
  destruct (split_unique (a - 192) (b - 128)) as [-> ->]; [lia|]. repeat f_equal; lia.
Qed.

Lemma encodes_3 a b c :
  224 ≤ a < 240 → 128 ≤ b < 192 → 128 ≤ c < 192 →
  ¬ (a = 224 ∧ b < 160) → ¬ (a = 237 ∧ 160 ≤ b) → ¬ (a = 239 ∧ b = 191 ∧ 190 ≤ c) →
  encodes [a; b; c].
Proof.
  intros. exists (64 * (64 * (a - 224) + (b - 128)) + (c - 128)).
  unfold valid_cp, utf8_encode. rewrite !decide_False, decide_True by lia.
  split; [lia|]. rewrite div_4096.
  destruct (split_unique (64 * (a - 224) + (b - 128)) (c - 128)) as [-> ->]; [lia|].
  destruct (split_unique (a - 224) (b - 128)) as [-> ->]; [lia|]. repeat f_equal; lia.
Qed.

Lemma encodes_4 a b c d :
  240 ≤ a ≤ 244 → 128 ≤ b < 192 → 128 ≤ c < 192 → 128 ≤ d < 192 →
  ¬ (a = 240 ∧ b < 144) → ¬ (a = 244 ∧ 143 < b) → encodes [a; b; c; d].
Proof.
  intros. exists (64 * (64 * (64 * (a - 240) + (b - 128)) + (c - 128)) + (d - 128)).
  unfold valid_cp, utf8_encode. rewrite !decide_False by lia.
  split; [lia|]. rewrite div_262144, div_4096.
  destruct (split_unique (64 * (64 * (a - 240) + (b - 128)) + (c - 128)) (d - 128)) as [-> ->]; [lia|].
  destruct (split_unique (64 * (a - 240) + (b - 128)) (c - 128)) as [-> ->]; [lia|].
  destruct (split_unique (a - 240) (b - 128)) as [-> ->]; [lia|]. repeat f_equal; lia.
Qed.

Lemma step_sound s n :
  cstring_wf s → utf8_step s = Ret (Some n) → encodes (take n s) ∧ (0 < n ≤ length s)%nat.
Proof.
  intros Hs. destruct s as [|a [|b [|c [|d rest]]]];
    unfold cstring_wf in Hs; decompose_Forall_hyps;
    run_step; intros [= <-]; ranges; try (exfalso; lia);
    (split; [|simpl; lia]); cbn [take];
    first [apply encodes_1 | apply encodes_2 | apply encodes_3 | apply encodes_4]; lia.
Qed.

(** The loop returns what is left after the longest run of encodings. *)
Lemma utf8_loop_spec fuel s :
  cstring_wf s → (length s < fuel)%nat →
  ∃ cps rest, utf8_loop fuel s = Some (Ret rest) ∧ s = encode_all cps ++ rest ∧
    Forall valid_cp cps ∧ ∀ cp t, valid_cp cp → rest ≠ utf8_encode cp ++ t.
Proof.
  revert s. induction fuel as [|fuel IH]; intros s Hs Hf; [lia|]. cbn [utf8_loop].
  destruct (step_total s Hs) as [[n|] E]; rewrite E.
  - destruct (step_sound s n Hs E) as [(cp & Hcp & Henc) [Hn0 Hn]].
    destruct (IH (drop n s)) as (cps & rest & -> & Hd & Hcps & Hrest).
    { by apply Forall_drop. }
    { rewrite length_drop. lia. }
    exists (cp :: cps), rest. split_and!; [done| |by constructor|done].
    rewrite <-(take_drop n s), Hd, <-Henc. unfold encode_all. simpl. by rewrite (assoc_L (++)).
  - exists [], s. split_and!; [done..|]. intros cp t Hcp ->.
    by rewrite step_complete in E.
Qed.

(** The scan terminates, never reads past the terminator, and stops exactly
    at the first position where no valid encoding starts. *)
Theorem utf8_check_spec s :
  cstring_wf s →
  ∃ cps rest, utf8_check s = Some (Ret rest) ∧ s = encode_all cps ++ rest ∧
    Forall valid_cp cps ∧ ∀ cp t, valid_cp cp → rest ≠ utf8_encode cp ++ t.
Proof. intros Hs. apply utf8_loop_spec; [done|lia]. Qed.

Lemma encode_nonempty cp : utf8_encode cp ≠ [].
Proof. unfold utf8_encode. repeat case_decide; done. Qed.

Lemma encode_all_wf cps : Forall valid_cp cps → cstring_wf (encode_all cps).
Proof.
  unfold encode_all. induction 1 as [|cp cps Hcp _ IH]; [constructor|]. simpl.
  apply cstring_wf_app. split; [|done].
  unfold valid_cp in Hcp. unfold utf8_encode, cstring_wf. rewrite div_262144, div_4096.
  destruct (split_64 cp) as (h1 & l1 & -> & -> & ? & ? & ?); [lia|].
  destruct (split_64 h1) as (h2 & l2 & -> & -> & ? & ? & ?); [lia|].
  destruct (split_64 h2) as (h3 & l3 & -> & -> & ? & ? & ?); [lia|].
  repeat case_decide; repeat constructor; lia.
Qed.

Lemma utf8_loop_accepts fuel cps :
  Forall valid_cp cps → (length (encode_all cps) < fuel)%nat →
  utf8_loop fuel (encode_all cps) = Some (Ret []).
Proof.
  revert cps. induction fuel as [|fuel IH]; intros cps Hcps Hf; [lia|].
  destruct cps as [|cp cps]; [done|]. apply Forall_cons in Hcps as [Hcp Hcps].
  unfold encode_all in *. cbn [utf8_loop fmap list_fmap concat] in *.
  rewrite step_complete by done. rewrite drop_app_length. apply IH; [done|].
  rewrite length_app in Hf. pose proof (encode_nonempty cp).
  destruct (utf8_encode cp); [done|]. simpl in Hf. lia.
Qed.

(** A string is accepted exactly when it encodes a list of valid code points. *)
Theorem utf8_check_accepts s :
  cstring_wf s →
  utf8_check s = Some (Ret []) ↔ ∃ cps, Forall valid_cp cps ∧ s = encode_all cps.
Proof.
  intros Hs. split.
  - intros H. destruct (utf8_loop_spec (S (length s)) s Hs) as (cps & rest & E & -> & Hcps & _); [lia|].
    unfold utf8_check in H. rewrite E in H. simplify_eq. exists cps. by rewrite app_nil_r.
  - intros (cps & Hcps & ->). apply utf8_loop_accepts; [done|lia].
Qed.

(** A two byte sequence and a stray continuation byte. *)
Lemma utf8_check_spec_witness : ∃ cps rest,
  utf8_check [65; 195; 169; 128; 66] = Some (Ret rest) ∧ [65; 195; 169; 128; 66] = encode_all cps ++ rest.
Proof.
  destruct (utf8_check_spec [65; 195; 169; 128; 66]) as (cps & rest & E & H & _);
    [by repeat constructor|]. exists cps, rest. exact (conj E H).
Defined.

Lemma utf8_check_accepts_witness : utf8_check [65; 195; 169] = Some (Ret []).
Proof.
  apply (utf8_check_accepts [65; 195; 169]); [by repeat constructor|].
  exists [65; 233]. split; [|reflexivity].
  constructor; [unfold valid_cp; lia|]. constructor; [unfold valid_cp; lia|]. constructor.
Defined.

End Utf8.
