(* ===== verification/Parse.v ===== *)
(** * Simple parsing support: panda-server/server/parse.c, first half

    Each [error__t parse_xxx(const char **string, ...)] is a [parser]: it maps
    the cursor to a result and the advanced cursor.  The C library conversions
    [strtol], [strtoul] and [strtoull] are modelled from the C17 standard for
    base 0, with [long] as wide as the platform says. *)

From S2P Require Import Prelude Errors Utf8.
From stdpp Require Import base numbers list strings.
Open Scope Z_scope.

Module Parse.
Section parse.
Context `{Platform}.

(** ** Characters *)

Definition is_blank (c : Z) : bool := bool_decide (c = 32) || bool_decide (c = 9).
Definition isalpha (c : Z) : bool :=
  bool_decide (65 ≤ c ≤ 90) || bool_decide (97 ≤ c ≤ 122).
Definition isdigit (c : Z) : bool := bool_decide (48 ≤ c ≤ 57).
Definition isascii (c : Z) : bool := bool_decide (0 ≤ c < 128).
Definition isspace (c : Z) : bool := bool_decide (c = 32) || bool_decide (9 ≤ c ≤ 13).
Definition underscore : Z := 95.

Definition valid_name_char (c : Z) : bool :=
  isascii c && (isalpha c || bool_decide (c = underscore)).
Definition valid_alphanum_char (c : Z) : bool :=
  isascii c && (isalpha c || bool_decide (c = underscore) || isdigit c).

(** ** Whitespace *)

Fixpoint skip_whitespace (s : cstring) : cstring :=
  match s with
  | c :: t => if is_blank c then skip_whitespace t else s
  | [] => []
  end.

Definition parse_whitespace : parser unit := λ start,
  let s := skip_whitespace start in
  (test_ok (bool_decide (length s < length start)%nat) "Whitespace expected", s).

(** ** Names *)

(** The loop of [parse_filtered_name]: at most [max_length] characters are
    stored in [result]. *)
Fixpoint filtered_loop (filter_char : Z → bool) (room : nat) (s : cstring)
    : cstring * cstring :=
  match room, s with
  | S room, c :: t =>
      if filter_char c then
        let '(result, rest) := filtered_loop filter_char room t in (c :: result, rest)
      else ([], s)
  | _, _ => ([], s)
  end.

Definition parse_filtered_name (filter_char : Z → bool) (max_length : nat)
    : parser cstring := λ s,
  let '(result, rest) := filtered_loop filter_char max_length s in
  let ix := length result in
  ((_ ← test_ok (bool_decide (0 < ix)%nat) "No name found";
    _ ← test_ok (bool_decide (ix < max_length)%nat) "Name too long";
    mret result), rest).

Definition parse_name (max_length : nat) : parser cstring :=
  parse_filtered_name valid_name_char max_length.

Definition parse_alphanum_name (max_length : nat) : parser cstring :=
  c ← peek;
  _ ← lift (test_ok (valid_name_char c) "No name found");
  parse_filtered_name valid_alphanum_char max_length.

(** The final loop of [parse_block_name], which steps the cursor back while the
    character before it is a digit: the characters before the cursor, last one first, are moved back to its right while they are digits.
    [Undef]: the cursor would pass the start of the string. *)
Fixpoint back_over_digits (before : cstring) (s : cstring) : outcome (cstring * cstring) :=
  match before with
  | c :: before' => if isdigit c then back_over_digits before' (c :: s) else Ret (before, s)
  | [] => Undef
  end.

Definition parse_block_name (max_length : nat) (start : cstring)
    : outcome (res cstring * cstring) :=
  match parse_alphanum_name max_length start with
  | (OK result, s) =>
      '(before, s) ← back_over_digits (rev result) s; Ret (OK (rev before), s)
  | (Err e, s) => Ret (Err e, s)
  end.

(** ** Characters and strings *)

Definition read_char (ch : Z) (s : cstring) : bool * cstring :=
  match s with
  | c :: t => if decide (c = ch) then (true, t) else (false, s)
  | [] => (false, s)
  end.

(** [strncmp(s, expected, strlen(expected)) == 0]. *)
Definition read_string (expected : cstring) (s : cstring) : bool * cstring :=
  if decide (take (length expected) s = expected)
  then (true, drop (length expected) s) else (false, s).

Definition parse_char (ch : Ascii.ascii) : parser unit := λ s,
  let '(ok, s') := read_char ch s in
  (test_ok ok ("Character '" +:+ String ch "' expected"), s').

Definition parse_bit : parser bool := λ s,
  if decide (cur s = 48 ∨ cur s = 49)
  then (OK (bool_decide (cur s = 49)), tail s)
  else (fail "Invalid bit value", s).

Definition parse_eos : parser unit := λ s,
  (test_ok (bool_decide (cur s = 0)) "Unexpected character after input", s).

(** ** Numbers: the C library conversions for base 0 *)

Definition digit_value (c : Z) : option Z :=
  if decide (48 ≤ c ≤ 57) then Some (c - 48)
  else if decide (97 ≤ c ≤ 122) then Some (c - 87)
  else if decide (65 ≤ c ≤ 90) then Some (c - 55)
  else None.

Definition digit_in (base c : Z) : option Z :=
  match digit_value c with
  | Some d => if decide (d < base) then Some d else None
  | None => None
  end.

(** Reads the longest run of digits: accumulated value and end of the run. *)
Fixpoint digits (base acc : Z) (s : cstring) : Z * cstring :=
  match s with
  | c :: t =>
      match digit_in base c with
      | Some d => digits base (acc * base + d) t
      | None => (acc, s)
      end
  | [] => (acc, [])
  end.

Fixpoint skip_isspace (s : cstring) : cstring :=
  match s with
  | c :: t => if isspace c then skip_isspace t else s
  | [] => []
  end.

(** Optional sign. *)
Definition read_sign (s : cstring) : bool * cstring :=
  match s with
  | c :: t => if decide (c = 45) then (true, t) else if decide (c = 43) then (false, t) else (false, s)
  | [] => (false, s)
  end.

(** The base and the position of the first digit: [0x] counts as a prefix only
    when a hexadecimal digit follows. *)
Definition read_base (s : cstring) : Z * cstring :=
  match s with
  | z :: x :: h :: t =>
      if decide (z = 48 ∧ (x = 120 ∨ x = 88) ∧ is_Some (digit_in 16 h)) then (16, h :: t)
      else if decide (z = 48) then (8, s) else (10, s)
  | z :: _ => if decide (z = 48) then (8, s) else (10, s)
  | [] => (10, s)
  end.

(** The subject sequence: sign, magnitude and end; [None] when there is none. *)
Definition scan_number (s : cstring) : option (bool * Z * cstring) :=
  let '(neg, s1) := read_sign (skip_isspace s) in
  let '(base, s2) := read_base s1 in
  match digit_in base (cur s2) with
  | Some _ => let '(m, end_) := digits base 0 s2 in Some (neg, m, end_)
  | None => None
  end.

(** [strtoul] with a result of [w] bits. *)
Definition strtoull_w (w : Z) (s : cstring) : Z * cstring * option errno :=
  match scan_number s with
  | None => (0, s, None)
  | Some (neg, m, end_) =>
      if decide (2 ^ w ≤ m) then (2 ^ w - 1, end_, Some ERANGE)
      else (if neg : bool then wrap w (- m) else m, end_, None)
  end.
Definition strtoul := strtoull_w long_bits.
Definition strtoull := strtoull_w 64.

Definition strtol (s : cstring) : Z * cstring * option errno :=
  match scan_number s with
  | None => (0, s, None)
  | Some (neg, m, end_) =>
      if neg : bool then
        if decide (2 ^ (long_bits - 1) < m) then (- 2 ^ (long_bits - 1), end_, Some ERANGE)
        else (- m, end_, None)
      else
        if decide (2 ^ (long_bits - 1) ≤ m) then (2 ^ (long_bits - 1) - 1, end_, Some ERANGE)
        else (m, end_, None)
  end.

(** ** Numbers: the parsers *)

Definition check_number (start end_ : cstring) (eno : option errno) : res unit :=
  _ ← test_ok (bool_decide (length end_ < length start)%nat) "Number missing";
  match eno with
  | None => OK tt
  | Some e => res_of (TEST_OK_IO_ false e "Error converting number")
  end.

(** [DEFINE_PARSE_NUM]. *)
Definition parse_num (convert : cstring → Z * cstring * option errno) (cast : Z → Z)
    : parser Z := λ start,
  let '(value, end_, eno) := convert start in
  ((_ ← check_number start end_ eno; mret (cast value)), end_).

Definition parse_int : parser Z := parse_num strtol (to_signed 32).
Definition parse_uint : parser Z := parse_num strtoul u32.
Definition parse_uint32 : parser Z := parse_num strtoul u32.
Definition parse_uint64 : parser Z := parse_num strtoull u64.

(** [parse_uint_array]: [length] numbers separated by whitespace. *)
Fixpoint uint_array_loop (first : bool) (length : nat) : parser (list Z) :=
  match length with
  | O => mret []
  | S n =>
      _ ← (if first then mret () else parse_whitespace);
      x ← parse_uint;
      xs ← uint_array_loop false n;
      mret (x :: xs)
  end.
Definition parse_uint_array (length : nat) : parser (list Z) := uint_array_loop true length.

(** ** UTF-8 strings *)

(** The end of the valid prefix.  [utf8_check_spec] shows that the scan always
    returns, so the last case is never taken on a C string. *)
Definition utf8_end (s : cstring) : cstring :=
  match Utf8.utf8_check s with Some (Ret rest) => rest | _ => s end.

(** The parsed string is the rest of the input. *)
Definition parse_utf8_string : parser cstring := λ input,
  let s := utf8_end input in
  ((_ ← test_ok (bool_decide (cur s = 0)) "Malformed UTF-8 encoding"; mret input), s).

(** ** Every parser leaves a suffix of its input *)

Class Advances {A} (p : parser A) : Prop := advances s : (p s).2 `suffix_of` s.

#[export] Instance advances_ret A (a : A) : Advances (mret a).
Proof. intros s. done. Qed.
#[export] Instance advances_lift A (r : res A) : Advances (lift r).
Proof. intros s. done. Qed.
#[export] Instance advances_peek : Advances peek.
Proof. intros s. done. Qed.
#[export] Instance advances_bind A B (p : parser A) (f : A → parser B) :
  Advances p → (∀ a, Advances (f a)) → Advances (p ≫= f).
Proof.
  intros Hp Hf s. unfold mbind, parser_bind. specialize (Hp s).
  destruct (p s) as [[a|e] s']; simpl in *; [|done]. etrans; [apply Hf|done].
Qed.

Lemma skip_whitespace_suffix s : skip_whitespace s `suffix_of` s.
Proof. induction s as [|c s IH]; simpl; [done|]. destruct (is_blank c); [by apply suffix_cons_r|done]. Qed.

#[export] Instance advances_whitespace : Advances parse_whitespace.
Proof. intros s. apply skip_whitespace_suffix. Qed.

Lemma filtered_loop_app f n s :
  let '(result, rest) := filtered_loop f n s in s = result ++ rest.
Proof.
  revert s. induction n as [|n IH]; intros [|c s]; simpl; try done.
  destruct (f c); [|done]. specialize (IH s). destruct (filtered_loop f n s). simpl. congruence.
Qed.

#[export] Instance advances_filtered f n : Advances (parse_filtered_name f n).
Proof.
  intros s. unfold parse_filtered_name. pose proof (filtered_loop_app f n s) as E.
  destruct (filtered_loop f n s) as [result rest]. subst s. simpl. by eexists.
Qed.
#[export] Instance advances_name n : Advances (parse_name n) := _.
#[export] Instance advances_alphanum_name n : Advances (parse_alphanum_name n).
Proof. unfold parse_alphanum_name. apply _. Qed.

#[export] Instance advances_char c : Advances (parse_char c).
Proof.
  intros [|x s]; unfold parse_char, read_char; simpl; [done|].
  case_decide; simpl; [by apply suffix_cons_r|done].
Qed.
#[export] Instance advances_bit : Advances parse_bit.
Proof. intros s. unfold parse_bit. case_decide; simpl; [|done]. destruct s; simpl; [done|by apply suffix_cons_r]. Qed.
#[export] Instance advances_eos : Advances parse_eos.
Proof. intros s. done. Qed.

Lemma digits_suffix base acc s : (digits base acc s).2 `suffix_of` s.
Proof.
  revert acc. induction s as [|c s IH]; intros acc; simpl; [done|].
  destruct (digit_in base c); [by apply suffix_cons_r|done].
Qed.
Lemma skip_isspace_suffix s : skip_isspace s `suffix_of` s.
Proof. induction s as [|c s IH]; simpl; [done|]. destruct (isspace c); [by apply suffix_cons_r|done]. Qed.
Lemma read_sign_suffix s : (read_sign s).2 `suffix_of` s.
Proof. destruct s; simpl; [done|]. repeat case_decide; simpl; done || by apply suffix_cons_r. Qed.
Lemma read_base_suffix s : (read_base s).2 `suffix_of` s.
Proof.
  destruct s as [|z [|x [|h t]]]; simpl; repeat case_decide; simpl; try done.
  by do 2 apply suffix_cons_r.
Qed.

Lemma digits_consumes base acc s d :
  digit_in base (cur s) = Some d → (length (digits base acc s).2 < length s)%nat.
Proof.
  destruct s as [|c s]; simpl; intros Hd.
  - by change (digit_in base 0) with (@None Z) in Hd.
  - rewrite Hd. pose proof (suffix_length _ _ (digits_suffix base (acc * base + d) s)). lia.
Qed.

(** A number was scanned: the end is a proper suffix. *)
Lemma scan_number_suffix s neg m end_ :
  scan_number s = Some (neg, m, end_) → end_ `suffix_of` s ∧ (length end_ < length s)%nat.
Proof.
  unfold scan_number. intros E.
  pose proof (skip_isspace_suffix s) as H1.
  pose proof (read_sign_suffix (skip_isspace s)) as H2.
  destruct (read_sign (skip_isspace s)) as [ng s1].
  pose proof (read_base_suffix s1) as H3. destruct (read_base s1) as [base s2].
  destruct (digit_in base (cur s2)) as [d|] eqn:Ed; [|done].
  pose proof (digits_consumes base 0 s2 d Ed) as Hlt.
  pose proof (digits_suffix base 0 s2) as H4.
  destruct (digits base 0 s2) as [v e]. simplify_eq. simpl in *.
  assert (s2 `suffix_of` s) as H5 by (etrans; [done|]; by etrans).
  split; [by etrans|]. apply suffix_length in H5. lia.
Qed.

(** The conversions leave a suffix, proper exactly when there was a number. *)
Definition converts (convert : cstring → Z * cstring * option errno) : Prop :=
  ∀ s, let '(_, end_, _) := convert s in
    match scan_number s with
    | None => end_ = s
    | Some (_, _, e) => end_ = e
    end.

Lemma strtoull_converts w : converts (strtoull_w w).
Proof. intros s. unfold strtoull_w. destruct (scan_number s) as [[[??]?]|]; [|done]. by case_decide. Qed.
Lemma strtol_converts : converts strtol.
Proof.
  intros s. unfold strtol. destruct (scan_number s) as [[[[]?]?]|]; [| |done]; by case_decide.
Qed.

Lemma parse_num_advances convert cast : converts convert → Advances (parse_num convert cast).
Proof.
  intros Hc s. specialize (Hc s). unfold parse_num. destruct (convert s) as [[v e] eno]. simpl.
  destruct (scan_number s) as [[[??]?]|] eqn:E; subst; [|done].
  by eapply scan_number_suffix.
Qed.
#[export] Instance advances_int : Advances parse_int := parse_num_advances _ _ strtol_converts.
#[export] Instance advances_uint : Advances parse_uint := parse_num_advances _ _ (strtoull_converts _).
#[export] Instance advances_uint32 : Advances parse_uint32 := parse_num_advances _ _ (strtoull_converts _).
#[export] Instance advances_uint64 : Advances parse_uint64 := parse_num_advances _ _ (strtoull_converts _).
#[export] Instance advances_uint_array n : Advances (parse_uint_array n).
Proof.
  unfold parse_uint_array. generalize true. induction n as [|n IH]; intros b; simpl; [apply _|].
  destruct b; apply _.
Qed.

(** ** Names *)

Lemma filtered_loop_spec f n s result rest :
  filtered_loop f n s = (result, rest) →
  s = result ++ rest ∧ Forall (λ c, f c = true) result ∧ (length result ≤ n)%nat ∧
  ((length result < n)%nat → ∀ c t, rest = c :: t → f c = false).
Proof.
  revert s result rest. induction n as [|n IH]; intros [|c s] result rest; simpl; intros E;
    simplify_eq; try (split_and!; (done || (simpl; lia)) || (intros; simplify_eq; simpl in *; lia)).
  destruct (f c) eqn:Ec.
  - destruct (filtered_loop f n s) as [r t] eqn:Er. simplify_eq.
    destruct (IH _ _ _ Er) as (-> & Hf & Hl & Hr).
    split_and!; [done|by constructor|simpl; lia|]. intros Hlt. apply Hr. simpl in Hlt. lia.
  - simplify_eq. split_and!; [done..|simpl; lia|]. intros _ c' t' ?. by simplify_eq.
Qed.

(** What a name of [parse_name] and its variants is. *)
Record name_of (f : Z → bool) (max_length : nat) (s name rest : cstring) : Prop := {
  name_split : s = name ++ rest;
  name_chars : Forall (λ c, f c = true) name;
  name_bounds : (0 < length name < max_length)%nat;
  name_longest : ∀ c t, rest = c :: t → f c = false;
}.

Lemma filtered_loop_complete f n name rest :
  Forall (λ c, f c = true) name → (length name < n)%nat →
  (∀ c t, rest = c :: t → f c = false) → filtered_loop f n (name ++ rest) = (name, rest).
Proof.
  intros Hf. revert n. induction Hf as [|c name Hc _ IH]; intros n Hn Hr; simpl in *.
  - destruct n; [lia|]. destruct rest as [|c t]; [done|]. simpl. by rewrite (Hr c t).
  - destruct n; [lia|]. simpl. rewrite Hc, IH by (done || lia). done.
Qed.

Lemma parse_filtered_name_iff f n s name rest :
  parse_filtered_name f n s = (OK name, rest) ↔ name_of f n s name rest.
Proof.
  unfold parse_filtered_name. split.
  - destruct (filtered_loop f n s) as [r t] eqn:E. apply filtered_loop_spec in E as (-> & Hf & Hl & Hr).
    unfold test_ok, TEST_OK_. repeat case_bool_decide; simpl; intros [= <- <-].
    split; [done|done|lia|by apply Hr].
  - intros [-> Hf Hb Hr]. rewrite filtered_loop_complete by (done || lia).
    unfold test_ok, TEST_OK_. rewrite !bool_decide_true by lia. done.
Qed.

(** [parse_name] succeeds exactly on a non-empty run of letters and
    underscores that, with its terminator, fits the result array; it takes the
    longest such run and leaves the cursor after it. *)
Theorem parse_name_iff max_length s name rest :
  parse_name max_length s = (OK name, rest) ↔ name_of valid_name_char max_length s name rest.
Proof. apply parse_filtered_name_iff. Qed.

Lemma parse_alphanum_name_iff n s name rest :
  parse_alphanum_name n s = (OK name, rest) ↔
    name_of valid_alphanum_char n s name rest ∧ valid_name_char (cur name) = true.
Proof.
  unfold parse_alphanum_name, mbind, parser_bind, peek, lift, test_ok, TEST_OK_.
  assert (Hhd : ∀ t, name_of valid_alphanum_char n s name t → cur s = cur name).
  { intros t [-> _ Hb _]. destruct name; simpl in *; [lia|done]. }
  destruct (valid_name_char (cur s)) eqn:E; simpl.
  - rewrite parse_filtered_name_iff. split; [|tauto]. intros Hn. split; [done|]. by rewrite <-(Hhd _ Hn).
  - split; [done|]. intros [Hn Hc]. rewrite (Hhd _ Hn) in E. congruence.
Qed.

Lemma back_over_digits_spec before s c b :
  before = c :: b → Exists (λ c, isdigit c = false) before →
  ∃ ds l b', back_over_digits before s = Ret (l :: b', ds ++ s) ∧
    before = rev ds ++ l :: b' ∧ Forall (λ c, isdigit c = true) ds ∧ isdigit l = false.
Proof.
  intros -> Hex. remember (c :: b) as before eqn:Eb. clear c b Eb.
  revert s. induction Hex as [c b Hc|c b _ IH]; intros s; simpl.
  - rewrite Hc. by exists [], c, b.
  - destruct (isdigit c) eqn:Ec; [|by exists [], c, b].
    destruct (IH (c :: s)) as (ds & l & b' & -> & -> & Hds & Hl).
    exists (ds ++ [c]), l, b'. rewrite <-(assoc_L (++)). split_and!; [done| | |done].
    + by rewrite rev_app_distr.
    + apply Forall_app; auto.
Qed.

Lemma name_char_not_digit c : valid_name_char c = true → isdigit c = false.
Proof.
  unfold valid_name_char, isascii, isalpha, isdigit, underscore.
  rewrite !andb_true_iff, !orb_true_iff, !bool_decide_eq_true, bool_decide_eq_false. lia.
Qed.

(** A block name is an alphanumeric name less its trailing digits.  The
    cursor is stepped back over the digits, never past the first character,
    which is not a digit. *)
Theorem parse_block_name_spec max_length s full rest :
  parse_alphanum_name max_length s = (OK full, rest) →
  ∃ name ds, parse_block_name max_length s = Ret (OK name, ds ++ rest) ∧
    full = name ++ ds ∧ s = name ++ ds ++ rest ∧ name ≠ [] ∧
    Forall (λ c, isdigit c = true) ds ∧ (∀ l, last name = Some l → isdigit l = false).
Proof.
  intros E. unfold parse_block_name. rewrite E.
  apply parse_alphanum_name_iff in E as [[Hs Hf Hb Hr] Hc].
  destruct full as [|c full]; [simpl in Hb; lia|]. simpl in Hc.
  destruct (rev (c :: full)) as [|x b] eqn:Erev.
  { apply (f_equal length) in Erev. rewrite length_rev in Erev. done. }
  destruct (back_over_digits_spec (rev (c :: full)) rest x b) as (ds & l & b' & Hback & Hsplit & Hds & Hl).
  { done. }
  { apply Exists_exists. exists c. split; [|by apply name_char_not_digit].
    apply list_elem_of_In, in_rev. rewrite rev_involutive. by left. }
  rewrite <-Erev, Hback. exists (rev (l :: b')), ds.
  assert (c :: full = rev (l :: b') ++ ds) as Hfull.
  { apply (f_equal (@rev Z)) in Hsplit. rewrite rev_involutive, rev_app_distr, rev_involutive in Hsplit. done. }
  split_and!; [done|done| | |done|].
  - rewrite Hs, Hfull. by rewrite (assoc_L (++)).
  - simpl. destruct (rev b'); done.
  - intros l'. simpl. rewrite last_snoc. by intros [= ->].
Qed.

(** A name is read up to the first character that cannot belong to it. *)
Lemma filtered_loop_name f n room rest :
  (length n < room)%nat → Forall (λ c, f c = true) n → (∀ c, head rest = Some c → f c = false) →
  filtered_loop f room (n ++ rest) = (n, rest).
Proof.
  revert room. induction n as [|c n IH]; intros room Hr Hn Hrest.
  - destruct room; [simpl in Hr; lia|]. destruct rest as [|c rest]; [done|]. simpl. by rewrite (Hrest c).
  - destruct room; simpl in Hr; [lia|]. apply list.Forall_cons in Hn as [Hc Hn]. simpl.
    rewrite Hc, IH by (done || lia). done.
Qed.

Lemma skip_blanks b rest :
  Forall (λ c, is_blank c = true) b → is_blank (cur rest) = false → skip_whitespace (b ++ rest) = rest.
Proof.
  intros Hb Hr. induction Hb as [|c b Hc Hb IH]; simpl; [|by rewrite Hc].
  destruct rest as [|c rest]; [done|]. simpl in *. by rewrite Hr.
Qed.

End parse.
Lemma parse_block_name_spec_witness :
  ∃ name ds, parse_block_name 10 (bytes_of "TTLIN12.VAL") = Ret (OK name, ds ++ bytes_of ".VAL") ∧
    bytes_of "TTLIN12" = name ++ ds.
Proof.
  destruct (parse_block_name_spec 10 (bytes_of "TTLIN12.VAL") (bytes_of "TTLIN12") (bytes_of ".VAL"))
    as (name & ds & E & H & _); [reflexivity|].
  exists name, ds. exact (conj E H).
Defined.

End Parse.
