(* ===== verification/Format.v ===== *)
(** * Number formatting, and its inverse

    The [printf] conversions the server uses on integers ("%u", "%d", "0x%08X"),
    [format_string] of panda-server/server/config_server.c, and the round trips
    with the number parsers of parse.c. *)

From S2P Require Import Prelude Errors Parse.
From stdpp Require Import base numbers list strings.
Open Scope Z_scope.

Module Format.
Import Parse.

(** ** Printing *)

Definition digit_char (d : Z) : Z := if decide (d < 10) then 48 + d else 55 + d.

(** The digits of [n], least significant first into the accumulator. *)
Fixpoint print_loop (fuel : nat) (base n : Z) (acc : cstring) : cstring :=
  match fuel with
  | O => acc
  | S fuel =>
      let acc := digit_char (n mod base) :: acc in
      if decide (n / base = 0) then acc else print_loop fuel base (n / base) acc
  end.

(** A [base] of at least 2 has no more digits than there are bits. *)
Definition print_uint (base n : Z) : cstring :=
  print_loop (S (Z.to_nat (Z.log2 n))) base n [].

(** "%u", "%d" and "0x%08X". *)
Definition fmt_u (n : Z) : cstring := print_uint 10 n.
Definition fmt_d (n : Z) : cstring :=
  if decide (n < 0) then 45 :: print_uint 10 (- n) else print_uint 10 n.
Definition fmt_0x08X (n : Z) : cstring :=
  let ds := print_uint 16 n in
  bytes_of "0x" ++ replicate (8 - length ds) 48 ++ ds.

(** "%4d" and "%02d", of a number that is not negative: blanks or zeros in front. *)
Definition fmt_pad (c : Z) (width : nat) (n : Z) : cstring := let ds := fmt_d n in replicate (width - length ds) c ++ ds.

(** [format_string]: the text must fit the buffer with its terminator. *)
Definition format_string (length_ : nat) (text : cstring) : res cstring :=
  _ ← test_ok (bool_decide (length text < length_)%nat) "Result too long"; mret text.

(** ** Reading back *)

Lemma digit_in_char base d : 2 ≤ base ≤ 16 → 0 ≤ d < base → digit_in base (digit_char d) = Some d.
Proof.
  intros ??. unfold digit_in, digit_value, digit_char.
  repeat case_decide; simplify_eq; try (exfalso; lia); f_equal; lia.
Qed.

(** [l] reads as the number [n] in [base]. *)
Definition reads (base : Z) (l : cstring) (n : Z) : Prop :=
  ∀ acc rest, digits base acc (l ++ rest) = digits base (acc * base ^ Z.of_nat (length l) + n) rest.

Lemma reads_nil base : reads base [] 0.
Proof. intros acc rest. simpl. f_equal. lia. Qed.

Lemma reads_cons base d l n :
  2 ≤ base ≤ 16 → 0 ≤ d < base → reads base l n →
  reads base (digit_char d :: l) (d * base ^ Z.of_nat (length l) + n).
Proof.
  intros Hb Hd Hl acc rest. cbn [app digits length]. rewrite digit_in_char by done.
  rewrite Hl. f_equal. rewrite Nat2Z.inj_succ, Z.pow_succ_r by lia. ring.
Qed.

Lemma print_loop_reads fuel base n acc v :
  2 ≤ base ≤ 16 → 0 ≤ n < base ^ Z.of_nat fuel → reads base acc v →
  reads base (print_loop fuel base n acc) (n * base ^ Z.of_nat (length acc) + v).
Proof.
  intros Hb. revert n acc v. induction fuel as [|fuel IH]; intros n acc v Hn Hacc.
  { simpl in *. assert (n = 0) as -> by lia. done. }
  cbn [print_loop]. pose proof (Z.mod_pos_bound n base) as Hm.
  pose proof (Z.div_mod n base) as Hdm.
  assert (Hc : reads base (digit_char (n mod base) :: acc)
                 (n mod base * base ^ Z.of_nat (length acc) + v)) by (apply reads_cons; lia || done).
  case_decide as Hq.
  - replace (n * _ + v) with (n mod base * base ^ Z.of_nat (length acc) + v); [done|].
    rewrite Hq in Hdm. rewrite <-(Z.add_0_l (n mod base)), <-(Z.mul_0_r base), <-Hdm by lia. done.
  - replace (n * base ^ Z.of_nat (length acc) + v)
      with (n / base * base ^ Z.of_nat (length (digit_char (n mod base) :: acc)) +
            (n mod base * base ^ Z.of_nat (length acc) + v)).
    + apply IH; [|done]. split; [apply Z.div_pos; lia|].
      apply Z.div_lt_upper_bound; [lia|]. rewrite <-Z.pow_succ_r by lia.
      rewrite <-Nat2Z.inj_succ. lia.
    + cbn [length]. rewrite Nat2Z.inj_succ, Z.pow_succ_r by lia.
      transitivity ((base * (n / base) + n mod base) * base ^ Z.of_nat (length acc) + v); [ring|].
      by rewrite <-Hdm by lia.
Qed.

Lemma print_fuel base n : 2 ≤ base → 0 ≤ n → n < base ^ Z.of_nat (S (Z.to_nat (Z.log2 n))).
Proof.
  intros Hb Hn. rewrite Nat2Z.inj_succ, Z2Nat.id by apply Z.log2_nonneg.
  apply Z.lt_le_trans with (2 ^ Z.succ (Z.log2 n)).
  - destruct (decide (n = 0)) as [->|]; [by vm_compute|]. apply Z.log2_spec. lia.
  - apply Z.pow_le_mono_l. lia.
Qed.

Lemma print_uint_reads base n : 2 ≤ base ≤ 16 → 0 ≤ n → reads base (print_uint base n) n.
Proof.
  intros Hb Hn. unfold print_uint.
  replace n with (n * base ^ Z.of_nat (length (@nil Z)) + 0) at 3 by (simpl; lia).
  apply print_loop_reads; [done| |apply reads_nil].
  split; [done|]. apply print_fuel; lia.
Qed.

(** The leading digit: zero only for zero. *)
Lemma print_loop_head fuel base n acc :
  2 ≤ base ≤ 16 → 0 < n < base ^ Z.of_nat fuel →
  ∃ d t, print_loop fuel base n acc = digit_char d :: t ∧ 0 < d < base.
Proof.
  intros Hb. revert n acc. induction fuel as [|fuel IH]; intros n acc Hn; [simpl in Hn; lia|].
  cbn [print_loop]. pose proof (Z.mod_pos_bound n base) as Hm.
  pose proof (Z.div_mod n base) as Hdm. case_decide as Hq.
  - exists (n mod base), acc. rewrite Hq in Hdm. split; [done|]. lia.
  - apply IH. split; [pose proof (Z.div_pos n base); lia|].
    apply Z.div_lt_upper_bound; [lia|]. rewrite <-Z.pow_succ_r by lia. rewrite <-Nat2Z.inj_succ. lia.
Qed.

Lemma print_uint_head base n :
  2 ≤ base ≤ 16 → 0 < n → ∃ d t, print_uint base n = digit_char d :: t ∧ 0 < d < base.
Proof. intros. apply print_loop_head; [done|]. split; [done|]. apply print_fuel; lia. Qed.

(** What may follow a number without being read as part of it. *)
Definition stops (rest : cstring) : Prop := digit_value (cur rest) = None.

Lemma digits_stop base acc rest : stops rest → digits base acc rest = (acc, rest).
Proof.
  destruct rest as [|c t]; [done|]. unfold stops. simpl. intros Hs. unfold digit_in. by rewrite Hs.
Qed.

Lemma scan_uint neg s n rest :
  0 ≤ n → stops rest → read_sign (skip_isspace s) = (neg, print_uint 10 n ++ rest) →
  scan_number s = Some (neg, n, rest).
Proof.
  intros Hn Hs Hsign. unfold scan_number. rewrite Hsign.
  pose proof (print_uint_reads 10 n ltac:(lia) Hn 0 rest) as Hr.
  destruct (decide (n = 0)) as [->|Hnz].
  - change (print_uint 10 0) with [48] in *. cbn [app] in *.
    assert (read_base (48 :: rest) = (8, 48 :: rest)) as ->.
    { unfold read_base. destruct rest as [|x [|h t]]; [done|done|].
      rewrite decide_False; [done|]. intros (_ & [-> | ->] & _); unfold stops in Hs; vm_compute in Hs; done. }
    change (digits 8 0 (48 :: rest)) with (digits 8 0 rest). by rewrite digits_stop.
  - destruct (print_uint_head 10 n) as (d & t & E & Hd); [lia..|]. rewrite E in *. cbn [app] in *.
    assert (Hc : digit_char d = 48 + d) by (unfold digit_char; rewrite decide_True; lia).
    assert (read_base (digit_char d :: t ++ rest) = (10, digit_char d :: t ++ rest)) as ->.
    { unfold read_base. rewrite Hc. destruct (t ++ rest) as [|x [|h u]];
        rewrite ?decide_False by lia; done. }
    cbn [cur]. rewrite digit_in_char by lia. rewrite Hr, digits_stop by done.
    do 2 f_equal.
Qed.

Lemma print_uint_first n rest :
  0 ≤ n → ∃ c t, print_uint 10 n ++ rest = c :: t ∧ 48 ≤ c ≤ 57.
Proof.
  intros Hn. destruct (decide (n = 0)) as [->|].
  - exists 48, rest. split; [done|lia].
  - destruct (print_uint_head 10 n) as (d & t & -> & Hd); [lia..|].
    exists (digit_char d), (t ++ rest). split; [done|]. unfold digit_char. rewrite decide_True; lia.
Qed.

Lemma skip_isspace_nonspace c t : isspace c = false → skip_isspace (c :: t) = c :: t.
Proof. intros E. simpl. by rewrite E. Qed.

Lemma scan_fmt_u n rest : 0 ≤ n → stops rest → scan_number (fmt_u n ++ rest) = Some (false, n, rest).
Proof.
  intros Hn Hs. unfold fmt_u. apply scan_uint; [done..|].
  destruct (print_uint_first n rest Hn) as (c & t & -> & Hc).
  rewrite skip_isspace_nonspace by (unfold isspace; rewrite !bool_decide_false by lia; done).
  unfold read_sign. rewrite !decide_False by lia. done.
Qed.

Lemma scan_fmt_d n rest :
  stops rest → scan_number (fmt_d n ++ rest) = Some (bool_decide (n < 0), Z.abs n, rest).
Proof.
  intros Hs. unfold fmt_d. case_decide.
  - rewrite bool_decide_true by done. apply scan_uint; [lia|done|].
    replace (Z.abs n) with (- n) by lia. done.
  - rewrite bool_decide_false by done. replace (Z.abs n) with n by lia.
    apply scan_fmt_u; [lia|done].
Qed.

Section roundtrip.
Context `{Platform}.

Lemma long_bits_cases : long_bits = 32 ∨ long_bits = 64.
Proof. apply long_bits_ok. Qed.

Lemma check_number_ok start end_ :
  (length end_ < length start)%nat → check_number start end_ None = OK tt.
Proof. intros. unfold check_number, test_ok, TEST_OK_. by rewrite bool_decide_true. Qed.

Lemma check_number_erange start end_ :
  (length end_ < length start)%nat →
  check_number start end_ (Some ERANGE) =
    Err (mk_error [error_extra_io_errno ERANGE; "Error converting number"] None).
Proof. intros. unfold check_number, test_ok, TEST_OK_. by rewrite bool_decide_true. Qed.

Lemma parse_num_scan convert cast s neg m rest v eno :
  scan_number s = Some (neg, m, rest) → convert s = (v, rest, eno) →
  parse_num convert cast s = ((_ ← check_number s rest eno; mret (cast v)), rest) ∧
  (length rest < length s)%nat.
Proof.
  intros Hs Hc. unfold parse_num. rewrite Hc. split; [done|]. by eapply scan_number_suffix.
Qed.

Lemma read_uint_fmt n rest :
  0 ≤ n < 2 ^ 32 → stops rest →
  parse_uint (fmt_u n ++ rest) = (OK n, rest) ∧ parse_uint32 (fmt_u n ++ rest) = (OK n, rest).
Proof.
  intros Hn Hs.
  assert (E : strtoul (fmt_u n ++ rest) = (n, rest, None)).
  { unfold strtoul, strtoull_w. rewrite scan_fmt_u by (done || lia).
    rewrite decide_False; [done|]. destruct long_bits_cases as [-> | ->]; lia. }
  destruct (parse_num_scan strtoul u32 _ _ _ _ _ _ (scan_fmt_u n rest ltac:(lia) Hs) E) as [Hp Hl].
  unfold parse_uint, parse_uint32. rewrite Hp, check_number_ok by done.
  cbn. rewrite wrap_small by lia. done.
Qed.

(** A 32-bit register value printed with "%u" is read back by [parse_uint]
    and [parse_uint32], whatever the width of [long]. *)
Theorem parse_uint_fmt n rest :
  0 ≤ n < 2 ^ 32 → stops rest →
  parse_uint (fmt_u n ++ rest) = (OK n, rest) ∧ parse_uint32 (fmt_u n ++ rest) = (OK n, rest).
Proof. exact (read_uint_fmt n rest). Qed.

Lemma read_int_fmt n rest :
  - 2 ^ 31 ≤ n < 2 ^ 31 → stops rest → parse_int (fmt_d n ++ rest) = (OK n, rest).
Proof.
  intros Hn Hs.
  assert (E : strtol (fmt_d n ++ rest) = (n, rest, None)).
  { unfold strtol. rewrite scan_fmt_d by done. case_bool_decide.
    - rewrite decide_False by (destruct long_bits_cases as [-> | ->]; lia).
      by replace (- Z.abs n) with n by lia.
    - rewrite decide_False by (destruct long_bits_cases as [-> | ->]; lia).
      by replace (Z.abs n) with n by lia. }
  destruct (parse_num_scan strtol (to_signed 32) _ _ _ _ _ _ (scan_fmt_d n rest Hs) E) as [Hp Hl].
  unfold parse_int. rewrite Hp, check_number_ok by done. cbn. do 2 f_equal.
  unfold to_signed. destruct (decide (0 ≤ n)).
  - rewrite wrap_small by lia. rewrite decide_True by lia. done.
  - replace (wrap 32 n) with (n + 2 ^ 32); [rewrite decide_False by lia; lia|].
    symmetry. rewrite <-(wrap_small 32 (n + 2 ^ 32)) by lia.
    unfold wrap. rewrite <-(Z.mod_add n 1 (2 ^ 32)) by lia. f_equal.
Qed.

Lemma read_uint64_fmt n rest :
  0 ≤ n < 2 ^ 64 → stops rest → parse_uint64 (fmt_u n ++ rest) = (OK n, rest).
Proof.
  intros Hn Hs.
  assert (E : strtoull (fmt_u n ++ rest) = (n, rest, None)).
  { unfold strtoull, strtoull_w. rewrite scan_fmt_u by (done || lia). rewrite decide_False by lia. done. }
  destruct (parse_num_scan strtoull u64 _ _ _ _ _ _ (scan_fmt_u n rest ltac:(lia) Hs) E) as [Hp Hl].
  unfold parse_uint64. rewrite Hp, check_number_ok by done. cbn. rewrite wrap_small by lia. done.
Qed.

(** A 32-bit value printed with "%d" is read back by [parse_int]. *)
Theorem parse_int_fmt n rest :
  - 2 ^ 31 ≤ n < 2 ^ 31 → stops rest → parse_int (fmt_d n ++ rest) = (OK n, rest).
Proof. exact (read_int_fmt n rest). Qed.

(** 64-bit values round trip through [parse_uint64] on every platform. *)
Theorem parse_uint64_fmt n rest :
  0 ≤ n < 2 ^ 64 → stops rest → parse_uint64 (fmt_u n ++ rest) = (OK n, rest).
Proof. exact (read_uint64_fmt n rest). Qed.

(** A number of 2^32 or more is rejected where [long] has 32 bits, but where
    it has 64 bits it is silently reduced modulo 2^32. *)
Theorem parse_uint_overflow n rest :
  2 ^ 32 ≤ n < 2 ^ 64 → stops rest →
  (parse_uint (fmt_u n ++ rest)).1 =
    (if decide (long_bits = 32)
     then Err (mk_error [error_extra_io_errno ERANGE; "Error converting number"] None)
     else OK (n mod 2 ^ 32)).
Proof.
  intros Hn Hs. pose proof (scan_fmt_u n rest ltac:(lia) Hs) as Hscan.
  case_decide as Hw.
  - assert (E : strtoul (fmt_u n ++ rest) = (2 ^ 32 - 1, rest, Some ERANGE)).
    { unfold strtoul, strtoull_w. rewrite Hscan, Hw, decide_True by lia. done. }
    destruct (parse_num_scan strtoul u32 _ _ _ _ _ _ Hscan E) as [Hp Hl].
    unfold parse_uint. rewrite Hp, check_number_erange by done. done.
  - assert (E : strtoul (fmt_u n ++ rest) = (n, rest, None)).
    { unfold strtoul, strtoull_w. rewrite Hscan, decide_False; [done|].
      destruct long_bits_cases as [?|E]; [done|rewrite E; lia]. }
    destruct (parse_num_scan strtoul u32 _ _ _ _ _ _ Hscan E) as [Hp Hl].
    unfold parse_uint. rewrite Hp, check_number_ok by done. done.
Qed.

End roundtrip.
(** ** Concrete numbers *)

Lemma parse_uint_fmt_witness : @parse_uint AARCH64 (bytes_of "4294967295,") = (OK 4294967295, [44]).
Proof. by apply (@parse_uint_fmt AARCH64 4294967295 [44]). Defined.

Lemma parse_int_fmt_witness : @parse_int ARM32 (bytes_of "-17") = (OK (-17), []).
Proof. by apply (@parse_int_fmt ARM32 (-17) []). Defined.

Lemma parse_uint64_fmt_witness : parse_uint64 (bytes_of "18446744073709551615") = (OK 18446744073709551615, []).
Proof. by apply (parse_uint64_fmt 18446744073709551615 []). Defined.

Lemma parse_uint_overflow_witness : (@parse_uint AARCH64 (bytes_of "4294967297")).1 = OK 1.
Proof. by apply (@parse_uint_overflow AARCH64 4294967297 []). Defined.

End Format.
