(* ===== verification/Base64.v ===== *)
(** * Base 64 encoding and decoding: panda-server/server/base64.c

    [base64_encode] and [base64_decode] over byte lists, with the decode table
    that [initialise_base64] builds.  The decoder is given its buffer bound and
    returns the status, the computed length and the bytes it stored, so that
    buffer overrun can be stated. *)

From S2P Require Import Prelude.
From stdpp Require Import base numbers list list_numbers strings.
Open Scope Z_scope.

Module Base64.

(** ** Tables *)

(** The encoding alphabet. *)
Definition encode : list Z :=
  bytes_of "ABCDEFGHIJKLMNOPQRSTUVWXYZabcdefghijklmnopqrstuvwxyz0123456789+/".

Definition encode_at (i : Z) : Z := encode !!! Z.to_nat i.

(** The decode table: 0xff everywhere, then one entry per alphabet letter. *)
Definition initialise_base64 : list Z :=
  foldl (λ d i, <[Z.to_nat (encode_at i) := i]> d) (replicate 256 255) (zrange 64).

Definition decode_at (c : Z) : Z := initialise_base64 !!! Z.to_nat c.

(** ** Encoding *)

Definition equals_sign : Z := 61.

(** The characters stored for [data], without the final zero byte: the loop
    over triples, then the [switch] on the one or two bytes left. *)
Fixpoint encode_chars (data : list Z) : list Z :=
  match data with
  | a :: b :: c :: rest =>
      encode_at (Z.shiftr a 2) ::
      encode_at (Z.land (Z.lor (Z.shiftl a 4) (Z.shiftr b 4)) 63) ::
      encode_at (Z.land (Z.lor (Z.shiftl b 2) (Z.shiftr c 6)) 63) ::
      encode_at (Z.land c 63) :: encode_chars rest
  | [a; b] =>
      [encode_at (Z.shiftr a 2);
       encode_at (Z.land (Z.lor (Z.shiftl a 4) (Z.shiftr b 4)) 63);
       encode_at (Z.land (Z.shiftl b 2) 63);
       equals_sign]
  | [a] =>
      [encode_at (Z.shiftr a 2); encode_at (Z.land (Z.shiftl a 4) 63);
       equals_sign; equals_sign]
  | [] => []
  end.

(** Everything stored in [out], terminator included, and the returned length. *)
Definition base64_encode (data : list Z) : list Z * Z :=
  let out := encode_chars data ++ [0] in (out, Z.of_nat (length out)).

(** [BASE64_ENCODE_LENGTH]. *)
Definition BASE64_ENCODE_LENGTH (n : Z) : Z := (4 * n + 2) / 3.

(** ** Decoding *)

Inductive base64_status :=
  | BASE64_STATUS_OK
  | BASE64_STATUS_MALFORMED
  | BASE64_STATUS_OVERRUN.

#[export] Instance base64_status_eq_dec : EqDecision base64_status.
Proof. solve_decision. Defined.

Record decoded := mk_decoded {
  d_status : base64_status;
  d_converted : Z;
  d_out : list Z;
}.

(** [in_length] after up to two trailing [=] have been trimmed.  With an empty
    string the code reads [string[-1]]. *)
Definition trim_padding (s : cstring) : outcome nat :=
  let n := length s in
  if decide ((n mod 4)%nat = 0%nat) then
    if decide (n = 0%nat) then Undef else
    let n := if decide (s !! (n - 1)%nat = Some equals_sign) then (n - 1)%nat else n in
    let n := if decide (s !! (n - 1)%nat = Some equals_sign) then (n - 1)%nat else n in
    Ret n
  else Ret n.

(** The loop over blocks of four characters and the [switch] on the rest:
    the bytes stored, and whether the input was well formed. *)
Fixpoint decode_chars (s : list Z) : list Z * base64_status :=
  match s with
  | a :: b :: c :: d :: rest =>
      let a := decode_at a in let b := decode_at b in
      let c := decode_at c in let d := decode_at d in
      if decide (Z.lor (Z.lor (Z.lor a b) c) d = 255) then ([], BASE64_STATUS_MALFORMED)
      else
        let '(out, st) := decode_chars rest in
        (u8 (Z.lor (Z.shiftl a 2) (Z.shiftr b 4)) ::
         u8 (Z.lor (Z.shiftl b 4) (Z.shiftr c 2)) ::
         u8 (Z.lor (Z.shiftl c 6) d) :: out, st)
  | [a; b; c] =>
      let a := decode_at a in let b := decode_at b in let c := decode_at c in
      if decide (Z.lor (Z.lor a b) c = 255) then ([], BASE64_STATUS_MALFORMED)
      else ([u8 (Z.lor (Z.shiftl a 2) (Z.shiftr b 4));
             u8 (Z.lor (Z.shiftl b 4) (Z.shiftr c 2))], BASE64_STATUS_OK)
  | [a; b] =>
      let a := decode_at a in let b := decode_at b in
      if decide (Z.lor a b = 255) then ([], BASE64_STATUS_MALFORMED)
      else ([u8 (Z.lor (Z.shiftl a 2) (Z.shiftr b 4))], BASE64_STATUS_OK)
  | [_] => ([], BASE64_STATUS_MALFORMED)
  | [] => ([], BASE64_STATUS_OK)
  end.

Definition base64_decode (string : cstring) (max_length : Z) : outcome decoded :=
  in_length ← trim_padding string;
  let n := Z.of_nat in_length in
  let converted :=
    3 * (n / 4) + (if decide (n mod 4 > 0) then n mod 4 - 1 else 0) in
  if decide (converted > max_length)
  then Ret (mk_decoded BASE64_STATUS_OVERRUN converted [])
  else
    let '(out, st) := decode_chars (take in_length string) in
    Ret (mk_decoded st converted out).

Definition base64_error_string (status : base64_status) : string :=
  match status with
  | BASE64_STATUS_OK => "OK"
  | BASE64_STATUS_MALFORMED => "Malformed base64 string"
  | BASE64_STATUS_OVERRUN => "Input string too long for output buffer"
  end.

(** ** Facts about the tables, checked by computation *)

Definition is_byte (x : Z) : Prop := 0 ≤ x < 256.
Definition is_sextet (x : Z) : Prop := 0 ≤ x < 64.

(** The reference meaning of the alphabet: the position of a letter. *)
Definition alphabet_index (c : Z) : option Z :=
  if decide (65 ≤ c ≤ 90) then Some (c - 65)
  else if decide (97 ≤ c ≤ 122) then Some (c - 71)
  else if decide (48 ≤ c ≤ 57) then Some (c + 4)
  else if decide (c = 43) then Some 62
  else if decide (c = 47) then Some 63
  else None.

Lemma decode_encode_at i : is_sextet i → decode_at (encode_at i) = i.
Proof.
  intros Hi.
  assert (H : forallb (λ i, bool_decide (decode_at (encode_at i) = i)) (zrange 64) = true)
    by (vm_compute; reflexivity).
  exact (bool_decide_eq_true_1 _ (forallb_zrange _ _ H i Hi)).
Qed.

Lemma decode_at_spec c : is_byte c → decode_at c = default 255 (alphabet_index c).
Proof.
  intros Hc.
  assert (H : forallb (λ c, bool_decide (decode_at c = default 255 (alphabet_index c)))
                (zrange 256) = true) by (vm_compute; reflexivity).
  exact (bool_decide_eq_true_1 _ (forallb_zrange _ _ H c Hc)).
Qed.

Lemma encode_at_not_equals i : is_sextet i → encode_at i ≠ equals_sign.
Proof.
  intros Hi.
  assert (H : forallb (λ i, bool_decide (encode_at i ≠ equals_sign)) (zrange 64) = true)
    by (vm_compute; reflexivity).
  exact (bool_decide_eq_true_1 _ (forallb_zrange _ _ H i Hi)).
Qed.

(** The four sextets of a triple of bytes. *)
Lemma sextet_hi a : is_byte a → is_sextet (Z.shiftr a 2).
Proof. intros H. apply (shiftr_range a 8 2); unfold is_byte in *; lia. Qed.

Lemma sextet_land x : is_sextet (Z.land x 63).
Proof. rewrite land_63. apply (wrap_range 6). lia. Qed.

Lemma lor_sextets x y : is_sextet x → is_sextet y → is_sextet (Z.lor x y).
Proof.
  intros Hx Hy.
  assert (H : forallb (λ x, forallb (λ y, bool_decide (0 ≤ Z.lor x y < 64)) (zrange 64))
                (zrange 64) = true) by (vm_compute; reflexivity).
  pose proof (forallb_zrange _ _ (forallb_zrange _ _ H x Hx) y Hy) as E.
  exact (bool_decide_eq_true_1 _ E).
Qed.

(** Reassembly of the bytes from the sextets. *)
Lemma byte_bit_high x n : is_byte x → 8 ≤ n → Z.testbit x n = false.
Proof.
  intros Hx Hn. rewrite <-(wrap_small 8 x) by (unfold is_byte in *; lia).
  apply Z.mod_pow2_bits_high. lia.
Qed.

Ltac byte_bits :=
  apply (wrap_bits 8); [lia|unfold is_byte in *; lia|];
  let n := fresh "n" in let Hn := fresh "Hn" in
  intros n Hn;
  assert (n = 0 ∨ n = 1 ∨ n = 2 ∨ n = 3 ∨ n = 4 ∨ n = 5 ∨ n = 6 ∨ n = 7) as Hcases by lia;
  destruct_or! Hcases; subst; literal_bits;
  repeat match goal with
  | |- context [Z.testbit ?x ?n] => rewrite (byte_bit_high x n) by (done || lia)
  end; rewrite ?orb_false_r; try reflexivity.

Section reassemble.
Context (a b c : Z) (Ha : is_byte a) (Hb : is_byte b) (Hc : is_byte c).

Lemma reassemble_1 :
  u8 (Z.lor (Z.shiftl (Z.shiftr a 2) 2)
            (Z.shiftr (Z.land (Z.lor (Z.shiftl a 4) (Z.shiftr b 4)) 63) 4)) = a.
Proof using Ha Hb. byte_bits. Qed.

Lemma reassemble_2 :
  u8 (Z.lor (Z.shiftl (Z.land (Z.lor (Z.shiftl a 4) (Z.shiftr b 4)) 63) 4)
            (Z.shiftr (Z.land (Z.lor (Z.shiftl b 2) (Z.shiftr c 6)) 63) 2)) = b.
Proof using Hb Hc. byte_bits. Qed.

Lemma reassemble_3 :
  u8 (Z.lor (Z.shiftl (Z.land (Z.lor (Z.shiftl b 2) (Z.shiftr c 6)) 63) 6)
            (Z.land c 63)) = c.
Proof using Hc. byte_bits. Qed.

(** The last sextet of a short group. *)
Lemma reassemble_1_last :
  u8 (Z.lor (Z.shiftl (Z.shiftr a 2) 2)
            (Z.shiftr (Z.land (Z.shiftl a 4) 63) 4)) = a.
Proof using Ha. byte_bits. Qed.

Lemma reassemble_2_last :
  u8 (Z.lor (Z.shiftl (Z.land (Z.lor (Z.shiftl a 4) (Z.shiftr b 4)) 63) 4)
            (Z.shiftr (Z.land (Z.shiftl b 2) 63) 2)) = b.
Proof using Hb. byte_bits. Qed.
End reassemble.

(** ** Encoder *)

Definition bytes (data : list Z) : Prop := Forall is_byte data.

(** Induction three bytes at a time, the shape of the encoder's loop. *)
Lemma triple_ind (P : list Z → Prop) :
  P [] → (∀ a, P [a]) → (∀ a b, P [a; b]) →
  (∀ a b c rest, P rest → P (a :: b :: c :: rest)) → ∀ l, P l.
Proof.
  intros H0 H1 H2 H3.
  refine (fix go l := match l with
    | [] => H0 | [a] => H1 a | [a; b] => H2 a b
    | a :: b :: c :: rest => H3 a b c rest (go rest) end).
Qed.

(** The length of the text: four characters per started triple. *)
Lemma encode_chars_length data :
  Z.of_nat (length (encode_chars data)) = 4 * ((Z.of_nat (length data) + 2) / 3).
Proof.
  induction data as [|a|a b|a b c rest IH] using triple_ind; [done..|].
  cbn [encode_chars length]. rewrite !Nat2Z.inj_succ, IH.
  set (n := Z.of_nat (length rest)).
  replace (Z.succ (Z.succ (Z.succ n)) + 2) with (n + 2 + 1 * 3) by lia.
  rewrite Z.div_add by lia. lia.
Qed.

(** What [base64_encode] stores, and the count it returns. *)
Theorem base64_encode_stored data :
  let '(out, n) := base64_encode data in
  n = Z.of_nat (length out) ∧
  n = 4 * ((Z.of_nat (length data) + 2) / 3) + 1 ∧
  last out = Some 0.
Proof.
  unfold base64_encode. split_and!; [done| |by rewrite last_snoc].
  rewrite length_app, Nat2Z.inj_add, encode_chars_length. done.
Qed.

(** ** Decoding what was encoded *)

Lemma lor_sextets_valid l : Forall is_sextet l → is_sextet (foldr Z.lor 0 l).
Proof. induction 1; simpl; [split; lia|]. by apply lor_sextets. Qed.

Ltac sextets := first
  [apply sextet_hi; assumption | apply sextet_land
  |apply lor_sextets; sextets].

Ltac not_malformed :=
  rewrite decide_False by
    (let H := fresh in intros H; assert (is_sextet 255) as [? ?] by (rewrite <-H; sextets); lia).

(** The text without its padding, and the padding. *)
Fixpoint unpadded (data : list Z) : list Z :=
  match data with
  | a :: b :: c :: rest =>
      encode_at (Z.shiftr a 2) ::
      encode_at (Z.land (Z.lor (Z.shiftl a 4) (Z.shiftr b 4)) 63) ::
      encode_at (Z.land (Z.lor (Z.shiftl b 2) (Z.shiftr c 6)) 63) ::
      encode_at (Z.land c 63) :: unpadded rest
  | [a; b] =>
      [encode_at (Z.shiftr a 2);
       encode_at (Z.land (Z.lor (Z.shiftl a 4) (Z.shiftr b 4)) 63);
       encode_at (Z.land (Z.shiftl b 2) 63)]
  | [a] => [encode_at (Z.shiftr a 2); encode_at (Z.land (Z.shiftl a 4) 63)]
  | [] => []
  end.

Fixpoint padding (data : list Z) : nat :=
  match data with _ :: _ :: _ :: rest => padding rest | [_; _] => 1 | [_] => 2 | [] => 0 end.

Lemma encode_chars_padded data :
  encode_chars data = unpadded data ++ replicate (padding data) equals_sign.
Proof. induction data as [|a|a b|a b c rest IH] using triple_ind; simpl; by rewrite ?IH. Qed.

#[local] Opaque encode_at decode_at.
Lemma decode_unpadded data :
  bytes data → decode_chars (unpadded data) = (data, BASE64_STATUS_OK).
Proof.
  unfold bytes. induction data as [|a|a b|a b c rest IH] using triple_ind; intros Hb;
    decompose_Forall_hyps; cbn [unpadded decode_chars];
    rewrite ?decode_encode_at by sextets; try not_malformed.
  - done.
  - by rewrite reassemble_1_last.
  - by rewrite reassemble_1, reassemble_2_last.
  - rewrite IH by done. by rewrite reassemble_1, reassemble_2, reassemble_3.
Qed.

#[local] Transparent encode_at decode_at.

Lemma unpadded_sextets data :
  bytes data → Forall (λ c, c ≠ equals_sign) (unpadded data).
Proof.
  unfold bytes. induction data as [|a|a b|a b c rest IH] using triple_ind; intros Hb;
    decompose_Forall_hyps; cbn [unpadded]; repeat constructor;
    (by apply IH) || (apply encode_at_not_equals; sextets).
Qed.

(** The length [base64_decode] computes from the unpadded text. *)
Lemma unpadded_length data :
  let n := Z.of_nat (length (unpadded data)) in
  3 * (n / 4) + (if decide (n mod 4 > 0) then n mod 4 - 1 else 0) = Z.of_nat (length data).
Proof.
  induction data as [|a|a b|a b c rest IH] using triple_ind; [done..|].
  cbn [unpadded length]. rewrite !Nat2Z.inj_succ. cbv zeta in *.
  set (n := Z.of_nat (length (unpadded rest))) in *.
  replace (Z.succ (Z.succ (Z.succ (Z.succ n)))) with (n + 1 * 4) by lia.
  rewrite Z.div_add, Z.mod_add by lia. lia.
Qed.

Lemma padding_length data :
  data ≠ [] →
  ((length (unpadded data) + padding data) mod 4 = 0 ∧ padding data ≤ 2
    ∧ 2 ≤ length (unpadded data))%nat.
Proof.
  induction data as [|a|a b|a b c rest IH] using triple_ind; intros Hne; [done| | |].
  1,2: simpl; split_and!; (reflexivity || lia).
  cbn [unpadded padding length].
  destruct (decide (rest = [])) as [->|Hr]; [simpl; split_and!; (reflexivity || lia)|].
  destruct (IH Hr) as (Hm & ? & ?). split_and!; [|lia..].
  replace (S (S (S (S (length (unpadded rest))))) + padding rest)%nat
    with (length (unpadded rest) + padding rest + 1 * 4)%nat by lia.
  rewrite Nat.Div0.mod_add. done.
Qed.

Lemma last_not_equals u i :
  Forall (λ c, c ≠ equals_sign) u → u !! i ≠ Some equals_sign.
Proof. intros Hu Hi. by eapply (Forall_lookup_1 _ _ _ _ Hu Hi). Qed.

(** Trimming finds the end of the unpadded text, whether or not it was padded. *)
Lemma trim_padding_spec u k :
  Forall (λ c, c ≠ equals_sign) u → (2 ≤ length u)%nat → (k ≤ 2)%nat →
  k = 0%nat ∨ ((length u + k) mod 4 = 0)%nat →
  trim_padding (u ++ replicate k equals_sign) = Ret (length u).
Proof.
  intros Hu Hlen Hk Hmod. unfold trim_padding. rewrite length_app, length_replicate.
  destruct Hmod as [->|Hmod].
  - rewrite Nat.add_0_r, app_nil_r. case_decide; [|done].
    rewrite decide_False by lia.
    rewrite !(decide_False (P := u !! _ = _)) by (by apply last_not_equals). done.
  - rewrite decide_True by done. rewrite decide_False by lia.
    destruct k as [|[|[|k]]]; [| | |lia]; simpl replicate.
    + rewrite Nat.add_0_r, app_nil_r.
      by rewrite !(decide_False (P := u !! _ = _)) by (by apply last_not_equals).
    + replace (length u + 1 - 1)%nat with (length u) by lia.
      assert (E0 : (u ++ [equals_sign]) !! length u = Some equals_sign)
        by (by apply list_lookup_middle).
      rewrite !(decide_True (P := _ !! length u = _)) by done.
      rewrite decide_False; [done|]. rewrite lookup_app_l by lia. by apply last_not_equals.
    + replace (length u + 2 - 1)%nat with (S (length u)) by lia.
      assert (E0 : (u ++ [equals_sign; equals_sign]) !! length u = Some equals_sign)
        by (by apply list_lookup_middle).
      assert (E1 : (u ++ [equals_sign; equals_sign]) !! S (length u) = Some equals_sign).
      { rewrite lookup_app_r by lia. by replace (S (length u) - length u)%nat with 1%nat by lia. }
      rewrite !(decide_True (P := _ !! S (length u) = _)) by done.
      replace (S (length u) - 1)%nat with (length u) by lia. by rewrite decide_True.
Qed.

Lemma encode_chars_nonzero data : bytes data → Forall (λ c, c ≠ 0) (encode_chars data).
Proof.
  assert (Hat : ∀ i, is_sextet i → encode_at i ≠ 0).
  { intros i Hi E. pose proof (decode_encode_at i Hi) as D. rewrite E in D.
    vm_compute in D. unfold is_sextet in Hi. lia. }
  unfold bytes. induction data as [|a|a b|a b c rest IH] using triple_ind; intros Hb;
    decompose_Forall_hyps; cbn [encode_chars]; repeat constructor;
    (by apply IH) || (apply Hat; sextets) || done.
Qed.

(** Either form of the text decodes to the data. *)
Lemma decode_text data max_length k :
  data ≠ [] → bytes data → Z.of_nat (length data) ≤ max_length →
  k = 0%nat ∨ k = padding data →
  base64_decode (unpadded data ++ replicate k equals_sign) max_length =
    Ret (mk_decoded BASE64_STATUS_OK (Z.of_nat (length data)) data).
Proof.
  intros Hne Hb Hmax Hk. destruct (padding_length data Hne) as (Hm & Hp & Hu).
  unfold base64_decode. rewrite trim_padding_spec.
  - cbn. rewrite unpadded_length. rewrite decide_False by lia.
    rewrite take_app_length. by rewrite decode_unpadded.
  - by apply unpadded_sextets.
  - done.
  - destruct Hk; lia.
  - destruct Hk as [-> | ->]; [by left|by right].
Qed.

Lemma decode_encoded data max_length :
  data ≠ [] → bytes data → Z.of_nat (length data) ≤ max_length →
  base64_decode (c_str (base64_encode data).1) max_length =
    Ret (mk_decoded BASE64_STATUS_OK (Z.of_nat (length data)) data).
Proof.
  intros Hne Hb Hmax. unfold base64_encode. simpl.
  rewrite c_str_terminated by (by apply encode_chars_nonzero).
  rewrite encode_chars_padded. apply decode_text; auto.
Qed.

(** Decoding the text [base64_encode] stores gives the data back, with the
    right length, whenever the buffer is long enough. *)
Theorem base64_roundtrip data max_length :
  data ≠ [] → bytes data → Z.of_nat (length data) ≤ max_length →
  base64_decode (c_str (base64_encode data).1) max_length =
    Ret (mk_decoded BASE64_STATUS_OK (Z.of_nat (length data)) data).
Proof. exact (decode_encoded data max_length). Qed.

(** ** Bounds of the decoder *)

Lemma quad_ind (P : list Z → Prop) :
  P [] → (∀ a, P [a]) → (∀ a b, P [a; b]) → (∀ a b c, P [a; b; c]) →
  (∀ a b c d rest, P rest → P (a :: b :: c :: d :: rest)) → ∀ l, P l.
Proof.
  intros H0 H1 H2 H3 H4.
  refine (fix go l := match l with
    | [] => H0 | [a] => H1 a | [a; b] => H2 a b | [a; b; c] => H3 a b c
    | a :: b :: c :: d :: rest => H4 a b c d rest (go rest) end).
Qed.

(** Number of bytes the decoder announces for [n] characters. *)
Definition decoded_size (n : Z) : Z :=
  3 * (n / 4) + (if decide (n mod 4 > 0) then n mod 4 - 1 else 0).

Lemma decoded_size_step n : decoded_size (n + 1 * 4) = decoded_size n + 3.
Proof. unfold decoded_size. rewrite Z.div_add, Z.mod_add by lia. lia. Qed.

Lemma decoded_size_nonneg n : 0 ≤ n → 0 ≤ decoded_size n.
Proof. intros. unfold decoded_size. pose proof (Z.div_pos n 4). case_decide; lia. Qed.

Lemma decode_chars_bound s :
  let '(out, st) := decode_chars s in
  Z.of_nat (length out) ≤ decoded_size (Z.of_nat (length s)) ∧
  (st = BASE64_STATUS_OK → Z.of_nat (length out) = decoded_size (Z.of_nat (length s))) ∧
  bytes out ∧ st ≠ BASE64_STATUS_OVERRUN.
Proof.
  unfold bytes, is_byte.
  induction s as [| | | |a b c d rest IH] using quad_ind; cbn [decode_chars].
  1: by split_and!.
  1,2,3: repeat case_decide; simpl; split_and!; try done; repeat constructor;
      try (apply (wrap_range 8); lia).
  cbn [length]. rewrite !Nat2Z.inj_succ. set (n := Z.of_nat (length rest)) in *.
  replace (Z.succ (Z.succ (Z.succ (Z.succ n)))) with (n + 1 * 4) by lia.
  rewrite decoded_size_step. case_decide.
  - split_and!; try done. simpl. pose proof (decoded_size_nonneg n). lia.
  - destruct (decode_chars rest) as [out st]. destruct IH as (IH1 & IH2 & IH3 & IH4).
    cbn [length]. split_and!; [lia|intros E; specialize (IH2 E); lia| |done].
    repeat constructor; try (apply (wrap_range 8); lia). done.
Qed.

Lemma decode_bounded string max_length d :
  base64_decode string max_length = Ret d → 0 ≤ max_length →
  Z.of_nat (length (d_out d)) ≤ max_length ∧
  Z.of_nat (length (d_out d)) ≤ d_converted d ∧
  (d_status d = BASE64_STATUS_OK → Z.of_nat (length (d_out d)) = d_converted d) ∧
  (d_status d = BASE64_STATUS_OVERRUN ↔ max_length < d_converted d) ∧
  bytes (d_out d).
Proof.
  unfold base64_decode. intros H Hmax.
  destruct (trim_padding string) as [n| |] eqn:Ht; simplify_eq/=.
  assert (n ≤ length string)%nat as Hn.
  { unfold trim_padding in Ht. repeat case_decide; simplify_eq; lia. }
  fold (decoded_size (Z.of_nat n)) in H. case_decide.
  - simplify_eq. pose proof (decoded_size_nonneg (Z.of_nat n)). simpl. unfold bytes.
    split_and!; try done; try lia. split; [lia|done].
  - pose proof (decode_chars_bound (take n string)) as Hb.
    destruct (decode_chars (take n string)) as [out st]. simplify_eq. simpl.
    rewrite length_take_le in Hb by done. destruct Hb as (?&?&?&?).
    split_and!; try done; try lia. split; [done|lia].
Qed.

(** The decoder never stores more bytes than the caller's buffer holds,
    never more than it announces, and on success exactly what it announces. *)
Theorem base64_decode_bounds string max_length d :
  base64_decode string max_length = Ret d → 0 ≤ max_length →
  Z.of_nat (length (d_out d)) ≤ max_length ∧
  Z.of_nat (length (d_out d)) ≤ d_converted d ∧
  (d_status d = BASE64_STATUS_OK → Z.of_nat (length (d_out d)) = d_converted d) ∧
  (d_status d = BASE64_STATUS_OVERRUN ↔ max_length < d_converted d) ∧
  bytes (d_out d).
Proof. exact (decode_bounded string max_length d). Qed.

(** ** Malformed input *)

Definition valid_char (c : Z) : Prop := is_Some (alphabet_index c).

#[export] Instance valid_char_dec c : Decision (valid_char c).
Proof. unfold valid_char. apply _. Defined.

(** A decode table entry is a sextet or the marker 0xff. *)
Lemma decode_at_cases c :
  is_byte c → (valid_char c ∧ is_sextet (decode_at c)) ∨ (¬ valid_char c ∧ decode_at c = 255).
Proof.
  intros Hc. rewrite decode_at_spec by done. unfold valid_char, alphabet_index, is_sextet.
  repeat case_decide; simpl; (left; split; [eauto|lia]) || (right; split; [|done]);
    by intros [? [=]].
Qed.

(** [x] is a sextet or 0xff: what the [|] of table entries can be. *)
Definition entry (x : Z) : Prop := is_sextet x ∨ x = 255.

Lemma lor_entries x y : entry x → entry y → entry (Z.lor x y) ∧ (Z.lor x y = 255 ↔ x = 255 ∨ y = 255).
Proof.
  assert (Hl : ∀ z, is_sextet z → Z.lor z 255 = 255).
  { intros z Hz.
    assert (H : forallb (λ z, bool_decide (Z.lor z 255 = 255)) (zrange 64) = true)
      by (vm_compute; reflexivity).
    exact (bool_decide_eq_true_1 _ (forallb_zrange _ _ H z Hz)). }
  unfold entry. intros [Hx| ->] [Hy| ->].
  - pose proof (lor_sextets x y Hx Hy). unfold is_sextet in *. lia.
  - rewrite Hl by done. lia.
  - rewrite Z.lor_comm, Hl by done. lia.
  - change (Z.lor 255 255) with 255. lia.
Qed.

Lemma entry_at c : is_byte c → entry (decode_at c) ∧ (decode_at c = 255 ↔ ¬ valid_char c).
Proof.
  intros Hc. destruct (decode_at_cases c Hc) as [[Hv Hs]|[Hv ->]]; unfold entry, is_sextet in *.
  - split; [auto|]. split; [lia|done].
  - split; [by right|]. done.
Qed.

#[local] Opaque valid_char decode_at.
Lemma lor_malformed_2 a b :
  is_byte a → is_byte b →
  entry (Z.lor (decode_at a) (decode_at b)) ∧
  (Z.lor (decode_at a) (decode_at b) = 255 ↔ ¬ (valid_char a ∧ valid_char b)).
Proof.
  intros Ha Hb. destruct (entry_at a Ha) as [Ea Va], (entry_at b Hb) as [Eb Vb].
  destruct (lor_entries _ _ Ea Eb) as [E V]. split; [done|].
  rewrite V, Va, Vb. symmetry. apply not_and_r.
Qed.

Lemma lor_malformed_3 a b c :
  is_byte a → is_byte b → is_byte c →
  entry (Z.lor (Z.lor (decode_at a) (decode_at b)) (decode_at c)) ∧
  (Z.lor (Z.lor (decode_at a) (decode_at b)) (decode_at c) = 255 ↔
     ¬ (valid_char a ∧ valid_char b ∧ valid_char c)).
Proof.
  intros Ha Hb Hc. destruct (lor_malformed_2 a b Ha Hb) as [E V], (entry_at c Hc) as [Ec Vc].
  destruct (lor_entries _ _ E Ec) as [E' V']. split; [done|].
  rewrite V', V, Vc. symmetry. rewrite (assoc (∧)). apply not_and_r.
Qed.

Lemma lor_malformed_4 a b c d :
  is_byte a → is_byte b → is_byte c → is_byte d →
  Z.lor (Z.lor (Z.lor (decode_at a) (decode_at b)) (decode_at c)) (decode_at d) = 255 ↔
    ¬ (valid_char a ∧ valid_char b ∧ valid_char c ∧ valid_char d).
Proof.
  intros Ha Hb Hc Hd. destruct (lor_malformed_3 a b c Ha Hb Hc) as [E V], (entry_at d Hd) as [Ed Vd].
  destruct (lor_entries _ _ E Ed) as [_ V']. rewrite V', V, Vd.
  symmetry. rewrite !(assoc (∧)). apply not_and_r.
Qed.

Lemma mod4_step n : (S (S (S (S n))) mod 4 = n mod 4)%nat.
Proof. replace (S (S (S (S n)))) with (n + 1 * 4)%nat by lia. apply Nat.Div0.mod_add. Qed.

Lemma decode_chars_ok_iff s :
  Forall is_byte s →
  (decode_chars s).2 = BASE64_STATUS_OK ↔ Forall valid_char s ∧ (length s mod 4 ≠ 1)%nat.
Proof.
  induction s as [|a|a b|a b c|a b c d rest IH] using quad_ind; intros Hs;
    [| | | |cbn [length]; rewrite mod4_step; revert IH; generalize (length rest mod 4)%nat; intros m IH];
    decompose_Forall_hyps; cbn [decode_chars].
  - by split.
  - split; [done|]. by intros [_ []].
  - destruct (lor_malformed_2 a b) as [_ V]; [done..|].
    rewrite !Forall_cons, Forall_nil. case_decide as E; simpl; rewrite V in E.
    + split; [done|tauto].
    + split; [|done]. intros _. split; [|done]. apply dec_stable. tauto.
  - destruct (lor_malformed_3 a b c) as [_ V]; [done..|].
    rewrite !Forall_cons, Forall_nil. case_decide as E; simpl; rewrite V in E.
    + split; [done|tauto].
    + split; [|done]. intros _. split; [|done]. apply dec_stable. tauto.
  - pose proof (lor_malformed_4 a b c d) as V.
    rewrite !Forall_cons. case_decide as E; rewrite V in E by done.
    + simpl. split; [done|tauto].
    + destruct (decode_chars rest) as [out st]. simpl in *. rewrite IH by done.
      apply dec_stable in E. tauto.
Qed.

#[local] Transparent valid_char decode_at.

(** For a string that fits the buffer, decoding succeeds exactly when every
    character left after trimming is in the alphabet and the text does not end
    with a single left-over character; otherwise it is reported as malformed. *)
Theorem base64_decode_malformed string max_length n d :
  Forall is_byte string → trim_padding string = Ret n →
  base64_decode string max_length = Ret d → d_converted d ≤ max_length →
  (d_status d = BASE64_STATUS_OK ↔
     Forall valid_char (take n string) ∧ (n mod 4 ≠ 1)%nat) ∧
  (d_status d ≠ BASE64_STATUS_OK → d_status d = BASE64_STATUS_MALFORMED).
Proof.
  intros Hs Hn H Hmax. unfold base64_decode in H. rewrite Hn in H. cbn in H.
  assert (n ≤ length string)%nat as Hle.
  { unfold trim_padding in Hn. repeat case_decide; simplify_eq; lia. }
  case_decide; [simplify_eq; simpl in *; lia|].
  pose proof (decode_chars_ok_iff (take n string) (Forall_take _ _ _ Hs)) as Hok.
  pose proof (decode_chars_bound (take n string)) as Hb.
  rewrite length_take_le in Hok by done.
  destruct (decode_chars (take n string)) as [out st]. simplify_eq. simpl in *.
  split; [done|]. destruct Hb as (_&_&_&Hno). intros. by destruct st.
Qed.

(** The empty string is outside the decoder's domain: it reads the byte before
    the string. *)
Theorem base64_decode_empty max_length : base64_decode [] max_length = Undef.
Proof. reflexivity. Qed.

(** ** Concrete texts *)

Lemma base64_roundtrip_witness :
  base64_decode (c_str (base64_encode [72; 105; 33; 0]).1) 10 =
    Ret (mk_decoded BASE64_STATUS_OK 4 [72; 105; 33; 0]).
Proof. apply (base64_roundtrip [72; 105; 33; 0] 10); [done|by repeat constructor|done]. Defined.

Lemma base64_decode_bounds_witness :
  Z.of_nat (length (d_out (mk_decoded BASE64_STATUS_OK 3 [72; 105; 33]))) ≤ 3.
Proof. by apply (base64_decode_bounds (bytes_of "SGkh") 3 (mk_decoded BASE64_STATUS_OK 3 [72; 105; 33])). Defined.

Lemma base64_decode_malformed_witness :
  d_status (mk_decoded BASE64_STATUS_OK 3 [72; 105; 33]) = BASE64_STATUS_OK ↔
    Forall valid_char (take 4 (bytes_of "SGkh")) ∧ (4 mod 4 ≠ 1)%nat.
Proof.
  apply (base64_decode_malformed (bytes_of "SGkh") 3 4 (mk_decoded BASE64_STATUS_OK 3 [72; 105; 33]));
    [by repeat constructor|done..].
Defined.

End Base64.
