(* ===== verification/Lut.v ===== *)
(** * Lookup table expressions: panda-server/server/parse_lut.c

    An operator precedence parser that evaluates an expression over the five
    inputs A to E into a 32-bit truth table.  The parser state holds the two
    stacks, the token read ahead and the cursor; [None] as cursor means that the
    terminator has been consumed, where a further read is undefined. *)

From S2P Require Import Prelude.
From stdpp Require Import base numbers list relations strings.
Open Scope Z_scope.

Module Lut.

(** ** Status codes, tokens and actions *)

Inductive parse_lut_status :=
  | LUT_PARSE_OK | LUT_PARSE_TOKEN_ERROR | LUT_PARSE_TOO_COMPLEX | LUT_PARSE_NO_OPERATOR
  | LUT_PARSE_NO_OPEN | LUT_PARSE_NO_CLOSE | LUT_PARSE_NO_VALUE | LUT_PARSE_NO_IF
  | LUT_PARSE_NO_ELSE.

Definition MAX_DEPTH : nat := 40.

Definition CONSTANT_0 : Z := 0x00000000.
Definition CONSTANT_1 : Z := 0xffffffff.
Definition CONSTANT_A : Z := 0xffff0000.
Definition CONSTANT_B : Z := 0xff00ff00.
Definition CONSTANT_C : Z := 0xf0f0f0f0.
Definition CONSTANT_D : Z := 0xcccccccc.
Definition CONSTANT_E : Z := 0xaaaaaaaa.

Inductive token_symbol :=
  | TOKEN_CONSTANT | TOKEN_BRA | TOKEN_KET | TOKEN_NOT
  | TOKEN_EQ | TOKEN_AND | TOKEN_XOR | TOKEN_OR | TOKEN_IMPLIES
  | TOKEN_IF | TOKEN_ELSE | TOKEN_END.

#[export] Instance token_eq_dec : EqDecision token_symbol.
Proof. solve_decision. Defined.

(** The packing of a token identifier. *)
Definition TOKEN (index precedence arity reduce : Z) : Z :=
  Z.lor (Z.lor (Z.lor index (Z.shiftl precedence 4)) (Z.shiftl arity 8)) (Z.shiftl reduce 12).

Definition token_code (t : token_symbol) : Z :=
  match t with
  | TOKEN_CONSTANT => TOKEN 0 0 0 1
  | TOKEN_BRA => TOKEN 1 0 0 0
  | TOKEN_KET => TOKEN 2 0 1 2
  | TOKEN_NOT => TOKEN 3 0 1 1
  | TOKEN_EQ => TOKEN 4 5 2 1
  | TOKEN_AND => TOKEN 4 4 2 1
  | TOKEN_XOR => TOKEN 4 3 2 1
  | TOKEN_OR => TOKEN 4 2 2 1
  | TOKEN_IMPLIES => TOKEN 4 1 2 1
  | TOKEN_IF => TOKEN 5 0 0 0
  | TOKEN_ELSE => TOKEN 6 0 3 2
  | TOKEN_END => TOKEN 7 0 0 0
  end.

Definition TOKEN_INDEX (t : token_symbol) : Z := Z.land (token_code t) 15.
Definition TOKEN_PRECEDENCE (t : token_symbol) : Z := Z.land (Z.shiftr (token_code t) 4) 15.
Definition TOKEN_ARITY (t : token_symbol) : nat :=
  Z.to_nat (Z.land (Z.shiftr (token_code t) 8) 15).
Definition TOKEN_REDUCE (t : token_symbol) : nat :=
  Z.to_nat (Z.land (Z.shiftr (token_code t) 12) 15).

#[global] Arguments TOKEN_INDEX : simpl never.
#[global] Arguments TOKEN_PRECEDENCE : simpl never.
#[global] Arguments TOKEN_ARITY : simpl never.
#[global] Arguments TOKEN_REDUCE : simpl never.

Inductive parse_action := LT | EQ | GT | PR | E1 | E2 | E3 | E4 | E5.

(** The last entry is never reached; [X] is 0, the code of [LT]. *)
Definition parse_table : list (list parse_action) :=
  [ [E1; E1; GT; E1; GT; GT; GT; GT];
    [LT; LT; EQ; LT; LT; LT; E4; E3];
    [E1; E1; GT; E1; GT; GT; GT; GT];
    [LT; LT; GT; LT; GT; GT; GT; GT];
    [LT; LT; GT; LT; PR; GT; GT; GT];
    [LT; LT; E5; LT; LT; LT; EQ; E5];
    [LT; LT; GT; LT; LT; LT; GT; GT];
    [LT; LT; E2; LT; LT; LT; E4; LT] ].

#[export] Instance parse_action_inhabited : Inhabited parse_action := populate LT.

Definition lookup_action (left_token right_token : token_symbol) : parse_action :=
  match (parse_table !!! Z.to_nat (TOKEN_INDEX left_token))
          !!! Z.to_nat (TOKEN_INDEX right_token) with
  | PR => if decide (TOKEN_PRECEDENCE left_token < TOKEN_PRECEDENCE right_token) then LT else GT
  | a => a
  end.

(** ** Tokeniser *)

Fixpoint skip_spaces (s : cstring) : cstring :=
  match s with
  | c :: t => if decide (c = 32) then skip_spaces t else s
  | [] => []
  end.

(** One token from the input: its symbol, the constant if it is one, and the
    cursor after it; [inr] for a character that starts no token. *)
Definition read_token (input : option cstring)
    : outcome (option (token_symbol * option Z * option cstring)) :=
  match input with
  | None => Undef
  | Some s =>
      Ret match skip_spaces s with
      | [] => Some (TOKEN_END, None, None)
      | ch :: t =>
          if decide (ch = 48) then Some (TOKEN_CONSTANT, Some CONSTANT_0, Some t)
          else if decide (ch = 49) then Some (TOKEN_CONSTANT, Some CONSTANT_1, Some t)
          else if decide (ch = 65) then Some (TOKEN_CONSTANT, Some CONSTANT_A, Some t)
          else if decide (ch = 66) then Some (TOKEN_CONSTANT, Some CONSTANT_B, Some t)
          else if decide (ch = 67) then Some (TOKEN_CONSTANT, Some CONSTANT_C, Some t)
          else if decide (ch = 68) then Some (TOKEN_CONSTANT, Some CONSTANT_D, Some t)
          else if decide (ch = 69) then Some (TOKEN_CONSTANT, Some CONSTANT_E, Some t)
          else if decide (ch = 40) then Some (TOKEN_BRA, None, Some t)
          else if decide (ch = 41) then Some (TOKEN_KET, None, Some t)
          else if decide (ch = 126) then Some (TOKEN_NOT, None, Some t)
          else if decide (ch = 38) then Some (TOKEN_AND, None, Some t)
          else if decide (ch = 124) then Some (TOKEN_OR, None, Some t)
          else if decide (ch = 94) then Some (TOKEN_XOR, None, Some t)
          else if decide (ch = 63) then Some (TOKEN_IF, None, Some t)
          else if decide (ch = 58) then Some (TOKEN_ELSE, None, Some t)
          else if decide (ch = 61) then
            if decide (cur t = 62) then Some (TOKEN_IMPLIES, None, Some (tail t))
            else if decide (cur t = 61) then Some (TOKEN_EQ, None, Some (tail t))
            else Some (TOKEN_EQ, None, Some t)
          else None
      end
  end.

(** ** Parser state *)

(** Both stacks are lists with the top first; [token_sp] and [value_sp] are
    their lengths. *)
Record lut_state := mk_lut {
  token_stack : list token_symbol;
  value_stack : list Z;
  next_token : token_symbol;
  value : Z;
  input : option cstring;
}.

(** What one turn of the loop does. *)
Inductive turn :=
  | Continue (st : lut_state)
  | Stop (status : parse_lut_status).

(** Assigns the token just read; the value changes only for a constant. *)
Definition read_next (tokens : list token_symbol) (values : list Z) (value : Z)
    (input : option cstring) : outcome turn :=
  r ← read_token input;
  Ret match r with
  | Some (t, v, input') => Continue (mk_lut tokens values t (default value v) input')
  | None => Stop LUT_PARSE_TOKEN_ERROR
  end.

(** 32-bit complement. *)
Definition not32 (x : Z) : Z := u32 (Z.lnot x).

(** [reduce]: the operands, first operand last, are replaced by the result.
    The tokens the code does not list, and a wrong number of operands, are
    outside its domain. *)
Definition reduce (token : token_symbol) (value : Z) (args : list Z) : outcome Z :=
  match token, args with
  | TOKEN_CONSTANT, [] => Ret value
  | TOKEN_NOT, [a] => Ret (not32 a)
  | TOKEN_AND, [b; a] => Ret (Z.land a b)
  | TOKEN_OR, [b; a] => Ret (Z.lor a b)
  | TOKEN_EQ, [b; a] => Ret (not32 (Z.lxor a b))
  | TOKEN_XOR, [b; a] => Ret (Z.lxor a b)
  | TOKEN_IMPLIES, [b; a] => Ret (Z.lor (not32 a) b)
  | TOKEN_KET, [a] => Ret a
  | TOKEN_ELSE, [c; b; a] => Ret (Z.lor (Z.land a b) (Z.land (not32 a) c))
  | _, _ => Undef
  end.

Definition push_token (st : lut_state) : outcome turn :=
  if decide (length (token_stack st) = MAX_DEPTH) then Ret (Stop LUT_PARSE_TOO_COMPLEX)
  else read_next (next_token st :: token_stack st) (value_stack st) (value st) (input st).

Definition reduce_stack (this_token : token_symbol) (st : lut_state) : outcome turn :=
  let n := TOKEN_ARITY this_token in
  if decide (length (value_stack st) < n)%nat then Ret (Stop LUT_PARSE_NO_VALUE)
  else
    let below := drop n (value_stack st) in
    _ ← in_range (bool_decide (length below < MAX_DEPTH)%nat);
    v ← reduce this_token (value st) (take n (value_stack st));
    Ret (Continue (mk_lut (drop (TOKEN_REDUCE this_token) (token_stack st)) (v :: below)
                     (next_token st) (value st) (input st))).

(** The body of the loop of [parse_lut]. *)
Definition lut_turn (st : lut_state) : outcome turn :=
  match token_stack st with
  | [] => Undef
  | this_token :: _ =>
      match lookup_action this_token (next_token st) with
      | LT | EQ => push_token st
      | GT => reduce_stack this_token st
      | E1 => Ret (Stop LUT_PARSE_NO_OPERATOR)
      | E2 => Ret (Stop LUT_PARSE_NO_OPEN)
      | E3 => Ret (Stop LUT_PARSE_NO_CLOSE)
      | E4 => Ret (Stop LUT_PARSE_NO_IF)
      | E5 => Ret (Stop LUT_PARSE_NO_ELSE)
      | PR => Undef
      end
  end.

Definition extract_result (values : list Z) : parse_lut_status * Z :=
  match values with
  | [v] => (LUT_PARSE_OK, v)
  | _ => (LUT_PARSE_NO_VALUE, 0)
  end.

Definition finished (st : lut_state) : bool :=
  bool_decide (length (token_stack st) ≤ 1)%nat && bool_decide (next_token st = TOKEN_END).

(** The loop; [None] when [fuel] runs out. *)
Fixpoint lut_loop (fuel : nat) (st : lut_state) : option (outcome (parse_lut_status * Z)) :=
  if finished st then Some (Ret (extract_result (value_stack st)))
  else match fuel with
  | O => None
  | S fuel =>
      match lut_turn st with
      | Ret (Continue st') => lut_loop fuel st'
      | Ret (Stop status) => Some (Ret (status, 0))
      | Panic => Some Panic
      | Undef => Some Undef
      end
  end.

(** A push consumes a character and a reduction a token, so the loop turns at
    most twice per character and once for the initial token. *)
Definition parse_lut (s : cstring) : option (outcome (parse_lut_status * Z)) :=
  match read_next [TOKEN_END] [] 0 (Some s) with
  | Ret (Continue st) => lut_loop (2 * length s + 1) st
  | Ret (Stop status) => Some (Ret (status, 0))
  | Panic => Some Panic
  | Undef => Some Undef
  end.

Definition parse_lut_error_string (status : parse_lut_status) : string :=
  match status with
  | LUT_PARSE_OK => "OK"
  | LUT_PARSE_TOKEN_ERROR => "Invalid token"
  | LUT_PARSE_TOO_COMPLEX => "Expression too complex"
  | LUT_PARSE_NO_OPERATOR => "Missing operator between values"
  | LUT_PARSE_NO_OPEN => "Missing open bracket"
  | LUT_PARSE_NO_CLOSE => "Missing close bracket"
  | LUT_PARSE_NO_VALUE => "Missing value"
  | LUT_PARSE_NO_IF => "Missing ? before :"
  | LUT_PARSE_NO_ELSE => "Missing : after ?"
  end.

(** ** No undefined behaviour, and termination *)

(** [)] is only ever pushed onto [(] and [:] onto [?]; nothing is pushed onto a
    constant or onto [)]; the end token is only at the bottom. *)
Fixpoint shape (tokens : list token_symbol) : Prop :=
  match tokens with
  | [] => False
  | [t] => t = TOKEN_END
  | t :: rest =>
      t ≠ TOKEN_END ∧ (t = TOKEN_KET → head rest = Some TOKEN_BRA) ∧
      (t = TOKEN_ELSE → head rest = Some TOKEN_IF) ∧
      head rest ≠ Some TOKEN_CONSTANT ∧ head rest ≠ Some TOKEN_KET ∧ shape rest
  end.

(** The tokens that pay for a value: every operator that takes one more operand
    than it has on its left, and the end token for the first operand. *)
Definition weight (t : token_symbol) : nat :=
  match t with TOKEN_CONSTANT | TOKEN_BRA | TOKEN_KET | TOKEN_NOT => 0 | _ => 1 end.
Definition weights (tokens : list token_symbol) : nat :=
  foldr (λ t n, (weight t + n)%nat) 0%nat tokens.

(** An operand is on the stack or is about to be pushed. *)
Definition operand_due (st : lut_state) : bool :=
  match token_stack st, next_token st with
  | TOKEN_CONSTANT :: _, _ => true
  | TOKEN_KET :: _, _ => false
  | _, (TOKEN_CONSTANT | TOKEN_BRA | TOKEN_NOT) => true
  | _, _ => false
  end.

Record lut_inv (st : lut_state) : Prop := {
  inv_shape : shape (token_stack st);
  inv_depth : (length (token_stack st) ≤ MAX_DEPTH)%nat;
  inv_input : next_token st ≠ TOKEN_END → is_Some (input st);
  inv_values : (length (value_stack st) + Nat.b2n (operand_due st) ≤ weights (token_stack st))%nat;
}.

(** Characters left to read, terminator included. *)
Definition remaining (st : lut_state) : nat :=
  match input st with Some s => S (length s) | None => 0 end.
Definition measure (st : lut_state) : nat := (2 * remaining st + length (token_stack st))%nat.

Lemma skip_spaces_length s : (length (skip_spaces s) ≤ length s)%nat.
Proof. induction s as [|c s IH]; simpl; [done|]. case_decide; simpl; lia. Qed.

(** A token is read: the cursor moves, and is lost only at the end token. *)
Lemma read_next_spec tokens values v s :
  ∃ r, read_next tokens values v (Some s) = Ret r ∧
    ∀ st, r = Continue st →
      token_stack st = tokens ∧ value_stack st = values ∧ (remaining st ≤ length s)%nat ∧
      (next_token st ≠ TOKEN_END → is_Some (input st)).
Proof.
  unfold read_next, read_token. simpl. eexists; split; [done|]. intros st.
  pose proof (skip_spaces_length s) as Hl.
  destruct (skip_spaces s) as [|ch t]; [intros; simplify_eq; simpl; split_and!; done || lia|].
  simpl in Hl. repeat case_decide; intros; simplify_eq; unfold remaining; simpl;
    split_and!; eauto; try done; try lia; destruct t; simpl in *; lia.
Qed.

Lemma weights_length tokens : (weights tokens ≤ length tokens)%nat.
Proof. unfold weights. induction tokens as [|t ts IH]; simpl; [lia|]. destruct t; simpl; lia. Qed.

Lemma shape_tail t t' rest : shape (t :: t' :: rest) → shape (t' :: rest).
Proof. simpl. tauto. Qed.

(** What one turn does to the invariant and to the measure. *)
Definition turn_ok (st : lut_state) (r : turn) : Prop :=
  match r with
  | Continue st' => lut_inv st' ∧ (measure st' < measure st)%nat
  | Stop status => status ≠ LUT_PARSE_OK
  end.

Lemma push_ok st t rest :
  lut_inv st → token_stack st = t :: rest → next_token st ≠ TOKEN_END →
  t ≠ TOKEN_CONSTANT → t ≠ TOKEN_KET →
  (next_token st = TOKEN_KET → t = TOKEN_BRA) → (next_token st = TOKEN_ELSE → t = TOKEN_IF) →
  (next_token st = TOKEN_KET ∨ weight (next_token st) = 1%nat ∨ operand_due st = true) →
  ∃ r, push_token st = Ret r ∧ turn_ok st r.
Proof.
  intros [Hsh Hd Hin Hv] Et Hne Hk1 Hk2 Hket Helse Hdue. unfold push_token.
  case_decide as Hfull; [by eexists|].
  destruct (Hin Hne) as [s Es].
  destruct (read_next_spec (next_token st :: token_stack st) (value_stack st) (value st) s)
    as (r & Er & Hr).
  rewrite Es, Er. eexists; split; [done|]. destruct r as [st'|status]; simpl.
  - destruct (Hr st' eq_refl) as (Ets & Evs & Hrem & Hin'). split.
    + split.
      * rewrite Ets, Et in *. simpl.
        split_and!; [done|intros E; by rewrite (Hket E)|intros E; by rewrite (Helse E)|congruence..|done].
      * rewrite Ets. simpl. unfold MAX_DEPTH in *. lia.
      * done.
      * rewrite Ets, Evs. unfold weights in *. simpl.
        assert (Nat.b2n (operand_due st') ≤ 1)%nat by (destruct (operand_due st'); simpl; lia).
        destruct Hdue as [Hk|[Hw|Hdue]].
        -- assert (operand_due st' = false) as ->
             by (unfold operand_due; rewrite Ets, Hk; done).
           destruct (operand_due st); simpl in *; lia.
        -- rewrite Hw. destruct (operand_due st); simpl in *; lia.
        -- rewrite Hdue in Hv. simpl in Hv. lia.
    + unfold measure. rewrite Ets. simpl. unfold remaining in *. rewrite Es. simpl. lia.
  - unfold read_next in Er. destruct (read_token _) as [[[[??]?]|]| |]; by simplify_eq/=.
Qed.

(** The tokens a reduction is triggered by: no operand starts with them. *)
Definition closer (t : token_symbol) : Prop :=
  t ≠ TOKEN_CONSTANT ∧ t ≠ TOKEN_BRA ∧ t ≠ TOKEN_NOT.

(** A token that reduces. *)
Definition reducer (t : token_symbol) : Prop :=
  t ≠ TOKEN_BRA ∧ t ≠ TOKEN_IF ∧ t ≠ TOKEN_END.

Lemma operand_due_closer ts vs n v i :
  closer n → head ts ≠ Some TOKEN_CONSTANT → operand_due (mk_lut ts vs n v i) = false.
Proof. intros (?&?&?) Hh. unfold operand_due. simpl. destruct ts as [|[] ts]; destruct n; done. Qed.

(** The packed token fields. *)
Lemma token_reduce_val t :
  TOKEN_REDUCE t = match t with
    | TOKEN_KET | TOKEN_ELSE => 2 | TOKEN_BRA | TOKEN_IF | TOKEN_END => 0 | _ => 1 end%nat.
Proof. by destruct t. Qed.
Lemma token_arity_val t :
  TOKEN_ARITY t = match t with
    | TOKEN_KET | TOKEN_NOT => 1 | TOKEN_ELSE => 3
    | TOKEN_EQ | TOKEN_AND | TOKEN_XOR | TOKEN_OR | TOKEN_IMPLIES => 2 | _ => 0 end%nat.
Proof. by destruct t. Qed.

(** What a reduction leaves: the shape, fewer tokens, and values paid for. *)
Lemma reduced_stack t rest :
  shape (t :: rest) → reducer t →
  let ts := drop (TOKEN_REDUCE t) (t :: rest) in
  shape ts ∧ head ts ≠ Some TOKEN_CONSTANT ∧ (length ts < length (t :: rest))%nat ∧
  (weights (t :: rest) + 1 ≤ weights ts + TOKEN_ARITY t + Nat.b2n (bool_decide (t = TOKEN_CONSTANT)))%nat.
Proof.
  intros Hsh (?&?&?). destruct rest as [|t2 rest]; [simpl in Hsh; done|].
  destruct Hsh as (Hne & Hket & Helse & Hc & Hk & Hrest).
  cbv zeta. rewrite token_reduce_val, token_arity_val.
  destruct t; try done; cbn [drop]; try (cbn; split_and!; [done|done|lia|simpl; lia]).
  - specialize (Hket eq_refl). simpl in Hket. simplify_eq. destruct rest as [|t3 rest]; [done|].
    destruct Hrest as (_ & _ & _ & Hc3 & _ & Hrest). split_and!; [done|done|simpl; lia|simpl; lia].
  - specialize (Helse eq_refl). simpl in Helse. simplify_eq. destruct rest as [|t3 rest]; [done|].
    destruct Hrest as (_ & _ & _ & Hc3 & _ & Hrest). split_and!; [done|done|simpl; lia|simpl; lia].
Qed.

Lemma reduce_total t v args :
  reducer t → length args = TOKEN_ARITY t → ∃ x, reduce t v args = Ret x.
Proof.
  intros (?&?&?) Hl. destruct t; try done; vm_compute in Hl;
    destruct args as [|a [|b [|c [|d args]]]]; try done; by eexists.
Qed.

Lemma reduce_ok st t rest :
  lut_inv st → token_stack st = t :: rest → reducer t → closer (next_token st) →
  ∃ r, reduce_stack t st = Ret r ∧ turn_ok st r.
Proof.
  intros [Hsh Hd Hin Hv] Et Hred Hclose. unfold reduce_stack.
  case_decide as Hfew; [by eexists|].
  rewrite Et in Hsh, Hd, Hv. pose proof (reduced_stack t rest Hsh Hred) as (Hsh' & Hh & Hlen & Hw).
  assert (Hbelow : (length (drop (TOKEN_ARITY t) (value_stack st)) + 1 ≤
                    weights (drop (TOKEN_REDUCE t) (t :: rest)))%nat).
  { rewrite length_drop. case_bool_decide as Hc; cbn [Nat.b2n] in Hw; [|lia].
    assert (operand_due st = true) as Hdue by (unfold operand_due; rewrite Et, Hc; done).
    rewrite Hdue in Hv. cbn [Nat.b2n] in Hv. lia. }
  pose proof (weights_length (drop (TOKEN_REDUCE t) (t :: rest))) as Hwl.
  unfold MAX_DEPTH in *. rewrite bool_decide_true by lia.
  destruct (reduce_total t (value st) (take (TOKEN_ARITY t) (value_stack st)) Hred) as [x Ex].
  { rewrite length_take. lia. }
  cbn. rewrite Ex. cbn. eexists; split; [done|]. simpl. rewrite Et. split.
  - split; cbn [token_stack value_stack next_token input]; [done|unfold MAX_DEPTH; lia|done|].
    rewrite operand_due_closer by done. cbn [length Nat.b2n]. lia.
  - unfold measure, remaining. cbn [token_stack input]. rewrite Et. lia.
Qed.

(** The precedence table only pushes and reduces as described above. *)
Lemma action_cases t n :
  (t = TOKEN_END → n ≠ TOKEN_END) →
  match lookup_action t n with
  | LT | EQ =>
      n ≠ TOKEN_END ∧ t ≠ TOKEN_CONSTANT ∧ t ≠ TOKEN_KET ∧ (n = TOKEN_KET → t = TOKEN_BRA) ∧
      (n = TOKEN_ELSE → t = TOKEN_IF) ∧ (n = TOKEN_KET ∨ weight n = 1%nat ∨ ¬ closer n)
  | GT => reducer t ∧ closer n
  | PR => False
  | _ => True
  end.
Proof.
  unfold closer, reducer. intros Hend.
  destruct t, n; cbn; try exact I; try (by exfalso; apply Hend);
    try (split_and!; discriminate); split_and!; try discriminate;
    first [by left | by right; left | right; right; intros (?&?&?); congruence | congruence].
Qed.

Lemma turn_total st :
  lut_inv st → finished st = false → ∃ r, lut_turn st = Ret r ∧ turn_ok st r.
Proof.
  intros Hinv Hfin. unfold lut_turn.
  destruct (token_stack st) as [|t rest] eqn:Et; [destruct Hinv as [Hsh _ _ _]; by rewrite Et in Hsh|].
  assert (Hend : t = TOKEN_END → next_token st ≠ TOKEN_END).
  { intros -> En. unfold finished in Hfin. rewrite Et, En in Hfin.
    assert (rest = []) as ->; [|done].
    destruct Hinv as [Hsh _ _ _]. rewrite Et in Hsh. destruct rest; [done|]. by destruct Hsh. }
  assert (Hdue : t ≠ TOKEN_KET → ¬ closer (next_token st) → operand_due st = true).
  { intros ? Hn. unfold operand_due. rewrite Et. unfold closer in Hn.
    destruct t; try done; destruct (next_token st); try done; exfalso; apply Hn; split_and!; done. }
  pose proof (action_cases t (next_token st) Hend) as Ha.
  destruct (lookup_action t (next_token st)); try (by destruct Ha);
    try (eexists; split; [reflexivity|discriminate]).
  1,2: destruct Ha as (?&?&?&?&?&Hw); apply (push_ok st t rest); auto;
    destruct Hw as [?|[?|?]]; auto.
  destruct Ha. by apply (reduce_ok st t rest).
Qed.

Lemma lut_loop_total fuel st :
  lut_inv st → (measure st ≤ fuel)%nat →
  ∃ status v, lut_loop fuel st = Some (Ret (status, v)).
Proof.
  revert st. induction fuel as [|fuel IH]; intros st Hinv Hf.
  - destruct Hinv as [Hsh _ _ _]. unfold measure in Hf.
    destruct (token_stack st); simpl in *; [done|lia].
  - cbn [lut_loop]. destruct (finished st) eqn:E.
    { destruct (extract_result (value_stack st)) as [s v]. by exists s, v. }
    destruct (turn_total st Hinv E) as (r & -> & Hr). destruct r as [st'|status]; [|by exists status, 0].
    destruct Hr as [Hinv' Hm]. apply IH; [done|lia].
Qed.

Lemma initial_inv s st :
  read_next [TOKEN_END] [] 0 (Some s) = Ret (Continue st) →
  lut_inv st ∧ (measure st ≤ 2 * length s + 1)%nat.
Proof.
  intros E. destruct (read_next_spec [TOKEN_END] [] 0 s) as (r & E' & Hr).
  rewrite E in E'. simplify_eq. destruct (Hr st eq_refl) as (Et & Ev & Hrem & Hin). split.
  - split; [by rewrite Et|rewrite Et; unfold MAX_DEPTH; simpl; lia|done|].
    rewrite Et, Ev. simpl. destruct (operand_due st); simpl; lia.
  - unfold measure. rewrite Et. simpl. lia.
Qed.

(** [parse_lut] terminates on every string with a status, without reading
    past the terminator and without over- or underflowing either stack. *)
Theorem parse_lut_total s : ∃ status v, parse_lut s = Some (Ret (status, v)).
Proof.
  unfold parse_lut. destruct (read_next_spec [TOKEN_END] [] 0 s) as (r & E & _). rewrite E.
  destruct r as [st|status]; [|by exists status, 0].
  destruct (initial_inv s st E). by apply lut_loop_total.
Qed.

End Lut.
