(* ===== verification/LutSpec.v ===== *)
(** * Lookup table expressions: what [parse_lut] computes

    The expression language of parse_lut.h as a syntax tree, its precedence
    rules as a printer with the fewest brackets, its meaning as a Boolean
    function of the five inputs, and the proof that the precedence parser of
    [Lut] evaluates every printed expression to its truth table. *)

From S2P Require Import Prelude Lut.
From stdpp Require Import base numbers list relations strings.
Open Scope Z_scope.

Module LutSpec.
Import Lut.

(** ** Expressions *)

Inductive lut_const := K0 | K1 | KA | KB | KC | KD | KE.
Inductive lut_op := OEq | OAnd | OXor | OOr | OImplies.
Inductive lut_expr :=
  | EConst (k : lut_const)
  | ENot (e : lut_expr)
  | EBin (op : lut_op) (a b : lut_expr)
  | EIf (c a b : lut_expr).

Definition const_value (k : lut_const) : Z :=
  match k with
  | K0 => CONSTANT_0 | K1 => CONSTANT_1 | KA => CONSTANT_A | KB => CONSTANT_B
  | KC => CONSTANT_C | KD => CONSTANT_D | KE => CONSTANT_E
  end.
Definition op_token (op : lut_op) : token_symbol :=
  match op with
  | OEq => TOKEN_EQ | OAnd => TOKEN_AND | OXor => TOKEN_XOR | OOr => TOKEN_OR
  | OImplies => TOKEN_IMPLIES
  end.

(** ** Meaning *)

(** The five inputs. *)
Record inputs := mk_inputs { inA : bool; inB : bool; inC : bool; inD : bool; inE : bool }.

Definition const_meaning (k : lut_const) (i : inputs) : bool :=
  match k with
  | K0 => false | K1 => true | KA => inA i | KB => inB i | KC => inC i | KD => inD i | KE => inE i
  end.

Definition op_meaning (op : lut_op) (a b : bool) : bool :=
  match op with
  | OEq => Bool.eqb a b | OAnd => a && b | OXor => xorb a b | OOr => a || b
  | OImplies => implb a b
  end.

Fixpoint meaning (e : lut_expr) (i : inputs) : bool :=
  match e with
  | EConst k => const_meaning k i
  | ENot e => negb (meaning e i)
  | EBin op a b => op_meaning op (meaning a i) (meaning b i)
  | EIf c a b => if meaning c i then meaning a i else meaning b i
  end.

(** The inputs that select entry [n] of the table: A is the top bit. *)
Definition entry_inputs (n : Z) : inputs :=
  mk_inputs (Z.testbit n 4) (Z.testbit n 3) (Z.testbit n 2) (Z.testbit n 1) (Z.testbit n 0).

(** The value the parser computes on 32-bit words. *)
Definition op_value (op : lut_op) (a b : Z) : Z :=
  match op with
  | OEq => not32 (Z.lxor a b) | OAnd => Z.land a b | OXor => Z.lxor a b | OOr => Z.lor a b
  | OImplies => Z.lor (not32 a) b
  end.
Fixpoint table (e : lut_expr) : Z :=
  match e with
  | EConst k => const_value k
  | ENot e => not32 (table e)
  | EBin op a b => op_value op (table a) (table b)
  | EIf c a b => Z.lor (Z.land (table c) (table a)) (Z.land (not32 (table c)) (table b))
  end.

Lemma not32_bit x n : 0 ≤ n < 32 → Z.testbit (not32 x) n = negb (Z.testbit x n).
Proof.
  intros Hn. unfold not32, wrap. rewrite Z.mod_pow2_bits_low by lia. by rewrite Z.lnot_spec by lia.
Qed.

Lemma const_bit k n : 0 ≤ n < 32 → Z.testbit (const_value k) n = const_meaning k (entry_inputs n).
Proof.
  intros Hn.
  assert (H : forallb (λ n, bool_decide (Z.testbit (const_value k) n = const_meaning k (entry_inputs n)))
    (zrange 32) = true) by (destruct k; vm_compute; reflexivity).
  exact (bool_decide_eq_true_1 _ (forallb_zrange _ _ H n Hn)).
Qed.

(** Entry [n] of the table is the value of the expression at its inputs. *)
Lemma table_meaning e n : 0 ≤ n < 32 → Z.testbit (table e) n = meaning e (entry_inputs n).
Proof.
  intros Hn. induction e as [k|e IH|op a IHa b IHb|c IHc a IHa b IHb]; simpl.
  - by apply const_bit.
  - by rewrite not32_bit, IH.
  - rewrite <-IHa, <-IHb. destruct op; simpl;
      rewrite ?Z.lor_spec, ?not32_bit, ?Z.land_spec, ?Z.lxor_spec by done;
      by destruct (Z.testbit (table a) n), (Z.testbit (table b) n).
  - rewrite <-IHa, <-IHb, <-IHc. rewrite Z.lor_spec, !Z.land_spec, not32_bit by done.
    by destruct (Z.testbit (table c) n), (Z.testbit (table a) n), (Z.testbit (table b) n).
Qed.

(** ** Printing with the fewest brackets *)

(** A token and, for a constant, its value. *)
Definition item : Type := token_symbol * option Z.

Definition op_level (op : lut_op) : Z :=
  match op with OEq => 5 | OAnd => 4 | OXor => 3 | OOr => 2 | OImplies => 1 end.
Definition level (e : lut_expr) : Z :=
  match e with EConst _ => 7 | ENot _ => 6 | EBin op _ _ => op_level op | EIf _ _ _ => 0 end.

(** [show p e]: [e] where an expression of level [p] or more is expected.
    Binary operators associate to the left, the conditional to the right. *)
Fixpoint show (p : Z) (e : lut_expr) : list item :=
  let body :=
    match e with
    | EConst k => [(TOKEN_CONSTANT, Some (const_value k))]
    | ENot e => (TOKEN_NOT, None) :: show 6 e
    | EBin op a b => show (op_level op) a ++ (op_token op, None) :: show (op_level op + 1) b
    | EIf c a b => show 1 c ++ (TOKEN_IF, None) :: show 0 a ++ (TOKEN_ELSE, None) :: show 0 b
    end in
  if decide (level e < p) then (TOKEN_BRA, None) :: body ++ [(TOKEN_KET, None)] else body.

(** The token stack slots used while reading [show p e]. *)
Fixpoint need (p : Z) (e : lut_expr) : nat :=
  let body :=
    match e with
    | EConst _ => 1
    | ENot e => 1 + need 6 e
    | EBin op a b => need (op_level op) a `max` (1 + need (op_level op + 1) b)
    | EIf c a b => need 1 c `max` (1 + need 0 a) `max` (2 + need 0 b)
    end%nat in
  if decide (level e < p) then S body else body.

(** [s] is read as the given tokens, then the end: any spacing is allowed. *)
Inductive lexes : cstring → list item → Prop :=
  | lexes_end s : read_token (Some s) = Ret (Some (TOKEN_END, None, None)) → lexes s []
  | lexes_cons s t v s' rest :
      read_token (Some s) = Ret (Some (t, v, Some s')) → lexes s' rest → lexes s ((t, v) :: rest).

(** ** The parser on printed expressions *)

(** The tokens still to come, the one read ahead included. *)
Definition feeds (st : lut_state) (items : list item) : Prop :=
  match items with
  | [] => next_token st = TOKEN_END
  | (t, v) :: rest =>
      next_token st = t ∧ (∀ x, v = Some x → value st = x) ∧ ∃ s, input st = Some s ∧ lexes s rest
  end.

Definition first_token (items : list item) : token_symbol :=
  match items with [] => TOKEN_END | (t, _) :: _ => t end.

Lemma feeds_next st items : feeds st items → next_token st = first_token items.
Proof. destruct items as [|[t v] rest]; simpl; [done|]. by intros [? _]. Qed.

Definition step (st st' : lut_state) : Prop :=
  finished st = false ∧ lut_turn st = Ret (Continue st').

Lemma step_inv st st' : lut_inv st → step st st' → lut_inv st'.
Proof.
  intros Hinv [Hf Ht]. destruct (turn_total st Hinv Hf) as (r & E & Hr). rewrite Ht in E.
  simplify_eq. by destruct Hr.
Qed.

Lemma steps_inv st st' : lut_inv st → rtc step st st' → lut_inv st'.
Proof. intros Hinv. induction 1; eauto using step_inv. Qed.

(** One push. *)
Lemma step_push st t v rest top below :
  feeds st ((t, v) :: rest) → token_stack st = top :: below → t ≠ TOKEN_END →
  lookup_action top t = LT ∨ lookup_action top t = EQ →
  (length (token_stack st) < MAX_DEPTH)%nat →
  ∃ st', step st st' ∧ token_stack st' = t :: token_stack st ∧
    value_stack st' = value_stack st ∧ feeds st' rest ∧
    (first_token rest ≠ TOKEN_CONSTANT → value st' = value st).
Proof.
  intros (Hn & Hv & s & Hi & Hlex) Htok Hne Hact Hroom.
  assert (Ht : lut_turn st = push_token st).
  { unfold lut_turn. rewrite Htok, Hn. destruct Hact as [-> | ->]; done. }
  assert (Hfin : finished st = false).
  { unfold finished. rewrite Hn. rewrite (bool_decide_false (t = _)) by done. apply andb_false_r. }
  unfold step. setoid_rewrite Ht. setoid_rewrite Hfin. unfold push_token. rewrite decide_False by lia.
  unfold read_next. rewrite Hi, Hn. inversion Hlex as [? E|? t' v' s' rest' E Hl]; subst; rewrite E; simpl.
  - eexists; split_and!; done.
  - eexists; split_and!; try done; simpl; [by intros x ->|by exists s'|].
    + intros Hc. destruct v' as [x|]; [|done].
      exfalso. apply Hc. unfold read_token in E. destruct (skip_spaces s); [by simplify_eq|].
      repeat case_decide; by simplify_eq.
Qed.

(** One reduction. *)
Lemma step_reduce st t below items args vs x :
  lut_inv st → feeds st items → token_stack st = t :: below → t ≠ TOKEN_END →
  lookup_action t (first_token items) = GT →
  value_stack st = args ++ vs → length args = TOKEN_ARITY t → reduce t (value st) args = Ret x →
  ∃ st', step st st' ∧ token_stack st' = drop (TOKEN_REDUCE t) (t :: below) ∧
    value_stack st' = x :: vs ∧ feeds st' items.
Proof.
  intros Hinv Hf Htok Hne Hact Hvs Hlen Hx.
  assert (Hfin : finished st = false).
  { unfold finished. rewrite (bool_decide_false (length _ ≤ 1)%nat); [done|].
    rewrite Htok. destruct Hinv as [Hsh _ _ _]. rewrite Htok in Hsh. destruct below; [done|simpl; lia]. }
  assert (Ht : lut_turn st = reduce_stack t st).
  { unfold lut_turn. rewrite Htok, (feeds_next st items Hf), Hact. done. }
  destruct (turn_total st Hinv Hfin) as (r & Er & Hr).
  unfold step. rewrite Ht in *. setoid_rewrite Hfin. unfold reduce_stack in *.
  rewrite Hvs in *. rewrite <-Hlen in *. rewrite take_app_length, drop_app_length in *.
  rewrite decide_False in * by (rewrite length_app; lia).
  destruct (in_range _) as [[]| |]; simpl in Er; simplify_eq.
  cbn. rewrite Hx. cbn. eexists; split_and!; [done|done|by rewrite Htok|done|].
  destruct items as [|[t' v'] rest]; simpl in *; done.
Qed.

(** The token on top of the stack leaves an expression of level [p] alone. *)
Definition opens (t : token_symbol) (p : Z) : Prop :=
  match t with
  | TOKEN_BRA | TOKEN_IF | TOKEN_ELSE | TOKEN_END => True
  | TOKEN_NOT => 6 ≤ p
  | TOKEN_CONSTANT | TOKEN_KET => False
  | _ => TOKEN_PRECEDENCE t < p
  end.

(** The following token ends an expression of level [p]. *)
Definition closes (t : token_symbol) (p : Z) : Prop :=
  match t with
  | TOKEN_KET | TOKEN_ELSE | TOKEN_END => True
  | TOKEN_IF => 1 ≤ p
  | TOKEN_CONSTANT | TOKEN_BRA | TOKEN_NOT => False
  | _ => TOKEN_PRECEDENCE t ≤ p
  end.

Lemma opens_mono t p q : opens t p → p ≤ q → opens t q.
Proof. destruct t; simpl; lia || done. Qed.
Lemma closes_mono t p q : closes t p → p ≤ q → closes t q.
Proof. destruct t; simpl; lia || done. Qed.

Lemma op_precedence op : TOKEN_PRECEDENCE (op_token op) = op_level op.
Proof. by destruct op. Qed.
Lemma op_level_range op : 1 ≤ op_level op ≤ 5.
Proof. destruct op; simpl; lia. Qed.

(** A table entry, by computation, or by contradiction with the levels. *)
Ltac table_entry :=
  cbn [opens closes op_level op_token] in *;
  repeat match goal with
  | H : context [TOKEN_PRECEDENCE ?t] |- _ =>
      let v := eval vm_compute in (TOKEN_PRECEDENCE t) in change (TOKEN_PRECEDENCE t) with v in H
  end; first [done | reflexivity | exfalso; lia].

(** The table entries the induction uses. *)
Lemma act_operand t p u :
  opens t p → u = TOKEN_CONSTANT ∨ u = TOKEN_BRA ∨ u = TOKEN_NOT → lookup_action t u = LT.
Proof. intros Ho [-> |[-> | ->]]; destruct t; done. Qed.
Lemma act_op t op p : opens t p → p ≤ op_level op → lookup_action t (op_token op) = LT.
Proof. intros Ho Hp. destruct t, op; table_entry. Qed.
Lemma act_if t : opens t 0 → lookup_action t TOKEN_IF = LT.
Proof. intros Ho. destruct t; table_entry. Qed.
Lemma act_closed t n p :
  t = TOKEN_CONSTANT ∨ t = TOKEN_KET ∨ t = TOKEN_NOT → closes n p → lookup_action t n = GT.
Proof. intros [-> |[-> | ->]] Hc; destruct n; done. Qed.
Lemma act_op_closed op n p : p ≤ op_level op → closes n p → lookup_action (op_token op) n = GT.
Proof. intros Hp Hc. destruct n, op; table_entry. Qed.
Lemma act_else_closed n : closes n 0 → lookup_action TOKEN_ELSE n = GT.
Proof. intros Hc. destruct n; table_entry. Qed.

(** The parser turns the tokens of an expression into its value. *)
Definition evaluates (p : Z) (e : lut_expr) (items : list item) (slots : nat) : Prop :=
  ∀ st rest top below,
    lut_inv st → feeds st (items ++ rest) → token_stack st = top :: below →
    opens top p → closes (first_token rest) p → (length (token_stack st) + slots ≤ MAX_DEPTH)%nat →
    ∃ st', rtc step st st' ∧ lut_inv st' ∧ token_stack st' = token_stack st ∧
      value_stack st' = table e :: value_stack st ∧ feeds st' rest.

Lemma evaluates_const p k : evaluates p (EConst k) [(TOKEN_CONSTANT, Some (const_value k))] 1.
Proof.
  intros st rest top below Hinv Hf Htok Ho Hc Hroom. cbn [app] in Hf.
  assert (Hval : value st = const_value k) by (destruct Hf as (_ & Hv & _); by apply Hv).
  destruct (step_push st TOKEN_CONSTANT (Some (const_value k)) rest top below)
    as (st1 & S1 & T1 & V1 & F1 & X1); [done|done|done|left; eapply act_operand; eauto|lia|].
  assert (I1 := step_inv _ _ Hinv S1).
  destruct (step_reduce st1 TOKEN_CONSTANT (token_stack st) rest [] (value_stack st) (const_value k))
    as (st2 & S2 & T2 & V2 & F2); [done|done|done|done| | |done| |].
  - eapply act_closed; eauto.
  - by rewrite V1.
  - simpl. rewrite X1; [by rewrite Hval|]. intros E. by rewrite E in Hc.
  - exists st2. split_and!; [by eapply rtc_l, rtc_once| |done..].
    eauto using step_inv.
Qed.

Lemma evaluates_paren p e items slots :
  evaluates 0 e items slots → (1 ≤ slots)%nat →
  evaluates p e ((TOKEN_BRA, None) :: items ++ [(TOKEN_KET, None)]) (S slots).
Proof.
  intros Hev Hslots st rest top below Hinv Hf Htok Ho Hc Hroom. cbn [app] in Hf.
  rewrite <-(assoc_L (++)) in Hf. cbn [app] in Hf.
  destruct (step_push st TOKEN_BRA None (items ++ (TOKEN_KET, None) :: rest) top below)
    as (st1 & S1 & T1 & V1 & F1 & _); [done|done|done|left; eapply act_operand; eauto|lia|].
  assert (I1 := step_inv _ _ Hinv S1).
  destruct (Hev st1 ((TOKEN_KET, None) :: rest) TOKEN_BRA (token_stack st))
    as (st2 & S2 & I2 & T2 & V2 & F2); [done|done|done|done|done|rewrite T1; cbn [length]; lia|].
  destruct (step_push st2 TOKEN_KET None rest TOKEN_BRA (token_stack st))
    as (st3 & S3 & T3 & V3 & F3 & _); [done|by rewrite T2|done|by right| |].
  { rewrite T2, T1. cbn [length]. lia. }
  assert (I3 := step_inv _ _ I2 S3).
  destruct (step_reduce st3 TOKEN_KET (TOKEN_BRA :: token_stack st) rest [table e] (value_stack st) (table e))
    as (st4 & S4 & T4 & V4 & F4); [done|done|by rewrite T3, T2, T1|done| | |done|done|].
  - eapply act_closed; eauto.
  - by rewrite V3, V2, V1.
  - exists st4. split_and!; [|by eapply step_inv|done|done|done].
    eapply rtc_l; [done|]. etrans; [done|]. eapply rtc_l; [done|]. by apply rtc_once.
Qed.

Lemma evaluates_not p e items slots :
  p ≤ 6 → evaluates 6 e items slots → evaluates p (ENot e) ((TOKEN_NOT, None) :: items) (S slots).
Proof.
  intros Hp Hev st rest top below Hinv Hf Htok Ho Hc Hroom. cbn [app] in Hf.
  destruct (step_push st TOKEN_NOT None (items ++ rest) top below)
    as (st1 & S1 & T1 & V1 & F1 & _); [done|done|done|left; eapply act_operand; eauto|lia|].
  assert (I1 := step_inv _ _ Hinv S1).
  destruct (Hev st1 rest TOKEN_NOT (token_stack st))
    as (st2 & S2 & I2 & T2 & V2 & F2);
    [done|done|done|simpl; lia|by eapply closes_mono|rewrite T1; cbn [length]; lia|].
  destruct (step_reduce st2 TOKEN_NOT (token_stack st) rest [table e] (value_stack st) (not32 (table e)))
    as (st3 & S3 & T3 & V3 & F3); [done|done|by rewrite T2|done| | |done|done|].
  - eapply act_closed; eauto.
  - by rewrite V2, V1.
  - exists st3. split_and!; [|by eapply step_inv|done|done|done].
    eapply rtc_l; [done|]. etrans; [done|]. by apply rtc_once.
Qed.

Lemma reduce_op op v a b : reduce (op_token op) v [b; a] = Ret (op_value op a b).
Proof. by destruct op. Qed.

Lemma evaluates_bin p op a b ia ib na nb :
  p ≤ op_level op → evaluates (op_level op) a ia na → evaluates (op_level op + 1) b ib nb →
  evaluates p (EBin op a b) (ia ++ (op_token op, None) :: ib) (na `max` S nb).
Proof.
  intros Hp Ha Hb st rest top below Hinv Hf Htok Ho Hc Hroom.
  rewrite <-(assoc_L (++)) in Hf. cbn [app] in Hf.
  destruct (Ha st ((op_token op, None) :: ib ++ rest) top below)
    as (st1 & S1 & I1 & T1 & V1 & F1); [done|done|done|by eapply opens_mono| |lia|].
  { simpl. pose proof (op_precedence op). destruct op; simpl in *; lia. }
  destruct (step_push st1 (op_token op) None (ib ++ rest) top below)
    as (st2 & S2 & T2 & V2 & F2 & _);
    [done|by rewrite T1|by destruct op|left; eapply act_op; eauto|rewrite T1; lia|].
  assert (I2 := step_inv _ _ I1 S2).
  destruct (Hb st2 rest (op_token op) (token_stack st))
    as (st3 & S3 & I3 & T3 & V3 & F3); [done|done|by rewrite T2, T1| | | |].
  { pose proof (op_precedence op). destruct op; simpl in *; lia. }
  { eapply closes_mono; [done|lia]. }
  { rewrite T2, T1. cbn [length]. lia. }
  destruct (step_reduce st3 (op_token op) (token_stack st) rest [table b; table a] (value_stack st)
              (op_value op (table a) (table b)))
    as (st4 & S4 & T4 & V4 & F4); [done|done|by rewrite T3, T2, T1|by destruct op| | |by destruct op| |].
  - by eapply act_op_closed.
  - by rewrite V3, V2, V1.
  - apply reduce_op.
  - exists st4. split_and!; [|by eapply step_inv| |done|done].
    + etrans; [done|]. eapply rtc_l; [done|]. etrans; [done|]. by apply rtc_once.
    + rewrite T4. by destruct op.
Qed.

Lemma evaluates_if c a b ic ia ib nc na nb :
  evaluates 1 c ic nc → evaluates 0 a ia na → evaluates 0 b ib nb → (1 ≤ nb)%nat →
  evaluates 0 (EIf c a b)
    (ic ++ (TOKEN_IF, None) :: ia ++ (TOKEN_ELSE, None) :: ib) (nc `max` S na `max` S (S nb)).
Proof.
  intros Hc Ha Hb Hnb st rest top below Hinv Hf Htok Ho Hcl Hroom.
  rewrite <-(assoc_L (++)) in Hf. cbn [app] in Hf. rewrite <-(assoc_L (++)) in Hf. cbn [app] in Hf.
  destruct (Hc st ((TOKEN_IF, None) :: ia ++ (TOKEN_ELSE, None) :: ib ++ rest) top below)
    as (st1 & S1 & I1 & T1 & V1 & F1); [done|done|done|eapply opens_mono; [done|lia]|simpl; lia|lia|].
  destruct (step_push st1 TOKEN_IF None (ia ++ (TOKEN_ELSE, None) :: ib ++ rest) top below)
    as (st2 & S2 & T2 & V2 & F2 & _); [done|by rewrite T1|done|left; by apply act_if|rewrite T1; lia|].
  assert (I2 := step_inv _ _ I1 S2).
  destruct (Ha st2 ((TOKEN_ELSE, None) :: ib ++ rest) TOKEN_IF (token_stack st))
    as (st3 & S3 & I3 & T3 & V3 & F3); [done|done|by rewrite T2, T1|done|done| |].
  { rewrite T2, T1. cbn [length]. lia. }
  destruct (step_push st3 TOKEN_ELSE None (ib ++ rest) TOKEN_IF (token_stack st))
    as (st4 & S4 & T4 & V4 & F4 & _); [done|by rewrite T3, T2, T1|done|by right| |].
  { rewrite T3, T2, T1. cbn [length]. lia. }
  assert (I4 := step_inv _ _ I3 S4).
  destruct (Hb st4 rest TOKEN_ELSE (TOKEN_IF :: token_stack st))
    as (st5 & S5 & I5 & T5 & V5 & F5); [done|done|by rewrite T4, T3, T2, T1|done|done| |].
  { rewrite T4, T3, T2, T1. cbn [length]. lia. }
  destruct (step_reduce st5 TOKEN_ELSE (TOKEN_IF :: token_stack st) rest
              [table b; table a; table c] (value_stack st) (table (EIf c a b)))
    as (st6 & S6 & T6 & V6 & F6); [done|done|by rewrite T5, T4, T3, T2, T1|done| | |done|done|].
  - by apply act_else_closed.
  - by rewrite V5, V4, V3, V2, V1.
  - exists st6. split_and!; [|by eapply step_inv|done|done|done].
    etrans; [done|]. eapply rtc_l; [done|]. etrans; [done|].
    eapply rtc_l; [done|]. etrans; [done|]. by apply rtc_once.
Qed.

Lemma need_pos p e : (1 ≤ need p e)%nat.
Proof. destruct e; simpl; case_decide; lia. Qed.

Lemma level_range e : 0 ≤ level e ≤ 7.
Proof. destruct e as [| |op|]; simpl; [lia..| |lia]. pose proof (op_level_range op). lia. Qed.

(** An expression is printed either bare or in brackets. *)
Lemma evaluates_show p e items slots :
  0 ≤ p → (1 ≤ slots)%nat → (∀ q, 0 ≤ q ≤ level e → evaluates q e items slots) →
  evaluates p e
    (if decide (level e < p) then (TOKEN_BRA, None) :: items ++ [(TOKEN_KET, None)] else items)
    (if decide (level e < p) then S slots else slots).
Proof.
  intros Hp Hs Hev. pose proof (level_range e). case_decide.
  - apply evaluates_paren; [apply Hev; lia|done].
  - apply Hev. lia.
Qed.

Lemma show_evaluates e p : 0 ≤ p → evaluates p e (show p e) (need p e).
Proof.
  revert p. induction e as [k|e IH|op a IHa b IHb|c IHc a IHa b IHb]; intros p Hp.
  - apply (evaluates_show p (EConst k)); [done|lia|]. intros. apply evaluates_const.
  - apply (evaluates_show p (ENot e)); [done|lia|]. intros q Hq. apply evaluates_not; [simpl in Hq; lia|].
    apply IH. lia.
  - pose proof (op_level_range op).
    apply (evaluates_show p (EBin op a b)); [done|lia|]. intros q Hq.
    apply evaluates_bin; [simpl in Hq; lia|apply IHa; lia|apply IHb; lia].
  - apply (evaluates_show p (EIf c a b)); [done|lia|]. intros q Hq.
    replace q with 0 by (simpl in Hq; lia).
    apply evaluates_if; [apply IHc; lia|apply IHa; lia|apply IHb; lia|apply need_pos].
Qed.

Lemma loop_steps st st' fuel :
  rtc step st st' → finished st' = true → lut_inv st → (measure st ≤ fuel)%nat →
  lut_loop fuel st = Some (Ret (extract_result (value_stack st'))).
Proof.
  intros Hst. revert fuel. induction Hst as [st|st1 st2 st3 Hstep _ IH]; intros fuel Hfin Hinv Hm.
  - destruct fuel; cbn [lut_loop]; by rewrite Hfin.
  - destruct Hstep as [Hf Ht]. destruct (turn_total st1 Hinv Hf) as (r & E & Hr).
    rewrite Ht in E. simplify_eq. destruct Hr as [Hinv2 Hm2].
    destruct fuel as [|fuel]; [lia|]. cbn [lut_loop]. rewrite Hf, Ht. apply IH; [done..|lia].
Qed.

Lemma parse_lut_table e s :
  lexes s (show 0 e) → (need 0 e < MAX_DEPTH)%nat →
  parse_lut s = Some (Ret (LUT_PARSE_OK, table e)).
Proof.
  intros Hlex Hneed.
  assert (∃ st, read_next [TOKEN_END] [] 0 (Some s) = Ret (Continue st) ∧ feeds st (show 0 e) ∧
    token_stack st = [TOKEN_END] ∧ value_stack st = []) as (st & E & Hf & Ht & Hv).
  { unfold read_next, feeds. inversion Hlex as [? E|? t v s' rest E Hl]; subst; rewrite E; simpl;
      eexists; split_and!; try done; simpl; [by intros x ->|by eexists]. }
  destruct (initial_inv s st E) as [Hinv Hm].
  destruct (show_evaluates e 0 ltac:(lia) st [] TOKEN_END [])
    as (st' & Hst & _ & Ht' & Hv' & Hf'); [done|by rewrite app_nil_r|done|done|done| |].
  { rewrite Ht. cbn [length]. lia. }
  unfold parse_lut. rewrite E. rewrite (loop_steps st st') by (done || by unfold finished; rewrite Ht', Ht, Hf').
  by rewrite Hv', Hv.
Qed.

(** C11: a string that is read as the tokens of an expression, printed with the
    documented precedences, whose reading fits the token stack, is parsed to
    the 32-bit table whose entry [n] is the value of the expression at the
    inputs A..E given by the bits of [n]. *)
Theorem parse_lut_correct e s :
  lexes s (show 0 e) → (need 0 e < MAX_DEPTH)%nat →
  ∃ v, parse_lut s = Some (Ret (LUT_PARSE_OK, v)) ∧
    ∀ n, 0 ≤ n < 32 → Z.testbit v n = meaning e (entry_inputs n).
Proof.
  intros Hlex Hneed. exists (table e).
  split; [by apply parse_lut_table|intros; by apply table_meaning].
Qed.

(** ** Printed text *)

(** The characters of a token, followed by a space. *)
Definition const_char (k : lut_const) : Z :=
  match k with K0 => 48 | K1 => 49 | KA => 65 | KB => 66 | KC => 67 | KD => 68 | KE => 69 end.
Definition op_text (op : lut_op) : cstring :=
  match op with OEq => [61] | OAnd => [38] | OXor => [94] | OOr => [124] | OImplies => [61; 62] end.

Fixpoint print (p : Z) (e : lut_expr) (rest : cstring) : cstring :=
  let bracket := bool_decide (level e < p) in
  let tail := if bracket then 41 :: 32 :: rest else rest in
  let body :=
    match e with
    | EConst k => const_char k :: 32 :: tail
    | ENot e => 126 :: 32 :: print 6 e tail
    | EBin op a b =>
        print (op_level op) a (op_text op ++ 32 :: print (op_level op + 1) b tail)
    | EIf c a b => print 1 c (63 :: 32 :: print 0 a (58 :: 32 :: print 0 b tail))
    end in
  if bracket then 40 :: 32 :: body else body.

Lemma lexes_space s items : lexes s items → lexes (32 :: s) items.
Proof.
  assert (E : read_token (Some (32 :: s)) = read_token (Some s)) by done.
  intros Hl. inversion Hl; subst; [constructor|econstructor; [|done]]; by rewrite E.
Qed.

Lemma lexes_char t v chars s items :
  read_token (Some (chars ++ 32 :: s)) = Ret (Some (t, v, Some (32 :: s))) →
  lexes s items → lexes (chars ++ 32 :: s) ((t, v) :: items).
Proof. intros E Hl. econstructor; [done|]. by apply lexes_space. Qed.

Lemma print_lexes e p s items :
  lexes s items → lexes (print p e s) (show p e ++ items).
Proof.
  revert p s items. induction e as [k|e IH|op a IHa b IHb|c IHc a IHa b IHb]; intros p s items Hl;
    cbn [print show]; case_bool_decide as Hp;
    rewrite ?(decide_True (P := level _ < p)), ?(decide_False (P := level _ < p)) by done;
    cbn [app]; rewrite <-?(assoc_L (++)); cbn [app]; rewrite <-?(assoc_L (++)); cbn [app].
  all: try (apply (lexes_char TOKEN_BRA None [40]); [done|]).
  all: try (assert (Hket : lexes (41 :: 32 :: s) ((TOKEN_KET, None) :: items))
              by (apply (lexes_char TOKEN_KET None [41]); done)).
  1,2: apply (lexes_char _ _ [const_char k]); [by destruct k|done].
  1,2: apply (lexes_char TOKEN_NOT None [126]); [done|]; by apply IH.
  1,2: apply IHa, lexes_char; [by destruct op|]; by apply IHb.
  1,2: apply IHc, (lexes_char TOKEN_IF None [63]); [done|];
       apply IHa, (lexes_char TOKEN_ELSE None [58]); [done|]; by apply IHb.
Qed.

(** Every expression that fits the token stack has a text, its print, that
    [parse_lut] accepts with the truth table of the expression. *)
Theorem parse_print_lut e :
  (need 0 e < MAX_DEPTH)%nat →
  ∃ v, parse_lut (print 0 e []) = Some (Ret (LUT_PARSE_OK, v)) ∧
    ∀ n, 0 ≤ n < 32 → Z.testbit v n = meaning e (entry_inputs n).
Proof.
  intros Hneed. exists (table e). split; [|intros; by apply table_meaning].
  apply parse_lut_table; [|done]. rewrite <-(app_nil_r (show 0 e)).
  apply print_lexes. by constructor.
Qed.

(** ** The regression table of tests/parse_lut_test.c *)

Definition succeeds (t : string * Z) : bool :=
  match parse_lut (bytes_of t.1) with
  | Some (Ret (LUT_PARSE_OK, v)) => bool_decide (v = t.2) | _ => false end.
Definition fails (t : string * parse_lut_status) : bool :=
  match parse_lut (bytes_of t.1) with
  | Some (Ret (st, _)) => String.eqb (parse_lut_error_string st) (parse_lut_error_string t.2)
  | _ => false end.

Example regression_succeeds : forallb succeeds
  [ ("A", 0xffff0000); ("B", 0xff00ff00); ("C", 0xf0f0f0f0); ("D", 0xcccccccc); ("E", 0xaaaaaaaa);
    ("0", 0); ("1", 0xffffffff); (" A ?    B:(C?B:~D)   ", 0xff00f303);
    ("A=>B|C^D&E=(A=>B|C^D&E=(A=>B|C^D&E=(A)))", 0xff78ffff); ("A==B", 0xff0000ff);
    ("A=B", 0xff0000ff); ("A&B|~A&C", 0xff00f0f0); ("~A?B:C", 0xf0f0ff00); ("A?B:C?D:E", 0xff00caca);
    ("A=>B?C:D", 0xf0ccf0f0); ("A&B|C^D=E=>A?0:1", 0x00006969); ("A=>B=>C", 0xf0fff0f0);
    ("A=>(B=>C)", 0xf0ffffff); ("((~~A))?~(1):1", 0x0000ffff); ("A?B?C:D:E", 0xf0ccaaaa);
    ("(A=>B|C^D&E=(A=>B|C^D&E=(A=>B|C^D&E=(((A=>B|C^D&E=(A=>B|C^D&E=(A=>B|C^D&E=A))))))))", 0xfffcffff);
    ("(A?B:C)=(A&B|~A&C)", 0xffffffff) ]%string = true.
Proof. vm_compute. reflexivity. Qed.

Example regression_fails : forallb fails
  [ (EmptyString, LUT_PARSE_NO_VALUE); ("()", LUT_PARSE_NO_VALUE); ("A&()", LUT_PARSE_NO_VALUE);
    ("a", LUT_PARSE_TOKEN_ERROR); (")", LUT_PARSE_NO_OPEN); ("A)", LUT_PARSE_NO_OPEN);
    ("(", LUT_PARSE_NO_CLOSE); ("((((((((((((((((((((((((((((((((((((((((", LUT_PARSE_TOO_COMPLEX);
    ("AA", LUT_PARSE_NO_OPERATOR); ("A&", LUT_PARSE_NO_VALUE); ("A:B", LUT_PARSE_NO_IF);
    ("A?B", LUT_PARSE_NO_ELSE); ("(B:", LUT_PARSE_NO_IF); ("(B?C)", LUT_PARSE_NO_ELSE);
    ("(A)(A)", LUT_PARSE_NO_OPERATOR); ("A~", LUT_PARSE_NO_OPERATOR) ]%string = true.
Proof. vm_compute. reflexivity. Qed.

Definition example_expr : lut_expr := EIf (EConst KA) (EConst KB) (ENot (EBin OAnd (EConst KC) (EConst KD))).

Lemma parse_print_lut_witness :
  ∃ v, parse_lut (print 0 example_expr []) = Some (Ret (LUT_PARSE_OK, v)) ∧
    ∀ n, 0 ≤ n < 32 → Z.testbit v n = meaning example_expr (entry_inputs n).
Proof. apply (parse_print_lut example_expr). vm_compute. lia. Defined.

Lemma example_lexes : lexes (bytes_of "A?B:~(C&D)") (show 0 example_expr).
Proof.
  unfold show, example_expr. repeat (econstructor; [vm_compute; reflexivity|]). by constructor.
Qed.

Lemma parse_lut_correct_witness :
  ∃ v, parse_lut (bytes_of "A?B:~(C&D)") = Some (Ret (LUT_PARSE_OK, v)) ∧
    ∀ n, 0 ≤ n < 32 → Z.testbit v n = meaning example_expr (entry_inputs n).
Proof. apply (parse_lut_correct example_expr (bytes_of "A?B:~(C&D)") example_lexes). vm_compute. lia. Defined.

End LutSpec.
