(* ===== verification/Probe.v ===== *)
(** * The probe sequence of the hash table: hashtable.c, [lookup]

    The slots visited for a hash value, as in the loop header of [lookup]:
    all bits of the hash are shifted in through [perturb], and once they are
    used up the index runs through [ix = 1 + 5*ix], which visits every slot of
    a table whose size is a power of two. *)

From S2P Require Import Prelude.
From Stdlib Require Import Znumtheory.
From stdpp Require Import base numbers list list_numbers.
Open Scope Z_scope.

Module Probe.

(** ** Divisibility by powers of two *)

Lemma pow2_divide_odd j a b : 0 ≤ j → Z.Odd a → (2 ^ j | a * b) → (2 ^ j | b).
Proof.
  intros Hj Ha. revert b. pattern j. apply natlike_ind; [|clear j Hj; intros j Hj IH|done]; intros b Hb.
  - apply Z.divide_1_l.
  - rewrite Z.pow_succ_r in * by done.
    destruct (IH b) as [c Hc]; [destruct Hb as [q Hq]; exists (q * 2); lia|].
    destruct Hb as [q Hq]. rewrite Hc in Hq.
    assert (a * c = 2 * q) as E by (apply (Z.mul_cancel_r _ _ (2 ^ j)); [lia|]; lia).
    destruct Ha as [x Hx]. destruct (Zeven_odd_dec c) as [Hev|Hod].
    + apply Zeven_ex in Hev as [y Hy]. exists y. lia.
    + apply Zodd_ex in Hod as [y Hy]. exfalso. subst a c. lia.
Qed.

(** Powers of five are one more than a multiple of four. *)
Lemma pow5_mod4 e : 0 ≤ e → ∃ q, 5 ^ e = 4 * q + 1.
Proof.
  intros He. pattern e. apply natlike_ind; [by exists 0| |done].
  intros x Hx [q Hq]. rewrite Z.pow_succ_r by done. exists (5 * q + 1). lia.
Qed.

Lemma pow5_even_exponent d : 0 ≤ d → (8 | 5 ^ d - 1) → ∃ e, 0 ≤ e ∧ d = 2 * e.
Proof.
  intros Hd [q Hq]. destruct (Zeven_odd_dec d) as [H|H].
  - apply Zeven_ex in H as [e He]. exists e. lia.
  - exfalso. apply Zodd_ex in H as [e He]. subst d.
    rewrite Z.pow_add_r, Z.pow_mul_r in Hq by lia. change (5 ^ 2) with 25 in Hq.
    assert (∃ p, 25 ^ e = 8 * p + 1) as [p Hp]; [|lia].
    assert (0 ≤ e) as He by lia. clear Hd Hq. pattern e. apply natlike_ind; [by exists 0| |done].
    intros x Hx [p Hp]. rewrite Z.pow_succ_r by done. exists (25 * p + 3). lia.
Qed.

(** The order of five modulo [2^(k+2)] is [2^k]. *)
Lemma pow5_order k d : 0 ≤ k → 0 ≤ d → (2 ^ (k + 2) | 5 ^ d - 1) → (2 ^ k | d).
Proof.
  intros Hk. revert d. pattern k. apply natlike_ind; [|clear k Hk; intros k Hk IH|done]; intros d Hd Hdiv.
  - apply Z.divide_1_l.
  - replace (Z.succ k + 2) with (k + 3) in Hdiv by lia.
    destruct (pow5_even_exponent d) as (e & He & ->); [done| |].
    { transitivity (2 ^ (k + 3)); [|done]. exists (2 ^ k). rewrite Z.pow_add_r by lia. lia. }
    destruct (pow5_mod4 e He) as [q Hq].
    assert (2 ^ (k + 2) | 5 ^ e - 1) as H.
    { apply (pow2_divide_odd _ (2 * q + 1)); [lia|by exists q|].
      destruct Hdiv as [r Hr]. exists r.
      rewrite (Z.mul_comm 2 e), Z.pow_mul_r, Z.pow_2_r in Hr by lia.
      replace (k + 3) with (Z.succ (k + 2)) in Hr by lia. rewrite Z.pow_succ_r in Hr by lia.
      nia. }
    destruct (IH e He H) as [c ->]. rewrite Z.pow_succ_r by done. exists c. lia.
Qed.

(** ** The sequence *)

Section probe.
Context `{Platform}.

(** [perturb] and [ix] when the loop body runs for the [n]-th time. *)
Fixpoint perturb (h : Z) (n : nat) : Z :=
  match n with O => h | S n' => Z.shiftr (perturb h n') 5 end.
Fixpoint ix (h : Z) (n : nat) : Z :=
  match n with O => h | S n' => ulong (1 + 5 * ix h n' + perturb h n) end.

(** [ix & size_mask] for a table of [2^k] entries. *)
Definition slot (k h : Z) (n : nat) : nat := Z.to_nat (wrap k (ix h n)).

(** The number of steps that use up the bits of a hash. *)
Definition PERTURB_STEPS : nat := 13.

Lemma long_bits_bound : 32 ≤ long_bits ≤ 64.
Proof. destruct long_bits_ok; lia. Qed.

Lemma perturb_shift h n : 0 ≤ h → perturb h n = h / 2 ^ (5 * Z.of_nat n).
Proof.
  intros Hh. induction n as [|n IH]; cbn [perturb]; [by rewrite Z.div_1_r|].
  rewrite IH, Z.shiftr_div_pow2, Z.div_div by lia.
  f_equal. rewrite <-Z.pow_add_r by lia. f_equal. lia.
Qed.

Lemma perturb_zero h n :
  0 ≤ h < 2 ^ long_bits → (PERTURB_STEPS ≤ n)%nat → perturb h n = 0.
Proof.
  unfold PERTURB_STEPS. intros Hh Hn. rewrite perturb_shift by lia. apply Z.div_small. split; [lia|].
  eapply Z.lt_le_trans; [apply Hh|]. pose proof long_bits_bound. apply Z.pow_le_mono_r; lia.
Qed.

(** Once [perturb] is zero, [4*ix + 1] is multiplied by five at every step. *)
Lemma geometric_step w k y a :
  0 ≤ k ≤ w → (2 ^ (k + 2) | 4 * y + 1 - a) →
  (2 ^ (k + 2) | 4 * wrap w (1 + 5 * y + 0) + 1 - 5 * a).
Proof.
  intros Hk [q Hq]. unfold wrap.
  pose proof (Z.div_mod (1 + 5 * y + 0) (2 ^ w) ltac:(apply Z.pow_nonzero; lia)) as E.
  assert (2 ^ w = 2 ^ k * 2 ^ (w - k)) as Ew by (rewrite <-Z.pow_add_r by lia; f_equal; lia).
  set (t := (1 + 5 * y + 0) / 2 ^ w) in *. set (r := (1 + 5 * y + 0) mod 2 ^ w) in *.
  rewrite Z.pow_add_r in Hq |- * by lia. rewrite Ew in E.
  exists (5 * q - 2 ^ (w - k) * t). lia.
Qed.

Lemma slot_lt k h n : 0 ≤ k → (slot k h n < Z.to_nat (2 ^ k))%nat.
Proof. intros Hk. unfold slot. pose proof (wrap_range k (ix h n) Hk). lia. Qed.

Section after_perturbation.
Context (P : nat) (h : Z) (perturb_done : ∀ n, (P ≤ n)%nat → perturb h n = 0).

Lemma ix_geometric k m :
  0 ≤ k ≤ long_bits →
  (2 ^ (k + 2) | (4 * ix h (P + m) + 1) - 5 ^ Z.of_nat m * (4 * ix h P + 1)).
Proof.
  intros Hk. induction m as [|m IH].
  - rewrite Nat.add_0_r, Nat2Z.inj_0, Z.pow_0_r, Z.mul_1_l, Z.sub_diag. apply Z.divide_0_r.
  - rewrite Nat.add_succ_r. cbn [ix]. rewrite perturb_done by lia.
    rewrite Nat2Z.inj_succ, Z.pow_succ_r, <-Z.mul_assoc by lia.
    by apply geometric_step.
Qed.

(** After the perturbation, [2^k] successive probes are all different. *)
Lemma slot_inj k m1 m2 :
  0 ≤ k ≤ long_bits → (m1 ≤ m2)%nat → Z.of_nat m2 < 2 ^ k →
  slot k h (P + m1) = slot k h (P + m2) → m1 = m2.
Proof.
  intros Hk Hle Hlt E. unfold slot in E.
  apply Z2Nat.inj in E; [|apply wrap_range; lia..].
  apply wrap_eq in E. apply Z.mod_divide in E; [|lia].
  pose proof (ix_geometric k m1 Hk) as H1. pose proof (ix_geometric k m2 Hk) as H2.
  set (a := 4 * ix h P + 1) in *.
  destruct E as [q Hq], H1 as [q1 Hq1], H2 as [q2 Hq2].
  assert (2 ^ k | Z.of_nat (m2 - m1)) as [c Hc].
  { apply pow5_order; [lia..|].
    apply (pow2_divide_odd _ (5 ^ Z.of_nat m1 * a)); [lia| |].
    - destruct (pow5_mod4 (Z.of_nat m1)) as [r ->]; [lia|]. unfold a.
      exists (2 * (4 * r + 1) * ix h P + 2 * r). lia.
    - rewrite Nat2Z.inj_sub by done.
      assert (5 ^ Z.of_nat m2 = 5 ^ Z.of_nat m1 * 5 ^ (Z.of_nat m2 - Z.of_nat m1)) as E5.
      { rewrite <-Z.pow_add_r by lia. f_equal. lia. }
      rewrite E5 in Hq2. rewrite Z.pow_add_r in Hq1, Hq2 |- * by lia.
      exists (q1 - q2 - q). lia. }
  destruct (decide (c = 0)) as [->|]; [lia|]. nia.
Qed.
End after_perturbation.

(** A list of [n] different numbers below [n] holds all of them. *)
Lemma pigeonhole (l : list nat) n :
  NoDup l → length l = n → Forall (λ x, (x < n)%nat) l → ∀ x, (x < n)%nat → x ∈ l.
Proof.
  intros Hnd Hlen Hall x Hx.
  assert (l ⊆+ seq 0 n) as Hsub.
  { apply NoDup_submseteq; [done|]. intros y Hy. rewrite Forall_forall in Hall.
    apply elem_of_seq. specialize (Hall y Hy). lia. }
  rewrite (submseteq_length_Permutation l (seq 0 n)); [|done|by rewrite length_seq, Hlen].
  apply elem_of_seq. lia.
Qed.

(** Every slot of the table is probed within [PERTURB_STEPS + 2^k] steps. *)
Lemma probe_covers k h s :
  0 ≤ h < 2 ^ long_bits → 0 ≤ k ≤ long_bits → (s < Z.to_nat (2 ^ k))%nat →
  ∃ n, (n < PERTURB_STEPS + Z.to_nat (2 ^ k))%nat ∧ slot k h n = s.
Proof.
  intros Hh Hk Hs. pose proof (λ n, perturb_zero h n Hh) as Hz.
  set (N := Z.to_nat (2 ^ k)) in *.
  set (f := λ m, slot k h (PERTURB_STEPS + m)).
  assert (s ∈ f <$> seq 0 N) as Hin.
  { apply (pigeonhole _ N); [|by rewrite length_fmap, length_seq| |done].
    - apply NoDup_fmap_2_strong; [|apply NoDup_seq].
      intros a b Ha%elem_of_seq Hb%elem_of_seq E. subst f N. simpl in E.
      destruct (decide (a ≤ b)%nat).
      + apply (slot_inj PERTURB_STEPS h Hz k); (done || lia).
      + symmetry. apply (slot_inj PERTURB_STEPS h Hz k); (done || lia).
    - apply Forall_fmap, Forall_forall. intros m _. apply slot_lt. lia. }
  apply list_elem_of_fmap in Hin as (m & -> & Hm%elem_of_seq).
  exists (PERTURB_STEPS + m)%nat. split; [lia|done].
Qed.

End probe.
End Probe.
