(* ===== verification/HashTable.v ===== *)
(** * The hash table: panda-server/server/hashtable.c

    Open addressing with tombstones over a table whose size is a power of two,
    probed as in Probe.  A key [const void *] is modelled by what the key
    operations see of it (the characters of a string, the bits of a pointer), a
    value [void *] by an [option], [None] being [NULL].  The copies of keys that
    a table made by [hash_table_create(true)] owns are reported as the lists of
    keys copied and released by each operation.

    Each operation is an [option]: [None] stands for a probe loop that does not
    end within its fuel or for an access outside the table.  The theorems give
    the result of every operation, so they also show that [None] never arises
    on a well-formed table. *)

From S2P Require Import Prelude Probe.
From stdpp Require Import base numbers list list_numbers gmap option.
Open Scope Z_scope.

Module HashTable.
Import Probe.

(** ** Hash functions *)

Section hashing.
Context `{Platform}.

Definition EMPTY_HASH : Z := 0.
Definition DELETED_HASH : Z := ulong (-1).
Definition INITIAL_SIZE : Z := 8.

(** [(hash_t) *s] for [const char *s]: sign extended where [char] is signed. *)
Definition hash_of_char (c : Z) : Z :=
  ulong (if char_signed then to_signed 8 c else c).

(** [hash_memory_area]. *)
Definition hash_memory_area (area : list Z) : Z :=
  match area with
  | [] => 0
  | c :: s =>
      let hash := ulong (Z.shiftl (hash_of_char c) 7) in
      let hash := foldl (λ hash c, Z.lxor (ulong (1000003 * hash)) (hash_of_char c)) hash s in
      Z.lxor hash (ulong (Z.of_nat (length area)))
  end.

(** [struct hash_table_ops]; of [copy_key] and [release_key] what matters is
    whether they are there. *)
Record hash_table_ops (K : Type) := mk_ops {
  op_hash : K → Z;
  op_compare : K → K → bool;
  op_copy_key : bool;
  op_release_key : bool;
}.

(** [strcmp] on terminated strings. *)
Fixpoint strcmp (s1 s2 : cstring) : comparison :=
  match s1, s2 with
  | [], [] => Eq
  | [], _ :: _ => Lt
  | _ :: _, [] => Gt
  | c1 :: s1', c2 :: s2' =>
      match c1 ?= c2 with Eq => strcmp s1' s2' | r => r end
  end.

Definition hash_string (key : cstring) : Z := hash_memory_area key.
Definition compare_string (key1 key2 : cstring) : bool :=
  match strcmp key1 key2 with Eq => true | _ => false end.

(** The bytes of an object of [n] bytes in memory; all the targets are
    little-endian. *)
Fixpoint le_bytes (n : nat) (x : Z) : list Z :=
  match n with O => [] | S n' => u8 x :: le_bytes n' (Z.shiftr x 8) end.

Definition hash_ptr (key : Z) : Z :=
  hash_memory_area (le_bytes (Z.to_nat (long_bits / 8)) key).
Definition compare_ptr (key1 key2 : Z) : bool := bool_decide (key1 = key2).

Definition copy_string_ops : hash_table_ops cstring :=
  mk_ops _ hash_string compare_string true true.
Definition keep_string_ops : hash_table_ops cstring :=
  mk_ops _ hash_string compare_string false false.
Definition ptr_ops : hash_table_ops Z :=
  mk_ops _ hash_ptr compare_ptr false false.

End hashing.
Arguments op_hash {K}. Arguments op_compare {K}.
Arguments op_copy_key {K}. Arguments op_release_key {K}.

(** What the table relies on: hashes fit [hash_t], comparing is equality, and
    the keys it copies are the keys it releases. *)
Class HashOps `{Platform} {K} `{EqDecision K} (ops : hash_table_ops K) := {
  ops_hash_range k : 0 ≤ op_hash ops k < 2 ^ long_bits;
  ops_compare_eq k1 k2 : op_compare ops k1 k2 = bool_decide (k1 = k2);
  ops_lifetime : op_copy_key ops = op_release_key ops;
}.

(** ** The table *)

Section table.
Context `{Platform} {K V : Type} (ops : hash_table_ops K).

(** [struct table_entry] and [struct hash_table] (its [key_ops] is [ops]). *)
Record table_entry := mk_entry {
  e_hash : Z;
  e_key : option K;
  e_value : option V;
}.
Record hash_table := mk_table {
  entries : Z;
  deleted : Z;
  size_mask : Z;
  slots : list table_entry;
}.

(** What [calloc] leaves in an entry. *)
Definition zero_entry : table_entry := mk_entry EMPTY_HASH None None.

(** [hash_table_create_generic]. *)
Definition hash_table_create_generic : hash_table :=
  mk_table 0 0 (INITIAL_SIZE - 1) (replicate (Z.to_nat INITIAL_SIZE) zero_entry).

Definition compute_hash (key : K) : Z :=
  let hash := op_hash ops key in
  if bool_decide (hash = EMPTY_HASH) || bool_decide (hash = DELETED_HASH)
  then ulong (-2) else hash.

Definition empty_entry (e : table_entry) : bool :=
  bool_decide (e_hash e = EMPTY_HASH) || bool_decide (e_hash e = DELETED_HASH).

(** [entry->hash == hash && compare(key, entry->key)]; comparing with a null
    key has no result. *)
Definition matches (key : K) (hash : Z) (e : table_entry) : option bool :=
  if bool_decide (e_hash e = hash)
  then op_compare ops key <$> e_key e
  else Some false.

(** The probe loop of [lookup]: the index of the entry and [found]. *)
Fixpoint lookup_loop (fuel : nat) (sl : list table_entry) (mask : Z) (key : K) (hash : Z)
    (perturb ix : Z) (deleted_entry : option nat) : option (nat * bool) :=
  match fuel with
  | O => None
  | S fuel' =>
      let i := Z.to_nat (Z.land ix mask) in
      entry ← sl !! i;
      m ← matches key hash entry;
      if m : bool then Some (i, true)
      else if bool_decide (e_hash entry = EMPTY_HASH) then
        Some (default i deleted_entry, false)
      else
        let deleted_entry' :=
          if bool_decide (e_hash entry = DELETED_HASH) && bool_decide (deleted_entry = None)
          then Some i else deleted_entry in
        let perturb' := Z.shiftr perturb 5 in
        lookup_loop fuel' sl mask key hash perturb' (ulong (1 + 5 * ix + perturb')) deleted_entry'
  end.

(** The fuel is the number of probes that visit every slot (Probe). *)
Definition lookup (sl : list table_entry) (mask : Z) (key : K) (hash : Z) : option (nat * bool) :=
  lookup_loop (PERTURB_STEPS + length sl) sl mask key hash hash hash None.

Definition hash_table_lookup (t : hash_table) (key : K) : option (option V) :=
  '(i, _) ← lookup (slots t) (size_mask t) key (compute_hash key);
  e_value <$> slots t !! i.

Definition hash_table_lookup_bool (t : hash_table) (key : K) : option (bool * option V) :=
  '(i, found) ← lookup (slots t) (size_mask t) key (compute_hash key);
  entry ← slots t !! i;
  Some (found, e_value entry).

(** [while (new_size < min_size) new_size <<= 1] *)
Fixpoint grow (fuel : nat) (new_size min_size : Z) : option Z :=
  if bool_decide (new_size < min_size) then
    match fuel with O => None | S fuel' => grow fuel' (ulong (Z.shiftl new_size 1)) min_size end
  else Some new_size.

(** The copying loop of [resize_table]. *)
Fixpoint rehash (old : list table_entry) (mask : Z) (new : list table_entry)
    : option (list table_entry) :=
  match old with
  | [] => Some new
  | entry :: rest =>
      if empty_entry entry then rehash rest mask new
      else
        key ← e_key entry;
        '(i, _) ← lookup new mask key (e_hash entry);
        rehash rest mask (<[i := entry]> new)
  end.

(** [resize_table]. *)
Definition resize_table (t : hash_table) (min_size : Z) : option hash_table :=
  let live := ulong (entries t - deleted t) in
  let min_size := if bool_decide (min_size < ulong (2 * live)) then ulong (2 * live) else min_size in
  new_size ← grow (Z.to_nat long_bits) INITIAL_SIZE min_size;
  new ← rehash (slots t) (new_size - 1) (replicate (Z.to_nat new_size) zero_entry);
  Some (mk_table live 0 (new_size - 1) new).

(** [hash_table_insert]: the previous value, the table and the keys copied. *)
Definition hash_table_insert (t : hash_table) (key : K) (value : option V)
    : option (option V * hash_table * list K) :=
  let hash := compute_hash key in
  '(i, found) ← lookup (slots t) (size_mask t) key hash;
  entry ← slots t !! i;
  let '(entries', deleted') :=
    if bool_decide (e_hash entry = EMPTY_HASH) then (ulong (entries t + 1), deleted t)
    else if bool_decide (e_hash entry = DELETED_HASH) then (entries t, ulong (deleted t - 1))
    else (entries t, deleted t) in
  let '(entry', copied) :=
    if negb found then
      (mk_entry hash (Some key) value, if op_copy_key ops then [key] else [])
    else if negb (op_copy_key ops) then (mk_entry (e_hash entry) (Some key) value, [])
    else (mk_entry (e_hash entry) (e_key entry) value, []) in
  let t' := mk_table entries' deleted' (size_mask t) (<[i := entry']> (slots t)) in
  t'' ← (if bool_decide (ulong (2 * size_mask t) ≤ ulong (3 * entries'))
         then resize_table t' 0 else Some t');
  Some (e_value entry, t'', copied).

(** [hash_table_delete]: the previous value, the table and the keys released. *)
Definition hash_table_delete (t : hash_table) (key : K)
    : option (option V * hash_table * list K) :=
  '(i, found) ← lookup (slots t) (size_mask t) key (compute_hash key);
  entry ← slots t !! i;
  if found : bool then
    let released := if op_release_key ops then option_list (e_key entry) else [] in
    Some (e_value entry,
          mk_table (entries t) (ulong (deleted t + 1)) (size_mask t)
            (<[i := mk_entry DELETED_HASH None None]> (slots t)),
          released)
  else Some (e_value entry, t, []).

Definition hash_table_count (t : hash_table) : Z := ulong (entries t - deleted t).

Definition hash_table_resize (t : hash_table) (min_size : Z) : option hash_table :=
  resize_table t min_size.

(** [hash_table_walk] from index [ix]: the loop over the slots from there, then
    the entry found and the new index. *)
Fixpoint walk_loop (sl : list table_entry) (ix : nat) : option (nat * option K * option V) :=
  match sl with
  | [] => None
  | entry :: rest =>
      if empty_entry entry then walk_loop rest (S ix)
      else Some (S ix, e_key entry, e_value entry)
  end.
Definition hash_table_walk (t : hash_table) (ix : nat) : option (nat * option K * option V) :=
  walk_loop (drop ix (slots t)) ix.

(** A whole walk, as the callers do it: from index 0 until it returns false. *)
Fixpoint walk_all (fuel : nat) (t : hash_table) (ix : nat) : list (option K * option V) :=
  match fuel with
  | O => []
  | S fuel' =>
      match hash_table_walk t ix with
      | None => []
      | Some (ix', key, value) => (key, value) :: walk_all fuel' t ix'
      end
  end.

(** [hash_table_destroy]: the keys released. *)
Definition hash_table_destroy (t : hash_table) : list K :=
  if op_release_key ops
  then omap e_key (filter (λ e, empty_entry e = false) (slots t))
  else [].

End table.

End HashTable.
