(* ===== verification/HashTableSpec.v ===== *)
(** * The hash table is a finite map

    The invariant of the table of HashTable, that every operation keeps it, and
    that the operations are those of the finite map [to_map] of its contents. *)

From S2P Require Import Prelude Probe HashTable.
From stdpp Require Import base numbers list list_numbers gmap option strings.
Open Scope Z_scope.

Module HashTableSpec.
Import Probe HashTable.

(** ** Hash functions keep to the width of [hash_t] *)

Section hashing.
Context `{Platform}.

Lemma ulong_range x : 0 ≤ ulong x < 2 ^ long_bits.
Proof. apply wrap_range. pose proof long_bits_bound. lia. Qed.

Lemma ulong_small x : 0 ≤ x < 2 ^ long_bits → ulong x = x.
Proof. apply wrap_small. Qed.

Lemma lxor_range w x y : 0 ≤ w → 0 ≤ x < 2 ^ w → 0 ≤ y < 2 ^ w → 0 ≤ Z.lxor x y < 2 ^ w.
Proof.
  intros Hw Hx Hy. rewrite <-(wrap_small w x), <-(wrap_small w y) by done.
  unfold wrap. rewrite <-!Z.land_ones by done.
  assert (Z.lxor (Z.land x (Z.ones w)) (Z.land y (Z.ones w)) =
          Z.land (Z.lxor x y) (Z.ones w)) as ->.
  { apply Z.bits_inj'. intros n Hn. rewrite !Z.lxor_spec, !Z.land_spec, Z.lxor_spec.
    by destruct (Z.testbit x n), (Z.testbit y n), (Z.testbit (Z.ones w) n). }
  rewrite Z.land_ones by done. by apply wrap_range.
Qed.

Lemma hash_memory_area_range area : 0 ≤ hash_memory_area area < 2 ^ long_bits.
Proof.
  pose proof long_bits_bound. unfold hash_memory_area.
  destruct area as [|c s]; [lia|].
  apply lxor_range; [lia| |apply ulong_range].
  assert (∀ h, 0 ≤ h < 2 ^ long_bits →
    0 ≤ foldl (λ hash c, Z.lxor (ulong (1000003 * hash)) (hash_of_char c)) h s < 2 ^ long_bits) as G.
  { induction s as [|x s IH]; intros h Hh; simpl; [done|].
    apply IH, lxor_range; [lia|apply ulong_range..]. }
  apply G, ulong_range.
Qed.

Lemma strcmp_eq s1 s2 : strcmp s1 s2 = Eq ↔ s1 = s2.
Proof.
  revert s2. induction s1 as [|c1 s1 IH]; intros [|c2 s2]; simpl; try done.
  destruct (Z.compare_spec c1 c2) as [->|?|?]; [|split; [done|naive_solver lia]..].
  rewrite IH. naive_solver.
Qed.

Lemma compare_string_eq s1 s2 : compare_string s1 s2 = bool_decide (s1 = s2).
Proof.
  unfold compare_string. case_bool_decide as E.
  - apply strcmp_eq in E. by rewrite E.
  - destruct (strcmp s1 s2) eqn:E'; [|done..]. by apply strcmp_eq in E'.
Qed.

#[export] Instance copy_string_ops_ok : HashOps copy_string_ops.
Proof. split; [apply hash_memory_area_range|apply compare_string_eq|done]. Qed.
#[export] Instance keep_string_ops_ok : HashOps keep_string_ops.
Proof. split; [apply hash_memory_area_range|apply compare_string_eq|done]. Qed.
#[export] Instance ptr_ops_ok : HashOps ptr_ops.
Proof. split; [intros k; apply hash_memory_area_range|done..]. Qed.

End hashing.

(** ** The invariant *)

Section spec.
Context `{Platform} {K V : Type} `{Countable K} (ops : hash_table_ops K) `{!HashOps ops}.
Abbreviation entry := (table_entry (K := K) (V := V)).
Abbreviation table := (hash_table (K := K) (V := V)).
Implicit Types (e : entry) (sl : list entry) (t : table) (key : K).

Inductive entry_ok : entry → Prop :=
  | ok_empty : entry_ok (mk_entry EMPTY_HASH None None)
  | ok_deleted : entry_ok (mk_entry DELETED_HASH None None)
  | ok_live key v : entry_ok (mk_entry (compute_hash ops key) (Some key) v).

(** The key and value an entry holds. *)
Definition kv e : option (K * option V) := (λ key, (key, e_value e)) <$> e_key e.
Definition contents sl : list (K * option V) := omap kv sl.

(** The map a table stands for. *)
Definition to_map t : gmap K (option V) := list_to_map (contents (slots t)).

(** Slot [i] is found by probing for [hash]: no empty slot comes before it. *)
Definition reaches (k : Z) sl (hash : Z) (i : nat) : Prop :=
  ∃ n, slot k hash n = i ∧
    ∀ m, (m < n)%nat → ∃ e, sl !! slot k hash m = Some e ∧ e_hash e ≠ EMPTY_HASH.

Record slots_wf (k : Z) sl : Prop := {
  wf_k : 3 ≤ k ≤ long_bits - 3;
  wf_length : Z.of_nat (length sl) = 2 ^ k;
  wf_entries : Forall entry_ok sl;
  wf_unique : NoDup (contents sl).*1;
  wf_reach i e key : sl !! i = Some e → e_key e = Some key → reaches k sl (e_hash e) i;
}.

(** A sum over the slots. *)
Definition total (f : entry → Z) sl : Z := zsum (f <$> sl).
Definition used e : Z := if bool_decide (e_hash e = EMPTY_HASH) then 0 else 1.
Definition tomb e : Z := if bool_decide (e_hash e = DELETED_HASH) then 1 else 0.

(** The table as between two calls: less than two thirds full. *)
Definition wf_at (k : Z) t : Prop :=
  slots_wf k (slots t) ∧ size_mask t = 2 ^ k - 1 ∧
  entries t = total used (slots t) ∧ deleted t = total tomb (slots t) ∧
  3 * entries t < 2 * size_mask t.
Definition table_wf t : Prop := ∃ k, wf_at k t.

(** ** Hashes *)

Lemma special_hashes : EMPTY_HASH ≠ DELETED_HASH ∧ ulong (-2) ≠ EMPTY_HASH ∧ ulong (-2) ≠ DELETED_HASH.
Proof.
  unfold EMPTY_HASH, DELETED_HASH, ulong, wrap.
  destruct long_bits_ok as [-> | ->]; by vm_compute.
Qed.

Lemma compute_hash_ok key :
  0 ≤ compute_hash ops key < 2 ^ long_bits ∧
  compute_hash ops key ≠ EMPTY_HASH ∧ compute_hash ops key ≠ DELETED_HASH.
Proof.
  unfold compute_hash. destruct special_hashes as (?&?&?).
  repeat case_bool_decide; simpl; (split; [|done]); try apply ulong_range; apply ops_hash_range.
Qed.

Lemma entry_ok_empty e : entry_ok e → e_hash e = EMPTY_HASH → e = mk_entry EMPTY_HASH None None.
Proof.
  destruct special_hashes as (?&?&?). destruct 1; simpl; intros E; try done.
  by destruct (compute_hash_ok key) as (?&?&?).
Qed.

Lemma entry_ok_key e key :
  entry_ok e → e_key e = Some key →
  e_hash e = compute_hash ops key ∧ used e = 1 ∧ tomb e = 0 ∧ empty_entry e = false.
Proof.
  destruct 1 as [| |key' v]; intros E; simplify_eq/=.
  destruct (compute_hash_ok key) as (?&?&?). unfold used, tomb, empty_entry. simpl.
  by rewrite !bool_decide_false by done.
Qed.

Lemma entry_ok_no_key e :
  entry_ok e → e_key e = None → e_value e = None ∧ used e = tomb e ∧ empty_entry e = true.
Proof.
  destruct special_hashes as (?&?&?).
  destruct 1 as [| |key' v]; intros E; simplify_eq/=; unfold used, tomb, empty_entry; simpl;
    repeat case_bool_decide; naive_solver.
Qed.

(** ** Contents and sums under an update *)

Lemma contents_app sl1 sl2 : contents (sl1 ++ sl2) = contents sl1 ++ contents sl2.
Proof. apply omap_app. Qed.

Lemma contents_cons e sl : contents (e :: sl) = option_list (kv e) ++ contents sl.
Proof. unfold contents. simpl. by destruct (kv e). Qed.

(** One slot against all the others. *)
Lemma contents_split sl i e :
  sl !! i = Some e →
  ∃ rest, contents sl ≡ₚ option_list (kv e) ++ rest ∧
    ∀ e', contents (<[i := e']> sl) ≡ₚ option_list (kv e') ++ rest.
Proof.
  intros Hi. exists (contents (take i sl) ++ contents (drop (S i) sl)).
  assert (∀ e', contents (take i sl ++ e' :: drop (S i) sl) ≡ₚ
    option_list (kv e') ++ contents (take i sl) ++ contents (drop (S i) sl)) as G.
  { intros e'. rewrite contents_app, contents_cons, !app_assoc.
    apply Permutation_app_tail, Permutation_app_comm. }
  split.
  - rewrite <-(take_drop_middle _ _ _ Hi) at 1. apply G.
  - intros e'. rewrite insert_take_drop by (by eapply lookup_lt_Some). apply G.
Qed.

Lemma total_insert f sl i e e' :
  sl !! i = Some e → total f (<[i := e']> sl) = total f sl - f e + f e'.
Proof.
  intros Hi. rewrite insert_take_drop by (by eapply lookup_lt_Some).
  rewrite <-(take_drop_middle _ _ _ Hi) at 3.
  unfold total. rewrite !fmap_app, !fmap_cons, !zsum_app. unfold zsum. simpl. lia.
Qed.

Lemma total_cons f e sl : total f (e :: sl) = f e + total f sl.
Proof. done. Qed.

Lemma used_01 e : 0 ≤ used e ≤ 1.
Proof. unfold used. case_bool_decide; lia. Qed.
Lemma tomb_01 e : 0 ≤ tomb e ≤ used e.
Proof.
  destruct special_hashes as (?&?&?). unfold used, tomb.
  repeat case_bool_decide; lia || congruence.
Qed.

(** The entries that hold nothing. *)
Lemma used_tomb_special :
  used (mk_entry EMPTY_HASH None None) = 0 ∧ tomb (mk_entry EMPTY_HASH None None) = 0 ∧
  used (mk_entry DELETED_HASH None None) = 1 ∧ tomb (mk_entry DELETED_HASH None None) = 1.
Proof.
  destruct special_hashes as (?&_&_). unfold used, tomb. simpl.
  repeat case_bool_decide; naive_solver.
Qed.

Lemma total_used_range sl : 0 ≤ total tomb sl ≤ total used sl ∧ total used sl ≤ Z.of_nat (length sl).
Proof.
  induction sl as [|e sl IH]; [done|]. rewrite !total_cons, length_cons.
  pose proof (used_01 e). pose proof (tomb_01 e). lia.
Qed.

(** The live entries are the used ones less the tombstones. *)
Lemma contents_length sl :
  Forall entry_ok sl → Z.of_nat (length (contents sl)) = total used sl - total tomb sl.
Proof.
  induction 1 as [|e sl He _ IH]; [done|].
  rewrite contents_cons, length_app, !total_cons. unfold kv.
  destruct (e_key e) as [key|] eqn:E; simpl.
  - destruct (entry_ok_key e key He E) as (_&->&->&_). lia.
  - destruct (entry_ok_no_key e He E) as (_&->&_). lia.
Qed.

(** A table that is not full has an empty slot. *)
Lemma empty_slot_exists sl :
  total used sl < Z.of_nat (length sl) → ∃ i e, sl !! i = Some e ∧ e_hash e = EMPTY_HASH.
Proof.
  induction sl as [|e sl IH]; intros Hlt; [done|].
  rewrite total_cons, length_cons in Hlt. destruct (decide (e_hash e = EMPTY_HASH)) as [E|E].
  - by exists 0%nat, e.
  - destruct IH as (i&e'&?&?); [|by exists (S i), e'].
    assert (used e = 1) by (unfold used; by rewrite bool_decide_false). lia.
Qed.

Lemma kv_elem sl i e key :
  sl !! i = Some e → e_key e = Some key → (key, e_value e) ∈ contents sl.
Proof.
  intros Hi He. apply list_elem_of_omap. exists e. split; [by eapply list_elem_of_lookup_2|].
  unfold kv. by rewrite He.
Qed.

Lemma kv_elem_inv sl key v :
  (key, v) ∈ contents sl → ∃ i e, sl !! i = Some e ∧ e_key e = Some key ∧ e_value e = v.
Proof.
  intros (e & He & Hkv)%list_elem_of_omap. apply list_elem_of_lookup_1 in He as [i Hi].
  exists i, e. unfold kv in Hkv. by destruct (e_key e); simplify_eq/=.
Qed.

Lemma to_map_lookup sl key v :
  NoDup (contents sl).*1 →
  (list_to_map (contents sl) : gmap K (option V)) !! key = Some v ↔ (key, v) ∈ contents sl.
Proof. intros Hnd. symmetry. by apply elem_of_list_to_map. Qed.

(** ** Probing *)

Section probing.
Context (k : Z) (sl : list entry) (wf : slots_wf k sl).
Context (key : K) (hash : Z) (Hhash : hash = compute_hash ops key).

(** The entry probed at step [n]. *)
Lemma slot_in_table n : ∃ e, sl !! slot k hash n = Some e ∧ entry_ok e.
Proof.
  destruct wf as [Hk Hlen Hall _ _].
  destruct (lookup_lt_is_Some_2 sl (slot k hash n)) as [e He].
  { pose proof (slot_lt k hash n ltac:(lia)). lia. }
  exists e. split; [done|]. by eapply Forall_lookup_1.
Qed.

Lemma matches_ok e :
  entry_ok e → matches ops key hash e = Some (bool_decide (e_key e = Some key)).
Proof.
  destruct special_hashes as (?&?&?). destruct (compute_hash_ok key) as (?&?&?).
  destruct 1 as [| |key' v]; unfold matches; subst hash; simpl.
  - rewrite (bool_decide_false (EMPTY_HASH = _)) by done. done.
  - rewrite (bool_decide_false (DELETED_HASH = _)) by done. done.
  - case_bool_decide as E; simpl.
    + rewrite ops_compare_eq. f_equal. apply bool_decide_ext. naive_solver.
    + rewrite bool_decide_false; [done|]. intros [=]. subst. done.
Qed.

(** What [lookup] returns. *)
Definition lookup_result (i : nat) (found : bool) : Prop :=
  ∃ e, sl !! i = Some e ∧ reaches k sl hash i ∧
    if found then e_key e = Some key
    else e_key e = None ∧ key ∉ (contents sl).*1.

(** Nothing up to step [n] ends the probe. *)
Definition passed (n : nat) : Prop :=
  ∀ m, (m < n)%nat → ∃ e, sl !! slot k hash m = Some e ∧
    e_hash e ≠ EMPTY_HASH ∧ e_key e ≠ Some key.

Lemma passed_reaches n m : passed n → (m ≤ n)%nat → reaches k sl hash (slot k hash m).
Proof.
  intros Hp Hm. exists m. split; [done|]. intros j Hj.
  destruct (Hp j) as (e&?&?&?); [lia|]. by exists e.
Qed.

(** An empty slot on the way shows that the key is absent. *)
Lemma passed_absent n e :
  passed n → sl !! slot k hash n = Some e → e_hash e = EMPTY_HASH → key ∉ (contents sl).*1.
Proof.
  intros Hp He Hempty ([key' v]&->&Hin)%list_elem_of_fmap.
  apply kv_elem_inv in Hin as (i&e'&Hi&Hk'&_). simpl in *.
  destruct (wf_reach k sl wf i e' key' Hi Hk') as (n'&Hn'&Hpath).
  assert (e_hash e' = hash) as Eh.
  { rewrite Hhash. eapply entry_ok_key; [|done]. eapply Forall_lookup_1; [apply wf|done]. }
  rewrite Eh in Hn', Hpath. destruct (decide (n < n')%nat) as [Hlt|Hge].
  - destruct (Hpath n Hlt) as (e''&?&?). by simplify_eq.
  - destruct (decide (n' = n)) as [->|].
    + rewrite Hn', Hi in He. simplify_eq. apply entry_ok_empty in Hempty; [by subst|].
      eapply Forall_lookup_1; [apply wf|done].
    + destruct (Hp n') as (e''&He''&_&?); [lia|]. rewrite Hn', Hi in He''. by simplify_eq.
Qed.

Lemma mask_slot n : Z.to_nat (Z.land (ix hash n) (2 ^ k - 1)) = slot k hash n.
Proof. unfold slot. rewrite land_ones_wrap; [done|]. destruct wf. lia. Qed.

Lemma lookup_loop_spec fuel n n0 de :
  passed n →
  (∃ e, sl !! slot k hash n0 = Some e ∧ e_hash e = EMPTY_HASH) → (n0 < fuel + n)%nat →
  (∀ i, de = Some i → ∃ e, sl !! i = Some e ∧ reaches k sl hash i ∧ e_key e = None) →
  ∃ i found, lookup_loop ops fuel sl (2 ^ k - 1) key hash (perturb hash n) (ix hash n) de
               = Some (i, found) ∧ lookup_result i found.
Proof.
  revert n de. induction fuel as [|fuel IH]; intros n de Hp Hend Hfuel Hde.
  { exfalso. destruct Hend as (e&He&?). destruct (Hp n0) as (e'&?&?&?); [lia|]. by simplify_eq. }
  cbn [lookup_loop]. rewrite mask_slot. destruct (slot_in_table n) as (e & He & Hok).
  rewrite He. simpl. rewrite matches_ok by done. simpl.
  case_bool_decide as Hm.
  { exists (slot k hash n), true. split; [done|]. exists e. split; [done|].
    split; [by apply (passed_reaches n)|done]. }
  case_bool_decide as Hempty.
  { assert (key ∉ (contents sl).*1) as Habs by (by eapply passed_absent).
    destruct de as [i|]; simpl.
    - destruct (Hde i eq_refl) as (e'&?&?&?). exists i, false. split; [done|]. by exists e'.
    - exists (slot k hash n), false. split; [done|]. exists e. split; [done|].
      split; [by apply (passed_reaches n)|]. split; [|done].
      by rewrite (entry_ok_empty e Hok Hempty). }
  assert (passed (S n)) as Hp'.
  { intros m Hlt. destruct (decide (m = n)) as [->|]; [by exists e|]. apply Hp. lia. }
  change (ulong (1 + 5 * ix hash n + Z.shiftr (perturb hash n) 5)) with (ix hash (S n)).
  change (Z.shiftr (perturb hash n) 5) with (perturb hash (S n)).
  apply IH; [done|done|lia|]. intros i Hi.
  destruct (bool_decide (e_hash e = DELETED_HASH)) eqn:Hdel; simpl in Hi; [|by apply Hde].
  case_bool_decide; [|by apply Hde]. simplify_eq. exists e. split; [done|].
  split; [by apply (passed_reaches (S n)); [|lia]|].
  apply bool_decide_eq_true in Hdel. destruct (e_key e) as [key'|] eqn:E; [|done].
  destruct (entry_ok_key e key' Hok E) as (Eh&_). destruct (compute_hash_ok key') as (_&_&?).
  congruence.
Qed.

(** [lookup] returns when the table is not full. *)
Lemma lookup_spec :
  total used sl < Z.of_nat (length sl) →
  ∃ i found, lookup ops sl (2 ^ k - 1) key hash = Some (i, found) ∧ lookup_result i found.
Proof.
  intros Hroom. destruct (empty_slot_exists sl Hroom) as (s & e & Hs & He).
  destruct (compute_hash_ok key) as (Hr&_&_).
  destruct wf as [Hk Hlen _ _ _].
  destruct (probe_covers k hash s) as (n0 & Hn0 & Hslot); [by rewrite Hhash|lia| |].
  { apply lookup_lt_Some in Hs. lia. }
  unfold lookup. apply (lookup_loop_spec _ 0 n0).
  - intros m Hm. lia.
  - exists e. by rewrite Hslot.
  - lia.
  - done.
Qed.

End probing.

(** ** Updating a slot *)

Definition live (key : K) (v : option V) : entry := mk_entry (compute_hash ops key) (Some key) v.

Lemma reaches_update k sl hash i j e' :
  e_hash e' ≠ EMPTY_HASH → reaches k sl hash i → reaches k (<[j := e']> sl) hash i.
Proof.
  intros He' (n & Hn & Hpath). exists n. split; [done|]. intros m Hm.
  destruct (Hpath m Hm) as (e & He & Hne). destruct (decide (j = slot k hash m)) as [->|].
  - exists e'. split; [|done]. apply list_lookup_insert_eq. by eapply lookup_lt_Some.
  - exists e. by rewrite list_lookup_insert_ne.
Qed.

(** A slot may be overwritten by anything but an empty entry. *)
Lemma update_wf k sl i e e' :
  slots_wf k sl → sl !! i = Some e → entry_ok e' → e_hash e' ≠ EMPTY_HASH →
  NoDup (contents (<[i := e']> sl)).*1 →
  (∀ key, e_key e' = Some key → reaches k sl (e_hash e') i) →
  slots_wf k (<[i := e']> sl).
Proof.
  intros [Hk Hlen Hall Hnd Hreach] Hi Hok Hne Hnd' Hr. split; [done|by rewrite length_insert| |done|].
  - by apply Forall_insert.
  - intros j ej key Hj Hkey. apply reaches_update; [done|].
    destruct (decide (i = j)) as [<-|].
    + rewrite list_lookup_insert_eq in Hj by (by eapply lookup_lt_Some).
      simplify_eq. by eapply Hr.
    + rewrite list_lookup_insert_ne in Hj by done. by eapply Hreach.
Qed.

Lemma lookup_found sl i e key :
  NoDup (contents sl).*1 → sl !! i = Some e → e_key e = Some key →
  (list_to_map (contents sl) : gmap K (option V)) !! key = Some (e_value e).
Proof. intros. apply to_map_lookup; [done|]. by eapply kv_elem. Qed.

(** Storing an entry for [key] where [lookup] put it. *)
Lemma store_spec k sl key i found v :
  slots_wf k sl → lookup_result k sl key (compute_hash ops key) i found →
  let sl' := <[i := live key v]> sl in
  ∃ e, sl !! i = Some e ∧ slots_wf k sl' ∧
    list_to_map (contents sl') = (<[key := v]> (list_to_map (contents sl)) : gmap K (option V)) ∧
    total used sl' = total used sl - used e + 1 ∧ total tomb sl' = total tomb sl - tomb e ∧
    if found then e_hash e = compute_hash ops key ∧ e_key e = Some key ∧
                  (contents sl').*1 ≡ₚ (contents sl).*1
    else e_key e = None ∧ key ∉ (contents sl).*1 ∧ contents sl' ≡ₚ (key, v) :: contents sl.
Proof.
  intros Hwf (e & Hi & Hreach & Hfound) sl'. pose proof Hwf as [_ _ Hall Hnd _].
  assert (entry_ok e) as Hok by (by eapply Forall_lookup_1).
  destruct (entry_ok_key (live key v) key (ok_live key v) eq_refl) as (_&Hu&Ht&_).
  destruct (compute_hash_ok key) as (_&Hne&_).
  destruct (contents_split sl i e Hi) as (rest & Hrest & Hupd).
  specialize (Hupd (live key v)). fold sl' in Hupd. simpl in Hupd.
  assert (NoDup (key :: rest.*1) ∧
    list_to_map ((key, v) :: rest) = (<[key := v]> (list_to_map (contents sl)) : gmap K (option V)))
    as [Hnd' Hmap].
  { destruct found; unfold kv in Hrest; [rewrite Hfound in Hrest|destruct Hfound as [Ek Hfound];
      rewrite Ek in Hrest]; simpl in Hrest; rewrite Hrest in Hnd; (split; [|]).
    - done.
    - rewrite (list_to_map_proper (contents sl) ((key, e_value e) :: rest));
        [|by rewrite Hrest|done].
      simpl. by rewrite insert_insert_eq.
    - constructor; [|done]. by rewrite <-Hrest.
    - simpl. f_equal. apply list_to_map_proper; [done|]. by symmetry. }
  exists e. split; [done|]. split_and!.
  - apply (update_wf k sl i e); [done|done|apply ok_live|done| |by intros].
    fold sl'. by rewrite Hupd.
  - rewrite <-Hmap. apply list_to_map_proper; [by rewrite Hupd|done].
  - unfold sl'. by rewrite (total_insert _ _ _ _ _ Hi), Hu.
  - unfold sl'. rewrite (total_insert _ _ _ _ _ Hi), Ht. lia.
  - destruct found.
    + split; [by apply (entry_ok_key e key)|]. split; [done|]. rewrite Hupd, Hrest.
      unfold kv. by rewrite Hfound.
    + destruct Hfound as [Ek ?]. split_and!; [done..|]. rewrite Hupd, Hrest. unfold kv. by rewrite Ek.
Qed.

(** ** Growing *)

Lemma long_half j : 0 ≤ j → 2 ^ (j + 1) = 2 * 2 ^ j.
Proof. intros. rewrite Z.pow_add_r by lia. lia. Qed.

(** The size found is the least power of two that is big enough. *)
Lemma grow_spec fuel j m :
  3 ≤ j ≤ long_bits - 3 → m ≤ 2 ^ (long_bits - 3) → long_bits - 3 - j ≤ Z.of_nat fuel →
  ∃ k, j ≤ k ≤ long_bits - 3 ∧ grow fuel (2 ^ j) m = Some (2 ^ k) ∧ m ≤ 2 ^ k ∧
    (k = j ∨ 2 ^ k < 2 * m).
Proof.
  revert j. induction fuel as [|fuel IH]; intros j Hj Hm Hfuel; simpl; case_bool_decide as Hlt.
  - replace j with (long_bits - 3) in Hlt by lia. lia.
  - exists j. split_and!; auto; lia.
  - assert (2 ^ j < 2 ^ (long_bits - 3)) as Hjw by lia.
    apply Z.pow_lt_mono_r_iff in Hjw; [|lia..].
    rewrite Z.shiftl_mul_pow2 by lia. replace (2 ^ j * 2 ^ 1) with (2 ^ (j + 1)) by (rewrite long_half; lia).
    rewrite ulong_small by (split; [lia|]; apply Z.pow_lt_mono_r; lia).
    destruct (IH (j + 1)) as (k & Hk & -> & Hmk & Hmin); [lia..|].
    exists k. split_and!; [lia..|done|done|]. right. destruct Hmin as [->|]; [|done].
    rewrite long_half by lia. lia.
  - exists j. split_and!; auto; lia.
Qed.

Lemma fresh_slots_wf k :
  3 ≤ k ≤ long_bits - 3 →
  let sl := replicate (Z.to_nat (2 ^ k)) zero_entry in
  slots_wf k sl ∧ contents sl = [] ∧ total used sl = 0 ∧ total tomb sl = 0.
Proof.
  intros Hk sl. assert (∀ i e, sl !! i = Some e → e = mk_entry EMPTY_HASH None None) as Hz.
  { intros i e Hi. by apply lookup_replicate in Hi as [? _]. }
  destruct special_hashes as (?&?&?).
  assert (contents sl = [] ∧ total used sl = 0 ∧ total tomb sl = 0) as (Hc & Hu & Ht).
  { subst sl. induction (Z.to_nat (2 ^ k)) as [|n IH]; [done|].
    destruct IH as (E1&E2&E3); [intros i e Hi; by apply lookup_replicate in Hi as [? _]|].
    cbn [replicate]. rewrite contents_cons, !total_cons, E1, E2, E3. unfold used, tomb, zero_entry. simpl.
    by rewrite (bool_decide_false (EMPTY_HASH = DELETED_HASH)). }
  split; [|done]. split; [done| | | |].
  - subst sl. rewrite length_replicate. lia.
  - apply Forall_lookup_2. intros i e Hi. rewrite (Hz i e Hi). constructor.
  - rewrite Hc. constructor.
  - intros i e key Hi Hkey. by rewrite (Hz i e Hi) in Hkey.
Qed.

Lemma rehash_spec k old new :
  Forall entry_ok old → slots_wf k new → NoDup ((contents old).*1 ++ (contents new).*1) →
  total tomb new = 0 → Z.of_nat (length (contents old)) + total used new < 2 ^ k →
  ∃ new', rehash ops old (2 ^ k - 1) new = Some new' ∧ slots_wf k new' ∧
    contents new' ≡ₚ contents old ++ contents new ∧ total tomb new' = 0.
Proof.
  intros Hold. revert new. induction Hold as [|e old He Hold IH]; intros new Hwf Hnd Ht Hroom;
    cbn [rehash].
  { by exists new. }
  rewrite contents_cons in Hnd, Hroom |- *. unfold kv in *.
  destruct (e_key e) as [key|] eqn:Ek; simpl in *.
  - destruct (entry_ok_key e key He Ek) as (Eh & _ & _ & ->). simpl.
    assert (e = live key (e_value e)) as El by (by destruct e; simplify_eq/=).
    destruct (lookup_spec k new Hwf key (e_hash e) Eh) as (i & found & -> & Hres).
    { rewrite (wf_length k new Hwf). lia. }
    simpl. rewrite Eh in Hres. destruct (store_spec k new key i found (e_value e) Hwf Hres)
      as (e0 & Hi & Hwf' & _ & Hu' & Ht' & Hcase). rewrite <-El in *.
    apply list.NoDup_cons in Hnd as [Hnotin Hnd]. rewrite not_elem_of_app in Hnotin.
    assert (entry_ok e0) as Hok0 by (eapply Forall_lookup_1; [apply Hwf|done]).
    destruct found.
    { destruct Hcase as (_ & Hk0 & _). exfalso. apply Hnotin.
      apply list_elem_of_fmap. exists (key, e_value e0). split; [done|]. by eapply kv_elem. }
    destruct Hcase as (Hk0 & _ & Hperm). destruct (entry_ok_no_key e0 Hok0 Hk0) as (_ & Hut & _).
    pose proof (tomb_01 e0). pose proof (used_01 e0).
    assert (tomb e0 = 0) by (pose proof (total_used_range (<[i:=e]> new)); lia).
    destruct (IH (<[i := e]> new)) as (new' & -> & Hwf'' & Hperm' & Ht''); [done| |lia|lia|].
    { rewrite Hperm. simpl. rewrite <-Permutation_middle. constructor; [|done].
      rewrite elem_of_app. tauto. }
    exists new'. split_and!; [done..| |done].
    rewrite Hperm', Hperm. symmetry. apply Permutation_middle.
  - destruct (entry_ok_no_key e He Ek) as (_&_&->). by apply IH.
Qed.

(** ** The operations *)

(** The number of entries of a table that can exist in memory: more would not
    leave room in the address space for the entries themselves. *)
Definition MAX_COUNT : Z := 2 ^ (long_bits - 4).

Lemma to_map_size sl :
  NoDup (contents sl).*1 →
  size (list_to_map (contents sl) : gmap K (option V)) = length (contents sl).
Proof.
  intros Hnd. rewrite <-length_map_to_list. apply Permutation_length. by apply map_to_list_to_map.
Qed.

Lemma table_size_count t :
  table_wf t → Z.of_nat (size (to_map t)) = entries t - deleted t.
Proof.
  intros (k & Hwf & _ & -> & -> & _). unfold to_map.
  rewrite to_map_size by apply Hwf. apply contents_length, Hwf.
Qed.

Lemma size_range k : 3 ≤ k ≤ long_bits - 3 → 8 ≤ 2 ^ k ∧ 8 * 2 ^ k ≤ 2 ^ long_bits.
Proof.
  intros Hk. split; [apply (Z.pow_le_mono_r 2 3); lia|].
  replace (8 * 2 ^ k) with (2 ^ (k + 3)) by (rewrite Z.pow_add_r; lia).
  apply Z.pow_le_mono_r; lia.
Qed.

(** [resize_table] on a table that may be over-full. *)
Lemma resize_table_spec k t m :
  slots_wf k (slots t) → entries t = total used (slots t) → deleted t = total tomb (slots t) →
  entries t - deleted t ≤ MAX_COUNT → 0 ≤ m ≤ 2 * MAX_COUNT →
  ∃ t', resize_table ops t m = Some t' ∧ table_wf t' ∧ deleted t' = 0 ∧ m ≤ size_mask t' + 1 ∧
    contents (slots t') ≡ₚ contents (slots t).
Proof.
  intros Hwf He Hd Hcount Hm. unfold resize_table, MAX_COUNT in *.
  pose proof long_bits_bound. pose proof (wf_k _ _ Hwf) as Hk.
  assert (2 * 2 ^ (long_bits - 4) = 2 ^ (long_bits - 3)) as E4.
  { rewrite <-long_half by lia. f_equal. lia. }
  destruct (size_range (long_bits - 3)) as [_ E3]; [lia|].
  pose proof (contents_length (slots t) (wf_entries _ _ Hwf)) as Hlen. rewrite <-He, <-Hd in Hlen.
  set (n := entries t - deleted t) in *.
  rewrite (ulong_small n), (ulong_small (2 * n)) by lia.
  set (m' := if bool_decide (m < 2 * n) then 2 * n else m).
  assert (m ≤ m' ∧ 2 * n ≤ m' ∧ m' ≤ 2 ^ (long_bits - 3)) as (Hm1 & Hm2 & Hm3).
  { subst m'. case_bool_decide; lia. }
  change INITIAL_SIZE with (2 ^ 3).
  destruct (grow_spec (Z.to_nat long_bits) 3 m') as (k' & Hk' & -> & Hmk & _); [lia..|].
  cbn [mbind option_bind]. destruct (fresh_slots_wf k') as (Hf & Hfc & Hfu & Hft); [lia|].
  destruct (size_range k') as [E8 _]; [lia|].
  destruct (rehash_spec k' (slots t) _ (wf_entries _ _ Hwf) Hf) as (new & -> & Hnew & Hperm & Ht).
  { rewrite Hfc, app_nil_r. apply Hwf. }
  { done. }
  { rewrite Hfu. lia. }
  rewrite Hfc, app_nil_r in Hperm. eexists. split; [done|].
  assert (n = total used new) as Hn.
  { pose proof (contents_length new (wf_entries _ _ Hnew)) as Hl. rewrite Hperm in Hl. lia. }
  split_and!; simpl; [|done|lia|done].
  exists k'. split_and!; simpl; [done..|lia].
Qed.

Lemma wf_room k t : wf_at k t → total used (slots t) < Z.of_nat (length (slots t)).
Proof. intros (Hwf & Hm & <- & _ & Hlt). rewrite (wf_length _ _ Hwf). lia. Qed.

(** [lookup] on a well-formed table. *)
Lemma table_lookup k t key :
  wf_at k t → ∃ i found e,
    lookup ops (slots t) (size_mask t) key (compute_hash ops key) = Some (i, found) ∧
    slots t !! i = Some e ∧ lookup_result k (slots t) key (compute_hash ops key) i found ∧
    to_map t !! key = (if found then Some (e_value e) else None) ∧
    (found = false → e_value e = None).
Proof.
  intros Hat. pose proof (wf_room k t Hat) as Hroom. destruct Hat as (Hwf & Hm & He & Hd & Hlt).
  destruct (lookup_spec k (slots t) Hwf key _ eq_refl Hroom) as (i & found & Hl & Hres).
  pose proof Hres as (e & Hi & _ & Hf). exists i, found, e. rewrite Hm. split_and!; [done..| |].
  - unfold to_map. destruct found; [by apply (lookup_found _ i); [apply Hwf|..]|].
    by apply not_elem_of_list_to_map_1, Hf.
  - intros ->. eapply entry_ok_no_key; [eapply Forall_lookup_1; [apply Hwf|done]|apply Hf].
Qed.

Lemma table_lookup_bool t key :
  table_wf t → hash_table_lookup_bool ops t key =
    Some (bool_decide (is_Some (to_map t !! key)), default None (to_map t !! key)).
Proof.
  intros [k Hwf]. destruct (table_lookup k t key Hwf) as (i & found & e & Hl & Hi & _ & -> & Hv).
  unfold hash_table_lookup_bool. rewrite Hl. simpl. rewrite Hi. simpl.
  destruct found; simpl; [done|]. by rewrite Hv.
Qed.

(** [hash_table_lookup] returns the value stored for a key, [NULL] when there
    is none; [hash_table_lookup_bool] tells the two apart. *)
Theorem hash_table_lookup_refines t key :
  table_wf t →
  hash_table_lookup ops t key = Some (default None (to_map t !! key)) ∧
  hash_table_lookup_bool ops t key =
    Some (bool_decide (is_Some (to_map t !! key)), default None (to_map t !! key)).
Proof.
  intros Hwf. split; [|by apply table_lookup_bool].
  pose proof (table_lookup_bool t key Hwf) as Hb. revert Hb.
  unfold hash_table_lookup, hash_table_lookup_bool.
  destruct (lookup ops _ _ _ _) as [[i found]|]; [simpl|done].
  destruct (slots t !! i); simpl; [|done]. intros [= _ <-]. done.
Qed.

(** The copies of keys the table owns. *)
Definition owned t : list K := if op_copy_key ops then (contents (slots t)).*1 else [].

(** The table after the entry is written and before it is expanded. *)
Lemma insert_store k t key v :
  wf_at k t → ∃ sl copied,
    let t' := mk_table (total used sl) (total tomb sl) (size_mask t) sl in
    hash_table_insert ops t key v =
      (t'' ← (if bool_decide (2 * size_mask t ≤ 3 * entries t') then resize_table ops t' 0 else Some t');
       Some (default None (to_map t !! key), t'', copied)) ∧
    slots_wf k sl ∧ to_map t' = <[key := v]> (to_map t) ∧
    owned t' ≡ₚ copied ++ owned t.
Proof.
  intros Hat. destruct (table_lookup k t key Hat) as (i & found & e & Hl & Hi & Hres & Hmap & Hv).
  pose proof (wf_room k t Hat) as Hroom. destruct Hat as (Hwf & Hm & He & Hd & Hlt).
  destruct (store_spec k (slots t) key i found v Hwf Hres)
    as (e0 & Hi0 & Hswf & Hmap' & Hu & Ht & Hf). simplify_eq.
  exists (<[i := live key v]> (slots t)), (if found then [] else if op_copy_key ops then [key] else []).
  assert (entry_ok e) as Hok by (eapply Forall_lookup_1; [apply Hwf|done]).
  destruct (size_range k (wf_k _ _ Hwf)) as [E1 E2]. pose proof (wf_length _ _ Hwf) as Hlen.
  pose proof (total_used_range (slots t)) as Hr. pose proof (total_used_range (<[i := live key v]> (slots t))) as Hr'.
  rewrite length_insert in Hr'.
  intros t'. split_and!; [|done..|].
  - unfold hash_table_insert. rewrite Hl. simpl. rewrite Hi. simpl.
    assert (default None (to_map t !! key) = e_value e) as ->.
    { rewrite Hmap. destruct found; simpl; [done|]. by rewrite Hv. }
    destruct found; simpl.
    + destruct Hf as (Eh & Ek & _). destruct (compute_hash_ok key) as (_&?&?).
      destruct (entry_ok_key e key Hok Ek) as (_&Eu&Et&_). rewrite Eu in Hu. rewrite Et in Ht.
      rewrite Eh, !bool_decide_false, Ek by done.
      destruct (op_copy_key ops); simpl; rewrite !ulong_small by lia; subst t'; simpl;
        rewrite Hu, Ht, He, Hd, !Z.sub_0_r, Z.sub_add; done.
    + destruct Hf as (Ek & _ & _). destruct special_hashes as (?&_&_). subst t'.
      destruct used_tomb_special as (U0 & T0 & U1 & T1).
      destruct Hok as [| |]; simpl in Ek; [| |done]; cbn [e_hash entries].
      * rewrite U0 in Hu. rewrite T0 in Ht. rewrite (bool_decide_true (EMPTY_HASH = EMPTY_HASH)) by done.
        rewrite (ulong_small (entries t + 1)), !ulong_small by lia.
        by rewrite Hu, Ht, He, Hd, !Z.sub_0_r.
      * rewrite U1 in Hu. rewrite T1 in Ht. rewrite (bool_decide_false (DELETED_HASH = EMPTY_HASH)) by done.
        rewrite (bool_decide_true (DELETED_HASH = DELETED_HASH)) by done.
        rewrite (ulong_small (deleted t - 1)), !ulong_small by lia.
        by rewrite Hu, Ht, He, Hd, Z.sub_add.
  - unfold owned. destruct (op_copy_key ops); [|by destruct found]. subst t'. simpl.
    destruct found; [by apply Hf|]. destruct Hf as (_ & _ & ->). done.
Qed.

Lemma table_insert t key v :
  table_wf t → Z.of_nat (size (to_map t)) < MAX_COUNT →
  ∃ t' copied, hash_table_insert ops t key v = Some (default None (to_map t !! key), t', copied) ∧
    table_wf t' ∧ to_map t' = <[key := v]> (to_map t) ∧
    owned t' ≡ₚ copied ++ owned t.
Proof.
  intros Hwf Hsize. destruct Hwf as [k Hat].
  destruct (insert_store k t key v Hat) as (sl & copied & -> & Hwf & Hmap & Hown).
  destruct Hat as (_ & Hm & _).
  set (t' := mk_table (total used sl) (total tomb sl) (size_mask t) sl) in *.
  case_bool_decide as Hfull; cbn [entries] in Hfull.
  - assert (entries t' - deleted t' ≤ MAX_COUNT) as Hc.
    { cbn. rewrite <-contents_length, <-to_map_size by apply Hwf.
      change (list_to_map (contents sl)) with (to_map t'). rewrite Hmap.
      rewrite map_size_insert. destruct (to_map t !! key); simpl; lia. }
    destruct (resize_table_spec k t' 0 Hwf eq_refl eq_refl Hc) as (t'' & -> & Hwf'' & _ & _ & Hperm).
    { unfold MAX_COUNT. lia. }
    exists t'', copied. split_and!; [done|done| |].
    + rewrite <-Hmap. apply list_to_map_proper; [|done].
      rewrite Hperm. apply Hwf.
    + rewrite <-Hown. unfold owned. destruct (op_copy_key ops); [|done]. by rewrite Hperm.
  - exists t', copied. split_and!; [done| |done..]. exists k. split_and!; [done..|].
    subst t'. cbn in *. lia.
Qed.

(** C25: [hash_table_insert] maps the key to the value and leaves every other key
    alone, through any expansion of the table; it returns the value replaced,
    and the table owns one more copy of the key exactly when it made one. *)
Theorem hash_table_insert_refines t key v :
  table_wf t → Z.of_nat (size (to_map t)) < MAX_COUNT →
  ∃ t' copied, hash_table_insert ops t key v = Some (default None (to_map t !! key), t', copied) ∧
    table_wf t' ∧ to_map t' = <[key := v]> (to_map t) ∧
    owned t' ≡ₚ copied ++ owned t.
Proof. apply table_insert. Qed.

(** [hash_table_delete] removes the key, returns its value and releases
    exactly the copy the table owned; a key that is not there changes nothing. *)
Theorem hash_table_delete_refines t key :
  table_wf t →
  ∃ t' released, hash_table_delete ops t key = Some (default None (to_map t !! key), t', released) ∧
    table_wf t' ∧ to_map t' = delete key (to_map t) ∧
    released ++ owned t' ≡ₚ owned t.
Proof.
  intros [k Hat]. destruct (table_lookup k t key Hat) as (i & found & e & Hl & Hi & Hres & Hmap & Hv).
  unfold hash_table_delete. rewrite Hl. simpl. rewrite Hi. simpl.
  assert (default None (to_map t !! key) = e_value e) as ->.
  { rewrite Hmap. destruct found; simpl; [done|]. by rewrite Hv. }
  destruct found; cycle 1.
  { exists t, []. split_and!; [done|by exists k| |done]. by rewrite delete_id. }
  destruct Hat as (Hwf & Hm & He & Hd & Hlt). destruct Hres as (e0 & Hi0 & _ & Ek). simplify_eq.
  assert (entry_ok e) as Hok by (eapply Forall_lookup_1; [apply Hwf|done]).
  destruct (entry_ok_key e key Hok Ek) as (_&Eu&Et&_).
  destruct (contents_split (slots t) i e Hi) as (rest & Hrest & Hupd).
  specialize (Hupd (mk_entry DELETED_HASH None None)). unfold kv in Hrest. rewrite Ek in Hrest.
  simpl in Hrest, Hupd. pose proof (wf_unique _ _ Hwf) as Hnd. rewrite Hrest in Hnd.
  simpl in Hnd. apply list.NoDup_cons in Hnd as [Hnotin Hnd].
  pose proof (total_insert used _ _ _ (mk_entry DELETED_HASH None None) Hi) as Hu.
  pose proof (total_insert tomb _ _ _ (mk_entry DELETED_HASH None None) Hi) as Ht.
  destruct special_hashes as (?&_&_). destruct used_tomb_special as (_ & _ & Eu' & Et').
  rewrite Eu, Eu' in Hu. rewrite Et, Et' in Ht.
  destruct (size_range k (wf_k _ _ Hwf)) as [E1 E2].
  pose proof (total_used_range (slots t)) as Hr. pose proof (wf_length _ _ Hwf) as Hlen.
  eexists _, _. split; [done|]. split_and!.
  - exists k. split_and!; simpl; [|done|lia|rewrite ulong_small; lia|done].
    apply (update_wf k _ i e); [done..|constructor|done|by rewrite Hupd|done].
  - unfold to_map. simpl. rewrite (list_to_map_proper _ rest) by (by rewrite ?Hupd).
    rewrite (list_to_map_proper (contents (slots t)) ((key, e_value e) :: rest))
      by (done || apply Hwf).
    simpl. rewrite delete_insert_id; [done|]. by apply not_elem_of_list_to_map_1.
  - unfold owned. rewrite <-ops_lifetime, Ek. destruct (op_copy_key ops); [|done].
    simpl. by rewrite Hupd, Hrest.
Qed.

Lemma create_wf :
  table_wf hash_table_create_generic ∧ to_map hash_table_create_generic = ∅.
Proof.
  destruct (fresh_slots_wf 3) as (Hwf & Hc & Hu & Ht); [pose proof long_bits_bound; lia|].
  split; [|done]. exists 3. by split_and!.
Qed.

(** [hash_table_count] is the number of keys. *)
Theorem hash_table_count_size t :
  table_wf t → hash_table_count t = Z.of_nat (size (to_map t)).
Proof.
  intros Hwf. rewrite table_size_count by done. unfold hash_table_count.
  destruct Hwf as (k & Hwf & _ & He & Hd & _). apply ulong_small.
  destruct (size_range k (wf_k _ _ Hwf)). pose proof (wf_length _ _ Hwf).
  pose proof (total_used_range (slots t)). lia.
Qed.

(** [hash_table_resize] rebuilds the table without tombstones and with at
    least the room asked for, and keeps its contents. *)
Theorem hash_table_resize_refines t m :
  table_wf t → Z.of_nat (size (to_map t)) ≤ MAX_COUNT → 0 ≤ m ≤ 2 * MAX_COUNT →
  ∃ t', hash_table_resize ops t m = Some t' ∧ table_wf t' ∧ to_map t' = to_map t ∧
    deleted t' = 0 ∧ m ≤ size_mask t' + 1.
Proof.
  intros Hwf Hsize Hm. rewrite table_size_count in Hsize by done.
  destruct Hwf as (k & Hwf & _ & He & Hd & _).
  destruct (resize_table_spec k t m Hwf He Hd Hsize Hm) as (t' & ? & ? & ? & ? & Hperm).
  exists t'. split_and!; [done..| |done|done].
  apply list_to_map_proper; [|done]. rewrite Hperm. apply Hwf.
Qed.
(** ** Walking and destroying *)

(** The entries of a list of slots, as the walk reports them. *)
Definition reported sl : list (option K * option V) :=
  (λ p, (Some p.1, p.2)) <$> contents sl.

Lemma walk_step t ix :
  Forall entry_ok (slots t) →
  match hash_table_walk t ix with
  | None => reported (drop ix (slots t)) = []
  | Some (ix', key, v) =>
      (ix < ix' ≤ length (slots t))%nat ∧
      reported (drop ix (slots t)) = (key, v) :: reported (drop ix' (slots t))
  end.
Proof.
  intros Hall. unfold hash_table_walk.
  assert (∀ sl i, sl = drop i (slots t) → Forall entry_ok sl →
    match walk_loop sl i with
    | None => reported sl = []
    | Some (ix', key, v) => (i < ix' ≤ length (slots t))%nat ∧
        reported sl = (key, v) :: reported (drop ix' (slots t))
    end) as G; [|by apply G; [|by apply Forall_drop]].
  induction sl as [|e sl IH]; intros i Hsl Hok; [done|].
  apply list.Forall_cons in Hok as [He Hok].
  assert (slots t !! i = Some e) as Hi by (rewrite <-(Nat.add_0_r i), <-lookup_drop, <-Hsl; done).
  assert (sl = drop (S i) (slots t)) as Hsl'.
  { rewrite (drop_S _ e i) in Hsl by done. congruence. }
  unfold reported. rewrite contents_cons. unfold kv.
  destruct (e_key e) as [key|] eqn:Ek; simpl.
  - destruct (entry_ok_key e key He Ek) as (_&_&_&->).
    apply lookup_lt_Some in Hi. split; [lia|]. by rewrite <-Hsl', Ek.
  - destruct (entry_ok_no_key e He Ek) as (_&_&->).
    specialize (IH (S i) Hsl' Hok). destruct (walk_loop sl (S i)) as [[[ix' key] v]|]; [|done].
    split; [lia|apply IH].
Qed.

(** Walking a table from index 0 reports every key with its value exactly
    once, and ends. *)
Theorem walk_all_contents t :
  table_wf t →
  walk_all (S (length (slots t))) t 0 ≡ₚ (λ p, (Some p.1, p.2)) <$> map_to_list (to_map t).
Proof.
  intros (k & Hwf & _). pose proof (wf_entries _ _ Hwf) as Hall.
  assert (∀ fuel ix, (length (slots t) < fuel + ix)%nat →
    walk_all fuel t ix = reported (drop ix (slots t))) as G.
  { induction fuel as [|fuel IH]; intros ix Hfuel; simpl.
    - by rewrite drop_ge by lia.
    - pose proof (walk_step t ix Hall) as Hs.
      destruct (hash_table_walk t ix) as [[[ix' key] v]|]; [|done].
      destruct Hs as [Hix ->]. f_equal. apply IH. lia. }
  rewrite G by lia. rewrite drop_0. unfold reported. apply fmap_Permutation.
  symmetry. apply map_to_list_to_map, Hwf.
Qed.

(** [hash_table_destroy] releases exactly the copies of keys the table owns. *)
Theorem hash_table_destroy_releases t :
  table_wf t → hash_table_destroy ops t = owned t.
Proof.
  intros (k & Hwf & _). unfold hash_table_destroy, owned. rewrite <-ops_lifetime.
  destruct (op_copy_key ops); [|done].
  pose proof (wf_entries _ _ Hwf) as Hall. clear Hwf.
  induction Hall as [|e sl He _ IH]; [done|].
  rewrite contents_cons, fmap_app, <-IH, filter_cons. unfold kv.
  destruct (e_key e) as [key|] eqn:Ek.
  - destruct (entry_ok_key e key He Ek) as (_&_&_&->). rewrite decide_True by done. simpl. by rewrite Ek.
  - destruct (entry_ok_no_key e He Ek) as (_&_&->). by rewrite decide_False.
Qed.
End spec.

(** ** A table with two keys *)

Section example.
#[local] Existing Instance AARCH64.

Abbreviation string_table := (hash_table (K := cstring) (V := Z)).
Abbreviation put t key v :=
  (from_option (λ r, r.1.2) t (hash_table_insert copy_string_ops t (bytes_of key) (Some v))).
Definition example_table : string_table :=
  put (put hash_table_create_generic "TTLIN" 1) "TTLOUT" 2.

Lemma put_wf (t : string_table) key v :
  table_wf copy_string_ops t → Z.of_nat (size (to_map t)) < MAX_COUNT →
  table_wf copy_string_ops (put t key v) ∧
  to_map (put t key v) = <[bytes_of key := Some v]> (to_map t).
Proof.
  intros Hwf Hsize.
  destruct (table_insert copy_string_ops t (bytes_of key) (Some v) Hwf Hsize) as (t' & c & -> & ? & ? & _).
  done.
Qed.

Lemma example_table_wf : table_wf copy_string_ops example_table.
Proof.
  destruct (create_wf (V := Z) copy_string_ops) as [Hwf Hmap].
  destruct (put_wf _ "TTLIN" 1 Hwf) as [Hwf1 Hmap1]; [by rewrite Hmap|].
  apply put_wf; [done|]. rewrite Hmap1, Hmap. by vm_compute.
Qed.

Lemma example_table_size : size (to_map example_table) = 2%nat.
Proof. by vm_compute. Qed.

Lemma hash_table_lookup_refines_witness :
  hash_table_lookup copy_string_ops example_table (bytes_of "TTLIN") = Some (Some 1).
Proof.
  rewrite (proj1 (hash_table_lookup_refines copy_string_ops example_table _ example_table_wf)).
  by vm_compute.
Defined.

Lemma hash_table_insert_refines_witness :
  ∃ t' copied, hash_table_insert copy_string_ops example_table (bytes_of "TTLIN") (Some 7)
    = Some (Some 1, t', copied) ∧ table_wf copy_string_ops t'.
Proof.
  destruct (hash_table_insert_refines copy_string_ops example_table (bytes_of "TTLIN") (Some 7)
    example_table_wf) as (t' & c & E & Hwf & _); [by rewrite example_table_size|].
  exists t', c. split; [|exact Hwf]. rewrite E. by vm_compute.
Defined.

Lemma hash_table_delete_refines_witness :
  ∃ t' released, hash_table_delete copy_string_ops example_table (bytes_of "TTLOUT")
    = Some (Some 2, t', released) ∧ table_wf copy_string_ops t'.
Proof.
  destruct (hash_table_delete_refines copy_string_ops example_table (bytes_of "TTLOUT")
    example_table_wf) as (t' & c & E & Hwf & _).
  exists t', c. split; [|exact Hwf]. rewrite E. by vm_compute.
Defined.

Lemma hash_table_count_size_witness : hash_table_count example_table = 2.
Proof. rewrite (hash_table_count_size copy_string_ops example_table example_table_wf). by vm_compute. Defined.

Lemma hash_table_resize_refines_witness :
  ∃ t', hash_table_resize copy_string_ops example_table 32 = Some t' ∧ 32 ≤ size_mask t' + 1.
Proof.
  destruct (hash_table_resize_refines copy_string_ops example_table 32 example_table_wf)
    as (t' & E & _ & _ & _ & H); [by rewrite example_table_size|by vm_compute|].
  exists t'. exact (conj E H).
Defined.

Lemma walk_all_contents_witness :
  walk_all 9 example_table 0 ≡ₚ [(Some (bytes_of "TTLIN"), Some 1); (Some (bytes_of "TTLOUT"), Some 2)].
Proof.
  pose proof (walk_all_contents copy_string_ops example_table example_table_wf) as W.
  etransitivity; [exact W|]. by vm_compute.
Defined.

Lemma hash_table_destroy_releases_witness :
  hash_table_destroy copy_string_ops example_table ≡ₚ [bytes_of "TTLIN"; bytes_of "TTLOUT"].
Proof.
  rewrite (hash_table_destroy_releases copy_string_ops example_table example_table_wf). by vm_compute.
Defined.
End example.

End HashTableSpec.

(** ** What a table of strings promises its clients *)

(** The clients keep [const void *] values under names they own
    ([hash_table_create(false)]); [None] is a call that does not return. *)
Class StringTable `{Platform} (V T : Type) := {
  st_wf : T → Prop;
  st_map : T → gmap cstring (option V);
  st_create : T;
  st_lookup_bool : T → cstring → option (bool * option V);
  st_insert : T → cstring → option V → option (option V * T);
  st_create_ok : st_wf st_create ∧ st_map st_create = ∅;
  st_lookup_ok t key :
    st_wf t → st_lookup_bool t key =
      Some (bool_decide (is_Some (st_map t !! key)), default None (st_map t !! key));
  st_insert_ok t key v :
    st_wf t → Z.of_nat (size (st_map t)) < HashTableSpec.MAX_COUNT →
    ∃ t', st_insert t key v = Some (default None (st_map t !! key), t') ∧
      st_wf t' ∧ st_map t' = <[key := v]> (st_map t);
  st_walk : T → list (cstring * option V);
  st_walk_ok t : st_wf t → st_walk t ≡ₚ map_to_list (st_map t);
  st_count : T → Z;
  st_count_ok t : st_wf t → st_count t = Z.of_nat (size (st_map t));
}.

Section instance.
Import HashTable HashTableSpec.
Context `{Platform} {V : Type}.

(** The hash table of [keep_string_ops] keeps the promise. *)
#[export] Program Instance keep_string_table : StringTable V (hash_table (K := cstring) (V := V)) := {|
  st_wf := table_wf keep_string_ops;
  st_map := to_map;
  st_create := hash_table_create_generic;
  st_lookup_bool := hash_table_lookup_bool keep_string_ops;
  st_insert t key v := fst <$> hash_table_insert keep_string_ops t key v;
  st_walk t := omap (λ p, (λ k, (k, p.2)) <$> p.1) (walk_all (S (length (slots t))) t 0);
  st_count := hash_table_count;
|}.
Next Obligation. apply create_wf. Qed.
Next Obligation. intros t key Hwf. exact (table_lookup_bool keep_string_ops t key Hwf). Qed.
Next Obligation.
  intros t key v Hwf Hsize.
  destruct (table_insert keep_string_ops t key v Hwf Hsize) as (t' & c & -> & ? & ? & _). by exists t'.
Qed.
Next Obligation.
  intros t Hwf. etrans; [exact (omap_Permutation _ _ _ (walk_all_contents keep_string_ops t Hwf))|]. clear Hwf.
  induction (map_to_list (to_map t)) as [|[k v] l IH]; [done|]. cbn. by apply Permutation_skip.
Qed.
Next Obligation. intros t Hwf. exact (hash_table_count_size keep_string_ops t Hwf). Qed.
End instance.
