(* ===== verification/Enums.v ===== *)
(** * Enumerations: panda-server/server/enums.c

    An enumeration is an array of entries sorted by value, searched by halving
    for the name of a value and, for the value of a name, linearly or through a
    hash table once there are more than a few names.  The hash table is used
    through the interface [StringTable] of HashTableSpec. *)

From S2P Require Import Prelude Errors Parse Format HashTable HashTableSpec.
From stdpp Require Import base numbers list list_numbers gmap option strings pretty sorting.
Open Scope Z_scope.

Module Enums.
Import Parse Format.

(** [struct enum_entry]; a [NULL] name is [None]. *)
Record enum_entry := mk_enum { value : Z; name : option cstring }.

#[export] Instance enum_entry_eq_dec : EqDecision enum_entry.
Proof. solve_decision. Defined.

Section enums.
Context `{Platform} {T : Type} `{!StringTable Z T}.

Definition HASH_TABLE_THRESHOLD : Z := 4.
Definition INITIAL_CAPACITY : Z := 4.

(** [struct enumeration]; the [count] of its [enum_set] is the length of [enums]. *)
Record enumeration := mk_enumeration {
  set_capacity : Z;
  enums : list enum_entry;
  map : option T;
}.
Definition count (e : enumeration) : Z := Z.of_nat (length (enums e)).

(** A call of the hash table; one that does not return is undefined here. *)
Definition call {A} (o : option A) : outcome A :=
  match o with Some a => Ret a | None => Undef end.

(** [enum_set->enums[ix]]. *)
Definition entry_at (l : list enum_entry) (ix : Z) : outcome enum_entry := call (l !! Z.to_nat ix).

(** The loop of [binary_search]: at most one turn more than there are entries. *)
Fixpoint search_loop (fuel : nat) (l : list enum_entry) (v left right : Z) : outcome Z :=
  if bool_decide (left < right) then
    match fuel with
    | O => Undef
    | S fuel' =>
        let centre := ulong (left + right) / 2 in
        entry ← entry_at l centre;
        if bool_decide (v ≤ value entry) then search_loop fuel' l v left centre
        else search_loop fuel' l v (ulong (centre + 1)) right
    end
  else Ret left.
Definition binary_search (l : list enum_entry) (v : Z) : outcome Z :=
  search_loop (length l) l v 0 (Z.of_nat (length l)).

(** [enum_index_to_name]: [NULL] is [None]. *)
Definition enum_index_to_name (e : enumeration) (v : Z) : outcome (option cstring) :=
  ix ← binary_search (enums e) v;
  if bool_decide (ix < count e) then
    entry ← entry_at (enums e) ix;
    Ret (if bool_decide (value entry = v) then name entry else None)
  else Ret None.

Fixpoint linear_search (l : list enum_entry) (s : cstring) : option Z :=
  match l with
  | [] => None
  | entry :: rest =>
      if match name entry with
         | Some n => HashTable.compare_string n s
         | None => false
         end
      then Some (value entry) else linear_search rest s
  end.

(** The cast from [void *] and back. *)
Definition ptr_of_value (v : Z) : option Z := if bool_decide (v = 0) then None else Some v.
Definition value_of_ptr (p : option Z) : Z := u32 (default 0 p).

(** [enum_name_to_index]: the value when it returns true. *)
Definition enum_name_to_index (e : enumeration) (s : cstring) : outcome (option Z) :=
  match map e with
  | Some t =>
      '(found, hashed_value) ← call (st_lookup_bool t s);
      Ret (if found : bool then Some (value_of_ptr hashed_value) else None)
  | None => Ret (linear_search (enums e) s)
  end.

(** [check_sorted_enum_set]. *)
Fixpoint check_sorted_loop (v : Z) (l : list enum_entry) : bool :=
  match l with
  | [] => true
  | entry :: rest => if bool_decide (value entry ≤ v) then false else check_sorted_loop (value entry) rest
  end.
Definition check_sorted_enum_set (l : list enum_entry) : bool :=
  match l with [] => true | entry :: rest => check_sorted_loop (value entry) rest end.

(** [ASSERT_OK(!hash_table_insert_const(map, entry->name, entry->value))]; a null
    name is dereferenced by the hash function. *)
Definition insert_name (t : T) (entry : enum_entry) : outcome T :=
  n ← call (name entry);
  '(old, t') ← call (st_insert t n (ptr_of_value (value entry)));
  _ ← assert_ok (bool_decide (old = None));
  Ret t'.
Fixpoint insert_names (t : T) (l : list enum_entry) : outcome T :=
  match l with
  | [] => Ret t
  | entry :: rest => t' ← insert_name t entry; insert_names t' rest
  end.

Definition create_hash_table (e : enumeration) : outcome enumeration :=
  t ← insert_names st_create (enums e);
  Ret (mk_enumeration (set_capacity e) (enums e) (Some t)).

Definition create_static_enumeration (enum_set : list enum_entry) : outcome enumeration :=
  _ ← assert_ok (check_sorted_enum_set enum_set);
  let e := mk_enumeration 0 enum_set None in
  if bool_decide (HASH_TABLE_THRESHOLD < count e) then create_hash_table e else Ret e.

Definition create_dynamic_enumeration : enumeration := mk_enumeration INITIAL_CAPACITY [] None.

(** [insert_new_enum]: the entries from [ix] on move up by one. *)
Definition insert_new_enum (e : enumeration) (entry : enum_entry) (ix : Z) : outcome enumeration :=
  _ ← in_range (bool_decide (ix ≤ count e < set_capacity e));
  let enums' := take (Z.to_nat ix) (enums e) ++ entry :: drop (Z.to_nat ix) (enums e) in
  map' ← match map e with
         | Some t => t' ← insert_name t entry; Ret (Some t')
         | None => Ret None
         end;
  Ret (mk_enumeration (set_capacity e) enums' map').

Definition text_of (s : cstring) : string :=
  String.string_of_list_ascii ((λ c, Ascii.ascii_of_N (Z.to_N c)) <$> s).
Definition quote : string := String (Ascii.ascii_of_nat 34) EmptyString.

(** [add_enumeration]. *)
Definition add_enumeration (e : enumeration) (s : cstring) (v : Z) : outcome (error__t * enumeration) :=
  _ ← assert_ok (bool_decide (0 < set_capacity e));
  let entry := mk_enum v (Some s) in
  let capacity :=
    if bool_decide (set_capacity e ≤ count e) then ulong (set_capacity e * 2) else set_capacity e in
  let e := mk_enumeration capacity (enums e) (map e) in
  e ← (if bool_decide (map e ≠ None) then Ret e
       else if bool_decide (HASH_TABLE_THRESHOLD ≤ count e) then create_hash_table e
       else Ret e);
  ix ← binary_search (enums e) v;
  new_index ← (if bool_decide (count e - ix = 0) then Ret true
               else found ← entry_at (enums e) ix; Ret (bool_decide (v < value found)));
  if negb new_index then
    Ret (Some (error_create None ("Repeated enumeration index " +:+ pretty ix)), e)
  else
    test ← enum_name_to_index e s;
    if bool_decide (test ≠ None) then
      Ret (Some (error_create None ("Repeated enumeration name " +:+ quote +:+ text_of s +:+ quote)), e)
    else
      e ← insert_new_enum e entry ix;
      Ret (None, e).

(** [destroy_enumeration]: the names freed, the duplicates made by
    [add_enumeration]. *)
Definition destroy_enumeration (e : enumeration) : list (option cstring) :=
  if bool_decide (0 < set_capacity e) then name <$> enums e else [].

(** [write_enum_labels]: the lines written. *)
Definition write_enum_labels (e : enumeration) : list (option cstring) := name <$> enums e.

(** ** The enum type *)

(** [enum_add_label], the line parser of an enumeration: the cursor it leaves is
    part of the result. *)
Definition enum_add_label (e : enumeration) (s : cstring) : outcome (error__t * enumeration * cstring) :=
  match (ix ← parse_uint; _ ← parse_whitespace; n ← parse_utf8_string; mret (n, ix)) s with
  | (OK (n, ix), s') => '(err, e') ← add_enumeration e n ix; Ret (err, e', s')
  | (Err err, s') => Ret (Some err, e, s')
  end.

Definition enum_init : enumeration := create_dynamic_enumeration.

(** [enum_parse]: the whole of the string is the name. *)
Definition enum_parse (e : enumeration) (s : cstring) : outcome (res Z * cstring) :=
  r ← enum_name_to_index e s;
  Ret (match r with
       | Some v => (OK v, [])
       | None => (fail "Invalid enumeration value", s)
       end).

Definition format_enumeration (e : enumeration) (v : Z) (length_ : nat) : outcome (res cstring) :=
  label ← enum_index_to_name e v;
  Ret (match label with
       | Some n => format_string length_ n
       | None => fail "No label for value"
       end).

Definition enum_format (e : enumeration) (v : Z) (length_ : nat) : outcome (res cstring) :=
  format_enumeration e v length_.

(** ** The invariant *)

Definition by_value (a b : enum_entry) : Prop := value a < value b.

(** The names with their values as the hash table holds them. *)
Definition pair_of (x : enum_entry) : option (cstring * option Z) :=
  (λ n, (n, ptr_of_value (value x))) <$> name x.
Definition pairs (l : list enum_entry) : list (cstring * option Z) := omap pair_of l.

Record set_wf (l : list enum_entry) : Prop := {
  sw_sorted : StronglySorted by_value l;
  sw_values : Forall (λ x, 0 ≤ value x < 2 ^ 32) l;
  sw_named : Forall (λ x, is_Some (name x)) l;
  sw_distinct : NoDup (name <$> l);
  sw_count : Z.of_nat (length l) ≤ HashTableSpec.MAX_COUNT;
}.

Record enum_wf (e : enumeration) : Prop := {
  ew_set : set_wf (enums e);
  ew_map t : map e = Some t → st_wf t ∧ st_map t = list_to_map (pairs (enums e));
  ew_capacity : set_capacity e = 0 ∨
    count e ≤ set_capacity e ∧ 4 ≤ set_capacity e ≤ 2 * HashTableSpec.MAX_COUNT;
}.

(** The promise of an enumeration: [v] is labelled [n]. *)
Definition labelled (e : enumeration) (v : Z) (n : cstring) : Prop :=
  mk_enum v (Some n) ∈ enums e.

Lemma sorted_lookup l i j a b :
  StronglySorted by_value l → l !! i = Some a → l !! j = Some b → (i < j)%nat → value a < value b.
Proof.
  intros Hs Hi Hj Hlt. rewrite <-(take_drop_middle l j b Hj) in Hs.
  apply (StronglySorted_app_1_elem_of by_value (take j l) (b :: drop (S j) l)); [done| |by left].
  apply (list_elem_of_lookup_2 _ i). by rewrite lookup_take_lt.
Qed.

Lemma max_count_small : 4 * HashTableSpec.MAX_COUNT < 2 ^ long_bits.
Proof. unfold HashTableSpec.MAX_COUNT. destruct long_bits_ok as [-> | ->]; lia. Qed.

(** ** Searching *)

(** [ix] splits the entries at [v]. *)
Definition splits (l : list enum_entry) (v ix : Z) : Prop :=
  0 ≤ ix ≤ Z.of_nat (length l) ∧
  ∀ j x, l !! j = Some x → (Z.of_nat j < ix → value x < v) ∧ (ix ≤ Z.of_nat j → v ≤ value x).

Lemma search_loop_spec fuel l v left right :
  StronglySorted by_value l → 4 * Z.of_nat (length l) < 2 ^ long_bits →
  0 ≤ left ≤ right → right ≤ Z.of_nat (length l) → right - left ≤ Z.of_nat fuel →
  (∀ j x, l !! j = Some x → (Z.of_nat j < left → value x < v) ∧ (right ≤ Z.of_nat j → v ≤ value x)) →
  ∃ ix, search_loop fuel l v left right = Ret ix ∧ splits l v ix.
Proof.
  intros Hs Hw. revert left right. induction fuel as [|fuel IH]; intros left right Hlr Hr Hf Hsplit;
    simpl; case_bool_decide as Hlt; try lia.
  - exists left. split; [done|]. split; [lia|]. intros j x Hx. specialize (Hsplit j x Hx). lia.
  - rewrite HashTableSpec.ulong_small by lia.
    pose proof (Z.div_mod (left + right) 2 ltac:(lia)) as Hdm.
    pose proof (Z.mod_pos_bound (left + right) 2 ltac:(lia)).
    set (c := (left + right) / 2) in *. assert (left ≤ c < right) as Hc by lia.
    destruct (lookup_lt_is_Some_2 l (Z.to_nat c)) as [x Hx]; [lia|].
    unfold entry_at. rewrite Hx. simpl. case_bool_decide as Hv.
    + apply IH; [lia..|]. intros j y Hy. split; [by apply (Hsplit j y Hy)|]. intros Hj.
      destruct (decide (j = Z.to_nat c)) as [->|]; [by simplify_eq|].
      pose proof (sorted_lookup l (Z.to_nat c) j x y Hs Hx Hy). lia.
    + rewrite HashTableSpec.ulong_small by lia.
      apply IH; [lia..|]. intros j y Hy. split; [|by apply (Hsplit j y Hy)]. intros Hj.
      destruct (decide (j = Z.to_nat c)) as [->|]; [simplify_eq; lia|].
      pose proof (sorted_lookup l j (Z.to_nat c) y x Hs Hy Hx). lia.
  - exists left. split; [done|]. split; [lia|]. intros j x Hx. specialize (Hsplit j x Hx). lia.
Qed.

Lemma binary_search_splits l v :
  set_wf l → ∃ ix, binary_search l v = Ret ix ∧ splits l v ix.
Proof.
  intros Hwf. pose proof (sw_count l Hwf). pose proof max_count_small.
  apply search_loop_spec; [apply Hwf|lia..|].
  intros j x Hx. apply lookup_lt_Some in Hx. lia.
Qed.

(** In a sorted set the entry of value [v] is at the split. *)
Lemma splits_find l v ix x :
  set_wf l → splits l v ix → (x ∈ l ∧ value x = v ↔ l !! Z.to_nat ix = Some x ∧ value x = v).
Proof.
  intros Hwf Hsp. split; [|intros [H1 H2]; split; [by eapply list_elem_of_lookup_2|done]].
  intros [[j Hj]%list_elem_of_lookup_1 Hv]. split; [|done]. destruct Hsp as [Hix Hs].
  pose proof (lookup_lt_Some _ _ _ Hj). destruct (Hs j x Hj) as [H1 _].
  destruct (lookup_lt_is_Some_2 l (Z.to_nat ix)) as [y Hy]; [lia|].
  destruct (Hs _ y Hy) as [_ H2]. destruct (decide (Z.to_nat ix = j)) as [->|]; [done|].
  pose proof (sorted_lookup l _ j y x (sw_sorted l Hwf) Hy Hj). lia.
Qed.

Lemma index_to_name_spec e v :
  set_wf (enums e) → ∃ r, enum_index_to_name e v = Ret r ∧ ∀ n, r = Some n ↔ labelled e v n.
Proof.
  intros Hwf. unfold enum_index_to_name, labelled.
  destruct (binary_search_splits (enums e) v Hwf) as (ix & -> & Hsp). simpl.
  assert (∀ n, mk_enum v (Some n) ∈ enums e ↔ enums e !! Z.to_nat ix = Some (mk_enum v (Some n))) as Hfind.
  { intros n. pose proof (splits_find _ v ix (mk_enum v (Some n)) Hwf Hsp). naive_solver. }
  case_bool_decide as Hlt.
  - destruct (lookup_lt_is_Some_2 (enums e) (Z.to_nat ix)) as [x Hx]; [destruct Hsp; unfold count in *; lia|].
    unfold entry_at. rewrite Hx. simpl. eexists. split; [done|]. intros n. rewrite Hfind, Hx.
    destruct x as [xv xn]; simpl. case_bool_decide; naive_solver.
  - exists None. split; [done|]. intros n. rewrite Hfind. split; [done|].
    intros Hx%lookup_lt_Some. unfold count in *. lia.
Qed.

(** ** Names *)

Lemma pairs_fst l : Forall (λ x, is_Some (name x)) l → Some <$> (pairs l).*1 = name <$> l.
Proof.
  induction 1 as [|x l [n Hn] _ IH]; [done|].
  assert (pairs (x :: l) = (n, ptr_of_value (value x)) :: pairs l) as ->.
  { unfold pairs. simpl. unfold pair_of at 1. by rewrite Hn. }
  rewrite !fmap_cons, IH, Hn. done.
Qed.

Lemma pairs_nodup l : set_wf l → NoDup (pairs l).*1.
Proof.
  intros Hwf. apply (NoDup_fmap_1 Some). rewrite pairs_fst by apply Hwf. apply Hwf.
Qed.

Lemma pairs_elem l n p :
  (n, p) ∈ pairs l ↔ ∃ v, mk_enum v (Some n) ∈ l ∧ p = ptr_of_value v.
Proof.
  unfold pairs. rewrite list_elem_of_omap. unfold pair_of. split.
  - intros ([v [m|]] & Hin & ?); simplify_eq/=. eauto.
  - intros (v & Hin & ->). by exists (mk_enum v (Some n)).
Qed.

Lemma pairs_app l1 l2 : pairs (l1 ++ l2) = pairs l1 ++ pairs l2.
Proof. apply omap_app. Qed.

Lemma pairs_map_size l :
  NoDup (pairs l).*1 → (size (list_to_map (pairs l) : gmap cstring (option Z)) ≤ length l)%nat.
Proof.
  intros Hnd. rewrite <-length_map_to_list, (Permutation_length (map_to_list_to_map _ Hnd)).
  clear Hnd. induction l as [|x l IH]; [done|].
  change (pairs (x :: l)) with (match pair_of x with Some p => p :: pairs l | None => pairs l end).
  destruct (pair_of x); simpl; lia.
Qed.

Lemma value_ptr v : 0 ≤ v < 2 ^ 32 → value_of_ptr (ptr_of_value v) = v.
Proof. intros Hv. unfold value_of_ptr, ptr_of_value. case_bool_decide; simpl; [by subst|by apply wrap_small]. Qed.

Lemma linear_search_spec l s :
  NoDup (name <$> l) → ∀ v, linear_search l s = Some v ↔ mk_enum v (Some s) ∈ l.
Proof.
  induction l as [|[xv xn] l IH]; simpl; intros Hnd v; [split; [done|by intros ?%not_elem_of_nil]|].
  apply list.NoDup_cons in Hnd as [Hnot Hnd]. rewrite elem_of_cons.
  destruct xn as [m|]; [|rewrite IH by done; naive_solver].
  rewrite HashTableSpec.compare_string_eq. case_bool_decide as E; [subst m|rewrite IH by done; naive_solver].
  split; [intros [=]; subst; by left|]. intros [?|Hin]; [by simplify_eq|].
  exfalso. apply Hnot. apply (list_elem_of_fmap_2 name) in Hin. done.
Qed.

Lemma name_to_index_spec e s :
  enum_wf e → ∃ r, enum_name_to_index e s = Ret r ∧ ∀ v, r = Some v ↔ labelled e v s.
Proof.
  intros [Hset Hmap _]. unfold enum_name_to_index, labelled. destruct (map e) as [t|]; cycle 1.
  { eexists. split; [done|]. apply linear_search_spec, Hset. }
  destruct (Hmap t eq_refl) as [Hwf Et]. rewrite st_lookup_ok, Et by done. simpl.
  eexists. split; [done|]. intros v. pose proof (pairs_nodup _ Hset) as Hnd.
  case_bool_decide as Hfound.
  - destruct Hfound as [p Hp]. rewrite Hp. simpl. apply elem_of_list_to_map in Hp; [|done].
    apply pairs_elem in Hp as (v' & Hin & ->).
    assert (0 ≤ v' < 2 ^ 32) as Hv'.
    { apply (proj1 (Forall_forall _ _) (sw_values _ Hset) _ Hin). }
    rewrite value_ptr by done. split; [by intros [= <-]|]. intros Hin'.
    pose proof (linear_search_spec _ s (sw_distinct _ Hset)) as L.
    apply L in Hin, Hin'. congruence.
  - split; [done|]. intros Hin. destruct Hfound.
    exists (ptr_of_value v). apply elem_of_list_to_map; [done|]. apply pairs_elem. eauto.
Qed.

(** The two look-ups of an enumeration always return, and are inverse to
    each other: [v] has the name [n] exactly when [n] has the index [v]. *)
Theorem enum_lookups_inverse e v n :
  enum_wf e →
  (∃ r, enum_index_to_name e v = Ret r) ∧ (∃ r, enum_name_to_index e n = Ret r) ∧
  (enum_index_to_name e v = Ret (Some n) ↔ enum_name_to_index e n = Ret (Some v)).
Proof.
  intros Hwf. destruct (index_to_name_spec e v (ew_set e Hwf)) as (r1 & -> & H1).
  destruct (name_to_index_spec e n Hwf) as (r2 & -> & H2).
  split_and!; [by eexists..|]. specialize (H1 n). specialize (H2 v).
  split; intros [= E]; f_equal; tauto.
Qed.

(** ** Adding entries *)

Lemma insert_name_spec t v n :
  st_wf t → Z.of_nat (size (st_map t)) < HashTableSpec.MAX_COUNT → st_map t !! n = None →
  ∃ t', insert_name t (mk_enum v (Some n)) = Ret t' ∧ st_wf t' ∧
    st_map t' = <[n := ptr_of_value v]> (st_map t).
Proof.
  intros Hwf Hsize Hnew. unfold insert_name. simpl.
  destruct (st_insert_ok t n (ptr_of_value v) Hwf Hsize) as (t' & -> & Hwf' & Hmap).
  rewrite Hnew. simpl. by exists t'.
Qed.

(** The hash table of a prefix, extended by the rest. *)
Lemma insert_names_spec t l1 l2 :
  set_wf (l1 ++ l2) → st_wf t → st_map t = list_to_map (pairs l1) →
  ∃ t', insert_names t l2 = Ret t' ∧ st_wf t' ∧ st_map t' = list_to_map (pairs (l1 ++ l2)).
Proof.
  revert t l1. induction l2 as [|x l2 IH]; intros t l1 Hwf Ht Hmap; simpl.
  { exists t. by rewrite app_nil_r. }
  pose proof (pairs_nodup _ Hwf) as Hnd.
  assert (∃ v n, x = mk_enum v (Some n)) as (v & n & ->).
  { pose proof (sw_named _ Hwf) as Hn. apply Forall_app in Hn as [_ Hn].
    apply list.Forall_cons in Hn as [[n Hn] _]. destruct x; simpl in *; subst. eauto. }
  rewrite pairs_app, fmap_app in Hnd. simpl in Hnd. apply NoDup_app in Hnd as (Hnd1 & Hdis & _).
  assert (n ∉ (pairs l1).*1) as Hn by (intros Hin; apply (Hdis n Hin); by left).
  destruct (insert_name_spec t v n Ht) as (t' & -> & Ht' & Hmap').
  { pose proof (sw_count _ Hwf) as Hc. rewrite length_app in Hc. simpl in Hc.
    rewrite Hmap. pose proof (pairs_map_size l1 Hnd1). lia. }
  { rewrite Hmap. by apply not_elem_of_list_to_map_1. }
  simpl. rewrite cons_middle, app_assoc in Hwf |- *.
  apply IH; [done..|]. rewrite Hmap', Hmap, pairs_app. simpl.
  symmetry. by apply list_to_map_snoc.
Qed.

Lemma create_hash_table_spec e :
  set_wf (enums e) → ∃ t, create_hash_table e = Ret (mk_enumeration (set_capacity e) (enums e) (Some t)) ∧
    st_wf t ∧ st_map t = list_to_map (pairs (enums e)).
Proof.
  intros Hwf. unfold create_hash_table. destruct st_create_ok as [H1 H2].
  destruct (insert_names_spec st_create [] (enums e) Hwf H1 H2) as (t & -> & ? & ?). by exists t.
Qed.

(** A set with one more entry at the split. *)
Lemma insert_set_wf l v n ix :
  set_wf l → splits l v ix → 0 ≤ v < 2 ^ 32 → Z.of_nat (length l) < HashTableSpec.MAX_COUNT →
  (∀ x, x ∈ l → value x ≠ v) → (∀ w, mk_enum w (Some n) ∉ l) →
  set_wf (take (Z.to_nat ix) l ++ mk_enum v (Some n) :: drop (Z.to_nat ix) l).
Proof.
  intros Hwf [Hix Hsp] Hv Hc Hval Hname.
  set (l' := take _ l ++ _). assert (l' ≡ₚ mk_enum v (Some n) :: l) as Hperm.
  { subst l'. rewrite <-Permutation_middle, take_drop. done. }
  split.
  - subst l'. pose proof (sw_sorted l Hwf) as Hs. rewrite <-(take_drop (Z.to_nat ix) l) in Hs at 1.
    apply StronglySorted_app in Hs as (H12 & H1 & H2). apply StronglySorted_app. split_and!; [|done|].
    + intros a b [i Hi]%list_elem_of_lookup_1 Hb%elem_of_cons.
      destruct Hb as [->|Hb]; [|apply H12; [by eapply list_elem_of_lookup_2|done]].
      apply lookup_take_Some in Hi as [Hi ?]. apply (Hsp i a Hi). lia.
    + constructor; [done|]. apply Forall_forall. intros b [i Hi]%list_elem_of_lookup_1.
      rewrite lookup_drop in Hi. unfold by_value. simpl.
      destruct (Hsp _ b Hi) as [_ H3]. pose proof (Hval b (list_elem_of_lookup_2 _ _ _ Hi)). lia.
  - rewrite Hperm. constructor; [done|apply Hwf].
  - rewrite Hperm. constructor; [by exists n|apply Hwf].
  - rewrite Hperm. simpl. apply list.NoDup_cons. split; [|apply Hwf].
    intros ([w m] & E & Hin)%list_elem_of_fmap. simpl in E. subst m. by apply (Hname w).
  - rewrite Hperm. simpl. lia.
Qed.

Lemma add_capacity e :
  enum_wf e → 0 < set_capacity e → count e < HashTableSpec.MAX_COUNT →
  let capacity :=
    if bool_decide (set_capacity e ≤ count e) then ulong (set_capacity e * 2) else set_capacity e in
  count e < capacity ∧ 4 ≤ capacity ≤ 2 * HashTableSpec.MAX_COUNT.
Proof.
  intros [_ _ Hcap] Hpos Hc. pose proof max_count_small. simpl.
  case_bool_decide; [rewrite HashTableSpec.ulong_small by lia|]; lia.
Qed.

(** The enumeration [add_enumeration] works on: room made, and a hash table as
    soon as there are enough names. *)
Lemma add_prepare e :
  enum_wf e → 0 < set_capacity e → count e < HashTableSpec.MAX_COUNT →
  ∃ e', (let capacity :=
      if bool_decide (set_capacity e ≤ count e) then ulong (set_capacity e * 2) else set_capacity e in
    let e := mk_enumeration capacity (enums e) (map e) in
    (if bool_decide (map e ≠ None) then Ret e
     else if bool_decide (HASH_TABLE_THRESHOLD ≤ count e) then create_hash_table e
     else Ret e)) = Ret e' ∧
  enum_wf e' ∧ enums e' = enums e ∧ count e' < set_capacity e'.
Proof.
  intros Hwf Hpos Hc. destruct (add_capacity e Hwf Hpos Hc) as [Hroom Hcap]. simpl in *.
  set (capacity := if bool_decide _ then _ else _) in *. destruct Hwf as [Hset Hmap _].
  set (e0 := mk_enumeration capacity (enums e) (map e)).
  assert (enum_wf e0) as Hwf0 by (split; [done|done|right; unfold count in *; simpl; lia]).
  case_bool_decide; [by exists e0|]. case_bool_decide; [|by exists e0].
  destruct (create_hash_table_spec e0 Hset) as (t & -> & Ht & Et).
  eexists. split; [done|]. split_and!; [|done|done].
  split; [done| |right; unfold count in *; simpl; lia]. intros t' [= <-]. done.
Qed.

Lemma insert_new_enum_spec e v n ix :
  enum_wf e → splits (enums e) v ix → 0 ≤ v < 2 ^ 32 → count e < HashTableSpec.MAX_COUNT →
  count e < set_capacity e →
  (∀ x, x ∈ enums e → value x ≠ v) → (∀ w, mk_enum w (Some n) ∉ enums e) →
  ∃ e', insert_new_enum e (mk_enum v (Some n)) ix = Ret e' ∧ (enum_wf e' ∧ set_capacity e' = set_capacity e) ∧
    enums e' ≡ₚ mk_enum v (Some n) :: enums e.
Proof.
  intros Hwf Hsp Hv Hc Hroom Hval Hname.
  pose proof (insert_set_wf (enums e) v n ix (ew_set e Hwf) Hsp Hv Hc Hval Hname) as Hset'.
  assert (take (Z.to_nat ix) (enums e) ++ mk_enum v (Some n) :: drop (Z.to_nat ix) (enums e)
    ≡ₚ mk_enum v (Some n) :: enums e) as Hperm.
  { by rewrite <-Permutation_middle, take_drop. }
  destruct Hwf as [Hset Hmap Hcap]. unfold insert_new_enum. destruct Hsp as [Hix _].
  rewrite (bool_decide_true (_ ≤ _ < _)) by (unfold count in *; lia). simpl.
  assert (set_capacity e = 0 ∨ Z.of_nat (S (length (enums e))) ≤ set_capacity e ∧
    4 ≤ set_capacity e ≤ 2 * HashTableSpec.MAX_COUNT) as Hcap' by (unfold count in *; lia).
  destruct (map e) as [t|]; simpl; cycle 1.
  { eexists. split; [done|]. split; [|done]. split; [|done]. split; [done|done|].
    unfold count. cbn [enums set_capacity]. by rewrite Hperm. }
  destruct (Hmap t eq_refl) as [Ht Et]. pose proof (pairs_nodup _ Hset) as Hnd.
  assert (n ∉ (pairs (enums e)).*1) as Hn.
  { intros ([m p] & -> & (w & Hin & _)%pairs_elem)%list_elem_of_fmap. by apply (Hname w). }
  destruct (insert_name_spec t v n Ht) as (t' & -> & Ht' & Et').
  { rewrite Et. pose proof (pairs_map_size _ Hnd). unfold count in *. lia. }
  { rewrite Et. by apply not_elem_of_list_to_map_1. }
  simpl. eexists. split; [done|]. split; [|done]. split; [|done]. split; [done| |].
  - cbn [map enums]. intros t'' [= <-]. split; [done|]. rewrite Et', Et.
    symmetry. rewrite <-list_to_map_cons. apply list_to_map_proper; [by apply pairs_nodup|].
    unfold pairs. by rewrite Hperm.
  - unfold count. cbn [enums set_capacity]. by rewrite Hperm.
Qed.

Lemma new_index_spec e v ix :
  set_wf (enums e) → splits (enums e) v ix →
  ∃ b, (if bool_decide (count e - ix = 0) then Ret true
        else found ← entry_at (enums e) ix; Ret (bool_decide (v < value found))) = Ret b ∧
    (b = true ↔ ∀ x, x ∈ enums e → value x ≠ v).
Proof.
  intros Hwf Hsp. pose proof (splits_find (enums e) v ix) as Hfind. case_bool_decide as Hend.
  - exists true. split; [done|]. split; [|done]. intros _ x Hx Hv.
    destruct (proj1 (Hfind x Hwf Hsp) (conj Hx Hv)) as [Hix%lookup_lt_Some _].
    unfold count in *. lia.
  - destruct (lookup_lt_is_Some_2 (enums e) (Z.to_nat ix)) as [x Hx].
    { destruct Hsp as [? _]. unfold count in *. lia. }
    unfold entry_at. rewrite Hx. simpl. eexists. split; [done|]. rewrite bool_decide_eq_true.
    assert (v ≤ value x) as Hle.
    { destruct Hsp as [? Hsp]. apply (Hsp _ x Hx). lia. }
    split.
    + intros Hlt y Hy Hv. destruct (proj1 (Hfind y Hwf Hsp) (conj Hy Hv)) as [Hy' _]. simplify_eq. lia.
    + intros Hne. pose proof (Hne x (list_elem_of_lookup_2 _ _ _ Hx)). lia.
Qed.

Lemma labelled_value e v :
  set_wf (enums e) → (∀ n, ¬ labelled e v n) ↔ ∀ x, x ∈ enums e → value x ≠ v.
Proof.
  intros Hwf. split.
  - intros Hno [w [n|]] Hin; simpl.
    + intros ->. by apply (Hno n).
    + pose proof (proj1 (Forall_forall _ _) (sw_named _ Hwf) _ Hin) as [? ?]. done.
  - intros Hne n Hin. by apply (Hne _ Hin).
Qed.

(** Adding an entry, for clients. *)
Lemma add_entry_spec e s v :
  enum_wf e → 0 < set_capacity e → count e < HashTableSpec.MAX_COUNT → 0 ≤ v < 2 ^ 32 →
  ∃ err e', add_enumeration e s v = Ret (err, e') ∧ (enum_wf e' ∧ 0 < set_capacity e') ∧
    (err = None ↔ (∀ n, ¬ labelled e v n) ∧ (∀ w, ¬ labelled e w s)) ∧
    enums e' ≡ₚ match err with None => mk_enum v (Some s) :: enums e | Some _ => enums e end.
Proof.
  intros Hwf Hpos Hc Hv. unfold add_enumeration.
  rewrite (bool_decide_true (0 < set_capacity e)) by done. cbn [assert_ok mbind outcome_bind].
  destruct (add_prepare e Hwf Hpos Hc) as (e1 & E1 & Hwf1 & Henums & Hroom).
  cbv zeta in E1. rewrite E1. clear E1. cbn [mbind outcome_bind].
  assert (0 < set_capacity e1) as Hpos1 by (unfold count in Hroom; lia).
  assert (∀ w n, labelled e1 w n ↔ labelled e w n) as Hl by (intros; unfold labelled; by rewrite Henums).
  pose proof (labelled_value e v (ew_set e Hwf)) as Hval.
  destruct (binary_search_splits (enums e1) v (ew_set _ Hwf1)) as (ix & -> & Hsp). cbn [mbind outcome_bind].
  destruct (new_index_spec e1 v ix (ew_set _ Hwf1) Hsp) as (b & -> & Hb). rewrite Henums, <-Hval in Hb.
  cbn [mbind outcome_bind]. destruct b; simpl.
  2:{ eexists _, _. split_and!; [done..| |by rewrite Henums].
      split; [done|]. intros [H1 _]. by apply Hb in H1. }
  destruct (name_to_index_spec e1 s Hwf1) as (r & -> & Hr). cbn [mbind outcome_bind].
  case_bool_decide as Hfound.
  { destruct r as [w|]; [|done]. eexists _, _. split_and!; [done..| |by rewrite Henums].
    split; [done|]. intros [_ H1]. exfalso. apply (H1 w), Hl, Hr. done. }
  assert (r = None) as -> by (by destruct r).
  assert (∀ w, ¬ labelled e w s) as Hnew by (intros w Hw%Hl; by apply Hr in Hw).
  destruct (insert_new_enum_spec e1 v s ix Hwf1 Hsp Hv) as (e2 & -> & [Hwf2 Hcap2] & Hperm); [|done|..].
  { unfold count in *. by rewrite Henums. }
  { rewrite Henums. apply Hval. by apply Hb. }
  { intros w Hw. rewrite Henums in Hw. by apply (Hnew w). }
  cbn [mbind outcome_bind]. eexists _, _. split_and!; [done..|lia| |by rewrite Hperm, Henums].
  split; [|done]. intros _. split; [by apply Hb|done].
Qed.

(** [add_enumeration] adds the entry exactly when neither its value nor its
    name is taken, growing the array and building the hash table as needed;
    otherwise it fails and the enumeration means what it did before. *)
Theorem add_enumeration_spec e s v :
  enum_wf e → 0 < set_capacity e → count e < HashTableSpec.MAX_COUNT → 0 ≤ v < 2 ^ 32 →
  ∃ err e', add_enumeration e s v = Ret (err, e') ∧ enum_wf e' ∧
    (err = None ↔ (∀ n, ¬ labelled e v n) ∧ (∀ w, ¬ labelled e w s)) ∧
    ∀ w n, labelled e' w n ↔ labelled e w n ∨ err = None ∧ w = v ∧ n = s.
Proof.
  intros Hwf Hpos Hc Hv. destruct (add_entry_spec e s v Hwf Hpos Hc Hv) as (err & e' & E & [Hwf' _] & Herr & Hperm).
  exists err, e'. split_and!; [done..|]. intros w n. unfold labelled. rewrite Hperm.
  destruct err; [naive_solver|]. rewrite elem_of_cons. naive_solver.
Qed.

(** An empty dynamic enumeration is well formed, and a static one is when its
    entries are in strictly ascending order, with different names; entries out
    of order stop the server. *)
Theorem create_static_enumeration_spec enum_set :
  (set_wf enum_set → ∃ e, create_static_enumeration enum_set = Ret e ∧ enum_wf e ∧ enums e = enum_set) ∧
  (¬ StronglySorted by_value enum_set → create_static_enumeration enum_set = Panic).
Proof.
  unfold create_static_enumeration.
  assert (check_sorted_enum_set enum_set = true ↔ StronglySorted by_value enum_set) as Hchk.
  { destruct enum_set as [|x l]; [split; [constructor|done]|]. simpl. revert x.
    induction l as [|y l IH]; intros x; simpl; [split; [by repeat constructor|done]|].
    case_bool_decide as Hle.
    - split; [done|]. intros [_ Hs]%StronglySorted_inv. apply list.Forall_cons in Hs as [Hs _].
      unfold by_value in Hs. lia.
    - rewrite IH. rewrite !StronglySorted_cons, list.Forall_cons. unfold by_value.
      split; [|tauto]. intros [H1 H2]. split_and!; [lia| |done..].
      eapply Forall_impl; [exact H1|]. simpl. lia. }
  split.
  - intros Hwf. rewrite (proj2 Hchk) by apply Hwf. simpl.
    case_bool_decide.
    + destruct (create_hash_table_spec (mk_enumeration 0 enum_set None) Hwf) as (t & -> & Ht & Et).
      eexists. split; [done|]. split; [|done]. split; [done| |by left].
      intros t' [= <-]. done.
    + eexists. split; [done|]. split; [|done]. split; [done|intros ? [=]|by left].
  - intros Hns. destruct (check_sorted_enum_set enum_set) eqn:E; [|done].
    destruct Hns. by apply Hchk.
Qed.

(** Formatting a value gives a name that parses back to the value. *)
Theorem enum_format_parse e v text length_ :
  enum_wf e → enum_format e v length_ = Ret (OK text) → enum_parse e text = Ret (OK v, []).
Proof.
  intros Hwf. unfold enum_format, format_enumeration, enum_parse.
  destruct (index_to_name_spec e v (ew_set e Hwf)) as (r & -> & H1). simpl.
  destruct r as [n|]; [|done]. unfold format_string. case_bool_decide; [|done]. simpl.
  intros [= <-]. destruct (name_to_index_spec e n Hwf) as (r2 & -> & H2). simpl.
  by rewrite (proj2 (H2 v)) by (by apply H1).
Qed.

Lemma create_dynamic_wf : enum_wf create_dynamic_enumeration.
Proof.
  split; [split| |right]; simpl; try constructor; try done.
  all: unfold HashTableSpec.MAX_COUNT; destruct long_bits_ok as [-> | ->]; by vm_compute.
Qed.

End enums.

(** ** An enumeration with two labels *)

Section example.
#[local] Existing Instance AARCH64.
Abbreviation table := (HashTable.hash_table (K := cstring) (V := Z)).

Definition example_enum : enumeration (T := table) :=
  mk_enumeration 4 [mk_enum 1 (Some (bytes_of "Off")); mk_enum 5 (Some (bytes_of "On"))] None.

Lemma example_set_wf : set_wf (enums example_enum).
Proof. split; [repeat constructor..|by vm_compute]; by (apply (bool_decide_unpack _); vm_compute). Qed.

Lemma example_enum_wf : enum_wf example_enum.
Proof. split; [apply example_set_wf|done|right; by vm_compute]. Qed.

Lemma enum_lookups_inverse_witness :
  enum_index_to_name example_enum 5 = Ret (Some (bytes_of "On")).
Proof.
  apply (proj2 (proj2 (enum_lookups_inverse example_enum 5 (bytes_of "On") example_enum_wf))).
  reflexivity.
Defined.

Lemma add_enumeration_spec_witness :
  ∃ e', add_enumeration example_enum (bytes_of "Auto") 3 = Ret (None, e') ∧ enum_wf e' ∧
    labelled e' 3 (bytes_of "Auto").
Proof.
  destruct (add_enumeration_spec example_enum (bytes_of "Auto") 3 example_enum_wf)
    as (err & e' & E & Hwf & _ & Hl); [by vm_compute..|].
  exists e'. assert (err = None) as -> by (vm_compute in E; congruence).
  split; [exact E|]. split; [exact Hwf|]. apply Hl. by right.
Defined.

Lemma enum_format_parse_witness : enum_parse example_enum (bytes_of "On") = Ret (OK 5, []).
Proof. apply (enum_format_parse example_enum 5 (bytes_of "On") 20 example_enum_wf). reflexivity. Defined.
End example.

End Enums.
