(* ===== verification/Buffer.v ===== *)
(** * The capture buffer: panda-server/server/buffer.c

    One writer and any number of readers share a ring of blocks.  The writer
    never waits; a reader that falls too far behind notices it from the buffer
    cycle count.  Every critical section of the source ([WITH_MUTEX]) is a
    function on the shared state here, and BufferSpec interleaves them.

    A wait on the condition variable is modelled by what the waiting thread
    sees: the loops take the list of states of the buffer at the successive
    wake-ups, and the end of the list is the time-out. *)

From S2P Require Import Prelude.
From stdpp Require Import base numbers list list_numbers option.
Open Scope Z_scope.

Module Buffer.

(** [enum buffer_state]. *)
Inductive buffer_state := STATE_IDLE | STATE_ACTIVE | STATE_CLEARING.
#[export] Instance buffer_state_eq_dec : EqDecision buffer_state.
Proof. solve_decision. Defined.

(** [enum reader_status]. *)
Inductive reader_status :=
  READER_STATUS_ALL_READ | READER_STATUS_CLOSED | READER_STATUS_OVERRUN.
#[export] Instance reader_status_eq_dec : EqDecision reader_status.
Proof. solve_decision. Defined.

(** [struct capture_buffer], without the mutex and the condition variable; the
    memory behind [buffer] is the list of its blocks. *)
Record capture_buffer := mk_buffer {
  block_size : Z;
  block_count : Z;
  released_once : bool;
  buffer : list (list Z);
  capture_cycle : Z;
  buffer_cycle : Z;
  shutdown : bool;
  state : buffer_state;
  reader_count : Z;
  active_count : Z;
  in_ptr : Z;
  lost_bytes : Z;
  written : list Z;
}.

(** [struct reader_state]. *)
Record reader_state := mk_reader {
  r_capture_cycle : Z;
  r_buffer_cycle : Z;
  r_out_ptr : Z;
  r_status : reader_status;
}.

(** ** The writer *)

Definition start_write (b : capture_buffer) : capture_buffer :=
  mk_buffer (block_size b) (block_count b) false (buffer b) (capture_cycle b) 0 (shutdown b)
    STATE_ACTIVE (reader_count b) (reader_count b) 0 0
    (replicate (Z.to_nat (block_count b)) 0).

(** [get_buffer]: the block at an index. *)
Definition get_buffer (b : capture_buffer) (ix : Z) : option (list Z) := buffer b !! Z.to_nat ix.

(** What the writer does to the block [get_write_block] gives it. *)
Definition fill_write_block (b : capture_buffer) (data : list Z) : capture_buffer :=
  mk_buffer (block_size b) (block_count b) (released_once b)
    (<[Z.to_nat (in_ptr b) := data]> (buffer b)) (capture_cycle b) (buffer_cycle b) (shutdown b)
    (state b) (reader_count b) (active_count b) (in_ptr b) (lost_bytes b) (written b).

Definition release_write_block (b : capture_buffer) (written_ : Z) : capture_buffer :=
  let lost := u64 (lost_bytes b + written b !!! Z.to_nat (in_ptr b)) in
  let written' := <[Z.to_nat (in_ptr b) := written_]> (written b) in
  let next := in_ptr b + 1 in
  let '(in_ptr', cycle') :=
    if bool_decide (block_count b ≤ next) then (0, u32 (buffer_cycle b + 1))
    else (next, buffer_cycle b) in
  mk_buffer (block_size b) (block_count b) true (buffer b) (capture_cycle b) cycle' (shutdown b)
    (state b) (reader_count b) (active_count b) in_ptr' lost written'.

(** The fields the state management works on. *)
Definition set_control (b : capture_buffer) (cycle : Z) (st : buffer_state) (readers active : Z)
    : capture_buffer :=
  mk_buffer (block_size b) (block_count b) (released_once b) (buffer b) cycle (buffer_cycle b)
    (shutdown b) st readers active (in_ptr b) (lost_bytes b) (written b).

Definition advance_capture (b : capture_buffer) : capture_buffer :=
  set_control b (u32 (capture_cycle b + 1)) STATE_IDLE (reader_count b) (active_count b).

Definition end_write (b : capture_buffer) : capture_buffer :=
  if bool_decide (0 < active_count b)
  then set_control b (capture_cycle b) STATE_CLEARING (reader_count b) (active_count b)
  else advance_capture b.

Definition complete_capture (b : capture_buffer) : capture_buffer :=
  let b := set_control b (capture_cycle b) (state b) (reader_count b) (u32 (active_count b - 1)) in
  if bool_decide (active_count b = 0) && bool_decide (state b = STATE_CLEARING)
  then advance_capture b else b.

(** [add_reader]: the current capture cycle and the buffer. *)
Definition add_reader (b : capture_buffer) : Z * capture_buffer :=
  (capture_cycle b,
   set_control b (capture_cycle b) (state b) (u32 (reader_count b + 1))
     (if bool_decide (state b ≠ STATE_IDLE) then u32 (active_count b + 1) else active_count b)).

Definition remove_reader (b : capture_buffer) (cycle : Z) : capture_buffer :=
  let b := set_control b (capture_cycle b) (state b) (u32 (reader_count b - 1)) (active_count b) in
  if bool_decide (state b ≠ STATE_IDLE) && bool_decide (capture_cycle b = cycle)
  then complete_capture b else b.

Definition shutdown_buffer (b : capture_buffer) : capture_buffer :=
  mk_buffer (block_size b) (block_count b) (released_once b) (buffer b) (capture_cycle b)
    (buffer_cycle b) true (state b) (reader_count b) (active_count b) (in_ptr b) (lost_bytes b)
    (written b).

(** [read_buffer_status]: taking data, readers, active readers. *)
Definition read_buffer_status (b : capture_buffer) : bool * Z * Z :=
  (bool_decide (state b ≠ STATE_IDLE), reader_count b, active_count b).

(** ** Readers *)

Definition create_reader (b : capture_buffer) : reader_state * capture_buffer :=
  let '(cycle, b') := add_reader b in
  (mk_reader cycle 0 0 READER_STATUS_ALL_READ, b').

Definition destroy_reader (r : reader_state) (b : capture_buffer) : capture_buffer :=
  remove_reader b (r_capture_cycle r).

(** [count_lost_bytes]: the loop goes once round the ring at most. *)
Fixpoint lost_loop (fuel : nat) (b : capture_buffer) (ix out_ptr lost : Z) : option Z :=
  if bool_decide (ix = out_ptr) then Some lost else
  match fuel with
  | O => None
  | S fuel' =>
      let lost := u64 (lost + written b !!! Z.to_nat ix) in
      let ix := ix + 1 in
      lost_loop fuel' b (if bool_decide (block_count b ≤ ix) then 0 else ix) out_ptr lost
  end.
Definition count_lost_bytes (b : capture_buffer) (out_ptr : Z) : option Z :=
  lost_loop (Z.to_nat (block_count b)) b (in_ptr b) out_ptr (lost_bytes b).

(** [compute_reader_start]: the buffer cycle and index to start from, and the
    number of bytes missed. *)
Definition compute_reader_start (b : capture_buffer) (read_margin : Z) : option (Z * Z * Z) :=
  if bool_decide (buffer_cycle b = 0) && bool_decide (in_ptr b + read_margin + 1 < block_count b)
  then Some (0, 0, 0)
  else
    let out_ptr := in_ptr b + read_margin + 1 in
    let '(cycle, out_ptr) :=
      if bool_decide (block_count b ≤ out_ptr)
      then (buffer_cycle b, out_ptr - block_count b)
      else (u32 (buffer_cycle b - 1), out_ptr) in
    lost ← count_lost_bytes b out_ptr;
    Some (cycle, out_ptr, lost).

(** One turn of the loop of [wait_for_buffer_ready]: [None] when it waits. *)
Definition buffer_ready (r : reader_state) (b : capture_buffer) : option bool :=
  if shutdown b then Some false
  else if bool_decide (state b ≠ STATE_IDLE) && bool_decide (capture_cycle b = r_capture_cycle r)
  then Some (released_once b)
  else None.

(** [wait_for_buffer_ready]: the result, and the state of the buffer it was
    reached in. *)
Fixpoint wait_for_buffer_ready (r : reader_state) (b : capture_buffer) (wakeups : list capture_buffer)
    : bool * capture_buffer :=
  match buffer_ready r b with
  | Some ready => (ready, b)
  | None =>
      match wakeups with
      | [] => (false, b)
      | b' :: wakeups' => wait_for_buffer_ready r b' wakeups'
      end
  end.

(** [open_reader]: the reader and the bytes lost when it returns true. *)
Definition open_reader (r : reader_state) (read_margin : Z) (b : capture_buffer)
    (wakeups : list capture_buffer) : option (option (reader_state * Z)) :=
  let '(active, b) := wait_for_buffer_ready r b wakeups in
  if active : bool then
    '(cycle, out_ptr, lost) ← compute_reader_start b read_margin;
    Some (Some (mk_reader (capture_cycle b) cycle out_ptr READER_STATUS_CLOSED, lost))
  else Some None.

Definition close_reader (r : reader_state) (b : capture_buffer)
    : reader_status * reader_state * capture_buffer :=
  (r_status r,
   mk_reader (u32 (r_capture_cycle r + 1)) (r_buffer_cycle r) (r_out_ptr r) (r_status r),
   complete_capture b).

(** ** Overrun *)

Definition check_overrun_ok (cycle reader_cycle in_ptr out_ptr : Z) : bool :=
  if bool_decide (in_ptr = out_ptr) then false
  else if bool_decide (out_ptr < in_ptr) then bool_decide (cycle = reader_cycle)
  else bool_decide (cycle = u32 (reader_cycle + 1)).

Definition check_block_status (r : reader_state) (b : capture_buffer) (reader_cycle out_ptr : Z)
    : bool * reader_state :=
  if check_overrun_ok (buffer_cycle b) reader_cycle (in_ptr b) out_ptr then (true, r)
  else (false, mk_reader (r_capture_cycle r) (r_buffer_cycle r) (r_out_ptr r) READER_STATUS_OVERRUN).

Definition check_read_block (r : reader_state) (b : capture_buffer) : bool * reader_state :=
  let '(out_ptr, cycle) :=
    if bool_decide (0 < r_out_ptr r) then (r_out_ptr r - 1, r_buffer_cycle r)
    else (block_count b - 1, u32 (r_buffer_cycle r - 1)) in
  check_block_status r b cycle out_ptr.

(** One turn of the loop of [wait_for_block_ready], and how it ends. *)
Inductive wait_result := Block_ready | All_read | Timeout.
Definition block_ready (r : reader_state) (b : capture_buffer) : option wait_result :=
  if shutdown b then Some Block_ready
  else if negb (bool_decide (buffer_cycle b = r_buffer_cycle r) && bool_decide (in_ptr b = r_out_ptr r))
  then Some Block_ready
  else if bool_decide (state b = STATE_CLEARING) then Some All_read
  else None.

Fixpoint wait_for_block_ready (r : reader_state) (b : capture_buffer) (wakeups : list capture_buffer)
    : wait_result :=
  match block_ready r b with
  | Some result => result
  | None =>
      match wakeups with
      | [] => Timeout
      | b' :: wakeups' => wait_for_block_ready r b' wakeups'
      end
  end.

(** [get_read_block] step by step: the wait, the step to the next block with the
    check of the one to return, and the length of that block, which is read
    without the lock. *)
Definition advance_reader (r : reader_state) (b : capture_buffer) : reader_state :=
  let next := r_out_ptr r + 1 in
  if bool_decide (block_count b ≤ next)
  then mk_reader (r_capture_cycle r) (u32 (r_buffer_cycle r + 1)) 0 (r_status r)
  else mk_reader (r_capture_cycle r) (r_buffer_cycle r) next (r_status r).
Definition take_block (r : reader_state) (b : capture_buffer) : bool * reader_state :=
  check_block_status (advance_reader r b) b (r_buffer_cycle r) (r_out_ptr r).
Definition read_length (b : capture_buffer) (out_ptr : Z) : Z := written b !!! Z.to_nat out_ptr.

(** What [get_read_block] returns. *)
Inductive read_result :=
  | Block (ix length_ : Z)
  | Empty
  | Null.

(** [get_read_block]: [b] and [wakeups] are what the wait sees, [b1] the buffer at
    the check, [b2] when the length is read. *)
Definition get_read_block (r : reader_state) (b : capture_buffer) (wakeups : list capture_buffer)
    (b1 b2 : capture_buffer) : read_result * reader_state :=
  if bool_decide (r_status r ≠ READER_STATUS_CLOSED) then (Null, r) else
  match wait_for_block_ready r b wakeups with
  | Timeout => (Empty, r)
  | All_read => (Null, mk_reader (r_capture_cycle r) (r_buffer_cycle r) (r_out_ptr r) READER_STATUS_ALL_READ)
  | Block_ready =>
      let '(ok, r') := take_block r b1 in
      if ok : bool then (Block (r_out_ptr r) (read_length b2 (r_out_ptr r)), r') else (Null, r')
  end.

(** ** Creation *)

(** [create_buffer]: [memory] and [garbage] are what [malloc] left in the blocks
    and in [written]. *)
Definition create_buffer (block_size_ block_count_ : Z) (memory : list (list Z)) (garbage : list Z)
    : capture_buffer :=
  mk_buffer block_size_ block_count_ false memory 0 0 false STATE_IDLE 0 0 0 0 garbage.

End Buffer.
