(* ===== verification/BufferSpec.v ===== *)
(** * The capture buffer with its writer and readers

    The threads that use a buffer, as a step relation whose steps are the
    critical sections of Buffer and the accesses outside them.  Ghost state
    records the blocks released in the present capture ([log]) and what each
    reader was given ([got]).  The theorems say that a reader is only ever given
    blocks of the log, in order and without a gap, that it is told how much it
    missed, and that it has the whole capture when its status says so. *)

From S2P Require Import Prelude Buffer.
From stdpp Require Import base numbers list list_numbers option gmap fin_maps relations.
Open Scope Z_scope.

Module BufferSpec.
Import Buffer.

(** A block as released: its bytes in memory and the length given. *)
Abbreviation block := (list Z * Z)%type.

(** Where a reader is in the sequence [get_read_block], use of the block,
    [check_read_block]. *)
Inductive phase :=
  | Closed                              (* before open_reader, after close_reader *)
  | Ready                               (* open, about to call get_read_block *)
  | Waited                              (* the wait found a block *)
  | Checked                             (* the block passed the check *)
  | Holding (length_ : Z)               (* get_read_block returned *)
  | Consumed (length_ : Z) (data : list Z).

Record client := mk_client {
  rst : reader_state;
  ph : phase;
  start : Z;          (* ghost: number of the first block to read *)
  pos : Z;            (* ghost: number of the block at out_ptr *)
  got : list block;   (* ghost: blocks confirmed by check_read_block *)
  lost : Z;           (* lost_bytes as returned by open_reader *)
}.

Record sys := mk_sys {
  buf : capture_buffer;
  log : list block;
  clients : gmap nat client;
}.

Definition set_client (s : sys) (i : nat) (c : client) : sys :=
  mk_sys (buf s) (log s) (<[i := c]> (clients s)).

(** The block [out_ptr] was at before [advance_reader]. *)
Definition current_ptr (b : capture_buffer) (r : reader_state) : Z :=
  if bool_decide (0 < r_out_ptr r) then r_out_ptr r - 1 else block_count b - 1.

(** Writer, readers, and their environment.  The guards are the conditions the
    callers ensure: the assertions written in the source, [arm_capture] for
    [start_write], the protocol of the reader interface in buffer.h, and two
    bounds of the environment: fewer than 2^32 readers, and fewer than 2^32
    rounds of the buffer in one capture. *)
Inductive step (margin : Z) : sys → sys → Prop :=
  | step_start s :
      state (buf s) = STATE_IDLE → active_count (buf s) = 0 →
      step margin s (mk_sys (start_write (buf s)) [] (clients s))
  | step_fill s data :
      state (buf s) = STATE_ACTIVE →
      step margin s (mk_sys (fill_write_block (buf s) data) (log s) (clients s))
  | step_release s data written_ :
      state (buf s) = STATE_ACTIVE →
      get_buffer (buf s) (in_ptr (buf s)) = Some data →
      Z.of_nat (S (length (log s))) < block_count (buf s) * 2 ^ 32 →
      step margin s (mk_sys (release_write_block (buf s) written_) (log s ++ [(data, written_)]) (clients s))
  | step_end s :
      state (buf s) = STATE_ACTIVE →
      step margin s (mk_sys (end_write (buf s)) (log s) (clients s))
  | step_shutdown s :
      step margin s (mk_sys (shutdown_buffer (buf s)) (log s) (clients s))
  | step_create s i r b :
      clients s !! i = None → Z.of_nat (S (size (clients s))) < 2 ^ 32 →
      create_reader (buf s) = (r, b) →
      step margin s (mk_sys b (log s) (<[i := mk_client r Closed 0 0 [] 0]> (clients s)))
  | step_destroy s i c :
      clients s !! i = Some c →
      step margin s (mk_sys (destroy_reader (rst c) (buf s)) (log s) (delete i (clients s)))
  | step_open s i c r lost_ n :
      clients s !! i = Some c → ph c = Closed →
      open_reader (rst c) margin (buf s) [] = Some (Some (r, lost_)) →
      (* the number of the first block, from its index and cycle *)
      n = r_buffer_cycle r * block_count (buf s) + r_out_ptr r →
      step margin s (set_client s i (mk_client r Ready n n [] lost_))
  | step_wait s i c :
      clients s !! i = Some c → ph c = Ready → r_status (rst c) = READER_STATUS_CLOSED →
      block_ready (rst c) (buf s) = Some Block_ready →
      step margin s (set_client s i (mk_client (rst c) Waited (start c) (pos c) (got c) (lost c)))
  | step_all_read s i c :
      clients s !! i = Some c → ph c = Ready → r_status (rst c) = READER_STATUS_CLOSED →
      block_ready (rst c) (buf s) = Some All_read →
      step margin s (set_client s i (mk_client
        (mk_reader (r_capture_cycle (rst c)) (r_buffer_cycle (rst c)) (r_out_ptr (rst c))
           READER_STATUS_ALL_READ) Ready (start c) (pos c) (got c) (lost c)))
  | step_take s i c ok r :
      clients s !! i = Some c → ph c = Waited →
      take_block (rst c) (buf s) = (ok, r) →
      step margin s (set_client s i (mk_client r (if ok : bool then Checked else Ready)
        (start c) (pos c + 1) (got c) (lost c)))
  | step_length s i c :
      clients s !! i = Some c → ph c = Checked →
      step margin s (set_client s i (mk_client (rst c)
        (Holding (read_length (buf s) (current_ptr (buf s) (rst c))))
        (start c) (pos c) (got c) (lost c)))
  | step_consume s i c length_ data :
      clients s !! i = Some c → ph c = Holding length_ →
      get_buffer (buf s) (current_ptr (buf s) (rst c)) = Some data →
      step margin s (set_client s i (mk_client (rst c) (Consumed length_ data)
        (start c) (pos c) (got c) (lost c)))
  | step_verify s i c length_ data ok r :
      clients s !! i = Some c → ph c = Consumed length_ data →
      check_read_block (rst c) (buf s) = (ok, r) →
      step margin s (set_client s i (mk_client r Ready (start c) (pos c)
        (if ok : bool then got c ++ [(data, length_)] else got c) (lost c)))
  | step_close s i c status r b :
      clients s !! i = Some c → ph c ≠ Closed →
      close_reader (rst c) (buf s) = (status, r, b) →
      step margin s (mk_sys b (log s) (<[i := mk_client r Closed (start c) (pos c) (got c) (lost c)]> (clients s))).

(** A buffer just created, without readers. *)
Inductive initial (N : Z) : sys → Prop :=
  initial_intro size_ memory garbage :
    length memory = Z.to_nat N → length garbage = Z.to_nat N →
    initial N (mk_sys (create_buffer size_ N memory garbage) [] ∅).

Definition reachable (N margin : Z) (s : sys) : Prop :=
  ∃ s0, initial N s0 ∧ rtc (step margin) s0 s.

(** ** The blocks of a capture *)

(** The length of block [k]; blocks that never were count as empty. *)
Definition len_at (l : list block) (k : Z) : Z :=
  if bool_decide (k < 0) then 0 else from_option snd 0 (l !! Z.to_nat k).
(** The number of bytes before block [k]. *)
Definition bytes_before (l : list block) (k : Z) : Z := zsum (snd <$> take (Z.to_nat k) l).
Abbreviation W l := (Z.of_nat (length l)).

Lemma bytes_before_succ l k :
  k < W l → bytes_before l (k + 1) = bytes_before l k + len_at l k.
Proof.
  intros Hk. unfold bytes_before, len_at. case_bool_decide as Hneg.
  - replace (Z.to_nat (k + 1)) with 0%nat by lia. by replace (Z.to_nat k) with 0%nat by lia.
  - destruct (lookup_lt_is_Some_2 l (Z.to_nat k)) as [x Hx]; [lia|]. rewrite Hx. simpl.
    replace (Z.to_nat (k + 1)) with (S (Z.to_nat k)) by lia.
    rewrite (take_S_r _ _ _ Hx), fmap_app, zsum_app. unfold zsum. simpl. lia.
Qed.

Lemma bytes_before_app l x k : k ≤ W l → bytes_before (l ++ [x]) k = bytes_before l k.
Proof. intros Hk. unfold bytes_before. rewrite take_app_le by lia. done. Qed.

Lemma len_at_app l x k : k < W l → len_at (l ++ [x]) k = len_at l k.
Proof.
  intros Hk. unfold len_at. case_bool_decide; [done|]. rewrite lookup_app_l by lia. done.
Qed.

(** Positions on the ring. *)
Lemma mod_close N a b : 0 < N → a mod N = b mod N → - N < a - b < N → a = b.
Proof.
  intros HN E Hd. pose proof (Z.div_mod a N) as Ha. pose proof (Z.div_mod b N) as Hb.
  rewrite E in Ha. assert (a - b = N * (a / N - b / N)) as Hm by lia.
  destruct (Z.eq_dec (a / N - b / N) 0) as [Hz|Hz]; [rewrite Hz in Hm; lia|]. nia.
Qed.

Lemma next_mod N a :
  0 < N → (if bool_decide (N ≤ a mod N + 1) then 0 else a mod N + 1) = (a + 1) mod N ∧
    (if bool_decide (N ≤ a mod N + 1) then a / N + 1 else a / N) = (a + 1) / N.
Proof.
  intros HN. pose proof (Z.mod_pos_bound a N HN). pose proof (Z.div_mod a N ltac:(lia)) as Ha.
  case_bool_decide; split.
  - apply (Z.mod_unique _ _ (a / N + 1)); lia.
  - apply (Z.div_unique _ _ _ 0); lia.
  - apply (Z.mod_unique _ _ (a / N)); lia.
  - apply (Z.div_unique _ _ _ (a mod N + 1)); lia.
Qed.

(** ** Overrun detection *)

Lemma u32_eq x y : u32 x = u32 y ↔ ∃ m, x - y = m * 2 ^ 32.
Proof. rewrite wrap_eq, Z.mod_divide by lia. done. Qed.

(** The test against the cycle counts is exact up to whole turns of the counter. *)
Lemma overrun_exact N w r :
  0 < N →
  check_overrun_ok (u32 (w / N)) (u32 (r / N)) (w mod N) (r mod N) = true ↔
  ∃ m, r < w - m * (N * 2 ^ 32) < r + N.
Proof.
  intros HN. pose proof (Z.mod_pos_bound w N HN) as Ha. pose proof (Z.mod_pos_bound r N HN) as Hb.
  pose proof (Z.div_mod w N ltac:(lia)) as Hw. pose proof (Z.div_mod r N ltac:(lia)) as Hr.
  set (a := w mod N) in *. set (b := r mod N) in *. set (qw := w / N) in *. set (qr := r / N) in *.
  assert (∀ t, 0 < a - b + N * t < N → (b < a ∧ t = 0) ∨ (a < b ∧ t = 1)) as Ht.
  { intros t Hd. destruct (decide (t = 0)); [lia|]. destruct (decide (t = 1)); [lia|]. nia. }
  unfold check_overrun_ok. rewrite wrap_add_l. split.
  - case_bool_decide; [done|]. case_bool_decide; intros E%bool_decide_eq_true%u32_eq; destruct E as [m Hm];
      exists m; [replace qw with (qr + m * 2 ^ 32) in * by lia|
                 replace qw with (qr + 1 + m * 2 ^ 32) in * by lia]; lia.
  - intros [m Hd]. destruct (Ht (qw - qr - m * 2 ^ 32)) as [[Hlt Hq]|[Hlt Hq]]; [lia|..].
    + rewrite bool_decide_false by lia. rewrite bool_decide_true by lia.
      apply bool_decide_eq_true, u32_eq. exists m. lia.
    + rewrite bool_decide_false by lia. rewrite bool_decide_false by lia.
      apply bool_decide_eq_true, u32_eq. exists m. lia.
Qed.

(** Within the bounds of a capture it is exact. *)
Lemma overrun_ok N w r :
  0 < N → 0 ≤ r ≤ w → w < N * 2 ^ 32 →
  check_overrun_ok (u32 (w / N)) (u32 (r / N)) (w mod N) (r mod N) = true ↔ r < w < r + N.
Proof.
  intros HN Hr Hw. rewrite overrun_exact by done. split; [|by exists 0; lia].
  intros [m Hm]. destruct (decide (m = 0)) as [->|]; [lia|]. nia.
Qed.

(** ** The ring *)

(** The state of the ring after the blocks of [l] have been released: the slot at
    [in_ptr] is the writer's, the others hold the last blocks. *)
Record ring_ok (N : Z) (b : capture_buffer) (l : list block) : Prop := {
  ring_bound : W l < N * 2 ^ 32;
  ring_in_ptr : in_ptr b = W l mod N;
  ring_cycle : buffer_cycle b = u32 (W l / N);
  ring_lost : lost_bytes b = u64 (bytes_before l (W l - N));
  ring_written k : W l - N ≤ k < W l → written b !! Z.to_nat (k mod N) = Some (len_at l k);
  ring_data k x : W l < k + N → 0 ≤ k → l !! Z.to_nat k = Some x →
    buffer b !! Z.to_nat (k mod N) = Some x.1;
}.

Record shape (N : Z) (b : capture_buffer) : Prop := {
  shape_count : block_count b = N;
  shape_buffer : length (buffer b) = Z.to_nat N;
  shape_written : length (written b) = Z.to_nat N;
}.

Section ring.
Context (N : Z) (HN : 0 < N).

Lemma mod_slot k : (Z.to_nat (k mod N) < Z.to_nat N)%nat.
Proof. pose proof (Z.mod_pos_bound k N HN). lia. Qed.

Lemma slot_ne k1 k2 : k1 ≠ k2 → - N < k1 - k2 < N → Z.to_nat (k1 mod N) ≠ Z.to_nat (k2 mod N).
Proof.
  intros Hne Hd E. apply Z2Nat.inj in E; [|apply Z.mod_pos_bound; lia..].
  by apply Hne, (mod_close N).
Qed.

Lemma start_write_ring b : shape N b → ring_ok N (start_write b) [].
Proof.
  intros [Hc _ _]. unfold start_write. split; simpl; try done.
  - lia.
  - unfold bytes_before. by rewrite take_nil.
  - intros k Hk. unfold len_at. rewrite bool_decide_true by lia.
    apply lookup_replicate. rewrite Hc. split; [done|apply mod_slot].
Qed.

Lemma fill_ring b l data : shape N b → ring_ok N b l → ring_ok N (fill_write_block b data) l.
Proof.
  intros Hs [H1 H2 H3 H4 H5 H6]. split; try done. simpl. intros k x Hk H0 Hx.
  rewrite H2. apply lookup_lt_Some in Hx as Hlt.
  rewrite list_lookup_insert_ne; [by apply H6|]. apply slot_ne; lia.
Qed.

Lemma release_ring b l data w :
  shape N b → ring_ok N b l → get_buffer b (in_ptr b) = Some data → W l + 1 < N * 2 ^ 32 →
  ring_ok N (release_write_block b w) (l ++ [(data, w)]).
Proof.
  intros [Hc Hsb Hsw] [H1 H2 H3 H4 H5 H6] Hdata Hbound.
  assert (W (l ++ [(data, w)]) = W l + 1) as EW by (rewrite length_app; simpl; lia).
  destruct (next_mod N (W l) HN) as [Em Ed].
  assert (written b !!! Z.to_nat (in_ptr b) = len_at l (W l - N)) as Ew.
  { rewrite H2. apply list_lookup_total_correct.
    replace (W l mod N) with ((W l - N) mod N) by (rewrite <-(Z.mod_add (W l - N) 1 N) by lia; f_equal; lia).
    apply H5. lia. }
  assert (release_write_block b w = mk_buffer (block_size b) N true (buffer b) (capture_cycle b)
    (u32 ((W l + 1) / N)) (shutdown b) (state b) (reader_count b) (active_count b)
    ((W l + 1) mod N) (u64 (bytes_before l (W l + 1 - N)))
    (<[Z.to_nat (W l mod N) := w]> (written b))) as ->.
  { unfold release_write_block. rewrite Ew, H2, H3, H4, Hc, <-Em, <-Ed, (wrap_add_l 64), <-bytes_before_succ by lia.
    replace (W l - N + 1) with (W l + 1 - N) by lia.
    case_bool_decide; [|done]. by rewrite wrap_add_l. }
  split; rewrite ?EW; simpl; [done..| | |].
  - by rewrite bytes_before_app by lia.
  - intros k Hk. destruct (decide (k = W l)) as [->|Hne].
    + rewrite list_lookup_insert_eq by (rewrite Hsw; apply mod_slot).
      unfold len_at. rewrite bool_decide_false by lia. rewrite Nat2Z.id, lookup_app_r by lia.
      by rewrite Nat.sub_diag.
    + rewrite len_at_app by lia. rewrite list_lookup_insert_ne by (apply slot_ne; lia).
      apply H5. lia.
  - intros k x Hk H0 Hx. destruct (decide (k = W l)) as [->|Hne].
    + rewrite Nat2Z.id, lookup_app_r, Nat.sub_diag in Hx by lia. simpl in Hx. simplify_eq.
      rewrite <-H2. apply Hdata.
    + pose proof (lookup_lt_Some _ _ _ Hx) as Hlt. rewrite length_app in Hlt. simpl in Hlt.
      rewrite lookup_app_l in Hx by lia. apply H6; [lia..|done].
Qed.

(** The loop of [count_lost_bytes], [j] blocks on. *)
Lemma lost_loop_spec b l fuel j n :
  shape N b → ring_ok N b l → 0 ≤ j ≤ n → n < N → n - j ≤ Z.of_nat fuel →
  lost_loop fuel b ((W l + j) mod N) ((W l + n) mod N) (u64 (bytes_before l (W l + j - N))) =
  Some (u64 (bytes_before l (W l + n - N))).
Proof.
  intros Hs [_ _ _ _ H5 _]. revert j. induction fuel as [|fuel IH]; intros j Hj Hn Hf; simpl.
  - assert (j = n) as -> by lia. by rewrite bool_decide_true.
  - case_bool_decide as E.
    + apply mod_close in E; [|lia..]. by replace j with n by lia.
    + assert (j ≠ n) as Hne by congruence.
      rewrite (shape_count _ _ Hs). destruct (next_mod N (W l + j) HN) as [-> _].
      replace (written b !!! _) with (len_at l (W l + j - N)).
      2:{ symmetry. apply list_lookup_total_correct.
          replace ((W l + j) mod N) with ((W l + j - N) mod N)
            by (rewrite <-(Z.mod_add (W l + j - N) 1 N) by lia; f_equal; lia).
          apply H5. lia. }
      rewrite wrap_add_l, <-bytes_before_succ by lia.
      replace (W l + j - N + 1) with (W l + (j + 1) - N) by lia.
      rewrite <-Z.add_assoc. apply IH; lia.
Qed.

(** Where a reader starts, and what it is told it missed. *)
Lemma reader_start_spec b l margin :
  shape N b → ring_ok N b l → 0 ≤ margin → margin + 1 < N →
  let R := if decide (W l + margin + 1 < N) then 0 else W l + margin + 1 - N in
  compute_reader_start b margin = Some (u32 (R / N), R mod N, u64 (bytes_before l R)) ∧
  0 ≤ R ≤ W l.
Proof.
  intros Hs Hr Hm HmN R. pose proof Hr as [H1 H2 H3 H4 H5 H6]. split; [|subst R; case_decide; lia].
  pose proof (Z.mod_pos_bound (W l) N HN) as Hmod. pose proof (Z.div_mod (W l) N ltac:(lia)) as Hdm.
  assert (0 ≤ W l / N < 2 ^ 32) as Hq.
  { split; [apply Z.div_pos; lia|]. apply Z.div_lt_upper_bound; lia. }
  unfold compute_reader_start. rewrite H2, H3, (shape_count _ _ Hs), (wrap_small 32 (W l / N)) by lia.
  destruct (decide (W l + margin + 1 < N)) as [Hlt|Hge].
  - assert (W l / N = 0) as Eq by (apply Z.div_small; lia).
    assert (W l mod N = W l) as Em by (apply Z.mod_small; lia).
    rewrite Eq, Em, !bool_decide_true by lia. simpl. subst R.
    by rewrite Z.div_0_l, Z.mod_0_l by lia.
  - assert (bool_decide (W l / N = 0) && bool_decide (W l mod N + margin + 1 < N) = false) as ->.
    { case_bool_decide as Hz; simpl; [|done]. rewrite Hz in Hdm. rewrite bool_decide_false by lia. done. }
    assert (count_lost_bytes b ((W l + (margin + 1)) mod N) = Some (u64 (bytes_before l R))) as Hlost.
    { unfold count_lost_bytes. rewrite (shape_count _ _ Hs), H2, H4.
      pose proof (lost_loop_spec b l (Z.to_nat N) 0 (margin + 1) Hs Hr) as Hl.
      rewrite Z.add_0_r in Hl. rewrite Hl by lia. do 3 f_equal. subst R. lia. }
    assert (R mod N = (W l + (margin + 1)) mod N) as ER.
    { subst R. rewrite <-(Z.mod_add (W l + margin + 1 - N) 1 N) by lia. f_equal. lia. }
    case_bool_decide as Hwrap.
    + assert (W l mod N + margin + 1 - N = R mod N ∧ W l / N = R / N) as [E1 E2].
      { subst R. split; [apply (Z.mod_unique _ _ (W l / N)); lia|].
        apply (Z.div_unique _ _ _ (W l mod N + margin + 1 - N)); lia. }
      rewrite E1, ER, Hlost. simpl. by rewrite <-E2, (wrap_small 32 (W l / N)) by lia.
    + assert (W l mod N + margin + 1 = R mod N ∧ W l / N - 1 = R / N) as [E1 E2].
      { subst R. split; [apply (Z.mod_unique _ _ (W l / N - 1)); lia|].
        apply (Z.div_unique _ _ _ (W l mod N + margin + 1)); lia. }
      rewrite E1, ER, Hlost. simpl. by rewrite <-E2.
Qed.

End ring.

(** ** Counting readers *)

Abbreviation cycle_of c := (r_capture_cycle (rst c)).

(** The readers that have yet to finish capture [cycle]. *)
Definition pending (cycle : Z) (m : gmap nat client) : Z :=
  Z.of_nat (size (filter (λ p, cycle_of p.2 = cycle) m)).
Definition at_cycle (cycle : Z) (c : client) : Z := if decide (cycle_of c = cycle) then 1 else 0.

Lemma pending_insert cycle m i c :
  m !! i = None → pending cycle (<[i := c]> m) = pending cycle m + at_cycle cycle c.
Proof.
  intros Hi. unfold pending, at_cycle. case_decide as E.
  - rewrite map_filter_insert_True by done. rewrite map_size_insert_None; [lia|].
    apply map_lookup_filter_None. by left.
  - rewrite map_filter_insert_not'; [lia|done|]. intros y Hy. congruence.
Qed.

Lemma pending_delete cycle m i c :
  m !! i = Some c → pending cycle (delete i m) = pending cycle m - at_cycle cycle c.
Proof.
  intros Hi. rewrite <-(insert_delete_id m i c Hi) at 2.
  rewrite pending_insert by apply lookup_delete_eq. lia.
Qed.

Lemma pending_update cycle m i c c' :
  m !! i = Some c →
  pending cycle (<[i := c']> m) = pending cycle m - at_cycle cycle c + at_cycle cycle c'.
Proof.
  intros Hi. rewrite <-insert_delete_eq, pending_insert by apply lookup_delete_eq.
  by rewrite (pending_delete _ _ _ _ Hi).
Qed.

Lemma pending_zero cycle m : pending cycle m = 0 → ∀ i c, m !! i = Some c → cycle_of c ≠ cycle.
Proof.
  unfold pending. intros Hz i c Hi E. assert (size (filter (λ p, cycle_of p.2 = cycle) m) = 0%nat) as Hs by lia.
  apply map_size_empty_inv in Hs. apply (f_equal (.!! i)) in Hs. rewrite lookup_empty in Hs.
  apply map_lookup_filter_None in Hs as [Hs|Hs]; [congruence|]. by apply (Hs c).
Qed.

Lemma pending_all cycle m :
  (∀ i c, m !! i = Some c → cycle_of c = cycle) → pending cycle m = Z.of_nat (size m).
Proof.
  intros Hall. unfold pending. rewrite map_filter_id; [done|]. intros i c Hi. by apply (Hall i).
Qed.

Lemma pending_bound cycle m : 0 ≤ pending cycle m ≤ Z.of_nat (size m).
Proof.
  unfold pending. pose proof (map_subseteq_size (filter (λ p, cycle_of p.2 = cycle) m) m).
  split; [lia|]. apply inj_le, H, map_filter_subseteq.
Qed.

Lemma size_delete_Z (m : gmap nat client) i c :
  m !! i = Some c → Z.of_nat (size (delete i m)) = Z.of_nat (size m) - 1.
Proof.
  intros Hi. rewrite <-(insert_delete_id m i c Hi) at 2.
  rewrite map_size_insert_None by apply lookup_delete_eq. lia.
Qed.

(** ** The invariant *)

(** What a reader in the middle of a block may rely on. *)
Definition phase_ok (N : Z) (l : list block) (c : client) : Prop :=
  let R := pos c - 1 in
  match ph c with
  | Closed => True
  | Ready | Waited => pos c ≤ W l ∧ pos c = start c + Z.of_nat (length (got c))
  | Checked => pos c ≤ W l ∧ R = start c + Z.of_nat (length (got c))
  | Holding n => pos c ≤ W l ∧ R = start c + Z.of_nat (length (got c)) ∧
      (W l < R + N → len_at l R = n)
  | Consumed n d => pos c ≤ W l ∧ R = start c + Z.of_nat (length (got c)) ∧
      (W l < R + N → l !! Z.to_nat R = Some (d, n))
  end.

Record client_ok (N : Z) (st : buffer_state) (l : list block) (c : client) : Prop := {
  co_cycle : r_buffer_cycle (rst c) = u32 (pos c / N);
  co_ptr : r_out_ptr (rst c) = pos c mod N;
  co_start : 0 ≤ start c ≤ W l ∧ 0 ≤ pos c;
  co_lost : lost c = u64 (bytes_before l (start c));
  co_got : got c = take (length (got c)) (drop (Z.to_nat (start c)) l);
  co_status :
    match r_status (rst c) with
    | READER_STATUS_CLOSED => phase_ok N l c
    | READER_STATUS_ALL_READ =>
        ph c = Ready ∧ pos c = W l ∧ pos c = start c + Z.of_nat (length (got c)) ∧ st = STATE_CLEARING
    | READER_STATUS_OVERRUN => ph c = Ready
    end;
}.

(** A reader is either done with this capture or still has to finish it. *)
Definition client_state (N : Z) (b : capture_buffer) (l : list block) (c : client) : Prop :=
  (ph c = Closed ∧ cycle_of c = u32 (capture_cycle b + 1)) ∨
  (cycle_of c = capture_cycle b ∧ (ph c = Closed ∨ client_ok N (state b) l c)).

Record inv (N : Z) (s : sys) : Prop := {
  inv_shape : shape N (buf s);
  inv_readers : reader_count (buf s) = Z.of_nat (size (clients s)) ∧ reader_count (buf s) < 2 ^ 32;
  inv_cycle : 0 ≤ capture_cycle (buf s) < 2 ^ 32;
  inv_idle : state (buf s) = STATE_IDLE → active_count (buf s) = 0 ∧
    ∀ i c, clients s !! i = Some c → ph c = Closed ∧ cycle_of c = capture_cycle (buf s);
  inv_busy : state (buf s) ≠ STATE_IDLE →
    active_count (buf s) = pending (capture_cycle (buf s)) (clients s) ∧
    ring_ok N (buf s) (log s) ∧
    ∀ i c, clients s !! i = Some c → client_state N (buf s) (log s) c;
  inv_clearing : state (buf s) = STATE_CLEARING → 0 < active_count (buf s);
}.

(** ** Every step keeps the invariant *)

Section steps.
Context (N margin : Z) (HN : 0 < N) (Hmargin : 0 ≤ margin) (HmN : margin + 1 < N).

Lemma next_cycle_ne x : 0 ≤ x < 2 ^ 32 → u32 (x + 1) ≠ x.
Proof. intros Hx E. rewrite <-(wrap_small 32 x) in E at 2 by lia. apply u32_eq in E as [m Hm]. lia. Qed.

Lemma advance_inv b l m :
  shape N b → reader_count b = Z.of_nat (size m) → reader_count b < 2 ^ 32 →
  0 ≤ capture_cycle b < 2 ^ 32 →
  active_count b = 0 → pending (capture_cycle b) m = 0 →
  (∀ i c, m !! i = Some c → client_state N b l c) → inv N (mk_sys (advance_capture b) l m).
Proof.
  intros Hs Hr1 Hr2 Hc Ha Hp Hcl. split; simpl; [by destruct Hs|done|by apply wrap_range| |done|done].
  intros _. split; [done|]. intros i c Hi. destruct (Hcl i c Hi) as [[? ?]|[E _]]; [done|].
  by destruct (pending_zero _ _ Hp i c Hi).
Qed.

Lemma complete_inv b l m :
  shape N b → reader_count b = Z.of_nat (size m) → reader_count b < 2 ^ 32 →
  0 ≤ capture_cycle b < 2 ^ 32 → state b ≠ STATE_IDLE →
  active_count b = pending (capture_cycle b) m + 1 → ring_ok N b l →
  (∀ i c, m !! i = Some c → client_state N b l c) → inv N (mk_sys (complete_capture b) l m).
Proof.
  intros Hs Hr1 Hr2 Hc Hst Ha Hring Hcl. pose proof (pending_bound (capture_cycle b) m) as Hb.
  assert (u32 (active_count b - 1) = pending (capture_cycle b) m) as Eu.
  { rewrite Ha, Z.add_simpl_r. apply wrap_small. lia. }
  unfold complete_capture. simpl. rewrite Eu.
  set (b' := set_control b _ _ _ _).
  assert (shape N b') by (by destruct Hs). assert (ring_ok N b' l) by (by destruct Hring).
  case_bool_decide as Hz; simpl; [case_bool_decide as Hclr; simpl|].
  - by apply advance_inv.
  - split; simpl; [done..|by intros ?|by intros _|by intros ?].
  - split; simpl; [done..|by intros ?|by intros _|]. intros _. lia.
Qed.

Lemma start_inv s :
  inv N s → state (buf s) = STATE_IDLE → inv N (mk_sys (start_write (buf s)) [] (clients s)).
Proof.
  intros [Hs [Hr1 Hr2] Hc Hi _ _] Hst. destruct (Hi Hst) as [_ Hcl].
  split; simpl; [|done|done|done| |done].
  - destruct Hs as [? ? ?]. split; simpl; [done..|]. by rewrite length_replicate, shape_count0.
  - intros _. split; [|split; [by apply start_write_ring|]].
    + rewrite pending_all; [done|]. intros i c Hic. by apply (Hcl i).
    + intros i c Hic. right. destruct (Hcl i c Hic). auto.
Qed.

Lemma busy_of_active s : state (buf s) = STATE_ACTIVE → state (buf s) ≠ STATE_IDLE.
Proof. congruence. Qed.

Lemma fill_inv s data :
  inv N s → state (buf s) = STATE_ACTIVE →
  inv N (mk_sys (fill_write_block (buf s) data) (log s) (clients s)).
Proof.
  intros [Hs Hr Hc Hi Hb Hcl] Hst. destruct (Hb (busy_of_active s Hst)) as (? & ? & ?).
  split; simpl; [|done|done|done| |done].
  - destruct Hs as [? ? ?]. split; simpl; [done| |done]. by rewrite length_insert.
  - intros _. split; [done|]. split; [by apply fill_ring|done].
Qed.

(** A reader keeps its place when the writer goes on. *)
Lemma client_ok_release l x c :
  client_ok N STATE_ACTIVE l c → client_ok N STATE_ACTIVE (l ++ [x]) c.
Proof.
  intros [H1 H2 [H3 H4] H5 H6 H7].
  assert (W (l ++ [x]) = W l + 1) as EW by (rewrite length_app; simpl; lia).
  assert (Z.of_nat (length (got c)) ≤ W l - start c) as Hlen.
  { apply (f_equal length) in H6. rewrite length_take, length_drop in H6. lia. }
  split; [done|done|lia| | |].
  - by rewrite bytes_before_app by lia.
  - rewrite H6 at 1. rewrite drop_app_le, take_app_le by (rewrite ?length_drop; lia). done.
  - destruct (r_status (rst c)); [by destruct H7 as (_&_&_&?)| |done].
    unfold phase_ok in *. rewrite EW. destruct (ph c); [done|lia|lia|lia| |].
    + destruct H7 as (?&?&H7). split_and!; [lia..|]. intros Hlt. rewrite len_at_app by lia. apply H7. lia.
    + destruct H7 as (?&?&H7). split_and!; [lia..|]. intros Hlt.
      rewrite lookup_app_l by lia. apply H7. lia.
Qed.

Lemma release_fields b w :
  shape N b → shape N (release_write_block b w) ∧
  capture_cycle (release_write_block b w) = capture_cycle b ∧ state (release_write_block b w) = state b ∧
  reader_count (release_write_block b w) = reader_count b ∧
  active_count (release_write_block b w) = active_count b.
Proof.
  intros [? ? ?]. unfold release_write_block. case_bool_decide; simpl; (split; [|done]);
    split; simpl; try done; by rewrite length_insert.
Qed.

Lemma release_inv s data w :
  inv N s → state (buf s) = STATE_ACTIVE → get_buffer (buf s) (in_ptr (buf s)) = Some data →
  Z.of_nat (S (length (log s))) < block_count (buf s) * 2 ^ 32 →
  inv N (mk_sys (release_write_block (buf s) w) (log s ++ [(data, w)]) (clients s)).
Proof.
  intros [Hs Hr Hc Hi Hb Hcl] Hst Hdata Hbound. destruct (Hb (busy_of_active s Hst)) as (Ha & Hring & Hcs).
  destruct (release_fields (buf s) w Hs) as (Hs' & E1 & E2 & E3 & E4).
  split; cbn [buf log clients]; rewrite ?E1, ?E2, ?E3, ?E4; [done..| |done].
  intros _. split; [done|]. split.
  - apply release_ring; [done..|]. rewrite (shape_count _ _ Hs) in Hbound. lia.
  - intros i c Hic. unfold client_state. rewrite E1, E2.
    destruct (Hcs i c Hic) as [?|[? [?|Hok]]]; [by left|by right; auto|].
    right. split; [done|]. right. rewrite Hst in *. by apply client_ok_release.
Qed.

Lemma client_state_ext b b' l c :
  capture_cycle b' = capture_cycle b →
  (state b' = state b ∨ state b = STATE_ACTIVE) → client_state N b l c → client_state N b' l c.
Proof.
  intros E1 E2 H. unfold client_state in *. rewrite E1. destruct H as [?|[? [?|Hok]]]; [by left|by right; auto|].
  right. split; [done|]. right. destruct E2 as [->|Ea]; [done|].
  destruct Hok as [? ? ? ? ? Hst]. split; try done. rewrite Ea in Hst.
  destruct (r_status (rst c)); [by destruct Hst as (_&_&_&?)|done..].
Qed.

Lemma end_inv s :
  inv N s → state (buf s) = STATE_ACTIVE → inv N (mk_sys (end_write (buf s)) (log s) (clients s)).
Proof.
  intros [Hs [Hr1 Hr2] Hc Hi Hb Hcl] Hst. destruct (Hb (busy_of_active s Hst)) as (Ha & Hring & Hcs).
  unfold end_write. case_bool_decide as Hpos.
  - split; simpl; [by destruct Hs|done|done|done| |done]. intros _. split; [done|].
    split; [by destruct Hring|]. intros i c Hic. apply (client_state_ext (buf s)); [done|by right|by apply (Hcs i)].
  - pose proof (pending_bound (capture_cycle (buf s)) (clients s)). apply advance_inv; (done || lia).
Qed.

Lemma shutdown_inv s : inv N s → inv N (mk_sys (shutdown_buffer (buf s)) (log s) (clients s)).
Proof.
  intros [Hs Hr Hc Hi Hb Hcl]. split; simpl; [by destruct Hs|done..| |done].
  intros Hst. destruct (Hb Hst) as (?&[]&?). done.
Qed.

(** Changes of one reader, with the buffer. *)
Lemma create_inv s i r b :
  inv N s → clients s !! i = None → Z.of_nat (S (size (clients s))) < 2 ^ 32 →
  create_reader (buf s) = (r, b) →
  inv N (mk_sys b (log s) (<[i := mk_client r Closed 0 0 [] 0]> (clients s))).
Proof.
  intros [Hs [Hr1 Hr2] Hc Hi Hb Hcl] Hnone Hsize E. unfold create_reader, add_reader in E. simplify_eq/=.
  set (c0 := mk_client _ _ _ _ _ _).
  assert (∀ cyc, pending cyc (<[i := c0]> (clients s)) = pending cyc (clients s) + at_cycle cyc c0) as Hp
    by (intros; by apply pending_insert).
  assert (size (<[i := c0]> (clients s)) = S (size (clients s))) as Hsz by (by apply map_size_insert_None).
  assert (u32 (reader_count (buf s) + 1) = Z.of_nat (S (size (clients s)))) as Eu
    by (rewrite wrap_small; lia).
  split; simpl; [by destruct Hs|rewrite Eu, Hsz; done|done| | |].
  - intros Hst. rewrite bool_decide_false by tauto. destruct (Hi Hst) as [Ha Hall]. split; [done|].
    intros j c [[<- <-]|[? Hj]]%lookup_insert_Some; [done|by apply (Hall j)].
  - intros Hst. destruct (Hb Hst) as (Ha & Hring & Hcs). rewrite bool_decide_true by done. split_and!.
    + rewrite Hp, Ha. unfold at_cycle. rewrite decide_True by done.
      pose proof (pending_bound (capture_cycle (buf s)) (clients s)). apply wrap_small. lia.
    + by destruct Hring.
    + intros j c [[<- <-]|[? Hj]]%lookup_insert_Some; [right; auto|]. by apply (Hcs j).
  - intros Hst. rewrite bool_decide_true by (by rewrite Hst).
    destruct (Hb ltac:(by rewrite Hst)) as (Ha & _ & _).
    pose proof (pending_bound (capture_cycle (buf s)) (clients s)). rewrite wrap_small; lia.
Qed.

Lemma destroy_inv s i c :
  inv N s → clients s !! i = Some c →
  inv N (mk_sys (destroy_reader (rst c) (buf s)) (log s) (delete i (clients s))).
Proof.
  intros [Hs [Hr1 Hr2] Hc Hi Hb Hcl] Hic. unfold destroy_reader, remove_reader.
  pose proof (size_delete_Z _ _ _ Hic) as Hsz. pose proof (pending_delete (capture_cycle (buf s)) _ _ _ Hic) as Hp.
  assert (u32 (reader_count (buf s) - 1) = Z.of_nat (size (delete i (clients s)))) as Eu.
  { rewrite Hsz, <-Hr1. apply wrap_small. lia. }
  assert (∀ j c', delete i (clients s) !! j = Some c' → clients s !! j = Some c') as Hsub.
  { intros j c' [_ Hj]%lookup_delete_Some. done. }
  simpl. rewrite Eu. set (b' := set_control _ _ _ _ _).
  assert (shape N b') as Hs' by (by destruct Hs).
  destruct (decide (state (buf s) = STATE_IDLE)) as [Hst|Hst].
  { rewrite (bool_decide_false (state (buf s) ≠ STATE_IDLE)) by tauto. simpl.
    destruct (Hi Hst) as [Ha Hall].
    split; simpl; [done|lia|done| |done|by rewrite Hst]. intros _. split; [done|].
    intros j c' Hj. apply (Hall j), Hsub. done. }
  destruct (Hb Hst) as (Ha & Hring & Hcs). rewrite (bool_decide_true (state (buf s) ≠ STATE_IDLE)) by done.
  assert (ring_ok N b' (log s)) as Hring' by (by destruct Hring).
  simpl. unfold at_cycle in Hp. case_bool_decide as E.
  - rewrite decide_True in Hp by done. apply complete_inv; simpl; [done|done|lia|done|done|lia|done|].
    intros j c' Hj. by apply (Hcs j), Hsub.
  - rewrite decide_False in Hp by done. split; simpl; [done|lia|done|done| |].
    + intros _. split; [lia|]. split; [done|]. intros j c' Hj. by apply (Hcs j), Hsub.
    + intros Hclr. apply Hcl, Hclr.
Qed.

Lemma close_inv s i c status r b :
  inv N s → clients s !! i = Some c → ph c ≠ Closed → close_reader (rst c) (buf s) = (status, r, b) →
  inv N (mk_sys b (log s) (<[i := mk_client r Closed (start c) (pos c) (got c) (lost c)]> (clients s))).
Proof.
  intros [Hs [Hr1 Hr2] Hc Hi Hb Hcl] Hic Hph E. unfold close_reader in E. simplify_eq.
  assert (state (buf s) ≠ STATE_IDLE) as Hst.
  { intros Hst. destruct (Hi Hst) as [_ Hall]. by destruct (Hall i c Hic). }
  destruct (Hb Hst) as (Ha & Hring & Hcs).
  destruct (Hcs i c Hic) as [[? _]|[Ecyc _]]; [done|].
  set (c' := mk_client _ _ _ _ _ _).
  pose proof (pending_update (capture_cycle (buf s)) (clients s) i c c' Hic) as Hp.
  unfold at_cycle in Hp. rewrite decide_True in Hp by done.
  rewrite decide_False in Hp by (simpl; rewrite Ecyc; by apply next_cycle_ne).
  apply complete_inv; [done| |done..|lia|done|].
  - by rewrite map_size_insert_Some by (by eexists).
  - intros j c'' [[<- <-]|[? Hj]]%lookup_insert_Some; [|by apply (Hcs j)].
    left. simpl. by rewrite Ecyc.
Qed.

(** A step of one reader that leaves the buffer alone. *)
Lemma local_inv s i c c' :
  inv N s → clients s !! i = Some c → state (buf s) ≠ STATE_IDLE →
  cycle_of c = capture_cycle (buf s) → cycle_of c' = cycle_of c →
  client_ok N (state (buf s)) (log s) c' → inv N (set_client s i c').
Proof.
  intros [Hs [Hr1 Hr2] Hc Hi Hb Hcl] Hic Hst Ecyc E' Hok. destruct (Hb Hst) as (Ha & Hring & Hcs).
  split; simpl; [done| |done|done| |done].
  - by rewrite map_size_insert_Some by (by eexists).
  - intros _. split_and!; [|done|].
    + rewrite Ha, (pending_update _ _ _ _ c' Hic). unfold at_cycle. rewrite E'. lia.
    + intros j c'' [[<- <-]|[? Hj]]%lookup_insert_Some; [|by apply (Hcs j)].
      right. rewrite E'. auto.
Qed.

(** The facts about an open reader. *)
Lemma open_client s i c :
  inv N s → clients s !! i = Some c → ph c ≠ Closed →
  state (buf s) ≠ STATE_IDLE ∧ cycle_of c = capture_cycle (buf s) ∧
  ring_ok N (buf s) (log s) ∧ client_ok N (state (buf s)) (log s) c.
Proof.
  intros [Hs Hr Hc Hi Hb Hcl] Hic Hph.
  assert (state (buf s) ≠ STATE_IDLE) as Hst.
  { intros Hst. destruct (Hi Hst) as [_ Hall]. by destruct (Hall i c Hic). }
  destruct (Hb Hst) as (Ha & Hring & Hcs).
  destruct (Hcs i c Hic) as [[? _]|[E [?|?]]]; by try done.
Qed.

Lemma open_inv s i c r lost_ :
  inv N s → clients s !! i = Some c → ph c = Closed →
  open_reader (rst c) margin (buf s) [] = Some (Some (r, lost_)) →
  let n := r_buffer_cycle r * block_count (buf s) + r_out_ptr r in
  inv N (set_client s i (mk_client r Ready n n [] lost_)).
Proof.
  intros Hinv Hic Hph E n. pose proof Hinv as [Hs Hr Hc Hi Hb Hcl].
  unfold open_reader in E. simpl in E. destruct (buffer_ready (rst c) (buf s)) as [ready|] eqn:Erdy; [|done].
  destruct ready; [|done]. unfold buffer_ready in Erdy. destruct (shutdown (buf s)); [done|].
  destruct (bool_decide (state (buf s) ≠ STATE_IDLE)) eqn:Hst; [|done]. apply bool_decide_eq_true in Hst.
  case_bool_decide as Ecyc; [|done]. destruct (Hb Hst) as (Ha & Hring & Hcs).
  destruct (reader_start_spec N HN (buf s) (log s) margin Hs Hring Hmargin HmN) as [Estart HR].
  set (R := if decide _ then _ else _) in *. rewrite Estart in E. simplify_eq/=.
  assert (0 ≤ R / N < 2 ^ 32) as Hq.
  { pose proof (ring_bound _ _ _ Hring).
    split; [apply Z.div_pos; lia|]. apply Z.div_lt_upper_bound; lia. }
  assert (n = R) as En.
  { subst n. rewrite (shape_count _ _ Hs), wrap_small by lia. rewrite Z.mul_comm. symmetry. apply Z.div_mod. lia. }
  apply (local_inv s i c); [done..|].
  split; simpl; rewrite ?En; [done|done|lia|done|done|]. unfold phase_ok. simpl. lia.
Qed.

Lemma take_inv s i c ok r :
  inv N s → clients s !! i = Some c → ph c = Waited → take_block (rst c) (buf s) = (ok, r) →
  inv N (set_client s i (mk_client r (if ok then Checked else Ready)
    (start c) (pos c + 1) (got c) (lost c))).
Proof.
  intros Hinv Hic Hph E. destruct (open_client s i c Hinv Hic) as (Hst & Ecyc & Hring & Hok); [by rewrite Hph|].
  pose proof (inv_shape _ _ Hinv) as Hs. destruct Hok as [H1 H2 [H3 H3'] H4 H5 H6].
  assert (r_status (rst c) = READER_STATUS_CLOSED ∧ pos c ≤ W (log s) ∧
    pos c = start c + Z.of_nat (length (got c))) as (Est & Hle & Hpos).
  { unfold phase_ok in H6. rewrite Hph in H6. destruct (r_status (rst c)); [by destruct H6|done|done]. }
  pose proof (overrun_ok N (W (log s)) (pos c) HN ltac:(lia) (ring_bound _ _ _ Hring)) as Hchk.
  destruct (next_mod N (pos c) HN) as [Em Ed].
  assert (r_out_ptr (advance_reader (rst c) (buf s)) = (pos c + 1) mod N ∧
    r_buffer_cycle (advance_reader (rst c) (buf s)) = u32 ((pos c + 1) / N) ∧
    r_capture_cycle (advance_reader (rst c) (buf s)) = cycle_of c ∧
    r_status (advance_reader (rst c) (buf s)) = READER_STATUS_CLOSED) as (A1 & A2 & A3 & A4).
  { unfold advance_reader. rewrite <-Em, <-Ed, (shape_count _ _ Hs), H1, H2.
    case_bool_decide; simpl; rewrite ?wrap_add_l; done. }
  unfold take_block, check_block_status in E.
  rewrite (ring_cycle _ _ _ Hring), (ring_in_ptr _ _ _ Hring), H1, H2 in E.
  destruct (check_overrun_ok _ _ _ _) eqn:Eok; simplify_eq; apply (local_inv s i c); try done;
    split; simpl; try done; try lia.
  - rewrite A4. unfold phase_ok. simpl. pose proof (proj1 Hchk eq_refl). lia.
Qed.

Lemma current_block s c :
  inv N s → r_out_ptr (rst c) = pos c mod N → r_buffer_cycle (rst c) = u32 (pos c / N) →
  current_ptr (buf s) (rst c) = (pos c - 1) mod N ∧
  check_read_block (rst c) (buf s) =
    check_block_status (rst c) (buf s) (u32 ((pos c - 1) / N)) ((pos c - 1) mod N).
Proof.
  intros Hinv H2 H1. pose proof (inv_shape _ _ Hinv) as Hs.
  destruct (next_mod N (pos c - 1) HN) as [Em Ed]. rewrite Z.sub_add in Em, Ed.
  pose proof (Z.mod_pos_bound (pos c - 1) N HN).
  unfold current_ptr, check_read_block. rewrite H1, H2, <-Em, <-Ed, (shape_count _ _ Hs).
  case_bool_decide as Hwrap.
  - rewrite !(bool_decide_false (0 < 0)) by lia. replace (N - 1) with ((pos c - 1) mod N) by lia.
    split; [done|]. f_equal. rewrite <-Z.add_opp_r, wrap_add_l. f_equal. lia.
  - rewrite !bool_decide_true by lia. split; [lia|]. f_equal. lia.
Qed.

Lemma mid_block s i c :
  inv N s → clients s !! i = Some c →
  (ph c = Checked ∨ (∃ n, ph c = Holding n) ∨ (∃ n d, ph c = Consumed n d)) →
  r_status (rst c) = READER_STATUS_CLOSED ∧ phase_ok N (log s) c ∧
  1 ≤ pos c ≤ W (log s) ∧ pos c - 1 = start c + Z.of_nat (length (got c)).
Proof.
  intros Hinv Hic Hph. destruct (open_client s i c Hinv Hic) as (_ & _ & _ & [_ _ ? _ _ Hst]).
  { by destruct Hph as [->|[[? ->]|(? & ? & ->)]]. }
  destruct (r_status (rst c)).
  - destruct Hst as [E _]. rewrite E in Hph. naive_solver.
  - split; [done|]. split; [done|]. unfold phase_ok in Hst. destruct Hph as [E|[[? E]|(? & ? & E)]]; rewrite E in Hst; lia.
  - rewrite Hst in Hph. naive_solver.
Qed.

Lemma length_inv s i c :
  inv N s → clients s !! i = Some c → ph c = Checked →
  inv N (set_client s i (mk_client (rst c)
    (Holding (read_length (buf s) (current_ptr (buf s) (rst c)))) (start c) (pos c) (got c) (lost c))).
Proof.
  intros Hinv Hic Hph. destruct (open_client s i c Hinv Hic) as (Hst & Ecyc & Hring & Hok); [by rewrite Hph|].
  destruct (mid_block s i c Hinv Hic) as (Est & _ & Hpos & HR); [by left|].
  destruct Hok as [H1 H2 H3 H4 H5 _]. destruct (current_block s c Hinv H2 H1) as [-> _].
  apply (local_inv s i c); [done..|]. split; simpl; [done..|]. rewrite Est. unfold phase_ok. simpl.
  split_and!; [lia..|]. intros Hlt. unfold read_length. symmetry. apply list_lookup_total_correct.
  apply (ring_written _ _ _ Hring). lia.
Qed.

Lemma consume_inv s i c n d :
  inv N s → clients s !! i = Some c → ph c = Holding n →
  get_buffer (buf s) (current_ptr (buf s) (rst c)) = Some d →
  inv N (set_client s i (mk_client (rst c) (Consumed n d) (start c) (pos c) (got c) (lost c))).
Proof.
  intros Hinv Hic Hph Hd. destruct (open_client s i c Hinv Hic) as (Hst & Ecyc & Hring & Hok); [by rewrite Hph|].
  destruct (mid_block s i c Hinv Hic) as (Est & Hp & Hpos & HR); [right; left; by eexists|].
  destruct Hok as [H1 H2 H3 H4 H5 _]. destruct (current_block s c Hinv H2 H1) as [E _]. rewrite E in Hd.
  apply (local_inv s i c); [done..|]. split; simpl; [done..|]. rewrite Est.
  unfold phase_ok in *. simpl. rewrite Hph in Hp. destruct Hp as (_ & _ & Hlen).
  split_and!; [lia..|]. intros Hlt. specialize (Hlen Hlt).
  destruct (lookup_lt_is_Some_2 (log s) (Z.to_nat (pos c - 1))) as [[d' n'] Hx]; [lia|].
  pose proof (ring_data _ _ _ Hring (pos c - 1) _ Hlt ltac:(lia) Hx) as Hdata.
  unfold get_buffer in Hd. unfold len_at in Hlen. rewrite bool_decide_false, Hx in Hlen by lia.
  simpl in *. congruence.
Qed.

Lemma verify_inv s i c n d ok r :
  inv N s → clients s !! i = Some c → ph c = Consumed n d → check_read_block (rst c) (buf s) = (ok, r) →
  inv N (set_client s i (mk_client r Ready (start c) (pos c)
    (if ok then got c ++ [(d, n)] else got c) (lost c))).
Proof.
  intros Hinv Hic Hph E. destruct (open_client s i c Hinv Hic) as (Hst & Ecyc & Hring & Hok); [by rewrite Hph|].
  destruct (mid_block s i c Hinv Hic) as (Est & Hp & Hpos & HR); [right; right; by eexists _, _|].
  destruct Hok as [H1 H2 H3 H4 H5 _]. destruct (current_block s c Hinv H2 H1) as [_ Echk]. rewrite Echk in E.
  unfold check_block_status in E. rewrite (ring_cycle _ _ _ Hring), (ring_in_ptr _ _ _ Hring) in E.
  pose proof (overrun_ok N (W (log s)) (pos c - 1) HN ltac:(lia) (ring_bound _ _ _ Hring)) as Hchk.
  destruct (check_overrun_ok _ _ _ _); simplify_eq; apply (local_inv s i c); try done; split; simpl; try done.
  - unfold phase_ok in Hp. rewrite Hph in Hp. destruct Hp as (_ & _ & Hx).
    specialize (Hx ltac:(pose proof (proj1 Hchk eq_refl); lia)).
    rewrite length_app, Nat.add_1_r, (take_S_r _ _ (d, n)); [by rewrite <-H5|].
    rewrite lookup_drop, <-Hx. f_equal. lia.
  - rewrite Est. unfold phase_ok. simpl. rewrite length_app. simpl. lia.
Qed.

Lemma wait_inv s i c :
  inv N s → clients s !! i = Some c → ph c = Ready → r_status (rst c) = READER_STATUS_CLOSED →
  inv N (set_client s i (mk_client (rst c) Waited (start c) (pos c) (got c) (lost c))).
Proof.
  intros Hinv Hic Hph Est. destruct (open_client s i c Hinv Hic) as (Hst & Ecyc & Hring & Hok); [by rewrite Hph|].
  destruct Hok as [H1 H2 H3 H4 H5 H6]. apply (local_inv s i c); [done..|].
  split; simpl; [done..|]. rewrite Est in *. unfold phase_ok in *. simpl. by rewrite Hph in H6.
Qed.

Lemma all_read_inv s i c :
  inv N s → clients s !! i = Some c → ph c = Ready → r_status (rst c) = READER_STATUS_CLOSED →
  block_ready (rst c) (buf s) = Some All_read →
  inv N (set_client s i (mk_client
    (mk_reader (cycle_of c) (r_buffer_cycle (rst c)) (r_out_ptr (rst c)) READER_STATUS_ALL_READ)
    Ready (start c) (pos c) (got c) (lost c))).
Proof.
  intros Hinv Hic Hph Est E. destruct (open_client s i c Hinv Hic) as (Hst & Ecyc & Hring & Hok); [by rewrite Hph|].
  destruct Hok as [H1 H2 [H3 H3'] H4 H5 H6]. apply (local_inv s i c); [done..|].
  split; simpl; [done..|]. rewrite Est in H6. unfold phase_ok in H6. rewrite Hph in H6.
  unfold block_ready in E. destruct (shutdown (buf s)); [done|].
  rewrite (ring_cycle _ _ _ Hring), (ring_in_ptr _ _ _ Hring), H1, H2 in E.
  destruct (bool_decide (u32 _ = u32 _)) eqn:E1; [|done].
  destruct (bool_decide (_ mod N = _)) eqn:E2; [|done]. simpl in E.
  case_bool_decide as Hclr; [|done]. apply bool_decide_eq_true in E1, E2.
  pose proof (ring_bound _ _ _ Hring).
  rewrite !wrap_small in E1 by (split; [apply Z.div_pos; lia|apply Z.div_lt_upper_bound; lia]).
  pose proof (Z.div_mod (W (log s)) N ltac:(lia)). pose proof (Z.div_mod (pos c) N ltac:(lia)).
  split_and!; [done| |lia|done]. rewrite E1, E2 in *. lia.
Qed.

Lemma sys_step_inv s s' : inv N s → step margin s s' → inv N s'.
Proof.
  intros Hinv Hstep. destruct Hstep; subst; eauto using start_inv, fill_inv, release_inv, end_inv,
    shutdown_inv, create_inv, destroy_inv, open_inv, wait_inv, all_read_inv, take_inv, length_inv,
    consume_inv, verify_inv, close_inv.
Qed.

Lemma ring_initial_inv s : initial N s → inv N s.
Proof.
  destruct 1 as [size_ memory garbage Hm Hg]. split; simpl; [by split|..]; try done.
Qed.

Lemma reachable_inv s : reachable N margin s → inv N s.
Proof.
  intros (s0 & H0 & Hsteps). apply ring_initial_inv in H0. induction Hsteps; eauto using sys_step_inv.
Qed.

(** ** What the buffer promises *)

(** C7: at every moment of every interleaving, the blocks confirmed to an open
    reader are the blocks released by the writer, in order and without a gap,
    from the reader's starting point on, and the number of lost bytes it was told
    is the number of bytes before that point. *)
Theorem reader_gets_log s i c :
  reachable N margin s → clients s !! i = Some c → ph c ≠ Closed →
  got c `prefix_of` drop (Z.to_nat (start c)) (log s) ∧
  lost c = u64 (bytes_before (log s) (start c)).
Proof.
  intros Hr%reachable_inv Hic Hph. destruct (open_client s i c Hr Hic Hph) as (_ & _ & _ & Hok).
  split; [|apply Hok]. rewrite (co_got _ _ _ _ Hok). apply prefix_take.
Qed.

(** A reader whose status is "all read" has been given the whole of the rest
    of the capture, and the writer has finished. *)
Theorem reader_all_read s i c :
  reachable N margin s → clients s !! i = Some c → ph c ≠ Closed →
  r_status (rst c) = READER_STATUS_ALL_READ →
  got c = drop (Z.to_nat (start c)) (log s) ∧ state (buf s) = STATE_CLEARING.
Proof.
  intros Hr%reachable_inv Hic Hph Est. destruct (open_client s i c Hr Hic Hph) as (_ & _ & _ & Hok).
  destruct Hok as [_ _ [? _] _ Hgot Hst]. rewrite Est in Hst. destruct Hst as (_ & ? & ? & ?).
  split; [|done]. rewrite Hgot. apply take_ge. rewrite length_drop. lia.
Qed.

(** [reader_count] is the number of readers and [active_count] the number of
    readers that have yet to finish the capture; the buffer only stays in the
    clearing state while there is one. *)
Theorem reader_counts_exact s :
  reachable N margin s →
  reader_count (buf s) = Z.of_nat (size (clients s)) ∧
  active_count (buf s) =
    (if decide (state (buf s) = STATE_IDLE) then 0 else pending (capture_cycle (buf s)) (clients s)) ∧
  (state (buf s) = STATE_CLEARING → 0 < active_count (buf s)).
Proof.
  intros Hr%reachable_inv. destruct Hr as [_ [? _] _ Hi Hb Hc]. split_and!; [done| |done].
  case_decide as Hst; [by apply Hi|by apply Hb].
Qed.

(** Once data has been released, [open_reader] succeeds for a reader that has
    not had this capture yet: it starts at the first block if that leaves the
    margin asked for, and otherwise as far back as the margin allows. *)
Theorem open_reader_start s i c wakeups :
  reachable N margin s → clients s !! i = Some c → cycle_of c = capture_cycle (buf s) →
  state (buf s) ≠ STATE_IDLE → shutdown (buf s) = false → released_once (buf s) = true →
  let W := Z.of_nat (length (log s)) in
  let R := if decide (W + margin + 1 < N) then 0 else W + margin + 1 - N in
  open_reader (rst c) margin (buf s) wakeups =
    Some (Some (mk_reader (cycle_of c) (u32 (R / N)) (R mod N) READER_STATUS_CLOSED,
                u64 (bytes_before (log s) R))) ∧ 0 ≤ R ≤ W.
Proof.
  intros Hr%reachable_inv Hic Ecyc Hst Hsd Hrel. destruct (inv_busy _ _ Hr Hst) as (_ & Hring & _).
  destruct (reader_start_spec N HN _ _ margin (inv_shape _ _ Hr) Hring Hmargin HmN) as [Estart HR].
  cbv zeta. split; [|done]. unfold open_reader.
  assert (wait_for_buffer_ready (rst c) (buf s) wakeups = (true, buf s)) as ->.
  { unfold wait_for_buffer_ready, buffer_ready. destruct wakeups;
      by rewrite Hsd, (bool_decide_true (_ ≠ _)), Ecyc, bool_decide_true, Hrel by done. }
  rewrite Estart. simpl. by rewrite Ecyc.
Qed.

End steps.

(** [open_reader] does not wait for the first block of a capture that has
    started: it returns false at once, whatever the time-out. *)
Theorem open_reader_no_wait r read_margin b wakeups :
  state b ≠ STATE_IDLE → capture_cycle b = r_capture_cycle r → shutdown b = false →
  released_once b = false → open_reader r read_margin b wakeups = Some None.
Proof.
  intros Hst Ecyc Hsd Hrel. unfold open_reader.
  assert (wait_for_buffer_ready r b wakeups = (false, b)) as ->; [|done].
  unfold wait_for_buffer_ready, buffer_ready.
  destruct wakeups; by rewrite Hsd, (bool_decide_true (_ ≠ _)), Ecyc, bool_decide_true, Hrel by done.
Qed.

(** [check_overrun_ok] accepts a block exactly when the writer has finished it
    and is not yet a whole buffer ahead, up to turns of the 32-bit cycle count. *)
Theorem check_overrun_exact N w r :
  0 < N →
  check_overrun_ok (u32 (w / N)) (u32 (r / N)) (w mod N) (r mod N) = true ↔
  ∃ m, r < w - m * (N * 2 ^ 32) < r + N.
Proof. apply overrun_exact. Qed.

(** The waits of the source only look: they end in a state in which one turn of
    the loop ends, or at the time-out. *)
Lemma wait_for_block_ready_seen r b wakeups :
  (wait_for_block_ready r b wakeups = Timeout ∧ Forall (λ b, block_ready r b = None) (b :: wakeups)) ∨
  ∃ b', b' ∈ b :: wakeups ∧ block_ready r b' = Some (wait_for_block_ready r b wakeups).
Proof.
  revert b. induction wakeups as [|b1 wakeups IH]; intros b; simpl;
    (destruct (block_ready r b) as [w|] eqn:E; [right; exists b; split; [by left|done]|]).
  - left. auto.
  - destruct (IH b1) as [[-> Hall]|(b' & Hin & Hb')]; [left; auto|].
    right. exists b'. split; [by right|done].
Qed.

(** ** One reader, one block *)

Section example.
Definition run0 : sys := mk_sys (create_buffer 2 4 [[]; []; []; []] [9; 9; 9; 9]) [] ∅.
Definition reader0 : reader_state := mk_reader 0 0 0 READER_STATUS_ALL_READ.
Definition run1 : sys :=
  mk_sys (create_reader (buf run0)).2 [] {[0%nat := mk_client reader0 Closed 0 0 [] 0]}.
Definition run2 : sys := mk_sys (start_write (buf run1)) [] (clients run1).
Definition run3 : sys := mk_sys (fill_write_block (buf run2) [17; 42]) [] (clients run2).
Definition run4 : sys := mk_sys (release_write_block (buf run3) 2) [([17; 42], 2)] (clients run3).
Abbreviation with_reader s cycle out status ph pos got :=
  (mk_sys (buf s) (log s) {[0%nat := mk_client (mk_reader 0 cycle out status) ph 0 pos got 0]}).
Definition run5 : sys := with_reader run4 0 0 READER_STATUS_CLOSED Ready 0 [].
Definition run6 : sys := with_reader run5 0 0 READER_STATUS_CLOSED Waited 0 [].
Definition run7 : sys := with_reader run6 0 1 READER_STATUS_CLOSED Checked 1 [].
Definition run8 : sys := with_reader run7 0 1 READER_STATUS_CLOSED (Holding 2) 1 [].
Definition run9 : sys := with_reader run8 0 1 READER_STATUS_CLOSED (Consumed 2 [17; 42]) 1 [].
Definition run10 : sys := with_reader run9 0 1 READER_STATUS_CLOSED Ready 1 [([17; 42], 2)].
Definition run11 : sys := mk_sys (end_write (buf run10)) (log run10) (clients run10).
Definition run12 : sys := with_reader run11 0 1 READER_STATUS_ALL_READ Ready 1 [([17; 42], 2)].

Lemma run4_reachable : reachable 4 1 run4.
Proof.
  exists run0. split; [by constructor|].
  eapply rtc_l; [eapply (step_create 1 run0 0); [done|by vm_compute|done]|]. change (rtc (step 1) run1 run4).
  eapply rtc_l; [by apply (step_start 1 run1)|]. change (rtc (step 1) run2 run4).
  eapply rtc_l; [by apply (step_fill 1 run2 [17; 42])|]. change (rtc (step 1) run3 run4).
  eapply rtc_l; [by apply (step_release 1 run3 [17; 42] 2)|]. change (rtc (step 1) run4 run4).
  done.
Qed.

Lemma run12_reachable : reachable 4 1 run12.
Proof.
  destruct run4_reachable as (s0 & Hi & Hs). exists s0. split; [done|]. etransitivity; [exact Hs|].
  eapply rtc_l; [by eapply (step_open 1 run4 0)|]. change (rtc (step 1) run5 run12).
  eapply rtc_l; [by eapply (step_wait 1 run5 0)|]. change (rtc (step 1) run6 run12).
  eapply rtc_l; [by eapply (step_take 1 run6 0)|]. change (rtc (step 1) run7 run12).
  eapply rtc_l; [by eapply (step_length 1 run7 0)|]. change (rtc (step 1) run8 run12).
  eapply rtc_l; [by eapply (step_consume 1 run8 0)|]. change (rtc (step 1) run9 run12).
  eapply rtc_l; [by eapply (step_verify 1 run9 0)|]. change (rtc (step 1) run10 run12).
  eapply rtc_l; [by apply (step_end 1 run10)|]. change (rtc (step 1) run11 run12).
  eapply rtc_l; [by eapply (step_all_read 1 run11 0)|]. done.
Qed.

Abbreviation client12 :=
  (mk_client (mk_reader 0 0 1 READER_STATUS_ALL_READ) Ready 0 1 [([17; 42], 2)] 0).

Lemma reader_gets_log_witness : got client12 `prefix_of` log run12.
Proof.
  apply (reader_gets_log 4 1 ltac:(lia) ltac:(lia) ltac:(lia) run12 0 client12 run12_reachable); done.
Defined.

Lemma reader_all_read_witness : got client12 = log run12.
Proof.
  apply (reader_all_read 4 1 ltac:(lia) ltac:(lia) ltac:(lia) run12 0 client12 run12_reachable); done.
Defined.

Lemma reader_counts_exact_witness : reader_count (buf run12) = 1 ∧ 0 < active_count (buf run12).
Proof.
  destruct (reader_counts_exact 4 1 ltac:(lia) ltac:(lia) ltac:(lia) run12 run12_reachable) as (-> & _ & Hc).
  split; [by vm_compute|]. by apply Hc.
Defined.

Lemma open_reader_start_witness :
  open_reader reader0 1 (buf run4) [] = Some (Some (mk_reader 0 0 0 READER_STATUS_CLOSED, 0)).
Proof.
  apply (open_reader_start 4 1 ltac:(lia) ltac:(lia) ltac:(lia) run4 0
    (mk_client reader0 Closed 0 0 [] 0) [] run4_reachable); done.
Defined.

Lemma open_reader_no_wait_witness : open_reader reader0 1 (buf run3) [buf run4] = Some None.
Proof. by apply (open_reader_no_wait reader0 1 (buf run3) [buf run4]). Defined.

Lemma check_overrun_exact_witness : check_overrun_ok 1 0 1 3 = true.
Proof. apply (proj2 (check_overrun_exact 4 5 3 ltac:(lia))). exists 0. lia. Defined.
End example.

End BufferSpec.
