(* ===== verification/StdDev.v ===== *)
(** * Standard deviation: panda-server/server/std_dev.c

    The 96-bit integer part of the computation and its exactness, with the three
    overlapping views of the union [unaligned_uint96_t], and the final floating
    point steps in the binary64 arithmetic of SpecFloat. *)

From S2P Require Import Prelude.
From Stdlib Require Import SpecFloat.
From stdpp Require Import base numbers list list_numbers.
Open Scope Z_scope.

(** ** Double precision *)

Module Double.

Abbreviation double := spec_float.

Definition of_Z (x : Z) : double := binary_normalize 53 1024 x 0 false.
Definition add : double → double → double := SFadd 53 1024.
Definition sub : double → double → double := SFsub 53 1024.
Definition mul : double → double → double := SFmul 53 1024.
Definition div : double → double → double := SFdiv 53 1024.
Definition sqrt : double → double := SFsqrt 53 1024.
Definition ldexp : double → Z → double := SFldexp 53 1024.
Definition ltb : double → double → bool := SFltb.
Definition NAN : double := S754_nan.

End Double.

Module StdDev.
Import Double.

(** [unaligned_uint96_t]: three words, least significant first, and the two ways
    the code looks at them. *)
Record uint96 := mk_uint96 { values_0 : Z; values_1 : Z; values_2 : Z }.

Definition low_word_64 (a : uint96) : Z := values_0 a + 2 ^ 32 * values_1 a.
Definition high_word_64 (a : uint96) : Z := values_1 a + 2 ^ 32 * values_2 a.
Definition set_low_word_64 (a : uint96) (x : Z) : uint96 :=
  mk_uint96 (u32 x) (u32 (Z.shiftr x 32)) (values_2 a).
Definition set_high_word_32 (a : uint96) (x : Z) : uint96 := mk_uint96 (values_0 a) (values_1 a) x.
Definition set_high_word_64 (a : uint96) (x : Z) : uint96 :=
  mk_uint96 (values_0 a) (u32 x) (u32 (Z.shiftr x 32)).

(** [abs_64]; [-x] has no meaning for the least 64-bit integer. *)
Definition abs_64 (x : Z) : outcome Z :=
  _ ← in_range (bool_decide (x ≠ - 2 ^ 63));
  Ret (u64 (if bool_decide (0 ≤ x) then x else - x)).

(** [div_rem_64_32]: whether the division is good, the quotient, the remainder. *)
Definition div_rem_64_32 (b n : Z) : bool * Z * Z :=
  let div := b / n in
  let rem := u64 (b - u64 (n * div)) in
  (bool_decide (Z.shiftr div 32 = 0), u32 div, u32 rem).

(** [mul_sub_96_64_32] as compiled by gcc 5 and later, and the portable fall-back:
    they differ in how the borrow is found. *)
Definition mul_sub_96_64_32 (a : uint96) (b c : Z) : uint96 :=
  let bl_c := u64 (Z.land b 0xFFFFFFFF * c) in
  let borrow := bool_decide (low_word_64 a < bl_c) in
  let a := set_low_word_64 a (u64 (low_word_64 a - bl_c)) in
  let a := set_high_word_32 a (u32 (values_2 a - Z.b2z borrow)) in
  let bh_c := u64 (Z.shiftr b 32 * c) in
  set_high_word_64 a (u64 (high_word_64 a - bh_c)).
Definition mul_sub_fallback (a : uint96) (b c : Z) : uint96 :=
  let bl_c := u64 (Z.land b 0xFFFFFFFF * c) in
  let difference := u64 (low_word_64 a - bl_c) in
  let borrow := bool_decide (low_word_64 a < difference) in
  let a := set_low_word_64 a difference in
  let a := set_high_word_32 a (u32 (values_2 a - Z.b2z borrow)) in
  let bh_c := u64 (Z.shiftr b 32 * c) in
  set_high_word_64 a (u64 (high_word_64 a - bh_c)).

Definition uint96_to_double (a : uint96) : double :=
  let result := of_Z (values_2 a) in
  let result := add (ldexp result 32) (of_Z (values_1 a)) in
  add (ldexp result 32) (of_Z (values_0 a)).

(** [compute_standard_deviation]. *)
Definition compute_standard_deviation (samples raw_sum_values : Z) (raw_sum_squares : uint96)
    : outcome double :=
  if bool_decide (samples = 0) then Ret NAN else
  sum_values ← abs_64 raw_sum_values;
  let '(ok, sum_mean, sum_rem) := div_rem_64_32 sum_values samples in
  if negb ok then Ret NAN else
  let sum_squares := mul_sub_96_64_32 raw_sum_squares (u64 (sum_values + sum_rem)) sum_mean in
  let r2_n := div (of_Z (u64 (sum_rem * sum_rem))) (of_Z samples) in
  let n_s2 := sub (uint96_to_double sum_squares) r2_n in
  if ltb n_s2 (of_Z 0) then Ret NAN else Ret (sqrt (div n_s2 (of_Z samples))).

(** ** The value of a 96-bit word *)

Record uint96_wf (a : uint96) : Prop := {
  wf_0 : 0 ≤ values_0 a < 2 ^ 32;
  wf_1 : 0 ≤ values_1 a < 2 ^ 32;
  wf_2 : 0 ≤ values_2 a < 2 ^ 32;
}.
Definition value96 (a : uint96) : Z :=
  values_0 a + 2 ^ 32 * values_1 a + 2 ^ 64 * values_2 a.

(** The words of a number. *)
Definition of_value (x : Z) : uint96 :=
  mk_uint96 (u32 x) (u32 (Z.shiftr x 32)) (u32 (Z.shiftr x 64)).

Lemma of_value_spec x : 0 ≤ x < 2 ^ 96 → uint96_wf (of_value x) ∧ value96 (of_value x) = x.
Proof.
  intros Hx. split; [split; apply wrap_range; lia|]. unfold value96, of_value. simpl.
  rewrite !Z.shiftr_div_pow2 by lia. unfold wrap.
  pose proof (Z.div_mod x (2 ^ 32) ltac:(lia)). pose proof (Z.div_mod (x / 2 ^ 32) (2 ^ 32) ltac:(lia)).
  assert (x / 2 ^ 64 = x / 2 ^ 32 / 2 ^ 32) as E by (rewrite Z.div_div by lia; done).
  rewrite E. rewrite (Z.mod_small (x / 2 ^ 32 / 2 ^ 32)); [lia|].
  rewrite Z.div_div by lia. split; [apply Z.div_pos; lia|]. apply Z.div_lt_upper_bound; lia.
Qed.

(** Splitting a 64-bit word in two. *)
Lemma split_words x : 0 ≤ x < 2 ^ 64 →
  0 ≤ u32 x < 2 ^ 32 ∧ 0 ≤ u32 (Z.shiftr x 32) < 2 ^ 32 ∧ u32 x + 2 ^ 32 * u32 (Z.shiftr x 32) = x.
Proof.
  intros Hx. rewrite Z.shiftr_div_pow2 by lia.
  assert (0 ≤ x / 2 ^ 32 < 2 ^ 32) as Hd.
  { split; [apply Z.div_pos; lia|]. apply Z.div_lt_upper_bound; lia. }
  rewrite (wrap_small 32 (x / 2 ^ 32)) by done. split; [apply wrap_range; lia|]. split; [done|].
  unfold wrap. pose proof (Z.div_mod x (2 ^ 32)). lia.
Qed.

Lemma wrap_below w x : 0 ≤ w → 0 ≤ x + 2 ^ w → x < 0 → wrap w x = x + 2 ^ w.
Proof.
  intros Hw H1 H2. rewrite <-(wrap_small w (x + 2 ^ w)) by lia. unfold wrap.
  rewrite <-(Z.mod_add x 1 (2 ^ w)) by lia. f_equal. lia.
Qed.

(** Subtraction with the borrow written out. *)
Lemma sub_borrow w x y :
  0 ≤ w → 0 ≤ x < 2 ^ w → 0 ≤ y < 2 ^ w →
  wrap w (x - y) = x - y + 2 ^ w * Z.b2z (bool_decide (x < y)).
Proof.
  intros Hw Hx Hy. case_bool_decide; simpl.
  - rewrite wrap_below by lia. lia.
  - rewrite wrap_small by lia. lia.
Qed.

Lemma low_products b c :
  0 ≤ b < 2 ^ 64 → 0 ≤ c < 2 ^ 32 →
  let bl_c := u64 (Z.land b 0xFFFFFFFF * c) in
  let bh_c := u64 (Z.shiftr b 32 * c) in
  0 ≤ bl_c < 2 ^ 64 ∧ 0 ≤ bh_c < 2 ^ 64 ∧ bl_c + 2 ^ 32 * bh_c = b * c.
Proof.
  intros Hb Hc. simpl. rewrite (land_ones_wrap 32) by lia.
  destruct (split_words b Hb) as (H1 & H2 & H3).
  assert (Z.shiftr b 32 = u32 (Z.shiftr b 32)) as E.
  { symmetry. apply wrap_small. destruct (shiftr_range b 64 32); lia. }
  rewrite E. set (l := u32 b) in *. set (h := u32 (Z.shiftr b 32)) in *.
  assert (0 ≤ l * c < 2 ^ 64 ∧ 0 ≤ h * c < 2 ^ 64) as [Hl Hh] by nia.
  rewrite !wrap_small by done. split_and!; lia.
Qed.

(** The 96-bit subtraction is exact when the result is not negative. *)
Lemma mul_sub_exact a b c :
  uint96_wf a → 0 ≤ b < 2 ^ 64 → 0 ≤ c < 2 ^ 32 → b * c ≤ value96 a →
  uint96_wf (mul_sub_96_64_32 a b c) ∧ value96 (mul_sub_96_64_32 a b c) = value96 a - b * c.
Proof.
  intros [W0 W1 W2] Hb Hc Hle. pose proof (low_products b c Hb Hc) as (Hbl & Hbh & Hbc). simpl in Hbl, Hbh, Hbc.
  unfold mul_sub_96_64_32. set (bl := u64 (Z.land b 0xFFFFFFFF * c)) in *.
  set (bh := u64 (Z.shiftr b 32 * c)) in *.
  unfold set_high_word_64, set_high_word_32, set_low_word_64, high_word_64, low_word_64, value96 in *. simpl.
  set (low := values_0 a + 2 ^ 32 * values_1 a) in *.
  assert (0 ≤ low < 2 ^ 64) as Hlow by lia.
  rewrite (sub_borrow 64 low bl) by lia. set (k := Z.b2z (bool_decide (low < bl))).
  assert (0 ≤ k ≤ 1) as Hk by (subst k; case_bool_decide; simpl; lia).
  set (low' := low - bl + 2 ^ 64 * k).
  assert (0 ≤ low' < 2 ^ 64) as Hlow' by (subst low' k; case_bool_decide; simpl; lia).
  destruct (split_words low' Hlow') as (L1 & L2 & L3).
  set (l0 := u32 low') in *. set (l1 := u32 (Z.shiftr low' 32)) in *.
  assert (2 ^ 32 * bh ≤ 2 ^ 32 * (l1 + 2 ^ 32 * (values_2 a - k)) + 2 ^ 32 - 1) as Hfit.
  { subst low'. lia. }
  assert (k ≤ values_2 a) as Hv by lia.
  rewrite (wrap_small 32 (values_2 a - k)) by lia.
  rewrite (wrap_small 64) by lia.
  set (high := l1 + 2 ^ 32 * (values_2 a - k) - bh).
  destruct (split_words high) as (M1 & M2 & M3); [subst high; lia|].
  split; [by split|]. simpl. subst high low'. lia.
Qed.

(** The two ways of finding the borrow agree. *)
Theorem mul_sub_fallback_equiv a b c :
  uint96_wf a → 0 ≤ b < 2 ^ 64 → 0 ≤ c < 2 ^ 32 →
  mul_sub_fallback a b c = mul_sub_96_64_32 a b c.
Proof.
  intros [W0 W1 W2] Hb Hc. pose proof (low_products b c Hb Hc) as (Hbl & _ & _). simpl in Hbl.
  unfold mul_sub_fallback, mul_sub_96_64_32. set (bl := u64 (Z.land b 0xFFFFFFFF * c)) in *.
  assert (0 ≤ low_word_64 a < 2 ^ 64) as Hlow by (unfold low_word_64; lia).
  assert (bool_decide (low_word_64 a < u64 (low_word_64 a - bl)) = bool_decide (low_word_64 a < bl)) as ->;
    [|done].
  rewrite sub_borrow by lia. apply bool_decide_ext. case_bool_decide; simpl; lia.
Qed.

(** ** Sums of samples *)

Definition is_int32 (x : Z) : Prop := - 2 ^ 31 ≤ x < 2 ^ 31.
Definition sum_squares (xs : list Z) : Z := zsum ((λ x, x * x) <$> xs).

Lemma zsum_cons x xs : zsum (x :: xs) = x + zsum xs.
Proof. done. Qed.
Lemma sum_squares_cons x xs : sum_squares (x :: xs) = x * x + sum_squares xs.
Proof. done. Qed.

(** The sum of the squares of the differences from [x]. *)
Lemma differences_nonneg x xs :
  0 ≤ sum_squares xs - 2 * x * zsum xs + Z.of_nat (length xs) * (x * x).
Proof.
  induction xs as [|y xs IH]; [unfold sum_squares, zsum; simpl; lia|].
  rewrite zsum_cons, sum_squares_cons, length_cons, Nat2Z.inj_succ.
  pose proof (Z.square_nonneg (y - x)). lia.
Qed.

Lemma cauchy_schwarz xs : zsum xs * zsum xs ≤ Z.of_nat (length xs) * sum_squares xs.
Proof.
  induction xs as [|x xs IH]; [done|].
  rewrite zsum_cons, sum_squares_cons, length_cons, Nat2Z.inj_succ.
  pose proof (differences_nonneg x xs). lia.
Qed.

Lemma sums_bounded xs :
  Forall is_int32 xs →
  Z.abs (zsum xs) ≤ Z.of_nat (length xs) * 2 ^ 31 ∧
  0 ≤ sum_squares xs ≤ Z.of_nat (length xs) * 2 ^ 62.
Proof.
  induction 1 as [|x xs Hx _ IH]; [done|]. unfold is_int32 in Hx.
  rewrite zsum_cons, sum_squares_cons, length_cons.
  assert (0 ≤ x * x ≤ 2 ^ 62) by nia. lia.
Qed.

Lemma div_rem_spec b n :
  0 ≤ b < 2 ^ 64 → 0 < n < 2 ^ 32 → b / n < 2 ^ 32 →
  div_rem_64_32 b n = (true, b / n, b mod n).
Proof.
  intros Hb Hn Hq. unfold div_rem_64_32.
  assert (0 ≤ b / n) by (apply Z.div_pos; lia).
  pose proof (Z.div_mod b n ltac:(lia)) as Hdm. pose proof (Z.mod_pos_bound b n ltac:(lia)) as Hm.
  assert (0 ≤ n * (b / n) ≤ b) by lia.
  rewrite (wrap_small 64 (n * (b / n))) by lia.
  replace (b - n * (b / n)) with (b mod n) by lia.
  rewrite (wrap_small 64 (b mod n)), (wrap_small 32 (b / n)), (wrap_small 32 (b mod n)) by lia.
  rewrite bool_decide_true; [done|]. rewrite Z.shiftr_div_pow2 by lia. apply Z.div_small. lia.
Qed.

(** From the sums over any samples of 32 bits, fewer than 2^32 of them, the
    division succeeds, no step of the integer part wraps, and what remains for
    the floating point part, [M - R^2/N], is exactly [N] times the variance:
    N*M - R^2 = N*sum(x^2) - sum(x)^2. *)
Theorem standard_deviation_exact xs :
  Forall is_int32 xs → 0 < Z.of_nat (length xs) < 2 ^ 32 →
  let N := Z.of_nat (length xs) in
  ∃ M R, uint96_wf M ∧ 0 ≤ R < N ∧
    N * value96 M - R * R = N * sum_squares xs - zsum xs * zsum xs ∧
    compute_standard_deviation N (zsum xs) (of_value (sum_squares xs)) =
      (let n_s2 := sub (uint96_to_double M) (div (of_Z (R * R)) (of_Z N)) in
       if ltb n_s2 (of_Z 0) then Ret NAN else Ret (sqrt (div n_s2 (of_Z N)))).
Proof.
  intros Hxs HN N. destruct (sums_bounded xs Hxs) as [HB HA]. pose proof (cauchy_schwarz xs) as Hcs.
  fold N in HN, HB, HA, Hcs. set (B := zsum xs) in *. set (A := sum_squares xs) in *.
  set (b := Z.abs B). assert (0 ≤ b ≤ N * 2 ^ 31) as Hb by lia.
  pose proof (Z.div_mod b N ltac:(lia)) as Hdm. pose proof (Z.mod_pos_bound b N ltac:(lia)) as HR.
  set (D := b / N) in *. set (R := b mod N) in *.
  assert (0 ≤ D ≤ 2 ^ 31) as HD by nia.
  destruct (of_value_spec A) as [HwA HvA]; [lia|].
  assert ((b + R) * D * N = b * b - R * R) as Hprod by (rewrite Hdm; ring).
  assert (b * b = B * B) as Hsq by (subst b; lia).
  destruct (mul_sub_exact (of_value A) (b + R) D) as [HwM HvM]; [done|lia|lia| |].
  { rewrite HvA. nia. }
  exists (mul_sub_96_64_32 (of_value A) (b + R) D), R. split_and!; [done|lia|lia| |].
  - rewrite HvM, HvA. lia.
  - unfold compute_standard_deviation. rewrite bool_decide_false by lia.
    assert (abs_64 B = Ret b) as ->.
    { unfold abs_64. rewrite (bool_decide_true (B ≠ _)) by lia. simpl. f_equal.
      case_bool_decide; rewrite wrap_small; subst b; lia. }
    cbn [mbind outcome_bind]. rewrite div_rem_spec by (fold D; lia). fold D R.
    cbn [negb]. rewrite (wrap_small 64 (b + R)), (wrap_small 64 (R * R)) by nia. done.
Qed.

(** With no samples the result is not a number. *)
Theorem standard_deviation_no_samples sum squares :
  compute_standard_deviation 0 sum squares = Ret NAN.
Proof. done. Qed.

Lemma mul_sub_fallback_equiv_witness :
  mul_sub_fallback (of_value (2 ^ 64)) 1 1 = mul_sub_96_64_32 (of_value (2 ^ 64)) 1 1.
Proof. apply (mul_sub_fallback_equiv (of_value (2 ^ 64)) 1 1); [apply of_value_spec; lia|lia..]. Defined.

(** The samples 1, 2, 3, 4: the root of 5/4. *)
Lemma standard_deviation_exact_witness :
  ∃ M R, 4 * value96 M - R * R = 20 ∧
    compute_standard_deviation 4 10 (of_value 30) = Ret (sqrt (div (of_Z 5) (of_Z 4))).
Proof.
  destruct (standard_deviation_exact [1; 2; 3; 4]) as (M & R & _ & _ & E & _);
    [repeat (constructor; [unfold is_int32; lia|]); constructor|simpl; lia|].
  exists M, R. split; [exact E|]. vm_compute. reflexivity.
Defined.

End StdDev.
