(* ===== verification/Capture.v ===== *)
(** * Data capture: panda-server/server/prepare.c and capture.c

    The fields selected for capture are sorted into groups by the processing
    they need, the groups are laid out one after the other in the list of words
    the hardware is told to capture, and each captured sample is converted group
    by group.  Converted data is a list of [item]s, 32-bit words and doubles;
    each floating point operation rounds on its own.

    Reading or writing outside an array is [Undef]. *)

From S2P Require Import Prelude Errors StdDev.
From stdpp Require Import base numbers list list_numbers option strings.
Open Scope Z_scope.

Module Capture.
Import Double StdDev.

Definition POS_BUS_COUNT : nat := 32.
Definition EXT_BUS_COUNT : nat := 16.
Definition MAX_POS_OUT_CAPTURE : nat := 7.
Definition MAX_EXT_OUT_CAPTURE : nat := 2.
Definition MAX_CAPTURE_COUNT : nat :=
  (MAX_POS_OUT_CAPTURE * POS_BUS_COUNT + MAX_EXT_OUT_CAPTURE * EXT_BUS_COUNT)%nat.
Definition MAX_PCAP_WRITE_COUNT : nat := 64.
Definition CAPTURE_INDEX_SIZE : nat := 5.

(** [enum capture_mode]. *)
Inductive capture_mode :=
  | CAPTURE_MODE_SCALED32
  | CAPTURE_MODE_SCALED64
  | CAPTURE_MODE_UNSCALED
  | CAPTURE_MODE_AVERAGE
  | CAPTURE_MODE_STDDEV.
#[export] Instance capture_mode_eq_dec : EqDecision capture_mode.
Proof. solve_decision. Defined.

(** [struct capture_info], without the texts that only go into the header. *)
Record capture_info := mk_info {
  ci_index : list Z;
  ci_mode : capture_mode;
  ci_scale : double;
  ci_offset : double;
  ci_mean : bool;
}.

(** [struct captured_fields]; the [count] of a group is its length. *)
Record captured_fields := mk_fields {
  f_sample_count : capture_info;
  f_scaled32 : list capture_info;
  f_averaged : list capture_info;
  f_std_dev : list capture_info;
  f_scaled64 : list capture_info;
  f_unscaled : list capture_info;
}.

(** ** Grouping: prepare.c *)

(** One turn of the loop of [prepare_captured_fields], with [get_capture_group]. *)
Definition add_captured (f : captured_fields) (info : capture_info) : captured_fields :=
  let '(mk_fields sc s32 avg sd s64 un) := f in
  match ci_mode info with
  | CAPTURE_MODE_SCALED32 => mk_fields sc (s32 ++ [info]) avg sd s64 un
  | CAPTURE_MODE_AVERAGE => mk_fields sc s32 (avg ++ [info]) sd s64 un
  | CAPTURE_MODE_STDDEV => mk_fields sc s32 avg (sd ++ [info]) s64 un
  | CAPTURE_MODE_SCALED64 => mk_fields sc s32 avg sd (s64 ++ [info]) un
  | CAPTURE_MODE_UNSCALED => mk_fields sc s32 avg sd s64 (un ++ [info])
  end.
Definition prepare_captured_fields (samples : capture_info) (values : list capture_info)
    : captured_fields :=
  foldl add_captured (mk_fields samples [] [] [] [] []) values.

(** ** Layout: capture.c *)

Record field_group := mk_group { g_index : nat; g_count : nat; g_scaling : nat }.
Definition scaling := (double * double)%type.

(** [struct data_capture]. *)
Record data_capture := mk_capture {
  raw_sample_words : nat;
  sample_count_index : nat;
  sample_count_anonymous : bool;
  d_unscaled : field_group;
  d_scaled32 : field_group;
  d_scaled64 : field_group;
  d_averaged : field_group;
  d_std_dev : field_group;
  std_dev_mean : list bool;
  std_dev_mean_count : nat;
  d_scalings : list scaling;
}.

(** [struct gather]: the counts are the lengths of the lists. *)
Record gather := mk_gather { capture_array : list Z; scalings : list scaling }.

Definition emit_capture (g : gather) (field : capture_info) (index_count : nat) (scaled : bool)
    : outcome (nat * gather) :=
  let capture_index := length (capture_array g) in
  _ ← in_range (bool_decide (capture_index + index_count ≤ MAX_CAPTURE_COUNT)%nat);
  let array := capture_array g ++ take index_count (ci_index field) in
  if scaled then
    _ ← in_range (bool_decide (length (scalings g) < MAX_CAPTURE_COUNT)%nat);
    Ret (capture_index, mk_gather array (scalings g ++ [(ci_scale field, ci_offset field)]))
  else Ret (capture_index, mk_gather array (scalings g)).

(** The search of [ensure_sample_count] through the scaled32 group. *)
Fixpoint find_sample_count (capture : option Z) (l : list capture_info) (i : nat) : option nat :=
  match l with
  | [] => None
  | field :: rest =>
      if bool_decide (ci_index field !! 0%nat = capture) then Some i
      else find_sample_count capture rest (S i)
  end.

(** [ensure_sample_count]: where the count is, and whether it is anonymous. *)
Definition ensure_sample_count (fields : captured_fields) (g : gather) : outcome (nat * bool * gather) :=
  match find_sample_count (ci_index (f_sample_count fields) !! 0%nat) (f_scaled32 fields) 0 with
  | Some i => Ret ((length (f_unscaled fields) + i)%nat, false, g)
  | None => '(ix, g') ← emit_capture g (f_sample_count fields) 1 false; Ret (ix, true, g')
  end.

Fixpoint emit_all (g : gather) (l : list capture_info) (index_count : nat) (scaled : bool)
    : outcome gather :=
  match l with
  | [] => Ret g
  | field :: rest => '(_, g') ← emit_capture g field index_count scaled; emit_all g' rest index_count scaled
  end.
Definition prepare_output_group (g : gather) (group : list capture_info) (index_count : nat) (scaled : bool)
    : outcome (field_group * gather) :=
  g' ← emit_all g group index_count scaled;
  Ret (mk_group (length (capture_array g)) (length group) (length (scalings g)), g').

(** [gather_data_capture]; [previous] is the static [data_capture_state] before,
    of which the sample count index survives when it is not needed. *)
Definition gather_data_capture (previous : data_capture) (fields : captured_fields)
    : outcome (data_capture * list Z) :=
  let g := mk_gather [] [] in
  '(sc_index, anonymous, g) ←
    (if bool_decide (0 < length (f_averaged fields))%nat || bool_decide (0 < length (f_std_dev fields))%nat
     then ensure_sample_count fields g
     else Ret (sample_count_index previous, false, g));
  '(unscaled, g) ← prepare_output_group g (f_unscaled fields) 1 false;
  '(scaled32, g) ← prepare_output_group g (f_scaled32 fields) 1 true;
  '(scaled64, g) ← prepare_output_group g (f_scaled64 fields) 2 true;
  '(averaged, g) ← prepare_output_group g (f_averaged fields) 2 true;
  '(std_dev, g) ← prepare_output_group g (f_std_dev fields) 5 true;
  let flags := ci_mean <$> f_std_dev fields in
  Ret (mk_capture (length (capture_array g)) sc_index anonymous unscaled scaled32 scaled64 averaged std_dev
         flags (length (filter (λ b, b = true) flags)) (scalings g),
       capture_array g).

(** [prepare_data_capture]: the capture and the words written to the hardware. *)
Definition prepare_data_capture (previous : data_capture) (fields : captured_fields)
    : outcome (error__t * data_capture * list Z) :=
  '(capture, array) ← gather_data_capture previous fields;
  match TEST_OK_ (bool_decide (0 < length array)%nat) "Nothing configured for capture" with
  | Some e => Ret (Some e, capture, [])
  | None =>
      match TEST_OK_ (bool_decide (length array < MAX_PCAP_WRITE_COUNT)%nat) "Too many captures for PCAP" with
      | Some e => Ret (Some e, capture, [])
      | None => Ret (None, capture, array)
      end
  end.

(** ** Conversion *)

Inductive item := Word (w : Z) | Real (d : double).
Definition item_size (x : item) : nat := match x with Word _ => 4 | Real _ => 8 end.

Definition at_index {A} (l : list A) (i : nat) : outcome A :=
  match l !! i with Some x => Ret x | None => Undef end.

Lemma at_index_some {A} (l : list A) i x : l !! i = Some x → at_index l i = Ret x.
Proof. unfold at_index. by intros ->. Qed.

(** An [int64] held in two words. *)
Definition int64_of (lo hi : Z) : Z := to_signed 64 (lo + 2 ^ 32 * hi).
Definition read_int64 (input : list Z) (i : nat) : outcome Z :=
  lo ← at_index input i; hi ← at_index input (S i); Ret (int64_of lo hi).

Definition scale_value (s : scaling) (value : Z) : double := add (mul s.1 (of_Z value)) s.2.

Definition copy_unscaled_fields (group : field_group) (input : list Z) : outcome (list item) :=
  mapM (λ i, w ← at_index input (g_index group + i); Ret (Word w)) (seq 0 (g_count group)).

Definition convert_scaled32 (c : data_capture) (input : list Z) : outcome (list item) :=
  mapM (λ i,
    w ← at_index input (g_index (d_scaled32 c) + i);
    s ← at_index (d_scalings c) (g_scaling (d_scaled32 c) + i);
    Ret (Real (scale_value s (to_signed 32 w)))) (seq 0 (g_count (d_scaled32 c))).

Definition convert_scaled64 (c : data_capture) (input : list Z) : outcome (list item) :=
  mapM (λ i,
    v ← read_int64 input (g_index (d_scaled64 c) + 2 * i);
    s ← at_index (d_scalings c) (g_scaling (d_scaled64 c) + i);
    Ret (Real (scale_value s v))) (seq 0 (g_count (d_scaled64 c))).

Definition compute_mean (samples : Z) (s : scaling) (value : Z) : double :=
  if bool_decide (samples = 0) then NAN
  else add (div (mul s.1 (of_Z value)) (of_Z samples)) s.2.

Definition average_scaled_data (c : data_capture) (input : list Z) : outcome (list item) :=
  sample_count ← at_index input (sample_count_index c);
  mapM (λ i,
    v ← read_int64 input (g_index (d_averaged c) + 2 * i);
    s ← at_index (d_scalings c) (g_scaling (d_averaged c) + i);
    Ret (Real (compute_mean sample_count s v))) (seq 0 (g_count (d_averaged c))).

(** The fields of one [struct std_dev_raw] converted. *)
Definition std_dev_items (mean : bool) (sample_count : Z) (s : scaling) (sum : Z) (squares : uint96)
    : outcome (list item) :=
  d ← compute_standard_deviation sample_count sum squares;
  Ret ((if mean then [Real (compute_mean sample_count s sum)] else []) ++ [Real (mul s.1 d)]).

Definition convert_standard_deviation (c : data_capture) (input : list Z) : outcome (list item) :=
  sample_count ← at_index input (sample_count_index c);
  @concat item <$> mapM (λ i,
    let ix := (g_index (d_std_dev c) + 5 * i)%nat in
    sum ← read_int64 input ix;
    s0 ← at_index input (2 + ix); s1 ← at_index input (3 + ix); s2 ← at_index input (4 + ix);
    s ← at_index (d_scalings c) (g_scaling (d_std_dev c) + i);
    mean ← at_index (std_dev_mean c) i;
    std_dev_items mean sample_count s sum (mk_uint96 s0 s1 s2)) (seq 0 (g_count (d_std_dev c))).

(** One turn of the loop of [convert_scaled_data], and the loop. *)
Definition convert_sample (c : data_capture) (input : list Z) : outcome (list item) :=
  o1 ← copy_unscaled_fields (d_unscaled c) input;
  o2 ← convert_scaled32 c input;
  o3 ← convert_scaled64 c input;
  o4 ← average_scaled_data c input;
  o5 ← convert_standard_deviation c input;
  Ret (o1 ++ o2 ++ o3 ++ o4 ++ o5).
Fixpoint convert_scaled_data (c : data_capture) (sample_count : nat) (input : list Z) : outcome (list item) :=
  match sample_count with
  | O => Ret []
  | S n =>
      o ← convert_sample c input;
      rest ← convert_scaled_data c n (drop (raw_sample_words c) input);
      Ret (o ++ rest)
  end.

Inductive data_process := DATA_PROCESS_RAW | DATA_PROCESS_SCALED.

Definition get_raw_sample_length (c : data_capture) : outcome nat :=
  _ ← assert_ok (bool_decide (0 < raw_sample_words c)%nat); Ret (4 * raw_sample_words c)%nat.

Definition get_binary_sample_length (c : data_capture) (process : data_process) : outcome nat :=
  match process with
  | DATA_PROCESS_RAW => get_raw_sample_length c
  | DATA_PROCESS_SCALED =>
      let length_ :=
        (4 * g_count (d_unscaled c) +
         8 * (g_count (d_scaled32 c) + g_count (d_scaled64 c) + g_count (d_averaged c) +
              g_count (d_std_dev c) + std_dev_mean_count c))%nat in
      _ ← assert_ok (bool_decide (0 < length_)%nat); Ret length_
  end.

(** [memcpy] of words. *)
Definition copy_words (n : nat) (input : list Z) : outcome (list item) :=
  _ ← in_range (bool_decide (n ≤ length input)%nat); Ret (Word <$> take n input).

Definition convert_raw_data_to_binary (c : data_capture) (process : data_process) (sample_count : nat)
    (input : list Z) : outcome (list item) :=
  match process with
  | DATA_PROCESS_RAW =>
      _ ← get_raw_sample_length c; copy_words (sample_count * raw_sample_words c) input
  | DATA_PROCESS_SCALED => convert_scaled_data c sample_count input
  end.

Definition sample_count_is_anonymous (c : data_capture) : bool := sample_count_anonymous c.

End Capture.
