(* ===== verification/CaptureSpec.v ===== *)
(** * Captured data reaches the client unmixed

    The layout computed by Capture is the one its conversions read: converting a
    sample gives, field by field, the values captured for that field, whatever
    the mix of fields, and the lengths announced are the lengths produced. *)

From S2P Require Import Prelude Errors StdDev Capture.
From stdpp Require Import base numbers list list_numbers option strings.
Open Scope Z_scope.

Module CaptureSpec.
Import Double StdDev Capture.

(** ** Sequences of outcomes *)

Lemma outcome_bind_ret {A B} (o : outcome A) (f : A → outcome B) b :
  o ≫= f = Ret b ↔ ∃ a, o = Ret a ∧ f a = Ret b.
Proof. destruct o; simpl; naive_solver. Qed.

Lemma outcome_bind_assoc {A B C} (o : outcome A) (f : A → outcome B) (h : B → outcome C) :
  (o ≫= f) ≫= h = o ≫= (λ a, f a ≫= h).
Proof. by destruct o. Qed.

Lemma mapM_seq {A B} (l : list A) (f : nat → outcome B) (g : A → outcome B) :
  (∀ i x, l !! i = Some x → f i = g x) → mapM f (seq 0 (length l)) = mapM g l.
Proof.
  intros H. assert (∀ k l', (∀ i x, l' !! i = Some x → f (k + i)%nat = g x) →
    mapM f (seq k (length l')) = mapM g l') as G; [|by apply (G 0%nat)].
  intros k l'. revert k. induction l' as [|x l' IH]; intros k Hl; [done|].
  simpl. rewrite <-(Hl 0%nat x eq_refl), Nat.add_0_r, (IH (S k)); [done|].
  intros i y Hy. rewrite <-(Hl (S i) y Hy). f_equal. lia.
Qed.

Lemma mapM_pure {A B} (l : list A) (f : A → B) : mapM (λ x, Ret (f x)) l = Ret (f <$> l).
Proof. induction l as [|x l IH]; simpl; [done|]. by rewrite IH. Qed.

Lemma filter_singleton_if {A} (x : A) (P : A → Prop) `{∀ x, Decision (P x)} :
  filter P [x] = if decide (P x) then [x] else [].
Proof. rewrite filter_cons. by destruct (decide (P x)). Qed.

(** A list cut into pieces of the same length. *)
Lemma concat_lookup {A} n (ls : list (list A)) i k :
  Forall (λ l, length l = n) ls → (k < n)%nat → concat ls !! (n * i + k)%nat = (ls !! i) ≫= (.!! k).
Proof.
  intros Hls Hk. revert i. induction Hls as [|l ls Hl _ IH]; intros i; simpl; [by destruct i|].
  destruct i as [|i]; simpl.
  - rewrite Nat.mul_0_r, Nat.add_0_l, lookup_app_l by lia. done.
  - rewrite lookup_app_r by lia. rewrite <-(IH i). f_equal. lia.
Qed.

Lemma concat_length {A} n (ls : list (list A)) :
  Forall (λ l, length l = n) ls → length (concat ls) = (n * length ls)%nat.
Proof. induction 1 as [|l ls Hl _ IH]; simpl; [lia|]. rewrite length_app, IH, Hl. lia. Qed.

(** ** The layout *)

Definition info_wf (f : capture_info) : Prop := length (ci_index f) = CAPTURE_INDEX_SIZE.
Record fields_wf (f : captured_fields) : Prop := {
  fw_samples : info_wf (f_sample_count f);
  fw_scaled32 : Forall info_wf (f_scaled32 f);
  fw_averaged : Forall info_wf (f_averaged f);
  fw_std_dev : Forall info_wf (f_std_dev f);
  fw_scaled64 : Forall info_wf (f_scaled64 f);
  fw_unscaled : Forall info_wf (f_unscaled f);
}.

(** The words of a group. *)
Definition group_words (n : nat) (l : list capture_info) : list Z :=
  concat ((λ f, take n (ci_index f)) <$> l).
Definition scale_of (f : capture_info) : scaling := (ci_scale f, ci_offset f).

Lemma group_pieces n l :
  (n ≤ 5)%nat → Forall info_wf l → Forall (λ p, length p = n) ((λ f, take n (ci_index f)) <$> l).
Proof.
  intros Hn Hl. apply Forall_fmap. eapply Forall_impl; [exact Hl|]. intros f Hf. simpl.
  unfold info_wf, CAPTURE_INDEX_SIZE in Hf. rewrite length_take. lia.
Qed.

Lemma group_words_length n l :
  (n ≤ 5)%nat → Forall info_wf l → length (group_words n l) = (n * length l)%nat.
Proof. intros Hn Hl. unfold group_words. rewrite (concat_length n), length_fmap by by apply group_pieces. done. Qed.

Lemma group_words_lookup n l i k f :
  (n ≤ 5)%nat → Forall info_wf l → l !! i = Some f → (k < n)%nat →
  group_words n l !! (n * i + k)%nat = Some (ci_index f !!! k).
Proof.
  intros Hn Hl Hi Hk. unfold group_words.
  rewrite (concat_lookup n) by (by apply group_pieces || lia).
  rewrite list_lookup_fmap, Hi. simpl. rewrite lookup_take_lt by done.
  apply list_lookup_lookup_total_lt. pose proof (Forall_lookup_1 _ _ _ _ Hl Hi) as Hf.
  unfold info_wf, CAPTURE_INDEX_SIZE in Hf. lia.
Qed.

Lemma emit_all_ret g l n sc g' :
  emit_all g l n sc = Ret g' →
  capture_array g' = capture_array g ++ group_words n l ∧
  scalings g' = scalings g ++ (if sc then scale_of <$> l else []).
Proof.
  revert g. induction l as [|f l IH]; intros g E; simpl in E.
  { simplify_eq. unfold group_words. destruct sc; simpl; by rewrite !app_nil_r. }
  apply outcome_bind_ret in E as ([ix g1] & E1 & E2). apply IH in E2 as [-> ->].
  unfold emit_capture in E1. apply outcome_bind_ret in E1 as (_ & _ & E1).
  destruct sc.
  - apply outcome_bind_ret in E1 as (_ & _ & E1). simplify_eq/=.
    unfold group_words. simpl. by rewrite <-!(assoc_L (++)).
  - simplify_eq/=. unfold group_words. simpl. by rewrite <-!(assoc_L (++)).
Qed.

Lemma prepare_group_ret g l n sc grp g' :
  prepare_output_group g l n sc = Ret (grp, g') →
  grp = mk_group (length (capture_array g)) (length l) (length (scalings g)) ∧
  capture_array g' = capture_array g ++ group_words n l ∧
  scalings g' = scalings g ++ (if sc then scale_of <$> l else []).
Proof.
  intros E. apply outcome_bind_ret in E as (g1 & E1%emit_all_ret & E2). by simplify_eq.
Qed.

(** A group and its scalings sit where its record says. *)
Definition placed (n : nat) (l : list capture_info) (grp : field_group) (array : list Z) : Prop :=
  g_count grp = length l ∧
  ∃ pre post, array = pre ++ group_words n l ++ post ∧ length pre = g_index grp.
Definition scaled_at (l : list capture_info) (grp : field_group) (sc : list scaling) : Prop :=
  ∃ pre post, sc = pre ++ (scale_of <$> l) ++ post ∧ length pre = g_scaling grp.

(** What [gather_data_capture] produces when it stays within its arrays. *)
Record laid_out (f : captured_fields) (c : data_capture) (array : list Z) : Prop := {
  lo_words : raw_sample_words c = length array;
  lo_unscaled : placed 1 (f_unscaled f) (d_unscaled c) array;
  lo_scaled32 : placed 1 (f_scaled32 f) (d_scaled32 c) array ∧
                scaled_at (f_scaled32 f) (d_scaled32 c) (d_scalings c);
  lo_scaled64 : placed 2 (f_scaled64 f) (d_scaled64 c) array ∧
                scaled_at (f_scaled64 f) (d_scaled64 c) (d_scalings c);
  lo_averaged : placed 2 (f_averaged f) (d_averaged c) array ∧
                scaled_at (f_averaged f) (d_averaged c) (d_scalings c);
  lo_std_dev : placed 5 (f_std_dev f) (d_std_dev c) array ∧
               scaled_at (f_std_dev f) (d_std_dev c) (d_scalings c);
  lo_mean : std_dev_mean c = ci_mean <$> f_std_dev f;
  lo_mean_count : std_dev_mean_count c = length (filter (λ b, b = true) (ci_mean <$> f_std_dev f));
}.

(** The word with the sample count. *)
Definition sample_index (f : captured_fields) : Z := ci_index (f_sample_count f) !!! 0%nat.
Definition averaging (f : captured_fields) : Prop :=
  (0 < length (f_averaged f))%nat ∨ (0 < length (f_std_dev f))%nat.
#[export] Instance averaging_dec f : Decision (averaging f).
Proof. unfold averaging. apply _. Defined.

Lemma find_sample_count_spec capture l i j :
  find_sample_count capture l i = Some j →
  ∃ f, l !! (j - i)%nat = Some f ∧ (i ≤ j)%nat ∧ ci_index f !! 0%nat = capture.
Proof.
  revert i. induction l as [|f l IH]; intros i E; simpl in E; [done|].
  case_bool_decide; simplify_eq.
  - exists f. rewrite Nat.sub_diag. auto.
  - destruct (IH _ E) as (f' & Hf & Hle & Hc). exists f'. split_and!; [|lia|done].
    by replace (j - i)%nat with (S (j - S i)) by lia.
Qed.

Lemma averaging_bool f :
  bool_decide (0 < length (f_averaged f))%nat || bool_decide (0 < length (f_std_dev f))%nat =
  bool_decide (averaging f).
Proof. rewrite <-bool_decide_or. by apply bool_decide_ext. Qed.

(** [ensure_sample_count] says where the count will be. *)
Lemma ensure_sample_count_at f ix anon g post :
  fields_wf f → ensure_sample_count f (mk_gather [] []) = Ret (ix, anon, g) →
  (capture_array g ++ group_words 1 (f_unscaled f) ++ group_words 1 (f_scaled32 f) ++ post) !! ix
    = Some (sample_index f).
Proof.
  intros Hwf E. unfold ensure_sample_count in E.
  assert (∃ z zs, ci_index (f_sample_count f) = z :: zs) as (z & zs & Ez).
  { pose proof (fw_samples f Hwf) as Hl. unfold info_wf, CAPTURE_INDEX_SIZE in Hl.
    destruct (ci_index (f_sample_count f)); [done|eauto]. }
  unfold sample_index. rewrite Ez in E |- *. simpl in E |- *.
  destruct (find_sample_count _ _ _) as [i|] eqn:Ef.
  2:{ unfold emit_capture in E. simpl in E. rewrite Ez in E. by simplify_eq. }
  simplify_eq/=.
  apply find_sample_count_spec in Ef as (f' & Hi & _ & Hf'). rewrite Nat.sub_0_r in Hi.
  pose proof (group_words_length 1 _ ltac:(lia) (fw_unscaled f Hwf)) as Hlen.
  rewrite lookup_app_r by lia.
  replace (length (f_unscaled f) + i - length (group_words 1 (f_unscaled f)))%nat with (1 * i + 0)%nat by lia.
  pose proof (group_words_lookup 1 _ i 0 f' ltac:(lia) (fw_scaled32 f Hwf) Hi ltac:(lia)) as Hw.
  rewrite lookup_app_l by (by eapply lookup_lt_Some). rewrite Hw. f_equal.
  by apply list_lookup_total_correct.
Qed.

Lemma gather_laid_out previous f c array :
  fields_wf f → gather_data_capture previous f = Ret (c, array) →
  laid_out f c array ∧
  (averaging f → array !! sample_count_index c = Some (sample_index f)) ∧
  (¬ averaging f → sample_count_index c = sample_count_index previous).
Proof.
  intros Hwf E. unfold gather_data_capture in E.
  apply outcome_bind_ret in E as ([[ix anon] g0] & E0 & E).
  apply outcome_bind_ret in E as ([un g1] & (-> & A1 & S1)%prepare_group_ret & E).
  apply outcome_bind_ret in E as ([s32 g2] & (-> & A2 & S2)%prepare_group_ret & E).
  apply outcome_bind_ret in E as ([s64 g3] & (-> & A3 & S3)%prepare_group_ret & E).
  apply outcome_bind_ret in E as ([avg g4] & (-> & A4 & S4)%prepare_group_ret & E).
  apply outcome_bind_ret in E as ([sd g5] & (-> & A5 & S5)%prepare_group_ret & E).
  simplify_eq. simpl in *.
  set (h := capture_array g0) in *. set (s0 := scalings g0) in *.
  split.
  - split; simpl; [done| | | | | |done|done].
    + split; [done|]. exists h, (group_words 1 (f_scaled32 f) ++ group_words 2 (f_scaled64 f) ++
        group_words 2 (f_averaged f) ++ group_words 5 (f_std_dev f)).
      by rewrite A5, A4, A3, A2, A1, <-!(assoc_L (++)).
    + split; [split; [done|]|].
      * exists (capture_array g1), (group_words 2 (f_scaled64 f) ++ group_words 2 (f_averaged f) ++
          group_words 5 (f_std_dev f)). by rewrite A5, A4, A3, A2, <-!(assoc_L (++)).
      * exists (scalings g1), ((scale_of <$> f_scaled64 f) ++ (scale_of <$> f_averaged f) ++
          (scale_of <$> f_std_dev f)). by rewrite S5, S4, S3, S2, <-!(assoc_L (++)).
    + split; [split; [done|]|].
      * exists (capture_array g2), (group_words 2 (f_averaged f) ++ group_words 5 (f_std_dev f)).
        by rewrite A5, A4, A3, <-!(assoc_L (++)).
      * exists (scalings g2), ((scale_of <$> f_averaged f) ++ (scale_of <$> f_std_dev f)).
        by rewrite S5, S4, S3, <-!(assoc_L (++)).
    + split; [split; [done|]|].
      * exists (capture_array g3), (group_words 5 (f_std_dev f)). by rewrite A5, A4, <-!(assoc_L (++)).
      * exists (scalings g3), (scale_of <$> f_std_dev f). by rewrite S5, S4, <-!(assoc_L (++)).
    + split; [split; [done|]|].
      * exists (capture_array g4), []. by rewrite A5, app_nil_r.
      * exists (scalings g4), []. by rewrite S5, app_nil_r.
  - assert (capture_array g5 = h ++ group_words 1 (f_unscaled f) ++ group_words 1 (f_scaled32 f) ++
      group_words 2 (f_scaled64 f) ++ group_words 2 (f_averaged f) ++ group_words 5 (f_std_dev f)) as ->
      by (by rewrite A5, A4, A3, A2, A1, <-!(assoc_L (++))).
    clear -Hwf E0. split; intros Ha.
    + rewrite averaging_bool, bool_decide_true in E0 by done.
      subst h. by eapply ensure_sample_count_at.
    + rewrite averaging_bool, bool_decide_false in E0 by done. by simplify_eq.
Qed.

(** ** Conversion *)

Section conversion.
(** The value of each word of the capture bus when the sample was taken. *)
Context (bus : Z → Z).

Definition bus_word (f : capture_info) (k : nat) : Z := bus (ci_index f !!! k).
Definition bus_int64 (f : capture_info) : Z := int64_of (bus_word f 0) (bus_word f 1).

(** What a sample means, without any layout, when [samples] samples went into
    the averages. *)
Definition meaning_with (samples : Z) (f : captured_fields) : outcome (list item) :=
  sd ← mapM (λ x, std_dev_items (ci_mean x) samples (scale_of x) (bus_int64 x)
               (mk_uint96 (bus_word x 2) (bus_word x 3) (bus_word x 4))) (f_std_dev f);
  Ret (((λ x, Word (bus_word x 0)) <$> f_unscaled f) ++
       ((λ x, Real (scale_value (scale_of x) (to_signed 32 (bus_word x 0)))) <$> f_scaled32 f) ++
       ((λ x, Real (scale_value (scale_of x) (bus_int64 x))) <$> f_scaled64 f) ++
       ((λ x, Real (compute_mean samples (scale_of x) (bus_int64 x))) <$> f_averaged f) ++
       concat sd).
Definition sample_meaning (f : captured_fields) : outcome (list item) :=
  meaning_with (bus (sample_index f)) f.

Lemma meaning_without_averages f v w : ¬ averaging f → meaning_with v f = meaning_with w f.
Proof.
  unfold averaging, meaning_with. intros H. destruct (f_averaged f); [|simpl in H; lia].
  destruct (f_std_dev f); [done|simpl in H; lia].
Qed.

Lemma placed_word n l grp array rest i k f :
  (n ≤ 5)%nat → Forall info_wf l → placed n l grp array → l !! i = Some f → (k < n)%nat →
  at_index ((bus <$> array) ++ rest) (k + (g_index grp + n * i)) = Ret (bus_word f k).
Proof.
  intros Hn Hl (_ & pre & post & -> & Hp) Hi Hk. unfold at_index.
  pose proof (group_words_lookup n l i k f Hn Hl Hi Hk) as Hw.
  assert ((pre ++ group_words n l ++ post) !! (k + (g_index grp + n * i))%nat = Some (ci_index f !!! k)) as Ha.
  { rewrite lookup_app_r by lia. replace (k + (g_index grp + n * i) - length pre)%nat with (n * i + k)%nat by lia.
    rewrite lookup_app_l by (by eapply lookup_lt_Some). done. }
  rewrite lookup_app_l by (rewrite length_fmap; by eapply lookup_lt_Some).
  by rewrite list_lookup_fmap, Ha.
Qed.

Lemma placed_int64 n l grp array rest i f :
  (2 ≤ n ≤ 5)%nat → Forall info_wf l → placed n l grp array → l !! i = Some f →
  read_int64 ((bus <$> array) ++ rest) (g_index grp + n * i) = Ret (bus_int64 f).
Proof.
  intros Hn Hl Hp Hi. unfold read_int64.
  pose proof (placed_word n l grp array rest i 0 f ltac:(lia) Hl Hp Hi ltac:(lia)) as E0.
  pose proof (placed_word n l grp array rest i 1 f ltac:(lia) Hl Hp Hi ltac:(lia)) as E1.
  cbn [Nat.add] in E0, E1. by rewrite E0, E1.
Qed.

Lemma scaled_lookup l grp sc i f :
  scaled_at l grp sc → l !! i = Some f → at_index sc (g_scaling grp + i) = Ret (scale_of f).
Proof.
  intros (pre & post & -> & Hp) Hi. unfold at_index.
  rewrite lookup_app_r by lia. replace (g_scaling grp + i - length pre)%nat with i by lia.
  rewrite lookup_app_l by (rewrite length_fmap; by eapply lookup_lt_Some).
  by rewrite list_lookup_fmap, Hi.
Qed.

(** One group of conversions, given what happens to each field. *)
Lemma convert_group {B} (l : list capture_info) grp (f : nat → outcome B) (g : capture_info → outcome B) :
  g_count grp = length l → (∀ i x, l !! i = Some x → f i = g x) →
  mapM f (seq 0 (g_count grp)) = mapM g l.
Proof. intros -> H. by apply mapM_seq. Qed.

(** The groups that need no sample count. *)
Lemma groups_converted f c array rest :
  fields_wf f → laid_out f c array →
  copy_unscaled_fields (d_unscaled c) ((bus <$> array) ++ rest) =
    Ret ((λ x, Word (bus_word x 0)) <$> f_unscaled f) ∧
  convert_scaled32 c ((bus <$> array) ++ rest) =
    Ret ((λ x, Real (scale_value (scale_of x) (to_signed 32 (bus_word x 0)))) <$> f_scaled32 f) ∧
  convert_scaled64 c ((bus <$> array) ++ rest) =
    Ret ((λ x, Real (scale_value (scale_of x) (bus_int64 x))) <$> f_scaled64 f).
Proof.
  intros Hwf [_ Hun [Hp32 Hs32] [Hp64 Hs64] _ _ _ _]. set (input := (bus <$> array) ++ rest). split_and!.
  - unfold copy_unscaled_fields. rewrite <-mapM_pure. apply convert_group; [apply Hun|]. intros i x Hx.
    pose proof (placed_word 1 _ _ _ rest i 0 x ltac:(lia) (fw_unscaled f Hwf) Hun Hx ltac:(lia)) as E.
    rewrite Nat.mul_1_l in E. simpl in E. fold input in E. by rewrite E.
  - unfold convert_scaled32. rewrite <-mapM_pure. apply convert_group; [apply Hp32|]. intros i x Hx.
    pose proof (placed_word 1 _ _ _ rest i 0 x ltac:(lia) (fw_scaled32 f Hwf) Hp32 Hx ltac:(lia)) as E.
    rewrite Nat.mul_1_l in E. simpl in E. fold input in E. rewrite E. simpl. by rewrite (scaled_lookup _ _ _ _ _ Hs32 Hx).
  - unfold convert_scaled64. rewrite <-mapM_pure. apply convert_group; [apply Hp64|]. intros i x Hx.
    unfold input. rewrite (placed_int64 2 _ _ _ rest i x ltac:(lia) (fw_scaled64 f Hwf) Hp64 Hx). simpl.
    by rewrite (scaled_lookup _ _ _ _ _ Hs64 Hx).
Qed.

Lemma convert_sample_laid_out f c array rest v :
  fields_wf f → laid_out f c array →
  at_index ((bus <$> array) ++ rest) (sample_count_index c) = Ret v →
  convert_sample c ((bus <$> array) ++ rest) = meaning_with v f.
Proof.
  intros Hwf Hlo Hsc. destruct (groups_converted f c array rest Hwf Hlo) as (E1 & E2 & E3).
  destruct Hlo as [_ _ _ _ [Hpa Hsa] [Hpd Hsd] Hm _]. set (input := (bus <$> array) ++ rest) in *.
  assert (average_scaled_data c input =
    Ret ((λ x, Real (compute_mean v (scale_of x) (bus_int64 x))) <$> f_averaged f)) as E4.
  { unfold average_scaled_data. rewrite Hsc. cbn [mbind outcome_bind]. rewrite <-mapM_pure. apply convert_group; [apply Hpa|].
    intros i x Hx. unfold input. rewrite (placed_int64 2 _ _ _ rest i x ltac:(lia) (fw_averaged f Hwf) Hpa Hx). simpl.
    by rewrite (scaled_lookup _ _ _ _ _ Hsa Hx). }
  unfold convert_sample. rewrite E1, E2, E3, E4. cbn [mbind outcome_bind].
  unfold convert_standard_deviation. rewrite Hsc. cbn [mbind outcome_bind].
  rewrite (convert_group (f_std_dev f) (d_std_dev c) _
    (λ x, std_dev_items (ci_mean x) v (scale_of x) (bus_int64 x)
               (mk_uint96 (bus_word x 2) (bus_word x 3) (bus_word x 4)))).
  - unfold meaning_with. by destruct (mapM _ (f_std_dev f)).
  - apply Hpd.
  - intros i x Hx. unfold input. rewrite (placed_int64 5 _ _ _ rest i x ltac:(lia) (fw_std_dev f Hwf) Hpd Hx).
    cbn [mbind outcome_bind].
    rewrite !(placed_word 5 _ _ _ rest i _ x ltac:(lia) (fw_std_dev f Hwf) Hpd Hx) by lia. cbn [mbind outcome_bind].
    rewrite (scaled_lookup _ _ _ _ _ Hsd Hx). cbn [mbind outcome_bind].
    unfold at_index. rewrite Hm, list_lookup_fmap, Hx. done.
Qed.

(** A sample taken with the layout of [gather_data_capture]. *)
Lemma convert_gathered previous f c array rest :
  fields_wf f → gather_data_capture previous f = Ret (c, array) →
  (averaging f ∨ (sample_count_index previous < length array + length rest)%nat) →
  convert_sample c ((bus <$> array) ++ rest) = sample_meaning f.
Proof.
  intros Hwf E Hsc. destruct (gather_laid_out _ _ _ _ Hwf E) as (Hlo & Hav & Hna).
  destruct (decide (averaging f)) as [Ha|Ha].
  - apply convert_sample_laid_out; [done..|]. unfold at_index.
    specialize (Hav Ha). rewrite lookup_app_l by (rewrite length_fmap; by eapply lookup_lt_Some).
    by rewrite list_lookup_fmap, Hav.
  - destruct Hsc as [?|Hsc]; [done|].
    destruct (lookup_lt_is_Some_2 ((bus <$> array) ++ rest) (sample_count_index c)) as [v Hv].
    { rewrite length_app, length_fmap, Hna by done. lia. }
    unfold sample_meaning. rewrite (meaning_without_averages _ _ v) by done.
    apply convert_sample_laid_out; [done..|]. unfold at_index. by rewrite Hv.
Qed.

End conversion.

(** C24: Converting a run of samples gives, sample by sample and field by field,
    the values of the words captured for that field with the scaling of that
    field: no field is mixed up with another whatever is captured, and the
    averages use the sample count, captured or hidden. *)
Theorem convert_scaled_data_correct previous f c array buses rest :
  fields_wf f → gather_data_capture previous f = Ret (c, array) →
  (averaging f ∨ (sample_count_index previous < length array)%nat) →
  convert_raw_data_to_binary c DATA_PROCESS_SCALED (length buses)
    (concat ((λ bus, bus <$> array) <$> buses) ++ rest) =
  @concat item <$> mapM (λ bus, sample_meaning bus f) buses.
Proof.
  intros Hwf E Hsc. cbn [convert_raw_data_to_binary].
  destruct (gather_laid_out _ _ _ _ Hwf E) as (Hlo & _ & _).
  induction buses as [|bus buses IH]; [done|].
  rewrite fmap_cons. cbn [length concat convert_scaled_data mapM].
  rewrite <-(assoc_L (++)), (convert_gathered bus previous f c array);
    [|done|done|destruct Hsc; [by left|right; lia]].
  destruct (sample_meaning bus f) as [o| |]; [|done..]. cbn [mbind outcome_bind].
  rewrite (lo_words _ _ _ Hlo), drop_app_length' by (by rewrite length_fmap).
  rewrite IH. by destruct (mapM _ buses).
Qed.

(** ** Lengths *)

Definition items_size (l : list item) : nat := foldr (λ x n, item_size x + n)%nat 0%nat l.

Lemma items_size_app l1 l2 : items_size (l1 ++ l2) = (items_size l1 + items_size l2)%nat.
Proof. induction l1 as [|x l1 IH]; simpl; [done|]. rewrite IH. lia. Qed.

Lemma items_size_const {A} (f : A → item) n (l : list A) :
  (∀ x, item_size (f x) = n) → items_size (f <$> l) = (n * length l)%nat.
Proof. intros H. induction l as [|x l IH]; csimpl; [lia|]. rewrite H, IH. lia. Qed.

Lemma std_dev_items_size mean n s sum sq o :
  std_dev_items mean n s sum sq = Ret o → items_size o = (8 + if mean then 8 else 0)%nat.
Proof.
  intros (d & _ & E)%outcome_bind_ret. simplify_eq. by destruct mean.
Qed.

Lemma std_dev_size (g : capture_info → outcome (list item)) l sd :
  (∀ x o, g x = Ret o → items_size o = (8 + if ci_mean x then 8 else 0)%nat) → mapM g l = Ret sd →
  items_size (concat sd) = (8 * (length l + length (filter (λ b, b = true) (ci_mean <$> l))))%nat.
Proof.
  intros Hg. revert sd. induction l as [|x l IH]; intros sd E; simpl in E; [by inversion E|].
  apply outcome_bind_ret in E as (o & E1%Hg & E). apply outcome_bind_ret in E as (os & E2%IH & E).
  inversion E; subst sd. csimpl. rewrite items_size_app, E1, E2, filter_cons.
  destruct (ci_mean x); [rewrite decide_True by done|rewrite decide_False by done]; simpl; lia.
Qed.

Lemma items_size_pos o : o ≠ [] → (0 < items_size o)%nat.
Proof. destruct o as [|[]]; simpl; [done|lia..]. Qed.

(** The length announced for a converted sample is the number of bytes the
    conversion stores. *)
Theorem binary_sample_length_exact previous f c array bus o :
  fields_wf f → gather_data_capture previous f = Ret (c, array) → (0 < length array)%nat →
  sample_meaning bus f = Ret o → o ≠ [] →
  get_binary_sample_length c DATA_PROCESS_SCALED = Ret (items_size o) ∧
  get_binary_sample_length c DATA_PROCESS_RAW = Ret (items_size (Word <$> array)).
Proof.
  intros Hwf E Hpos Hm Hne%items_size_pos. destruct (gather_laid_out _ _ _ _ Hwf E) as (Hlo & _ & _).
  destruct Hlo as [Hw [Hu _] [[H32 _] _] [[H64 _] _] [[Ha _] _] [[Hd _] _] _ Hmc].
  unfold sample_meaning, meaning_with in Hm. apply outcome_bind_ret in Hm as (sd & Hsd & Hm). simplify_eq.
  apply std_dev_size in Hsd; [|by intros x o' ?%std_dev_items_size].
  rewrite !items_size_app, (items_size_const _ 4), !(items_size_const _ 8), Hsd in Hne |- * by done.
  unfold get_binary_sample_length, get_raw_sample_length. rewrite Hu, H32, H64, Ha, Hd, Hmc, Hw.
  rewrite !bool_decide_true by lia. rewrite (items_size_const _ 4) by done. simpl.
  split; f_equal; lia.
Qed.

(** ** Room in the arrays *)

(** The words of the anonymous group, and of a selection of fields. *)
Definition anonymous_words (f : captured_fields) : nat :=
  if decide (averaging f ∧ find_sample_count (ci_index (f_sample_count f) !! 0%nat) (f_scaled32 f) 0 = None)
  then 1 else 0.
Definition word_count (f : captured_fields) : nat :=
  (anonymous_words f + 1 * length (f_unscaled f) + 1 * length (f_scaled32 f) +
   2 * length (f_scaled64 f) + 2 * length (f_averaged f) + 5 * length (f_std_dev f))%nat.

(** A step that takes the number of words to [n] succeeds exactly when they fit,
    and then [Q] holds of its result. *)
Definition room {A} (n : nat) (o : outcome A) (Q : A → Prop) : Prop :=
  if decide (n ≤ MAX_CAPTURE_COUNT)%nat then ∃ a, o = Ret a ∧ Q a else o = Undef.

Lemma room_bind {A B} n m (o : outcome A) (f : A → outcome B) P Q :
  (n ≤ m)%nat → room n o P → (∀ a, P a → room m (f a) Q) → room m (o ≫= f) Q.
Proof.
  intros Hnm Ho Hf. unfold room in Ho. destruct (decide (n ≤ _)%nat) as [Hn|Hn].
  - destruct Ho as (a & -> & Ha). by apply Hf.
  - rewrite Ho. unfold room. by rewrite decide_False by lia.
Qed.

Lemma room_ret {A} n (a : A) (Q : A → Prop) : (n ≤ MAX_CAPTURE_COUNT)%nat → Q a → room n (Ret a) Q.
Proof. intros Hn Ha. unfold room. rewrite decide_True by done. by eexists. Qed.

(** [n] words emitted, and no more scalings than words. *)
Definition within (n : nat) (g : gather) : Prop :=
  (length (scalings g) ≤ length (capture_array g))%nat ∧ length (capture_array g) = n ∧
  (n ≤ MAX_CAPTURE_COUNT)%nat.

Lemma emit_capture_room m g f n sc :
  (1 ≤ n ≤ 5)%nat → info_wf f → within m g →
  room (m + n) (emit_capture g f n sc) (λ r, within (m + n) r.2).
Proof.
  intros Hn Hf (Hs & Ha & Hm). unfold emit_capture, room, in_range. rewrite Ha.
  destruct (decide _) as [H|H]; [|by rewrite (bool_decide_false (_ + _ ≤ _)%nat)].
  rewrite (bool_decide_true (_ + _ ≤ _)%nat) by exact H. cbn [mbind outcome_bind].
  assert (length (take n (ci_index f)) = n) as Hl.
  { unfold info_wf, CAPTURE_INDEX_SIZE in Hf. rewrite length_take. lia. }
  destruct sc; [rewrite bool_decide_true by lia|]; eexists; (split; [done|]);
    unfold within; simpl; rewrite !length_app, Hl; simpl; lia.
Qed.

Lemma group_room {A} m N g l n sc (k : field_group * gather → outcome A) Q :
  (1 ≤ n ≤ 5)%nat → Forall info_wf l → within m g → (m + n * length l ≤ N)%nat →
  (∀ grp g', within (m + n * length l) g' → room N (k (grp, g')) Q) →
  room N (prepare_output_group g l n sc ≫= k) Q.
Proof.
  intros Hn Hl Hg HN Hk. unfold prepare_output_group. rewrite outcome_bind_assoc.
  apply (room_bind (m + n * length l) _ _ _ (within (m + n * length l))); [done| |by intros; apply Hk].
  clear Hk HN. revert m g Hg. induction Hl as [|f l Hf Hl IH]; intros m g Hg.
  { destruct Hg as (? & ? & ?). cbn [emit_all length]. rewrite Nat.mul_0_r, Nat.add_0_r. by apply room_ret. }
  cbn [emit_all length].
  apply (room_bind (m + n) _ _ _ (λ r, within (m + n) r.2)); [lia|by apply emit_capture_room|].
  intros [ix g1] Hg1. replace (m + n * S (length l))%nat with (m + n + n * length l)%nat by lia.
  by apply IH.
Qed.

Lemma anonymous_room f previous :
  fields_wf f →
  room (anonymous_words f)
    (if bool_decide (averaging f) then ensure_sample_count f (mk_gather [] [])
     else Ret (sample_count_index previous, false, mk_gather [] []))
    (λ r, within (anonymous_words f) r.2).
Proof.
  intros Hwf. unfold anonymous_words, ensure_sample_count.
  assert (within 0 (mk_gather [] [])) as H0 by (unfold within, MAX_CAPTURE_COUNT; simpl; lia).
  assert (0 ≤ MAX_CAPTURE_COUNT)%nat by lia.
  case_bool_decide; [|rewrite decide_False by naive_solver; by apply room_ret].
  destruct (find_sample_count _ _ _); [rewrite decide_False by naive_solver; by apply room_ret|].
  rewrite decide_True by done.
  apply (room_bind 1 _ _ _ (λ r, within 1 r.2)); [done|apply (emit_capture_room 0); [lia|apply Hwf|done]|].
  intros [ix g] Hg. apply room_ret; [apply Hg|done].
Qed.

Lemma gather_data_capture_room previous f :
  fields_wf f →
  room (word_count f) (gather_data_capture previous f) (λ r, length r.2 = word_count f).
Proof.
  intros Hwf. unfold gather_data_capture. rewrite averaging_bool.
  eapply room_bind; [|by apply anonymous_room|]; [unfold word_count; lia|]. intros [[ix anon] g0] H0.
  do 5 (eapply group_room; [lia|apply Hwf|eassumption|unfold word_count; lia|]; clear H0; intros ? ? H0).
  destruct H0 as (_ & H0 & H1). apply room_ret; [done|]. exact H0.
Qed.

(** [gather_data_capture] fills its arrays, of [MAX_CAPTURE_COUNT] entries,
    before anything checks the number of words: it stays within them exactly
    when the selected fields take no more than that many words, and writes
    outside them otherwise. *)
Theorem gather_room previous f :
  fields_wf f →
  if decide (word_count f ≤ MAX_CAPTURE_COUNT)%nat then
    ∃ c array, gather_data_capture previous f = Ret (c, array) ∧ length array = word_count f
  else gather_data_capture previous f = Undef.
Proof.
  intros Hwf. pose proof (gather_data_capture_room previous f Hwf) as Hr. unfold room in Hr.
  destruct (decide _); [|done]. destruct Hr as ([c array] & E & Hl). eauto.
Qed.

Lemma captured_groups samples values :
  let f := prepare_captured_fields samples values in
  f_sample_count f = samples ∧
  f_scaled32 f = filter (λ i, ci_mode i = CAPTURE_MODE_SCALED32) values ∧
  f_averaged f = filter (λ i, ci_mode i = CAPTURE_MODE_AVERAGE) values ∧
  f_std_dev f = filter (λ i, ci_mode i = CAPTURE_MODE_STDDEV) values ∧
  f_scaled64 f = filter (λ i, ci_mode i = CAPTURE_MODE_SCALED64) values ∧
  f_unscaled f = filter (λ i, ci_mode i = CAPTURE_MODE_UNSCALED) values.
Proof.
  unfold prepare_captured_fields. induction values as [|info values IH] using rev_ind; [done|].
  rewrite foldl_app. cbn [foldl]. destruct (foldl _ _ values) as [sc s32 avg sd s64 un].
  simpl in IH. destruct IH as (-> & -> & -> & -> & -> & ->). cbv zeta.
  rewrite !filter_app, !(filter_singleton_if info). unfold add_captured.
  destruct (ci_mode info); simpl; by rewrite ?app_nil_r.
Qed.

Lemma prepared_all (P : capture_info → Prop) samples values :
  Forall P values →
  let f := prepare_captured_fields samples values in
  Forall P (f_scaled32 f) ∧ Forall P (f_averaged f) ∧ Forall P (f_std_dev f) ∧
  Forall P (f_scaled64 f) ∧ Forall P (f_unscaled f).
Proof.
  intros HP f. destruct (captured_groups samples values) as (_ & E1 & E2 & E3 & E4 & E5). subst f.
  rewrite E1, E2, E3, E4, E5. rewrite !Forall_forall in *.
  split_and!; intros x [_ Hx]%list_elem_of_filter; by apply HP.
Qed.

Lemma prepared_wf samples values :
  info_wf samples → Forall info_wf values → fields_wf (prepare_captured_fields samples values).
Proof.
  intros Hs Hv. destruct (prepared_all info_wf samples values Hv) as (H1 & H2 & H3 & H4 & H5).
  destruct (captured_groups samples values) as (E & _). split; [by rewrite E|done..].
Qed.

(** The words of a list of values, whatever their groups. *)
Definition mode_words (m : capture_mode) : nat :=
  match m with
  | CAPTURE_MODE_SCALED32 | CAPTURE_MODE_UNSCALED => 1
  | CAPTURE_MODE_SCALED64 | CAPTURE_MODE_AVERAGE => 2
  | CAPTURE_MODE_STDDEV => 5
  end.
Definition value_words (values : list capture_info) : nat := sum_list_with (λ v, mode_words (ci_mode v)) values.

Lemma prepared_words samples values :
  let f := prepare_captured_fields samples values in
  word_count f = (anonymous_words f + value_words values)%nat.
Proof.
  destruct (captured_groups samples values) as (_ & E1 & E2 & E3 & E4 & E5). cbv zeta. unfold word_count, value_words.
  rewrite E1, E2, E3, E4, E5. clear. generalize (anonymous_words (prepare_captured_fields samples values)). intros k.
  induction values as [|v values IH]; [simpl; lia|]. simpl sum_list_with.
  rewrite !filter_cons. destruct (ci_mode v); simpl in *; lia.
Qed.

(** Every selected value lands in the group of its mode, in the order of
    selection, and in no other. *)
Theorem prepare_captured_fields_groups samples values :
  let f := prepare_captured_fields samples values in
  f_sample_count f = samples ∧
  f_scaled32 f = filter (λ i, ci_mode i = CAPTURE_MODE_SCALED32) values ∧
  f_averaged f = filter (λ i, ci_mode i = CAPTURE_MODE_AVERAGE) values ∧
  f_std_dev f = filter (λ i, ci_mode i = CAPTURE_MODE_STDDEV) values ∧
  f_scaled64 f = filter (λ i, ci_mode i = CAPTURE_MODE_SCALED64) values ∧
  f_unscaled f = filter (λ i, ci_mode i = CAPTURE_MODE_UNSCALED) values.
Proof. apply captured_groups. Qed.

(** When nothing is averaged the conversion still reads the sample count,
    at the position left by the capture before: with a sample that ends before
    that position the conversion reads outside its input. *)
Theorem stale_sample_count_read previous f c array bus :
  fields_wf f → ¬ averaging f → gather_data_capture previous f = Ret (c, array) →
  (length array ≤ sample_count_index previous)%nat →
  convert_raw_data_to_binary c DATA_PROCESS_SCALED 1 (bus <$> array) = Undef.
Proof.
  intros Hwf Ha E Hl. destruct (gather_laid_out _ _ _ _ Hwf E) as (Hlo & _ & Hst).
  cbn [convert_raw_data_to_binary convert_scaled_data].
  destruct (groups_converted bus f c array [] Hwf Hlo) as (E1 & E2 & E3). rewrite app_nil_r in E1, E2, E3.
  unfold convert_sample. rewrite E1, E2, E3. cbn [mbind outcome_bind].
  unfold average_scaled_data, at_index. rewrite lookup_ge_None_2; [done|].
  by rewrite length_fmap, Hst.
Qed.

(** ** A capture of one field of each kind *)

Definition example_info (i : Z) (mode : capture_mode) (mean : bool) : capture_info :=
  mk_info [i; i + 1; i + 2; i + 3; i + 4] mode (of_Z 2) (of_Z 1) mean.
Definition example_samples : capture_info := example_info 100 CAPTURE_MODE_SCALED32 false.
Definition example_fields : captured_fields :=
  prepare_captured_fields example_samples
    [example_info 0 CAPTURE_MODE_STDDEV true; example_info 10 CAPTURE_MODE_AVERAGE false;
     example_info 20 CAPTURE_MODE_SCALED64 false; example_info 30 CAPTURE_MODE_SCALED32 false;
     example_info 40 CAPTURE_MODE_UNSCALED false].
Definition empty_group : field_group := mk_group 0 0 0.
Definition initial_capture : data_capture :=
  mk_capture 0 0 false empty_group empty_group empty_group empty_group empty_group [] 0 [].
Definition example_array : list Z := [100; 40; 30; 20; 21; 10; 11; 0; 1; 2; 3; 4].

Lemma example_fields_wf : fields_wf example_fields.
Proof. split; unfold info_wf; repeat constructor. Defined.

(** Eight samples of 3 or 4: sum 28, sum of squares 100. *)
Definition example_bus (i : Z) : Z := if decide (i = 100) then 8 else if decide (i = 0) then 28 else
  if decide (i = 2) then 100 else if decide (i = 10) then 28 else if decide (i = 30) then 7 else 0.

Lemma convert_scaled_data_correct_witness :
  ∃ c, gather_data_capture initial_capture example_fields = Ret (c, example_array) ∧
  convert_raw_data_to_binary c DATA_PROCESS_SCALED 2
    (concat ((λ bus, bus <$> example_array) <$> [example_bus; example_bus]) ++ []) =
  @concat item <$> mapM (λ bus, sample_meaning bus example_fields) [example_bus; example_bus].
Proof.
  eexists. split; [vm_compute; reflexivity|].
  apply (convert_scaled_data_correct initial_capture example_fields _ example_array [example_bus; example_bus]);
    [apply example_fields_wf|vm_compute; reflexivity|left; left; vm_compute; lia].
Defined.

Lemma binary_sample_length_exact_witness :
  ∃ c o, items_size o = 44%nat ∧
    get_binary_sample_length c DATA_PROCESS_SCALED = Ret (items_size o) ∧
    get_binary_sample_length c DATA_PROCESS_RAW = Ret (items_size (Word <$> example_array)).
Proof.
  eexists _, _. split.
  2: refine (binary_sample_length_exact initial_capture example_fields _ example_array example_bus _
    example_fields_wf _ _ _ _); [vm_compute; reflexivity|vm_compute; lia|vm_compute; reflexivity|done].
  vm_compute. reflexivity.
Defined.

(** Standard deviations of all thirty-two positions, with anything else. *)
Definition full_fields : captured_fields :=
  prepare_captured_fields example_samples
    (concat (replicate POS_BUS_COUNT
       [example_info 0 CAPTURE_MODE_STDDEV true; example_info 10 CAPTURE_MODE_SCALED64 false;
        example_info 20 CAPTURE_MODE_SCALED32 false; example_info 30 CAPTURE_MODE_SCALED32 false])).

Lemma full_fields_wf : fields_wf full_fields.
Proof. split; unfold info_wf; repeat constructor. Defined.

Lemma gather_room_witness :
  word_count full_fields = 289%nat ∧ gather_data_capture initial_capture full_fields = Undef.
Proof.
  split; [vm_compute; reflexivity|]. pose proof (gather_room initial_capture full_fields full_fields_wf) as H.
  destruct (decide _) as [Hd|Hd]; [|exact H]. exfalso. vm_compute in Hd. lia.
Defined.

Definition small_fields : captured_fields :=
  prepare_captured_fields example_samples [example_info 40 CAPTURE_MODE_UNSCALED false].
Definition stale_capture : data_capture :=
  mk_capture 0 1 false empty_group empty_group empty_group empty_group empty_group [] 0 [].

Lemma stale_sample_count_read_witness :
  ∃ c, convert_raw_data_to_binary c DATA_PROCESS_SCALED 1 (example_bus <$> [40]) = Undef.
Proof.
  eexists. refine (stale_sample_count_read stale_capture small_fields _ [40] example_bus _ _ _ _).
  - split; unfold info_wf; repeat constructor.
  - unfold averaging. vm_compute. lia.
  - vm_compute. reflexivity.
  - vm_compute. lia.
Defined.

End CaptureSpec.
