(* ===== verification/PosOut.v ===== *)
(** * Position outputs: panda-server/server/pos_out.c

    Each value of a pos_out field has a mask of capture options.  The mask is
    written and read back as text through an enumeration of option names, and is
    turned into the list of words to capture.  The position bus itself, the
    values last read from it and the scaled values are in the same file.

    Scale, offset and scaled value are printed and read as floating point
    numbers, which is not modelled. *)

From S2P Require Import Prelude Errors Parse Format HashTable HashTableSpec Enums StdDev Capture.
From stdpp Require Import base numbers list list_numbers gmap option strings pretty.
Open Scope Z_scope.

Module PosOut.
Import Parse Format Double Capture.

Definition MAX_NAME_LENGTH : nat := 32.
Definition FPGA_CAPABILITY_STDDEV : Z := Z.shiftl 1 0.

(** [a & b] as a condition. *)
Definition bits_set (a b : Z) : bool := bool_decide (Z.land a b ≠ 0).

(** ** Options *)

Definition POS_OUT_CAPTURE_VALUE : Z := 0.
Definition POS_OUT_CAPTURE_DIFF : Z := 1.
Definition POS_OUT_CAPTURE_SUM : Z := 2.
Definition POS_OUT_CAPTURE_MIN : Z := 3.
Definition POS_OUT_CAPTURE_MAX : Z := 4.
Definition POS_OUT_CAPTURE_MEAN : Z := 5.
Definition POS_OUT_CAPTURE_STDDEV : Z := 6.

Definition CAPTURE_VALUE_BIT : Z := Z.shiftl 1 POS_OUT_CAPTURE_VALUE.
Definition CAPTURE_DIFF_BIT : Z := Z.shiftl 1 POS_OUT_CAPTURE_DIFF.
Definition CAPTURE_SUM_BIT : Z := Z.shiftl 1 POS_OUT_CAPTURE_SUM.
Definition CAPTURE_MIN_BIT : Z := Z.shiftl 1 POS_OUT_CAPTURE_MIN.
Definition CAPTURE_MAX_BIT : Z := Z.shiftl 1 POS_OUT_CAPTURE_MAX.
Definition CAPTURE_MEAN_BIT : Z := Z.shiftl 1 POS_OUT_CAPTURE_MEAN.
Definition CAPTURE_STDDEV_BIT : Z := Z.shiftl 1 POS_OUT_CAPTURE_STDDEV.

(** The words of a position on the capture bus. *)
Definition POS_FIELD_VALUE : Z := 0.
Definition POS_FIELD_DIFF : Z := 1.
Definition POS_FIELD_SUM_LOW : Z := 2.
Definition POS_FIELD_SUM_HIGH : Z := 3.
Definition POS_FIELD_MIN : Z := 4.
Definition POS_FIELD_MAX : Z := 5.
Definition POS_FIELD_SUM2_LOW : Z := 6.
Definition POS_FIELD_SUM2_MID : Z := 7.
Definition POS_FIELD_SUM2_HIGH : Z := 8.

Definition CAPTURE_POS_BUS (pos_ix mode : Z) : Z :=
  Z.lor (Z.shiftl (Z.land pos_ix 31) 4) (Z.land mode 15).

(** [struct capture_option_info]; missing indices are zero. *)
Record option_info := mk_option {
  option_name : string;
  option_mode : capture_mode;
  option_index : list Z;
}.
Definition CAPTURE_INFO (name : string) (mode : capture_mode) (index : list Z) : option_info :=
  mk_option name mode (index ++ replicate (CAPTURE_INDEX_SIZE - length index) 0).

Definition capture_option_info : list option_info := [
  CAPTURE_INFO "Value" CAPTURE_MODE_SCALED32 [POS_FIELD_VALUE];
  CAPTURE_INFO "Diff" CAPTURE_MODE_SCALED32 [POS_FIELD_DIFF];
  CAPTURE_INFO "Sum" CAPTURE_MODE_SCALED64 [POS_FIELD_SUM_LOW; POS_FIELD_SUM_HIGH];
  CAPTURE_INFO "Min" CAPTURE_MODE_SCALED32 [POS_FIELD_MIN];
  CAPTURE_INFO "Max" CAPTURE_MODE_SCALED32 [POS_FIELD_MAX];
  CAPTURE_INFO "Mean" CAPTURE_MODE_AVERAGE [POS_FIELD_SUM_LOW; POS_FIELD_SUM_HIGH];
  CAPTURE_INFO "StdDev" CAPTURE_MODE_STDDEV
    [POS_FIELD_SUM_LOW; POS_FIELD_SUM_HIGH; POS_FIELD_SUM2_LOW; POS_FIELD_SUM2_MID; POS_FIELD_SUM2_HIGH]].

Definition nominal_capture_masks : list Z := [
  0;
  CAPTURE_VALUE_BIT;
  CAPTURE_DIFF_BIT;
  CAPTURE_SUM_BIT;
  CAPTURE_MEAN_BIT;
  CAPTURE_MIN_BIT;
  CAPTURE_MAX_BIT;
  Z.lor CAPTURE_MIN_BIT CAPTURE_MAX_BIT;
  Z.lor (Z.lor CAPTURE_MIN_BIT CAPTURE_MAX_BIT) CAPTURE_MEAN_BIT;
  CAPTURE_STDDEV_BIT;
  Z.lor CAPTURE_MEAN_BIT CAPTURE_STDDEV_BIT].

(** ** Fields *)

Record pos_out_field := mk_pos_field {
  scale : double;
  offset : double;
  units : option cstring;
  capture_index : Z;
  capture_mask : Z;
}.
(** [struct pos_out]: the [count] is the length. *)
Abbreviation pos_out := (list pos_out_field).

Definition set_capture_index (f : pos_out_field) (ix : Z) : pos_out_field :=
  mk_pos_field (scale f) (offset f) (units f) ix (capture_mask f).
Definition set_capture_mask (f : pos_out_field) (mask : Z) : pos_out_field :=
  mk_pos_field (scale f) (offset f) (units f) (capture_index f) mask.
Definition set_units (f : pos_out_field) (u : cstring) : pos_out_field :=
  mk_pos_field (scale f) (offset f) (Some u) (capture_index f) (capture_mask f).

(** ** Reading values *)

(** The values last read and the change index of each. *)
Record pos_bus := mk_bus { pos_value : list Z; pos_update_index : list Z }.

(** [do_pos_out_refresh]; the values and the changed flags come from the hardware. *)
Definition do_pos_out_refresh (b : pos_bus) (values : list Z) (changes : list bool) (change_index : Z)
    : pos_bus :=
  mk_bus values
    (zip_with (λ (changed : bool) ix, if changed && bool_decide (ix < change_index) then change_index else ix)
       changes (pos_update_index b)).

Definition read_pos_out_value (b : pos_bus) (p : pos_out) (number : nat) : outcome Z :=
  f ← at_index p number;
  result ← at_index (pos_value b) (Z.to_nat (capture_index f));
  Ret (to_signed 32 result).

Definition pos_out_get (b : pos_bus) (p : pos_out) (number length_ : nat) : outcome (res cstring) :=
  v ← read_pos_out_value b p number; Ret (format_string length_ (fmt_d v)).

Definition pos_out_change_set (b : pos_bus) (p : pos_out) (report_index : Z) : outcome (list bool) :=
  mapM (λ f, ix ← at_index (pos_update_index b) (Z.to_nat (capture_index f));
             Ret (bool_decide (report_index < ix))) p.

(** ** Units *)

Definition pos_out_units_format (p : pos_out) (number length_ : nat) : outcome (res cstring) :=
  f ← at_index p number; Ret (format_string length_ (default [] (units f))).

Definition pos_out_units_put (p : pos_out) (number : nat) (value : cstring) : outcome (error__t * pos_out) :=
  f ← at_index p number;
  match parse_utf8_string value with
  | (OK u, _) => Ret (None, <[number := set_units f u]> p)
  | (Err e, _) => Ret (Some e, p)
  end.

(** ** Capture options as text *)

(** [format_capture_string]: the bytes stored in [buffer], from its start.  The
    loop has [formatted] holding what it has stored. *)
Fixpoint format_loop (mask : Z) (length_ : nat) (l : list option_info) (i : Z) (formatted : cstring)
    : error__t * cstring :=
  match l with
  | [] => (None, formatted)
  | info :: rest =>
      if bits_set mask (Z.shiftl 1 i) then
        let option := bytes_of (option_name info) in
        let separator : cstring := if bool_decide (0 < length formatted)%nat then [32] else [] in
        if bool_decide (length formatted + length separator + length option + 1 < length_)%nat then
          format_loop mask length_ rest (i + 1) (formatted ++ separator ++ option)
        else (Some (error_create None "Unexpected buffer overflow in pos_out format"), formatted)
      else format_loop mask length_ rest (i + 1) formatted
  end.
Definition format_capture_string (mask : Z) (length_ : nat) : outcome (error__t * list Z) :=
  match format_loop mask length_ capture_option_info 0 [] with
  | (Some e, _) => Ret (Some e, take length_ (bytes_of "(overflow)" ++ replicate length_ 0))
  | (None, formatted) =>
      if bool_decide (length formatted = 0)%nat then
        _ ← in_range (bool_decide (3 ≤ length_)%nat); Ret (None, bytes_of "No" ++ [0])
      else Ret (None, formatted ++ [0])
  end.

Definition pos_out_capture_format (p : pos_out) (number length_ : nat) : outcome (error__t * list Z) :=
  f ← at_index p number; format_capture_string (capture_mask f) length_.

Section lookup.
Context `{Platform} {T : Type} `{!StringTable Z T}.
Abbreviation enumeration := (Enums.enumeration (T := T)).

(** The loop of [pos_out_capture_put]: each turn consumes a name. *)
Fixpoint capture_loop (fuel : nat) (lookup_capture_option : enumeration) (mask : Z) (value : cstring)
    : outcome (error__t * Z) :=
  if bool_decide (cur value = 0) then Ret (None, mask) else
  match fuel with
  | O => Undef
  | S fuel' =>
      match parse_name MAX_NAME_LENGTH value with
      | (Err e, _) => Ret (Some e, mask)
      | (OK option, value') =>
          let value' := skip_whitespace value' in
          found ← Enums.enum_name_to_index lookup_capture_option option;
          match found with
          | None =>
              Ret (Some (error_create None ("Unknown capture option " +:+ Enums.quote +:+
                Enums.text_of option +:+ Enums.quote)), mask)
          | Some ix => capture_loop fuel' lookup_capture_option (Z.lor mask (u32 (Z.shiftl 1 ix))) value'
          end
      end
  end.
Definition parse_capture (lookup_capture_option : enumeration) (value : cstring) : outcome (error__t * Z) :=
  if bool_decide (value ≠ bytes_of "No") then
    capture_loop (length value) lookup_capture_option 0 value
  else Ret (None, 0).
Definition pos_out_capture_put (lookup_capture_option : enumeration) (p : pos_out) (number : nat)
    (value : cstring) : outcome (error__t * pos_out) :=
  f ← at_index p number;
  '(error, mask) ← parse_capture lookup_capture_option value;
  match error with
  | None => Ret (None, <[number := set_capture_mask f mask]> p)
  | Some e => Ret (Some e, p)
  end.

(** [get_capture_options]: the lines written. *)
Definition get_capture_options (capabilities : Z) : list string :=
  let enable_std_dev := bits_set capabilities FPGA_CAPABILITY_STDDEV in
  (λ x : nat * option_info, option_name x.2) <$>
    filter (λ x : nat * option_info, enable_std_dev = true ∨ Z.of_nat x.1 ≠ POS_OUT_CAPTURE_STDDEV)
      (imap pair capture_option_info).

(** [reset_pos_out_capture]: whether the change is notified. *)
Definition reset_pos_out_capture (p : pos_out) (number : nat) : outcome (pos_out * bool) :=
  f ← at_index p number;
  if bool_decide (capture_mask f ≠ 0) then Ret (<[number := set_capture_mask f 0]> p, true)
  else Ret (p, false).

(** [report_pos_out_capture]: the line written, if any; a line without a
    terminator in the buffer of [length_] bytes is read past its end. *)
Definition report_pos_out_capture (p : pos_out) (number : nat) (field_name : cstring) (length_ : nat)
    : outcome (option cstring) :=
  f ← at_index p number;
  if bool_decide (capture_mask f ≠ 0) then
    let written := S (length field_name) in
    _ ← in_range (bool_decide (written ≤ length_)%nat);
    '(_, stored) ← format_capture_string (capture_mask f) (length_ - written);
    _ ← in_range (bool_decide (0 ∈ stored));
    Ret (Some (field_name ++ [32] ++ c_str stored))
  else Ret None.

(** ** What is captured *)

(** A captured value with the texts of its description. *)
Record captured_value := mk_captured {
  cv_info : capture_info;
  cv_string : string;
  cv_units : cstring;
}.

(** One option of [get_pos_out_capture_info]; [snprintf] has no meaning for a
    null string. *)
Definition option_capture (f : pos_out_field) (i : Z) (info : option_info) : outcome captured_value :=
  u ← match units f with Some u => Ret u | None => Undef end;
  Ret (mk_captured
    (mk_info (CAPTURE_POS_BUS (capture_index f) <$> option_index info) (option_mode info)
       (scale f) (offset f) (bits_set (capture_mask f) CAPTURE_MEAN_BIT))
    (option_name info) (take (MAX_NAME_LENGTH - 1) u)).
Definition captures (mask i : Z) : bool :=
  bits_set mask (Z.shiftl 1 i) &&
  negb (bool_decide (i = POS_OUT_CAPTURE_MEAN) && bits_set mask CAPTURE_STDDEV_BIT).
Fixpoint capture_info_loop (f : pos_out_field) (l : list option_info) (i : Z)
    : outcome (list captured_value) :=
  match l with
  | [] => Ret []
  | info :: rest =>
      if captures (capture_mask f) i then
        c ← option_capture f i info;
        cs ← capture_info_loop f rest (i + 1);
        Ret (c :: cs)
      else capture_info_loop f rest (i + 1)
  end.
Definition get_pos_out_capture_info (p : pos_out) (number : nat) : outcome (list captured_value) :=
  f ← at_index p number; capture_info_loop f capture_option_info 0.

(** ** Initialisation *)

Definition create_pos_out (count : nat) (scale offset : double) (units : option cstring) : pos_out :=
  replicate count (mk_pos_field scale offset units 0 0).

(** [assign_capture_values], with the static [pos_bus_index_used]. *)
Fixpoint assign_loop (n i : nat) (used : list bool) (p : pos_out) (values : list Z)
    : outcome (error__t * list bool * pos_out) :=
  match n with
  | O => Ret (None, used, p)
  | S n' =>
      v ← at_index values i;
      match TEST_OK_ (bool_decide (v < Z.of_nat POS_BUS_COUNT)) "Capture index out of range" with
      | Some e => Ret (Some e, used, p)
      | None =>
          u ← at_index used (Z.to_nat v);
          match TEST_OK_ (negb u) ("Capture index " +:+ pretty v +:+ " already used") with
          | Some e => Ret (Some e, used, p)
          | None =>
              f ← at_index p i;
              assign_loop n' (S i) (<[Z.to_nat v := true]> used) (<[i := set_capture_index f v]> p) values
          end
      end
  end.
Definition assign_capture_values (used : list bool) (p : pos_out) (values : list Z)
    : outcome (error__t * list bool * pos_out) :=
  assign_loop (length p) 0 used p values.

(** [initialise_keyword_lookup]: the enumeration of option names. *)
Fixpoint keyword_loop (enable_std_dev : bool) (l : list option_info) (i : Z) (e : enumeration)
    : outcome (error__t * enumeration) :=
  match l with
  | [] => Ret (None, e)
  | info :: rest =>
      if enable_std_dev || bool_decide (i ≠ POS_OUT_CAPTURE_STDDEV) then
        '(error, e) ← Enums.add_enumeration e (bytes_of (option_name info)) i;
        match error with
        | None => keyword_loop enable_std_dev rest (i + 1) e
        | Some _ => Ret (error, e)
        end
      else keyword_loop enable_std_dev rest (i + 1) e
  end.
Definition initialise_keyword_lookup (enable_std_dev : bool) : outcome (error__t * option enumeration) :=
  '(error, e) ← keyword_loop enable_std_dev capture_option_info 0 Enums.create_dynamic_enumeration;
  Ret (error, if bool_decide (error = None) then Some e else None).

(** [initialise_available_enums]: the texts of the usual masks. *)
Fixpoint available_loop (enable_std_dev : bool) (masks : list Z) (i : Z) (e : enumeration)
    : outcome (error__t * enumeration) :=
  match masks with
  | [] => Ret (None, e)
  | mask :: rest =>
      if enable_std_dev || negb (bits_set mask CAPTURE_STDDEV_BIT) then
        '(error, stored) ← format_capture_string mask 64;
        match error with
        | Some _ => Ret (error, e)
        | None =>
            '(error, e) ← Enums.add_enumeration e (c_str stored) i;
            match error with
            | None => available_loop enable_std_dev rest (i + 1) e
            | Some _ => Ret (error, e)
            end
        end
      else available_loop enable_std_dev rest (i + 1) e
  end.
Definition initialise_available_enums (enable_std_dev : bool) : outcome (error__t * option enumeration) :=
  '(error, e) ← available_loop enable_std_dev nominal_capture_masks 0 Enums.create_dynamic_enumeration;
  Ret (error, if bool_decide (error = None) then Some e else None).

(** [initialise_pos_out]: [lookup_capture_option] and [pos_out_capture_enum]. *)
Definition initialise_pos_out (capabilities : Z)
    : outcome (error__t * option enumeration * option enumeration) :=
  let enable_std_dev := bits_set capabilities FPGA_CAPABILITY_STDDEV in
  '(error, keywords) ← initialise_keyword_lookup enable_std_dev;
  match error with
  | Some _ => Ret (error, keywords, None)
  | None => '(error, available) ← initialise_available_enums enable_std_dev; Ret (error, keywords, available)
  end.

End lookup.
End PosOut.
