(* ===== verification/PosOutSpec.v ===== *)
(** * What position outputs promise

    The option names form an enumeration whatever hash table backs it, the text
    of a mask reads back as the mask, the words captured for different positions
    are different, and no two position outputs share a place on the bus. *)

From S2P Require Import Prelude Errors Parse Format HashTable HashTableSpec Enums StdDev Capture CaptureSpec PosOut.
From stdpp Require Import base numbers list list_numbers gmap option strings pretty.
Open Scope Z_scope.

Module PosOutSpec.
Import Parse Format Double Capture CaptureSpec PosOut.

Section lookup.
Context `{Platform} {T : Type} `{!StringTable Z T}.
Abbreviation enumeration := (Enums.enumeration (T := T)).

(** ** Enumerations built entry by entry *)

Definition entry_of (x : Z * cstring) : Enums.enum_entry := Enums.mk_enum x.1 (Some x.2).
Record holds (e : enumeration) (xs : list (Z * cstring)) : Prop := {
  h_wf : Enums.enum_wf e;
  h_capacity : 0 < Enums.set_capacity e;
  h_enums : Enums.enums e ≡ₚ entry_of <$> xs;
}.

Lemma holds_labelled e xs v n : holds e xs → Enums.labelled e v n ↔ (v, n) ∈ xs.
Proof.
  intros [_ _ He]. unfold Enums.labelled. rewrite He, list_elem_of_fmap. split.
  - intros ([v' n'] & E & Hin). unfold entry_of in E. simpl in E. by simplify_eq.
  - intros Hin. by exists (v, n).
Qed.

Lemma create_dynamic_holds : holds Enums.create_dynamic_enumeration [].
Proof. split; [apply Enums.create_dynamic_wf|done|done]. Qed.

Lemma add_fresh e xs v n :
  holds e xs → (length xs < 1000)%nat → 0 ≤ v < 2 ^ 32 → v ∉ xs.*1 → n ∉ xs.*2 →
  ∃ e', Enums.add_enumeration e n v = Ret (None, e') ∧ holds e' ((v, n) :: xs).
Proof.
  intros Hh Hlen Hv Hfv Hfn. pose proof Hh as [Hwf Hcap He].
  assert (Enums.count e < HashTableSpec.MAX_COUNT) as Hc.
  { unfold Enums.count. rewrite He, length_fmap. unfold HashTableSpec.MAX_COUNT.
    assert (1000 < 2 ^ (long_bits - 4)) by (destruct long_bits_ok as [-> | ->]; done). lia. }
  destruct (Enums.add_entry_spec e n v Hwf Hcap Hc Hv) as (err & e' & E & [Hwf' Hcap'] & Herr & Hperm).
  assert (err = None) as ->.
  { apply Herr. split.
    - intros m Hm%(holds_labelled _ _ _ _ Hh). apply Hfv. apply list_elem_of_fmap. by exists (v, m).
    - intros w Hm%(holds_labelled _ _ _ _ Hh). apply Hfn. apply list_elem_of_fmap. by exists (w, n). }
  exists e'. split; [done|]. split; [done..|]. rewrite Hperm, He. done.
Qed.

(** Entries added in turn. *)
Fixpoint add_list (e : enumeration) (xs : list (Z * cstring)) : outcome (error__t * enumeration) :=
  match xs with
  | [] => Ret (None, e)
  | (v, n) :: rest =>
      '(error, e) ← Enums.add_enumeration e n v;
      match error with None => add_list e rest | Some _ => Ret (error, e) end
  end.

Lemma add_list_holds e xs ys :
  holds e ys → (length xs + length ys < 1000)%nat → Forall (λ x : Z * cstring, 0 ≤ x.1 < 2 ^ 32) xs →
  NoDup (xs.*1 ++ ys.*1) → NoDup (xs.*2 ++ ys.*2) →
  ∃ e', add_list e xs = Ret (None, e') ∧ holds e' (reverse xs ++ ys).
Proof.
  revert e ys. induction xs as [|[v n] xs IH]; intros e ys Hh Hlen Hv Hd1 Hd2; [by exists e|].
  apply list.Forall_cons in Hv as [Hv Hvs]. csimpl in Hd1; csimpl in Hd2. simpl in *.
  apply list.NoDup_cons in Hd1 as [Hf1 Hd1], Hd2 as [Hf2 Hd2]. rewrite not_elem_of_app in Hf1. rewrite not_elem_of_app in Hf2.
  destruct (add_fresh e ys v n Hh) as (e1 & -> & Hh1); [lia|done|tauto..|]. cbn [mbind outcome_bind].
  destruct (IH e1 ((v, n) :: ys) Hh1) as (e2 & -> & Hh2); [simpl; lia|done|..].
  - csimpl. rewrite <-Permutation_middle. apply list.NoDup_cons. by rewrite not_elem_of_app.
  - csimpl. rewrite <-Permutation_middle. apply list.NoDup_cons. by rewrite not_elem_of_app.
  - exists e2. split; [done|]. by rewrite reverse_cons, <-(assoc_L (++)).
Qed.

(** A list of entries that can all be added to an empty enumeration. *)
Definition addable (xs : list (Z * cstring)) : Prop :=
  (length xs < 1000)%nat ∧ Forall (λ x : Z * cstring, 0 ≤ x.1 < 2 ^ 32) xs ∧ NoDup xs.*1 ∧ NoDup xs.*2.
#[local] Instance addable_dec xs : Decision (addable xs).
Proof. unfold addable. apply _. Defined.

Lemma add_list_created xs :
  addable xs → ∃ e, add_list Enums.create_dynamic_enumeration xs = Ret (None, e) ∧ holds e (reverse xs).
Proof.
  intros (H1 & H2 & H3 & H4). destruct (add_list_holds Enums.create_dynamic_enumeration xs []) as (e & E & He).
  - apply create_dynamic_holds.
  - simpl. lia.
  - done.
  - by rewrite app_nil_r.
  - by rewrite app_nil_r.
  - exists e. by rewrite app_nil_r in He.
Qed.

(** The names and values the option enumeration has. *)
Fixpoint keyword_list (enable_std_dev : bool) (l : list option_info) (i : Z) : list (Z * cstring) :=
  match l with
  | [] => []
  | info :: rest =>
      (if enable_std_dev || bool_decide (i ≠ POS_OUT_CAPTURE_STDDEV) then [(i, bytes_of (option_name info))]
       else []) ++ keyword_list enable_std_dev rest (i + 1)
  end.
Definition keywords (enable_std_dev : bool) : list (Z * cstring) :=
  keyword_list enable_std_dev capture_option_info 0.

Lemma keyword_loop_list enable l i e : keyword_loop enable l i e = add_list e (keyword_list enable l i).
Proof.
  revert i e. induction l as [|info l IH]; intros i e; simpl; [done|].
  destruct (enable || _); [|apply IH]. simpl.
  destruct (Enums.add_enumeration e _ i) as [[[?|] e']| |]; [done|apply IH|done..].
Qed.

Lemma keyword_lookup_ok enable :
  ∃ e, initialise_keyword_lookup enable = Ret (None, Some e) ∧ holds e (reverse (keywords enable)).
Proof.
  unfold initialise_keyword_lookup. rewrite keyword_loop_list.
  destruct (add_list_created (keywords enable)) as (e & E & He).
  { destruct enable; apply (bool_decide_unpack _); by vm_compute. }
  unfold keywords in E. rewrite E. by exists e.
Qed.

(** The usual masks, with their texts. *)
Definition capture_text (mask : Z) : cstring :=
  match format_capture_string mask 64 with Ret (_, stored) => c_str stored | _ => [] end.
Fixpoint nominal_list (enable_std_dev : bool) (masks : list Z) (i : Z) : list (Z * cstring) :=
  match masks with
  | [] => []
  | mask :: rest =>
      (if enable_std_dev || negb (bits_set mask CAPTURE_STDDEV_BIT) then [(i, capture_text mask)] else []) ++
      nominal_list enable_std_dev rest (i + 1)
  end.
Definition nominal (enable_std_dev : bool) : list (Z * cstring) :=
  nominal_list enable_std_dev nominal_capture_masks 0.

Definition formats (mask : Z) : bool :=
  match format_capture_string mask 64 with Ret (None, _) => true | _ => false end.

Lemma available_loop_list enable masks i e :
  Forall (λ m, formats m = true) masks →
  available_loop enable masks i e = add_list e (nominal_list enable masks i).
Proof.
  intros Hm. revert i e. induction Hm as [|mask masks Hm _ IH]; intros i e; simpl; [done|].
  destruct (enable || _); [|apply IH]. simpl. unfold formats, capture_text in *.
  destruct (format_capture_string mask 64) as [[[?|] stored]| |]; [done| |done..]. cbn [mbind outcome_bind].
  destruct (Enums.add_enumeration e _ i) as [[[?|] e']| |]; [done|apply IH|done..].
Qed.

Lemma available_enums_ok enable :
  ∃ e, initialise_available_enums enable = Ret (None, Some e) ∧ holds e (reverse (nominal enable)).
Proof.
  unfold initialise_available_enums. rewrite available_loop_list.
  2:{ apply (bool_decide_unpack _). by vm_compute. }
  destruct (add_list_created (nominal enable)) as (e & E & He).
  { destruct enable; apply (bool_decide_unpack _); by vm_compute. }
  unfold nominal in E. rewrite E. by exists e.
Qed.

(** The option enumerations are built without an error on every FPGA: the
    names accepted are those of the capture options, and those listed for the
    attribute are the texts of the usual masks, less what needs the standard
    deviation when the FPGA cannot compute it. *)
Theorem initialise_pos_out_ok capabilities :
  let enable := bits_set capabilities FPGA_CAPABILITY_STDDEV in
  ∃ keys avail, initialise_pos_out capabilities = Ret (None, Some keys, Some avail) ∧
    Enums.enum_wf keys ∧ Enums.enum_wf avail ∧
    (∀ v n, Enums.labelled keys v n ↔ (v, n) ∈ keywords enable) ∧
    (∀ v n, Enums.labelled avail v n ↔ (v, n) ∈ nominal enable).
Proof.
  intros enable. unfold initialise_pos_out. fold enable.
  destruct (keyword_lookup_ok enable) as (e1 & -> & H1). cbn [mbind outcome_bind].
  destruct (available_enums_ok enable) as (e2 & -> & H2). cbn [mbind outcome_bind].
  exists e1, e2. split_and!; [done|apply H1|apply H2|..]; intros v n.
  - by rewrite (holds_labelled _ _ _ _ H1), elem_of_reverse.
  - by rewrite (holds_labelled _ _ _ _ H2), elem_of_reverse.
Qed.

(** ** Reading options *)

(** The enumeration [initialise_pos_out] leaves in [lookup_capture_option]. *)
Definition is_lookup (enable : bool) (e : enumeration) : Prop :=
  Enums.enum_wf e ∧ ∀ v n, Enums.labelled e v n ↔ (v, n) ∈ keywords enable.

Lemma holds_is_lookup enable e : holds e (reverse (keywords enable)) → is_lookup enable e.
Proof.
  intros He. split; [apply He|]. intros v n. by rewrite (holds_labelled _ _ _ _ He), elem_of_reverse.
Qed.

Lemma keyword_found enable e v n :
  is_lookup enable e → (v, n) ∈ keywords enable → Enums.enum_name_to_index e n = Ret (Some v).
Proof.
  intros [Hwf Hl] Hin. destruct (Enums.name_to_index_spec e n Hwf) as (r & -> & Hr).
  f_equal. by apply Hr, Hl.
Qed.

Lemma keywords_names enable v n :
  (v, n) ∈ keywords enable → 0 ≤ v < 7 ∧ n ≠ [] ∧ (length n < MAX_NAME_LENGTH)%nat ∧
    Forall (λ c, valid_name_char c = true) n ∧ cur n ≠ 78.
Proof.
  intros Hin.
  assert (Forall (λ x : Z * cstring, 0 ≤ x.1 < 7 ∧ x.2 ≠ [] ∧ (length x.2 < MAX_NAME_LENGTH)%nat ∧
    Forall (λ c, valid_name_char c = true) x.2 ∧ cur x.2 ≠ 78) (keywords enable)) as HF.
  { destruct enable; apply (bool_decide_unpack _); by vm_compute. }
  rewrite Forall_forall in HF. by apply (HF (v, n)).
Qed.

Lemma parse_name_word n rest :
  n ≠ [] → (length n < MAX_NAME_LENGTH)%nat → Forall (λ c, valid_name_char c = true) n →
  (∀ c, head rest = Some c → is_blank c = true) →
  parse_name MAX_NAME_LENGTH (n ++ rest) = (OK n, rest).
Proof.
  intros Hne Hl Hn Hrest. unfold parse_name, parse_filtered_name.
  rewrite filtered_loop_name; [|done..|].
  - rewrite (bool_decide_true (0 < _)%nat) by (destruct n; [done|simpl; lia]).
    by rewrite (bool_decide_true (_ < MAX_NAME_LENGTH)%nat).
  - intros c Hc. specialize (Hrest c Hc). unfold is_blank in Hrest.
    apply orb_true_iff in Hrest as [?%bool_decide_eq_true | ?%bool_decide_eq_true]; by subst c.
Qed.

(** Option names, each followed by the blanks that separate it from the next. *)
Record word := mk_word { w_option : Z * cstring; w_blanks : cstring }.
Definition spell (ws : list word) : cstring := concat ((λ w, (w_option w).2 ++ w_blanks w) <$> ws).
Definition mask_of (mask : Z) (ws : list word) : Z :=
  foldl (λ m w, Z.lor m (Z.shiftl 1 (w_option w).1)) mask ws.

Fixpoint words_ok (enable : bool) (ws : list word) : Prop :=
  match ws with
  | [] => True
  | w :: rest =>
      w_option w ∈ keywords enable ∧ Forall (λ c, is_blank c = true) (w_blanks w) ∧
      (rest ≠ [] → w_blanks w ≠ []) ∧ words_ok enable rest
  end.

(** Every line that starts with a word starts with a letter. *)
Lemma spell_cur enable ws :
  words_ok enable ws → is_blank (cur (spell ws)) = false ∧ (ws ≠ [] → cur (spell ws) ≠ 0 ∧ cur (spell ws) ≠ 78).
Proof.
  destruct ws as [|[[v n] b] ws]; [done|]. intros (Hin & _). cbn [w_option] in Hin.
  destruct (keywords_names enable v n Hin) as (_ & Hne & _ & Hch & H78).
  destruct n as [|c n]; [done|]. apply list.Forall_cons in Hch as [Hc _]. cbn in H78 |- *.
  split; [|intros _; split; [|done]].
  - unfold is_blank. rewrite orb_false_iff, !bool_decide_eq_false. split; intros ->; done.
  - intros ->. done.
Qed.

Lemma capture_loop_words enable e ws mask fuel :
  is_lookup enable e → words_ok enable ws → (length (spell ws) ≤ fuel)%nat →
  capture_loop fuel e mask (spell ws) = Ret (None, mask_of mask ws).
Proof.
  intros He. revert mask fuel. induction ws as [|w ws IH]; intros mask fuel Hok Hfuel.
  { by destruct fuel. }
  destruct (spell_cur enable (w :: ws) Hok) as [_ [Hcur _]]; [done|].
  destruct Hok as (Hin & Hb & Hsep & Hok). destruct w as [[v n] b]. cbn [w_option w_blanks] in *.
  destruct (keywords_names enable v n Hin) as (Hv & Hne & Hlen & Hch & _).
  change (spell (mk_word (v, n) b :: ws)) with ((n ++ b) ++ spell ws) in *.
  rewrite <-(assoc_L (++)) in *. destruct fuel as [|fuel].
  { destruct n; [done|]. simpl in Hfuel. lia. }
  cbn [capture_loop]. rewrite (bool_decide_false (cur _ = 0)) by done.
  destruct (spell_cur enable ws Hok) as [Hblank _].
  rewrite parse_name_word; [|done..|].
  2:{ intros c. destruct b as [|c' b]; [|simpl; intros [= <-]; by apply list.Forall_cons in Hb as [? _]].
      destruct ws; [done|]. by destruct Hsep. }
  cbn beta iota zeta. rewrite skip_blanks by done.
  rewrite (keyword_found enable e v n He Hin). cbn [mbind outcome_bind].
  rewrite wrap_small.
  - rewrite IH; [done|done|]. rewrite !length_app in Hfuel. destruct n; [done|]. simpl in Hfuel. lia.
  - rewrite Z.shiftl_1_l. split; [lia|]. apply Z.pow_lt_mono_r; lia.
Qed.

Lemma capture_put_line enable e p number f ws :
  is_lookup enable e → p !! number = Some f → words_ok enable ws →
  pos_out_capture_put e p number (spell ws) =
    Ret (None, <[number := set_capture_mask f (mask_of 0 ws)]> p).
Proof.
  intros He Hp Hok. unfold pos_out_capture_put, at_index. rewrite Hp. cbn [mbind outcome_bind].
  unfold parse_capture. rewrite bool_decide_true.
  - by rewrite (capture_loop_words enable).
  - destruct ws as [|w ws]; [done|]. intros E.
    destruct (spell_cur enable (w :: ws) Hok) as [_ [_ H78]]; [done|]. by rewrite E in H78.
Qed.

(** A line of option names, in any order, with repeats, separated by any
    blanks, sets the mask with exactly the bits of those options; the empty line
    and "No" clear it. *)
Theorem capture_put_words enable e p number f ws :
  is_lookup enable e → p !! number = Some f → words_ok enable ws →
  pos_out_capture_put e p number (spell ws) =
    Ret (None, <[number := set_capture_mask f (mask_of 0 ws)]> p) ∧
  pos_out_capture_put e p number (bytes_of "No") = Ret (None, <[number := set_capture_mask f 0]> p).
Proof.
  intros He Hp Hok. split; [by apply (capture_put_line enable)|].
  unfold pos_out_capture_put, at_index. rewrite Hp. cbn [mbind outcome_bind]. done.
Qed.

(** ** Writing options *)

Lemma format_loop_longer mask l1 l2 infos i acc r :
  (l1 ≤ l2)%nat → format_loop mask l1 infos i acc = (None, r) → format_loop mask l2 infos i acc = (None, r).
Proof.
  intros Hl. revert i acc. induction infos as [|info infos IH]; intros i acc; simpl; [done|].
  destruct (bits_set mask _); [|apply IH].
  destruct (bool_decide (_ < l1)%nat) eqn:Ed; [|done]. apply bool_decide_eq_true in Ed.
  rewrite (bool_decide_true (_ < l2)%nat) by lia. apply IH.
Qed.

(** The words of a mask, separated by single spaces. *)
Fixpoint spaced (ks : list (Z * cstring)) : list word :=
  match ks with
  | [] => []
  | [k] => [mk_word k []]
  | k :: rest => mk_word k [32] :: spaced rest
  end.
Definition words_of (mask : Z) : list word :=
  spaced (filter (λ k : Z * cstring, Z.testbit mask k.1 = true) (keywords true)).

#[local] Instance words_ok_dec enable ws : Decision (words_ok enable ws).
Proof.
  induction ws as [|w ws IH]; [apply _|]. simpl.
  destruct ws; apply _.
Defined.

Definition mask_text_ok (mask : Z) : bool :=
  match format_loop mask 36 capture_option_info 0 [] with
  | (None, formatted) =>
      bool_decide (formatted = spell (words_of mask) ∧ mask_of 0 (words_of mask) = mask ∧
        words_ok true (words_of mask) ∧ (mask < 64 → words_ok false (words_of mask)) ∧
        (length formatted ≤ 34)%nat ∧ Forall (λ c, c ≠ 0) formatted ∧ (formatted = [] → mask = 0))
  | _ => false
  end.

Lemma all_masks_text_ok mask : 0 ≤ mask < 128 → mask_text_ok mask = true.
Proof. apply forallb_zrange. by vm_compute. Qed.

(** Whatever options are selected, a buffer of 36 bytes is enough for their
    text, the text is within the buffer, and writing it back to the attribute
    selects the same options. *)
Theorem capture_format_put enable e p number f mask length_ :
  is_lookup enable e → p !! number = Some f → 0 ≤ mask < (if enable : bool then 128 else 64) →
  (36 ≤ length_)%nat →
  ∃ stored, format_capture_string mask length_ = Ret (None, stored) ∧ (length stored < length_)%nat ∧
    0 ∈ stored ∧
    pos_out_capture_put e p number (c_str stored) = Ret (None, <[number := set_capture_mask f mask]> p).
Proof.
  intros He Hp Hm Hl. pose proof (all_masks_text_ok mask) as Hok. unfold mask_text_ok in Hok.
  destruct (format_loop mask 36 _ _ _) as [[?|] formatted] eqn:E; [by destruct enable; discriminate Hok; lia|].
  specialize (Hok ltac:(destruct enable; lia)). apply bool_decide_eq_true in Hok.
  destruct Hok as (-> & Hmask & Ht & Hf & Hlen & Hz & H0).
  unfold format_capture_string. rewrite (format_loop_longer _ _ _ _ _ _ _ Hl E).
  case_bool_decide as Hnil.
  - apply length_zero_iff_nil in Hnil. specialize (H0 Hnil). subst mask.
    unfold in_range. rewrite bool_decide_true by lia. cbn [mbind outcome_bind].
    eexists. split_and!; [done|simpl; lia|set_solver|].
    unfold pos_out_capture_put, at_index. rewrite Hp. cbn [mbind outcome_bind]. done.
  - eexists. split_and!; [done|rewrite length_app; simpl; lia|apply elem_of_app; right; by left|].
    rewrite c_str_terminated by done. rewrite <-Hmask at 2.
    apply (capture_put_line enable); [done..|]. destruct enable; [done|]. apply Hf. lia.
Qed.

End lookup.

(** ** Words captured *)

Lemma pos_bus_mode_inj i j a b :
  0 ≤ i < 32 → 0 ≤ j < 32 → 0 ≤ a < 16 → 0 ≤ b < 16 →
  CAPTURE_POS_BUS i a = CAPTURE_POS_BUS j b → i = j ∧ a = b.
Proof.
  intros Hi Hj Ha Hb.
  assert (∀ i a, 0 ≤ i < 32 → 0 ≤ a < 16 → CAPTURE_POS_BUS i a = i * 16 + a) as E.
  { intros x y Hx Hy. pose proof (forallb_zrange (λ x, forallb (λ y, bool_decide (CAPTURE_POS_BUS x y = x * 16 + y))
      (zrange 16)) 32 ltac:(by vm_compute) x Hx) as F.
    apply (bool_decide_eq_true_1 _ (forallb_zrange _ 16 F y Hy)). }
  rewrite !E by done. lia.
Qed.

(** The options captured for a mask: the mean is left to the standard deviation
    when both are wanted. *)
Fixpoint selected (mask : Z) (l : list option_info) (i : Z) : list option_info :=
  match l with
  | [] => []
  | info :: rest => (if captures mask i then [info] else []) ++ selected mask rest (i + 1)
  end.

(** The words a captured value takes. *)
Definition used_words (c : capture_info) : list Z := take (mode_words (ci_mode c)) (ci_index c).

Definition value_of (f : pos_out_field) (u : cstring) (info : option_info) : captured_value :=
  mk_captured
    (mk_info (CAPTURE_POS_BUS (capture_index f) <$> option_index info) (option_mode info)
       (scale f) (offset f) (bits_set (capture_mask f) CAPTURE_MEAN_BIT))
    (option_name info) (take (MAX_NAME_LENGTH - 1) u).

Lemma capture_info_selected f u l i :
  units f = Some u → capture_info_loop f l i = Ret (value_of f u <$> selected (capture_mask f) l i).
Proof.
  intros Hu. revert i. induction l as [|info l IH]; intros i; simpl; [done|].
  destruct (captures _ i); [|by rewrite IH].
  unfold option_capture. rewrite Hu. cbn [mbind outcome_bind]. by rewrite IH.
Qed.

Lemma capture_info_no_units f l i :
  units f = None →
  capture_info_loop f l i = if bool_decide (selected (capture_mask f) l i = []) then Ret [] else Undef.
Proof.
  intros Hu. revert i. induction l as [|info l IH]; intros i; simpl; [done|].
  destruct (captures _ i); [|by rewrite IH].
  unfold option_capture. rewrite Hu. cbn [mbind outcome_bind]. by rewrite bool_decide_false.
Qed.

(** The words of an option are different modes below 16. *)
Lemma options_ok info :
  info ∈ capture_option_info →
  length (option_index info) = CAPTURE_INDEX_SIZE ∧ Forall (λ k, 0 ≤ k < 16) (option_index info) ∧
  NoDup (take (mode_words (option_mode info)) (option_index info)).
Proof.
  intros Hin.
  assert (Forall (λ info, length (option_index info) = CAPTURE_INDEX_SIZE ∧
    Forall (λ k, 0 ≤ k < 16) (option_index info) ∧
    NoDup (take (mode_words (option_mode info)) (option_index info))) capture_option_info) as HF.
  { apply (bool_decide_unpack _). by vm_compute. }
  rewrite Forall_forall in HF. by apply HF.
Qed.

Lemma selected_sub mask l i : selected mask l i ⊆+ l.
Proof.
  revert i. induction l as [|info l IH]; intros i; simpl; [done|].
  destruct (captures mask i); simpl; [by apply submseteq_skip|by apply submseteq_cons].
Qed.

Lemma value_words_pos f u info w :
  info ∈ capture_option_info → w ∈ used_words (cv_info (value_of f u info)) →
  ∃ k, 0 ≤ k < 16 ∧ w = CAPTURE_POS_BUS (capture_index f) k.
Proof.
  intros (_ & Hk & _)%options_ok Hw. unfold used_words in Hw. cbn [value_of cv_info ci_index ci_mode] in Hw.
  apply (subseteq_take) in Hw. apply list_elem_of_fmap in Hw as (k & -> & Hin).
  exists k. split; [|done]. rewrite Forall_forall in Hk. by apply Hk.
Qed.

Lemma captured_word p n f cs c w :
  p !! n = Some f → get_pos_out_capture_info p n = Ret cs → c ∈ cs → w ∈ used_words (cv_info c) →
  ∃ k, 0 ≤ k < 16 ∧ w = CAPTURE_POS_BUS (capture_index f) k.
Proof.
  intros Hp E Hc Hw. unfold get_pos_out_capture_info, at_index in E. rewrite Hp in E. cbn [mbind outcome_bind] in E.
  destruct (units f) as [u|] eqn:Hu.
  - rewrite (capture_info_selected f u) in E by done.
    assert (cs = value_of f u <$> selected (capture_mask f) capture_option_info 0) as -> by congruence.
    apply list_elem_of_fmap in Hc as (info & -> & Hin). eapply value_words_pos; [|done].
    eapply elem_of_submseteq; [done|apply selected_sub].
  - rewrite capture_info_no_units in E by done. case_bool_decide; simplify_eq. by apply not_elem_of_nil in Hc.
Qed.

(** A position output with its units set yields one value for each selected
    option, with five indices of its own bus position, less the mean when the
    standard deviation is captured too; without units, as when the field
    definition gives none, describing any selected option formats a null
    string. *)
Theorem pos_out_capture_info_spec p number f :
  p !! number = Some f →
  match units f with
  | Some u =>
      get_pos_out_capture_info p number =
        Ret (value_of f u <$> selected (capture_mask f) capture_option_info 0) ∧
      Forall (λ c, CaptureSpec.info_wf (cv_info c))
        (value_of f u <$> selected (capture_mask f) capture_option_info 0)
  | None =>
      get_pos_out_capture_info p number =
        if bool_decide (selected (capture_mask f) capture_option_info 0 = []) then Ret [] else Undef
  end.
Proof.
  intros Hp. unfold get_pos_out_capture_info, at_index. rewrite Hp. cbn [mbind outcome_bind].
  destruct (units f) as [u|] eqn:Hu; [|by apply capture_info_no_units].
  split; [by apply capture_info_selected|]. apply Forall_fmap, Forall_forall. intros info Hin.
  assert (info ∈ capture_option_info) as Hin' by (eapply elem_of_submseteq; [done|apply selected_sub]).
  unfold CaptureSpec.info_wf. simpl. rewrite length_fmap. by apply options_ok.
Qed.

(** No word of the capture bus is taken by two different position outputs. *)
Theorem pos_words_disjoint p1 p2 n1 n2 f1 f2 c1 c2 cs1 cs2 w :
  p1 !! n1 = Some f1 → p2 !! n2 = Some f2 →
  0 ≤ capture_index f1 < 32 → 0 ≤ capture_index f2 < 32 → capture_index f1 ≠ capture_index f2 →
  get_pos_out_capture_info p1 n1 = Ret cs1 → get_pos_out_capture_info p2 n2 = Ret cs2 →
  c1 ∈ cs1 → c2 ∈ cs2 → w ∈ used_words (cv_info c1) → w ∉ used_words (cv_info c2).
Proof.
  intros Hp1 Hp2 Hi1 Hi2 Hne E1 E2 Hc1 Hc2 Hw1 Hw2.
  destruct (captured_word p1 n1 f1 cs1 c1 w Hp1 E1 Hc1 Hw1) as (k1 & Hk1 & ->).
  destruct (captured_word p2 n2 f2 cs2 c2 _ Hp2 E2 Hc2 Hw2) as (k2 & Hk2 & E).
  apply pos_bus_mode_inj in E as [? _]; done.
Qed.

(** ** Places on the bus *)

(** The values assigned from position [i] on. *)
Definition assigned (i : nat) (p : pos_out) (values : list Z) : pos_out :=
  take i p ++ zip_with set_capture_index (drop i p) (drop i values).

Definition mark_used (used : list bool) (values : list Z) : list bool :=
  foldl (λ u v, <[Z.to_nat v := true]> u) used values.

(** What makes [assign_capture_values] succeed. *)
Definition free_at (used : list bool) (v : Z) : Prop :=
  v < Z.of_nat POS_BUS_COUNT ∧ used !! Z.to_nat v = Some false.

Lemma free_at_insert used v w :
  0 ≤ v → 0 ≤ w → (Z.to_nat v < length used)%nat →
  free_at (<[Z.to_nat v := true]> used) w ↔ free_at used w ∧ w ≠ v.
Proof.
  intros Hv Hw Hl. unfold free_at. destruct (decide (w = v)) as [->|Hne].
  - rewrite list_lookup_insert_eq by done. naive_solver.
  - rewrite list_lookup_insert_ne by lia. naive_solver.
Qed.

Lemma assign_loop_spec n i used p values :
  length p = (i + n)%nat → length values = (i + n)%nat → length used = POS_BUS_COUNT →
  Forall (λ v, 0 ≤ v) values →
  ∃ err used' p', assign_loop n i used p values = Ret (err, used', p') ∧
    length used' = POS_BUS_COUNT ∧
    (err = None ↔ Forall (free_at used) (drop i values) ∧ NoDup (drop i values)) ∧
    (err = None → p' = assigned i p values ∧ used' = mark_used used (drop i values)).
Proof.
  revert i used p. induction n as [|n IH]; intros i used p Hp Hv Hu Hnn; cbn [assign_loop].
  { eexists None, used, p. rewrite drop_ge by lia. split_and!; [done|done|split; [by repeat constructor|done]|].
    intros _. split; [|done]. unfold assigned. by rewrite !drop_ge, take_ge, app_nil_r by lia. }
  destruct (lookup_lt_is_Some_2 values i ltac:(lia)) as [v Ev]. rewrite (at_index_some _ _ _ Ev). cbn [mbind outcome_bind].
  pose proof (drop_S _ _ _ Ev) as Ed.
  pose proof (Forall_lookup_1 _ _ _ _ Hnn Ev) as Hv0. cbn beta in Hv0.
  unfold TEST_OK_. case_bool_decide as Hlt.
  2:{ eexists (Some _), used, p. split_and!; [done..| |done]. rewrite Ed, list.Forall_cons. split; [done|].
    unfold free_at. naive_solver. }
  destruct (lookup_lt_is_Some_2 used (Z.to_nat v)) as [b Eb]; [rewrite Hu; lia|].
  rewrite (at_index_some _ _ _ Eb). cbn [mbind outcome_bind]. destruct b; cbn [negb].
  { eexists (Some _), used, p. split_and!; [done..| |done]. rewrite Ed, list.Forall_cons. split; [done|].
    unfold free_at. naive_solver. }
  destruct (lookup_lt_is_Some_2 p i ltac:(lia)) as [f Ef]. rewrite (at_index_some _ _ _ Ef). cbn [mbind outcome_bind].
  destruct (IH (S i) (<[Z.to_nat v := true]> used) (<[i := set_capture_index f v]> p))
    as (err & used' & p' & E & Hu' & Herr & Hres); [rewrite ?length_insert; lia..|done|].
  eexists err, used', p'. split_and!; [done..| |].
  - rewrite Herr, Ed, list.Forall_cons, list.NoDup_cons. assert (Forall (free_at (<[Z.to_nat v := true]> used)) (drop (S i) values) ↔
      Forall (free_at used) (drop (S i) values) ∧ v ∉ drop (S i) values) as ->.
    { rewrite !Forall_forall. split.
      - intros Hall. split; [|intros Hin; pose proof (Hall v Hin) as Hx].
        + intros w Hw. pose proof (Hall w Hw) as Hx. apply free_at_insert in Hx; [tauto|done| |by eapply lookup_lt_Some].
          eapply Forall_forall; [exact Hnn|]. by eapply subseteq_drop.
        + apply free_at_insert in Hx; [tauto|done..|by eapply lookup_lt_Some].
      - intros [Hall Hn] w Hw. apply free_at_insert; [done| |by eapply lookup_lt_Some|].
        + eapply Forall_forall; [exact Hnn|]. by eapply subseteq_drop.
        + split; [by apply Hall|]. by intros ->. }
    assert (free_at used v) by done. tauto.
  - intros He. destruct (Hres He) as [-> ->]. split; [|by rewrite Ed].
    unfold assigned. rewrite Ed, (drop_S p f i Ef), drop_insert_lt by lia.
    rewrite (take_S_r _ i (set_capture_index f v)), take_insert_ge
      by (lia || by apply list_lookup_insert_eq; eapply lookup_lt_Some).
    by rewrite <-(assoc_L (++)).
Qed.

(** Bus positions are assigned exactly when each is on the bus, free, and
    different from the others; then every output has its own, and those are the
    positions newly marked as used. *)
Theorem assign_capture_values_spec used p values :
  length used = POS_BUS_COUNT → length values = length p → Forall (λ v, 0 ≤ v) values →
  ∃ err used' p', assign_capture_values used p values = Ret (err, used', p') ∧
    length used' = POS_BUS_COUNT ∧
    (err = None ↔ Forall (free_at used) values ∧ NoDup values) ∧
    (err = None → capture_index <$> p' = values ∧
       ∀ j, (j < POS_BUS_COUNT)%nat → used' !! j = Some true ↔ used !! j = Some true ∨ Z.of_nat j ∈ values).
Proof.
  intros Hu Hlen Hnn. unfold assign_capture_values.
  destruct (assign_loop_spec (length p) 0 used p values) as (err & used' & p' & E & Hu' & Herr & Hres); [done..|].
  rewrite !drop_0 in Herr, Hres. exists err, used', p'. split_and!; [done..|]. intros He.
  destruct (Hres He) as [-> ->]. split.
  - unfold assigned. rewrite !drop_0. simpl. clear -Hlen. revert values Hlen.
    induction p as [|f p IH]; intros [|v values] Hlen; simplify_eq/=; [done|]. f_equal. by apply IH.
  - intros j Hj. clear -Hnn Hu Hj. revert used Hu. induction Hnn as [|v values Hv Hnn IH]; intros used Hu; simpl.
    + set_solver.
    + unfold mark_used in IH. rewrite IH, elem_of_cons by (by rewrite length_insert).
      destruct (decide (j = Z.to_nat v)) as [->|Hne].
      * rewrite list_lookup_insert_eq by lia. rewrite Z2Nat.id by done. naive_solver.
      * rewrite list_lookup_insert_ne by lia. split; [|naive_solver lia]. naive_solver.
Qed.

(** ** Examples *)

Section example.
#[local] Existing Instance AARCH64.
Abbreviation table := (HashTable.hash_table (K := cstring) (V := Z)).

Definition example_field (ix mask : Z) : pos_out_field :=
  mk_pos_field (of_Z 1) (of_Z 0) (Some (bytes_of "mm")) ix mask.
Definition example_out : pos_out := [example_field 1 0; example_field 2 96].
Definition example_words : list word :=
  [mk_word (4, bytes_of "Max") [32; 9]; mk_word (0, bytes_of "Value") [32]; mk_word (4, bytes_of "Max") []].

Lemma example_words_ok : words_ok true example_words.
Proof. by apply (bool_decide_unpack _); vm_compute. Defined.

Lemma capture_put_words_witness :
  ∃ e : Enums.enumeration (T := table),
    pos_out_capture_put e example_out 0 (spell example_words) = Ret (None, [example_field 1 17; example_field 2 96]).
Proof.
  destruct (keyword_lookup_ok (T := table) true) as (e & _ & He). exists e.
  apply (capture_put_words true e example_out 0 (example_field 1 0) example_words);
    [by apply holds_is_lookup|reflexivity|apply example_words_ok].
Defined.

Lemma capture_format_put_witness :
  ∃ (e : Enums.enumeration (T := table)) stored,
    format_capture_string 96 64 = Ret (None, stored) ∧
    pos_out_capture_put e example_out 0 (c_str stored) = Ret (None, [example_field 1 96; example_field 2 96]).
Proof.
  destruct (keyword_lookup_ok (T := table) true) as (e & _ & He). exists e.
  destruct (capture_format_put true e example_out 0 (example_field 1 0) 96 64)
    as (stored & E & _ & _ & P); [by apply holds_is_lookup|reflexivity|lia|lia|].
  exists stored. split; [exact E|exact P].
Defined.

Lemma pos_out_capture_info_spec_witness :
  get_pos_out_capture_info example_out 1 =
    Ret [mk_captured (mk_info [34; 35; 38; 39; 40] CAPTURE_MODE_STDDEV (of_Z 1) (of_Z 0) true)
           "StdDev" (bytes_of "mm")].
Proof. exact (proj1 (pos_out_capture_info_spec example_out 1 (example_field 2 96) eq_refl)). Defined.

Definition example_value (ix : Z) : captured_value :=
  mk_captured (mk_info [16 * ix; 16 * ix; 16 * ix; 16 * ix; 16 * ix] CAPTURE_MODE_SCALED32 (of_Z 1) (of_Z 0) false)
    "Value" (bytes_of "mm").

Lemma pos_words_disjoint_witness : 16 ∉ used_words (cv_info (example_value 2)).
Proof.
  apply (pos_words_disjoint [example_field 1 1] [example_field 2 1] 0 0 (example_field 1 1) (example_field 2 1)
    (example_value 1) (example_value 2) [example_value 1] [example_value 2] 16);
    try reflexivity; try (simpl; lia); by left.
Defined.

Lemma assign_capture_values_spec_witness :
  ∃ used' p', assign_capture_values (replicate POS_BUS_COUNT false) example_out [3; 7] = Ret (None, used', p') ∧
    capture_index <$> p' = [3; 7].
Proof.
  destruct (assign_capture_values_spec (replicate POS_BUS_COUNT false) example_out [3; 7])
    as (err & used' & p' & E & _ & Herr & Hres); [reflexivity|reflexivity|by apply (bool_decide_unpack _); vm_compute|].
  assert (err = None) as ->.
  { apply Herr. split; [repeat constructor|by apply (bool_decide_unpack _); vm_compute]. }
  exists used', p'. split; [exact E|apply Hres; reflexivity].
Defined.
End example.

End PosOutSpec.
