(* ===== verification/Prepare.v ===== *)
(** * Data requests: panda-server/server/prepare.c, options and XML text

    The first line of a data connection is a list of options, and the header of
    the data can be sent as XML.  Grouping the captured fields, the other part
    of the file, is in Capture. *)

From S2P Require Import Prelude Errors Parse HashTable HashTableSpec Enums StdDev Capture PosOut.
From stdpp Require Import base numbers list list_numbers option strings.
Open Scope Z_scope.

Module Prepare.
Import Parse Capture PosOut.

(** ** Options *)

Inductive data_format := DATA_FORMAT_UNFRAMED | DATA_FORMAT_FRAMED | DATA_FORMAT_BASE64 | DATA_FORMAT_ASCII.

(** [struct data_options]. *)
Record data_options := mk_options {
  o_format : data_format;
  o_process : data_process;
  omit_header : bool;
  omit_status : bool;
  one_shot : bool;
  xml_header : bool;
}.
Definition default_data_options : data_options :=
  mk_options DATA_FORMAT_ASCII DATA_PROCESS_SCALED false false false false.

Definition set_format (o : data_options) (x : data_format) : data_options :=
  mk_options x (o_process o) (omit_header o) (omit_status o) (one_shot o) (xml_header o).
Definition set_process (o : data_options) (x : data_process) : data_options :=
  mk_options (o_format o) x (omit_header o) (omit_status o) (one_shot o) (xml_header o).

Definition parse_one_option (option : cstring) (o : data_options) : res data_options :=
  let same (s : string) := bool_decide (option = bytes_of s) in
  if same "UNFRAMED" then OK (set_format o DATA_FORMAT_UNFRAMED)
  else if same "FRAMED" then OK (set_format o DATA_FORMAT_FRAMED)
  else if same "BASE64" then OK (set_format o DATA_FORMAT_BASE64)
  else if same "ASCII" then OK (set_format o DATA_FORMAT_ASCII)
  else if same "RAW" then OK (set_process o DATA_PROCESS_RAW)
  else if same "SCALED" then OK (set_process o DATA_PROCESS_SCALED)
  else if same "NO_HEADER" then
    OK (mk_options (o_format o) (o_process o) true (omit_status o) (one_shot o) (xml_header o))
  else if same "NO_STATUS" then
    OK (mk_options (o_format o) (o_process o) (omit_header o) true (one_shot o) (xml_header o))
  else if same "ONE_SHOT" then
    OK (mk_options (o_format o) (o_process o) (omit_header o) (omit_status o) true (xml_header o))
  else if same "XML" then
    OK (mk_options (o_format o) (o_process o) (omit_header o) (omit_status o) (one_shot o) true)
  else if same "BARE" then OK (mk_options DATA_FORMAT_UNFRAMED DATA_PROCESS_RAW true true true false)
  else if same "DEFAULT" then OK default_data_options
  else fail "Invalid data capture option".

(** One turn of the loop of [parse_data_options]. *)
Definition option_turn (o : data_options) : parser data_options := λ line,
  (λ line, (c ← peek;
            _ ← lift (test_ok (bool_decide (c ≠ 13)) "Cannot process CR character");
            option ← parse_alphanum_name MAX_NAME_LENGTH;
            lift (parse_one_option option o)) line) (skip_whitespace line).

(** The loop: each turn that succeeds consumes a name.  [None]: out of fuel. *)
Fixpoint options_loop (fuel : nat) (o : data_options) (line : cstring) : option (res data_options * cstring) :=
  if bool_decide (cur line = 0) then Some (OK o, line) else
  match fuel with
  | O => None
  | S fuel' =>
      match option_turn o line with
      | (OK o', line') => options_loop fuel' o' line'
      | (Err e, line') => Some (Err e, line')
      end
  end.
Definition parse_data_options (line : cstring) : option (res data_options * cstring) :=
  match options_loop (length line) default_data_options line with
  | Some (OK o, line') => Some ((_ ← parse_eos; mret o) line')
  | r => r
  end.

(** ** XML *)

Definition escape_xml_character (ch : Z) : cstring :=
  if bool_decide (ch = 60) then bytes_of "&lt;"
  else if bool_decide (ch = 38) then bytes_of "&amp;"
  else if bool_decide (ch = 62) then bytes_of "&gt;"
  else if bool_decide (ch = 34) then bytes_of "&quot;"
  else if bool_decide (ch = 39) then bytes_of "&apos;"
  else [].

Definition reserved : list Z := [60; 38; 62; 34; 39].
(** [strcspn(string, reserved)]. *)
Fixpoint strcspn (s : cstring) : nat :=
  match s with
  | [] => 0
  | c :: t => if bool_decide (c ∈ reserved) then 0 else S (strcspn t)
  end.

(** [write_escaped_xml_string]: what is written, the quotes included.  Each turn
    but the last consumes a reserved character.  [None]: out of fuel. *)
Fixpoint escape_loop (fuel : nat) (s : cstring) : option cstring :=
  match s with
  | [] => Some []
  | _ =>
      match fuel with
      | O => None
      | S fuel' =>
          let accept := strcspn s in
          match drop accept s with
          | [] => Some (take accept s)
          | c :: rest =>
              out ← escape_loop fuel' rest;
              Some (take accept s ++ escape_xml_character c ++ out)
          end
      end
  end.
Definition write_escaped_xml_string (s : cstring) : option cstring :=
  out ← escape_loop (length s) s; Some ([34] ++ out ++ [34]).

(** ** What they promise *)

(** The text an XML reader recovers. *)
Definition entities : list (cstring * Z) :=
  [(bytes_of "&lt;", 60); (bytes_of "&amp;", 38); (bytes_of "&gt;", 62); (bytes_of "&quot;", 34); (bytes_of "&apos;", 39)].

(** [decodes x s]: the XML text [x] stands for [s]. *)
Inductive decodes : cstring → cstring → Prop :=
  | decodes_nil : decodes [] []
  | decodes_char c x s : c ∉ reserved → decodes x s → decodes (c :: x) (c :: s)
  | decodes_entity e c x s : (e, c) ∈ entities → decodes x s → decodes (e ++ x) (c :: s).

Lemma strcspn_spec s :
  Forall (λ c, c ∉ reserved) (take (strcspn s) s) ∧ ∀ c rest, drop (strcspn s) s = c :: rest → c ∈ reserved.
Proof.
  induction s as [|c s [IH1 IH2]]; simpl; [by split|]. case_bool_decide as Hc; simpl.
  - split; [constructor|]. by intros ? ? [= <- _].
  - split; [by constructor|done].
Qed.

Lemma decodes_plain p x s : Forall (λ c, c ∉ reserved) p → decodes x s → decodes (p ++ x) (p ++ s).
Proof. induction 1; simpl; [done|]. intros. constructor; auto. Qed.

Lemma escape_entity c : c ∈ reserved → (escape_xml_character c, c) ∈ entities.
Proof.
  intros Hc. assert (Forall (λ c, (escape_xml_character c, c) ∈ entities) reserved) as HF.
  { apply (bool_decide_unpack _). by vm_compute. }
  rewrite Forall_forall in HF. by apply HF.
Qed.

(** An attribute value is written between quotes, as text in which no reserved
    character is left unescaped and which an XML reader decodes to the value. *)
Theorem write_escaped_xml_decodes s :
  ∃ x, write_escaped_xml_string s = Some ([34] ++ x ++ [34]) ∧ decodes x s.
Proof.
  unfold write_escaped_xml_string.
  enough (∀ fuel s, (length s ≤ fuel)%nat → ∃ x, escape_loop fuel s = Some x ∧ decodes x s) as G.
  { destruct (G (length s) s ltac:(lia)) as (x & -> & Hx). by exists x. }
  clear s. intros fuel. induction fuel as [|fuel IH]; intros s Hl.
  { destruct s; [|simpl in Hl; lia]. exists []. split; [done|constructor]. }
  destruct s as [|c0 s0]; [exists []; split; [done|constructor]|].
  set (s := c0 :: s0) in *. change (escape_loop (S fuel) s) with
    (match drop (strcspn s) s with
     | [] => Some (take (strcspn s) s)
     | c :: rest => out ← escape_loop fuel rest; Some (take (strcspn s) s ++ escape_xml_character c ++ out)
     end).
  clearbody s. clear c0 s0. destruct (strcspn_spec s) as [H1 H2]. pose proof (take_drop (strcspn s) s) as Es.
  destruct (drop (strcspn s) s) as [|c rest] eqn:Ed.
  - eexists. split; [done|]. rewrite app_nil_r in Es. rewrite Es in H1 |- *.
    pose proof (decodes_plain s [] [] H1 decodes_nil) as Hd. by rewrite app_nil_r in Hd.
  - assert (length rest < length s)%nat as Hlt.
    { apply (f_equal length) in Ed. rewrite length_drop in Ed. simpl in Ed. lia. }
    destruct (IH rest ltac:(lia)) as (x & -> & Hx). eexists. split; [done|].
    assert (decodes (take (strcspn s) s ++ escape_xml_character c ++ x) (take (strcspn s) s ++ c :: rest)) as Hd;
      [|by rewrite Es in Hd]. apply decodes_plain; [done|].
    apply decodes_entity; [|done]. by eapply escape_entity, H2.
Qed.

(** The options, with what each does to those before it. *)
Definition option_names : list string :=
  ["UNFRAMED"; "FRAMED"; "BASE64"; "ASCII"; "RAW"; "SCALED"; "NO_HEADER"; "NO_STATUS"; "ONE_SHOT"; "XML"; "BARE"; "DEFAULT"]%string.
Definition apply_option (o : data_options) (name : string) : data_options :=
  match parse_one_option (bytes_of name) o with OK o' => o' | Err _ => o end.

(** A line of options: each after some blanks, and after at least one when it is
    not the first. *)
Record request := mk_request { r_blanks : cstring; r_name : string }.
Fixpoint request_ok (first : bool) (l : list request) : Prop :=
  match l with
  | [] => True
  | r :: rest =>
      Forall (λ c, is_blank c = true) (r_blanks r) ∧ (first = false → r_blanks r ≠ []) ∧
      r_name r ∈ option_names ∧ request_ok false rest
  end.
Definition request_text (l : list request) : cstring := concat ((λ r, r_blanks r ++ bytes_of (r_name r)) <$> l).

Lemma option_names_ok name o :
  name ∈ option_names →
  ∃ c n, bytes_of name = c :: n ∧ (length (c :: n) < MAX_NAME_LENGTH)%nat ∧ c ≠ 13 ∧ is_blank c = false ∧
    valid_name_char c = true ∧ Forall (λ c, valid_alphanum_char c = true) (c :: n) ∧
    parse_one_option (bytes_of name) o = OK (apply_option o name).
Proof.
  intros Hin. unfold option_names in Hin. rewrite !elem_of_cons, elem_of_nil in Hin.
  destruct_or! Hin; try done; subst name; eexists _, _; (split; [reflexivity|]); split_and!;
    try done; try (simpl; unfold MAX_NAME_LENGTH; lia); by repeat constructor.
Qed.

Lemma blanks_not_alnum rest :
  (∀ c, head rest = Some c → is_blank c = true) → ∀ c, head rest = Some c → valid_alphanum_char c = false.
Proof.
  intros H c Hc. specialize (H c Hc). unfold is_blank in H.
  apply orb_true_iff in H as [?%bool_decide_eq_true | ?%bool_decide_eq_true]; by subst c.
Qed.

Lemma option_turn_ok o b name rest :
  Forall (λ c, is_blank c = true) b → name ∈ option_names → (∀ c, head rest = Some c → is_blank c = true) →
  option_turn o (b ++ bytes_of name ++ rest) = (OK (apply_option o name), rest).
Proof.
  intros Hb Hn Hrest. destruct (option_names_ok name o Hn) as (c & n & E & Hl & H13 & Hbl & Hc & Hch & Hp).
  unfold option_turn. rewrite skip_blanks by (done || by rewrite E).
  unfold mbind, parser_bind, peek, lift, parse_alphanum_name. rewrite E. simpl cur.
  unfold test_ok. rewrite bool_decide_true by done. cbn [TEST_OK_ res_of].
  unfold mbind, parser_bind, peek, lift. simpl cur. unfold test_ok. rewrite Hc. cbn [TEST_OK_ res_of].
  unfold parse_filtered_name. rewrite filtered_loop_name by (done || by apply blanks_not_alnum).
  unfold test_ok. rewrite (bool_decide_true (0 < length (c :: n))%nat) by (simpl; lia).
  rewrite (bool_decide_true (length (c :: n) < MAX_NAME_LENGTH)%nat) by done. simpl.
  by rewrite <-E, Hp.
Qed.

Lemma options_loop_ok fuel o l first :
  request_ok first l → (length (request_text l) ≤ fuel)%nat →
  options_loop fuel o (request_text l) = Some (OK (foldl apply_option o (r_name <$> l)), []).
Proof.
  revert fuel o first. induction l as [|[b name] l IH]; intros fuel o first Hok Hf; [by destruct fuel|].
  destruct Hok as (Hb & _ & Hn & Hok). cbn [r_blanks r_name] in *.
  change (request_text (mk_request b name :: l)) with ((b ++ bytes_of name) ++ request_text l) in *.
  rewrite <-(assoc_L (++)) in *.
  destruct (option_names_ok name o Hn) as (c & n & E & _ & _ & _ & Hc & _).
  assert (cur (b ++ bytes_of name ++ request_text l) ≠ 0) as Hcur.
  { rewrite E. destruct b as [|c' b]; simpl; [by intros ->|].
    apply list.Forall_cons in Hb as [Hb _]. by intros ->. }
  destruct fuel as [|fuel].
  { rewrite E, !length_app in Hf. simpl in Hf. lia. }
  cbn [options_loop]. rewrite bool_decide_false by done. rewrite option_turn_ok; [|done..|].
  - rewrite (IH fuel _ false); [done|done|]. rewrite E, !length_app in Hf. simpl in Hf. lia.
  - intros d. destruct l as [|[b' name'] l]; [done|]. destruct Hok as (Hb' & Hne & _). cbn [r_blanks] in *.
    destruct b' as [|d' b']; [by destruct Hne|]. simpl. intros [= <-]. by apply list.Forall_cons in Hb' as [? _].
Qed.

(** A data request made of option names separated by blanks is accepted, and
    its options are applied from left to right to the defaults. *)
Theorem parse_data_options_words l :
  request_ok true l →
  parse_data_options (request_text l) = Some (OK (foldl apply_option default_data_options (r_name <$> l)), []).
Proof. intros Hok. unfold parse_data_options. by rewrite (options_loop_ok _ _ _ true). Qed.

Lemma parse_data_options_words_witness :
  parse_data_options (bytes_of " XML BARE FRAMED") =
    Some (OK (mk_options DATA_FORMAT_FRAMED DATA_PROCESS_RAW true true true false), []).
Proof.
  apply (parse_data_options_words [mk_request [32] "XML"; mk_request [32] "BARE"; mk_request [32] "FRAMED"]).
  repeat split; try (by repeat constructor); by (apply (bool_decide_unpack _); vm_compute).
Defined.

End Prepare.
