(* ===== verification/Changes.v ===== *)
(** * Change sets: config_server.c, attributes.c and fields.c

    Every change of a value takes a fresh number from a global counter; each
    connection remembers the number of its last report for each class of change,
    and a report lists the values with a larger number.  Values are updated and
    read under a mutex of their own, reports of different connections and updates
    run at the same time.  Not all take the number while they hold the mutex: the bits and
    positions of the buses and the polled attributes do not, and their changes can be
    missed. *)

From S2P Require Import Prelude Errors StdDev Capture PosOut.
From stdpp Require Import base numbers list list_numbers gmap option strings.
Open Scope Z_scope.

Module Changes.
Import Capture PosOut.

(** ** Change indices: config_server.c *)

Definition CHANGE_IX_CONFIG : nat := 0.
Definition CHANGE_IX_BITS : nat := 1.
Definition CHANGE_IX_POSITION : nat := 2.
Definition CHANGE_IX_READ : nat := 3.
Definition CHANGE_IX_ATTR : nat := 4.
Definition CHANGE_IX_TABLE : nat := 5.
Definition CHANGE_IX_METADATA : nat := 6.
Definition CHANGE_SET_SIZE : nat := 7.
Definition UINT64_MAX : Z := 2 ^ 64 - 1.

(** The new value of [global_change_index] is the index allocated. *)
Definition get_change_index (global_change_index : Z) : Z := u64 (global_change_index + 1).

Definition in_set (change_set : Z) (i : nat) : bool := bits_set change_set (Z.shiftl 1 (Z.of_nat i)).

(** [struct change_set_context]. *)
Abbreviation context := (list Z).

(** [update_change_index]: the index allocated, the context and [reported]. *)
Definition update_change_index (g : Z) (c : context) (change_set : Z) : Z * context * list Z :=
  let change_index := get_change_index g in
  (change_index,
   imap (λ i old, if in_set change_set i then change_index else old) c,
   imap (λ i old, if in_set change_set i then old else UINT64_MAX) c).

Definition reset_change_index (c : context) (change_set : Z) : context :=
  imap (λ i old, if in_set change_set i then 0 else old) c.

(** The test of every [change_set] method: bit_out, bit_mux, pos_out, pos_mux, registers,
    tables, time. *)
Definition changed_since (report_index update_index : Z) : bool := bool_decide (report_index < update_index).

(** ** Attributes: attributes.c *)

Record attr := mk_attr {
  a_in_change_set : bool;
  a_polled : bool;
  a_update_index : list Z;
  a_last_values : list cstring;
}.

(** [attr_changed]: the attribute and the counter. *)
Definition attr_changed (a : attr) (number : nat) (g : Z) : attr * Z :=
  let g := get_change_index g in
  (mk_attr (a_in_change_set a) (a_polled a) (<[number := g]> (a_update_index a)) (a_last_values a), g).

(** One value of [get_attr_change_set], whose text is now [string]. *)
Definition poll_value (a : attr) (report_index : Z) (string last : cstring) (index : Z) : Z * cstring :=
  if a_polled a && bool_decide (string ≠ last) then (u64 (report_index + 1), string) else (index, last).
Definition get_attr_change_set (a : attr) (report_index : Z) (strings : list cstring) : attr * list bool :=
  let polled := zip_with (λ sl ix, poll_value a report_index sl.1 sl.2 ix)
                  (zip strings (a_last_values a)) (a_update_index a) in
  (mk_attr (a_in_change_set a) (a_polled a) polled.*1 polled.*2,
   (λ ix, (a_in_change_set a || a_polled a) && changed_since report_index ix) <$> polled.*1).

(** ** Reports running with updates *)

Section steps.
(** The class of change each value belongs to, and whether its updates take their index
    under its mutex: those of the bits and positions of the buses (bit_out.c, pos_out.c)
    and of polled attributes do not. *)
Context (class_of : nat → nat) (guarded : nat → bool).

Record state := mk_state {
  s_global : Z;
  (** [update_index] of each value, and an update that holds its mutex with the
      index it was given. *)
  s_cells : list Z;
  s_updating : gmap nat Z;
  (** Connections: the context and, during a report, [report_index]. *)
  s_context : list context;
  s_report : gmap nat (list Z);
  (** The values a running report has passed. *)
  s_seen : gset (nat * nat);
  (** Ghost: the updates each connection has yet to be told. *)
  s_unreported : gset (nat * nat);
}.

(** What a report tells of value [i]. *)
Definition report_value (s : state) (k i : nat) : option bool :=
  match s_report s !! k, s_cells s !! i with
  | Some r, Some u => (λ ix, changed_since ix u) <$> r !! class_of i
  | _, _ => None
  end.

Inductive step : state → state → Prop :=
  (** An update takes the mutex of its value and an index; *)
  | step_alloc s i :
      guarded i = true → is_Some (s_cells s !! i) → s_updating s !! i = None → s_global s + 1 < 2 ^ 64 →
      let g := get_change_index (s_global s) in
      step s (mk_state g (s_cells s) (<[i := g]> (s_updating s)) (s_context s) (s_report s)
                (s_seen s) (s_unreported s))
  (** then it stores it and releases the mutex. *)
  | step_store s i c :
      s_updating s !! i = Some c →
      step s (mk_state (s_global s) (<[i := c]> (s_cells s)) (delete i (s_updating s)) (s_context s) (s_report s)
                (s_seen s) (s_unreported s ∪ set_map (λ k, (k, i)) (list_to_set (seq 0 (length (s_context s))) : gset nat)))
  (** A refresh of the buses stores the index it took before it had the mutex; *)
  | step_refresh s i u c :
      guarded i = false → s_cells s !! i = Some u → 0 < c ≤ s_global s →
      step s (mk_state (s_global s) (<[i := Z.max u c]> (s_cells s)) (s_updating s) (s_context s) (s_report s)
                (s_seen s) (s_unreported s ∪ set_map (λ k, (k, i)) (list_to_set (seq 0 (length (s_context s))) : gset nat)))
  (** and a report that finds a polled attribute changed stores its own index plus one. *)
  | step_poll s k i r ix :
      guarded i = false → is_Some (s_cells s !! i) → s_report s !! k = Some r → r !! class_of i = Some ix → ix ≠ UINT64_MAX →
      step s (mk_state (s_global s) (<[i := u64 (ix + 1)]> (s_cells s)) (s_updating s) (s_context s) (s_report s)
                (s_seen s) (s_unreported s ∪ set_map (λ k, (k, i)) (list_to_set (seq 0 (length (s_context s))) : gset nat)))
  (** A report starts with [update_change_index]; *)
  | step_report s k ctx change_set g ctx' reported :
      s_context s !! k = Some ctx → s_report s !! k = None → s_global s + 1 < 2 ^ 64 →
      update_change_index (s_global s) ctx change_set = (g, ctx', reported) →
      step s (mk_state g (s_cells s) (s_updating s) (<[k := ctx']> (s_context s)) (<[k := reported]> (s_report s))
                (filter (λ x, x.1 ≠ k) (s_seen s)) (s_unreported s))
  (** it reads the values of the selected classes under their mutexes; *)
  | step_read s k i r :
      s_report s !! k = Some r → (∃ ix, r !! class_of i = Some ix ∧ ix ≠ UINT64_MAX) →
      is_Some (s_cells s !! i) → s_updating s !! i = None → (k, i) ∉ s_seen s →
      step s (mk_state (s_global s) (s_cells s) (s_updating s) (s_context s) (s_report s)
                ({[(k, i)]} ∪ s_seen s) (s_unreported s ∖ {[(k, i)]}))
  (** and ends when it has passed all of them. *)
  | step_end s k r :
      s_report s !! k = Some r →
      (∀ i ix, (i < length (s_cells s))%nat → r !! class_of i = Some ix → ix ≠ UINT64_MAX → (k, i) ∈ s_seen s) →
      step s (mk_state (s_global s) (s_cells s) (s_updating s) (s_context s) (delete k (s_report s))
                (s_seen s) (s_unreported s))
  (** [reset_change_set] with RESET_START, between reports. *)
  | step_reset s k ctx change_set :
      s_context s !! k = Some ctx → s_report s !! k = None →
      step s (mk_state (s_global s) (s_cells s) (s_updating s) (<[k := reset_change_index ctx change_set]> (s_context s))
                (s_report s) (s_seen s) (s_unreported s)).

(** At the start no connection has seen anything and all updates have index 1. *)
Definition initial (cells connections : nat) : state :=
  mk_state 0 (replicate cells 1) ∅ (replicate connections (replicate CHANGE_SET_SIZE 0)) ∅ ∅ ∅.

Definition reachable (cells connections : nat) : state → Prop := rtc step (initial cells connections).

(** ** The invariant *)

(** The index above which connection [k] will be told of value [i]. *)
Definition bound (s : state) (k i : nat) : Z :=
  let ctx := default 0 (s_context s !! k ≫= (.!! class_of i)) in
  match s_report s !! k ≫= (.!! class_of i) with
  | Some r => if decide ((k, i) ∈ s_seen s) then ctx else Z.min r ctx
  | None => ctx
  end.

Record inv (s : state) : Prop := {
  i_global : 0 ≤ s_global s < 2 ^ 64;
  i_context k c j x : s_context s !! k = Some c → c !! j = Some x → 0 ≤ x ≤ s_global s;
  i_report k r j x : s_report s !! k = Some r → r !! j = Some x →
    ∃ c y, s_context s !! k = Some c ∧ c !! j = Some y ∧ (x = UINT64_MAX ∨ x ≤ y);
  i_cells i c : s_updating s !! i = Some c → is_Some (s_cells s !! i);
  i_updating i c k : s_updating s !! i = Some c → (k < length (s_context s))%nat → bound s k i < c;
  i_unreported k i : (k, i) ∈ s_unreported s →
    (k < length (s_context s))%nat ∧ (guarded i = true → ∃ u, s_cells s !! i = Some u ∧ bound s k i < u);
}.

Lemma get_change_index_next g : 0 ≤ g → g + 1 < 2 ^ 64 → get_change_index g = g + 1.
Proof. intros ??. apply wrap_small. lia. Qed.

(** The bound is never ahead of the counter. *)
Lemma bound_global s k i : inv s → bound s k i ≤ s_global s.
Proof.
  intros Hi. pose proof (i_global s Hi). unfold bound.
  assert (default 0 (s_context s !! k ≫= (.!! class_of i)) ≤ s_global s).
  { destruct (s_context s !! k) as [c|] eqn:Ec; simpl; [|lia].
    destruct (c !! class_of i) as [x|] eqn:Ex; simpl; [|lia]. pose proof (i_context s Hi _ _ _ _ Ec Ex). lia. }
  destruct (s_report s !! k ≫= _); [|lia]. destruct (decide _); lia.
Qed.

(** Where two states agree on what a bound is made of. *)
Lemma bound_ext s s' k i :
  s_context s' !! k = s_context s !! k → s_report s' !! k = s_report s !! k →
  ((k, i) ∈ s_seen s' ↔ (k, i) ∈ s_seen s) → bound s' k i = bound s k i.
Proof.
  intros E1 E2 E3. unfold bound. rewrite E1, E2. destruct (s_report s !! k ≫= _); [|done].
  by rewrite (decide_ext _ _ _ _ E3).
Qed.

Lemma changes_initial_inv cells connections : inv (initial cells connections).
Proof.
  split; try done.
  - intros k c j x. cbn [initial s_context]. intros [-> _]%lookup_replicate [-> _]%lookup_replicate.
    cbn [initial s_global]. lia.
Qed.

Lemma alloc_inv s i :
  inv s → is_Some (s_cells s !! i) → s_global s + 1 < 2 ^ 64 →
  inv (mk_state (get_change_index (s_global s)) (s_cells s) (<[i := get_change_index (s_global s)]> (s_updating s))
         (s_context s) (s_report s) (s_seen s) (s_unreported s)).
Proof.
  intros Hi Hc Hg. pose proof (i_global s Hi). rewrite get_change_index_next by lia.
  split; simpl; [lia| |apply Hi| | |].
  - intros k c j x Hk Hj. pose proof (i_context s Hi _ _ _ _ Hk Hj). lia.
  - intros i' c. destruct (decide (i = i')) as [->|]; [done|]. rewrite lookup_insert_ne by done. apply Hi.
  - intros i' c k Hu Hk. rewrite (bound_ext s) by done. destruct (decide (i = i')) as [->|].
    + rewrite lookup_insert_eq in Hu. simplify_eq. pose proof (bound_global s k i' Hi). lia.
    + rewrite lookup_insert_ne in Hu by done. by apply Hi.
  - intros k i' Hu. rewrite (bound_ext s) by done. by apply Hi.
Qed.

Lemma store_inv s i c :
  inv s → s_updating s !! i = Some c →
  inv (mk_state (s_global s) (<[i := c]> (s_cells s)) (delete i (s_updating s)) (s_context s) (s_report s)
        (s_seen s) (s_unreported s ∪ set_map (λ k, (k, i)) (list_to_set (seq 0 (length (s_context s))) : gset nat))).
Proof.
  intros Hi Hc. split; simpl; [apply Hi..| | |].
  - intros i' c' [_ Hu]%lookup_delete_Some. destruct (i_cells s Hi _ _ Hu) as [u Eu].
    apply lookup_lt_is_Some. rewrite length_insert. by eapply lookup_lt_Some.
  - intros i' c' k [Hne Hu]%lookup_delete_Some Hk. rewrite (bound_ext s) by done. by apply Hi.
  - intros k i' Hin. rewrite (bound_ext s) by done.
    assert ((k < length (s_context s))%nat ∧ (i' = i ∨ (k, i') ∈ s_unreported s)) as [Hk Hor].
    { apply elem_of_union in Hin as [Hin|Hin]; [split; [by apply (i_unreported s Hi k i')|by right]|].
      apply elem_of_map in Hin as (k' & E & Hk'). simplify_eq.
      rewrite elem_of_list_to_set, elem_of_seq in Hk'. split; [lia|by left]. }
    split; [done|]. intros Hg. destruct (decide (i' = i)) as [->|Hne].
    + exists c. split; [|by apply Hi]. apply list_lookup_insert_eq.
      destruct (i_cells s Hi _ _ Hc) as [u Eu]. by eapply lookup_lt_Some.
    + destruct Hor as [?|Hin']; [done|]. rewrite list_lookup_insert_ne by done. by apply Hi.
Qed.

(** An index stored for a value that is not guarded. *)
Lemma unguarded_inv s i c :
  inv s → guarded i = false →
  inv (mk_state (s_global s) (<[i := c]> (s_cells s)) (s_updating s) (s_context s) (s_report s)
        (s_seen s) (s_unreported s ∪ set_map (λ k, (k, i)) (list_to_set (seq 0 (length (s_context s))) : gset nat))).
Proof.
  intros Hi Hg. split; simpl; [apply Hi..| | |].
  - intros i' c' Hu%(i_cells s Hi). rewrite lookup_lt_is_Some in *. by rewrite length_insert.
  - intros i' c' k Hu Hk. rewrite (bound_ext s) by done. by apply Hi.
  - intros k i' Hin. rewrite (bound_ext s) by done. apply elem_of_union in Hin as [Hin|Hin].
    + destruct (i_unreported s Hi _ _ Hin) as [Hk Hu]. split; [done|]. intros Hg'. destruct (Hu Hg') as (u & Eu & Hlt).
      exists u. split; [|done]. rewrite list_lookup_insert_ne; [done|]. intros ->. congruence.
    + apply elem_of_map in Hin as (k' & E & Hk'). simplify_eq. rewrite elem_of_list_to_set, elem_of_seq in Hk'.
      split; [lia|]. congruence.
Qed.

(** Starting a report moves no bound. *)
Lemma report_bound s k ctx change_set k' i :
  inv s → s_context s !! k = Some ctx → s_report s !! k = None → s_global s + 1 < 2 ^ 64 →
  bound (mk_state (get_change_index (s_global s)) (s_cells s) (s_updating s)
    (<[k := imap (λ i old, if in_set change_set i then get_change_index (s_global s) else old) ctx]> (s_context s))
    (<[k := imap (λ i old, if in_set change_set i then old else UINT64_MAX) ctx]> (s_report s))
    (filter (λ x, x.1 ≠ k) (s_seen s)) (s_unreported s)) k' i = bound s k' i.
Proof.
  intros Hi Hk Hr Hg. pose proof (i_global s Hi). destruct (decide (k' = k)) as [->|Hne].
  2:{ apply bound_ext; simpl; [by rewrite list_lookup_insert_ne|by rewrite lookup_insert_ne|].
      rewrite elem_of_filter. simpl. tauto. }
  unfold bound. simpl. rewrite list_lookup_insert_eq, lookup_insert_eq by (by eapply lookup_lt_Some).
  rewrite Hk, Hr. simpl. rewrite !list_lookup_imap. destruct (ctx !! class_of i) as [x|] eqn:Ex; simpl; [|done].
  rewrite decide_False by (rewrite elem_of_filter; simpl; tauto).
  pose proof (i_context s Hi _ _ _ _ Hk Ex). unfold UINT64_MAX.
  rewrite get_change_index_next by lia. destruct (in_set _ _); lia.
Qed.

Lemma report_inv s k ctx change_set g ctx' reported :
  inv s → s_context s !! k = Some ctx → s_report s !! k = None → s_global s + 1 < 2 ^ 64 →
  update_change_index (s_global s) ctx change_set = (g, ctx', reported) →
  inv (mk_state g (s_cells s) (s_updating s) (<[k := ctx']> (s_context s)) (<[k := reported]> (s_report s))
        (filter (λ x, x.1 ≠ k) (s_seen s)) (s_unreported s)).
Proof.
  intros Hi Hk Hr Hg. unfold update_change_index. intros [= <- <- <-]. pose proof (i_global s Hi).
  split; simpl.
  - rewrite get_change_index_next; lia.
  - intros k' c j x Hc Hx. rewrite get_change_index_next by lia. destruct (decide (k' = k)) as [->|Hne].
    + rewrite list_lookup_insert_eq in Hc by (by eapply lookup_lt_Some). simplify_eq.
      rewrite list_lookup_imap in Hx. destruct (ctx !! j) as [y|] eqn:Ey; simplify_eq/=.
      pose proof (i_context s Hi _ _ _ _ Hk Ey). destruct (in_set _ _); [rewrite get_change_index_next|]; lia.
    + rewrite list_lookup_insert_ne in Hc by done. pose proof (i_context s Hi _ _ _ _ Hc Hx). lia.
  - intros k' r j x Hr' Hx. destruct (decide (k' = k)) as [->|Hne].
    + rewrite lookup_insert_eq in Hr'. simplify_eq. rewrite list_lookup_imap in Hx.
      destruct (ctx !! j) as [y|] eqn:Ey; simplify_eq/=.
      eexists _, _. rewrite list_lookup_insert_eq by (by eapply lookup_lt_Some). split; [done|].
      rewrite list_lookup_imap, Ey. split; [done|]. pose proof (i_context s Hi _ _ _ _ Hk Ey).
      destruct (in_set _ _); [right; rewrite get_change_index_next; lia|by left].
    + rewrite lookup_insert_ne in Hr' by done. rewrite list_lookup_insert_ne by done. by eapply i_report.
  - apply Hi.
  - intros i c k' Hu Hl. rewrite length_insert in Hl. rewrite report_bound by done. by apply Hi.
  - intros k' i Hu. rewrite length_insert, report_bound by done. by apply Hi.
Qed.

Lemma read_inv s k i r :
  inv s → s_report s !! k = Some r → s_updating s !! i = None →
  inv (mk_state (s_global s) (s_cells s) (s_updating s) (s_context s) (s_report s)
        ({[(k, i)]} ∪ s_seen s) (s_unreported s ∖ {[(k, i)]})).
Proof.
  intros Hi Hr Hu. split; simpl; [apply Hi..| |].
  - intros i' c k' Hc Hk. rewrite (bound_ext s); [by apply Hi|done..|]. simpl.
    assert (i' ≠ i) by (by intros ->; simplify_eq). set_solver.
  - intros k' i' Hin. rewrite (bound_ext s); [apply Hi; set_solver|done..|]. simpl. set_solver.
Qed.

Lemma end_bound s k r i :
  inv s → s_report s !! k = Some r → (i < length (s_cells s))%nat →
  (∀ i ix, (i < length (s_cells s))%nat → r !! class_of i = Some ix → ix ≠ UINT64_MAX → (k, i) ∈ s_seen s) →
  default 0 (s_context s !! k ≫= (.!! class_of i)) = bound s k i.
Proof.
  intros Hi Hr Hl Hall. unfold bound. rewrite Hr. simpl. destruct (r !! class_of i) as [x|] eqn:Ex; [|done].
  destruct (decide _) as [|Hns]; [done|].
  assert (x = UINT64_MAX) as ->.
  { destruct (decide (x = UINT64_MAX)); [done|]. destruct Hns. by eapply Hall. }
  destruct (i_report s Hi _ _ _ _ Hr Ex) as (c & y & Hc & Hy & _). rewrite Hc. simpl. rewrite Hy. simpl.
  pose proof (i_context s Hi _ _ _ _ Hc Hy). pose proof (i_global s Hi). unfold UINT64_MAX. lia.
Qed.

Lemma changes_end_inv s k r :
  inv s → s_report s !! k = Some r →
  (∀ i ix, (i < length (s_cells s))%nat → r !! class_of i = Some ix → ix ≠ UINT64_MAX → (k, i) ∈ s_seen s) →
  inv (mk_state (s_global s) (s_cells s) (s_updating s) (s_context s) (delete k (s_report s))
        (s_seen s) (s_unreported s)).
Proof.
  intros Hi Hr Hall.
  assert (∀ k' i, (i < length (s_cells s))%nat →
    bound (mk_state (s_global s) (s_cells s) (s_updating s) (s_context s) (delete k (s_report s))
        (s_seen s) (s_unreported s)) k' i = bound s k' i) as Hb.
  { intros k' i Hl. destruct (decide (k' = k)) as [->|].
    - rewrite <-(end_bound s k r i) by done. unfold bound. simpl. by rewrite lookup_delete_eq.
    - apply bound_ext; [done|simpl; by rewrite lookup_delete_ne|done]. }
  split; simpl; [apply Hi|apply Hi| |apply Hi| |].
  - intros k' r' j x [_ Hr']%lookup_delete_Some. by apply Hi.
  - intros i c k' Hc Hk. rewrite Hb; [by apply Hi|].
    destruct (i_cells s Hi _ _ Hc) as [? ?]. by eapply lookup_lt_Some.
  - intros k' i Hin. destruct (i_unreported s Hi _ _ Hin) as [Hk Hex]. split; [done|]. intros Hg.
    destruct (Hex Hg) as (u & Hu & Hlt). rewrite Hb by (by eapply lookup_lt_Some). eauto.
Qed.

Lemma reset_inv s k ctx change_set :
  inv s → s_context s !! k = Some ctx → s_report s !! k = None →
  inv (mk_state (s_global s) (s_cells s) (s_updating s) (<[k := reset_change_index ctx change_set]> (s_context s))
        (s_report s) (s_seen s) (s_unreported s)).
Proof.
  intros Hi Hk Hr. pose proof (i_global s Hi).
  assert (∀ k' i, bound (mk_state (s_global s) (s_cells s) (s_updating s)
    (<[k := reset_change_index ctx change_set]> (s_context s)) (s_report s) (s_seen s) (s_unreported s)) k' i
    ≤ bound s k' i) as Hb.
  { intros k' i. destruct (decide (k' = k)) as [->|].
    - unfold bound. simpl. rewrite list_lookup_insert_eq, Hk, Hr by (by eapply lookup_lt_Some). simpl.
      unfold reset_change_index. rewrite list_lookup_imap. destruct (ctx !! class_of i) as [x|] eqn:Ex; simpl; [|lia].
      pose proof (i_context s Hi _ _ _ _ Hk Ex). destruct (in_set _ _); lia.
    - rewrite (bound_ext s); [lia|simpl; by rewrite list_lookup_insert_ne|done..]. }
  split; simpl; [done| | |apply Hi| |].
  - intros k' c j x Hc Hx. destruct (decide (k' = k)) as [->|].
    + rewrite list_lookup_insert_eq in Hc by (by eapply lookup_lt_Some). simplify_eq.
      unfold reset_change_index in Hx. rewrite list_lookup_imap in Hx.
      destruct (ctx !! j) as [y|] eqn:Ey; simplify_eq/=. pose proof (i_context s Hi _ _ _ _ Hk Ey).
      destruct (in_set _ _); lia.
    + rewrite list_lookup_insert_ne in Hc by done. by eapply i_context.
  - intros k' r j x Hr' Hx. assert (k' ≠ k) by (by intros ->; simplify_eq).
    rewrite list_lookup_insert_ne by done. by eapply i_report.
  - intros i c k' Hc Hl. rewrite length_insert in Hl. pose proof (i_updating s Hi _ _ _ Hc Hl).
    specialize (Hb k' i). lia.
  - intros k' i Hin. rewrite length_insert. destruct (i_unreported s Hi _ _ Hin) as [Hl Hex]. split; [done|]. intros Hg.
    destruct (Hex Hg) as (u & Hu & Hlt). specialize (Hb k' i). exists u. split; [done|lia].
Qed.

Lemma changes_step_inv s s' : step s s' → inv s → inv s'.
Proof.
  destruct 1; intros Hi.
  - by apply alloc_inv.
  - by apply store_inv.
  - by apply unguarded_inv.
  - by apply unguarded_inv.
  - by eapply report_inv.
  - by eapply read_inv.
  - by eapply changes_end_inv.
  - by apply reset_inv.
Qed.

Lemma changes_reachable_inv cells connections s : reachable cells connections s → inv s.
Proof.
  unfold reachable. intros H. remember (initial cells connections) as s0.
  assert (inv s0) as Hi by (subst; apply changes_initial_inv). clear Heqs0. revert Hi.
  induction H as [|x y z Hs _ IH]; [done|]. intros Hi. apply IH. by eapply changes_step_inv.
Qed.

(** C17: No change of a guarded value is lost: however updates, refreshes of the buses,
    polls of attributes and the reports of any number of connections interleave, when a
    report reads a value whose updates take their index under its mutex, and that was
    updated since this connection last read it, the report lists the value.  (Of the bits
    and positions of the buses and of polled attributes changes can be missed: lemmas
    [late_refresh_lost] and [polled_change_missed].) *)
Theorem changes_reported cells connections s k i r ix :
  reachable cells connections s → guarded i = true → (k, i) ∈ s_unreported s →
  s_report s !! k = Some r → r !! class_of i = Some ix → ix ≠ UINT64_MAX → (k, i) ∉ s_seen s →
  report_value s k i = Some true.
Proof.
  intros Hi%changes_reachable_inv Hg Hin Hr Hix Hne Hns.
  destruct (i_unreported s Hi _ _ Hin) as [_ Hex]. destruct (Hex Hg) as (u & Hu & Hlt). unfold report_value. rewrite Hr, Hu, Hix. simpl.
  destruct (i_report s Hi _ _ _ _ Hr Hix) as (c & y & Hc & Hy & [?|Hle]); [done|].
  unfold bound in Hlt. rewrite Hr, Hc in Hlt. simpl in Hlt. rewrite Hix, Hy, decide_False in Hlt by done. simpl in Hlt.
  unfold changed_since. rewrite bool_decide_true by lia. done.
Qed.

End steps.

(** ** Two ways to miss a change *)

(** [pos_out_refresh] takes its index before the mutex: when a report comes
    in between, the positions it then finds changed get an index that is already
    behind that connection, and no later report of the connection lists them. *)
Theorem late_refresh_lost g ctx change_set b p v0 v1 changes :
  0 ≤ g < 2 ^ 63 → in_set change_set CHANGE_IX_POSITION = true → length ctx = CHANGE_SET_SIZE →
  length changes = POS_BUS_COUNT →
  length (pos_update_index b) = POS_BUS_COUNT → Forall (λ u, u ≤ g) (pos_update_index b) →
  Forall (λ f, 0 ≤ capture_index f < Z.of_nat POS_BUS_COUNT) p →
  let unchanged := replicate POS_BUS_COUNT false in
  let c := get_change_index g in
  let '(r1, ctx1, _) := update_change_index c ctx change_set in
  let b1 := do_pos_out_refresh b v0 unchanged r1 in
  let b2 := do_pos_out_refresh b1 v1 changes c in
  let '(r2, ctx2, reported) := update_change_index r1 ctx1 change_set in
  let b3 := do_pos_out_refresh b2 v1 unchanged r2 in
  ∃ ix, reported !! CHANGE_IX_POSITION = Some ix ∧
    pos_out_change_set b3 p ix = Ret (replicate (length p) false).
Proof.
  intros Hg Hset Hctx Hch Hlen Hb Hp. cbn [update_change_index]. rewrite (get_change_index_next g), (get_change_index_next (g + 1)), (get_change_index_next (g + 1 + 1)) by lia.
  destruct (lookup_lt_is_Some_2 ctx CHANGE_IX_POSITION) as [x Ex]; [rewrite Hctx; unfold CHANGE_IX_POSITION, CHANGE_SET_SIZE; lia|].
  exists (g + 1 + 1). split.
  { rewrite !list_lookup_imap, Ex. simpl. by rewrite Hset. }
  unfold pos_out_change_set. cbn [do_pos_out_refresh pos_update_index].
  set (ix := zip_with _ _ (zip_with _ _ (zip_with _ _ _))).
  assert (length ix = POS_BUS_COUNT) as Hix by (subst ix; rewrite !length_zip_with, !length_replicate, Hch, Hlen; lia).
  assert (∀ j u, ix !! j = Some u → u ≤ g + 1) as Hle.
  { intros j u. subst ix. rewrite lookup_zip_with_Some. intros (f3 & u3 & -> & Hf3 & H2).
    apply lookup_replicate in Hf3 as [-> _]. apply lookup_zip_with_Some in H2 as (f2 & u2 & -> & _ & H1).
    apply lookup_zip_with_Some in H1 as (f1 & u1 & -> & Hf1 & H0). apply lookup_replicate in Hf1 as [-> _].
    pose proof (Forall_lookup_1 _ _ _ _ Hb H0) as Hu. simpl in *. destruct (f2 && _); lia. }
  clearbody ix. clear -Hp Hle Hix. induction Hp as [|f p Hf Hp IH]; [done|]. cbn [mapM length replicate].
  destruct (lookup_lt_is_Some_2 ix (Z.to_nat (capture_index f))) as [u Eu]; [lia|].
  rewrite (at_index_some _ _ _ Eu). cbn [mbind outcome_bind]. pose proof (Hle _ _ Eu).
  rewrite bool_decide_false by lia. by rewrite IH.
Qed.

(** A change of a polled attribute is seen by the first connection that asks
    and by no other that has reported later than that one had: the index stored
    is taken from the report of the first. *)
Theorem polled_change_missed a first second old new :
  a_polled a = true → a_last_values a = [old] → length (a_update_index a) = 1%nat → old ≠ new →
  0 ≤ first < second → second < 2 ^ 64 →
  (get_attr_change_set a first [new]).2 = [true] ∧
  (get_attr_change_set (get_attr_change_set a first [new]).1 second [new]).2 = [false].
Proof.
  intros Hp Hl Hu Hne Hf Hs. destruct a as [ic p us ls]. simpl in *. subst.
  destruct us as [|u [|]]; try done. unfold get_attr_change_set, poll_value. simpl.
  rewrite bool_decide_true by done. simpl. rewrite (bool_decide_false (new ≠ new)) by tauto. simpl.
  unfold changed_since. rewrite wrap_small by lia. rewrite !orb_true_r. simpl.
  rewrite bool_decide_true by lia. by rewrite bool_decide_false by lia.
Qed.

(** ** Examples *)

Lemma late_refresh_lost_witness :
  ∃ ix reported, reported = [7; 7; 7; 7; 7; 7; 7] ∧ reported !! CHANGE_IX_POSITION = Some ix ∧
    pos_out_change_set
      (do_pos_out_refresh
        (do_pos_out_refresh
          (do_pos_out_refresh (mk_bus (replicate 32 0) (replicate 32 1)) (replicate 32 0) (replicate 32 false) 7)
          (replicate 32 9) (replicate 32 true) 6)
        (replicate 32 9) (replicate 32 false) 8)
      [mk_pos_field StdDev.Double.NAN StdDev.Double.NAN None 3 1] ix = Ret [false].
Proof.
  destruct (late_refresh_lost 5 (replicate CHANGE_SET_SIZE 4) 127 (mk_bus (replicate 32 0) (replicate 32 1))
    [mk_pos_field StdDev.Double.NAN StdDev.Double.NAN None 3 1] (replicate 32 0) (replicate 32 9) (replicate 32 true))
    as (ix & E & H); [lia|reflexivity|reflexivity|reflexivity|reflexivity| | |].
  - by apply (bool_decide_unpack _); vm_compute.
  - repeat constructor; simpl; lia.
  - exists ix. eexists. split; [reflexivity|]. split; [exact E|exact H].
Defined.

Lemma polled_change_missed_witness :
  (get_attr_change_set (mk_attr false true [1] [[48]]) 5 [[49]]).2 = [true] ∧
  (get_attr_change_set (get_attr_change_set (mk_attr false true [1] [[48]]) 5 [[49]]).1 9 [[49]]).2 = [false].
Proof. apply (polled_change_missed _ 5 9 [48] [49]); (reflexivity || lia || discriminate). Defined.

(** A value reported once, then updated while the next report is running, and another one
    that is refreshed with the index of the report before. *)
Definition run_class (i : nat) : nat := if decide (i = 0%nat) then CHANGE_IX_CONFIG else CHANGE_IX_POSITION.
Definition run_guarded (i : nat) : bool := bool_decide (i = 0%nat).
Definition run_state : state :=
  mk_state 3 [2; 1] ∅ [replicate CHANGE_SET_SIZE 3] {[0%nat := replicate CHANGE_SET_SIZE 1]} ∅ {[(0%nat, 0%nat); (0%nat, 1%nat)]}.

(** One step of a run, to a state that is given. *)
Lemma run_step s s1 s2 t : step run_class run_guarded s s1 → s1 = s2 → rtc (step run_class run_guarded) s2 t → rtc (step run_class run_guarded) s t.
Proof. intros Hs <-. by apply rtc_l. Qed.
Definition at_ (x : Z) : list Z := replicate CHANGE_SET_SIZE x.
Definition seen_both : gset (nat * nat) := {[(0%nat, 0%nat); (0%nat, 1%nat)]}.
Lemma run_reachable : reachable run_class run_guarded 2 1 run_state.
Proof.
  unfold reachable.
  eapply (run_step _ _ (mk_state 1 [1; 1] ∅ [at_ 1] {[0%nat := at_ 0]} ∅ ∅));
    [eapply (step_report run_class run_guarded _ 0 (at_ 0) 127); [done|done|done|reflexivity]|f_equal; by vm_compute|].
  eapply (run_step _ _ (mk_state 1 [1; 1] ∅ [at_ 1] {[0%nat := at_ 0]} {[(0%nat, 0%nat)]} ∅));
    [eapply (step_read run_class run_guarded _ 0 0); [done|by eexists|by eexists|done|apply not_elem_of_empty]|f_equal; by vm_compute|].
  eapply (run_step _ _ (mk_state 1 [1; 1] ∅ [at_ 1] {[0%nat := at_ 0]} seen_both ∅));
    [eapply (step_read run_class run_guarded _ 0 1); [done|by eexists|by eexists|done|apply (bool_decide_unpack _); by vm_compute]|f_equal; by vm_compute|].
  eapply (run_step _ _ (mk_state 1 [1; 1] ∅ [at_ 1] ∅ seen_both ∅)).
  { eapply (step_end run_class run_guarded _ 0); [done|]. cbn. intros i ix Hi _ _.
    assert (i = 0 ∨ i = 1)%nat as [-> | ->] by lia; apply (bool_decide_unpack _); by vm_compute. }
  { f_equal; by vm_compute. }
  eapply (run_step _ _ (mk_state 2 [1; 1] {[0%nat := 2]} [at_ 1] ∅ seen_both ∅));
    [eapply (step_alloc run_class run_guarded _ 0); [done|by eexists|done|done]|f_equal; by vm_compute|].
  eapply (run_step _ _ (mk_state 3 [1; 1] {[0%nat := 2]} [at_ 3] {[0%nat := at_ 1]} ∅ ∅));
    [eapply (step_report run_class run_guarded _ 0 (at_ 1) 127); [done|done|done|reflexivity]|f_equal; by vm_compute|].
  eapply (run_step _ _ (mk_state 3 [2; 1] ∅ [at_ 3] {[0%nat := at_ 1]} ∅ {[(0%nat, 0%nat)]}));
    [eapply (step_store run_class run_guarded _ 0 2); reflexivity|f_equal; by vm_compute|].
  eapply (run_step _ _ run_state); [eapply (step_refresh run_class run_guarded _ 1 1 1); [done|done|by vm_compute]|unfold run_state; f_equal; by vm_compute|].
  apply rtc_refl.
Qed.

Lemma changes_reported_witness : report_value run_class run_state 0 0 = Some true.
Proof.
  apply (changes_reported run_class run_guarded 2 1 run_state 0 0 (replicate CHANGE_SET_SIZE 1) 1);
    [apply run_reachable|reflexivity|by vm_compute|reflexivity|reflexivity|discriminate|apply not_elem_of_empty].
Defined.
(** The other one is not listed, though it has not been reported since. *)
Lemma refresh_not_reported : (0%nat, 1%nat) ∈ s_unreported run_state ∧ report_value run_class run_state 0 1 = Some false.
Proof. split; [apply (bool_decide_unpack _); by vm_compute|reflexivity]. Qed.

End Changes.
