(* ===== verification/Mux.v ===== *)
(** * Bit and position multiplexers: pos_mux.c, bit_out.c

    The names of the bit and position outputs form two enumerations; a
    multiplexer selects a source by name, and its register in the FPGA follows
    the selection.  The name of a field comes from [format_field_name] of
    fields.c.  A register of the FPGA is [(block_base, number, register)]. *)

From S2P Require Import Prelude Errors Parse Format HashTable HashTableSpec Enums StdDev Capture PosOut Changes.
From stdpp Require Import base numbers list list_numbers gmap option strings.
Open Scope Z_scope.

Module Mux.
Import Parse Format Capture PosOut Changes.

Definition BIT_BUS_COUNT : nat := 128.
Definition BIT_BUS_ZERO : Z := Z.of_nat BIT_BUS_COUNT.
Definition BIT_BUS_ONE : Z := Z.of_nat BIT_BUS_COUNT + 1.
Definition POS_BUS_ZERO : Z := Z.of_nat POS_BUS_COUNT.
Definition MAX_BIT_MUX_DELAY : Z := 31.

(** ** Names: fields.c *)

(** What [format_field_name] reads of a field and of its block. *)
Record field := mk_field { block_name : cstring; block_count : Z; f_name : cstring }.

(** The text before the suffix; [%d] prints the unsigned number as an [int]. *)
Definition field_text (f : field) (number : Z) : cstring :=
  block_name f ++ (if bool_decide (block_count f = 1) then [] else fmt_d (to_signed 32 (number + 1))) ++
  [46] ++ f_name f.

(** [format_field_name]: the string stored, without its terminator.  The buffer
    has [length_] bytes; the suffix and the terminator go to [result] and
    [result + 1]. *)
Definition format_field_name (length_ : nat) (f : field) (attr : option cstring) (number suffix : Z)
    : outcome cstring :=
  let text := field_text f number in
  _ ← assert_ok (bool_decide (length text < length_)%nat);
  let text := text ++ match attr with Some a => [46] ++ a | None => [] end in
  _ ← assert_ok (bool_decide (length text < length_ + 1)%nat);
  _ ← in_range (bool_decide (S (length text) < length_)%nat);
  Ret (c_str (text ++ [suffix; 0])).

(** ** Registers of the FPGA *)

Abbreviation registers := (gmap (Z * nat * Z) Z).
Definition hw_write_register (hw : registers) (block_base : Z) (number : nat) (reg value : Z) : registers :=
  <[(block_base, number, reg) := u32 value]> hw.

Section mux.
Context `{Platform} {T : Type} `{!StringTable Z T}.
Abbreviation enumeration := (Enums.enumeration (T := T)).

(** [add_mux_indices], for both multiplexers. *)
Fixpoint add_mux_loop (lookup : enumeration) (f : field) (i : Z) (array : list Z) : outcome (error__t * enumeration) :=
  match array with
  | [] => Ret (None, lookup)
  | v :: rest =>
      name ← format_field_name MAX_NAME_LENGTH f None i 0;
      '(error, lookup) ← Enums.add_enumeration lookup name v;
      match error with
      | None => add_mux_loop lookup f (i + 1) rest
      | Some _ => Ret (error, lookup)
      end
  end.
Definition add_mux_indices (lookup : enumeration) (f : field) (array : list Z) : outcome (error__t * enumeration) :=
  add_mux_loop lookup f 0 array.

(** ** Position multiplexer: pos_mux.c *)

Definition initialise_pos_mux : outcome (error__t * enumeration) :=
  Enums.add_enumeration Enums.create_dynamic_enumeration (bytes_of "ZERO") POS_BUS_ZERO.

Definition add_pos_mux_index (pos_mux_lookup : enumeration) (f : field) (array : list Z)
    : outcome (error__t * enumeration) := add_mux_indices pos_mux_lookup f array.

Record pos_mux_value := mk_pos_mux { pm_value : Z; pm_update_index : Z }.
Record pos_mux_state := mk_pos_mux_state {
  pm_block_base : Z;
  pm_reg : Z;
  pm_values : list pos_mux_value;
}.
Definition set_pm_values (s : pos_mux_state) (vs : list pos_mux_value) : pos_mux_state :=
  mk_pos_mux_state (pm_block_base s) (pm_reg s) vs.

Definition pos_mux_init (count : nat) : pos_mux_state :=
  mk_pos_mux_state 0 0 (replicate count (mk_pos_mux POS_BUS_ZERO 1)).

(** The register numbers are checked by [check_parse_register] of fields.c. *)
Definition pos_mux_parse_register (s : pos_mux_state) (block_base reg : Z) : pos_mux_state :=
  mk_pos_mux_state block_base reg (pm_values s).

Definition pos_mux_finalise (s : pos_mux_state) (hw : registers) : registers :=
  foldl (λ hw x, hw_write_register hw (pm_block_base s) x.1 (pm_reg s) (pm_value x.2)) hw
    (imap pair (pm_values s)).

Definition pos_mux_get (pos_mux_lookup : enumeration) (s : pos_mux_state) (number length_ : nat)
    : outcome (res cstring) :=
  v ← at_index (pm_values s) number; Enums.format_enumeration pos_mux_lookup (pm_value v) length_.

(** [pos_mux_put]: the state, the counter of change indices and the registers. *)
Definition pos_mux_put (pos_mux_lookup : enumeration) (s : pos_mux_state) (g : Z) (hw : registers)
    (number : nat) (string : cstring) : outcome (error__t * pos_mux_state * Z * registers) :=
  found ← Enums.enum_name_to_index pos_mux_lookup string;
  match found with
  | None => Ret (TEST_OK_ false "Invalid position selection", s, g, hw)
  | Some mux_value =>
      _ ← at_index (pm_values s) number;
      let g := get_change_index g in
      Ret (None, set_pm_values s (<[number := mk_pos_mux mux_value g]> (pm_values s)), g,
           hw_write_register hw (pm_block_base s) number (pm_reg s) mux_value)
  end.

Definition pos_mux_change_set (s : pos_mux_state) (report_index : Z) : list bool :=
  (λ v, changed_since report_index (pm_update_index v)) <$> pm_values s.

(** ** Bit multiplexer: bit_out.c *)

Record bit_mux_value := mk_bit_mux { bm_value : Z; bm_delay : Z; bm_update_index : Z }.
Record bit_mux_state := mk_bit_mux_state {
  bm_block_base : Z;
  bm_mux_reg : Z;
  bm_delay_reg : Z;
  bm_values : list bit_mux_value;
}.
Definition set_bm_values (s : bit_mux_state) (vs : list bit_mux_value) : bit_mux_state :=
  mk_bit_mux_state (bm_block_base s) (bm_mux_reg s) (bm_delay_reg s) vs.

Definition initialise_bit_out : outcome (error__t * enumeration) :=
  '(error, e) ← Enums.add_enumeration Enums.create_dynamic_enumeration (bytes_of "ZERO") BIT_BUS_ZERO;
  match error with
  | None => Enums.add_enumeration e (bytes_of "ONE") BIT_BUS_ONE
  | Some _ => Ret (error, e)
  end.

(** [report_capture_bits] and [report_capture_bits_group]: the lines written. *)
Definition report_capture_bits (bit_mux_lookup : enumeration) : outcome (list cstring) :=
  omap (M := list) id <$>
    mapM (λ i, Enums.enum_index_to_name bit_mux_lookup (Z.of_nat i)) (seq 0 BIT_BUS_COUNT).
Definition report_capture_bits_group (bit_mux_lookup : enumeration) (group : Z) : outcome (list cstring) :=
  mapM (λ i, n ← Enums.enum_index_to_name bit_mux_lookup (u32 (32 * group + Z.of_nat i)); Ret (default [] n))
    (seq 0 32).

(** [parse_default_param]: the value to start with, if one is given. *)
Definition parse_default_param (values : list bit_mux_value) (line : cstring)
    : res (list bit_mux_value) * cstring :=
  let '(given, line1) := read_char 32 line in
  if given then
    match (_ ← parse_char (Ascii.ascii_of_nat 61); parse_uint32) (skip_whitespace line1) with
    | (OK v, rest) => (OK ((λ b, mk_bit_mux v (bm_delay b) (bm_update_index b)) <$> values), rest)
    | (Err e, rest) => (Err e, rest)
    end
  else (OK values, line1).

Definition bit_mux_init (count : nat) (line : cstring) : res bit_mux_state * cstring :=
  match parse_default_param (replicate count (mk_bit_mux BIT_BUS_ZERO 0 1)) line with
  | (OK vs, rest) => (OK (mk_bit_mux_state 0 0 0 vs), rest)
  | (Err e, rest) => (Err e, rest)
  end.

Definition bit_mux_parse_register (s : bit_mux_state) (block_base mux_reg delay_reg : Z) : bit_mux_state :=
  mk_bit_mux_state block_base mux_reg delay_reg (bm_values s).

Definition bit_mux_finalise (s : bit_mux_state) (hw : registers) : registers :=
  foldl (λ hw x, hw_write_register hw (bm_block_base s) x.1 (bm_mux_reg s) (bm_value x.2)) hw
    (imap pair (bm_values s)).

Definition bit_mux_get (bit_mux_lookup : enumeration) (s : bit_mux_state) (number length_ : nat)
    : outcome (res cstring) :=
  v ← at_index (bm_values s) number; Enums.format_enumeration bit_mux_lookup (bm_value v) length_.

Definition bit_mux_put (bit_mux_lookup : enumeration) (s : bit_mux_state) (g : Z) (hw : registers)
    (number : nat) (string : cstring) : outcome (error__t * bit_mux_state * Z * registers) :=
  found ← Enums.enum_name_to_index bit_mux_lookup string;
  match found with
  | None => Ret (TEST_OK_ false "Invalid bit bus selection", s, g, hw)
  | Some mux_value =>
      v ← at_index (bm_values s) number;
      let g := get_change_index g in
      Ret (None, set_bm_values s (<[number := mk_bit_mux mux_value (bm_delay v) g]> (bm_values s)), g,
           hw_write_register hw (bm_block_base s) number (bm_mux_reg s) mux_value)
  end.

Definition bit_mux_change_set (s : bit_mux_state) (report_index : Z) : list bool :=
  (λ v, changed_since report_index (bm_update_index v)) <$> bm_values s.

Definition bit_mux_delay_format (s : bit_mux_state) (number length_ : nat) : outcome (res cstring) :=
  v ← at_index (bm_values s) number; Ret (format_string length_ (fmt_u (bm_delay v))).

Definition bit_mux_delay_put (s : bit_mux_state) (hw : registers) (number : nat) (value : cstring)
    : outcome (error__t * bit_mux_state * registers) :=
  match (d ← parse_uint; _ ← parse_eos; mret d) value with
  | (Err e, _) => Ret (Some e, s, hw)
  | (OK delay, _) =>
      match TEST_OK_ (bool_decide (delay ≤ MAX_BIT_MUX_DELAY)) "Delay too long" with
      | Some e => Ret (Some e, s, hw)
      | None =>
          v ← at_index (bm_values s) number;
          Ret (None, set_bm_values s (<[number := mk_bit_mux (bm_value v) delay (bm_update_index v)]> (bm_values s)),
               hw_write_register hw (bm_block_base s) number (bm_delay_reg s) delay)
      end
  end.

Definition bit_mux_max_delay_format (length_ : nat) : res cstring := format_string length_ (fmt_u MAX_BIT_MUX_DELAY).

(** ** Bit outputs *)

(** [bit_value] and [bit_update_index]. *)
Record bit_bus := mk_bit_bus { bit_value : list bool; bit_update_index : list Z }.

Definition do_bit_out_refresh (b : bit_bus) (values changes : list bool) (change_index : Z) : bit_bus :=
  mk_bit_bus values
    (zip_with (λ (changed : bool) ix, if changed && bool_decide (ix < change_index) then change_index else ix)
       changes (bit_update_index b)).

(** [struct bit_out_state] is its [index_array]. *)
Definition bit_out_get (b : bit_bus) (index_array : list Z) (number length_ : nat) : outcome (res cstring) :=
  ix ← at_index index_array number;
  bit ← at_index (bit_value b) (Z.to_nat ix);
  Ret (format_string length_ (fmt_d (if bit : bool then 1 else 0))).

Definition bit_out_change_set (b : bit_bus) (index_array : list Z) (report_index : Z) : outcome (list bool) :=
  mapM (λ ix, u ← at_index (bit_update_index b) (Z.to_nat ix); Ret (changed_since report_index u)) index_array.

(** [bit_out_parse_register]: the indices of the [count] values are entered into
    the enumeration as they are. *)
Definition bit_out_parse_register (bit_mux_lookup : enumeration) (f : field) (count : nat) (line : cstring)
    : outcome (error__t * enumeration * list Z * cstring) :=
  match parse_uint_array count line with
  | (Err e, rest) => Ret (Some e, bit_mux_lookup, [], rest)
  | (OK array, rest) => '(error, e) ← add_mux_indices bit_mux_lookup f array; Ret (error, e, array, rest)
  end.

(** [group_name], an entry for each 32 bits. *)
Definition set_bit_group_name (group_name : list (option cstring)) (group : nat) (name : cstring)
    : outcome (list (option cstring)) :=
  _ ← in_range (bool_decide (group < BIT_BUS_COUNT / 32)%nat); Ret (<[group := Some name]> group_name).

Definition capture_word_format (group_name : list (option cstring)) (index_array : list Z) (number length_ : nat)
    : outcome (res cstring) :=
  ix ← at_index index_array number;
  name ← at_index group_name (Z.to_nat (ix / 32));
  match name with
  | Some n => Ret (format_string length_ n)
  | None => Undef
  end.

Definition offset_format (index_array : list Z) (number length_ : nat) : outcome (res cstring) :=
  ix ← at_index index_array number; Ret (format_string length_ (fmt_u (ix mod 32))).

End mux.
End Mux.
