(* ===== verification/MuxSpec.v ===== *)
(** * What the multiplexers promise

    The registers of the FPGA follow the selections and the delays through any
    sequence of commands, a selection reads back as the name that was written,
    and [format_field_name] stays within its buffer except for names that just
    fit. *)

From S2P Require Import Prelude Errors Parse Format HashTable HashTableSpec Enums StdDev Capture PosOut Changes Mux.
From stdpp Require Import base numbers list list_numbers gmap option strings.
Open Scope Z_scope.

Module MuxSpec.
Import Parse Format Capture PosOut Changes Mux.

(** ** Names *)

(** The name of a field is stored with its suffix when it leaves room for
    both the suffix and the terminator; a name too long for the buffer stops the
    server; and a name that fills the buffer up to its last byte passes the
    assertions but has its terminator stored one byte past the end. *)
Theorem format_field_name_spec length_ f number suffix :
  Forall (λ c, c ≠ 0) (field_text f number) →
  format_field_name length_ f None number suffix =
    if decide (S (length (field_text f number)) < length_)%nat then
      Ret (field_text f number ++ if decide (suffix = 0) then [] else [suffix])
    else if decide (S (length (field_text f number)) = length_)%nat then Undef
    else Panic.
Proof.
  intros Hz. unfold format_field_name. rewrite app_nil_r. set (text := field_text f number) in *.
  destruct (decide (S (length text) < length_)%nat) as [Hl|Hl].
  - rewrite (bool_decide_true (length text < length_)%nat), (bool_decide_true (length text < length_ + 1)%nat),
      (bool_decide_true (S (length text) < length_)%nat) by lia. cbn [assert_ok in_range mbind outcome_bind]. f_equal.
    destruct (decide (suffix = 0)) as [->|Hs].
    + rewrite app_nil_r. by apply c_str_terminated.
    + change [suffix; 0] with ([suffix] ++ [0]). rewrite (assoc_L (++)).
      apply c_str_terminated. apply Forall_app. split; [done|by repeat constructor].
  - destruct (decide (S (length text) = length_)%nat) as [He|He].
    + rewrite (bool_decide_true (length text < length_)%nat), (bool_decide_true (length text < length_ + 1)%nat),
        (bool_decide_false (S (length text) < length_)%nat) by lia. done.
    + by rewrite (bool_decide_false (length text < length_)%nat) by lia.
Qed.

Section mux.
Context `{Platform} {T : Type} `{!StringTable Z T}.
Abbreviation enumeration := (Enums.enumeration (T := T)).

(** ** Registers *)

(** The commands a bit multiplexer takes. *)
Inductive bit_op := Select (number : nat) (name : cstring) | Delay (number : nat) (text : cstring).

Definition bit_step (lookup : enumeration) (x : bit_mux_state * Z * registers) (op : bit_op)
    : outcome (bit_mux_state * Z * registers) :=
  let '(s, g, hw) := x in
  match op with
  | Select number name => '(_, s, g, hw) ← bit_mux_put lookup s g hw number name; Ret (s, g, hw)
  | Delay number text => '(_, s, hw) ← bit_mux_delay_put s hw number text; Ret (s, g, hw)
  end.
Fixpoint bit_run (lookup : enumeration) (x : bit_mux_state * Z * registers) (ops : list bit_op)
    : outcome (bit_mux_state * Z * registers) :=
  match ops with
  | [] => Ret x
  | op :: rest => x' ← bit_step lookup x op; bit_run lookup x' rest
  end.
Definition op_number (op : bit_op) : nat := match op with Select n _ | Delay n _ => n end.

(** The registers agree with the state; a delay that was never set is the reset
    value of its register. *)
Definition synced (s : bit_mux_state) (hw : registers) : Prop :=
  ∀ i v, bm_values s !! i = Some v →
    0 ≤ bm_value v < 2 ^ 32 ∧ hw !! (bm_block_base s, i, bm_mux_reg s) = Some (bm_value v) ∧
    0 ≤ bm_delay v ≤ MAX_BIT_MUX_DELAY ∧ default 0 (hw !! (bm_block_base s, i, bm_delay_reg s)) = bm_delay v.

Record same_wiring (s s' : bit_mux_state) : Prop := {
  sw_base : bm_block_base s' = bm_block_base s;
  sw_mux : bm_mux_reg s' = bm_mux_reg s;
  sw_delay : bm_delay_reg s' = bm_delay_reg s;
  sw_length : length (bm_values s') = length (bm_values s);
}.

(** A write to the registers of value [n] leaves the others alone. *)
Lemma synced_update s hw n v v' reg x :
  synced s hw → bm_mux_reg s ≠ bm_delay_reg s → bm_values s !! n = Some v →
  0 ≤ x < 2 ^ 32 →
  (reg = bm_mux_reg s ∧ v' = mk_bit_mux x (bm_delay v) (bm_update_index v') ∨
   reg = bm_delay_reg s ∧ v' = mk_bit_mux (bm_value v) x (bm_update_index v') ∧ x ≤ MAX_BIT_MUX_DELAY) →
  synced (set_bm_values s (<[n := v']> (bm_values s))) (hw_write_register hw (bm_block_base s) n reg x).
Proof.
  intros Hs Hne Hv Hx Hcase i w. cbn [set_bm_values bm_values bm_block_base bm_mux_reg bm_delay_reg].
  unfold hw_write_register. rewrite wrap_small by done.
  destruct (decide (i = n)) as [->|Hin].
  - rewrite list_lookup_insert_eq by (by eapply lookup_lt_Some). intros [= <-].
    destruct (Hs n v Hv) as (H1 & H2 & H3 & H4).
    destruct Hcase as [[-> ->]|(-> & -> & Hd)]; simpl.
    + rewrite lookup_insert_eq, lookup_insert_ne by congruence. done.
    + rewrite lookup_insert_eq, lookup_insert_ne by congruence. simpl. split_and!; [lia..|done|lia|lia|done].
  - rewrite list_lookup_insert_ne by done. intros Hw. rewrite !lookup_insert_ne by congruence. by apply Hs.
Qed.

Lemma name_to_index_range lookup s v :
  Enums.enum_wf lookup → Enums.enum_name_to_index lookup s = Ret (Some v) → 0 ≤ v < 2 ^ 32.
Proof.
  intros Hwf E. destruct (Enums.name_to_index_spec lookup s Hwf) as (r & E' & Hr). simplify_eq.
  assert (Enums.labelled lookup v s) as Hl by (apply Hr; congruence).
  pose proof (Enums.sw_values _ (Enums.ew_set _ Hwf)) as Hv. rewrite Forall_forall in Hv. exact (Hv _ Hl).
Qed.

Lemma parse_uint_range s v rest : parse_uint s = (OK v, rest) → 0 ≤ v < 2 ^ 32.
Proof.
  unfold parse_uint, parse_num. destruct (strtoul s) as [[x end_] eno].
  destruct (check_number s end_ eno); simpl; [|done]. intros [= <- _]. by apply wrap_range.
Qed.

Lemma parse_uint_eos_nonneg text d rest :
  (d ← parse_uint; _ ← parse_eos; mret d) text = (OK d, rest) → 0 ≤ d.
Proof.
  unfold mbind, parser_bind. destruct (parse_uint text) as [[x|?] s] eqn:E; [|done].
  destruct (parse_eos s) as [[?|?] s']; [|done]. intros [= <- _]. apply parse_uint_range in E. lia.
Qed.

Lemma bit_step_synced lookup s g hw op :
  Enums.enum_wf lookup → bm_mux_reg s ≠ bm_delay_reg s → synced s hw →
  (op_number op < length (bm_values s))%nat →
  ∃ s' g' hw', bit_step lookup (s, g, hw) op = Ret (s', g', hw') ∧ synced s' hw' ∧ same_wiring s s'.
Proof.
  intros Hwf Hne Hs [v Hv]%lookup_lt_is_Some_2. destruct op as [n name|n text]; cbn [bit_step op_number] in *.
  - unfold bit_mux_put. destruct (Enums.name_to_index_spec lookup name Hwf) as (r & E & _).
    rewrite E. cbn [mbind outcome_bind]. destruct r as [x|]; [|by exists s, g, hw].
    rewrite (at_index_some _ _ _ Hv). cbn [mbind outcome_bind]. eexists _, _, _. split; [done|].
    split; [|by split; [..|apply length_insert]].
    eapply synced_update; [done..|by eapply name_to_index_range|left; done].
  - unfold bit_mux_delay_put. destruct ((d ← parse_uint; _ ← parse_eos; mret d) text) as [[d|e] rest] eqn:Ep;
      [|by exists s, g, hw].
    unfold TEST_OK_. case_bool_decide as Hd; [|by exists s, g, hw].
    rewrite (at_index_some _ _ _ Hv). cbn [mbind outcome_bind]. eexists _, _, _. split; [done|].
    split; [|by split; [..|apply length_insert]].
    assert (0 ≤ d) as H0 by (by eapply parse_uint_eos_nonneg). unfold MAX_BIT_MUX_DELAY in *.
    eapply synced_update; [done..|lia|right; split_and!; [done..|unfold MAX_BIT_MUX_DELAY; lia]].
Qed.

Lemma same_wiring_trans s1 s2 s3 : same_wiring s1 s2 → same_wiring s2 s3 → same_wiring s1 s3.
Proof. intros [] []. split; congruence. Qed.

Lemma bit_run_synced lookup s g hw ops :
  Enums.enum_wf lookup → bm_mux_reg s ≠ bm_delay_reg s → synced s hw →
  Forall (λ op, op_number op < length (bm_values s))%nat ops →
  ∃ s' g' hw', bit_run lookup (s, g, hw) ops = Ret (s', g', hw') ∧ synced s' hw' ∧ same_wiring s s'.
Proof.
  intros Hwf. revert s g hw. induction ops as [|op ops IH]; intros s g hw Hne Hs Hops.
  { exists s, g, hw. done. }
  apply list.Forall_cons in Hops as [Hop Hops]. cbn [bit_run].
  destruct (bit_step_synced lookup s g hw op Hwf Hne Hs Hop) as (s1 & g1 & hw1 & -> & Hs1 & Hw1).
  cbn [mbind outcome_bind]. destruct (IH s1 g1 hw1) as (s2 & g2 & hw2 & E & Hs2 & Hw2).
  - by rewrite (sw_mux _ _ Hw1), (sw_delay _ _ Hw1).
  - done.
  - eapply Forall_impl; [exact Hops|]. intros op'. by rewrite (sw_length _ _ Hw1).
  - exists s2, g2, hw2. split; [done|]. split; [done|by eapply same_wiring_trans].
Qed.

(** [bit_mux_finalise] writes every selection. *)
Lemma finalise_writes base reg (vs : list bit_mux_value) k hw :
  (∀ i v, vs !! i = Some v →
    foldl (λ hw x, hw_write_register hw base x.1 reg (bm_value x.2)) hw (imap (λ i v, ((k + i)%nat, v)) vs)
      !! (base, (k + i)%nat, reg) = Some (u32 (bm_value v))) ∧
  (∀ b i r, (b, r) ≠ (base, reg) ∨ (i < k)%nat →
    foldl (λ hw x, hw_write_register hw base x.1 reg (bm_value x.2)) hw (imap (λ i v, ((k + i)%nat, v)) vs)
      !! (b, i, r) = hw !! (b, i, r)).
Proof.
  revert k hw. induction vs as [|w vs IH]; intros k hw; [done|]. cbn [imap foldl].
  rewrite (imap_ext _ (λ i v, ((S k + i)%nat, v))) by (intros; simpl; f_equal; lia). cbn [fst snd compose].
  rewrite Nat.add_0_r. destruct (IH (S k) (hw_write_register hw base k reg (bm_value w))) as [IH1 IH2].
  split.
  - intros [|i] v; simpl.
    + intros [= <-]. rewrite Nat.add_0_r, IH2 by (right; lia). apply lookup_insert_eq.
    + intros Hv. replace (k + S i)%nat with (S k + i)%nat by lia. by apply IH1.
  - intros b i r Hor. rewrite IH2 by (destruct Hor; [by left|right; lia]).
    unfold hw_write_register. apply lookup_insert_ne. intros [=]. destruct Hor; [naive_solver|lia].
Qed.

Lemma bit_mux_init_values count line s rest :
  bit_mux_init count line = (OK s, rest) →
  ∃ x, 0 ≤ x < 2 ^ 32 ∧ bm_values s = replicate count (mk_bit_mux x 0 1).
Proof.
  unfold bit_mux_init, parse_default_param. destruct (read_char 32 line) as [[] line1].
  - unfold mbind, parser_bind. destruct (parse_char _ _) as [[[]|?] l2]; [|done].
    destruct (parse_uint32 l2) as [[x|?] l3] eqn:E; [|done]. intros [= <- <-]. exists x.
    split; [by apply parse_uint_range in E|]. cbn [bm_values]. by rewrite fmap_replicate.
  - intros [= <- <-]. by exists BIT_BUS_ZERO.
Qed.

(** C36: Once the multiplexers are configured, the selection and delay registers of
    the FPGA hold what the server believes after any sequence of selections and
    delays, accepted or not, and no command fails to return. *)
Theorem bit_mux_registers lookup count line s0 rest base mux_reg delay_reg g hw ops :
  Enums.enum_wf lookup → bit_mux_init count line = (OK s0, rest) → mux_reg ≠ delay_reg →
  (∀ i, hw !! (base, i, delay_reg) = None) → Forall (λ op, op_number op < count)%nat ops →
  let s1 := bit_mux_parse_register s0 base mux_reg delay_reg in
  ∃ s' g' hw', bit_run lookup (s1, g, bit_mux_finalise s1 hw) ops = Ret (s', g', hw') ∧
    synced s' hw' ∧ same_wiring s1 s'.
Proof.
  intros Hwf Hinit Hne Hhw Hops s1. destruct (bit_mux_init_values _ _ _ _ Hinit) as (x & Hx & Hvs).
  apply bit_run_synced; [done|done| |].
  - intros i v. subst s1. cbn [bit_mux_parse_register bm_values bm_block_base bm_mux_reg bm_delay_reg].
    intros Hv. unfold bit_mux_finalise. cbn [bit_mux_parse_register bm_values bm_block_base bm_mux_reg].
    destruct (finalise_writes base mux_reg (bm_values s0) 0 hw) as [H1 H2]. cbn [Nat.add] in H1, H2.
    specialize (H1 i v Hv). specialize (H2 base i delay_reg ltac:(left; congruence)).
    set (hw' := foldl _ _ (imap pair _)).
    change (hw' !! (base, i, mux_reg) = Some (u32 (bm_value v))) in H1.
    change (hw' !! (base, i, delay_reg) = hw !! (base, i, delay_reg)) in H2.
    rewrite H1, H2, Hhw. rewrite Hvs in Hv.
    apply lookup_replicate in Hv as [-> _]. cbn [bm_value bm_delay]. rewrite wrap_small by done.
    unfold MAX_BIT_MUX_DELAY. split_and!; [lia..|done|lia|lia|done].
  - subst s1. cbn [bit_mux_parse_register bm_values]. by rewrite Hvs, length_replicate.
Qed.

(** A selection is accepted exactly when some output has that name; then it
    reads back as written and counts as changed for every report made before,
    otherwise nothing changes. *)
Theorem bit_mux_put_get lookup s g hw n v name length_ :
  Enums.enum_wf lookup → bm_values s !! n = Some v → 0 ≤ g → g + 1 < 2 ^ 64 → (length name < length_)%nat →
  ∃ err s' g' hw', bit_mux_put lookup s g hw n name = Ret (err, s', g', hw') ∧
    (err = None ↔ ∃ x, Enums.labelled lookup x name) ∧
    (err = None → bit_mux_get lookup s' n length_ = Ret (OK name) ∧
      ∀ report_index, bit_mux_change_set s' report_index !! n = Some (bool_decide (report_index ≤ g))) ∧
    (err ≠ None → s' = s ∧ g' = g ∧ hw' = hw).
Proof.
  intros Hwf Hv H0 Hg Hl. unfold bit_mux_put.
  destruct (Enums.name_to_index_spec lookup name Hwf) as (r & -> & Hr). cbn [mbind outcome_bind].
  destruct r as [x|].
  2:{ eexists _, _, _, _. split; [done|]. split_and!; [|done|done]. split; [done|]. intros [x Hx%Hr]. done. }
  rewrite (at_index_some _ _ _ Hv). cbn [mbind outcome_bind]. rewrite get_change_index_next by done.
  assert (Enums.labelled lookup x name) as Hx by (by apply Hr).
  eexists None, _, _, _. split; [done|]. split_and!; [by split; [exists x|]| |done]. intros _.
  pose proof (lookup_lt_Some _ _ _ Hv). split.
  - unfold bit_mux_get. cbn [set_bm_values bm_values].
    rewrite (at_index_some _ n (mk_bit_mux x (bm_delay v) (g + 1))) by (by apply list_lookup_insert_eq).
    cbn [mbind outcome_bind bm_value]. unfold Enums.format_enumeration.
    destruct (Enums.index_to_name_spec lookup x (Enums.ew_set _ Hwf)) as (r & -> & Hr2). cbn [mbind outcome_bind].
    rewrite (proj2 (Hr2 name) Hx). unfold format_string. by rewrite bool_decide_true.
  - intros report_index. unfold bit_mux_change_set. cbn [set_bm_values bm_values].
    rewrite list_lookup_fmap, list_lookup_insert_eq by done. simpl. f_equal. unfold changed_since.
    apply bool_decide_ext. lia.
Qed.

End mux.

(** ** Examples *)

Section example.
#[local] Existing Instance AARCH64.
Abbreviation table := (HashTable.hash_table (K := cstring) (V := Z)).

Definition example_lookup : Enums.enumeration (T := table) :=
  Enums.mk_enumeration 4 [Enums.mk_enum 0 (Some (bytes_of "TTLIN1.VAL")); Enums.mk_enum 128 (Some (bytes_of "ZERO"))] None.

Lemma example_lookup_wf : Enums.enum_wf example_lookup.
Proof.
  split; [|done|right; by vm_compute].
  split; [repeat constructor..|by vm_compute]; by (apply (bool_decide_unpack _); vm_compute).
Qed.

(** Thirty-one characters fill the buffer of 32. *)
Lemma format_field_name_spec_witness :
  format_field_name 32 (mk_field (replicate 16 65) 1 (replicate 14 66)) None 0 0 = Undef.
Proof. apply (format_field_name_spec 32 (mk_field (replicate 16 65) 1 (replicate 14 66)) 0 0). repeat constructor; done. Defined.

Lemma bit_mux_registers_witness :
  ∃ s0 s' g' hw', bit_mux_init 2 (bytes_of " =5") = (OK s0, []) ∧
    bit_run example_lookup (bit_mux_parse_register s0 1 2 3, 7, bit_mux_finalise (bit_mux_parse_register s0 1 2 3) ∅)
      [Select 1 (bytes_of "TTLIN1.VAL"); Delay 0 (bytes_of "31"); Select 0 (bytes_of "NONE")] = Ret (s', g', hw') ∧
    synced s' hw'.
Proof.
  exists (mk_bit_mux_state 0 0 0 (replicate 2 (mk_bit_mux 5 0 1))).
  destruct (bit_mux_registers example_lookup 2 (bytes_of " =5")
    (mk_bit_mux_state 0 0 0 (replicate 2 (mk_bit_mux 5 0 1))) [] 1 2 3 7 ∅
    [Select 1 (bytes_of "TTLIN1.VAL"); Delay 0 (bytes_of "31"); Select 0 (bytes_of "NONE")])
    as (s' & g' & hw' & E & Hs & _).
  - apply example_lookup_wf.
  - vm_compute. reflexivity.
  - lia.
  - intros i. apply lookup_empty.
  - repeat constructor.
  - exists s', g', hw'. split; [vm_compute; reflexivity|]. split; [exact E|exact Hs].
Defined.

Lemma bit_mux_put_get_witness :
  ∃ s', bit_mux_put example_lookup (mk_bit_mux_state 1 2 3 [mk_bit_mux 128 0 1]) 7 ∅ 0 (bytes_of "TTLIN1.VAL")
      = Ret (None, s', 8, {[(1, 0%nat, 2) := 0]}) ∧
    bit_mux_get example_lookup s' 0 32 = Ret (OK (bytes_of "TTLIN1.VAL")).
Proof.
  destruct (bit_mux_put_get example_lookup (mk_bit_mux_state 1 2 3 [mk_bit_mux 128 0 1]) 7 ∅ 0
    (mk_bit_mux 128 0 1) (bytes_of "TTLIN1.VAL") 32) as (err & s' & g' & hw' & E & _ & Hok & _);
    [apply example_lookup_wf|reflexivity|lia|lia|simpl; lia|].
  vm_compute in E. injection E as <- <- <- <-. eexists. split; [reflexivity|].
  destruct (Hok eq_refl) as [Hget _]. exact Hget.
Defined.
End example.

End MuxSpec.
