(* ===== verification/ExtOut.v ===== *)
(** * Extension outputs: panda-server/server/ext_out.c

    Timestamps, the sample count and the words of captured bits.  An extension
    output takes one or two places on the extension bus and is either captured
    or not.  The nominal clock frequency comes from the hardware. *)

From S2P Require Import Prelude Errors Parse Format HashTable HashTableSpec Enums StdDev Capture PosOut.
From stdpp Require Import base numbers list list_numbers gmap option strings pretty.
Open Scope Z_scope.

Module ExtOut.
Import Parse Format Double Capture PosOut.

Inductive ext_out_type := EXT_OUT_TIMESTAMP | EXT_OUT_SAMPLES | EXT_OUT_BITS.
#[export] Instance ext_out_type_eq_dec : EqDecision ext_out_type.
Proof. solve_decision. Defined.

(** [struct ext_out]. *)
Record ext_out := mk_ext {
  ext_type : ext_out_type;
  bit_group : Z;
  registers_0 : Z;
  registers_1 : Z;
  capture : bool;
}.
Definition set_capture (e : ext_out) (b : bool) : ext_out :=
  mk_ext (ext_type e) (bit_group e) (registers_0 e) (registers_1 e) b.
Definition set_registers (e : ext_out) (r0 r1 : Z) : ext_out :=
  mk_ext (ext_type e) (bit_group e) r0 r1 (capture e).

Definition CAPTURE_EXT_BUS (ext_ix : Z) : Z := Z.lor (Z.shiftl 1 9) (Z.shiftl (Z.land ext_ix 15) 4).

Definition ext_out_describe (e : ext_out) : string :=
  match ext_type e with
  | EXT_OUT_TIMESTAMP => "timestamp"
  | EXT_OUT_SAMPLES => "samples"
  | EXT_OUT_BITS => "bits"
  end.

(** ** The CAPTURE attribute *)

Definition ext_out_capture_enum_set : list Enums.enum_entry :=
  [Enums.mk_enum 0 (Some (bytes_of "No")); Enums.mk_enum 1 (Some (bytes_of "Value"))].

Section attribute.
Context `{Platform} {T : Type} `{!StringTable Z T}.
Abbreviation enumeration := (Enums.enumeration (T := T)).

Definition initialise_ext_out : outcome enumeration := Enums.create_static_enumeration ext_out_capture_enum_set.

Definition ext_out_capture_format (ext_out_capture_enum : enumeration) (e : ext_out) (length_ : nat)
    : outcome (res cstring) :=
  name ← Enums.enum_index_to_name ext_out_capture_enum (if capture e then 1 else 0);
  match name with
  | Some n => Ret (format_string length_ n)
  | None => Undef
  end.

Definition ext_out_capture_put (ext_out_capture_enum : enumeration) (e : ext_out) (value : cstring)
    : outcome (error__t * ext_out) :=
  found ← Enums.enum_name_to_index ext_out_capture_enum value;
  match found with
  | None => Ret (TEST_OK_ false "Invalid capture option", e)
  | Some v => Ret (None, set_capture e (bool_decide (v ≠ 0)))
  end.
End attribute.

(** [reset_ext_out_capture]: whether the change is notified. *)
Definition reset_ext_out_capture (e : ext_out) : ext_out * bool :=
  if capture e then (set_capture e false, true) else (e, false).

(** [report_ext_out_capture]: the line written, if any. *)
Definition report_ext_out_capture (e : ext_out) (field_name : cstring) : option cstring :=
  if capture e then Some (field_name ++ [32] ++ bytes_of "Value") else None.

(** ** What is captured *)

Definition get_capture_mode (t : ext_out_type) : capture_mode :=
  match t with
  | EXT_OUT_TIMESTAMP => CAPTURE_MODE_SCALED64
  | EXT_OUT_SAMPLES => CAPTURE_MODE_SCALED32
  | EXT_OUT_BITS => CAPTURE_MODE_UNSCALED
  end.

(** The indices not given are zero. *)
Definition get_capture_info (nominal_clock : Z) (e : ext_out) : captured_value :=
  mk_captured
    (mk_info [CAPTURE_EXT_BUS (registers_0 e); CAPTURE_EXT_BUS (registers_1 e); 0; 0; 0]
       (get_capture_mode (ext_type e)) (div (of_Z 1) (of_Z nominal_clock)) (of_Z 0) false)
    "Value" (bytes_of "s").

Definition get_ext_out_capture_info (nominal_clock : Z) (e : ext_out) : list captured_value :=
  if capture e then [get_capture_info nominal_clock e] else [].

Definition get_samples_capture_info (nominal_clock : Z) (samples_ext_out : option ext_out)
    : outcome captured_value :=
  match samples_ext_out with
  | Some e => Ret (get_capture_info nominal_clock e)
  | None => Panic
  end.

Definition check_pcap_valid (samples_ext_out : option ext_out) : bool := bool_decide (is_Some samples_ext_out).

(** ** Configuration *)

Section config.
Context `{Platform}.

Definition parse_ext_out_type : parser (ext_out_type * Z) :=
  _ ← parse_whitespace;
  type_name ← parse_name MAX_NAME_LENGTH;
  if bool_decide (type_name = bytes_of "timestamp") then mret (EXT_OUT_TIMESTAMP, 0)
  else if bool_decide (type_name = bytes_of "samples") then mret (EXT_OUT_SAMPLES, 0)
  else if bool_decide (type_name = bytes_of "bits") then
    _ ← parse_whitespace; group ← parse_uint; mret (EXT_OUT_BITS, group)
  else lift (fail "Unknown ext_out type").

Definition create_ext_out (t : ext_out_type) (group : Z) : ext_out := mk_ext t group 0 0 false.

Definition ext_out_init (count : Z) : parser ext_out :=
  _ ← lift (test_ok (bool_decide (count = 1)) "Cannot repeat extension field");
  '(t, group) ← parse_ext_out_type;
  mret (create_ext_out t group).

(** [parse_register], with the static [ext_bus_index_used]. *)
Definition parse_register (used : list bool) (line : cstring) : outcome (res Z * list bool * cstring) :=
  match parse_uint line with
  | (Err e, rest) => Ret (Err e, used, rest)
  | (OK value, rest) =>
      match TEST_OK_ (bool_decide (value < Z.of_nat EXT_BUS_COUNT)) "Extra index out of range" with
      | Some e => Ret (Err e, used, rest)
      | None =>
          u ← at_index used (Z.to_nat value);
          match TEST_OK_ (negb u) ("Extra index " +:+ pretty value +:+ " already used") with
          | Some e => Ret (Err e, used, rest)
          | None => Ret (OK value, <[Z.to_nat value := true]> used, rest)
          end
      end
  end.

(** The first part of [ext_out_parse_register]: the places on the bus. *)
Definition parse_registers (used : list bool) (e : ext_out) (line : cstring)
    : outcome (error__t * list bool * ext_out * cstring) :=
  '(r, used, rest) ← parse_register used line;
  match r with
  | Err err => Ret (Some err, used, e, rest)
  | OK r0 =>
      if bool_decide (ext_type e = EXT_OUT_TIMESTAMP) then
        match parse_whitespace rest with
        | (Err err, rest) => Ret (Some err, used, set_registers e r0 (registers_1 e), rest)
        | (OK _, rest) =>
            '(r, used, rest) ← parse_register used rest;
            match r with
            | Err err => Ret (Some err, used, set_registers e r0 (registers_1 e), rest)
            | OK r1 => Ret (None, used, set_registers e r0 r1, rest)
            end
        end
      else Ret (None, used, set_registers e r0 (registers_1 e), rest)
  end.
End config.
End ExtOut.
