(* ===== verification/Output.v ===== *)
(** * The list of capture sources: panda-server/server/output.c

    Every position and extension output is entered into one list when its
    registers are read from the configuration; captures are selected, listed and
    reset through this list.  The outputs themselves are shared by reference:
    the store [outputs] holds them and a reference is a position in it. *)

From S2P Require Import Prelude Errors Parse Format HashTable HashTableSpec Enums StdDev Capture PosOut Changes Mux ExtOut.
From stdpp Require Import base numbers list list_numbers gmap option strings pretty.
Open Scope Z_scope.

Module Output.
Import Parse Format Double Capture PosOut Mux ExtOut.

Definition MAX_OUTPUT_COUNT : nat := (POS_BUS_COUNT + EXT_BUS_COUNT)%nat.

Inductive output_ref := OUTPUT_POS (pos : nat) | OUTPUT_EXT (ext : nat).
Record output_field := mk_output { output : output_ref; number : nat; field_name : cstring }.

(** The outputs, and the statics of output.c, pos_out.c and ext_out.c. *)
Record outputs := mk_outputs {
  pos_outs : list pos_out;
  ext_outs : list ext_out;
  output_fields : list output_field;
  pos_bus_index_used : list bool;
  ext_bus_index_used : list bool;
  samples_ext_out : option nat;
  samples_field_name : cstring;
  group_name : list (option cstring);
}.

Definition set_pos_outs (o : outputs) (x : list pos_out) : outputs :=
  mk_outputs x (ext_outs o) (output_fields o) (pos_bus_index_used o) (ext_bus_index_used o)
    (samples_ext_out o) (samples_field_name o) (group_name o).
Definition set_ext_outs (o : outputs) (x : list ext_out) : outputs :=
  mk_outputs (pos_outs o) x (output_fields o) (pos_bus_index_used o) (ext_bus_index_used o)
    (samples_ext_out o) (samples_field_name o) (group_name o).
Definition set_output_fields (o : outputs) (x : list output_field) : outputs :=
  mk_outputs (pos_outs o) (ext_outs o) x (pos_bus_index_used o) (ext_bus_index_used o)
    (samples_ext_out o) (samples_field_name o) (group_name o).
Definition set_pos_used (o : outputs) (x : list bool) : outputs :=
  mk_outputs (pos_outs o) (ext_outs o) (output_fields o) x (ext_bus_index_used o)
    (samples_ext_out o) (samples_field_name o) (group_name o).
Definition set_ext_used (o : outputs) (x : list bool) : outputs :=
  mk_outputs (pos_outs o) (ext_outs o) (output_fields o) (pos_bus_index_used o) x
    (samples_ext_out o) (samples_field_name o) (group_name o).
Definition set_samples (o : outputs) (x : option nat) (name : cstring) : outputs :=
  mk_outputs (pos_outs o) (ext_outs o) (output_fields o) (pos_bus_index_used o) (ext_bus_index_used o)
    x name (group_name o).
Definition set_group_name (o : outputs) (x : list (option cstring)) : outputs :=
  mk_outputs (pos_outs o) (ext_outs o) (output_fields o) (pos_bus_index_used o) (ext_bus_index_used o)
    (samples_ext_out o) (samples_field_name o) x.

(** ** Registration *)

Definition register_one_field (o : outputs) (ref : output_ref) (f : field) (n : nat)
    : outcome (error__t * outputs) :=
  name ← format_field_name MAX_NAME_LENGTH f None (Z.of_nat n) 0;
  match TEST_OK_ (bool_decide (length (output_fields o) < MAX_OUTPUT_COUNT)%nat) "Too many capture fields specifed!" with
  | Some e => Ret (Some e, o)
  | None => Ret (None, set_output_fields o (output_fields o ++ [mk_output ref n name]))
  end.
Fixpoint register_loop (o : outputs) (ref : output_ref) (f : field) (i count : nat) : outcome (error__t * outputs) :=
  match count with
  | O => Ret (None, o)
  | S count' =>
      '(error, o) ← register_one_field o ref f i;
      match error with
      | None => register_loop o ref f (S i) count'
      | Some _ => Ret (error, o)
      end
  end.
Definition register_output_fields (o : outputs) (ref : output_ref) (f : field) (count : nat) :
    outcome (error__t * outputs) := register_loop o ref f 0 count.
Definition register_ext_out (o : outputs) (ext : nat) (f : field) : outcome (error__t * outputs) :=
  register_output_fields o (OUTPUT_EXT ext) f 1.
Definition register_pos_out (o : outputs) (pos : nat) (f : field) (count : nat) : outcome (error__t * outputs) :=
  register_output_fields o (OUTPUT_POS pos) f count.

Section config.
Context `{Platform} {T : Type} `{!StringTable Z T}.
Abbreviation enumeration := (Enums.enumeration (T := T)).

(** [pos_out_parse_register] of pos_out.c. *)
Definition pos_out_parse_register (o : outputs) (pos_mux_lookup : enumeration) (pos : nat) (f : field)
    (line : cstring) : outcome (error__t * outputs * enumeration * cstring) :=
  p ← at_index (pos_outs o) pos;
  match parse_uint_array (length p) line with
  | (Err e, rest) => Ret (Some e, o, pos_mux_lookup, rest)
  | (OK registers, rest) =>
      '(error, used, p) ← assign_capture_values (pos_bus_index_used o) p registers;
      let o := set_pos_used (set_pos_outs o (<[pos := p]> (pos_outs o))) used in
      match error with
      | Some _ => Ret (error, o, pos_mux_lookup, rest)
      | None =>
          '(error, lookup) ← add_pos_mux_index pos_mux_lookup f registers;
          match error with
          | Some _ => Ret (error, o, lookup, rest)
          | None => '(error, o) ← register_pos_out o pos f (length p); Ret (error, o, lookup, rest)
          end
      end
  end.

(** [ext_out_parse_register] of ext_out.c, with [register_bit_group]. *)
Definition ext_out_parse_register (o : outputs) (ext : nat) (f : field) (line : cstring)
    : outcome (error__t * outputs * cstring) :=
  e ← at_index (ext_outs o) ext;
  '(error, used, e, rest) ← parse_registers (ext_bus_index_used o) e line;
  let o := set_ext_used (set_ext_outs o (<[ext := e]> (ext_outs o))) used in
  match error with
  | Some _ => Ret (error, o, rest)
  | None =>
      '(error, o) ← register_ext_out o ext f;
      match error with
      | Some _ => Ret (error, o, rest)
      | None =>
          match ext_type e with
          | EXT_OUT_TIMESTAMP => Ret (None, o, rest)
          | EXT_OUT_SAMPLES =>
              match TEST_OK_ (bool_decide (samples_ext_out o = None)) "Duplicate samples field assigned" with
              | Some err => Ret (Some err, o, rest)
              | None =>
                  name ← format_field_name MAX_NAME_LENGTH f None 0 0;
                  Ret (None, set_samples o (Some ext) name, rest)
              end
          | EXT_OUT_BITS =>
              name ← format_field_name MAX_NAME_LENGTH f None 0 0;
              groups ← set_bit_group_name (group_name o) (Z.to_nat (bit_group e)) name;
              Ret (None, set_group_name o groups, rest)
          end
      end
  end.
End config.

(** ** Captures *)

Definition reset_output_capture (o : outputs) (x : output_field) : outcome outputs :=
  match output x with
  | OUTPUT_POS pos =>
      p ← at_index (pos_outs o) pos;
      '(p, _) ← reset_pos_out_capture p (number x);
      Ret (set_pos_outs o (<[pos := p]> (pos_outs o)))
  | OUTPUT_EXT ext =>
      e ← at_index (ext_outs o) ext;
      Ret (set_ext_outs o (<[ext := (reset_ext_out_capture e).1]> (ext_outs o)))
  end.
Fixpoint reset_loop (o : outputs) (l : list output_field) : outcome outputs :=
  match l with
  | [] => Ret o
  | x :: rest => o ← reset_output_capture o x; reset_loop o rest
  end.
Definition reset_capture_list (o : outputs) : outcome outputs := reset_loop o (output_fields o).

Definition get_capture_info (nominal_clock : Z) (o : outputs) (x : output_field) : outcome (list captured_value) :=
  match output x with
  | OUTPUT_POS pos => p ← at_index (pos_outs o) pos; get_pos_out_capture_info p (number x)
  | OUTPUT_EXT ext => e ← at_index (ext_outs o) ext; Ret (get_ext_out_capture_info nominal_clock e)
  end.

(** [report_capture_list]: the lines written; results are built in a buffer of
    [length_] bytes. *)
Definition report_capture (o : outputs) (length_ : nat) (x : output_field) : outcome (option cstring) :=
  match output x with
  | OUTPUT_POS pos => p ← at_index (pos_outs o) pos; report_pos_out_capture p (number x) (field_name x) length_
  | OUTPUT_EXT ext => e ← at_index (ext_outs o) ext; Ret (report_ext_out_capture e (field_name x))
  end.
Definition report_capture_list (o : outputs) (length_ : nat) : outcome (list cstring) :=
  omap (M := list) id <$> mapM (report_capture o length_) (output_fields o).
Definition report_capture_labels (o : outputs) : list cstring := field_name <$> output_fields o.
Definition is_pos (x : output_field) : bool := match output x with OUTPUT_POS _ => true | OUTPUT_EXT _ => false end.
Definition report_capture_positions (o : outputs) : list cstring :=
  field_name <$> filter (λ x, is_pos x = true) (output_fields o).

(** The values [iterate_captured_values] yields from its first call to its last,
    each with the name of its field. *)
Definition named_values (nominal_clock : Z) (o : outputs) (x : output_field)
    : outcome (list (cstring * captured_value)) :=
  vs ← get_capture_info nominal_clock o x; Ret ((λ v, (field_name x, v)) <$> (vs : list captured_value)).
Definition iterate_captured_values (nominal_clock : Z) (o : outputs) : outcome (list (cstring * captured_value)) :=
  @concat (cstring * captured_value) <$> mapM (named_values nominal_clock o) (output_fields o).

(** [prepare_captured_fields] of prepare.c on the current selection; the values
    are stored in [capture_info_buffer]. *)
Definition prepare_fields (nominal_clock : Z) (o : outputs) : outcome captured_fields :=
  samples ← get_samples_capture_info nominal_clock (samples_ext_out o ≫= (ext_outs o !!.));
  values ← iterate_captured_values nominal_clock o;
  _ ← in_range (bool_decide (length values ≤ MAX_CAPTURE_COUNT)%nat);
  Ret (prepare_captured_fields (cv_info samples) ((λ v, cv_info v.2) <$> values)).

End Output.
