(* ===== verification/OutputSpec.v ===== *)
(** * What the list of capture sources promises

    Resetting the list leaves nothing captured, registration never leaves the
    table of outputs, and selecting the ordinary options of a full position bus
    asks for more words than the capture set has room for. *)

From S2P Require Import Prelude Errors Parse Format HashTable HashTableSpec Enums StdDev Capture CaptureSpec PosOut PosOutSpec Changes Mux ExtOut Output.
From stdpp Require Import base numbers list list_numbers gmap option strings pretty.
Open Scope Z_scope.

Module OutputSpec.
Import Parse Format Double Capture CaptureSpec PosOut PosOutSpec Mux ExtOut Output.

(** ** Reset *)

(** A registered output refers to a value that exists. *)
Definition valid (o : outputs) (x : output_field) : Prop :=
  match output x with
  | OUTPUT_POS pos => ∃ p, pos_outs o !! pos = Some p ∧ is_Some (p !! number x)
  | OUTPUT_EXT ext => is_Some (ext_outs o !! ext)
  end.
Definition cleared (o : outputs) (x : output_field) : Prop :=
  match output x with
  | OUTPUT_POS pos => ∃ p f, pos_outs o !! pos = Some p ∧ p !! number x = Some f ∧ capture_mask f = 0
  | OUTPUT_EXT ext => ∃ e, ext_outs o !! ext = Some e ∧ capture e = false
  end.

Lemma reset_pos_ok p n f :
  p !! n = Some f → ∃ p' b, reset_pos_out_capture p n = Ret (p', b) ∧
    (∃ f', p' !! n = Some f' ∧ capture_mask f' = 0) ∧
    (∀ m, is_Some (p !! m) → is_Some (p' !! m)) ∧
    (∀ m g, p !! m = Some g → capture_mask g = 0 → ∃ g', p' !! m = Some g' ∧ capture_mask g' = 0).
Proof.
  intros Hf. unfold reset_pos_out_capture. rewrite (at_index_some _ _ _ Hf). cbn [mbind outcome_bind].
  case_bool_decide as Hm.
  - pose proof (lookup_lt_Some _ _ _ Hf). eexists _, _. split; [done|]. split_and!.
    + exists (set_capture_mask f 0). by rewrite list_lookup_insert_eq.
    + intros m Hs%lookup_lt_is_Some_1. apply lookup_lt_is_Some_2. by rewrite length_insert.
    + intros m g Hg Hz. destruct (decide (m = n)) as [->|].
      * exists (set_capture_mask f 0). by rewrite list_lookup_insert_eq.
      * exists g. by rewrite list_lookup_insert_ne.
  - eexists _, _. split; [done|]. split_and!; [|done|eauto]. exists f. split; [done|lia].
Qed.

Lemma reset_one_ok o x :
  valid o x → ∃ o', reset_output_capture o x = Ret o' ∧ output_fields o' = output_fields o ∧
    cleared o' x ∧ (∀ y, valid o y → valid o' y) ∧ (∀ y, cleared o y → cleared o' y).
Proof.
  unfold valid, cleared, reset_output_capture. destruct (output x) as [pos|ext].
  - intros (p & Hp & [f Hf]). rewrite (at_index_some _ _ _ Hp). cbn [mbind outcome_bind].
    destruct (reset_pos_ok p (number x) f Hf) as (p' & b & -> & (f' & Hf' & Hz) & Hsome & Hclr).
    cbn [mbind outcome_bind]. pose proof (lookup_lt_Some _ _ _ Hp).
    eexists. split; [done|]. split; [done|]. cbn [set_pos_outs pos_outs ext_outs]. split_and!.
    + exists p', f'. by rewrite list_lookup_insert_eq.
    + intros y. destruct (output y) as [pos'|]; [|done]. intros (q & Hq & Hs).
      destruct (decide (pos' = pos)) as [->|]; [|exists q; by rewrite list_lookup_insert_ne].
      simplify_eq. exists p'. rewrite list_lookup_insert_eq by done. auto.
    + intros y. destruct (output y) as [pos'|]; [|done]. intros (q & g & Hq & Hg & Hgz).
      destruct (decide (pos' = pos)) as [->|]; [|exists q, g; by rewrite list_lookup_insert_ne].
      simplify_eq. destruct (Hclr _ _ Hg Hgz) as (g' & Hg' & Hz'). exists p', g'.
      by rewrite list_lookup_insert_eq.
  - intros [e He]. rewrite (at_index_some _ _ _ He). cbn [mbind outcome_bind]. pose proof (lookup_lt_Some _ _ _ He).
    assert (capture (reset_ext_out_capture e).1 = false) as Hc.
    { unfold reset_ext_out_capture. by destruct (capture e) eqn:E. }
    eexists. split; [done|]. split; [done|]. cbn [set_ext_outs pos_outs ext_outs]. split_and!.
    + eexists. by rewrite list_lookup_insert_eq.
    + intros y. destruct (output y) as [|ext']; [done|]. intros Hs%lookup_lt_is_Some_1.
      apply lookup_lt_is_Some_2. by rewrite length_insert.
    + intros y. destruct (output y) as [|ext']; [done|]. intros (e' & He' & Hc').
      destruct (decide (ext' = ext)) as [->|]; [|exists e'; by rewrite list_lookup_insert_ne].
      eexists. by rewrite list_lookup_insert_eq.
Qed.

Lemma reset_loop_ok o l :
  Forall (valid o) l → ∃ o', reset_loop o l = Ret o' ∧ output_fields o' = output_fields o ∧
    Forall (cleared o') l ∧ (∀ y, valid o y → valid o' y) ∧ (∀ y, cleared o y → cleared o' y).
Proof.
  revert o. induction l as [|x l IH]; intros o Hl; [by exists o|].
  apply list.Forall_cons in Hl as [Hx Hl]. cbn [reset_loop].
  destruct (reset_one_ok o x Hx) as (o1 & -> & Ef1 & Hc1 & Hv1 & Hk1). cbn [mbind outcome_bind].
  destruct (IH o1) as (o2 & E & Ef2 & Hc2 & Hv2 & Hk2); [eapply Forall_impl; [exact Hl|done]|].
  exists o2. split_and!; [done|congruence| |auto..]. apply list.Forall_cons. auto.
Qed.

Lemma cleared_no_info clock o x : cleared o x → named_values clock o x = Ret [].
Proof.
  unfold cleared, named_values, Output.get_capture_info. destruct (output x) as [pos|ext].
  - intros (p & f & Hp & Hf & Hz). rewrite (at_index_some _ _ _ Hp). cbn [mbind outcome_bind].
    unfold get_pos_out_capture_info. rewrite (at_index_some _ _ _ Hf). cbn [mbind outcome_bind].
    assert (∀ l i, capture_info_loop f l i = Ret []) as ->; [|done].
    induction l as [|info l IH]; intros i; [done|]. cbn [capture_info_loop]. unfold captures, bits_set.
    rewrite Hz, Z.land_0_l, bool_decide_false by tauto. apply IH.
  - intros (e & He & Hc). rewrite (at_index_some _ _ _ He). cbn [mbind outcome_bind].
    unfold get_ext_out_capture_info. by rewrite Hc.
Qed.

Lemma report_cleared o length_ x : cleared o x → report_capture o length_ x = Ret None.
Proof.
  unfold cleared, report_capture. destruct (output x) as [pos|ext].
  - intros (p & f & Hp & Hf & Hz). rewrite (at_index_some _ _ _ Hp). cbn [mbind outcome_bind].
    unfold report_pos_out_capture. rewrite (at_index_some _ _ _ Hf). cbn [mbind outcome_bind].
    by rewrite Hz, bool_decide_false by tauto.
  - intros (e & He & Hc). rewrite (at_index_some _ _ _ He). cbn [mbind outcome_bind].
    unfold report_ext_out_capture. by rewrite Hc.
Qed.

(** After [reset_capture_list] no field is captured and none is listed, and
    the list of outputs itself is unchanged. *)
Theorem reset_capture_list_clears clock length_ o :
  Forall (valid o) (output_fields o) →
  ∃ o', reset_capture_list o = Ret o' ∧ output_fields o' = output_fields o ∧
    Forall (valid o') (output_fields o') ∧
    iterate_captured_values clock o' = Ret [] ∧ report_capture_list o' length_ = Ret [].
Proof.
  intros Hv. unfold reset_capture_list.
  destruct (reset_loop_ok o (output_fields o) Hv) as (o' & E & Ef & Hc & Hv' & _).
  exists o'. split_and!; [done|done| | |].
  - rewrite Ef. eapply Forall_impl; [exact Hv|done].
  - unfold iterate_captured_values. rewrite Ef. clear -Hc.
    assert (∀ l, Forall (cleared o') l → @concat (cstring * captured_value) <$> mapM (named_values clock o') l = Ret []) as G;
      [|by apply G].
    induction 1 as [|x l Hx _ IH]; [done|]. cbn [mapM]. rewrite cleared_no_info by done. cbn [mbind outcome_bind].
    by destruct (mapM _ l).
  - unfold report_capture_list. rewrite Ef. clear -Hc.
    assert (∀ l, Forall (cleared o') l → omap (M := list) id <$> mapM (report_capture o' length_) l = Ret []) as G;
      [|by apply G].
    induction 1 as [|x l Hx _ IH]; [done|]. cbn [mapM]. rewrite report_cleared by done. cbn [mbind outcome_bind].
    by destruct (mapM _ l).
Qed.

(** ** A full position bus *)

Lemma land_31 x : Z.land x 31 = wrap 5 x.
Proof. apply (land_ones_wrap 5). lia. Qed.
Lemma land_15 x : Z.land x 15 = wrap 4 x.
Proof. apply (land_ones_wrap 4). lia. Qed.

(** The two buses have different words. *)
Lemma pos_bus_below i k : CAPTURE_POS_BUS i k < 512.
Proof.
  unfold CAPTURE_POS_BUS. rewrite land_31, land_15.
  pose proof (wrap_range 5 i ltac:(lia)) as Hi. pose proof (wrap_range 4 k ltac:(lia)) as Hk.
  pose proof (forallb_zrange (λ x, forallb (λ y, bool_decide (Z.lor (Z.shiftl x 4) y < 512)) (zrange 16)) 32
    ltac:(by vm_compute) _ Hi) as F. exact (bool_decide_eq_true_1 _ (forallb_zrange _ 16 F _ Hk)).
Qed.
Lemma ext_bus_above i : 512 ≤ CAPTURE_EXT_BUS i.
Proof.
  unfold CAPTURE_EXT_BUS. rewrite land_15. pose proof (wrap_range 4 i ltac:(lia)) as Hi.
  pose proof (forallb_zrange (λ x, bool_decide (512 ≤ Z.lor (Z.shiftl 1 9) (Z.shiftl x 4))) 16
    ltac:(by vm_compute) _ Hi) as F. exact (bool_decide_eq_true_1 _ F).
Qed.

Lemma find_sample_none capture l i :
  Forall (λ x, ci_index x !! 0%nat ≠ capture) l → find_sample_count capture l i = None.
Proof.
  intros Hl. revert i. induction Hl as [|x l Hx _ IH]; intros i; [done|]. simpl.
  by rewrite bool_decide_false.
Qed.

(** Value, Diff, Sum, Min, Max and Mean. *)
Definition ALL_BUT_STDDEV : Z := 63.

(** A position output with all these options, and its units. *)
Definition captures_all (o : outputs) (x : output_field) : Prop :=
  ∃ pos p f u, output x = OUTPUT_POS pos ∧ pos_outs o !! pos = Some p ∧ p !! number x = Some f ∧
    units f = Some u ∧ capture_mask f = ALL_BUT_STDDEV.

(** The values of such an output. *)
Record full_values (l : list capture_info) : Prop := {
  fv_length : length l = 6%nat;
  fv_words : value_words l = 8%nat;
  fv_wf : Forall info_wf l;
  fv_pos : Forall (λ x, ∃ z, ci_index x !! 0%nat = Some z ∧ z < 512) l;
  fv_mean : ∃ x, x ∈ l ∧ ci_mode x = CAPTURE_MODE_AVERAGE;
}.

Lemma captures_all_values clock o x :
  captures_all o x → ∃ vs, named_values clock o x = Ret vs ∧ full_values ((λ v, cv_info v.2) <$> vs).
Proof.
  intros (pos & p & f & u & Ho & Hp & Hf & Hu & Hm). unfold named_values, Output.get_capture_info. rewrite Ho.
  rewrite (at_index_some _ _ _ Hp). cbn [mbind outcome_bind].
  unfold get_pos_out_capture_info. rewrite (at_index_some _ _ _ Hf). cbn [mbind outcome_bind].
  rewrite (capture_info_selected f u) by done. rewrite Hm. cbn [mbind outcome_bind].
  eexists. split; [done|]. rewrite <-!list_fmap_compose.
  assert (∀ i k, ∃ z, Some (CAPTURE_POS_BUS i k) = Some z ∧ z < 512) as Hb by eauto using pos_bus_below.
  split; [done|done| | |].
  - by repeat constructor.
  - repeat constructor; apply Hb.
  - eexists. split; [do 5 apply list_elem_of_further; apply list_elem_of_here|done].
Qed.

Lemma value_words_app l1 l2 : value_words (l1 ++ l2) = (value_words l1 + value_words l2)%nat.
Proof. apply sum_list_with_app. Qed.

(** Together: eight words and six entries for each output. *)
Lemma captures_all_list clock o l :
  Forall (captures_all o) l →
  ∃ vs, @concat (cstring * captured_value) <$> mapM (named_values clock o) l = Ret vs ∧
    length vs = (6 * length l)%nat ∧ value_words ((λ v, cv_info v.2) <$> vs) = (8 * length l)%nat ∧
    Forall info_wf ((λ v, cv_info v.2) <$> vs) ∧
    Forall (λ x, ∃ z, ci_index x !! 0%nat = Some z ∧ z < 512) ((λ v, cv_info v.2) <$> vs) ∧
    (l ≠ [] → ∃ x, x ∈ ((λ v, cv_info v.2) <$> vs) ∧ ci_mode x = CAPTURE_MODE_AVERAGE).
Proof.
  induction 1 as [|x l Hx _ (vs & E & Hl & Hw & Hwf & Hpos & _)].
  { exists []. split_and!; try done; constructor. }
  destruct (captures_all_values clock o x Hx) as (vx & Ex & Hv).
  destruct (mapM (named_values clock o) l) as [vss| |] eqn:Em; [|done..].
  cbn [mapM]. rewrite Ex, Em. cbn [mbind outcome_bind].
  assert (vs = concat vss) as -> by (cbn in E; congruence).
  exists (vx ++ concat vss). cbn [fmap outcome_fmap]. rewrite fmap_app. destruct Hv as [Hl' Hw' Hwf' Hpos' (y & Hy & Hm)].
  rewrite length_fmap in Hl'. split_and!; [done|rewrite length_app; cbn [length]; lia| | | |].
  - rewrite value_words_app. cbn [length]. lia.
  - by apply Forall_app.
  - by apply Forall_app.
  - intros _. exists y. split; [|done]. apply elem_of_app. by left.
Qed.

(** Selecting Value, Diff, Sum, Min, Max and Mean for all thirty-two positions
    needs 257 words with the sample count: [prepare_data_capture] writes past the
    256 entries of its array before it checks that there are fewer than 64. *)
Theorem full_bus_overflows clock o previous k e :
  samples_ext_out o = Some k → ext_outs o !! k = Some e →
  length (output_fields o) = POS_BUS_COUNT → Forall (captures_all o) (output_fields o) →
  ∃ f, prepare_fields clock o = Ret f ∧ word_count f = 257%nat ∧ prepare_data_capture previous f = Undef.
Proof.
  intros Hk He Hl Hall. unfold prepare_fields, get_samples_capture_info. rewrite Hk. cbn [mbind option_bind].
  rewrite He. cbn [mbind outcome_bind]. unfold iterate_captured_values.
  destruct (captures_all_list clock o _ Hall) as (vs & -> & Hlen & Hw & Hwf & Hpos & Havg).
  cbn [mbind outcome_bind]. rewrite Hl in *. unfold POS_BUS_COUNT in *.
  rewrite bool_decide_true by (unfold MAX_CAPTURE_COUNT; cbv [MAX_POS_OUT_CAPTURE POS_BUS_COUNT MAX_EXT_OUT_CAPTURE EXT_BUS_COUNT]; lia).
  cbn [in_range mbind outcome_bind]. set (samples := cv_info _). set (values := (λ v, cv_info v.2) <$> vs) in *.
  eexists. split; [done|].
  assert (word_count (prepare_captured_fields samples values) = 257%nat) as Hwc.
  { rewrite prepared_words, Hw. unfold anonymous_words. rewrite decide_True; [done|].
    destruct (captured_groups samples values) as (Es & _ & Ea & _). split.
    - left. rewrite Ea. destruct Havg as (x & Hx & Hm); [by destruct (output_fields o)|].
      assert (x ∈ filter (λ i, ci_mode i = CAPTURE_MODE_AVERAGE) values) as Hin by (by apply list_elem_of_filter).
      destruct (filter _ values); [by apply not_elem_of_nil in Hin|simpl; lia].
    - rewrite Es. apply find_sample_none. destruct (prepared_all _ samples values Hpos) as (H32 & _).
      eapply Forall_impl; [exact H32|]. intros x (z & -> & Hz) [= ->].
      pose proof (ext_bus_above (registers_0 e)). lia. }
  split; [done|]. unfold prepare_data_capture.
  pose proof (gather_data_capture_room previous (prepare_captured_fields samples values)) as Hr. unfold room in Hr.
  rewrite decide_False in Hr by (rewrite Hwc; vm_compute; lia). rewrite Hr; [done|]. by apply prepared_wf.
Qed.

(** ** Examples *)

Definition full_pos_out : pos_out :=
  (λ i, mk_pos_field (of_Z 1) (of_Z 0) (Some (bytes_of "mm")) (Z.of_nat i) ALL_BUT_STDDEV) <$> seq 0 POS_BUS_COUNT.
Definition full_outputs : outputs :=
  mk_outputs [full_pos_out] [mk_ext EXT_OUT_SAMPLES 0 9 0 false]
    ((λ i, mk_output (OUTPUT_POS 0) i (bytes_of "P.OUT")) <$> seq 0 POS_BUS_COUNT)
    (replicate POS_BUS_COUNT true) (replicate EXT_BUS_COUNT false) (Some 0%nat) (bytes_of "PCAP.SAMPLES")
    (replicate 4 None).

Lemma full_bus_overflows_witness :
  ∃ f, prepare_fields 125000000 full_outputs = Ret f ∧ word_count f = 257%nat ∧
    prepare_data_capture initial_capture f = Undef.
Proof.
  apply (full_bus_overflows 125000000 full_outputs initial_capture 0 (mk_ext EXT_OUT_SAMPLES 0 9 0 false));
    [reflexivity..|].
  apply Forall_fmap, Forall_forall. intros i Hi. apply elem_of_seq in Hi.
  exists 0%nat, full_pos_out,
    (mk_pos_field (of_Z 1) (of_Z 0) (Some (bytes_of "mm")) (Z.of_nat i) ALL_BUT_STDDEV), (bytes_of "mm").
  split; [reflexivity|]. split; [reflexivity|]. split; [|split; reflexivity].
  unfold full_pos_out. simpl number. rewrite list_lookup_fmap, lookup_seq_lt by lia. reflexivity.
Defined.

Lemma reset_capture_list_clears_witness :
  ∃ o', reset_capture_list full_outputs = Ret o' ∧ iterate_captured_values 125000000 o' = Ret [] ∧
    report_capture_list o' 256 = Ret [].
Proof.
  destruct (reset_capture_list_clears 125000000 256 full_outputs) as (o' & E & _ & _ & Hi & Hr).
  - apply Forall_fmap, Forall_forall. intros i Hi. apply elem_of_seq in Hi. exists full_pos_out.
    split; [reflexivity|]. apply lookup_lt_is_Some_2. unfold full_pos_out. rewrite length_fmap, length_seq. simpl. lia.
  - exists o'. split; [exact E|]. split; [exact Hi|exact Hr].
Defined.

End OutputSpec.
