(* ===== verification/Table.v ===== *)
(** * Tables: panda-server/server/table.c, with hardware.c and config_server.c

    A table is written line by line into a buffer of its own and goes to the
    hardware when the last line has been read.  The fields of a row, the modes of
    a table, the two kinds of hardware table and the table command itself are
    here; what the kernel driver answers to a long table is a parameter. *)

From S2P Require Import Prelude Errors Parse Format Base64 HashTable HashTableSpec Enums StdDev Capture PosOut Changes.
From stdpp Require Import base numbers list list_numbers gmap option strings pretty.
Open Scope Z_scope.

Module Table.
Import Parse Format Capture PosOut Changes.
Import Base64.

Definition BASE64_LINE_BYTES : nat := 48.
Definition INITIAL_CAPACITY : nat := 4.

(** ** Fields of a row *)

Section fields.
Context `{Platform} {TE TF : Type} `{!StringTable Z TE} `{!StringTable nat TF}.

(** [struct table_subfield]; one without a description has none. *)
Record table_subfield := mk_subfield {
  left : Z;
  right : Z;
  sf_name : cstring;
  subtype : cstring;
  sf_enums : option (Enums.enumeration (T := TE));
  description : option cstring;
}.

(** [struct field_set]; the hash table refers to positions in [ordered_fields],
    and [field_count] is its length. *)
Record field_set := mk_field_set {
  fields : TF;
  capacity : nat;
  ordered_fields : list table_subfield;
  row_words : Z;
  used_bits : list bool;
}.

Fixpoint mark_bits (n : nat) (i : Z) (used : list bool) : outcome (error__t * list bool) :=
  match n with
  | O => Ret (None, used)
  | S n' =>
      u ← at_index used (Z.to_nat i);
      let used := <[Z.to_nat i := true]> used in
      match TEST_OK_ (negb u) ("Bit field overlaps at bit " +:+ pretty i) with
      | None => mark_bits n' (i + 1) used
      | Some e => Ret (Some e, used)
      end
  end.

(** [check_field_range]: the loop runs from [right] up to [left]. *)
Definition check_field_range (set : field_set) (left right : Z) : outcome (error__t * field_set) :=
  let row_bits := u32 (32 * row_words set) in
  match TEST_OK_ (bool_decide (right ≤ left)) "Invalid ordering of bit field" with
  | Some e => Ret (Some e, set)
  | None =>
      match TEST_OK_ (bool_decide (left < row_bits)) "Bit field extends outside row" with
      | Some e => Ret (Some e, set)
      | None =>
          '(error, used) ← mark_bits (Z.to_nat (left - right + 1)) right (used_bits set);
          Ret (error, mk_field_set (fields set) (capacity set) (ordered_fields set) (row_words set) used)
      end
  end.

(** [add_new_field]: whether a parser for labels follows is in the field. *)
Definition add_new_field (set : field_set) (left right : Z) (field_name subtype : cstring)
    : outcome (error__t * field_set) :=
  let field := mk_subfield left right field_name subtype
    (if bool_decide (subtype = bytes_of "enum") then Some Enums.create_dynamic_enumeration else None) None in
  let count := length (ordered_fields set) in
  let cap := if bool_decide (capacity set ≤ count)%nat
             then (if bool_decide (capacity set = 0)%nat then INITIAL_CAPACITY else 2 * capacity set)%nat
             else capacity set in
  _ ← in_range (bool_decide (count < cap)%nat);
  '(old, fields') ← Enums.call (st_insert (fields set) field_name (Some count));
  Ret (TEST_OK_ (bool_decide (old = None)) "Duplicate table field",
       mk_field_set fields' cap (ordered_fields set ++ [field]) (row_words set) (used_bits set)).

Definition validate_subtype (subtype : cstring) : res unit :=
  test_ok (bool_decide (subtype ∈ [bytes_of "uint"; bytes_of "int"; bytes_of "enum"])) "Invalid table field subtype".

(** The text of a field: left, right, name and subtype. *)
Definition parse_subfield : parser (Z * Z * cstring * cstring) :=
  left ← parse_uint;
  _ ← parse_char (Ascii.ascii_of_nat 58);
  right ← parse_uint;
  _ ← parse_whitespace;
  field_name ← parse_alphanum_name MAX_NAME_LENGTH;
  c ← peek;
  if bool_decide (c = 32) then
    _ ← parse_whitespace;
    subtype ← parse_name MAX_NAME_LENGTH;
    _ ← lift (validate_subtype subtype);
    mret (left, right, field_name, subtype)
  else mret (left, right, field_name, bytes_of "uint").

Definition field_set_parse_attribute (set : field_set) (line : cstring)
    : outcome (error__t * field_set * cstring) :=
  match parse_subfield line with
  | (Err e, rest) => Ret (Some e, set, rest)
  | (OK (left, right, field_name, subtype), rest) =>
      '(error, set) ← check_field_range set left right;
      match error with
      | Some _ => Ret (error, set, rest)
      | None => '(error, set) ← add_new_field set left right field_name subtype; Ret (error, set, rest)
      end
  end.

(** [field_set_fields_get_many]: the lines. *)
Definition field_set_fields_get_many (set : field_set) : list cstring :=
  (λ f, fmt_u (left f) ++ [58] ++ fmt_u (right f) ++ [32] ++ sf_name f ++ [32] ++ subtype f) <$> ordered_fields set.

(** [table_get_subfield]. *)
Definition table_get_subfield (set : field_set) (name : cstring) : outcome (option nat) :=
  '(_, ix) ← Enums.call (st_lookup_bool (fields set) name); Ret ix.

Definition set_description (f : table_subfield) (d : cstring) : table_subfield :=
  mk_subfield (left f) (right f) (sf_name f) (subtype f) (sf_enums f) (Some d).

Definition table_parse_description (set : field_set) (line : cstring) : outcome (error__t * field_set * cstring) :=
  match parse_alphanum_name MAX_NAME_LENGTH line with
  | (Err e, rest) => Ret (Some e, set, rest)
  | (OK field_name, rest) =>
      ix ← table_get_subfield set field_name;
      match ix with
      | None => Ret (TEST_OK_ false "Sub-field not in table", set, rest)
      | Some i =>
          f ← at_index (ordered_fields set) i;
          match TEST_OK_ (bool_decide (description f = None)) "Field already described" with
          | Some e => Ret (Some e, set, rest)
          | None =>
              match (_ ← parse_whitespace; parse_utf8_string) rest with
              | (Err e, rest) => Ret (Some e, set, rest)
              | (OK d, rest) =>
                  Ret (None, mk_field_set (fields set) (capacity set)
                    (<[i := set_description f d]> (ordered_fields set)) (row_words set) (used_bits set), rest)
              end
          end
      end
  end.

(** [create_table] and the parsing of [table_init]. *)
Definition create_field_set (row_words : Z) : field_set :=
  mk_field_set st_create 0 [] row_words (replicate (Z.to_nat (u32 (32 * row_words))) false).
Definition table_init : parser Z :=
  c ← peek;
  if bool_decide (c = 32) then
    _ ← parse_whitespace;
    row_words ← parse_uint;
    _ ← lift (test_ok (bool_decide (0 < row_words)) "Invalid table row size");
    mret row_words
  else mret 1.

End fields.

(** ** Hardware tables: hardware.c *)

Inductive table_type := SHORT_TABLE | LONG_TABLE.
#[export] Instance table_type_eq_dec : EqDecision table_type.
Proof. solve_decision. Defined.

(** What is sent to the hardware, in order: register writes, and the requests to
    the driver of long tables with their [more] flag. *)
Inductive hw_op :=
  | HwRegister (block_base : Z) (number : nat) (reg value : Z)
  | HwLong (number : nat) (data : list Z) (more : bool).

(** [struct hw_table], with the registers of a short table. *)
Record hw_table := mk_hw {
  hw_type : table_type;
  hw_block_base : Z;
  reset_reg : Z;
  fill_reg : Z;
  length_reg : Z;
  hw_data : list (list Z);
  hw_log : list hw_op;
}.
Definition set_hw_data (t : hw_table) (d : list (list Z)) : hw_table :=
  mk_hw (hw_type t) (hw_block_base t) (reset_reg t) (fill_reg t) (length_reg t) d (hw_log t).
Definition log (t : hw_table) (ops : list hw_op) : hw_table :=
  mk_hw (hw_type t) (hw_block_base t) (reset_reg t) (fill_reg t) (length_reg t) (hw_data t) (hw_log t ++ ops).

Section table.
(** The answer of the driver to a request, given all before it. *)
Context (driver : list hw_op → hw_op → error__t).

Definition write_short_table (t : hw_table) (number : nat) (data : list Z) : hw_table :=
  let write := HwRegister (hw_block_base t) number in
  log t ([write (reset_reg t) 1] ++ (write (fill_reg t) <$> data) ++
         [write (length_reg t) (u32 (Z.of_nat (length data)))]).

Definition hw_long_table_write (t : hw_table) (number : nat) (data : list Z) (streaming_mode last_table : bool)
    : error__t * hw_table :=
  let request := HwLong number data (streaming_mode && negb last_table) in
  (driver (hw_log t) request, log t [request]).

Definition hw_table_supports_streaming (t : hw_table) : bool := bool_decide (hw_type t = LONG_TABLE).

Definition hw_reset_table (t : hw_table) (number : nat) : error__t * hw_table :=
  match hw_type t with
  | LONG_TABLE => hw_long_table_write t number [] false false
  | SHORT_TABLE => (None, t)
  end.

(** [memcpy] into the data area of the table. *)
Definition copy_data (t : hw_table) (number : nat) (data : list Z) : outcome hw_table :=
  area ← at_index (hw_data t) number;
  _ ← in_range (bool_decide (length data ≤ length area)%nat);
  Ret (set_hw_data t (<[number := data ++ drop (length data) area]> (hw_data t))).

Definition hw_write_table (t : hw_table) (number : nat) (data : list Z) (streaming_mode last_table : bool)
    : outcome (error__t * hw_table) :=
  match hw_type t with
  | SHORT_TABLE => t ← copy_data t number data; Ret (None, write_short_table t number data)
  | LONG_TABLE =>
      if bool_decide (0 < length data)%nat then
        t ← (if streaming_mode then Ret t else copy_data t number data);
        Ret (hw_long_table_write t number data streaming_mode last_table)
      else Ret (None, t)
  end.

(** ** Blocks *)

Inductive table_mode := TABLE_INIT | TABLE_FIXED | TABLE_STREAMING | TABLE_STREAMING_LAST.
#[export] Instance table_mode_eq_dec : EqDecision table_mode.
Proof. solve_decision. Defined.

(** [struct table_block]; [write_data] is what has been stored of the write area,
    so [write_length] is its length. *)
Record table_block := mk_block {
  update_index : Z;
  tb_length : nat;
  write_data : list Z;
  streaming_mode : bool;
  last_table : bool;
  write_binary : bool;
  reset_required : bool;
  mode : table_mode;
  write_locked : bool;
}.

Definition initial_block : table_block := mk_block 1 0 [] false false false false TABLE_INIT false.

(** [struct table_state], without the fields; the mode attribute and the counter
    of change indices are kept with it. *)
Record table_state := mk_table_state {
  t_row_words : Z;
  max_length : nat;
  table : hw_table;
  mode_attr : attr;
  read_only : bool;
  blocks : list table_block;
  change_index : Z;
}.
Definition set_block (s : table_state) (number : nat) (b : table_block) : table_state :=
  mk_table_state (t_row_words s) (max_length s) (table s) (mode_attr s) (read_only s)
    (<[number := b]> (blocks s)) (change_index s).
Definition set_table (s : table_state) (t : hw_table) : table_state :=
  mk_table_state (t_row_words s) (max_length s) t (mode_attr s) (read_only s) (blocks s) (change_index s).
Definition notify_mode (s : table_state) (number : nat) : table_state :=
  let '(a, g) := attr_changed (mode_attr s) number (change_index s) in
  mk_table_state (t_row_words s) (max_length s) (table s) a (read_only s) (blocks s) g.

(** *** Writing lines *)

(** Words of four bytes, least significant first. *)
Fixpoint words_of_bytes (l : list Z) : list Z :=
  match l with
  | b0 :: b1 :: b2 :: b3 :: rest =>
      (b0 + 2 ^ 8 * b1 + 2 ^ 16 * b2 + 2 ^ 24 * b3) :: words_of_bytes rest
  | _ => []
  end.
Definition bytes_of_word (w : Z) : list Z := [u8 w; u8 (Z.shiftr w 8); u8 (Z.shiftr w 16); u8 (Z.shiftr w 24)].
Definition bytes_of_words (l : list Z) : list Z := concat (bytes_of_word <$> l).

(** [convert_base64_line]: the words stored in [length_] words of room. *)
Definition convert_base64_line (line : cstring) (length_ : nat) : outcome (res (list Z)) :=
  d ← base64_decode line (4 * Z.of_nat length_);
  Ret (_ ← test_ok (bool_decide (d_status d = BASE64_STATUS_OK)) (base64_error_string (d_status d));
       _ ← test_ok (bool_decide (d_converted d mod 4 = 0)) "Invalid data length";
       mret (words_of_bytes (d_out d))).

Section ascii.
Context `{Platform}.

(** [convert_ascii_line]: each turn consumes a number.  [None]: out of fuel. *)
Fixpoint ascii_loop (fuel : nat) (line : cstring) (length_ : nat) (data : list Z) : option (res (list Z)) :=
  if bool_decide (cur line = 0) then Some (OK data) else
  match fuel with
  | O => None
  | S fuel' =>
      match test_ok (bool_decide (length data < length_)%nat) "Too many points for table" with
      | Err e => Some (Err e)
      | OK _ =>
          match parse_uint32 line with
          | (Err e, _) => Some (Err e)
          | (OK x, rest) => ascii_loop fuel' rest length_ (data ++ [x])
          end
      end
  end.
Definition convert_ascii_line (line : cstring) (length_ : nat) : option (res (list Z)) :=
  ascii_loop (length line) line length_ [].

(** [write_table_line], for the block [number]. *)
Definition append_data (b : table_block) (data : list Z) : table_block :=
  mk_block (update_index b) (tb_length b) (write_data b ++ data) (streaming_mode b) (last_table b) (write_binary b)
    (reset_required b) (mode b) (write_locked b).
Definition write_table_line (number : nat) (s : table_state) (line : cstring) : outcome (error__t * table_state) :=
  b ← at_index (blocks s) number;
  let room := (max_length s - length (write_data b))%nat in
  r ← (if write_binary b then convert_base64_line line room
       else Enums.call (convert_ascii_line line room));
  match r with
  | Err e => Ret (Some e, s)
  | OK data => Ret (None, set_block s number (append_data b data))
  end.
End ascii.

(** *** Completing a write *)

Definition set_mode (b : table_block) (reset : bool) (m : table_mode) : table_block :=
  mk_block (update_index b) (tb_length b) (write_data b) (streaming_mode b) (last_table b) (write_binary b)
    reset m (write_locked b).

Definition update_table_mode (t : hw_table) (b : table_block) (streaming last : bool) (write_length : nat)
    : error__t * table_block :=
  let err (text : string) : error__t := Some (error_create None text) in
  if streaming && negb (hw_table_supports_streaming t) then (err "Table do not support streaming mode", b)
  else if bool_decide (write_length = 0)%nat then
    if streaming then (err "Streaming table must have data", b) else (None, set_mode b true TABLE_INIT)
  else
    let b := set_mode b false (mode b) in
    match mode b with
    | TABLE_INIT =>
        (None, set_mode b false (if streaming then (if last then TABLE_STREAMING_LAST else TABLE_STREAMING) else TABLE_FIXED))
    | TABLE_FIXED => (None, set_mode b true (if streaming then TABLE_STREAMING else TABLE_FIXED))
    | TABLE_STREAMING =>
        if negb streaming then (err "Table is in streaming mode", b)
        else (None, if last then set_mode b false TABLE_STREAMING_LAST else b)
    | TABLE_STREAMING_LAST => (err "Last streaming table was sent", b)
    end.

Definition finish_block (b : table_block) (index : Z) : table_block :=
  mk_block index (if bool_decide (mode b = TABLE_FIXED) then length (write_data b) else 0%nat) (write_data b)
    (streaming_mode b) (last_table b) (write_binary b) (reset_required b) (mode b) (write_locked b).
Definition unlock_block (b : table_block) : table_block :=
  mk_block (update_index b) (tb_length b) (write_data b) (streaming_mode b) (last_table b) (write_binary b)
    (reset_required b) (mode b) false.

(** The part of [complete_table_write] under the read lock. *)
Definition commit_table (number : nat) (s : table_state) (b : table_block) : outcome (error__t * table_state) :=
  let '(error, b') := update_table_mode (table s) b (streaming_mode b) (last_table b) (length (write_data b)) in
  let s := set_block s number b' in
  let s := if bool_decide (mode b ≠ mode b') then notify_mode s number else s in
  let s := if reset_required b' then set_table s (hw_reset_table (table s) number).2 else s in
  match error with
  | Some _ => Ret (error, s)
  | None =>
      '(error, t) ← hw_write_table (table s) number (write_data b') (streaming_mode b') (last_table b');
      let g := get_change_index (change_index s) in
      Ret (error, mk_table_state (t_row_words s) (max_length s) t (mode_attr s) (read_only s)
                    (<[number := finish_block b' g]> (blocks s)) g)
  end.
Definition complete_table_write (number : nat) (s : table_state) (write_ok : bool) : outcome (error__t * table_state) :=
  b ← at_index (blocks s) number;
  '(error, s) ←
    (if write_ok then
       match TEST_OK_ (bool_decide (Z.of_nat (length (write_data b)) mod t_row_words s = 0))
               "Table write is not a whole number of rows" with
       | Some e => Ret (Some e, s)
       | None => commit_table number s b
       end
     else Ret (None, s));
  b ← at_index (blocks s) number;
  Ret (error, set_block s number (unlock_block b)).

(** [start_table_write] and [table_put_table]. *)
Definition start_table_write (number : nat) (s : table_state) (streaming last binary : bool)
    : outcome (error__t * table_state) :=
  b ← at_index (blocks s) number;
  if write_locked b then Ret (Some (error_create None "Table currently being written"), s)
  else Ret (None, set_block s number
         (mk_block (update_index b) (tb_length b) [] streaming last binary (reset_required b) (mode b) true)).
Definition table_put_table (number : nat) (s : table_state) (streaming last binary : bool)
    : outcome (error__t * table_state) :=
  if read_only s then Ret (Some (error_create None "Table is bridge-owned (client writes refused)"), s)
  else start_table_write number s streaming last binary.

(** *** Reading *)

Definition block_data (s : table_state) (number : nat) : outcome (list Z) :=
  b ← at_index (blocks s) number;
  data ← at_index (hw_data (table s)) number;
  _ ← in_range (bool_decide (tb_length b ≤ length data)%nat);
  Ret (take (tb_length b) data).

(** [write_ascii] and [write_base_64]: the lines. *)
Definition write_ascii (data : list Z) : list cstring := fmt_u <$> data.
Fixpoint base_64_loop (fuel : nat) (data : list Z) : list cstring :=
  match fuel with
  | O => []
  | S fuel' =>
      if bool_decide (0 < length data)%nat then
        let to_write := Nat.min (length data) BASE64_LINE_BYTES in
        c_str (base64_encode (take to_write data)).1 :: base_64_loop fuel' (drop to_write data)
      else []
  end.
Definition write_base_64 (data : list Z) : list cstring :=
  let bytes := bytes_of_words data in base_64_loop (length bytes) bytes.

Definition table_get_many (s : table_state) (number : nat) : outcome (list cstring) :=
  data ← block_data s number; Ret (write_ascii data).
Definition table_b_get_many (s : table_state) (number : nat) : outcome (list cstring) :=
  data ← block_data s number; Ret (write_base_64 data).

Definition table_change_set (s : table_state) (report_index : Z) : list bool :=
  (λ b, changed_since report_index (update_index b)) <$> blocks s.
Definition table_mode_format (s : table_state) (number length_ : nat) : outcome (res cstring) :=
  b ← at_index (blocks s) number;
  Ret (format_string length_ (bytes_of
    match mode b with
    | TABLE_INIT => "INIT"
    | TABLE_FIXED => "FIXED"
    | TABLE_STREAMING => "STREAMING"
    | TABLE_STREAMING_LAST => "STREAMING_LAST"
    end)).
Definition table_length_format (s : table_state) (number length_ : nat) : outcome (res cstring) :=
  b ← at_index (blocks s) number; Ret (format_string length_ (fmt_u (Z.of_nat (tb_length b)))).
Definition table_max_length_format (s : table_state) (length_ : nat) : res cstring :=
  format_string length_ (fmt_u (Z.of_nat (max_length s))).
Definition table_row_words_format (s : table_state) (length_ : nat) : res cstring :=
  format_string length_ (fmt_u (t_row_words s)).

(** ** The table command: config_server.c *)

(** [struct put_table_writer], on the state it writes to. *)
Record put_table_writer (S : Type) := mk_writer {
  w_write : S → cstring → outcome (error__t * S);
  w_close : S → bool → outcome (error__t * S);
}.
#[global] Arguments mk_writer {S}.
#[global] Arguments w_write {S}.
#[global] Arguments w_close {S}.

Definition dummy_table_writer {S : Type} : put_table_writer S :=
  mk_writer (λ s _, Ret (None, s)) (λ s _, Ret (None, s)).

(** [do_put_table]: [lines] is what can still be read; the lines after the blank
    one are left for the next command. *)
Fixpoint do_put_table {S : Type} (writer : put_table_writer S) (s : S) (error : error__t) (lines : list cstring)
    : outcome (error__t * S * list cstring) :=
  match lines with
  | [] => Ret (match error with Some _ => error | None => TEST_OK_ false "Unexpected EOF" end, s, [])
  | line :: rest =>
      if bool_decide (cur line = 0) then Ret (error, s, rest)
      else
        match error with
        | Some _ => do_put_table writer s error rest
        | None => '(error, s) ← w_write writer s line; do_put_table writer s error rest
        end
  end.

Definition or_else (a b : error__t) : error__t := match a with Some _ => a | None => b end.

(** [parse_table_command] on a format: streaming, last and binary. *)
Definition parse_table_format (format : cstring) : res unit * bool * bool * bool :=
  let '(streaming, f) := read_char 60 format in
  let '(last, f) := if streaming then read_char 124 f else (true, f) in
  let '(binary, f) := read_char 66 f in
  ((parse_eos f).1, streaming, last, binary).

Context `{Platform}.

Definition table_writer (number : nat) : put_table_writer table_state :=
  mk_writer (write_table_line number) (complete_table_write number).

Definition parse_table_command (number : nat) (s : table_state) (format : cstring)
    : outcome (error__t * table_state * put_table_writer table_state) :=
  let '(eos, streaming, last, binary) := parse_table_format format in
  '(error, s) ←
    match eos with
    | Err e => Ret (Some e, s)
    | OK _ => table_put_table number s streaming last binary
    end;
  Ret (error, s, match error with Some _ => dummy_table_writer | None => table_writer number end).

(** [process_put_table_command] for the table [number]. *)
Definition process_put_table_command (number : nat) (s : table_state) (format : cstring) (lines : list cstring)
    : outcome (error__t * table_state * list cstring) :=
  '(error, s, writer) ← parse_table_command number s format;
  '(put_error, s, rest) ← do_put_table writer s None lines;
  '(close_error, s) ← w_close writer s (bool_decide (put_error = None));
  Ret (or_else error (or_else put_error close_error), s, rest).

End table.
End Table.
