(* ===== verification/TableSpec.v ===== *)
(** * Tables: what the table command guarantees

    The state a table keeps is well formed and stays so under every command; a
    command that fails before the write is completed leaves what clients see as
    it was; the lines a table prints are read back as the same data; and where
    the mode of a table and the requests to the driver part. *)

From S2P Require Import Prelude Errors Parse Format Base64 HashTable HashTableSpec Enums StdDev Capture PosOut Changes Table.
From stdpp Require Import base numbers list list_numbers gmap option strings pretty.
Open Scope Z_scope.

Module TableSpec.
Import Parse Format Capture PosOut Changes Base64 Table.

(** ** Words and bytes *)

Definition is_word (w : Z) : Prop := 0 ≤ w < 2 ^ 32.
Abbreviation words := (Forall is_word).

Lemma word_of_bytes_range b0 b1 b2 b3 :
  is_byte b0 → is_byte b1 → is_byte b2 → is_byte b3 →
  is_word (b0 + 2 ^ 8 * b1 + 2 ^ 16 * b2 + 2 ^ 24 * b3).
Proof. unfold is_byte, is_word. lia. Qed.

Lemma words_of_bytes_words l : bytes l → words (words_of_bytes l).
Proof.
  unfold bytes. induction l as [|a|a b|a b c|b0 b1 b2 b3 l IH] using quad_ind; intros Hl; try constructor;
    decompose_Forall_hyps.
  - by apply word_of_bytes_range.
  - by apply IH.
Qed.

Lemma words_of_bytes_length l : length (words_of_bytes l) = (length l / 4)%nat.
Proof.
  induction l as [|a|a b|a b c|b0 b1 b2 b3 l IH] using quad_ind; [done..|].
  cbn [words_of_bytes length]. rewrite IH.
  replace (S (S (S (S (length l))))) with (1 * 4 + length l)%nat by lia. by rewrite Nat.div_add_l.
Qed.

Lemma word_bytes_word w : is_word w →
  u8 w + 2 ^ 8 * u8 (Z.shiftr w 8) + 2 ^ 16 * u8 (Z.shiftr w 16) + 2 ^ 24 * u8 (Z.shiftr w 24) = w.
Proof.
  unfold is_word, wrap. intros Hw. rewrite !Z.shiftr_div_pow2 by lia.
  change (2 ^ 8) with 256. change (2 ^ 16) with (256 * 256). change (2 ^ 24) with (256 * 256 * 256).
  rewrite <-!Z.div_div by lia. pose proof (Z.div_mod w 256). pose proof (Z.div_mod (w / 256) 256).
  pose proof (Z.div_mod (w / 256 / 256) 256). rewrite (Z.mod_small (w / 256 / 256 / 256)); [lia|].
  split; [repeat (apply Z.div_pos; [|lia]); lia|]. repeat (apply Z.div_lt_upper_bound; [lia|]). lia.
Qed.

Lemma words_of_bytes_of_words l : words l → words_of_bytes (bytes_of_words l) = l.
Proof.
  induction 1 as [|w l Hw _ IH]; [done|].
  unfold bytes_of_words. cbn [fmap list_fmap concat bytes_of_word app words_of_bytes].
  fold (bytes_of_words l). by rewrite IH, word_bytes_word.
Qed.

Lemma bytes_of_words_bytes l : bytes (bytes_of_words l).
Proof.
  induction l as [|w l IH]; [constructor|]. unfold bytes_of_words. cbn. fold (bytes_of_words l).
  repeat (apply Forall_cons; split; [apply (wrap_range 8); lia|]). exact IH.
Qed.

Lemma bytes_of_words_length l : length (bytes_of_words l) = (4 * length l)%nat.
Proof. induction l as [|w l IH]; [done|]. unfold bytes_of_words in *. cbn. rewrite IH. lia. Qed.

Lemma bytes_of_words_app l k : bytes_of_words (l ++ k) = bytes_of_words l ++ bytes_of_words k.
Proof. unfold bytes_of_words. by rewrite fmap_app, concat_app. Qed.

Lemma bytes_of_words_take n l : take (4 * n) (bytes_of_words l) = bytes_of_words (take n l).
Proof.
  destruct (decide (n ≤ length l)%nat) as [Hn|Hn].
  - rewrite <-(take_drop n l) at 1. rewrite bytes_of_words_app.
    apply take_app_length'. rewrite bytes_of_words_length, length_take. lia.
  - rewrite !take_ge; [done|lia|rewrite bytes_of_words_length; lia].
Qed.
Lemma bytes_of_words_drop n l : drop (4 * n) (bytes_of_words l) = bytes_of_words (drop n l).
Proof.
  destruct (decide (n ≤ length l)%nat) as [Hn|Hn].
  - rewrite <-(take_drop n l) at 1. rewrite bytes_of_words_app.
    apply drop_app_length'. rewrite bytes_of_words_length, length_take. lia.
  - rewrite !drop_ge; [done|lia|rewrite bytes_of_words_length; lia].
Qed.

(** ** Reading a line *)

Definition convert_line `{Platform} (binary : bool) (line : cstring) (room : nat) : outcome (res (list Z)) :=
  if binary then convert_base64_line line room else Enums.call (convert_ascii_line line room).

Lemma trim_padding_total line : line ≠ [] → ∃ n, trim_padding line = Ret n.
Proof.
  intros Hne. unfold trim_padding. case_decide; [|eauto]. destruct line; [done|]. simpl.
  repeat case_decide; eauto.
Qed.

Lemma base64_line_total line room : line ≠ [] →
  ∃ r, convert_base64_line line room = Ret r ∧
    ∀ data, r = OK data → (length data ≤ room)%nat ∧ words data.
Proof.
  intros Hne. destruct (trim_padding_total line Hne) as [n Hn].
  assert (∃ d, base64_decode line (4 * Z.of_nat room) = Ret d) as [d Hd].
  { unfold base64_decode. rewrite Hn. cbn. case_decide; [eauto|]. destruct (decode_chars _). eauto. }
  destruct (decode_bounded _ _ _ Hd ltac:(lia)) as (Hl & _ & _ & _ & Hb).
  unfold convert_base64_line. rewrite Hd. cbn [mbind outcome_bind]. eexists. split; [done|].
  intros data. unfold test_ok, TEST_OK_. repeat case_bool_decide; try done. cbn. intros [= <-]. split.
  - rewrite words_of_bytes_length. pose proof (Nat.Div0.mul_div_le (length (d_out d)) 4). lia.
  - by apply words_of_bytes_words.
Qed.

Section lines.
Context `{Platform}.

Lemma parse_uint32_consumes line x rest :
  parse_uint32 line = (OK x, rest) → (length rest < length line)%nat ∧ is_word x.
Proof.
  unfold parse_uint32, parse_num. destruct (strtoul line) as [[v e] eno]. unfold check_number, test_ok, TEST_OK_.
  case_bool_decide; [|done]. cbn. destruct eno as [n|]; cbn.
  - destruct n; done.
  - intros [= <- <-]. split; [done|]. apply (wrap_range 32). lia.
Qed.

Lemma ascii_loop_total fuel line room data :
  (length line ≤ fuel)%nat → (length data ≤ room)%nat → words data →
  ∃ r, ascii_loop fuel line room data = Some r ∧
    ∀ data', r = OK data' → (length data' ≤ room)%nat ∧ words data'.
Proof.
  revert line data. induction fuel as [|fuel IH]; intros line data Hf Hr Hw.
  - destruct line; [|simpl in Hf; lia]. eexists. split; [done|]. by intros ? [= <-].
  - cbn [ascii_loop]. case_bool_decide; [eexists; split; [done|]; by intros ? [= <-]|].
    unfold test_ok at 1, TEST_OK_. case_bool_decide; [|eexists; split; [done|done]]. cbn [res_of].
    destruct (parse_uint32 line) as [[x|e] rest] eqn:E; [|eexists; split; [done|done]].
    destruct (parse_uint32_consumes _ _ _ E) as [Hl Hx]. apply IH.
    + lia.
    + rewrite length_app. simpl. lia.
    + apply Forall_app. split; [done|by apply Forall_singleton].
Qed.

Lemma convert_line_total binary line room : line ≠ [] →
  ∃ r, convert_line binary line room = Ret r ∧
    ∀ data, r = OK data → (length data ≤ room)%nat ∧ words data.
Proof.
  intros Hne. destruct binary; [by apply base64_line_total|].
  destruct (ascii_loop_total (length line) line room []) as (r & Hr & Hd); [done|simpl; lia|constructor|].
  exists r. unfold convert_line, convert_ascii_line. by rewrite Hr.
Qed.
End lines.

(** ** The state a table keeps *)

Record block_ok (max : nat) (row_words : Z) (type : table_type) (b : table_block) : Prop := {
  bo_room : (length (write_data b) ≤ max)%nat;
  bo_words : words (write_data b);
  bo_length : (tb_length b ≤ max)%nat;
  bo_rows : Z.of_nat (tb_length b) mod row_words = 0;
  bo_fixed : mode b = TABLE_FIXED ↔ tb_length b ≠ 0%nat;
  bo_streaming : mode b = TABLE_STREAMING ∨ mode b = TABLE_STREAMING_LAST → type = LONG_TABLE;
}.
Record table_ok (s : table_state) : Prop := {
  to_rows : 0 < t_row_words s;
  to_areas : length (hw_data (table s)) = length (blocks s);
  to_area : Forall (λ a, (max_length s ≤ length a)%nat ∧ words a) (hw_data (table s));
  to_blocks : Forall (block_ok (max_length s) (t_row_words s) (hw_type (table s))) (blocks s);
}.

Lemma table_ok_block s n b : table_ok s → blocks s !! n = Some b →
  block_ok (max_length s) (t_row_words s) (hw_type (table s)) b.
Proof. intros Hs Hb. exact (Forall_lookup_1 _ _ _ _ (to_blocks _ Hs) Hb). Qed.

Lemma table_ok_area s n b : table_ok s → blocks s !! n = Some b →
  ∃ a, hw_data (table s) !! n = Some a ∧ (max_length s ≤ length a)%nat ∧ words a.
Proof.
  intros Hs Hb. apply lookup_lt_Some in Hb. rewrite <-(to_areas _ Hs) in Hb.
  apply lookup_lt_is_Some in Hb as [a Ha]. exists a. split; [done|].
  exact (Forall_lookup_1 _ _ _ _ (to_area _ Hs) Ha).
Qed.

Lemma set_block_ok s n b : table_ok s → block_ok (max_length s) (t_row_words s) (hw_type (table s)) b →
  table_ok (set_block s n b).
Proof.
  intros [] Hb. split; cbn; [done|by rewrite length_insert|done|by apply Forall_insert].
Qed.
Lemma set_block_twice s n b b' : set_block (set_block s n b) n b' = set_block s n b'.
Proof. unfold set_block. cbn. by rewrite list_insert_insert_eq. Qed.
Lemma set_block_id s n b : blocks s !! n = Some b → set_block s n b = s.
Proof. intros Hb. unfold set_block. rewrite list_insert_id by done. by destruct s. Qed.
Lemma set_block_lookup s n b b' : blocks s !! n = Some b → blocks (set_block s n b') !! n = Some b'.
Proof. intros Hb. cbn. apply list_lookup_insert_eq. by eapply lookup_lt_Some. Qed.

(** What clients see of the block [n]. *)
Definition visible (s : table_state) (n : nat) : option (table_mode * nat * Z) * option (list Z) * list hw_op :=
  ((λ b, (mode b, tb_length b, update_index b)) <$> blocks s !! n, hw_data (table s) !! n, hw_log (table s)).

(** A new write area, nothing else. *)
Definition rewritten (b b' : table_block) : Prop :=
  mode b' = mode b ∧ tb_length b' = tb_length b ∧ update_index b' = update_index b ∧
  reset_required b' = reset_required b.

Lemma rewritten_ok max row type b b' : rewritten b b' → block_ok max row type b →
  (length (write_data b') ≤ max)%nat → words (write_data b') → block_ok max row type b'.
Proof. intros (Hm & Hl & _ & _) [] ??. by split; rewrite ?Hm, ?Hl. Qed.

(** ** The text of a command *)

(** The lines left for the next command. *)
Fixpoint after_blank (lines : list cstring) : list cstring :=
  match lines with
  | [] => []
  | line :: rest => if bool_decide (cur line = 0) then rest else after_blank rest
  end.

Section text.
Context `{Platform}.

Definition line_words (binary : bool) (line : cstring) (room : nat) : res (list Z) :=
  match convert_line binary line room with Ret r => r | _ => Err (error_create None EmptyString) end.

(** The data of a text that fits, or the first error and the data before it. *)
Fixpoint collect (binary : bool) (max : nat) (acc : list Z) (lines : list cstring) : error__t * list Z :=
  match lines with
  | [] => (TEST_OK_ false "Unexpected EOF", acc)
  | line :: rest =>
      if bool_decide (cur line = 0) then (None, acc)
      else
        match line_words binary line (max - length acc) with
        | Err e => (Some e, acc)
        | OK d => collect binary max (acc ++ d) rest
        end
  end.

Lemma line_words_spec binary line room : cur line ≠ 0 →
  convert_line binary line room = Ret (line_words binary line room) ∧
  ∀ d, line_words binary line room = OK d → (length d ≤ room)%nat ∧ words d.
Proof.
  intros Hc. destruct (convert_line_total binary line room) as (r & Hr & Hd); [by intros ->|].
  unfold line_words. rewrite Hr. done.
Qed.

Lemma collect_bounds binary max acc lines :
  (length acc ≤ max)%nat → words acc →
  (length (collect binary max acc lines).2 ≤ max)%nat ∧ words (collect binary max acc lines).2.
Proof.
  revert acc. induction lines as [|line lines IH]; intros acc Hl Hw; [done|]. cbn [collect].
  case_bool_decide as Hc; [done|]. destruct (line_words_spec binary line (max - length acc) Hc) as [_ Hd].
  destruct (line_words binary line (max - length acc)) as [d|e]; [|done].
  destruct (Hd d eq_refl). apply IH; [rewrite length_app; lia|by apply Forall_app].
Qed.

Context (driver : list hw_op → hw_op → error__t).

Lemma do_put_table_failed {S} (w : put_table_writer S) st e lines :
  do_put_table w st (Some e) lines = Ret (Some e, st, after_blank lines).
Proof. induction lines as [|line lines IH]; [done|]. cbn. by case_bool_decide. Qed.

Lemma dummy_put_table {S} (st : S) lines :
  ∃ e, do_put_table dummy_table_writer st None lines = Ret (e, st, after_blank lines).
Proof. induction lines as [|line lines IH]; [by eexists|]. cbn. case_bool_decide; eauto. Qed.

Definition set_write_data (b : table_block) (d : list Z) : table_block :=
  mk_block (update_index b) (tb_length b) d (streaming_mode b) (last_table b) (write_binary b)
    (reset_required b) (mode b) (write_locked b).

(** A line of a command goes to the write area of its block. *)
Lemma put_line n s b line : blocks s !! n = Some b → cur line ≠ 0 →
  write_table_line n s line = Ret
    match line_words (write_binary b) line (max_length s - length (write_data b)) with
    | OK d => (None, set_block s n (set_write_data b (write_data b ++ d)))
    | Err e => (Some e, s)
    end.
Proof.
  intros Hb Hc. unfold write_table_line. rewrite (at_index_some _ _ _ Hb). cbn [mbind outcome_bind].
  destruct (line_words_spec (write_binary b) line (max_length s - length (write_data b)) Hc) as [Hr _].
  unfold convert_line in Hr. rewrite Hr. cbn. by destruct (line_words _ _ _).
Qed.

Lemma put_lines n s b lines : blocks s !! n = Some b →
  do_put_table (table_writer driver n) s None lines =
    let '(e, d) := collect (write_binary b) (max_length s) (write_data b) lines in
    Ret (e, set_block s n (set_write_data b d), after_blank lines).
Proof.
  revert s b. induction lines as [|line lines IH]; intros s b Hb; cbn [do_put_table collect after_blank].
  - rewrite set_block_id; [done|]. rewrite Hb. by destruct b.
  - case_bool_decide as Hc.
    { rewrite set_block_id; [done|]. rewrite Hb. by destruct b. }
    change (w_write (table_writer driver n)) with (write_table_line n).
    rewrite (put_line _ _ _ _ Hb Hc). cbn [mbind outcome_bind].
    destruct (line_words _ _ _) as [d|e].
    + rewrite (IH _ (set_write_data b (write_data b ++ d))) by (by eapply set_block_lookup). cbn.
      destruct (collect _ _ _ _) as [e d']. by rewrite set_block_twice.
    + rewrite do_put_table_failed, set_block_id; [done|]. rewrite Hb. by destruct b.
Qed.
End text.

(** ** Completing a command *)

Section complete.
Context (driver : list hw_op → hw_op → error__t).

(** The data area after a write of [d]. *)
Definition written (d a : list Z) : list Z := d ++ drop (length d) a.

Lemma copy_data_spec t n a d : hw_data t !! n = Some a → (length d ≤ length a)%nat →
  copy_data t n d = Ret (set_hw_data t (<[n := written d a]> (hw_data t))).
Proof.
  intros Ha Hd. unfold copy_data. rewrite (at_index_some _ _ _ Ha). cbn. by rewrite bool_decide_true by done.
Qed.

(** The requests of a write, and the data area after it. *)
Definition write_ops (t : hw_table) (n : nat) (d : list Z) (streaming last : bool) : list hw_op :=
  match hw_type t with
  | SHORT_TABLE =>
      let write := HwRegister (hw_block_base t) n in
      [write (reset_reg t) 1] ++ (write (fill_reg t) <$> d) ++ [write (length_reg t) (u32 (Z.of_nat (length d)))]
  | LONG_TABLE => if bool_decide (0 < length d)%nat then [HwLong n d (streaming && negb last)] else []
  end.
Definition exposed (t : hw_table) (streaming : bool) (d a : list Z) : list Z :=
  match hw_type t with
  | SHORT_TABLE => written d a
  | LONG_TABLE => if streaming then a else written d a
  end.

Lemma set_hw_data_id t n a : hw_data t !! n = Some a → set_hw_data t (<[n := a]> (hw_data t)) = t.
Proof. intros Ha. unfold set_hw_data. rewrite list_insert_id by done. by destruct t. Qed.

Lemma hw_write_spec t n a d streaming last : hw_data t !! n = Some a → (length d ≤ length a)%nat →
  ∃ e, hw_write_table driver t n d streaming last =
    Ret (e, log (set_hw_data t (<[n := exposed t streaming d a]> (hw_data t))) (write_ops t n d streaming last)).
Proof.
  intros Ha Hd. unfold hw_write_table, exposed, write_ops.
  destruct (hw_type t) eqn:Ht; cbn.
  - rewrite (copy_data_spec _ _ _ _ Ha Hd). cbn. eauto.
  - case_bool_decide as Hn.
    + destruct streaming.
      * rewrite (set_hw_data_id _ _ _ Ha). cbn. eauto.
      * rewrite (copy_data_spec _ _ _ _ Ha Hd). cbn. eauto.
    + destruct d; [|cbn in Hn; lia].
      assert ((if streaming then a else written [] a) = a) as -> by (by destruct streaming).
      rewrite (set_hw_data_id _ _ _ Ha). unfold log. rewrite app_nil_r. destruct t. eauto.
Qed.

Definition reset_ops (t : hw_table) (n : nat) : list hw_op :=
  match hw_type t with SHORT_TABLE => [] | LONG_TABLE => [HwLong n [] false] end.
Lemma hw_reset_spec t n : (hw_reset_table driver t n).2 = log t (reset_ops t n).
Proof.
  unfold hw_reset_table, reset_ops. destruct (hw_type t); cbn; [|done].
  unfold log. rewrite app_nil_r. by destruct t.
Qed.

(** The modes a write leads to. *)
Lemma update_mode_spec t b streaming last len e b' :
  update_table_mode t b streaming last len = (e, b') →
  b' = set_mode b (reset_required b') (mode b') ∧ (e ≠ None → mode b' = mode b) ∧
  (e = None → mode b' = TABLE_FIXED → len ≠ 0%nat) ∧
  (e = None → mode b' = TABLE_STREAMING ∨ mode b' = TABLE_STREAMING_LAST →
     hw_type t = LONG_TABLE ∨ mode b = TABLE_STREAMING ∨ mode b = TABLE_STREAMING_LAST).
Proof.
  unfold update_table_mode. intros E.
  destruct (streaming && negb (hw_table_supports_streaming t)) eqn:Es.
  { injection E as <- <-. destruct b. naive_solver. }
  assert (streaming = true → hw_type t = LONG_TABLE) as Ht.
  { intros ->. cbn in Es. unfold hw_table_supports_streaming in Es. by case_bool_decide. }
  case_bool_decide as Hl.
  { destruct streaming; injection E as <- <-; destruct b; naive_solver. }
  destruct b as [ui tl wd sm lt wb rr m wl]. cbn in E. destruct m, streaming, last;
    injection E as <- <-; cbn; naive_solver.
Qed.

Lemma notify_mode_state s n : ∃ a, notify_mode s n =
  mk_table_state (t_row_words s) (max_length s) (table s) a (read_only s) (blocks s) (get_change_index (change_index s)).
Proof. unfold notify_mode. cbn. eauto. Qed.

(** The state between the decision on the mode and the write. *)
Definition prepared (n : nat) (s : table_state) (b b' : table_block) : table_state :=
  let s := set_block s n b' in
  let s := if bool_decide (mode b ≠ mode b') then notify_mode s n else s in
  if reset_required b' then set_table s (log (table s) (reset_ops (table s) n)) else s.
Definition next_or_same (g g' : Z) : Prop := g' = g ∨ g' = get_change_index g.
Lemma prepared_state n s b b' : ∃ a g, next_or_same (change_index s) g ∧ prepared n s b b' =
  mk_table_state (t_row_words s) (max_length s)
    (if reset_required b' then log (table s) (reset_ops (table s) n) else table s) a (read_only s)
    (<[n := b']> (blocks s)) g.
Proof.
  unfold prepared, next_or_same. destruct (notify_mode_state (set_block s n b') n) as (a & E).
  case_bool_decide; rewrite ?E; destruct (reset_required b'); cbn; eauto 6.
Qed.

Lemma commit_spec n s b a : blocks s !! n = Some b → hw_data (table s) !! n = Some a →
  (length (write_data b) ≤ length a)%nat →
  let '(e, b') := update_table_mode (table s) b (streaming_mode b) (last_table b) (length (write_data b)) in
  match e with
  | Some _ => commit_table driver n s b = Ret (e, prepared n s b b')
  | None => ∃ e' attr g, next_or_same (change_index s) g ∧
      commit_table driver n s b = Ret (e',
        mk_table_state (t_row_words s) (max_length s)
          (log (set_hw_data (table s) (<[n := exposed (table s) (streaming_mode b) (write_data b) a]> (hw_data (table s))))
             ((if reset_required b' then reset_ops (table s) n else []) ++
              write_ops (table s) n (write_data b) (streaming_mode b) (last_table b)))
          attr (read_only s) (<[n := finish_block b' (get_change_index g)]> (blocks s)) (get_change_index g))
  end.
Proof.
  intros Hb Ha Hl. destruct (update_table_mode _ _ _ _ _) as [e b'] eqn:E. unfold commit_table. rewrite E.
  destruct (update_mode_spec _ _ _ _ _ _ _ E) as [Hb' _].
  assert (write_data b' = write_data b ∧ streaming_mode b' = streaming_mode b ∧ last_table b' = last_table b)
    as (Hd & Hsm & Hlt) by (by rewrite Hb').
  rewrite !hw_reset_spec. fold (prepared n s b b'). destruct e; [done|].
  destruct (prepared_state n s b b') as (attr & g & Hg & ->). cbn [table t_row_words max_length mode_attr read_only blocks change_index].
  rewrite Hd, Hsm, Hlt. set (t := if reset_required b' then _ else _).
  assert (hw_data t !! n = Some a) as Ht by (unfold t; by destruct (reset_required b')).
  destruct (hw_write_spec t n a (write_data b) (streaming_mode b) (last_table b) Ht Hl) as [e' ->].
  cbn [mbind outcome_bind]. exists e', attr, g. split; [done|]. rewrite list_insert_insert_eq.
  do 3 f_equal. unfold t, log, set_hw_data, write_ops, exposed.
  destruct (reset_required b'); cbn; [by rewrite <-app_assoc|done].
Qed.

(** ** The whole command *)

Context `{Platform}.

(** The block while its command is read: locked, the text's data stored. *)
Definition begun (b : table_block) (streaming last binary : bool) (d : list Z) : table_block :=
  mk_block (update_index b) (tb_length b) d streaming last binary (reset_required b) (mode b) true.

Definition accepted (s : table_state) (b : table_block) (format : cstring) (streaming last binary : bool) : Prop :=
  parse_table_format format = (OK tt, streaming, last, binary) ∧ read_only s = false ∧ write_locked b = false.
Definition valid_text (s : table_state) (binary : bool) (lines : list cstring) (d : list Z) : Prop :=
  collect binary (max_length s) [] lines = (None, d) ∧ Z.of_nat (length d) mod t_row_words s = 0.

Lemma refused_command n s b format lines : blocks s !! n = Some b →
  (∀ streaming last binary, ¬ accepted s b format streaming last binary) →
  ∃ e, process_put_table_command driver n s format lines = Ret (Some e, s, after_blank lines).
Proof.
  intros Hb Hr. unfold process_put_table_command, parse_table_command, accepted in *.
  destruct (parse_table_format format) as [[[eos streaming] last] binary].
  destruct (dummy_put_table s lines) as [pe Hp].
  destruct eos as [[]|e]; [|cbn [mbind outcome_bind]; rewrite Hp; cbn; eauto].
  unfold table_put_table, start_table_write.
  destruct (read_only s); [cbn [mbind outcome_bind]; rewrite Hp; cbn; eauto|].
  rewrite (at_index_some _ _ _ Hb). cbn [mbind outcome_bind].
  destruct (write_locked b); [|by destruct (Hr streaming last binary)].
  cbn [mbind outcome_bind]. rewrite Hp. cbn. eauto.
Qed.

Lemma accepted_command n s b format streaming last binary lines : blocks s !! n = Some b →
  accepted s b format streaming last binary →
  process_put_table_command driver n s format lines =
    let '(e, d) := collect binary (max_length s) [] lines in
    '(ce, s) ← complete_table_write driver n (set_block s n (begun b streaming last binary d)) (bool_decide (e = None));
    Ret (or_else e ce, s, after_blank lines).
Proof.
  intros Hb (Hf & Hro & Hlk). unfold process_put_table_command, parse_table_command. rewrite Hf.
  unfold table_put_table, start_table_write. rewrite Hro, (at_index_some _ _ _ Hb).
  cbn [mbind outcome_bind]. rewrite Hlk. cbn [mbind outcome_bind].
  change (mk_block _ _ [] _ _ _ _ _ _) with (begun b streaming last binary []).
  rewrite (put_lines driver n _ (begun b streaming last binary []) lines) by (by eapply set_block_lookup).
  cbn. destruct (collect _ _ _ _) as [e d]. by rewrite set_block_twice.
Qed.

Lemma failed_text n s b format streaming last binary lines : blocks s !! n = Some b →
  accepted s b format streaming last binary → (∀ d, ¬ valid_text s binary lines d) →
  ∃ e d, process_put_table_command driver n s format lines =
    Ret (Some e, set_block s n (unlock_block (begun b streaming last binary d)), after_blank lines) ∧
    d = (collect binary (max_length s) [] lines).2.
Proof.
  intros Hb Ha Hv. rewrite (accepted_command _ _ _ _ _ _ _ _ Hb Ha). unfold valid_text in Hv.
  destruct (collect binary (max_length s) [] lines) as [e d] eqn:E.
  unfold complete_table_write. rewrite (at_index_some _ _ _ (set_block_lookup _ _ _ _ Hb)). cbn [mbind outcome_bind].
  destruct e as [e|]; cbn [bool_decide].
  - rewrite bool_decide_false by done. cbn [mbind outcome_bind].
    rewrite (at_index_some _ _ _ (set_block_lookup _ _ _ _ Hb)). cbn [mbind outcome_bind].
    rewrite set_block_twice. by eexists e, d.
  - rewrite bool_decide_true by done. unfold TEST_OK_. rewrite bool_decide_false; [|naive_solver].
    cbn [mbind outcome_bind].
    rewrite (at_index_some _ _ _ (set_block_lookup _ _ _ _ Hb)). cbn [mbind outcome_bind].
    rewrite set_block_twice. by eexists _, d.
Qed.

Lemma completed_text n s b format streaming last binary lines d : blocks s !! n = Some b →
  accepted s b format streaming last binary → valid_text s binary lines d →
  process_put_table_command driver n s format lines =
    '(e, s) ← commit_table driver n (set_block s n (begun b streaming last binary d)) (begun b streaming last binary d);
    b ← at_index (blocks s) n;
    Ret (e, set_block s n (unlock_block b), after_blank lines).
Proof.
  intros Hb Ha [Hc Hd]. rewrite (accepted_command _ _ _ _ _ _ _ _ Hb Ha), Hc.
  unfold complete_table_write. rewrite (at_index_some _ _ _ (set_block_lookup _ _ _ _ Hb)). cbn [mbind outcome_bind].
  rewrite bool_decide_true by done. cbn [t_row_words set_block write_data begun].
  rewrite Hd. unfold TEST_OK_. rewrite bool_decide_true by done.
  destruct (commit_table _ _ _ _) as [[e s']| |]; [|done..]. cbn [mbind outcome_bind].
  destruct (at_index (blocks s') n); done.
Qed.

(** *** Well-formedness *)

Lemma exposed_ok t streaming d a max :
  words d → (length d ≤ length a)%nat → (max ≤ length a)%nat ∧ words a →
  (max ≤ length (exposed t streaming d a))%nat ∧ words (exposed t streaming d a).
Proof.
  intros Hd Hl [Ha Hw]. unfold exposed, written.
  assert ((max ≤ length (d ++ drop (length d) a))%nat ∧ words (d ++ drop (length d) a)).
  { split; [rewrite length_app, length_drop; lia|]. apply Forall_app. split; [done|by apply Forall_drop]. }
  by destruct (hw_type t), streaming.
Qed.

Lemma finish_ok max row type b b' e streaming last t g :
  block_ok max row type b → hw_type t = type → Z.of_nat (length (write_data b)) mod row = 0 →
  update_table_mode t b streaming last (length (write_data b)) = (e, b') → e = None →
  block_ok max row type (unlock_block (finish_block b' g)).
Proof.
  intros [] Ht Hrow E ->. destruct (update_mode_spec _ _ _ _ _ _ _ E) as (Hb' & _ & Hf & Hs).
  assert (write_data b' = write_data b) as Hd by (by rewrite Hb').
  split; cbn; rewrite ?Hd; [done..| | | |].
  - case_bool_decide; [done|lia].
  - case_bool_decide; [done|]. apply Zmod_0_l.
  - specialize (Hf eq_refl). case_bool_decide; naive_solver.
  - specialize (Hs eq_refl). rewrite Ht in Hs. naive_solver.
Qed.

Lemma begun_ok s n b streaming last binary d : table_ok s → blocks s !! n = Some b →
  (length d ≤ max_length s)%nat → words d →
  block_ok (max_length s) (t_row_words s) (hw_type (table s)) (begun b streaming last binary d).
Proof. intros Hs Hb Hl Hw. by apply (rewritten_ok _ _ _ b); [|by eapply table_ok_block|..]. Qed.

Lemma set_mode_ok max row type b reset : block_ok max row type b → block_ok max row type (unlock_block (set_mode b reset (mode b))).
Proof. intros []. by split. Qed.

(** The state after a text has been completed. *)
Record completes (n : nat) (s : table_state) (b : table_block) (s' : table_state) : Prop := {
  co_ok : table_ok s';
  co_block : ∃ b', blocks s' = <[n := b']> (blocks s) ∧ write_locked b' = false;
  co_data : ∃ a, hw_data (table s') = <[n := a]> (hw_data (table s));
}.

Lemma rejected_completes n s b b1 b' a : table_ok s → blocks s !! n = Some b → hw_data (table s) !! n = Some a →
  block_ok (max_length s) (t_row_words s) (hw_type (table s)) b1 →
  b' = set_mode b1 (reset_required b') (mode b1) →
  completes n s b (set_block (prepared n (set_block s n b1) b1 b') n (unlock_block b')).
Proof.
  intros Hs Hb Harea Hok1 Hb'. destruct (prepared_state n (set_block s n b1) b1 b') as (attr & g & _ & ->).
  unfold set_block. cbn. rewrite !list_insert_insert_eq. set (t := if reset_required b' then _ else _).
  assert (hw_data t = hw_data (table s) ∧ hw_type t = hw_type (table s)) as [Hd Ht]
    by (unfold t; by destruct (reset_required b')).
  split; cbn.
  - destruct Hs. split; cbn; rewrite ?Hd, ?Ht, ?length_insert; try done. apply Forall_insert; [done|].
    rewrite Hb'. by apply set_mode_ok.
  - eauto.
  - exists a. by rewrite Hd, list_insert_id.
Qed.

Lemma completes_text n s b format streaming last binary lines d : table_ok s → blocks s !! n = Some b →
  accepted s b format streaming last binary → valid_text s binary lines d →
  ∃ e s', process_put_table_command driver n s format lines = Ret (e, s', after_blank lines) ∧ completes n s b s'.
Proof.
  intros Hs Hb Ha Hv. rewrite (completed_text _ _ _ _ _ _ _ _ _ Hb Ha Hv).
  destruct (collect_bounds binary (max_length s) [] lines) as [Hl Hw]; [simpl; lia|constructor|].
  destruct Hv as [Hc Hrow]. rewrite Hc in Hl, Hw. cbn in Hl, Hw.
  set (b1 := begun b streaming last binary d). set (s1 := set_block s n b1).
  assert (blocks s1 !! n = Some b1) as Hb1 by (by eapply set_block_lookup).
  pose proof (begun_ok s n b streaming last binary d Hs Hb Hl Hw) as Hok1. fold b1 in Hok1.
  destruct (table_ok_area _ _ _ Hs Hb) as (a & Harea & Hla).
  pose proof (commit_spec n s1 b1 a Hb1 Harea ltac:(cbn; lia)) as Hcommit.
  destruct (update_table_mode (table s1) b1 (streaming_mode b1) (last_table b1) (length (write_data b1)))
    as [e b'] eqn:E.
  destruct (update_mode_spec _ _ _ _ _ _ _ E) as (Hb' & Hmode & _).
  assert (n < length (blocks s))%nat as Hn by (by eapply lookup_lt_Some).
  destruct e as [e|].
  - rewrite Hcommit. cbn [mbind outcome_bind].
    assert (blocks (prepared n s1 b1 b') !! n = Some b') as Hp.
    { destruct (prepared_state n s1 b1 b') as (attr & g & _ & ->). cbn. by apply list_lookup_insert_eq, (lookup_lt_Some _ _ b1). }
    rewrite (at_index_some _ _ _ Hp). cbn [mbind outcome_bind]. do 2 eexists. split; [done|].
    rewrite Hmode in Hb' by done. by eapply rejected_completes.
  - destruct Hcommit as (e' & attr & g & _ & ->). cbn [mbind outcome_bind blocks].
    erewrite at_index_some by (apply list_lookup_insert_eq; by eapply lookup_lt_Some).
    cbn [mbind outcome_bind]. do 2 eexists. split; [done|]. unfold s1, set_block. cbn.
    rewrite !list_insert_insert_eq. split; cbn; [|eauto..].
    destruct Hs as [? ? Hareas ?]. split; cbn; rewrite ?length_insert; try done.
    + apply Forall_insert; [done|]. apply exposed_ok; [done|lia|done].
    + apply Forall_insert; [done|].
      exact (finish_ok _ _ _ b1 b' None _ _ _ (get_change_index g) Hok1 eq_refl Hrow E eq_refl).
Qed.

(** The command and its text are well formed and the table may be written. *)
Definition goes_through (s : table_state) (b : table_block) (format : cstring) (lines : list cstring) : Prop :=
  ∃ streaming last binary d, accepted s b format streaming last binary ∧ valid_text s binary lines d.

Lemma accepted_cases s b format :
  (∃ streaming last binary, accepted s b format streaming last binary) ∨
  (∀ streaming last binary, ¬ accepted s b format streaming last binary).
Proof.
  unfold accepted. destruct (parse_table_format format) as [[[[[]|e] streaming] last] binary];
    [|right; intros ??? [? _]; congruence].
  destruct (read_only s); [right; intros ??? (_ & ? & _); congruence|].
  destruct (write_locked b); [right; intros ??? (_ & _ & ?); congruence|]. left. eauto 10.
Qed.

Lemma valid_text_cases s binary lines : (∃ d, valid_text s binary lines d) ∨ ∀ d, ¬ valid_text s binary lines d.
Proof.
  unfold valid_text. destruct (collect binary (max_length s) [] lines) as [[e|] d].
  - right. by intros ? [? _].
  - destruct (decide (Z.of_nat (length d) mod t_row_words s = 0)); [eauto|].
    right. intros d' [? ?]. by simplify_eq.
Qed.

(** A command that is refused, or whose text is not valid, fails and leaves all
    that clients and the driver see. *)
Lemma failed_command n s b format lines : table_ok s → blocks s !! n = Some b → ¬ goes_through s b format lines →
  ∃ e b', process_put_table_command driver n s format lines = Ret (Some e, set_block s n b', after_blank lines) ∧
    rewritten b b' ∧ write_locked b' = write_locked b ∧
    block_ok (max_length s) (t_row_words s) (hw_type (table s)) b'.
Proof.
  intros Hs Hb Hg. pose proof (table_ok_block _ _ _ Hs Hb) as Hok.
  destruct (accepted_cases s b format) as [(streaming & last & binary & Ha)|Ha].
  - destruct (valid_text_cases s binary lines) as [[d Hv]|Hv].
    { destruct Hg. by exists streaming, last, binary, d. }
    destruct (failed_text _ _ _ _ _ _ _ _ Hb Ha Hv) as (e & d & -> & Hd).
    destruct (collect_bounds binary (max_length s) [] lines) as [Hl Hw]; [simpl; lia|constructor|].
    rewrite <-Hd in Hl, Hw. do 2 eexists. split; [done|]. destruct Ha as (_ & _ & Hlk).
    split; [done|]. split; [done|]. by apply (rewritten_ok _ _ _ b).
  - destruct (refused_command _ _ _ _ lines Hb Ha) as [e ->]. exists e, b.
    rewrite set_block_id by done. done.
Qed.

Lemma table_command n s b format lines : table_ok s → blocks s !! n = Some b →
  ∃ error s', process_put_table_command driver n s format lines = Ret (error, s', after_blank lines) ∧
    table_ok s' ∧ write_locked <$> blocks s' !! n = Some (write_locked b) ∧
    (∀ m, m ≠ n → blocks s' !! m = blocks s !! m ∧ hw_data (table s') !! m = hw_data (table s) !! m) ∧
    (¬ goes_through s b format lines → error ≠ None ∧ ∀ m, visible s' m = visible s m).
Proof.
  intros Hs Hb. assert (goes_through s b format lines ∨ ¬ goes_through s b format lines) as [Hg|Hg].
  { destruct (accepted_cases s b format) as [(streaming & last & binary & Ha)|Ha].
    - destruct (valid_text_cases s binary lines) as [[d Hv]|Hv]; [left; by exists streaming, last, binary, d|].
      right. intros (s2 & l2 & b2 & d & Ha2 & Hv2). destruct Ha as [Ha _], Ha2 as [Ha2 _].
      rewrite Ha in Ha2. injection Ha2 as -> -> ->. by destruct (Hv d).
    - right. intros (s2 & l2 & b2 & d & Ha2 & _). by destruct (Ha s2 l2 b2). }
  - pose proof Hg as (streaming & last & binary & d & Ha & Hv).
    destruct (completes_text _ _ _ _ _ _ _ _ _ Hs Hb Ha Hv) as (e & s' & -> & [Hok (b' & Hbs & Hlk) (a & Hds)]).
    exists e, s'. split; [done|]. split; [done|]. destruct Ha as (_ & _ & Hl). rewrite Hbs, Hds.
    split; [rewrite list_lookup_insert_eq by (by eapply lookup_lt_Some); simpl; by rewrite Hlk, Hl|].
    split; [|done]. intros m Hm. by rewrite !list_lookup_insert_ne by done.
  - destruct (failed_command _ _ _ _ _ Hs Hb Hg) as (e & b' & -> & Hrw & Hlk & Hok).
    do 2 eexists. split; [done|]. split; [by apply set_block_ok|].
    split; [by rewrite (set_block_lookup _ _ _ _ Hb); simpl; rewrite Hlk|].
    split; [intros m Hm; cbn; by rewrite list_lookup_insert_ne|]. intros _. split; [done|].
    intros m. unfold visible. cbn. do 2 f_equal. destruct (decide (m = n)) as [->|Hm].
    + rewrite list_lookup_insert_eq by (by eapply lookup_lt_Some). rewrite Hb. cbn.
      destruct Hrw as (-> & -> & -> & _). done.
    + by rewrite list_lookup_insert_ne.
Qed.

(** A text that goes through, when the mode of the table refuses the write: clients go on
    being shown what they were, but a reset is sent if one is due. *)
Lemma refused_by_mode n s b format streaming last binary lines d e b' : table_ok s → blocks s !! n = Some b →
  accepted s b format streaming last binary → valid_text s binary lines d →
  update_table_mode (table s) (begun b streaming last binary d) streaming last (length d) = (Some e, b') →
  ∃ s', process_put_table_command driver n s format lines = Ret (Some e, s', after_blank lines) ∧
    ∀ m, visible s' m = ((visible s m).1, hw_log (table s) ++ (if reset_required b' then reset_ops (table s) n else [])).
Proof.
  intros Hs Hb Ha Hv E. rewrite (completed_text _ _ _ _ _ _ _ _ _ Hb Ha Hv).
  destruct (collect_bounds binary (max_length s) [] lines) as [Hl _]; [simpl; lia|constructor|].
  pose proof Hv as [Hc _]. rewrite Hc in Hl. cbn in Hl. destruct (table_ok_area _ _ _ Hs Hb) as (a & Harea & Hla & _).
  set (b1 := begun b streaming last binary d) in *. set (s1 := set_block s n b1).
  pose proof (set_block_lookup s n b b1 Hb) as Hb1.
  pose proof (commit_spec n s1 b1 a Hb1 Harea ltac:(cbn; lia)) as Hcommit. cbn in Hcommit. rewrite E in Hcommit. rewrite Hcommit.
  destruct (update_mode_spec _ _ _ _ _ _ _ E) as (Hb' & Hmode & _). specialize (Hmode ltac:(done)).
  assert (n < length (blocks s))%nat as Hn by (by eapply lookup_lt_Some).
  destruct (prepared_state n s1 b1 b') as (attr & g & _ & ->). cbn [mbind outcome_bind blocks].
  erewrite at_index_some by (apply list_lookup_insert_eq; cbn; by rewrite length_insert).
  cbn [mbind outcome_bind]. eexists. split; [done|]. intros m. unfold visible, s1, set_block. cbn.
  rewrite !list_insert_insert_eq. assert (hw_data (if reset_required b' then log (table s) (reset_ops (table s) n) else table s) = hw_data (table s) ∧
    hw_log (if reset_required b' then log (table s) (reset_ops (table s) n) else table s) =
      hw_log (table s) ++ (if reset_required b' then reset_ops (table s) n else [])) as [-> ->]
    by (destruct (reset_required b'); by rewrite ?app_nil_r).
  do 2 f_equal. destruct (decide (m = n)) as [->|Hm]; [|by rewrite list_lookup_insert_ne].
  rewrite list_lookup_insert_eq, Hb by done. rewrite Hb'. cbn. by rewrite Hmode.
Qed.

(** C12: A table command on a well-formed state always returns, with the lines after
    the first blank one left for the next command; the state stays well formed,
    the other tables are untouched and the write lock is as it was.  A command
    that is refused because of its format, the lock or the ownership of the table, or whose
    text does not parse, does not fit, or is not a whole number of rows, reports an error
    and leaves the modes, the data and the driver as they were.  A command that is refused
    only at the end, because of the mode of the table, reports that error and leaves the
    modes and the data that clients are shown; but the driver is told to reset the table
    if the mode leaves a reset due, which is so after a second fixed write when a stream
    without data is refused. *)
Theorem table_command_atomic n s b format lines : table_ok s → blocks s !! n = Some b →
  ∃ error s', process_put_table_command driver n s format lines = Ret (error, s', after_blank lines) ∧
    table_ok s' ∧ write_locked <$> blocks s' !! n = Some (write_locked b) ∧
    (∀ m, m ≠ n → blocks s' !! m = blocks s !! m ∧ hw_data (table s') !! m = hw_data (table s) !! m) ∧
    (¬ goes_through s b format lines → error ≠ None ∧ ∀ m, visible s' m = visible s m) ∧
    (∀ streaming last binary d e b', accepted s b format streaming last binary → valid_text s binary lines d →
      update_table_mode (table s) (begun b streaming last binary d) streaming last (length d) = (Some e, b') →
      error = Some e ∧
      ∀ m, visible s' m = ((visible s m).1, hw_log (table s) ++ (if reset_required b' then reset_ops (table s) n else []))).
Proof.
  intros Hs Hb. destruct (table_command n s b format lines Hs Hb) as (error & s' & E & Hok & Hl & Ho & Hg).
  exists error, s'. split_and!; try done. intros streaming last binary d e b' Ha Hv Hm.
  destruct (refused_by_mode _ _ _ _ _ _ _ _ _ _ _ Hs Hb Ha Hv Hm) as (s2 & E2 & H2). rewrite E2 in E. by injection E as <- <-.
Qed.

(** A text that goes through, when the mode of the table allows the write. *)
Lemma written_text n s b format streaming last binary lines d a b' : table_ok s → blocks s !! n = Some b →
  hw_data (table s) !! n = Some a → accepted s b format streaming last binary → valid_text s binary lines d →
  update_table_mode (table s) (begun b streaming last binary d) streaming last (length d) = (None, b') →
  ∃ e attr g, next_or_same (change_index s) g ∧
    process_put_table_command driver n s format lines = Ret (e,
      mk_table_state (t_row_words s) (max_length s)
        (log (set_hw_data (table s) (<[n := exposed (table s) streaming d a]> (hw_data (table s))))
           ((if reset_required b' then reset_ops (table s) n else []) ++ write_ops (table s) n d streaming last))
        attr (read_only s) (<[n := unlock_block (finish_block b' (get_change_index g))]> (blocks s)) (get_change_index g),
      after_blank lines).
Proof.
  intros Hs Hb Harea Ha Hv E. rewrite (completed_text _ _ _ _ _ _ _ _ _ Hb Ha Hv).
  destruct (collect_bounds binary (max_length s) [] lines) as [Hl Hw]; [simpl; lia|constructor|].
  destruct Hv as [Hc _]. rewrite Hc in Hl, Hw. cbn in Hl, Hw.
  destruct (table_ok_area _ _ _ Hs Hb) as (a' & Harea' & Hla & _). rewrite Harea' in Harea. injection Harea as ->.
  pose proof (set_block_lookup s n b (begun b streaming last binary d) Hb) as Hb1.
  pose proof (commit_spec n _ _ a Hb1 Harea' ltac:(cbn; lia)) as Hcommit. cbn in Hcommit. rewrite E in Hcommit.
  destruct Hcommit as (e & attr & g & Hg & ->). cbn [mbind outcome_bind blocks].
  erewrite at_index_some by (apply list_lookup_insert_eq; rewrite length_insert; by eapply lookup_lt_Some).
  cbn [mbind outcome_bind]. exists e, attr, g. split; [done|]. unfold set_block. cbn. by rewrite !list_insert_insert_eq.
Qed.

(** The index of a completed write is later than any report so far. *)
Lemma next_reported g g' : next_or_same g g' → 0 ≤ g < 2 ^ 64 - 2 → changed_since g (get_change_index g') = true.
Proof.
  intros Hg Hb. unfold changed_since, get_change_index. apply bool_decide_eq_true_2.
  destruct Hg as [->| ->]; unfold get_change_index, wrap.
  - rewrite Z.mod_small; lia.
  - rewrite (Z.mod_small (g + 1)) by lia. rewrite Z.mod_small; lia.
Qed.

Lemma write_fixed n s b format last binary lines d : table_ok s → blocks s !! n = Some b →
  accepted s b format false last binary → valid_text s binary lines d → d ≠ [] →
  mode b = TABLE_INIT ∨ mode b = TABLE_FIXED → 0 ≤ change_index s < 2 ^ 64 - 2 →
  ∃ e s', process_put_table_command driver n s format lines = Ret (e, s', after_blank lines) ∧
    block_data s' n = Ret d ∧ mode <$> blocks s' !! n = Some TABLE_FIXED ∧
    table_change_set s' (change_index s) !! n = Some true ∧
    hw_log (table s') = hw_log (table s) ++
      (if bool_decide (mode b = TABLE_FIXED) then reset_ops (table s) n else []) ++
      write_ops (table s) n d false last.
Proof.
  intros Hs Hb Ha Hv Hd Hm Hg.
  set (b' := set_mode (begun b false last binary d) (bool_decide (mode b = TABLE_FIXED)) TABLE_FIXED).
  assert (update_table_mode (table s) (begun b false last binary d) false last (length d) = (None, b')) as E.
  { unfold update_table_mode, b'. cbn. rewrite bool_decide_false by (by destruct d).
    by destruct Hm as [-> | ->]. }
  destruct (table_ok_area _ _ _ Hs Hb) as (a & Harea & Hla & _).
  destruct (written_text _ _ _ _ _ _ _ _ _ _ _ Hs Hb Harea Ha Hv E) as (e & attr & g & Hgg & ->).
  do 2 eexists. split; [done|]. unfold block_data, table_change_set. cbn.
  assert (n < length (hw_data (table s)))%nat as Hn by (by eapply lookup_lt_Some).
  assert (n < length (blocks s))%nat as Hn' by (by eapply lookup_lt_Some).
  rewrite list_lookup_fmap, !list_lookup_insert_eq by done. cbn.
  rewrite !(at_index_some _ _ _ (list_lookup_insert_eq _ _ _ Hn')),
    !(at_index_some _ _ _ (list_lookup_insert_eq _ _ _ Hn)). cbn.
  assert (exposed (table s) false d a = written d a) as -> by (unfold exposed; by destruct (hw_type (table s))).
  unfold written. rewrite (bool_decide_true (length d ≤ _)%nat) by (rewrite length_app; lia). cbn.
  rewrite (bool_decide_true (TABLE_FIXED = TABLE_FIXED)), take_app_length by done. split_and!; try done. by rewrite next_reported.
Qed.

(** Writing a fixed table.  When the text is valid and the table is not in
    streaming mode, clients see exactly the numbers of the text, the mode is
    FIXED, the change is reported, and the hardware is sent the data, after a
    reset where the table was in use. *)
Theorem fixed_write n s b format last binary lines d : table_ok s → blocks s !! n = Some b →
  accepted s b format false last binary → valid_text s binary lines d → d ≠ [] →
  mode b = TABLE_INIT ∨ mode b = TABLE_FIXED → 0 ≤ change_index s < 2 ^ 64 - 2 →
  ∃ e s', process_put_table_command driver n s format lines = Ret (e, s', after_blank lines) ∧
    block_data s' n = Ret d ∧ mode <$> blocks s' !! n = Some TABLE_FIXED ∧
    table_change_set s' (change_index s) !! n = Some true ∧
    hw_log (table s') = hw_log (table s) ++
      (if bool_decide (mode b = TABLE_FIXED) then reset_ops (table s) n else []) ++
      write_ops (table s) n d false last.
Proof. exact (write_fixed n s b format last binary lines d). Qed.

(** Writing to a streaming table.  The data is not shown to clients, the mode
    follows the last flag, and the driver is told whether more is to come. *)
Theorem streaming_write n s b format last binary lines d : table_ok s → blocks s !! n = Some b →
  hw_type (table s) = LONG_TABLE →
  accepted s b format true last binary → valid_text s binary lines d → d ≠ [] →
  mode b = TABLE_INIT ∨ mode b = TABLE_STREAMING →
  ∃ e s', process_put_table_command driver n s format lines = Ret (e, s', after_blank lines) ∧
    block_data s' n = Ret [] ∧
    mode <$> blocks s' !! n = Some (if last then TABLE_STREAMING_LAST else TABLE_STREAMING) ∧
    hw_log (table s') = hw_log (table s) ++ [HwLong n d (negb last)].
Proof.
  intros Hs Hb Ht Ha Hv Hd Hm.
  set (b' := set_mode (begun b true last binary d) false (if last then TABLE_STREAMING_LAST else TABLE_STREAMING)).
  assert (update_table_mode (table s) (begun b true last binary d) true last (length d) = (None, b')) as E.
  { unfold update_table_mode, b', hw_table_supports_streaming. cbn.
    rewrite Ht, bool_decide_true, bool_decide_false by (done || by destruct d). cbn.
    by destruct Hm as [Hm|Hm], last; unfold set_mode; cbn; rewrite ?Hm. }
  destruct (table_ok_area _ _ _ Hs Hb) as (a & Harea & Hla & _).
  destruct (written_text _ _ _ _ _ _ _ _ _ _ _ Hs Hb Harea Ha Hv E) as (e & attr & g & Hgg & ->).
  do 2 eexists. split; [done|]. unfold block_data. cbn.
  assert (n < length (hw_data (table s)))%nat as Hn by (by eapply lookup_lt_Some).
  assert (n < length (blocks s))%nat as Hn' by (by eapply lookup_lt_Some).
  rewrite !list_lookup_insert_eq by done.
  rewrite !(at_index_some _ _ _ (list_lookup_insert_eq _ _ _ Hn')),
    !(at_index_some _ _ _ (list_lookup_insert_eq _ _ _ Hn)). cbn.
  rewrite bool_decide_false by (by destruct last). rewrite bool_decide_true by lia. cbn. split_and!; try done.
  unfold write_ops. rewrite Ht, bool_decide_true by (destruct d; [done|simpl; lia]). done.
Qed.

(** An empty text takes the table back to its initial mode. *)
Lemma write_empty n s b format last binary lines : table_ok s → blocks s !! n = Some b →
  accepted s b format false last binary → valid_text s binary lines [] →
  ∃ e s', process_put_table_command driver n s format lines = Ret (e, s', after_blank lines) ∧
    block_data s' n = Ret [] ∧ mode <$> blocks s' !! n = Some TABLE_INIT.
Proof.
  intros Hs Hb Ha Hv. destruct (table_ok_area _ _ _ Hs Hb) as (a & Harea & _).
  destruct (written_text n s b format false last binary lines [] a
    (set_mode (begun b false last binary []) true TABLE_INIT) Hs Hb Harea Ha Hv eq_refl) as (e & attr & g & _ & ->).
  do 2 eexists. split; [done|]. unfold block_data. cbn.
  assert (n < length (hw_data (table s)))%nat as Hn by (by eapply lookup_lt_Some).
  assert (n < length (blocks s))%nat as Hn' by (by eapply lookup_lt_Some).
  rewrite !list_lookup_insert_eq by done.
  rewrite !(at_index_some _ _ _ (list_lookup_insert_eq _ _ _ Hn')),
    !(at_index_some _ _ _ (list_lookup_insert_eq _ _ _ Hn)). cbn.
  done.
Qed.

(** ** Reading a table back *)

Lemma fmt_u_first w : is_word w → ∃ c t, fmt_u w = c :: t ∧ c ≠ 0.
Proof.
  intros [Hw _]. destruct (print_uint_first w [] Hw) as (c & t & E & Hc). rewrite app_nil_r in E.
  exists c, t. split; [done|lia].
Qed.

Lemma line_words_fmt w room : is_word w → (0 < room)%nat → line_words false (fmt_u w) room = OK [w].
Proof.
  intros Hw Hr. pose proof (read_uint_fmt w [] Hw eq_refl) as [_ Hp]. rewrite app_nil_r in Hp.
  destruct (fmt_u_first w Hw) as (c & t & E & Hc). rewrite E in *.
  unfold line_words, convert_line, convert_ascii_line. cbn [length ascii_loop cur].
  rewrite bool_decide_false by done. unfold test_ok, TEST_OK_. rewrite bool_decide_true by (simpl; lia).
  cbn [res_of]. rewrite Hp. by destruct (length t).
Qed.

Lemma collect_ascii max d acc rest : words d → (length acc + length d ≤ max)%nat →
  collect false max acc (write_ascii d ++ [] :: rest) = (None, acc ++ d) ∧
  after_blank (write_ascii d ++ [] :: rest) = rest.
Proof.
  intros Hd. revert acc. induction Hd as [|w d Hw _ IH]; intros acc Hl; [cbn; by rewrite app_nil_r|].
  simpl in Hl. cbn [write_ascii fmap list_fmap app collect]. 
  destruct (fmt_u_first w Hw) as (c & t & E & Hc). rewrite bool_decide_false by (by rewrite E).
  rewrite line_words_fmt by (done || lia). fold (write_ascii d).
  cbn [after_blank]. rewrite bool_decide_false by (by rewrite E).
  destruct (IH (acc ++ [w])) as [-> ->]; [rewrite length_app; simpl; lia|]. by rewrite <-app_assoc.
Qed.

(** A line of the base 64 text. *)
Lemma encoded_line_cur data : data ≠ [] → bytes data → cur (c_str (base64_encode data).1) ≠ 0.
Proof.
  intros Hne Hb. unfold base64_encode. simpl. pose proof (encode_chars_nonzero data Hb) as Hz.
  rewrite c_str_terminated by done.
  assert (encode_chars data ≠ []) as Hn by (destruct data as [|? [|? [|? ?]]]; done).
  destruct (encode_chars data); [done|]. by inversion_clear Hz.
Qed.

Lemma line_words_encoded d room : d ≠ [] → words d → (length d ≤ room)%nat →
  line_words true (c_str (base64_encode (bytes_of_words d)).1) room = OK d.
Proof.
  intros Hne Hw Hr. unfold line_words, convert_line, convert_base64_line.
  rewrite decode_encoded; [|by destruct d as [|w d]|apply bytes_of_words_bytes|rewrite bytes_of_words_length; lia].
  cbn [mbind outcome_bind d_status d_converted d_out]. unfold test_ok, TEST_OK_.
  rewrite (bool_decide_true (BASE64_STATUS_OK = _)) by done. rewrite bool_decide_true.
  - cbn. by rewrite words_of_bytes_of_words.
  - rewrite bytes_of_words_length, Nat2Z.inj_mul, Z.mul_comm. by apply Z.mod_mul.
Qed.

Lemma collect_base64 fuel max d acc rest : words d → (4 * length d ≤ fuel)%nat → (length acc + length d ≤ max)%nat →
  collect true max acc (base_64_loop fuel (bytes_of_words d) ++ [] :: rest) = (None, acc ++ d) ∧
  after_blank (base_64_loop fuel (bytes_of_words d) ++ [] :: rest) = rest.
Proof.
  revert d acc. induction fuel as [|fuel IH]; intros d acc Hw Hf Hl.
  { destruct d; [|simpl in Hf; lia]. cbn. by rewrite app_nil_r. }
  cbn [base_64_loop]. rewrite bytes_of_words_length. destruct d as [|w d'] eqn:Ed.
  { cbn. by rewrite app_nil_r. }
  rewrite <-Ed in *. assert (0 < length d)%nat as Hd by (subst d; simpl; lia). clear Ed.
  rewrite bool_decide_true by lia.
  set (k := Nat.min 12 (length d)).
  assert (Nat.min (4 * length d) BASE64_LINE_BYTES = 4 * k)%nat as -> by (unfold k, BASE64_LINE_BYTES; lia).
  rewrite bytes_of_words_take, bytes_of_words_drop.
  assert (words (take k d) ∧ words (drop k d)) as [Hwt Hwd] by (split; [by apply Forall_take|by apply Forall_drop]).
  assert (take k d ≠ []) as Hne by (intros E; apply (f_equal length) in E; rewrite length_take in E; cbn [length] in E; lia).
  cbn [app collect after_blank]. rewrite bool_decide_false.
  2:{ apply encoded_line_cur; [|apply bytes_of_words_bytes]. by destruct (take k d). }
  rewrite line_words_encoded by (done || rewrite length_take; lia).
  destruct (IH (drop k d) (acc ++ take k d)) as [-> ->]; [done|rewrite length_drop; lia| |].
  - rewrite length_app, length_take, length_drop. lia.
  - by rewrite <-app_assoc, take_drop.
Qed.

(** What [.B?] and the table query print, by the form of the text. *)
Definition get_many (binary : bool) (s : table_state) (n : nat) : outcome (list cstring) :=
  if binary then table_b_get_many s n else table_get_many s n.
Definition put_format (binary : bool) : cstring := if binary then bytes_of "B" else [].

Lemma block_data_words s n d : table_ok s → block_data s n = Ret d → words d.
Proof.
  intros Hs. unfold block_data, at_index. destruct (blocks s !! n) as [b|] eqn:Hb; [|done].
  destruct (table_ok_area _ _ _ Hs Hb) as (a & Ha & _ & Hw). cbn. rewrite Ha. cbn.
  case_bool_decide; [|done]. cbn. intros [= <-]. by apply Forall_take.
Qed.

(** C35: the lines a table prints, in either form, followed by a blank line and sent
    back to a table with room for them, restore the same data, to the word; an
    empty table is restored to its initial mode. *)
Theorem table_roundtrip s0 m d binary lines s n b : table_ok s0 → block_data s0 m = Ret d →
  get_many binary s0 m = Ret lines →
  table_ok s → blocks s !! n = Some b → read_only s = false → write_locked b = false →
  mode b = TABLE_INIT ∨ mode b = TABLE_FIXED → 0 ≤ change_index s < 2 ^ 64 - 2 →
  (length d ≤ max_length s)%nat → Z.of_nat (length d) mod t_row_words s = 0 →
  ∃ e s', process_put_table_command driver n s (put_format binary) (lines ++ [[]]) = Ret (e, s', []) ∧
    block_data s' n = Ret d.
Proof.
  intros Hs0 Hd Hlines Hs Hb Hro Hlk Hm Hg Hl Hrow. pose proof (block_data_words _ _ _ Hs0 Hd) as Hw.
  assert (lines = if binary then write_base_64 d else write_ascii d) as ->.
  { destruct binary; cbn in Hlines; unfold table_b_get_many, table_get_many in Hlines; rewrite Hd in Hlines;
      by injection Hlines as <-. }
  set (lines := if binary then _ else _).
  assert (collect binary (max_length s) [] (lines ++ [[]]) = (None, d) ∧ after_blank (lines ++ [[]]) = []) as [Hc Hrest].
  { unfold lines. destruct binary.
    - unfold write_base_64. apply collect_base64; [done|rewrite bytes_of_words_length; lia|done].
    - by apply collect_ascii. }
  assert (accepted s b (put_format binary) false true binary) as Ha by (by destruct binary).
  destruct (decide (d = [])) as [->|Hne].
  - destruct (write_empty n s b _ true binary _ Hs Hb Ha (conj Hc Hrow)) as (e & s' & He & Hbd & _).
    rewrite Hrest in He. eauto.
  - destruct (write_fixed n s b _ true binary _ d Hs Hb Ha (conj Hc Hrow) Hne Hm Hg) as (e & s' & He & Hbd & _).
    rewrite Hrest in He. eauto.
Qed.

(** ** Where the mode and the driver part *)

(** A table that has been written twice is left with [reset_required] set; a
    streaming write without data is then refused, but the driver is nevertheless
    told to reset the table, while clients go on being shown the old data. *)
Theorem rejected_write_resets n s b format last binary rest : table_ok s → blocks s !! n = Some b →
  hw_type (table s) = LONG_TABLE → mode b = TABLE_FIXED → reset_required b = true →
  accepted s b format true last binary →
  ∃ e s', process_put_table_command driver n s format ([] :: rest) = Ret (Some e, s', rest) ∧
    visible s' n = ((λ b, (mode b, tb_length b, update_index b)) <$> blocks s !! n, hw_data (table s) !! n,
                    hw_log (table s) ++ [HwLong n [] false]).
Proof.
  intros Hs Hb Ht Hm Hr Ha.
  assert (valid_text s binary ([] :: rest) []) as Hv by (split; [done|apply Zmod_0_l]).
  rewrite (completed_text _ _ _ _ _ _ _ _ _ Hb Ha Hv).
  set (b1 := begun b true last binary []).
  pose proof (set_block_lookup s n b b1 Hb) as Hb1.
  destruct (table_ok_area _ _ _ Hs Hb) as (a & Harea & _).
  pose proof (commit_spec n _ _ a Hb1 Harea ltac:(cbn; lia)) as Hcommit. cbn in Hcommit.
  unfold update_table_mode, hw_table_supports_streaming in Hcommit. rewrite Ht in Hcommit. cbn in Hcommit.
  rewrite Hcommit. unfold prepared. rewrite bool_decide_false by (intros E; by destruct E). cbn. rewrite Hr.
  cbn [mbind outcome_bind set_table blocks].
  rewrite (at_index_some _ _ _ (set_block_lookup _ _ _ _ Hb1)).
  cbn [mbind outcome_bind]. do 2 eexists. split; [done|]. unfold visible, reset_ops. cbn. rewrite Ht.
  rewrite list_lookup_insert_eq by (rewrite !length_insert; by eapply lookup_lt_Some). by rewrite Hb.
Qed.

(** The last flag is lost when a fixed table is replaced by a stream: the driver
    is told that nothing more is to come, but the mode is STREAMING and not
    STREAMING_LAST, so that further tables are accepted. *)
Theorem last_flag_lost n s b format binary lines d : table_ok s → blocks s !! n = Some b →
  hw_type (table s) = LONG_TABLE → mode b = TABLE_FIXED →
  accepted s b format true true binary → valid_text s binary lines d → d ≠ [] →
  ∃ e s', process_put_table_command driver n s format lines = Ret (e, s', after_blank lines) ∧
    mode <$> blocks s' !! n = Some TABLE_STREAMING ∧
    hw_log (table s') = hw_log (table s) ++ [HwLong n [] false; HwLong n d false].
Proof.
  intros Hs Hb Ht Hm Ha Hv Hd.
  set (b' := set_mode (begun b true true binary d) true TABLE_STREAMING).
  assert (update_table_mode (table s) (begun b true true binary d) true true (length d) = (None, b')) as E.
  { unfold update_table_mode, b', hw_table_supports_streaming. cbn.
    rewrite Ht, bool_decide_true, bool_decide_false by (done || by destruct d). cbn. by rewrite Hm. }
  destruct (table_ok_area _ _ _ Hs Hb) as (a & Harea & _).
  destruct (written_text _ _ _ _ _ _ _ _ _ _ _ Hs Hb Harea Ha Hv E) as (e & attr & g & _ & ->).
  do 2 eexists. split; [done|]. cbn.
  rewrite list_lookup_insert_eq by (by eapply lookup_lt_Some). split; [done|].
  unfold write_ops, reset_ops. rewrite Ht, bool_decide_true by (destruct d; [done|simpl; lia]). done.
Qed.

End complete.

(** ** Concrete tables *)

Definition example_hw (type : table_type) : hw_table := mk_hw type 2 3 4 5 [[0; 0; 0; 0]] [].
Definition example_state (type : table_type) : table_state :=
  mk_table_state 2 4 (example_hw type) (mk_attr true false [1] [[]]) false [initial_block] 5.
Definition ok_driver (_ : list hw_op) (_ : hw_op) : error__t := None.

Lemma example_ok type : table_ok (example_state type).
Proof.
  split; [done|done| |]; apply Forall_singleton.
  - split; [simpl; lia|]. repeat (apply Forall_cons; split; [done|]). constructor.
  - split; cbn; try done; try lia. naive_solver.
Qed.

(** The state after some commands. *)
Fixpoint commands (s : table_state) (l : list (cstring * list cstring)) : table_state :=
  match l with
  | [] => s
  | (format, lines) :: l =>
      match @process_put_table_command ok_driver ARM32 0 s format lines with
      | Ret (_, s', _) => commands s' l
      | _ => s
      end
  end.
Definition fixed_command : cstring * list cstring := ([], [bytes_of "7 9"; []]).

Lemma commands_ok s l : table_ok s → is_Some (blocks s !! 0%nat) →
  table_ok (commands s l) ∧ is_Some (blocks (commands s l) !! 0%nat).
Proof.
  revert s. induction l as [|[format lines] l IH]; intros s Hs [b Hb]; [done|]. cbn [commands].
  destruct (@table_command ok_driver ARM32 0 s b format lines Hs Hb) as (e & s' & -> & Hs' & Hl & _).
  apply IH; [done|]. by destruct (blocks s' !! 0%nat).
Qed.

Definition after (type : table_type) (l : list (cstring * list cstring)) : table_state := commands (example_state type) l.
Lemma after_ok type l : table_ok (after type l).
Proof. apply commands_ok; [apply example_ok|by exists initial_block]. Qed.
Definition block_of (s : table_state) : table_block := default initial_block (blocks s !! 0%nat).

Lemma table_command_atomic_witness :
  ∃ error s', @process_put_table_command ok_driver ARM32 0 (after SHORT_TABLE [fixed_command]) []
    [bytes_of "1 2 x"; []; bytes_of "*IDN?"] = Ret (error, s', [bytes_of "*IDN?"]) ∧ block_data s' 0 = Ret [7; 9].
Proof.
  destruct (@table_command_atomic ok_driver ARM32 0 (after SHORT_TABLE [fixed_command])
    (block_of (after SHORT_TABLE [fixed_command])) [] [bytes_of "1 2 x"; []; bytes_of "*IDN?"])
    as (e & s' & E & _); [apply after_ok|by vm_compute|].
  exists e, s'. split; [exact E|]. vm_compute in E. injection E as <- <-. by vm_compute.
Defined.

Lemma fixed_write_witness : ∃ e s', @process_put_table_command ok_driver AARCH64 0 (example_state LONG_TABLE) (bytes_of "B")
    [bytes_of "AQAAAAIAAAA="; []] = Ret (e, s', []) ∧ block_data s' 0 = Ret [1; 2].
Proof.
  destruct (@fixed_write ok_driver AARCH64 0 (example_state LONG_TABLE) initial_block (bytes_of "B") true true
    [bytes_of "AQAAAAIAAAA="; []] [1; 2]) as (e & s' & E & Hd & _);
    [apply example_ok|done|done|by vm_compute|done|by left|by vm_compute|].
  exists e, s'. split; [exact E|exact Hd].
Defined.

Lemma streaming_write_witness : ∃ e s', @process_put_table_command ok_driver AARCH64 0 (example_state LONG_TABLE)
    (bytes_of "<|") [bytes_of "4 5"; []] = Ret (e, s', []) ∧
    mode <$> blocks s' !! 0%nat = Some TABLE_STREAMING_LAST ∧ hw_log (table s') = [HwLong 0 [4; 5] false].
Proof.
  destruct (@streaming_write ok_driver AARCH64 0 (example_state LONG_TABLE) initial_block (bytes_of "<|") true false
    [bytes_of "4 5"; []] [4; 5]) as (e & s' & E & _ & Hm & Hl);
    [apply example_ok|done|done|done|by vm_compute|done|by left|].
  exists e, s'. split; [exact E|]. split; [exact Hm|exact Hl].
Defined.

Lemma table_roundtrip_witness : ∃ e s', @process_put_table_command ok_driver X86_64 0 (example_state SHORT_TABLE)
    (put_format true) [bytes_of "BwAAAAkAAAA="; []] = Ret (e, s', []) ∧ block_data s' 0 = Ret [7; 9].
Proof.
  apply (@table_roundtrip ok_driver X86_64 (after LONG_TABLE [fixed_command]) 0 [7; 9] true [bytes_of "BwAAAAkAAAA="]
    (example_state SHORT_TABLE) 0 initial_block);
    [apply after_ok|by vm_compute|by vm_compute|apply example_ok|done|done|done|by left|by vm_compute|simpl; lia|done].
Defined.

(** Two writes, and then a stream without data. *)
Lemma rejected_write_resets_witness :
  ∃ e s', @process_put_table_command ok_driver ARM32 0 (after LONG_TABLE [fixed_command; fixed_command]) (bytes_of "<") [[]] =
      Ret (Some e, s', []) ∧
    last (hw_log (table s')) = Some (HwLong 0 [] false) ∧ block_data s' 0 = Ret [7; 9].
Proof.
  destruct (@rejected_write_resets ok_driver ARM32 0 (after LONG_TABLE [fixed_command; fixed_command])
    (block_of (after LONG_TABLE [fixed_command; fixed_command])) (bytes_of "<") false false [])
    as (e & s' & E & _); [apply after_ok|by vm_compute..|].
  exists e, s'. split; [exact E|]. vm_compute in E. injection E as <- <-. split; by vm_compute.
Defined.

Lemma last_flag_lost_witness :
  ∃ e s', @process_put_table_command ok_driver ARM32 0 (after LONG_TABLE [fixed_command]) (bytes_of "<|") [bytes_of "1 2"; []] =
      Ret (e, s', []) ∧ mode <$> blocks s' !! 0%nat = Some TABLE_STREAMING.
Proof.
  destruct (@last_flag_lost ok_driver ARM32 0 (after LONG_TABLE [fixed_command])
    (block_of (after LONG_TABLE [fixed_command])) (bytes_of "<|") false [bytes_of "1 2"; []] [1; 2])
    as (e & s' & E & Hm & _); [apply after_ok|by vm_compute..|].
  exists e, s'. split; [exact E|exact Hm].
Defined.

End TableSpec.
