(* ===== verification/TableFieldSpec.v ===== *)
(** * Tables: the layout of a row

    Every field line of a table's configuration leaves a set of fields that lie
    inside the row and do not overlap, and whose names are those the index of
    names leads back to. *)

From S2P Require Import Prelude Errors Parse Format HashTable HashTableSpec Enums Table TableSpec.
From S2P Require Import Capture.
From stdpp Require Import base numbers list list_numbers gmap option strings pretty.
Open Scope Z_scope.

Module TableFieldSpec.
Import Parse Format Capture Table TableSpec.

Section fields.
Context `{Platform} {TE TF : Type} `{!StringTable Z TE} `{!StringTable nat TF}.
Implicit Types (set : field_set (TE := TE) (TF := TF)) (f g : table_subfield (TE := TE)).

Definition covers f (i : Z) : Prop := right f ≤ i ≤ left f.
Definition separate f g : Prop := left f < right g ∨ left g < right f.

Record fields_ok set : Prop := {
  fo_bits : length (used_bits set) = Z.to_nat (u32 (32 * row_words set));
  fo_inside : Forall (λ f, 0 ≤ right f ∧ right f ≤ left f ∧ left f < u32 (32 * row_words set)) (ordered_fields set);
  fo_used : ∀ f i, f ∈ ordered_fields set → covers f i → used_bits set !! Z.to_nat i = Some true;
  fo_separate : ∀ i j f g, ordered_fields set !! i = Some f → ordered_fields set !! j = Some g → i ≠ j → separate f g;
  fo_room : (length (ordered_fields set) ≤ capacity set)%nat;
  fo_table : st_wf (fields set);
  fo_names : ∀ name, st_map (fields set) !! name = None ∨
    ∃ ix f, st_map (fields set) !! name = Some (Some ix) ∧ ordered_fields set !! ix = Some f ∧ sf_name f = name;
  fo_size : (size (st_map (fields set)) ≤ length (ordered_fields set))%nat;
}.

(** The loop of [check_field_range] marks exactly the bits it has found free. *)
Lemma mark_bits_spec n i used : 0 ≤ i → (Z.to_nat i + n ≤ length used)%nat →
  ∃ e used', mark_bits n i used = Ret (e, used') ∧ length used' = length used ∧
    (∀ k, used !! k = Some true → used' !! k = Some true) ∧
    (e = None → ∀ k, (Z.to_nat i ≤ k < Z.to_nat i + n)%nat → used !! k = Some false ∧ used' !! k = Some true).
Proof.
  revert i used. induction n as [|n IH]; intros i used Hi Hn.
  { eexists _, _. split; [done|]. split; [done|]. split; [done|]. lia. }
  cbn [mark_bits].
  destruct (lookup_lt_is_Some_2 used (Z.to_nat i) ltac:(lia)) as [u Hu]. rewrite (at_index_some _ _ _ Hu). cbn [mbind outcome_bind].
  assert (∀ k, used !! k = Some true → <[Z.to_nat i:=true]> used !! k = Some true) as Hmono.
  { intros k Hk. destruct (decide (k = Z.to_nat i)) as [->|]; [by apply list_lookup_insert_eq, (lookup_lt_Some _ _ u)|].
    by rewrite list_lookup_insert_ne. }
  destruct u; cbn.
  { eexists _, _. split; [done|]. rewrite length_insert. done. }
  destruct (IH (i + 1) (<[Z.to_nat i:=true]> used)) as (e & used' & -> & Hl & Hm & Hmark); [lia|rewrite length_insert; lia|].
  exists e, used'. split; [done|]. rewrite Hl, length_insert. split; [done|]. split; [by eauto|].
  intros He k Hk. destruct (decide (k = Z.to_nat i)) as [->|Hne].
  - split; [done|]. apply Hm. by apply list_lookup_insert_eq, (lookup_lt_Some _ _ false).
  - destruct (Hmark He k ltac:(lia)) as [Hf Ht]. by rewrite list_lookup_insert_ne in Hf.
Qed.

Definition with_used set (used : list bool) : field_set :=
  mk_field_set (fields set) (capacity set) (ordered_fields set) (row_words set) used.

Lemma check_range_spec set l r : fields_ok set → 0 ≤ r →
  ∃ e used, check_field_range set l r = Ret (e, with_used set used) ∧ fields_ok (with_used set used) ∧
    (e = None → r ≤ l < u32 (32 * row_words set) ∧
       ∀ i, r ≤ i ≤ l → used_bits set !! Z.to_nat i = Some false ∧ used !! Z.to_nat i = Some true).
Proof.
  intros Hs Hr. unfold check_field_range, TEST_OK_.
  assert (with_used set (used_bits set) = set) as Hid by (by destruct set).
  case_bool_decide as H1; [|exists (Some (error_create None "Invalid ordering of bit field")), (used_bits set); rewrite Hid; done].
  case_bool_decide as H2; [|exists (Some (error_create None "Bit field extends outside row")), (used_bits set); rewrite Hid; done].
  destruct (mark_bits_spec (Z.to_nat (l - r + 1)) r (used_bits set)) as (e & used & -> & Hl & Hm & Hmark);
    [done|rewrite (fo_bits _ Hs); lia|].
  cbn [mbind outcome_bind]. exists e, used. split; [done|]. split.
  - destruct Hs. split; cbn; [by rewrite Hl|done|eauto|done..].
  - intros He. split; [lia|]. intros i Hi. apply (Hmark He). lia.
Qed.

Lemma parse_subfield_range line l r name sub rest :
  parse_subfield line = (OK (l, r, name, sub), rest) → is_word l ∧ is_word r.
Proof.
  unfold parse_subfield. unfold mbind at 1, parser_bind.
  destruct (parse_uint line) as [[l'|] s1] eqn:E1; [|done].
  destruct (parse_uint32_consumes _ _ _ E1) as [_ Hl]. cbn beta iota.
  unfold mbind at 1, parser_bind. destruct (parse_char _ s1) as [[[]|] s2]; [|done]. cbn beta iota.
  unfold mbind at 1, parser_bind. destruct (parse_uint s2) as [[r'|] s3] eqn:E2; [|done].
  destruct (parse_uint32_consumes _ _ _ E2) as [_ Hr]. cbn beta iota.
  unfold mbind at 1, parser_bind. destruct (parse_whitespace s3) as [[[]|] s4]; [|done]. cbn beta iota.
  unfold mbind at 1, parser_bind. destruct (parse_alphanum_name _ s4) as [[nm|] s5]; [|done]. cbn beta iota.
  unfold mbind at 1, parser_bind. destruct (peek s5) as [[c|] s6]; [|done]. cbn beta iota.
  case_bool_decide; [|intros [= <- <- <- <- <-]; done].
  unfold mbind at 1, parser_bind. destruct (parse_whitespace s6) as [[[]|] s7]; [|done]. cbn beta iota.
  unfold mbind at 1, parser_bind. destruct (parse_name _ s7) as [[st|] s8]; [|done]. cbn beta iota.
  unfold mbind at 1, parser_bind. destruct (lift (validate_subtype st) s8) as [[[]|] s9]; [|done].
  by intros [= <- <- <- <- <-].
Qed.

(** A new field, in bits that were free. *)
Lemma add_field_spec set used l r name sub : fields_ok (with_used set used) →
  Z.of_nat (length (ordered_fields set)) < HashTableSpec.MAX_COUNT →
  length (used_bits set) = length used →
  (∀ f i, f ∈ ordered_fields set → covers f i → used_bits set !! Z.to_nat i = Some true) →
  0 ≤ r ≤ l ∧ l < u32 (32 * row_words set) →
  (∀ i, r ≤ i ≤ l → used_bits set !! Z.to_nat i = Some false ∧ used !! Z.to_nat i = Some true) →
  ∃ e set', add_new_field (with_used set used) l r name sub = Ret (e, set') ∧ fields_ok set' ∧
    ∃ f, ordered_fields set' = ordered_fields set ++ [f] ∧ left f = l ∧ right f = r ∧ sf_name f = name ∧ subtype f = sub ∧
      (e = None → st_map (fields set) !! name = None).
Proof.
  intros Hok Hmax Hlen Hused Hr Hfree. destruct Hok as [Hb Hin Hu Hsep Hroom Ht Hn Hsz]. cbn in *.
  destruct (st_insert_ok (fields set) name (Some (length (ordered_fields set))) Ht ltac:(lia)) as (t' & Hins & Ht' & Hmap).
  unfold add_new_field. cbn [ordered_fields capacity with_used fields row_words used_bits].
  set (cap := if bool_decide (capacity set ≤ _)%nat then _ else _).
  assert (length (ordered_fields set) < cap)%nat as Hcap.
  { unfold cap, INITIAL_CAPACITY. repeat case_bool_decide; lia. }
  rewrite (bool_decide_true (_ < cap)%nat) by done. cbn [mbind outcome_bind in_range]. rewrite Hins. cbn [mbind outcome_bind Enums.call].
  do 2 eexists. split; [done|]. set (f := mk_subfield l r name sub _ None). split.
  2:{ exists f. split_and!; try done. unfold TEST_OK_. case_bool_decide as Hold; [intros _|done].
    destruct (Hn name) as [|(ix & g & Hg & _)]; [done|]. by rewrite Hg in Hold. }
  assert (∀ g, g ∈ ordered_fields set → separate g f) as Hnew.
  { intros g Hg. unfold separate. destruct (decide (left g < r ∨ l < right g)) as [|Hno]; [done|]. exfalso.
    apply list_elem_of_lookup in Hg as [k Hk]. pose proof (Forall_lookup_1 _ _ _ _ Hin Hk) as (? & ? & ?).
    set (i := Z.max r (right g)).
    destruct (Hfree i ltac:(lia)) as [Hf _].
    rewrite (Hused g i) in Hf; [done|by eapply list_elem_of_lookup_2|unfold covers; lia]. }
  split; cbn.
  - done.
  - apply Forall_app. split; [done|]. apply Forall_singleton. cbn. lia.
  - intros g i Hg Hc. apply elem_of_app in Hg as [Hg| ->%list_elem_of_singleton]; [by eapply Hu|]. by apply Hfree.
  - intros i j g1 g2 H1 H2 Hij. apply lookup_snoc_Some in H1 as [[Hi1 H1]|[-> <-]], H2 as [[Hi2 H2]|[-> <-]].
    + by eapply Hsep.
    + apply Hnew. by eapply list_elem_of_lookup_2.
    + destruct (Hnew g2) as [|]; [by eapply list_elem_of_lookup_2|by right|by left].
    + done.
  - rewrite length_app. simpl. lia.
  - done.
  - intros nm. rewrite Hmap. destruct (decide (nm = name)) as [->|Hne].
    + right. exists (length (ordered_fields set)), f. rewrite lookup_insert_eq, list_lookup_middle by done. done.
    + rewrite lookup_insert_ne by done. destruct (Hn nm) as [|(ix & g & ? & Hg & ?)]; [by left|].
      right. exists ix, g. rewrite lookup_app_l by (by eapply lookup_lt_Some). done.
  - rewrite Hmap, length_app. simpl. rewrite map_size_insert. case_match; simpl; lia.
Qed.

Lemma create_fields_ok (row_words : Z) : fields_ok (create_field_set row_words).
Proof.
  destruct (st_create_ok (V := nat) (T := TF)) as [Hwf Hmap].
  split; cbn; rewrite ?Hmap; try done.
  - by rewrite length_replicate.
  - by intros ?? ?%elem_of_nil.
  - by left.
Qed.

(** A line that defines a field of a row always leaves a well-formed layout:
    fields inside the row, no two of them sharing a bit, and the index of names
    in step; when it succeeds the field is the one of the line, appended last. *)
Theorem parse_field_layout set line : fields_ok set →
  Z.of_nat (length (ordered_fields set)) < HashTableSpec.MAX_COUNT →
  ∃ e set' rest, field_set_parse_attribute set line = Ret (e, set', rest) ∧ fields_ok set' ∧
    (e = None → ∃ l r name sub f, parse_subfield line = (OK (l, r, name, sub), rest) ∧
       ordered_fields set' = ordered_fields set ++ [f] ∧
       left f = l ∧ right f = r ∧ sf_name f = name ∧ subtype f = sub ∧
       st_map (fields set) !! name = None).
Proof.
  intros Hs Hmax. unfold field_set_parse_attribute.
  destruct (parse_subfield line) as [[[[[l r] name] sub]|e] rest] eqn:E; [|by do 3 eexists].
  destruct (parse_subfield_range _ _ _ _ _ _ E) as [Hl Hr].
  destruct (check_range_spec set l r Hs ltac:(apply Hr)) as (e & used & -> & Hok & Hfree).
  cbn [mbind outcome_bind]. destruct e as [e|]; [by do 3 eexists|]. destruct (Hfree eq_refl) as [Hlr Hbits].
  destruct (add_field_spec set used l r name sub Hok Hmax) as (e & set' & -> & Hok' & f & Hf); try done.
  - rewrite (fo_bits _ Hs). symmetry. exact (fo_bits _ Hok).
  - exact (fo_used _ Hs).
  - split; [split; [apply Hr|]|]; lia.
  - cbn [mbind outcome_bind]. exists e, set', rest. split; [done|]. split; [done|]. intros He.
    exists l, r, name, sub, f. naive_solver.
Qed.

End fields.

(** ** A concrete row *)

Definition example_fields : field_set (TE := HashTable.hash_table (K := cstring) (V := Z))
    (TF := HashTable.hash_table (K := cstring) (V := nat)) := @create_field_set ARM32 _ _ (@keep_string_table ARM32 nat) 1.

Lemma parse_field_layout_witness :
  ∃ e set' rest, @field_set_parse_attribute ARM32 _ _ (@keep_string_table ARM32 nat) example_fields
      (bytes_of "7:0 MODE enum") = Ret (e, set', rest) ∧
    used_bits set' = replicate 8 true ++ replicate 24 false.
Proof.
  destruct (@parse_field_layout ARM32 _ _ (@keep_string_table ARM32 nat) example_fields (bytes_of "7:0 MODE enum"))
    as (e & set' & rest & E & _); [apply create_fields_ok|by vm_compute|].
  exists e, set', rest. split; [exact E|]. vm_compute in E. injection E as <- <- <-. done.
Defined.
End TableFieldSpec.
