(* ===== verification/Hardware.v ===== *)
(** * Access to the FPGA: panda-server/server/hardware.c

    The register map, the special registers of the [*REG] block and the check at
    start that the configuration agrees with the numbers compiled into the
    server.  The FPGA itself is a parameter: what a read returns, and what state a
    read or a write leaves it in.  [named_registers.h] is generated from
    config_d/registers; the table it holds is below. *)

From S2P Require Import Prelude Errors.
From stdpp Require Import base numbers list list_numbers gmap option strings pretty.
Open Scope Z_scope.

(** The FPGA behind the register map, by word offset. *)
Class Fpga := {
  fpga : Type;
  fpga_write : fpga → Z → Z → fpga;
  fpga_read : fpga → Z → Z * fpga;
  fpga_read_word f offset : 0 ≤ (fpga_read f offset).1 < 2 ^ 32;
}.

(** An FPGA whose registers keep what is written to them. *)
Definition register_file : Fpga := {|
  fpga := gmap Z Z;
  fpga_write f offset value := <[offset := value]> f;
  fpga_read f offset := (u32 (default 0 (f !! offset)), f);
  fpga_read_word f offset := wrap_range 32 _ ltac:(done);
|}.

Module Hardware.

Definition BLOCK_TYPE_BITS : Z := 5.
Definition BLOCK_INSTANCE_BITS : Z := 4.
Definition BLOCK_REGISTER_BITS : Z := 6.
Definition BLOCK_TYPE_COUNT : Z := Z.shiftl 1 BLOCK_TYPE_BITS.
Definition BLOCK_INSTANCE_COUNT : Z := Z.shiftl 1 BLOCK_INSTANCE_BITS.
Definition BLOCK_REGISTER_COUNT : Z := Z.shiftl 1 BLOCK_REGISTER_BITS.
Definition UNASSIGNED_REGISTER : Z := 2 ^ 32 - 1.
Definition INVALID_REGISTER : Z := 2 ^ 32 - 2.
Definition NOMINAL_CLOCK_FREQUENCY : Z := 125000000.
Definition MAX_CLOCK_VALUE : Z := 2 ^ 48 - 1.
Definition NSECS : Z := 1000000000.
Definition BUS_BITS : nat := 128.
Definition BUS_POSITIONS : nat := 32.
Definition MAC_ADDRESS_COUNT : Z := 4.
Definition MAX_PCAP_WRITE_COUNT : nat := 64.

(** [make_offset]: the bit fields of [struct register_fields], lowest first. *)
Definition make_offset (block_base block_number reg : Z) : Z :=
  Z.land reg (BLOCK_REGISTER_COUNT - 1) +
  2 ^ BLOCK_REGISTER_BITS * Z.land block_number (BLOCK_INSTANCE_COUNT - 1) +
  2 ^ (BLOCK_REGISTER_BITS + BLOCK_INSTANCE_BITS) * Z.land block_base (BLOCK_TYPE_COUNT - 1).

(** ** Named registers *)

(** Numbers of [*REG] in config_d/registers. *)
Definition REG_BLOCK_BASE : Z := 0.
Definition FPGA_VERSION : Z := 0.
Definition FPGA_BUILD : Z := 1.
Definition USER_VERSION : Z := 2.
Definition BIT_READ_RST : Z := 3.
Definition BIT_READ_VALUE : Z := 4.
Definition POS_READ_RST : Z := 5.
Definition POS_READ_VALUE : Z := 6.
Definition POS_READ_CHANGES : Z := 7.
Definition PCAP_START_WRITE : Z := 8.
Definition PCAP_WRITE : Z := 9.
Definition PCAP_TS_SEC : Z := 10.
Definition PCAP_TS_TICKS : Z := 11.
Definition PCAP_ARM : Z := 13.
Definition PCAP_DISARM : Z := 14.
Definition FPGA_CAPABILITIES : Z := 15.
Definition MAC_ADDRESS_BASE : Z := 16.
Definition NOMINAL_CLOCK : Z := 24.

(** [struct named_register]; entries that no name initialises have none. *)
Record named_register := mk_named_register {
  nr_name : option string;
  nr_range : Z;
  nr_seen : bool;
  nr_optional : bool;
}.
(** [struct named_constant]. *)
Record named_constant := mk_named_constant {
  nc_name : string;
  nc_value : Z;
  nc_allow_default : bool;
  nc_seen : bool;
}.

Definition named (name : string) (range : Z) (opt : bool) : named_register := mk_named_register (Some name) range false opt.
Definition unnamed : named_register := mk_named_register None 0 false false.
Definition named_registers : list named_register :=
  [named "FPGA_VERSION" 1 false; named "FPGA_BUILD" 1 false; named "USER_VERSION" 1 false;
   named "BIT_READ_RST" 1 false; named "BIT_READ_VALUE" 1 false; named "POS_READ_RST" 1 false;
   named "POS_READ_VALUE" 1 false; named "POS_READ_CHANGES" 1 false; named "PCAP_START_WRITE" 1 false;
   named "PCAP_WRITE" 1 false; named "PCAP_TS_SEC" 1 true; named "PCAP_TS_TICKS" 1 true; unnamed;
   named "PCAP_ARM" 1 false; named "PCAP_DISARM" 1 false; named "FPGA_CAPABILITIES" 1 false;
   named "MAC_ADDRESS_BASE" 8 false; unnamed; unnamed; unnamed; unnamed; unnamed; unnamed; unnamed;
   named "NOMINAL_CLOCK" 1 false; named "TABLE_IRQ_STATUS" 1 false].

Definition hw_set_block_base (reg : Z) : error__t :=
  TEST_OK_ (bool_decide (reg = REG_BLOCK_BASE)) "*REG block base mismatch".

Definition see_register (r : named_register) : named_register :=
  mk_named_register (nr_name r) (nr_range r) true (nr_optional r).
(** [hw_set_named_register_range], on the table. *)
Definition hw_set_named_register_range (regs : list named_register) (name : string) (start end_ : Z)
    : error__t * list named_register :=
  match regs !! Z.to_nat start with
  | None => (TEST_OK_ false "Register out of range", regs)
  | Some reg =>
      match
        (_ ← test_ok (bool_decide (nr_name reg = Some name)) "Wrong offset value for this register";
         _ ← test_ok (negb (nr_seen reg)) "Register already assigned";
         test_ok (bool_decide (end_ = u32 (start + nr_range reg - 1))) "Invalid range of values")
      with
      | Err e => (Some e, regs)
      | OK _ => (None, <[Z.to_nat start := see_register reg]> regs)
      end
  end.
Definition hw_set_named_register (regs : list named_register) (name : string) (reg : Z) : error__t * list named_register :=
  hw_set_named_register_range regs name reg reg.

(** [hw_set_named_constant]: the first entry with the name. *)
Fixpoint hw_set_named_constant (constants : list named_constant) (name : string) (value : Z)
    : error__t * list named_constant :=
  match constants with
  | [] => (TEST_OK_ false ("Unknown constant " +:+ name +:+ "=" +:+ pretty value +:+ " in registers file"), [])
  | c :: rest =>
      if bool_decide (nc_name c = name) then
        if nc_seen c then (TEST_OK_ false ("Repeated constant " +:+ name), constants)
        else
          (TEST_OK_ (bool_decide (nc_value c = value))
             ("Unexpected value for constant " +:+ name +:+ ": " +:+ pretty value +:+ " != " +:+ pretty (nc_value c)),
           mk_named_constant (nc_name c) (nc_value c) (nc_allow_default c) true :: rest)
      else let '(error, rest) := hw_set_named_constant rest name value in (error, c :: rest)
  end.

(** [hw_validate]: the first register or constant that is missing. *)
Definition register_missing (r : named_register) : bool :=
  bool_decide (is_Some (nr_name r)) && negb (nr_seen r) && negb (nr_optional r).
Definition constant_missing (c : named_constant) : bool := negb (nc_seen c) && negb (nc_allow_default c).
Definition hw_validate (regs : list named_register) (constants : list named_constant) : error__t :=
  match list_find (λ r, register_missing r = true) regs with
  | Some (_, r) => TEST_OK_ false ("Register " +:+ default EmptyString (nr_name r) +:+ " not in *REG list")
  | None =>
      match list_find (λ c, constant_missing c = true) constants with
      | Some (_, c) => TEST_OK_ false ("Constant " +:+ nc_name c +:+ " not seen in registers file")
      | None => None
      end
  end.

(** ** Register access *)

Section hardware.
Context `{Fpga}.

Definition hw_write_register (f : fpga) (block_base block_number reg value : Z) : fpga :=
  fpga_write f (make_offset block_base block_number reg) (u32 value).
Definition hw_read_register (f : fpga) (block_base block_number reg : Z) : Z * fpga :=
  fpga_read f (make_offset block_base block_number reg).

Definition write_named_register (f : fpga) (offset value : Z) : fpga := hw_write_register f REG_BLOCK_BASE 0 offset value.
Definition read_named_register (f : fpga) (offset : Z) : Z * fpga := hw_read_register f REG_BLOCK_BASE 0 offset.

(** A burst of reads of one register. *)
Fixpoint read_burst (n : nat) (f : fpga) (offset : Z) : list Z * fpga :=
  match n with
  | O => ([], f)
  | S n' =>
      let '(word, f) := read_named_register f offset in
      let '(words, f) := read_burst n' f offset in (word :: words, f)
  end.

(** [hw_read_bits]: the bits and which of them have changed. *)
Definition hw_read_bits (f : fpga) : list bool * list bool * fpga :=
  let f := write_named_register f BIT_READ_RST 1 in
  let '(words, f) := read_burst (BUS_BITS / 16) f BIT_READ_VALUE in
  (words ≫= λ word, (λ j, Z.testbit word (16 + j)) <$> seqZ 0 16,
   words ≫= λ word, (λ j, Z.testbit word j) <$> seqZ 0 16, f).

Definition hw_read_positions (f : fpga) : list Z * list bool * fpga :=
  let f := write_named_register f POS_READ_RST 1 in
  let '(positions, f) := read_burst BUS_POSITIONS f POS_READ_VALUE in
  let '(word, f) := read_named_register f POS_READ_CHANGES in
  (positions, (λ i, Z.testbit word i) <$> seqZ 0 (Z.of_nat BUS_POSITIONS), f).

Definition hw_read_versions (f : fpga) : Z * Z * Z * fpga :=
  let '(version, f) := read_named_register f FPGA_VERSION in
  let '(build, f) := read_named_register f FPGA_BUILD in
  let '(user, f) := read_named_register f USER_VERSION in (version, build, user, f).

(** The two halves that go to the registers of a MAC address. *)
Definition mac_words (mac_address : Z) : Z * Z :=
  (Z.land mac_address 0xffffff, Z.land (Z.shiftr mac_address 24) 0xffffff).
Definition hw_write_mac_address (f : fpga) (offset mac_address : Z) : outcome fpga :=
  _ ← assert_ok (bool_decide (offset < MAC_ADDRESS_COUNT));
  let f := write_named_register f (MAC_ADDRESS_BASE + 2 * offset) (mac_words mac_address).1 in
  Ret (write_named_register f (MAC_ADDRESS_BASE + 2 * offset + 1) (mac_words mac_address).2).

Definition hw_read_fpga_capabilities (f : fpga) : Z * fpga := read_named_register f FPGA_CAPABILITIES.
Definition hw_read_nominal_clock (f : fpga) : Z * fpga :=
  let '(frequency, f) := read_named_register f NOMINAL_CLOCK in
  (if bool_decide (0 < frequency) then frequency else NOMINAL_CLOCK_FREQUENCY, f).

(** [hw_get_hw_start_ts], from the two registers and the clock; [time_t] and the
    type of [tv_nsec] have the width of [long]. *)
Definition start_ts `{Platform} (sec ticks clock : Z) : Z * Z :=
  let tv_nsec := to_signed long_bits (u64 (ticks * NSECS) / clock) in
  (to_signed long_bits sec + Z.quot tv_nsec NSECS, Z.rem tv_nsec NSECS).
Definition hw_get_hw_start_ts `{Platform} (f : fpga) : Z * Z * fpga :=
  let '(sec, f) := read_named_register f PCAP_TS_SEC in
  let '(ticks, f) := read_named_register f PCAP_TS_TICKS in
  let '(clock, f) := hw_read_nominal_clock f in (start_ts sec ticks clock, f).

Definition hw_write_arm (f : fpga) (enable : bool) : fpga :=
  write_named_register f (if enable then PCAP_ARM else PCAP_DISARM) 0.

Definition hw_write_capture_set (f : fpga) (capture : list Z) : outcome fpga :=
  _ ← assert_ok (bool_decide (length capture < MAX_PCAP_WRITE_COUNT)%nat);
  Ret (foldl (λ f c, write_named_register f PCAP_WRITE c) (write_named_register f PCAP_START_WRITE 0) capture).
End hardware.

(** [hw_decode_completion]: bits of panda_device.h. *)
Definition PANDA_COMPLETION_DISARM : Z := 1.
Definition PANDA_COMPLETION_FRAMING : Z := 2.
Definition PANDA_COMPLETION_OVERRUN : Z := 8.
Definition PANDA_COMPLETION_DMA : Z := 4.
Definition hw_decode_completion (completion : Z) : string :=
  let has b := bool_decide (Z.land completion b ≠ 0) in
  if bool_decide (completion = 0) then "Ok"
  else if has PANDA_COMPLETION_DMA then "DMA data error"
  else if has PANDA_COMPLETION_OVERRUN then "Driver data overrun"
  else if has PANDA_COMPLETION_FRAMING then "Framing error"
  else if has PANDA_COMPLETION_DISARM then "Disarmed"
  else "Unexpected completion error".

End Hardware.
