(* ===== verification/HardwareSpec.v ===== *)
(** * Access to the FPGA: what it guarantees

    Distinct registers of the configured ranges have distinct offsets; a
    configuration that passes the check at start names every special register
    with the number compiled into the server; the parts of a MAC address and of a
    start time lose nothing. *)

From S2P Require Import Prelude Errors Hardware.
From stdpp Require Import base numbers list list_numbers option strings pretty.
Open Scope Z_scope.

Module HardwareSpec.
Import Hardware.

Lemma make_offset_value block_base block_number reg :
  make_offset block_base block_number reg = reg mod 64 + 64 * (block_number mod 16) + 1024 * (block_base mod 32).
Proof.
  unfold make_offset. change (BLOCK_REGISTER_COUNT - 1) with (2 ^ 6 - 1).
  change (BLOCK_INSTANCE_COUNT - 1) with (2 ^ 4 - 1). change (BLOCK_TYPE_COUNT - 1) with (2 ^ 5 - 1).
  rewrite !land_ones_wrap by lia. done.
Qed.

(** Two registers share an offset exactly when block, instance and register
    agree modulo the ranges of the addressing scheme: numbers within the ranges
    never collide, and an instance number from sixteen on is that of another
    instance. *)
Theorem make_offset_eq b n r b' n' r' :
  make_offset b n r = make_offset b' n' r' ↔ b mod 32 = b' mod 32 ∧ n mod 16 = n' mod 16 ∧ r mod 64 = r' mod 64.
Proof.
  rewrite !make_offset_value.
  pose proof (Z.mod_pos_bound b 32). pose proof (Z.mod_pos_bound n 16). pose proof (Z.mod_pos_bound r 64).
  pose proof (Z.mod_pos_bound b' 32). pose proof (Z.mod_pos_bound n' 16). pose proof (Z.mod_pos_bound r' 64).
  lia.
Qed.

(** Both halves of a 48-bit address reach the hardware. *)
Theorem mac_words_value mac_address : 0 ≤ mac_address < 2 ^ 48 →
  (mac_words mac_address).1 + 2 ^ 24 * (mac_words mac_address).2 = mac_address.
Proof.
  intros Hm. unfold mac_words. cbn [fst snd]. change 0xffffff with (2 ^ 24 - 1).
  rewrite !land_ones_wrap by lia. unfold wrap. rewrite Z.shiftr_div_pow2 by lia.
  rewrite (Z.mod_small (mac_address / 2 ^ 24)); [pose proof (Z.div_mod mac_address (2 ^ 24)); lia|].
  split; [apply Z.div_pos; lia|]. apply Z.div_lt_upper_bound; lia.
Qed.

(** The start time is normalised and loses less than a nanosecond, as long as the
    ticks since the last second stay below two seconds. *)
Theorem start_ts_value `{Platform} sec ticks clock :
  0 ≤ sec < 2 ^ 31 - 1 → 0 < clock < 2 ^ 32 → 0 ≤ ticks < 2 * clock →
  let '(tv_sec, tv_nsec) := start_ts sec ticks clock in
  0 ≤ tv_nsec < NSECS ∧ tv_sec * NSECS + tv_nsec = sec * NSECS + ticks * NSECS / clock.
Proof.
  intros Hs Hc Ht. unfold start_ts, NSECS.
  assert (0 ≤ ticks * 1000000000 / clock < 2 * 1000000000) as Hq.
  { split; [apply Z.div_pos; lia|]. apply Z.div_lt_upper_bound; lia. }
  rewrite wrap_small by lia.
  assert (∀ x, 0 ≤ x < 2 ^ 31 → to_signed long_bits x = x) as Hsigned.
  { intros x Hx. unfold to_signed. destruct long_bits_ok as [-> | ->]; rewrite wrap_small by lia;
      rewrite decide_True; lia. }
  rewrite !Hsigned by lia. set (q := ticks * 1000000000 / clock) in *.
  rewrite Z.quot_div_nonneg, Z.rem_mod_nonneg by lia.
  pose proof (Z.mod_pos_bound q 1000000000). pose proof (Z.div_mod q 1000000000). lia.
Qed.

(** ** The check of the configuration *)

(** The lines of the [*REG] block, one after the other. *)
Fixpoint set_registers (regs : list named_register) (l : list (string * Z * Z)) : error__t * list named_register :=
  match l with
  | [] => (None, regs)
  | (name, start, end_) :: rest =>
      match hw_set_named_register_range regs name start end_ with
      | (None, regs) => set_registers regs rest
      | (Some e, regs) => (Some e, regs)
      end
  end.

Lemma set_range_spec regs name start end_ regs' :
  hw_set_named_register_range regs name start end_ = (None, regs') →
  ∃ r, regs !! Z.to_nat start = Some r ∧ nr_name r = Some name ∧ end_ = u32 (start + nr_range r - 1) ∧
    regs' = <[Z.to_nat start := see_register r]> regs.
Proof.
  unfold hw_set_named_register_range. destruct (regs !! Z.to_nat start) as [r|] eqn:Hr; [|done].
  unfold test_ok, TEST_OK_. repeat case_bool_decide; destruct (nr_seen r) eqn:Hseen; cbn; try done.
  intros [= <-]. eauto.
Qed.

Lemma set_registers_spec regs l regs' : set_registers regs l = (None, regs') → Forall (λ x, 0 ≤ x.1.2) l →
  ∀ i r', regs' !! i = Some r' → ∃ r, regs !! i = Some r ∧ nr_name r' = nr_name r ∧ nr_range r' = nr_range r ∧
    nr_optional r' = nr_optional r ∧
    (nr_seen r' = true → nr_seen r = false →
       ∃ name, nr_name r = Some name ∧ (name, Z.of_nat i, u32 (Z.of_nat i + nr_range r - 1)) ∈ l).
Proof.
  revert regs. induction l as [|[[name start] end_] l IH]; intros regs E Hl i r' Hr'.
  { injection E as <-. exists r'. split_and!; try done. congruence. }
  cbn in E. apply Forall_cons in Hl as [Hstart Hl]. cbn in Hstart.
  destruct (hw_set_named_register_range regs name start end_) as [[e|] regs1] eqn:E1; [done|].
  destruct (set_range_spec _ _ _ _ _ E1) as (r1 & Hr1 & Hname & Hend & ->).
  destruct (IH _ E Hl i r' Hr') as (r & Hr & Hn & Hrg & Ho & Hseen).
  destruct (decide (i = Z.to_nat start)) as [->|Hne].
  - rewrite list_lookup_insert_eq in Hr by (by eapply lookup_lt_Some). injection Hr as <-.
    exists r1. cbn in *. split_and!; try done. intros _ _. exists name. split; [done|].
    rewrite Z2Nat.id by done. rewrite <-Hend. left.
  - rewrite list_lookup_insert_ne in Hr by done. exists r. split_and!; try done.
    intros H1 H2. destruct (Hseen H1 H2) as (nm & ? & ?). exists nm. split; [done|by right].
Qed.

(** When the lines of the [*REG] block are all accepted and the check at the end
    of loading passes, every special register that is not optional was given by
    the configuration with exactly the number and the range compiled into the
    server. *)
Theorem named_registers_agree l constants regs :
  set_registers named_registers l = (None, regs) → Forall (λ x, 0 ≤ x.1.2) l → hw_validate regs constants = None →
  ∀ i name r, named_registers !! i = Some r → nr_name r = Some name → nr_optional r = false →
    (name, Z.of_nat i, u32 (Z.of_nat i + nr_range r - 1)) ∈ l.
Proof.
  intros E Hl Hv i name r Hr Hname Hopt.
  assert (length regs = length named_registers) as Hlen.
  { clear -E. revert E. generalize named_registers as regs0. induction l as [|[[nm st] en] l IH]; intros regs0 E.
    - by injection E as <-.
    - cbn in E. destruct (hw_set_named_register_range regs0 nm st en) as [[e|] regs1] eqn:E1; [done|].
      destruct (set_range_spec _ _ _ _ _ E1) as (? & _ & _ & _ & ->). rewrite (IH _ E). by rewrite length_insert. }
  destruct (lookup_lt_is_Some_2 regs i) as [r' Hr']; [rewrite Hlen; by eapply lookup_lt_Some|].
  destruct (set_registers_spec _ _ _ E Hl i r' Hr') as (r0 & Hr0 & Hn & _ & Ho & Hseen).
  rewrite Hr in Hr0. injection Hr0 as <-.
  assert (nr_seen r = false) as Hs.
  { assert (Forall (λ r, nr_seen r = false) named_registers) as Hf by (repeat constructor). exact (Forall_lookup_1 _ _ _ _ Hf Hr). }
  destruct (nr_seen r') eqn:Hs'; [destruct (Hseen eq_refl Hs) as (nm & Hnm & ?); by simplify_eq|].
  unfold hw_validate in Hv. destruct (list_find _ regs) as [[j q]|] eqn:Hf; [done|].
  apply list_find_None in Hf. exfalso. apply (Forall_lookup_1 _ _ _ _ Hf Hr').
  unfold register_missing. rewrite Hn, Hname, Hs', Ho, Hopt. done.
Qed.

(** ** A concrete configuration *)

Definition example_lines : list (string * Z * Z) :=
  [("FPGA_VERSION", 0, 0); ("FPGA_BUILD", 1, 1); ("USER_VERSION", 2, 2); ("BIT_READ_RST", 3, 3);
   ("BIT_READ_VALUE", 4, 4); ("POS_READ_RST", 5, 5); ("POS_READ_VALUE", 6, 6); ("POS_READ_CHANGES", 7, 7);
   ("PCAP_START_WRITE", 8, 8); ("PCAP_WRITE", 9, 9); ("PCAP_ARM", 13, 13); ("PCAP_DISARM", 14, 14);
   ("FPGA_CAPABILITIES", 15, 15); ("MAC_ADDRESS_BASE", 16, 23); ("NOMINAL_CLOCK", 24, 24); ("TABLE_IRQ_STATUS", 25, 25)].

Lemma named_registers_agree_witness : ("MAC_ADDRESS_BASE", 16, 23) ∈ example_lines.
Proof.
  apply (named_registers_agree example_lines [] (set_registers named_registers example_lines).2
    ltac:(by vm_compute) ltac:(repeat constructor; by vm_compute) ltac:(by vm_compute) 16 "MAC_ADDRESS_BASE"
    (named "MAC_ADDRESS_BASE" 8 false)); done.
Defined.

Lemma mac_words_value_witness : (mac_words 0x0123456789ab).1 + 2 ^ 24 * (mac_words 0x0123456789ab).2 = 0x0123456789ab.
Proof. apply (mac_words_value 0x0123456789ab). lia. Defined.

Lemma start_ts_value_witness : @start_ts ARM32 10 187500000 125000000 = (11, 500000000) ∧ 0 ≤ 500000000 < NSECS.
Proof.
  split; [by vm_compute|].
  apply (@start_ts_value ARM32 10 187500000 125000000 ltac:(lia) ltac:(lia) ltac:(lia)).
Defined.

End HardwareSpec.
