(* ===== verification/Metadata.v ===== *)
(** * Metadata: panda-server/server/metadata.c

    Keys with a string, a constant or many lines.  The lines of a multi-line value
    are kept in one buffer, each with its terminator, with an empty string at the
    end; the buffer a table command fills grows as it is written. *)

From S2P Require Import Prelude Errors Utf8 Parse Format HashTable HashTableSpec Enums StdDev Capture PosOut Changes Table.
From stdpp Require Import base numbers list list_numbers gmap option strings pretty.
Open Scope Z_scope.

Module Metadata.
Import Parse Format PosOut Changes Table.

Definition MIN_LENGTH : nat := 1024.
Definition MAX_RESULT_LENGTH : nat := 256.
Definition MAX_LINE_LENGTH : nat := 1024.

Inductive metadata_type := METADATA_STRING | METADATA_MULTILINE | METADATA_CONSTANT.
#[export] Instance metadata_type_eq_dec : EqDecision metadata_type.
Proof. solve_decision. Defined.

(** [struct metadata_value]; [md_value] is the memory [value] points to. *)
Record metadata_value := mk_value {
  md_type : metadata_type;
  md_value : option (list Z);
  md_update_index : Z;
}.

(** A C string in memory, with its terminator. *)
Definition stored (s : cstring) : list Z := s ++ [0].

Definition lookup_type (type_name : cstring) : res metadata_type :=
  if bool_decide (type_name = bytes_of "string") then OK METADATA_STRING
  else if bool_decide (type_name = bytes_of "multiline") then OK METADATA_MULTILINE
  else if bool_decide (type_name = bytes_of "constant") then OK METADATA_CONSTANT
  else fail "Invalid metadata type".

(** A string written by [strdup]. *)
Definition parse_metadata_constant : parser (list Z) :=
  _ ← parse_whitespace;
  _ ← parse_char (Ascii.ascii_of_nat 61);
  string ← parse_utf8_string;
  mret (stored string).

(** The lines of a multi-line value: strings up to an empty one, or until the
    end of the buffer is passed. *)
Fixpoint stored_lines (fuel : nat) (buffer : list Z) : outcome (list cstring) :=
  match fuel with
  | O => Undef
  | S fuel' =>
      _ ← in_range (bool_decide (0 ∈ buffer));
      let string := c_str buffer in
      if bool_decide (string = []) then Ret []
      else lines ← stored_lines fuel' (drop (length string + 1) buffer); Ret (string :: lines)
  end.

Section metadata.
Context `{Platform} {T : Type} `{!StringTable nat T}.

(** [metadata_map] and the values its entries point to. *)
Record metadata := mk_metadata {
  metadata_map : T;
  md_values : list metadata_value;
}.
Definition set_value (m : metadata) (ix : nat) (v : metadata_value) : metadata :=
  mk_metadata (metadata_map m) (<[ix := v]> (md_values m)).
Definition initialise_metadata : metadata := mk_metadata st_create [].

Definition add_metadata_key (m : metadata) (key line : cstring) : outcome (error__t * metadata * cstring) :=
  match (type_name ← parse_name MAX_NAME_LENGTH; lift (lookup_type type_name)) line with
  | (Err e, rest) => Ret (Some e, m, rest)
  | (OK type, rest) =>
      let '(value, rest) :=
        if bool_decide (type = METADATA_CONSTANT)
        then let '(r, rest) := parse_metadata_constant rest in
             ((match r with OK s => OK (mk_value type (Some s) 0) | Err e => Err e end), rest)
        else (OK (mk_value type None 1), rest) in
      match value with
      | Err e => Ret (Some e, m, rest)
      | OK v =>
          '(old, map) ← Enums.call (st_insert (metadata_map m) key (Some (length (md_values m))));
          Ret (TEST_OK_ (bool_decide (old = None)) "Metadata key repeated",
               mk_metadata map (md_values m ++ [v]), rest)
      end
  end.

(** [hash_table_lookup]: the entry a key points to. *)
Definition lookup_key (m : metadata) (key : cstring) : outcome (option (nat * metadata_value)) :=
  '(_, ix) ← Enums.call (st_lookup_bool (metadata_map m) key);
  match ix with
  | None => Ret None
  | Some ix => v ← Capture.at_index (md_values m) ix; Ret (Some (ix, v))
  end.

Definition get_metadata_keys (m : metadata) : list cstring := (st_walk (metadata_map m)).*1.

(** [format_value]: many lines, or one that fits [length_]. *)
Definition value_text (v : metadata_value) : outcome cstring :=
  match md_value v with
  | None => Ret []
  | Some buffer => _ ← in_range (bool_decide (0 ∈ buffer)); Ret (c_str buffer)
  end.
Definition format_value (v : metadata_value) (length_ : nat) : outcome (res cstring + list cstring) :=
  match md_type v with
  | METADATA_MULTILINE =>
      inr <$> match md_value v with None => Ret [] | Some buffer => stored_lines (length buffer) buffer end
  | METADATA_STRING | METADATA_CONSTANT => text ← value_text v; Ret (inl (format_string length_ text))
  end.
Definition get_metadata_value (m : metadata) (key : cstring) (length_ : nat) : outcome (res cstring + list cstring) :=
  v ← lookup_key m key;
  match v with
  | None => Ret (inl (fail "Metadata key not found"))
  | Some (_, v) => format_value v length_
  end.

(** [put_metadata_value], with the counter of change indices. *)
Definition put_metadata_value (m : metadata) (g : Z) (key string : cstring) : outcome (error__t * metadata * Z) :=
  v ← lookup_key m key;
  match v with
  | None => Ret (TEST_OK_ false "Metadata key not found", m, g)
  | Some (ix, v) =>
      match TEST_OK_ (bool_decide (md_type v = METADATA_STRING)) "Cannot write to this field" with
      | Some e => Ret (Some e, m, g)
      | None =>
          let g := get_change_index g in
          Ret (None, set_value m ix (mk_value (md_type v) (Some (stored string)) g), g)
      end
  end.

(** ** Many lines *)

(** [struct multiline_writer]: [text] has room for [max_length] bytes, of which
    those written are kept; [wr_value] is the entry written to. *)
Record multiline_writer := mk_multiline {
  wr_value : nat;
  text : list Z;
  max_length : nat;
}.

Definition append_string (w : multiline_writer) (string : cstring) : outcome multiline_writer :=
  let line_length := (length string + 1)%nat in
  let max := if bool_decide (max_length w < length (text w) + line_length)%nat
             then Nat.max MIN_LENGTH (2 * max_length w) else max_length w in
  _ ← in_range (bool_decide (length (text w) + line_length ≤ max)%nat);
  Ret (mk_multiline (wr_value w) (text w ++ stored string) max).

(** The state of a table command: the metadata, the counter and the writer; [None]
    once the writer has been freed. *)
Definition put_state : Type := metadata * Z * option multiline_writer.

Definition write_multiline_put (s : put_state) (line : cstring) : outcome (error__t * put_state) :=
  match (parse_utf8_string line).1 with
  | Err e => Ret (Some e, s)
  | OK string =>
      w ← Enums.call s.2;
      w ← append_string w string;
      Ret (None, (s.1, Some w))
  end.
Definition close_multiline_put (s : put_state) (write_ok : bool) : outcome (error__t * put_state) :=
  w ← Enums.call s.2;
  if write_ok then
    w ← append_string w [];
    v ← Capture.at_index (md_values s.1.1) (wr_value w);
    let g := get_change_index s.1.2 in
    Ret (None, (set_value s.1.1 (wr_value w) (mk_value (md_type v) (Some (text w)) g), g, None))
  else Ret (None, (s.1, None)).

Definition metadata_writer : put_table_writer put_state := mk_writer write_multiline_put close_multiline_put.

Definition put_metadata_table (m : metadata) (g : Z) (key : cstring) : outcome (error__t * put_state) :=
  v ← lookup_key m key;
  match v with
  | None => Ret (TEST_OK_ false "Metadata key not found", (m, g, None))
  | Some (ix, v) =>
      match TEST_OK_ (bool_decide (md_type v = METADATA_MULTILINE)) "Not a multi-line field" with
      | Some e => Ret (Some e, (m, g, None))
      | None => Ret (None, (m, g, Some (mk_multiline ix [] 0)))
      end
  end.

(** ** Change reports *)

Definition entries (m : metadata) : list (cstring * metadata_value) :=
  omap (λ p, ix ← p.2; v ← md_values m !! ix; Some (p.1, v)) (st_walk (metadata_map m)).
Definition check_metadata_change_set (m : metadata) (report_index : Z) : bool :=
  existsb (λ p, changed_since report_index (md_update_index p.2)) (entries m).

(** One entry of [generate_metadata_change_set]: [snprintf] cuts the text of a string
    short. *)
Definition report_entry (print_table : bool) (p : cstring * metadata_value) : outcome (list cstring) :=
  let prefix := bytes_of "*METADATA." ++ p.1 in
  match md_type p.2 with
  | METADATA_MULTILINE =>
      let head := prefix ++ [60] in
      if print_table then
        lines ← match md_value p.2 with None => Ret [] | Some buffer => stored_lines (length buffer) buffer end;
        Ret (head :: lines ++ [[]])
      else Ret [head]
  | METADATA_STRING => text ← value_text p.2; Ret [take (MAX_RESULT_LENGTH - 1) (prefix ++ [61] ++ text)]
  | METADATA_CONSTANT => Ret []
  end.
Definition generate_metadata_change_set (m : metadata) (report_index : Z) (print_table : bool) : outcome (list cstring) :=
  concat (A := cstring) <$> mapM (report_entry print_table)
    (filter (λ p, changed_since report_index (md_update_index p.2) = true) (entries m)).

End metadata.

(** ** The buffer of a multi-line value *)

Section lines.
Context `{Platform} {T : Type} `{!StringTable nat T}.

(** A line a table command can carry. *)
Definition line_ok (line : cstring) : Prop :=
  cstring_wf line ∧ line ≠ [] ∧ (length line < MAX_LINE_LENGTH)%nat ∧ is_ok (parse_utf8_string line).1 = true.

Lemma cstring_wf_nonzero s : cstring_wf s → Forall (λ c, c ≠ 0) s.
Proof. intros Hs. eapply Forall_impl; [exact Hs|]. cbn. lia. Qed.

Lemma c_str_stored s rest : cstring_wf s → c_str (stored s ++ rest) = s.
Proof.
  intros Hs. unfold stored. rewrite <-app_assoc. apply c_str_terminated. by apply cstring_wf_nonzero.
Qed.

(** The buffer the writer makes is read back as the lines. *)
Lemma stored_lines_concat lines fuel : Forall (λ l, cstring_wf l ∧ l ≠ []) lines → (length lines < fuel)%nat →
  stored_lines fuel (concat (stored <$> lines) ++ [0]) = Ret lines.
Proof.
  intros Hl. revert fuel. induction Hl as [|l lines [Hwf Hne] _ IH]; intros fuel Hf;
    (destruct fuel as [|fuel]; [simpl in Hf; lia|]).
  - done.
  - simpl in Hf. cbn [fmap list_fmap concat stored_lines]. rewrite <-app_assoc.
    rewrite (bool_decide_true (0 ∈ _)) by (unfold stored; rewrite !elem_of_app, list_elem_of_singleton; auto). cbn [mbind outcome_bind in_range].
    rewrite c_str_stored by done. rewrite bool_decide_false by done.
    rewrite drop_app_length' by (unfold stored; by rewrite length_app).
    rewrite IH by lia. done.
Qed.

(** The room of the writer: what is written fits, and the next line will. *)
Definition writer_ok (w : multiline_writer) : Prop :=
  (length (text w) ≤ max_length w)%nat ∧ (max_length w = 0 ∨ MIN_LENGTH ≤ max_length w)%nat.

Lemma append_string_ok w string : writer_ok w → (length string < MAX_LINE_LENGTH)%nat →
  ∃ w', append_string w string = Ret w' ∧ writer_ok w' ∧ wr_value w' = wr_value w ∧ text w' = text w ++ stored string.
Proof.
  intros [Hl Hm] Hs. unfold append_string. unfold MAX_LINE_LENGTH, MIN_LENGTH in *.
  set (max := if bool_decide _ then _ else _).
  assert (length (text w) + (length string + 1) ≤ max ∧ 1024 ≤ max)%nat as [H1 H2].
  { unfold max, MIN_LENGTH. case_bool_decide; lia. }
  rewrite bool_decide_true by done. eexists. split; [done|]. split; [|done].
  split; cbn; [unfold stored; rewrite !length_app; simpl; lia|right; exact H2].
Qed.

Lemma write_lines (m : metadata (T := T)) g w lines rest : writer_ok w → Forall line_ok lines →
  ∃ w', do_put_table (metadata_writer (T := T)) (m, g, Some w) None (lines ++ [] :: rest) = Ret (None, (m, g, Some w'), rest) ∧
    writer_ok w' ∧ wr_value w' = wr_value w ∧ text w' = text w ++ concat (stored <$> lines).
Proof.
  intros Hw Hl. revert w Hw. induction Hl as [|line lines (Hwf & Hne & Hlen & Hutf) _ IH]; intros w Hw.
  - exists w. cbn. by rewrite app_nil_r.
  - cbn [app do_put_table]. rewrite bool_decide_false.
    2:{ destruct line as [|c line]; [done|]. simpl. apply Forall_cons in Hwf as [? _]. lia. }
    cbn [w_write metadata_writer]. unfold write_multiline_put.
    assert (parse_utf8_string line = (OK line, utf8_end line)) as ->.
    { revert Hutf. unfold parse_utf8_string, test_ok, TEST_OK_. by case_bool_decide. }
    cbn [fst snd Enums.call mbind outcome_bind].
    destruct (append_string_ok w line Hw Hlen) as (w1 & -> & Hw1 & Hv1 & Ht1). cbn [mbind outcome_bind].
    destruct (IH w1 Hw1) as (w' & -> & Hw' & Hv' & Ht'). exists w'. split; [done|]. split; [done|].
    split; [congruence|]. rewrite Ht', Ht1. cbn. by rewrite <-app_assoc.
Qed.

(** A key of the table, and a change of its value. *)
Lemma lookup_key_found (m : metadata (T := T)) key ix v :
  st_wf (metadata_map m) → st_map (metadata_map m) !! key = Some (Some ix) → md_values m !! ix = Some v →
  lookup_key m key = Ret (Some (ix, v)).
Proof.
  intros Hwf Hkey Hv. unfold lookup_key. rewrite (st_lookup_ok _ key Hwf), Hkey. cbn. by rewrite (Capture.at_index_some _ _ _ Hv).
Qed.
Lemma change_reported (m : metadata (T := T)) key ix v g :
  st_wf (metadata_map m) → st_map (metadata_map m) !! key = Some (Some ix) → md_values m !! ix = Some v →
  g < md_update_index v → check_metadata_change_set m g = true.
Proof.
  intros Hwf Hkey Hv Hg. unfold check_metadata_change_set. apply existsb_exists. exists (key, v). split.
  - apply list_elem_of_In, list_elem_of_omap. exists (key, Some ix). split; [|cbn; by rewrite Hv].
    rewrite (st_walk_ok _ Hwf). by apply elem_of_map_to_list.
  - unfold changed_since. by apply bool_decide_eq_true_2.
Qed.

(** A string is stored, and read back. *)
Lemma put_metadata_value_ok (m : metadata (T := T)) g key ix v string :
  st_wf (metadata_map m) → st_map (metadata_map m) !! key = Some (Some ix) → md_values m !! ix = Some v →
  md_type v = METADATA_STRING → 0 ≤ g < 2 ^ 64 - 1 → cstring_wf string →
  ∃ m', put_metadata_value m g key string = Ret (None, m', g + 1) ∧ check_metadata_change_set m' g = true ∧
    ∀ length_, get_metadata_value m' key length_ = Ret (inl (format_string length_ string)).
Proof.
  intros Hwf Hkey Hv Htype Hg Hs. set (v' := mk_value (md_type v) (Some (stored string)) (g + 1)).
  assert (md_values (set_value m ix v') !! ix = Some v') as Hv' by (apply list_lookup_insert_eq; by eapply lookup_lt_Some).
  exists (set_value m ix v'). unfold put_metadata_value. rewrite (lookup_key_found m key ix v Hwf Hkey Hv). cbn [mbind outcome_bind].
  rewrite bool_decide_true by done. cbn [TEST_OK_]. replace (get_change_index g) with (g + 1) by (symmetry; apply wrap_small; lia).
  split; [done|]. split; [apply (change_reported _ key ix v'); cbn; done || lia|].
  intros length_. unfold get_metadata_value. rewrite (lookup_key_found (set_value m ix v') key ix v') by done.
  cbn [mbind outcome_bind]. unfold format_value. cbn [md_type v']. rewrite Htype. unfold value_text. cbn [md_value v'].
  rewrite bool_decide_true by (unfold stored; set_solver). cbn [in_range mbind outcome_bind].
  rewrite <-(app_nil_r (stored string)), c_str_stored by done. done.
Qed.

(** The lines a table command gives to a multi-line key are stored without ever
    leaving the buffer, and reading the key returns exactly these lines; the
    change is reported. *)
Theorem metadata_roundtrip m g key ix v lines rest length_ :
  st_wf (metadata_map m) → st_map (metadata_map m) !! key = Some (Some ix) → md_values m !! ix = Some v →
  md_type v = METADATA_MULTILINE → Forall line_ok lines → 0 ≤ g < 2 ^ 64 - 1 →
  ∃ s s' m', put_metadata_table m g key = Ret (None, s) ∧
    do_put_table (metadata_writer (T := T)) s None (lines ++ [] :: rest) = Ret (None, s', rest) ∧
    close_multiline_put s' true = Ret (None, (m', g + 1, None)) ∧
    get_metadata_value m' key length_ = Ret (inr lines) ∧ check_metadata_change_set m' g = true.
Proof.
  intros Hwf Hkey Hv Htype Hlines Hg.
  unfold put_metadata_table. rewrite (lookup_key_found m key ix v Hwf Hkey Hv). cbn [mbind outcome_bind].
  rewrite bool_decide_true by done. cbn [TEST_OK_].
  destruct (write_lines m g (mk_multiline ix [] 0) lines rest) as (w & Hput & Hw & Hix & Htext);
    [split; [done|by left]|done|].
  destruct (append_string_ok w [] Hw) as (w2 & Happ & _ & Hix2 & Htext2); [cbn; unfold MAX_LINE_LENGTH; lia|].
  set (v' := mk_value (md_type v) (Some (concat (stored <$> lines) ++ [0])) (g + 1)).
  do 2 eexists. exists (set_value m ix v'). split; [done|]. split; [exact Hput|].
  assert (ix < length (md_values m))%nat as Hlt by (by eapply lookup_lt_Some).
  assert (get_change_index g = g + 1) as Hgi by (apply wrap_small; lia).
  split; [|split].
  - unfold close_multiline_put. cbn [fst snd Enums.call mbind outcome_bind]. rewrite Happ. cbn [mbind outcome_bind].
    rewrite Hix2, Hix. cbn [wr_value]. rewrite (Capture.at_index_some _ _ _ Hv). cbn [mbind outcome_bind].
    rewrite Hgi, Htext2, Htext. done.
  - unfold get_metadata_value. rewrite (lookup_key_found (set_value m ix v') key ix v') by (done || by apply list_lookup_insert_eq).
    cbn [mbind outcome_bind]. unfold format_value. cbn [md_type v' md_value]. rewrite Htype.
    rewrite stored_lines_concat; [done| |].
    + eapply Forall_impl; [exact Hlines|]. intros l (? & ? & _). done.
    + rewrite length_app. clear. induction lines as [|l lines IH]; [simpl; lia|].
      cbn [fmap list_fmap concat]. unfold stored in *. rewrite !length_app in *. simpl in *. lia.
  - apply (change_reported _ key ix v'); [done..|by apply list_lookup_insert_eq|cbn; lia].
Qed.
End lines.

(** ** A concrete key *)

Definition example_metadata : metadata (T := HashTable.hash_table (K := cstring) (V := nat)) :=
  match @add_metadata_key AARCH64 _ (@keep_string_table AARCH64 nat)
          (@initialise_metadata AARCH64 _ (@keep_string_table AARCH64 nat)) (bytes_of "DESIGN") (bytes_of "multiline") with
  | Ret (_, m, _) => m
  | _ => @initialise_metadata AARCH64 _ (@keep_string_table AARCH64 nat)
  end.

Lemma metadata_roundtrip_witness : ∃ s s' m',
  @put_metadata_table AARCH64 _ (@keep_string_table AARCH64 nat) example_metadata 8 (bytes_of "DESIGN") = Ret (None, s) ∧
  do_put_table metadata_writer s None [bytes_of "first"; bytes_of "second"; []] = Ret (None, s', []) ∧
  close_multiline_put s' true = Ret (None, (m', 9, None)) ∧
  @get_metadata_value AARCH64 _ (@keep_string_table AARCH64 nat) m' (bytes_of "DESIGN") 256 =
    Ret (inr [bytes_of "first"; bytes_of "second"]).
Proof.
  destruct (@metadata_roundtrip AARCH64 _ (@keep_string_table AARCH64 nat) example_metadata 8 (bytes_of "DESIGN") 0
    (mk_value METADATA_MULTILINE None 1) [bytes_of "first"; bytes_of "second"] [] 256)
    as (s & s' & m' & H1 & H2 & H3 & H4 & _);
    [|by vm_compute|by vm_compute|done|by repeat constructor; try (vm_compute; congruence)|lia|].
  - destruct (@st_create_ok AARCH64 _ _ (@keep_string_table AARCH64 nat)) as [Hwf Hmap].
    destruct (@st_insert_ok AARCH64 _ _ (@keep_string_table AARCH64 nat) _ (bytes_of "DESIGN") (Some 0%nat) Hwf)
      as (t & E & Ht & _); [rewrite Hmap; by vm_compute|].
    assert (metadata_map example_metadata = t) as -> by (vm_compute in E; injection E as <-; by vm_compute). exact Ht.
  - exists s, s', m'. split; [exact H1|]. split; [exact H2|]. split; [exact H3|exact H4].
Defined.

End Metadata.
