(* ===== verification/Fields.v ===== *)
(** * Blocks, fields and classes: panda-server/server/fields.c, fields.h

    Blocks have fields, fields have a class: the table of functions that
    [struct class_methods] is.  Here are the registers in use, the lookups,
    the commands on a field and the walk over all fields that makes a change
    report.  A class is a record of operations on a state [W], the state of all
    classes together; the functions a class does not have are absent, as in the
    source. *)

From S2P Require Import Prelude Errors Parse Format HashTable HashTableSpec Enums StdDev Capture Changes Table Metadata Mux Hardware.
From stdpp Require Import base numbers list list_numbers gmap option strings pretty.
Open Scope Z_scope.

Module Fields.
Import Parse Format Capture Changes Hardware.

(** ** Registers in use *)

(** [block_types_used]. *)
Record block_type := mk_block_type {
  bt_used : bool;
  bt_shared : bool;
  reg_used : list Z;
}.
Definition unused_block_type : block_type := mk_block_type false false (replicate (Z.to_nat (BLOCK_REGISTER_COUNT / 32)) 0).
Definition initial_block_types : list block_type := replicate (Z.to_nat BLOCK_TYPE_COUNT) unused_block_type.

Section registers.
Context `{Platform}.

(** The mark of a register: its word and its bit. *)
Definition reg_marked (words : list Z) (reg : Z) : outcome bool :=
  w ← at_index words (Z.to_nat (reg / 32));
  Ret (bool_decide (Z.land w (Z.shiftl 1 (reg mod 32)) ≠ 0)).
Definition mark_reg (words : list Z) (reg : Z) : outcome (list Z) :=
  w ← at_index words (Z.to_nat (reg / 32));
  Ret (<[Z.to_nat (reg / 32) := Z.lor w (Z.shiftl 1 (reg mod 32))]> words).

(** [check_parse_register], for a block whose base is [base]. *)
Definition check_parse_register (types : list block_type) (base : Z) (line : cstring)
    : outcome (res Z * list block_type * cstring) :=
  match TEST_OK_ (bool_decide (base ≠ INVALID_REGISTER) && bool_decide (base ≠ UNASSIGNED_REGISTER))
          "Cannot assign hardware register to this block" with
  | Some e => Ret (Err e, types, line)
  | None =>
      match parse_uint line with
      | (Err e, rest) => Ret (Err e, types, rest)
      | (OK reg, rest) =>
          match TEST_OK_ (bool_decide (reg < BLOCK_REGISTER_COUNT)) "Register value too large" with
          | Some e => Ret (Err e, types, rest)
          | None =>
              t ← at_index types (Z.to_nat base);
              marked ← reg_marked (reg_used t) reg;
              match TEST_OK_ (negb marked) ("Register " +:+ pretty reg +:+ " already in use") with
              | Some e => Ret (Err e, types, rest)
              | None =>
                  words ← mark_reg (reg_used t) reg;
                  Ret (OK reg, <[Z.to_nat base := mk_block_type (bt_used t) (bt_shared t) words]> types, rest)
              end
          end
      end
  end.

(** [parse_block_set_register] up to the extension: the new base. *)
Definition parse_block_base (types : list block_type) (base : Z) (line : cstring)
    : outcome (res Z * list block_type * cstring) :=
  match TEST_OK_ (bool_decide (base = UNASSIGNED_REGISTER)) "Register already assigned" with
  | Some e => Ret (Err e, types, line)
  | None =>
      let '(none, line) := read_char 88 line in
      if none then Ret (OK INVALID_REGISTER, types, line)
      else
        let '(shared, line) := read_char 83 line in
        match (b ← parse_uint; _ ← lift (test_ok (bool_decide (b < BLOCK_TYPE_COUNT)) "Block base too large"); mret b) line with
        | (Err e, rest) => Ret (Err e, types, rest)
        | (OK b, rest) =>
            t ← at_index types (Z.to_nat b);
            if bt_used t then
              Ret (_ ← test_ok (shared && bt_shared t) ("Block base " +:+ pretty b +:+ " already assigned and not shared"); mret b,
                   types, rest)
            else Ret (OK b, <[Z.to_nat b := mk_block_type true shared (reg_used t)]> types, rest)
        end
  end.
End registers.

(** ** Classes *)

(** The state commands work on: the counter of change indices, the attributes, and
    [C], the state of all classes together. *)
Record state (C : Type) := mk_state {
  change_index : Z;
  attrs : list attr;
  class_state : C;
}.
#[global] Arguments mk_state {C}.
#[global] Arguments change_index {C}.
#[global] Arguments attrs {C}.
#[global] Arguments class_state {C}.

Definition MAX_RESULT_LENGTH : nat := 256.

(** What a read returns: one line, or many, which have been written by then. *)
Inductive response := RESPONSE_ONE (line : cstring) | RESPONSE_MANY.
Definition reply : Type := list cstring * res response.

Section classes.
Context {C : Type}.
Abbreviation W := (state C).

(** [struct class_methods]; [data] is the pointer to the data of a field.  A read
    is given the number of the instance and the room for its text. *)
Record class_methods := mk_class {
  cm_name : cstring;
  cm_finalise : option (W → nat → outcome (error__t * W));
  cm_describe : W → nat → option cstring;
  cm_get : option (W → nat → nat → nat → outcome (res cstring * W));
  cm_get_many : option (W → nat → nat → outcome (error__t * list cstring * W));
  cm_put : option (W → nat → nat → cstring → outcome (error__t * W));
  cm_put_table : option (W → nat → nat → bool → bool → bool → outcome (error__t * W * Table.put_table_writer W));
  cm_get_subfield : option (W → nat → cstring → outcome (option nat));
  cm_refresh : option (W → nat → nat → outcome W);
  cm_change_set : option (W → nat → Z → outcome (list bool * W));
  cm_change_set_index : nat;
}.

(** [struct attr_methods]; the data of an attribute is in the closures. *)
Record attr_methods := mk_attr_methods {
  am_name : cstring;
  am_format : option (W → nat → nat → outcome (res cstring * W));
  am_get_many : option (W → nat → outcome (error__t * list cstring * W));
  am_put : option (W → nat → cstring → outcome (error__t * W));
}.

(** [struct field] and [struct block]; the hash tables refer to positions in the
    lists of all attributes, all fields and all blocks. *)
Record field (TA : Type) := mk_field {
  fd_block : nat;
  fd_name : cstring;
  fd_methods : class_methods;
  fd_sequence : Z;
  fd_description : option cstring;
  fd_attrs : TA;
  fd_class_data : nat;
  fd_initialised : bool;
}.
Record block (TF : Type) := mk_block {
  b_name : cstring;
  b_count : Z;
  b_base : Z;
  b_fields : TF;
  b_description : option cstring;
}.
End classes.
#[global] Arguments mk_field {C TA}.
#[global] Arguments fd_block {C TA}.
#[global] Arguments fd_name {C TA}.
#[global] Arguments fd_methods {C TA}.
#[global] Arguments fd_sequence {C TA}.
#[global] Arguments fd_description {C TA}.
#[global] Arguments fd_attrs {C TA}.
#[global] Arguments fd_class_data {C TA}.
#[global] Arguments fd_initialised {C TA}.
#[global] Arguments mk_block {TF}.
#[global] Arguments b_name {TF}.
#[global] Arguments b_count {TF}.
#[global] Arguments b_base {TF}.
#[global] Arguments b_fields {TF}.
#[global] Arguments b_description {TF}.

Section database.
Context `{Platform} {C T : Type} `{!StringTable nat T}.
Abbreviation W := (state C).
Abbreviation class_methods := (class_methods (C := C)).
Abbreviation attr_methods := (attr_methods (C := C)).
Abbreviation field := (field (C := C) T).
Abbreviation block := (block T).

Record database := mk_database {
  block_map : T;
  blocks : list block;
  all_fields : list field;
  all_attrs : list attr_methods;
}.

(** [lookup_block], [lookup_field] and [lookup_attr]. *)
Definition lookup_block (db : database) (name : cstring) : outcome (res nat) :=
  '(_, ix) ← Enums.call (st_lookup_bool (block_map db) name);
  Ret (match ix with Some i => OK i | None => fail "No such block" end).
Definition lookup_field (b : block) (name : cstring) : outcome (res nat) :=
  '(_, ix) ← Enums.call (st_lookup_bool (b_fields b) name);
  Ret (match ix with Some i => OK i | None => fail "No such field" end).
Definition lookup_attr (f : field) (name : cstring) : outcome (res nat) :=
  '(_, ix) ← Enums.call (st_lookup_bool (fd_attrs f) name);
  Ret (match ix with Some i => OK i | None => fail "No such attribute" end).

(** [create_block]. *)
Definition create_block (db : database) (name : cstring) (count : Z) : outcome (error__t * nat * database) :=
  let ix := length (blocks db) in
  '(old, map) ← Enums.call (st_insert (block_map db) name (Some ix));
  Ret (TEST_OK_ (bool_decide (old = None)) "Block already exists", ix,
       mk_database map (blocks db ++ [mk_block name count UNASSIGNED_REGISTER st_create None])
         (all_fields db) (all_attrs db)).

Definition set_b_fields (b : block) (t : T) : block :=
  mk_block (b_name b) (b_count b) (b_base b) t (b_description b).

(** [create_field] once the class has made its data and its attributes:
    [create_field_block] and the insertion. *)
Definition insert_field (db : database) (bix : nat) (name : cstring) (methods : class_methods) (attr_map : T)
    (class_data : nat) : outcome (error__t * database) :=
  b ← at_index (blocks db) bix;
  let field := mk_field bix name methods (u32 (st_count (b_fields b))) None attr_map class_data false in
  let ix := length (all_fields db) in
  '(old, t) ← Enums.call (st_insert (b_fields b) name (Some ix));
  Ret (TEST_OK_ (bool_decide (old = None)) "Field already exists",
       mk_database (block_map db) (<[bix := set_b_fields b t]> (blocks db)) (all_fields db ++ [field]) (all_attrs db)).

(** ** Reading and writing a field *)

Definition one_response (x : res cstring * W) : reply * W :=
  (([], match x.1 with OK l => OK (RESPONSE_ONE l) | Err e => Err e end), x.2).
Definition many_response (x : error__t * list cstring * W) : reply * W :=
  ((x.1.2, match x.1.1 with None => OK RESPONSE_MANY | Some e => Err e end), x.2).

Definition field_refresh (w : W) (f : field) (number : nat) : outcome W :=
  match cm_refresh (fd_methods f) with Some refresh => refresh w (fd_class_data f) number | None => Ret w end.
Definition field_get (w : W) (f : field) (number length_ : nat) : outcome (reply * W) :=
  w ← field_refresh w f number;
  match cm_get (fd_methods f), cm_get_many (fd_methods f) return outcome (reply * W) with
  | Some get, _ => one_response <$> get w (fd_class_data f) number length_
  | None, Some get_many => many_response <$> get_many w (fd_class_data f) number
  | None, None => Ret (([], fail "Field not readable"), w)
  end.

Definition field_put (w : W) (f : field) (number : nat) (string : cstring) : outcome (error__t * W) :=
  match cm_put (fd_methods f) with
  | None => Ret (TEST_OK_ false "Field not writeable", w)
  | Some put => put w (fd_class_data f) number string
  end.

Definition field_put_table (w : W) (f : field) (number : nat) (streaming_mode last_table binary : bool)
    : outcome (error__t * W * Table.put_table_writer W) :=
  match cm_put_table (fd_methods f) with
  | None => Ret (TEST_OK_ false "Field is not a table", w, Table.dummy_table_writer)
  | Some put_table => put_table w (fd_class_data f) number streaming_mode last_table binary
  end.

(** [lookup_table_subfield]. *)
Definition lookup_table_subfield (w : W) (f : field) (name : cstring) : outcome (res nat) :=
  match cm_get_subfield (fd_methods f) with
  | None => Ret (fail "Field is not a table")
  | Some get_subfield =>
      ix ← get_subfield w (fd_class_data f) name;
      Ret (match ix with Some i => OK i | None => fail "Table sub-field not found" end)
  end.

(** [field_list_get] and [attr_list_get]: the names, in the order of the tables. *)
Definition describe_field (w : W) (f : field) (length_ : nat) : res cstring :=
  format_string length_ (cm_name (fd_methods f) ++
    match cm_describe (fd_methods f) w (fd_class_data f) with Some extra => [32] ++ extra | None => [] end).
Definition field_line (db : database) (w : W) (ix : nat) : outcome cstring :=
  f ← at_index (all_fields db) ix;
  let head := fd_name f ++ [32] ++ fmt_u (fd_sequence f) ++ [32] in
  match describe_field w f (MAX_RESULT_LENGTH - length head)%nat with
  | OK text => Ret (head ++ text)
  | Err _ => Panic
  end.
Definition walk (t : T) : list nat := omap snd (st_walk t).
Definition field_list_get (db : database) (w : W) (b : block) : outcome (list cstring) :=
  mapM (field_line db w) (walk (b_fields b)).
Definition attr_list_get (f : field) : list cstring := (st_walk (fd_attrs f)).*1.
Definition block_list_get (db : database) : outcome (list cstring) :=
  mapM (λ ix, b ← at_index (blocks db) ix; Ret (b_name b ++ [32] ++ fmt_d (to_signed 32 (b_count b)))) (walk (block_map db)).

(** ** Attributes: attributes.c *)

Definition attr_get (w : W) (a : attr_methods) (number length_ : nat) : outcome (reply * W) :=
  match am_format a, am_get_many a return outcome (reply * W) with
  | Some format, _ => one_response <$> format w number length_
  | None, Some get_many => many_response <$> get_many w number
  | None, None => Ret (([], fail "Attribute not readable"), w)
  end.

Definition notify_attr (w : W) (ix number : nat) : outcome W :=
  a ← at_index (attrs w) ix;
  let '(a, g) := attr_changed a number (change_index w) in
  Ret (mk_state g (<[ix := a]> (attrs w)) (class_state w)).
Definition attr_put (db : database) (w : W) (ix number : nat) (value : cstring) : outcome (error__t * W) :=
  a ← at_index (all_attrs db) ix;
  match am_put a with
  | None => Ret (TEST_OK_ false "Attribute not writeable", w)
  | Some put =>
      '(error, w) ← put w number value;
      match error with
      | Some _ => Ret (error, w)
      | None => w ← notify_attr w ix number; Ret (None, w)
      end
  end.

(** The texts [get_attr_change_set] compares: only those of a polled attribute are
    formatted.  When the format fails the code compares a buffer that holds
    nothing. *)
Fixpoint poll_texts (a : attr_methods) (w : W) (numbers : list nat) : outcome (list cstring * W) :=
  match numbers with
  | [] => Ret ([], w)
  | i :: numbers =>
      format ← Enums.call (am_format a);
      '(r, w) ← format w i MAX_RESULT_LENGTH;
      text ← match r with OK text => Ret text | Err _ => Undef end;
      '(texts, w) ← poll_texts a w numbers;
      Ret (text :: texts, w)
  end.
Definition attr_changes (db : database) (w : W) (ix : nat) (report_index : Z) : outcome (list bool * W) :=
  m ← at_index (all_attrs db) ix;
  a ← at_index (attrs w) ix;
  '(texts, w) ←
    (if a_polled a then poll_texts m w (seq 0 (length (a_update_index a)))
     else Ret (replicate (length (a_update_index a)) [], w));
  let '(a, changes) := get_attr_change_set a report_index texts in
  Ret (changes, mk_state (change_index w) (<[ix := a]> (attrs w)) (class_state w)).

(** ** Change reports *)

Definition CHANGES_ATTR : Z := Z.shiftl 1 (Z.of_nat CHANGE_IX_ATTR).
Definition CHANGES_BITS : Z := Z.shiftl 1 (Z.of_nat CHANGE_IX_BITS).
Definition CHANGES_POSITION : Z := Z.shiftl 1 (Z.of_nat CHANGE_IX_POSITION).
Definition CHANGES_TABLE : Z := Z.shiftl 1 (Z.of_nat CHANGE_IX_TABLE).
Definition CHANGES_METADATA : Z := Z.shiftl 1 (Z.of_nat CHANGE_IX_METADATA).
Definition includes (change_set flag : Z) : bool := bool_decide (Z.land change_set flag ≠ 0).

(** The line of a report: the text, or after [handle_error_report] the mark of an
    error over the suffix, cut short where the buffer ends. *)
Definition report_line (prefix : cstring) (r : res cstring) : cstring :=
  match r with
  | OK text => prefix ++ text
  | Err _ =>
      let name := take (length prefix - 1) prefix in
      name ++ take (MAX_RESULT_LENGTH - length name - 1) (bytes_of " (error)")
  end.
Definition field_label (b : block) (f : field) : Mux.field := Mux.mk_field (b_name b) (b_count b) (fd_name f).

Definition report_changed_value (b : block) (f : field) (w : W) (number : nat) : outcome (cstring * W) :=
  prefix ← Mux.format_field_name MAX_RESULT_LENGTH (field_label b f) None (Z.of_nat number) 61;
  match cm_get (fd_methods f) return outcome (cstring * W) with
  | None => Ret (report_line prefix (fail "Field not readable"), w)
  | Some get =>
      '(r, w) ← get w (fd_class_data f) number (MAX_RESULT_LENGTH - length prefix)%nat;
      Ret (report_line prefix r, w)
  end.

Definition report_changed_attr (b : block) (f : field) (a : attr_methods) (w : W) (number : nat) : outcome (cstring * W) :=
  prefix ← Mux.format_field_name MAX_RESULT_LENGTH (field_label b f) (Some (am_name a)) (Z.of_nat number) 61;
  '(r, w) ← attr_get w a number (MAX_RESULT_LENGTH - length prefix)%nat;
  Ret (report_line prefix (x ← r.2; match x with RESPONSE_ONE text => OK text | RESPONSE_MANY => fail EmptyString end), w).

(** The lines of a table in base 64, as far as its attribute [B] gives them. *)
Definition table_lines (db : database) (f : field) (w : W) (number : nat) : outcome (list cstring * W) :=
  ix ← lookup_attr f (bytes_of "B");
  match ix return outcome (list cstring * W) with
  | Err _ => Ret ([], w)
  | OK ix =>
      a ← at_index (all_attrs db) ix;
      '(r, w) ← attr_get w a number MAX_RESULT_LENGTH;
      Ret (r.1, w)
  end.
Definition report_changed_table (db : database) (print_table : bool) (b : block) (f : field) (w : W) (number : nat)
    : outcome (list cstring * W) :=
  prefix ← Mux.format_field_name MAX_RESULT_LENGTH (field_label b f) None (Z.of_nat number) 60;
  if print_table then
    '(lines, w) ← table_lines db f w number;
    Ret ((prefix ++ [66]) :: lines ++ [[]], w)
  else Ret ([prefix], w).

(** [get_field_change_set], for a block with [count] instances. *)
Definition get_field_change_set (w : W) (f : field) (count : nat) (change_set : Z) (report_index : list Z)
    : outcome (list bool * W) :=
  let ix := cm_change_set_index (fd_methods f) in
  match cm_change_set (fd_methods f) return outcome (list bool * W) with
  | Some cs =>
      if includes change_set (Z.shiftl 1 (Z.of_nat ix)) then
        report ← at_index report_index ix; cs w (fd_class_data f) report
      else Ret (replicate count false, w)
  | None => Ret (replicate count false, w)
  end.

(** The loops of a report: the lines of all elements, in order. *)
Fixpoint report_loop {A : Type} (step : W → A → outcome (list cstring * W)) (w : W) (l : list A)
    : outcome (list cstring * W) :=
  match l with
  | [] => Ret ([], w)
  | x :: l => '(lines, w) ← step w x; '(rest, w) ← report_loop step w l; Ret (lines ++ rest, w)
  end.
Definition changed_numbers (count : nat) (changes : list bool) : list nat :=
  filter (λ i, changes !! i = Some true) (seq 0 count).
Definition one_line (x : cstring * W) : list cstring * W := ([x.1], x.2).

(** [generate_attr_change_sets]. *)
Definition report_attr (db : database) (b : block) (f : field) (report : Z) (w : W) (ix : nat)
    : outcome (list cstring * W) :=
  a ← at_index (all_attrs db) ix;
  '(changes, w) ← attr_changes db w ix report;
  report_loop (λ w n, one_line <$> report_changed_attr b f a w n) w (changed_numbers (Z.to_nat (b_count b)) changes).

(** The body of the loop over fields. *)
Definition report_field (db : database) (change_set : Z) (report_index : list Z) (print_tables : bool) (b : block)
    (w : W) (fix_ : nat) : outcome (list cstring * W) :=
  f ← at_index (all_fields db) fix_;
  let count := Z.to_nat (b_count b) in
  '(changes, w) ← get_field_change_set w f count (Z.land change_set (Z.lnot CHANGES_TABLE)) report_index;
  '(values, w) ← report_loop (λ w n, one_line <$> report_changed_value b f w n) w (changed_numbers count changes);
  '(changes, w) ← get_field_change_set w f count (Z.land change_set CHANGES_TABLE) report_index;
  '(tables, w) ← report_loop (report_changed_table db print_tables b f) w (changed_numbers count changes);
  '(texts, w) ←
    (if includes change_set CHANGES_ATTR then
       report ← at_index report_index CHANGE_IX_ATTR;
       report_loop (report_attr db b f report) w (walk (fd_attrs f))
     else Ret ([], w));
  Ret (values ++ tables ++ texts, w).
Definition report_block (db : database) (change_set : Z) (report_index : list Z) (print_tables : bool)
    (w : W) (bix : nat) : outcome (list cstring * W) :=
  b ← at_index (blocks db) bix;
  report_loop (report_field db change_set report_index print_tables b) w (walk (b_fields b)).

(** [refresh_change_index]; the refreshes of the two buses are given. *)
Definition refresh_change_index (do_bit_out_refresh do_pos_out_refresh : Z → W → outcome W) (c : list Z) (w : W)
    (change_set : Z) : outcome (list Z * list Z * W) :=
  let '(g, c, report_index) := update_change_index (change_index w) c change_set in
  let w := mk_state g (attrs w) (class_state w) in
  w ← (if includes change_set CHANGES_BITS then do_bit_out_refresh g w else Ret w);
  w ← (if includes change_set CHANGES_POSITION then do_pos_out_refresh g w else Ret w);
  Ret (c, report_index, w).

(** [reset_change_set]. *)
Inductive reset_change_set_action := RESET_START | RESET_END.
Definition reset_change_set (do_bit_out_refresh do_pos_out_refresh : Z → W → outcome W) (c : list Z) (w : W)
    (change_set : Z) (action : reset_change_set_action) : outcome (list Z * W) :=
  match action with
  | RESET_START => Ret (reset_change_index c change_set, w)
  | RESET_END =>
      '(c, _, w) ← refresh_change_index do_bit_out_refresh do_pos_out_refresh c w change_set; Ret (c, w)
  end.

(** [generate_change_sets], after [refresh_change_index]. *)
Definition generate_change_sets (db : database) (m : Metadata.metadata (T := T)) (change_set : Z) (report_index : list Z)
    (print_tables : bool) (w : W) : outcome (list cstring * W) :=
  '(lines, w) ← report_loop (report_block db change_set report_index print_tables) w (walk (block_map db));
  meta ← (if includes change_set CHANGES_METADATA then
            report ← at_index report_index CHANGE_IX_METADATA;
            Metadata.generate_metadata_change_set m report print_tables
          else Ret []);
  Ret (lines ++ meta, w).

(** [check_change_set]: the loops stop at the first change. *)
Fixpoint check_loop {A : Type} (step : W → A → outcome (bool * W)) (w : W) (l : list A) : outcome (bool * W) :=
  match l with
  | [] => Ret (false, w)
  | x :: l => '(changed, w) ← step w x; if changed : bool then Ret (true, w) else check_loop step w l
  end.
Definition any_changed (count : nat) (changes : list bool) : bool := bool_decide (changed_numbers count changes ≠ []).
Definition check_attr (db : database) (b : block) (report : Z) (w : W) (ix : nat) : outcome (bool * W) :=
  '(changes, w) ← attr_changes db w ix report; Ret (any_changed (Z.to_nat (b_count b)) changes, w).
Definition check_field (db : database) (change_set : Z) (report_index : list Z) (b : block) (w : W) (fix_ : nat)
    : outcome (bool * W) :=
  f ← at_index (all_fields db) fix_;
  let count := Z.to_nat (b_count b) in
  '(changes, w) ← get_field_change_set w f count change_set report_index;
  if any_changed count changes then Ret (true, w)
  else if includes change_set CHANGES_ATTR then
    report ← at_index report_index CHANGE_IX_ATTR;
    check_loop (check_attr db b report) w (walk (fd_attrs f))
  else Ret (false, w).
Definition check_block (db : database) (change_set : Z) (report_index : list Z) (w : W) (bix : nat) : outcome (bool * W) :=
  b ← at_index (blocks db) bix;
  check_loop (check_field db change_set report_index b) w (walk (b_fields b)).
Definition check_change_set (db : database) (m : Metadata.metadata (T := T)) (change_set : Z) (report_index : list Z)
    (w : W) : outcome (bool * W) :=
  '(changed, w) ← check_loop (check_block db change_set report_index) w (walk (block_map db));
  if changed : bool then Ret (true, w)
  else if includes change_set CHANGES_METADATA then
    report ← at_index report_index CHANGE_IX_METADATA;
    Ret (Metadata.check_metadata_change_set m report, w)
  else Ret (false, w).

(** ** Validation at start *)

(** [validate_fields]: a field must have its registers, and its class may refuse. *)
Definition validate_field (db : database) (w : W) (fix_ : nat) : outcome (error__t * W) :=
  f ← at_index (all_fields db) fix_;
  match TEST_OK_ (fd_initialised f) "No register assigned for class" with
  | Some e => Ret (Some e, w)
  | None => match cm_finalise (fd_methods f) return outcome (error__t * W) with
            | Some finalise => finalise w (fd_class_data f)
            | None => Ret (None, w)
            end
  end.
Fixpoint while_ok {A : Type} (step : W → A → outcome (error__t * W)) (w : W) (l : list A) : outcome (error__t * W) :=
  match l with
  | [] => Ret (None, w)
  | x :: l => '(error, w) ← step w x; match error with Some _ => Ret (error, w) | None => while_ok step w l end
  end.
Definition validate_block (db : database) (w : W) (bix : nat) : outcome (error__t * W) :=
  b ← at_index (blocks db) bix;
  match TEST_OK_ (bool_decide (b_base b ≠ UNASSIGNED_REGISTER)) "No base address for block" with
  | Some e => Ret (Some e, w)
  | None => while_ok (validate_field db) w (walk (b_fields b))
  end.
Definition validate_fields (db : database) (w : W) : outcome (error__t * W) :=
  while_ok (validate_block db) w (walk (block_map db)).

End database.
End Fields.
