(* ===== verification/FieldsSpec.v ===== *)
(** * Blocks and fields: what the configuration and the reports guarantee

    Two registers the configuration hands out never share an offset; a database
    that validates has a base for every block and registers for every field; and
    the check for changes agrees with the report it stands for. *)

From S2P Require Import Prelude Errors Parse Format HashTable HashTableSpec Enums StdDev Capture Changes Table Metadata Mux Hardware HardwareSpec MuxSpec Fields.
From stdpp Require Import base numbers list list_numbers gmap option strings pretty.
Open Scope Z_scope.

Module FieldsSpec.
Import Parse Format Capture Changes Hardware HardwareSpec Fields.

(** ** Registers in use *)

Section registers.
Context `{Platform}.

Record block_types_ok (types : list block_type) : Prop := {
  ok_count : length types = 32%nat;
  ok_words : Forall (λ t, length (reg_used t) = 2%nat) types;
}.

(** The registers marked as used. *)
Definition in_use (types : list block_type) (base reg : Z) : bool :=
  match types !! Z.to_nat base with
  | Some t => Z.testbit (default 0 (reg_used t !! Z.to_nat (reg / 32))) (reg mod 32)
  | None => false
  end.

Lemma initial_block_types_ok : block_types_ok initial_block_types ∧ ∀ base reg, in_use initial_block_types base reg = false.
Proof.
  split; [split; [done|by apply Forall_replicate]|]. intros base reg. unfold in_use.
  destruct (initial_block_types !! Z.to_nat base) as [t|] eqn:Ht; [|done].
  apply lookup_replicate in Ht as [-> _]. cbn [reg_used unused_block_type].
  destruct (replicate _ 0 !! Z.to_nat (reg / 32)) as [w|] eqn:Hw; cbn; [|by rewrite Z.testbit_0_l].
  apply lookup_replicate in Hw as [-> _]. by rewrite Z.testbit_0_l.
Qed.

Lemma land_bit w i : 0 ≤ i → bool_decide (Z.land w (Z.shiftl 1 i) ≠ 0) = Z.testbit w i.
Proof.
  intros Hi. rewrite Z.shiftl_1_l. destruct (Z.testbit w i) eqn:E.
  - apply bool_decide_eq_true_2. intros H0. apply (f_equal (λ x, Z.testbit x i)) in H0.
    rewrite Z.land_spec, E, Z.pow2_bits_true, Z.testbit_0_l in H0 by done. done.
  - apply bool_decide_eq_false_2. intros H1. apply H1. apply Z.bits_inj'. intros n Hn.
    rewrite Z.land_spec, Z.testbit_0_l. destruct (decide (n = i)) as [->|]; [by rewrite E|].
    by rewrite Z.pow2_bits_false, andb_false_r by done.
Qed.

Lemma lookup_types types base : block_types_ok types → 0 ≤ base < 32 →
  ∃ t, types !! Z.to_nat base = Some t ∧ length (reg_used t) = 2%nat.
Proof.
  intros [Hc Hw] Hb. destruct (lookup_lt_is_Some_2 types (Z.to_nat base)) as [t Ht]; [lia|].
  exists t. split; [done|]. exact (Forall_lookup_1 _ _ _ _ Hw Ht).
Qed.

Lemma word_index reg : 0 ≤ reg < 64 → (Z.to_nat (reg / 32) < 2)%nat ∧ 0 ≤ reg mod 32 < 32.
Proof.
  intros Hr. pose proof (Z.mod_pos_bound reg 32).
  assert (0 ≤ reg / 32 < 2) by (split; [apply Z.div_pos; lia|apply Z.div_lt_upper_bound; lia]). lia.
Qed.

(** The tables after a register has been taken. *)
Definition taken (types : list block_type) (base reg : Z) (types' : list block_type) : Prop :=
  block_types_ok types' ∧
  ∀ b r, 0 ≤ b → 0 ≤ r < 64 → in_use types' b r = in_use types b r || (bool_decide (b = base ∧ r = reg)).

Lemma mark_reg_spec types base reg t : block_types_ok types → 0 ≤ base < 32 → 0 ≤ reg < 64 →
  types !! Z.to_nat base = Some t →
  ∃ words, mark_reg (reg_used t) reg = Ret words ∧
    taken types base reg (<[Z.to_nat base := mk_block_type (bt_used t) (bt_shared t) words]> types).
Proof.
  intros Hok Hb Hr Ht. destruct (word_index reg Hr) as [Hi Hm].
  destruct (lookup_types _ _ Hok Hb) as (t' & Ht' & Hlen). rewrite Ht in Ht'. injection Ht' as <-.
  destruct (lookup_lt_is_Some_2 (reg_used t) (Z.to_nat (reg / 32))) as [w Hw]; [lia|].
  unfold mark_reg. rewrite (at_index_some _ _ _ Hw). cbn [mbind outcome_bind]. eexists. split; [done|].
  destruct Hok as [Hc Hws]. split.
  { split; [by rewrite length_insert|]. apply Forall_insert; [done|]. cbn. by rewrite length_insert. }
  intros b r Hb0 Hr'. unfold in_use. destruct (word_index r Hr') as [Hi' Hm'].
  destruct (decide (b = base)) as [->|Hne].
  2:{ rewrite list_lookup_insert_ne by lia. rewrite (bool_decide_false (b = base ∧ _)) by naive_solver. by rewrite orb_false_r. }
  rewrite list_lookup_insert_eq by lia. rewrite Ht. cbn [reg_used].
  destruct (decide (r / 32 = reg / 32)) as [Hq|Hq].
  - rewrite Hq, list_lookup_insert_eq, Hw by lia. cbn [from_option id]. rewrite Z.lor_spec, Z.shiftl_1_l. f_equal.
    destruct (decide (r mod 32 = reg mod 32)) as [Hmm|Hmm].
    + rewrite Hmm, Z.pow2_bits_true by lia. rewrite bool_decide_true; [done|]. split; [done|].
      rewrite (Z.div_mod r 32), (Z.div_mod reg 32) by lia. lia.
    + rewrite Z.pow2_bits_false by done. rewrite bool_decide_false; [done|]. intros [_ ->]. done.
  - rewrite list_lookup_insert_ne. 2:{ intros E. apply Hq. apply Z2Nat.inj in E; [done|apply Z.div_pos; lia..]. }
    rewrite (bool_decide_false (base = base ∧ _)) by (intros [_ ->]; done). by rewrite orb_false_r.
Qed.

(** Whatever the line, the check returns; when it gives a register, the register
    was free and now is not, and nothing else has changed. *)
Lemma check_register_spec types base line : block_types_ok types → 0 ≤ base < 32 →
  ∃ r types' rest, check_parse_register types base line = Ret (r, types', rest) ∧
    match r with
    | OK reg => 0 ≤ reg < 64 ∧ in_use types base reg = false ∧ taken types base reg types'
    | Err _ => types' = types
    end.
Proof.
  intros Hok Hb. unfold check_parse_register.
  assert (bool_decide (base ≠ INVALID_REGISTER) && bool_decide (base ≠ UNASSIGNED_REGISTER) = true) as ->.
  { unfold INVALID_REGISTER, UNASSIGNED_REGISTER. rewrite !bool_decide_true by lia. done. }
  cbn [TEST_OK_]. destruct (parse_uint line) as [[reg|e] rest] eqn:E; [|by do 3 eexists].
  pose proof (MuxSpec.parse_uint_range _ _ _ E) as Hreg.
  change BLOCK_REGISTER_COUNT with 64. unfold TEST_OK_ at 1. case_bool_decide as Hlt; [|by do 3 eexists].
  destruct (lookup_types _ _ Hok Hb) as (t & Ht & Hlen). rewrite (at_index_some _ _ _ Ht). cbn [mbind outcome_bind].
  destruct (word_index reg ltac:(lia)) as [Hi Hm].
  destruct (lookup_lt_is_Some_2 (reg_used t) (Z.to_nat (reg / 32))) as [w Hw]; [lia|].
  unfold reg_marked. rewrite (at_index_some _ _ _ Hw). cbn [mbind outcome_bind]. rewrite land_bit by lia.
  unfold TEST_OK_. destruct (Z.testbit w (reg mod 32)) eqn:Hbit; cbn [negb]; [by do 3 eexists|].
  destruct (mark_reg_spec types base reg t Hok Hb ltac:(lia) Ht) as (words & -> & Htaken). cbn [mbind outcome_bind].
  do 3 eexists. split; [done|]. split; [lia|]. split; [|done]. unfold in_use. by rewrite Ht, Hw.
Qed.

(** The registers a sequence of lines is given, each for the block of its base. *)
Fixpoint parse_registers (types : list block_type) (l : list (Z * cstring)) : outcome (list (Z * Z) * list block_type) :=
  match l with
  | [] => Ret ([], types)
  | (base, line) :: l =>
      '(r, types, _) ← check_parse_register types base line;
      '(assigned, types) ← parse_registers types l;
      Ret (match r with OK reg => (base, reg) :: assigned | Err _ => assigned end, types)
  end.

Lemma parse_registers_spec types l : block_types_ok types → Forall (λ x, 0 ≤ x.1 < 32) l →
  ∃ assigned types', parse_registers types l = Ret (assigned, types') ∧ NoDup assigned ∧
    ∀ b r, (b, r) ∈ assigned → 0 ≤ b < 32 ∧ 0 ≤ r < 64 ∧ in_use types b r = false.
Proof.
  intros Hok Hl. revert types Hok. induction Hl as [|[base line] l Hb _ IH]; intros types Hok.
  { do 2 eexists. split; [done|]. split; [constructor|]. by intros ?? ?%elem_of_nil. }
  cbn in Hb. cbn [parse_registers].
  destruct (check_register_spec types base line Hok Hb) as (r & types1 & rest & -> & Hr). cbn [mbind outcome_bind].
  destruct r as [reg|e].
  - destruct Hr as (Hreg & Hfree & Hok1 & Htaken).
    destruct (IH types1 Hok1) as (assigned & types' & -> & Hnd & Hall). cbn [mbind outcome_bind].
    do 2 eexists. split; [done|]. split.
    + apply list.NoDup_cons. split; [|done]. intros Hin. destruct (Hall _ _ Hin) as (_ & _ & Huse).
      rewrite Htaken, bool_decide_true, orb_true_r in Huse by (done || lia). done.
    + intros b r Hin. apply elem_of_cons in Hin as [[= -> ->]|Hin]; [done|].
      destruct (Hall _ _ Hin) as (Hb' & Hr' & Huse). split_and!; try lia.
      rewrite Htaken in Huse by lia. by apply orb_false_iff in Huse as [? _].
  - subst types1. destruct (IH types Hok) as (assigned & types' & -> & Hnd & Hall). by do 2 eexists.
Qed.

(** C19: however the lines of the configuration assign registers to fields, on
    private or shared blocks, the registers of two fields never have the same
    offset in the hardware, in any instances within the range of the hardware. *)
Theorem registers_do_not_collide l : Forall (λ x, 0 ≤ x.1 < BLOCK_TYPE_COUNT) l →
  ∃ assigned types, parse_registers initial_block_types l = Ret (assigned, types) ∧
    ∀ i j b r b' r' n n', assigned !! i = Some (b, r) → assigned !! j = Some (b', r') → i ≠ j →
      0 ≤ n < BLOCK_INSTANCE_COUNT → 0 ≤ n' < BLOCK_INSTANCE_COUNT →
      make_offset b n r ≠ make_offset b' n' r'.
Proof.
  intros Hl. destruct (parse_registers_spec initial_block_types l) as (assigned & types & E & Hnd & Hall);
    [apply initial_block_types_ok|exact Hl|].
  exists assigned, types. split; [done|]. intros i j b r b' r' n n' Hi Hj Hij _ _ Hoff.
  destruct (Hall b r) as (? & ? & _); [by eapply list_elem_of_lookup_2|].
  destruct (Hall b' r') as (? & ? & _); [by eapply list_elem_of_lookup_2|].
  rewrite !make_offset_value in Hoff.
  pose proof (Z.mod_pos_bound n 16). pose proof (Z.mod_pos_bound n' 16).
  rewrite (Z.mod_small b), (Z.mod_small b'), (Z.mod_small r), (Z.mod_small r') in Hoff by lia.
  assert (b = b' ∧ r = r') as [-> ->] by lia.
  apply Hij. exact (NoDup_lookup _ _ _ _ Hnd Hi Hj).
Qed.
End registers.

Definition example_registers : list (Z * cstring) :=
  [(2, bytes_of "5"); (2, bytes_of "5"); (2, bytes_of "40"); (3, bytes_of "5")].
Lemma registers_do_not_collide_witness :
  ∃ assigned types, @parse_registers ARM32 initial_block_types example_registers = Ret (assigned, types) ∧
    assigned = [(2, 5); (2, 40); (3, 5)].
Proof.
  destruct (@registers_do_not_collide ARM32 example_registers) as (assigned & types & E & _).
  - repeat constructor; by vm_compute.
  - exists assigned, types. split; [exact E|]. vm_compute in E. injection E as <- <-. done.
Defined.

(** ** The check for changes and the report *)

Section changes.
Context `{Platform} {C T : Type} `{!StringTable nat T}.
Abbreviation W := (state C).
Implicit Types (w : W) (db : database (C := C) (T := T)).

(** A step of a report and the same step of the check: up to the first change they
    leave the same state. *)
Definition agree (o : outcome (list cstring * W)) (c : outcome (bool * W)) : Prop :=
  ∀ lines w', o = Ret (lines, w') →
    (lines = [] ∧ c = Ret (false, w')) ∨ (lines ≠ [] ∧ ∃ w2, c = Ret (true, w2)).

Lemma bind_ret {A B} (o : outcome A) (f : A → outcome B) b : (x ← o; f x) = Ret b → ∃ a, o = Ret a ∧ f a = Ret b.
Proof. destruct o; [|done..]. intros E. by eexists. Qed.

Lemma agree_loop {A} (step : W → A → outcome (list cstring * W)) check w l :
  (∀ w x, agree (step w x) (check w x)) → agree (report_loop step w l) (check_loop check w l).
Proof.
  intros Hstep. revert w. induction l as [|x l IH]; intros w lines w' E.
  { injection E as <- <-. by left. }
  cbn [report_loop check_loop] in *. apply bind_ret in E as ([l1 w1] & E1 & E).
  apply bind_ret in E as ([l2 w2] & E2 & E). injection E as <- <-.
  destruct (Hstep w x l1 w1 E1) as [[-> ->]|[Hne (w3 & ->)]]; cbn [mbind outcome_bind].
  - destruct (IH w1 l2 w2 E2) as [[-> ->]|[Hne Ht]]; [by left|right]. split; [done|exact Ht].
  - right. split; [|eauto]. by destruct l1.
Qed.

(** The loop over the instances that have changed. *)
Lemma agree_numbers (step : W → nat → outcome (list cstring * W)) w count changes :
  (∀ w n lines w', step w n = Ret (lines, w') → lines ≠ []) →
  agree (report_loop step w (changed_numbers count changes)) (Ret (any_changed count changes, w)).
Proof.
  intros Hstep lines w' E. unfold any_changed.
  destruct (changed_numbers count changes) as [|n l]; [injection E as <- <-; by left|].
  cbn [report_loop] in E. apply bind_ret in E as ([l1 w1] & E1 & E). apply bind_ret in E as ([l2 w2] & E2 & E).
  injection E as <- <-. right. split; [|eauto]. pose proof (Hstep _ _ _ _ E1). by destruct l1.
Qed.

Lemma report_attr_agrees db b f report w ix :
  agree (report_attr db b f report w ix) (check_attr db b report w ix).
Proof.
  unfold report_attr, check_attr. intros lines w' E.
  apply bind_ret in E as (a & Ha & E). apply bind_ret in E as ([changes w1] & -> & E). cbn [mbind outcome_bind].
  eapply agree_numbers; [|exact E]. intros w2 n l w3 E2.
  unfold one_line in E2. destruct (report_changed_attr b f a w2 n) as [[text w4]| |]; [|done..]. by injection E2 as <- <-.
Qed.

Lemma land_shiftl x i : Z.land x (Z.shiftl 1 (Z.of_nat i)) ≠ 0 ↔ Z.testbit x (Z.of_nat i) = true.
Proof.
  pose proof (land_bit x (Z.of_nat i) ltac:(lia)) as Hb. case_bool_decide; rewrite <-Hb; naive_solver.
Qed.
Lemma includes_bit x i : includes x (Z.shiftl 1 (Z.of_nat i)) = Z.testbit x (Z.of_nat i).
Proof. unfold includes. by rewrite land_bit by lia. Qed.

(** The two calls of [get_field_change_set] of a report: only one of them asks the
    class. *)
Lemma split_change_set w f count change_set report_index :
  get_field_change_set (T := T) w f count (Z.land change_set (Z.lnot CHANGES_TABLE)) report_index =
    (if bool_decide (cm_change_set_index (fd_methods f) = CHANGE_IX_TABLE) then Ret (replicate count false, w)
     else get_field_change_set w f count change_set report_index) ∧
  get_field_change_set (T := T) w f count (Z.land change_set CHANGES_TABLE) report_index =
    (if bool_decide (cm_change_set_index (fd_methods f) = CHANGE_IX_TABLE)
     then get_field_change_set w f count change_set report_index else Ret (replicate count false, w)).
Proof.
  unfold get_field_change_set. rewrite !includes_bit, !Z.land_spec, Z.lnot_spec by lia.
  unfold CHANGES_TABLE. rewrite Z.shiftl_1_l.
  case_bool_decide as Hix.
  - rewrite Hix, Z.pow2_bits_true by (unfold CHANGE_IX_TABLE; lia). rewrite andb_false_r, andb_true_r.
    by destruct (cm_change_set (fd_methods f)).
  - rewrite Z.pow2_bits_false by lia. rewrite andb_true_r, andb_false_r.
    by destruct (cm_change_set (fd_methods f)).
Qed.

Lemma changed_numbers_none count : changed_numbers count (replicate count false) = [].
Proof.
  unfold changed_numbers. apply elem_of_nil_inv. intros i [Hi _]%list_elem_of_filter.
  by apply lookup_replicate in Hi as [? _].
Qed.

Lemma value_lines b f w n lines w' : one_line <$> report_changed_value (T := T) b f w n = Ret (lines, w') → lines ≠ [].
Proof. destruct (report_changed_value b f w n) as [[l w1]| |]; [|done..]. by intros [= <- <-]. Qed.
Lemma table_lines_some db print b f w n lines w' : report_changed_table db print b f w n = Ret (lines, w') → lines ≠ [].
Proof.
  unfold report_changed_table. intros E. apply bind_ret in E as (prefix & _ & E). destruct print.
  - apply bind_ret in E as ([l w1] & _ & E). by injection E as <- <-.
  - by injection E as <- <-.
Qed.

Lemma report_field_agrees db change_set report_index print b w ix :
  agree (report_field db change_set report_index print b w ix) (check_field db change_set report_index b w ix).
Proof.
  unfold report_field, check_field. intros lines w' E. apply bind_ret in E as (f & -> & E). cbn [mbind outcome_bind].
  destruct (split_change_set w f (Z.to_nat (b_count b)) change_set report_index) as [E1 _]. rewrite E1 in E. clear E1.
  apply bind_ret in E as ([changes1 w1] & Hc1 & E). apply bind_ret in E as ([values w2] & Hv & E).
  destruct (split_change_set w2 f (Z.to_nat (b_count b)) change_set report_index) as [_ E2]. rewrite E2 in E. clear E2.
  apply bind_ret in E as ([changes2 w3] & Hc2 & E). apply bind_ret in E as ([tables w4] & Ht & E).
  apply bind_ret in E as ([texts w5] & Ha & E). injection E as <- <-.
  assert (∃ w6, get_field_change_set (T := T) w f (Z.to_nat (b_count b)) change_set report_index =
    Ret (if bool_decide (cm_change_set_index (fd_methods f) = CHANGE_IX_TABLE) then changes2 else changes1, w6) ∧
    ((values = [] ∧ tables = [] ∧ w4 = w6 ∧
      any_changed (Z.to_nat (b_count b)) (if bool_decide (cm_change_set_index (fd_methods f) = CHANGE_IX_TABLE) then changes2 else changes1) = false) ∨
     (values ++ tables ≠ [] ∧
      any_changed (Z.to_nat (b_count b)) (if bool_decide (cm_change_set_index (fd_methods f) = CHANGE_IX_TABLE) then changes2 else changes1) = true))) as (w6 & Hcs & Hcase).
  { case_bool_decide.
    - injection Hc1 as <- <-. rewrite changed_numbers_none in Hv. injection Hv as <- <-.
      exists w3. split; [done|].
      destruct (agree_numbers _ w3 _ changes2 (λ w n l w', table_lines_some db print b f w n l w') tables w4 Ht)
        as [[-> [= Hf ->]]|[Hne (wx & [= Hf _])]]; [left|right]; done.
    - injection Hc2 as <- <-. rewrite changed_numbers_none in Ht. injection Ht as <- <-.
      exists w1. split; [done|].
      destruct (agree_numbers _ w1 _ changes1 (λ w n l w', value_lines b f w n l w') values w2 Hv)
        as [[-> [= Hf ->]]|[Hne (wx & [= Hf _])]]; [left|right]; rewrite ?app_nil_r; done. }
  rewrite Hcs. cbn [mbind outcome_bind]. destruct Hcase as [(-> & -> & -> & ->)|[Hne ->]].
  - cbn [app]. destruct (includes change_set CHANGES_ATTR); [|injection Ha as <- <-; by left].
    apply bind_ret in Ha as (report & -> & Ha). cbn [mbind outcome_bind].
    eapply agree_loop; [|exact Ha]. intros. apply report_attr_agrees.
  - right. split; [|eauto]. rewrite app_assoc. by destruct (values ++ tables).
Qed.

Lemma report_block_agrees db change_set report_index print w ix :
  agree (report_block db change_set report_index print w ix) (check_block db change_set report_index w ix).
Proof.
  unfold report_block, check_block. intros lines w' E. apply bind_ret in E as (b & -> & E). cbn [mbind outcome_bind].
  eapply agree_loop; [|exact E]. intros. apply report_field_agrees.
Qed.

(** Constants have the index 0 they were given, and so are never reported. *)
Definition constants_quiet (m : Metadata.metadata (T := T)) : Prop :=
  Forall (λ p, Metadata.md_type p.2 = Metadata.METADATA_CONSTANT → Metadata.md_update_index p.2 = 0) (Metadata.entries m).

Lemma metadata_agrees m report print lines : constants_quiet m → 0 ≤ report →
  Metadata.generate_metadata_change_set m report print = Ret lines →
  Metadata.check_metadata_change_set m report = bool_decide (lines ≠ []).
Proof.
  intros Hq Hr. unfold Metadata.generate_metadata_change_set, Metadata.check_metadata_change_set.
  induction Hq as [|p l Hp _ IH] in lines |- *; [by intros [= <-]|].
  rewrite filter_cons. cbn [existsb]. case_decide as Hc.
  2:{ apply not_true_is_false in Hc. rewrite Hc. exact (IH lines). }
  rewrite Hc. cbn [orb]. intros E. cbn in E. symmetry. apply bool_decide_eq_true_2. revert E.
  destruct (Metadata.report_entry print p) as [here| |] eqn:Eh; [|done..]. cbn [mbind outcome_bind].
  destruct (mapM _ _) as [rest| |]; [|done..]. intros [= <-].
  assert (here ≠ []) as Hh; [|by destruct here].
  unfold Metadata.report_entry in Eh. unfold changed_since in Hc. apply bool_decide_eq_true in Hc.
  destruct (Metadata.md_type p.2) eqn:Ht.
  - apply bind_ret in Eh as (text & _ & Eh). by injection Eh as <-.
  - destruct print; [apply bind_ret in Eh as (ls & _ & Eh)|]; by injection Eh as <-.
  - rewrite Hp in Hc by done. lia.
Qed.

(** C23: [check_change_set] answers exactly whether a report of the same sets of
    changes would have a line: it returns whenever the report does, and says yes
    if and only if the report is not empty. *)
Theorem check_change_set_agrees db m change_set report_index print w lines w' :
  constants_quiet m → Forall (λ r, 0 ≤ r) report_index →
  generate_change_sets db m change_set report_index print w = Ret (lines, w') →
  ∃ w2, check_change_set db m change_set report_index w = Ret (bool_decide (lines ≠ []), w2).
Proof.
  intros Hq Hr. unfold generate_change_sets, check_change_set. intros E.
  apply bind_ret in E as ([l1 w1] & E1 & E). apply bind_ret in E as (meta & Hm & E). injection E as <- <-.
  destruct (agree_loop _ (check_block db change_set report_index) w _
    (λ w x, report_block_agrees db change_set report_index print w x) _ _ E1) as [[-> ->]|[Hne (w2 & ->)]];
    cbn [mbind outcome_bind].
  - destruct (includes change_set CHANGES_METADATA); [|injection Hm as <-; eauto].
    apply bind_ret in Hm as (report & Hrep & Hm). rewrite Hrep. cbn [mbind outcome_bind].
    rewrite (metadata_agrees m report print meta Hq); [by eexists| |done].
    unfold at_index in Hrep. destruct (report_index !! CHANGE_IX_METADATA) as [x|] eqn:Hx; [|done].
    injection Hrep as <-. exact (Forall_lookup_1 _ _ _ _ Hr Hx).
  - exists w2. rewrite bool_decide_true; [done|]. by destruct l1.
Qed.

(** ** Validation *)

Lemma while_ok_all {A} (step : W → A → outcome (error__t * W)) w l w' :
  while_ok step w l = Ret (None, w') → Forall (λ x, ∃ w1 w2, step w1 x = Ret (None, w2)) l.
Proof.
  revert w. induction l as [|x l IH]; intros w E; [constructor|]. cbn in E.
  apply bind_ret in E as ([[e|] w1] & Ex & E); [done|]. constructor; [eauto|]. exact (IH w1 E).
Qed.

Lemma walk_elem t key ix : st_wf t → st_map t !! key = Some (Some ix) → ix ∈ walk t.
Proof.
  intros Hwf Hkey. unfold walk. apply list_elem_of_omap. exists (key, Some ix). split; [|done].
  rewrite (st_walk_ok _ Hwf). by apply elem_of_map_to_list.
Qed.

Lemma fields_validated db w w' : st_wf (block_map db) → Forall (λ b, st_wf (b_fields b)) (blocks db) →
  validate_fields db w = Ret (None, w') →
  ∀ name bix, st_map (block_map db) !! name = Some (Some bix) →
    ∃ b, blocks db !! bix = Some b ∧ b_base b ≠ UNASSIGNED_REGISTER ∧
      ∀ fname fix_, st_map (b_fields b) !! fname = Some (Some fix_) →
        ∃ f, all_fields db !! fix_ = Some f ∧ fd_initialised f = true.
Proof.
  intros Hwf Hbs E name bix Hname. apply while_ok_all in E.
  pose proof (walk_elem _ _ _ Hwf Hname) as Hin. rewrite Forall_forall in E. destruct (E _ Hin) as (w1 & w2 & Eb).
  unfold validate_block in Eb. apply bind_ret in Eb as (b & Hb & Eb). unfold at_index in Hb.
  destruct (blocks db !! bix) as [b'|] eqn:Hbix; [|done]. injection Hb as ->.
  unfold TEST_OK_ in Eb. case_bool_decide as Hbase; [|done]. exists b. split; [done|]. split; [done|].
  intros fname fx Hf. apply while_ok_all in Eb.
  pose proof (walk_elem _ _ _ (Forall_lookup_1 _ _ _ _ Hbs Hbix) Hf) as Hfin. rewrite Forall_forall in Eb.
  destruct (Eb _ Hfin) as (w3 & w4 & Ef). unfold validate_field in Ef. apply bind_ret in Ef as (f & Hfx & Ef).
  unfold at_index in Hfx. destruct (all_fields db !! fx) as [f'|] eqn:Hfix; [|done]. injection Hfx as ->.
  exists f. split; [done|]. unfold TEST_OK_ in Ef. by destruct (fd_initialised f).
Qed.
(** When the checks at the end of loading pass, every block in the map has a base
    and every field of it has been given its registers. *)
Theorem validate_fields_complete db w w' : st_wf (block_map db) → Forall (λ b, st_wf (b_fields b)) (blocks db) →
  validate_fields db w = Ret (None, w') →
  ∀ name bix, st_map (block_map db) !! name = Some (Some bix) →
    ∃ b, blocks db !! bix = Some b ∧ b_base b ≠ UNASSIGNED_REGISTER ∧
      ∀ fname fix_, st_map (b_fields b) !! fname = Some (Some fix_) →
        ∃ f, all_fields db !! fix_ = Some f ∧ fd_initialised f = true.
Proof. exact (fields_validated db w w'). Qed.
End changes.

(** ** A concrete database *)

Section example.
#[local] Existing Instance X86_64.
Abbreviation table := (HashTable.hash_table (K := cstring) (V := nat)).
#[local] Existing Instance keep_string_table.

(** A class whose second instance changed at index 7. *)
Definition example_class : class_methods (C := unit) :=
  mk_class (bytes_of "param") (Some (λ w _, Ret (None, w))) (λ _ _, None)
    (Some (λ w _ _ n, Ret (format_string n (bytes_of "42"), w))) None None None None None
    (Some (λ w _ r, Ret ([false; changed_since r 7], w))) CHANGE_IX_CONFIG.

Definition empty_database : database (C := unit) (T := table) := mk_database st_create [] [] [].
Definition example_database : database (C := unit) (T := table) :=
  match create_block empty_database (bytes_of "PULSE") 2 with
  | Ret (_, bix, db) =>
      match insert_field db bix (bytes_of "DELAY") example_class st_create 0 with
      | Ret (_, db) =>
          mk_database (block_map db) ((λ b, mk_block (b_name b) (b_count b) 4 (b_fields b) None) <$> blocks db)
            ((λ f, mk_field (fd_block f) (fd_name f) (fd_methods f) (fd_sequence f) None (fd_attrs f) (fd_class_data f) true)
               <$> all_fields db) []
      | _ => db
      end
  | _ => empty_database
  end.
Definition example_state : state unit := mk_state 9 [] tt.

Lemma check_change_set_agrees_witness :
  generate_change_sets example_database (Metadata.initialise_metadata) 127 (replicate 7 3) false example_state =
    Ret ([bytes_of "PULSE2.DELAY=42"], example_state) ∧
  ∃ w2, check_change_set example_database (Metadata.initialise_metadata) 127 (replicate 7 3) example_state = Ret (true, w2).
Proof.
  split; [by vm_compute|].
  destruct (check_change_set_agrees example_database Metadata.initialise_metadata 127 (replicate 7 3) false example_state
    [bytes_of "PULSE2.DELAY=42"] example_state) as (w2 & E).
  - unfold constants_quiet. vm_compute. constructor.
  - by repeat constructor.
  - by vm_compute.
  - exists w2. exact E.
Defined.

Lemma example_tables :
  st_wf (V := nat) (block_map example_database) ∧ Forall (λ b, st_wf (V := nat) (b_fields b)) (blocks example_database).
Proof.
  destruct (st_create_ok (V := nat) (T := table)) as [Hwf Hmap].
  assert (∀ key, ∃ t, st_insert (V := nat) (T := table) st_create key (Some 0%nat) = Some (None, t) ∧ st_wf (V := nat) t) as Hins.
  { intros key. destruct (st_insert_ok (V := nat) (T := table) _ key (Some 0%nat) Hwf) as (t & E & Ht & Hm);
      [rewrite Hmap; by vm_compute|]. rewrite Hmap in E. exists t. by rewrite lookup_empty in E. }
  destruct (Hins (bytes_of "PULSE")) as (tb & Eb & Htb). destruct (Hins (bytes_of "DELAY")) as (tf & Ef & Htf). split.
  - assert (block_map example_database = tb) as -> by (vm_compute in Eb |- *; congruence). exact Htb.
  - apply list.Forall_cons. split; [|constructor].
    assert (tf = b_fields (default (mk_block [] 0 0 st_create None) (blocks example_database !! 0%nat))) as Et
      by (vm_compute in Ef |- *; congruence).
    rewrite Et in Htf. exact Htf.
Qed.

Lemma validate_fields_complete_witness : ∃ b, blocks example_database !! 0%nat = Some b ∧ b_base b ≠ UNASSIGNED_REGISTER.
Proof.
  destruct (validate_fields_complete example_database example_state example_state) with (name := bytes_of "PULSE") (bix := 0%nat)
    as (b & Hb & Hbase & _).
  - apply example_tables.
  - apply example_tables.
  - by vm_compute.
  - by vm_compute.
  - exists b. split; [exact Hb|exact Hbase].
Defined.
End example.

End FieldsSpec.
