(* ===== verification/Entity.v ===== *)
(** * Commands on entities and their replies: config_command.c, config_server.c

    A command names a block, a field or an attribute; the name is parsed and looked
    up, the operation is carried out and the reply is written.  The system
    commands are a parameter of the server. *)

From S2P Require Import Prelude Errors Parse Format HashTable HashTableSpec Enums StdDev Capture PosOut Changes Table Metadata Mux Hardware Fields.
From stdpp Require Import base numbers list list_numbers gmap option strings pretty.
Open Scope Z_scope.

Module Entity.
Import Parse Format Capture Changes Fields.

Section entity.
Context `{Platform} {C T : Type} `{!StringTable nat T}.
Abbreviation W := (state C).
Abbreviation database := (database (C := C) (T := T)).

(** [struct entity_context]; there is an entity once a block has been found. *)
Record entity_context := mk_context {
  ec_block : nat;
  ec_number : Z;
  ec_field : option nat;
  ec_attr : option nat;
}.

(** [parse_and_lookup_block]: the context, the number of instances and whether a
    number was given. *)
Definition parse_and_lookup_block (db : database) (input : cstring)
    : outcome (res (entity_context * Z * bool) * cstring) :=
  '(name, input) ← parse_block_name PosOut.MAX_NAME_LENGTH input;
  match name with
  | Err e => Ret (Err e, input)
  | OK name =>
      ix ← lookup_block db name;
      match ix with
      | Err e => Ret (Err e, input)
      | OK ix =>
          b ← at_index (blocks db) ix;
          if isdigit (cur input) then
            Ret ((number ← parse_uint;
                  _ ← lift (test_ok (bool_decide (0 < number) && bool_decide (number ≤ b_count b)) "Invalid block number");
                  mret (mk_context ix (number - 1) None None, b_count b, true)) input)
          else Ret (OK (mk_context ix 0 None None, b_count b, false), input)
      end
  end.

(** [check_block_number]; [None] when the caller does not ask for the number. *)
Definition check_block_number (max_number : Z) (number_present : option bool) : res unit :=
  match number_present with
  | None => OK tt
  | Some present => test_ok (present || bool_decide (max_number = 1)) "Missing block number"
  end.

Definition parse_field_name (db : database) (c : entity_context) (input : cstring)
    : outcome (res entity_context * cstring) :=
  match parse_alphanum_name PosOut.MAX_NAME_LENGTH input with
  | (Err e, input) => Ret (Err e, input)
  | (OK name, input) =>
      b ← at_index (blocks db) (ec_block c);
      ix ← lookup_field b name;
      Ret (match ix with Err e => Err e | OK ix => OK (mk_context (ec_block c) (ec_number c) (Some ix) None) end, input)
  end.
Definition parse_attr_name (db : database) (c : entity_context) (input : cstring)
    : outcome (res entity_context * cstring) :=
  match parse_name PosOut.MAX_NAME_LENGTH input with
  | (Err e, input) => Ret (Err e, input)
  | (OK name, input) =>
      fix_ ← Enums.call (ec_field c);
      f ← at_index (all_fields db) fix_;
      ix ← lookup_attr f name;
      Ret (match ix with Err e => Err e | OK ix => OK (mk_context (ec_block c) (ec_number c) (ec_field c) (Some ix)) end, input)
  end.

(** [parse_block_entity]: [want_number] and [want_star] say whether the caller passed
    the pointers.  The context, whether a number and whether a star was found. *)
Definition entity_result : Type := res (entity_context * bool * bool) * cstring.
Definition with_flags (present star : bool) (r : res entity_context) : res (entity_context * bool * bool) :=
  match r with OK c => OK (c, present, star) | Err e => Err e end.

Definition parse_attr_part (db : database) (want_number want_star : bool) (max_number : Z) (present : bool)
    (c : entity_context) (input : cstring) : outcome entity_result :=
  let checked := check_block_number max_number (if want_number then Some present else None) in
  let '(dot, input) := read_char 46 input in
  if dot then
    let '(star, input) := if want_star then read_char 42 input else (false, input) in
    if star then Ret (OK (c, present, true), input)
    else
      match checked with
      | Err e => Ret (Err e, input)
      | OK _ => '(c, input) ← parse_attr_name db c input; Ret (with_flags present false c, input)
      end
  else Ret (match checked with Err e => Err e | OK _ => OK (c, present, false) end, input).
Definition parse_block_entity (db : database) (want_number want_star : bool) (input : cstring) : outcome entity_result :=
  '(r, input) ← parse_and_lookup_block db input;
  match r with
  | Err e => Ret (Err e, input)
  | OK (c, max_number, present) =>
      let '(dot, input) := read_char 46 input in
      if dot then
        let '(star, input) := if want_star then read_char 42 input else (false, input) in
        if star then Ret (OK (c, present, true), input)
        else
          '(c, input) ← parse_field_name db c input;
          match c with
          | Err e => Ret (Err e, input)
          | OK c => parse_attr_part db want_number want_star max_number present c input
          end
      else Ret (OK (c, present, false), input)
  end.

(** [parse_table_subfield]. *)
Definition parse_table_subfield (db : database) (w : W) (c : entity_context) (input : cstring)
    : outcome (res (option nat) * cstring) :=
  match ec_field c, ec_attr c return outcome (res (option nat) * cstring) with
  | Some fix_, None =>
      if bool_decide (cur input = 91) then
        match (_ ← parse_char (Ascii.ascii_of_nat 91); _ ← parse_char (Ascii.ascii_of_nat 93);
               _ ← parse_char (Ascii.ascii_of_nat 46); parse_alphanum_name PosOut.MAX_NAME_LENGTH) input with
        | (Err e, input) => Ret (Err e, input)
        | (OK name, input) =>
            f ← at_index (all_fields db) fix_;
            ix ← lookup_table_subfield w f name;
            Ret (match ix with OK i => OK (Some i) | Err e => Err e end, input)
        end
      else Ret (OK None, input)
  | _, _ => Ret (OK None, input)
  end.

(** [compute_entity_handler]: which of the four sets of actions. *)
Inductive entity_actions := attr_list_actions | field_list_actions | field_attr_actions | block_field_actions.
Definition compute_entity_handler (db : database) (input : cstring) : outcome (res (entity_context * entity_actions)) :=
  '(r, input) ← parse_block_entity db true true input;
  Ret ('(c, _, star) ← r;
       _ ← (parse_eos input).1;
       if star : bool then mret (c, match ec_field c with Some _ => attr_list_actions | None => field_list_actions end)
       else
         _ ← test_ok (bool_decide (is_Some (ec_field c))) "Missing field name";
         mret (c, match ec_attr c with Some _ => field_attr_actions | None => block_field_actions end)).

(** The entity of a context. *)
Definition context_block (db : database) (c : entity_context) := at_index (blocks db) (ec_block c).
Definition context_field (db : database) (c : entity_context) :=
  ix ← Enums.call (ec_field c); at_index (all_fields db) ix.
Definition instance_number (c : entity_context) : nat := Z.to_nat (ec_number c).

(** [process_entity_get], [process_entity_put] and [process_entity_put_table]. *)
Definition process_entity_get (db : database) (w : W) (name : cstring) : outcome (reply * W) :=
  r ← compute_entity_handler db name;
  match r return outcome (reply * W) with
  | Err e => Ret (([], Err e), w)
  | OK (c, field_list_actions) =>
      b ← context_block db c; lines ← field_list_get db w b; Ret ((lines, OK RESPONSE_MANY), w)
  | OK (c, block_field_actions) => f ← context_field db c; field_get w f (instance_number c) MAX_RESULT_LENGTH
  | OK (c, attr_list_actions) => f ← context_field db c; Ret ((attr_list_get f, OK RESPONSE_MANY), w)
  | OK (c, field_attr_actions) =>
      ix ← Enums.call (ec_attr c); a ← at_index (all_attrs db) ix;
      attr_get w a (instance_number c) MAX_RESULT_LENGTH
  end.
Definition process_entity_put (db : database) (w : W) (name value : cstring) : outcome (error__t * W) :=
  r ← compute_entity_handler db name;
  match r return outcome (error__t * W) with
  | Err e => Ret (Some e, w)
  | OK (c, block_field_actions) => f ← context_field db c; field_put w f (instance_number c) value
  | OK (c, field_attr_actions) =>
      ix ← Enums.call (ec_attr c); attr_put db w ix (instance_number c) value
  | OK _ => Ret (TEST_OK_ false "Field not writeable", w)
  end.
Definition process_entity_put_table (db : database) (w : W) (name : cstring) (streaming_mode last_table binary : bool)
    : outcome (error__t * W * Table.put_table_writer W) :=
  r ← compute_entity_handler db name;
  match r return outcome (error__t * W * Table.put_table_writer W) with
  | Err e => Ret (Some e, w, Table.dummy_table_writer)
  | OK (c, block_field_actions) =>
      f ← context_field db c; field_put_table w f (instance_number c) streaming_mode last_table binary
  | OK _ => Ret (TEST_OK_ false "Field not a table", w, Table.dummy_table_writer)
  end.
End entity.

(** ** The server of configuration commands *)

Section server.
Context {S : Type}.

(** [struct config_command_set], on the state of the server. *)
Record config_command_set := mk_command_set {
  cs_get : S → cstring → outcome (reply * S);
  cs_put : S → cstring → cstring → outcome (error__t * S);
  cs_put_table : S → cstring → bool → bool → bool → outcome (error__t * S * Table.put_table_writer S);
}.

(** The bytes a reply consists of. *)
Definition error_line (e : error) : list Z := bytes_of "ERR " ++ bytes_of (error_format (Some e)).1 ++ [10].
Definition report_status (e : error__t) : list Z := match e with Some e => error_line e | None => bytes_of "OK" ++ [10] end.
Definition many_line (line : cstring) : list Z := [33] ++ line ++ [10].
Definition reply_bytes (r : reply) : list Z :=
  concat (many_line <$> r.1) ++
  match r.2 with
  | Err e => error_line e
  | OK (RESPONSE_ONE line) => bytes_of "OK =" ++ line ++ [10]
  | OK RESPONSE_MANY => [46; 10]
  end.

Definition do_read_command (set : config_command_set) (s : S) (command value : cstring) : outcome (list Z * S) :=
  if bool_decide (cur value = 0) then '(r, s) ← cs_get set s command; Ret (reply_bytes r, s)
  else Ret (report_status (TEST_OK_ false "Unexpected text after command"), s).
Definition do_write_command (set : config_command_set) (s : S) (command value : cstring) : outcome (list Z * S) :=
  '(e, s) ← cs_put set s command value; Ret (report_status e, s).

(** [parse_table_command] and [process_put_table_command] for any set of commands. *)
Definition process_table_command (set : config_command_set) (s : S) (command format : cstring) (lines : list cstring)
    : outcome (error__t * S * list cstring) :=
  let '(eos, streaming, last, binary) := Table.parse_table_format format in
  '(error, s, writer) ←
    (match eos return outcome (error__t * S * Table.put_table_writer S) with
     | Err e => Ret (Some e, s, Table.dummy_table_writer)
     | OK _ => cs_put_table set s command streaming last binary
     end);
  let writer := match error with Some _ => Table.dummy_table_writer | None => writer end in
  '(put_error, s, rest) ← Table.do_put_table writer s None lines;
  '(close_error, s) ← Table.w_close writer s (bool_decide (put_error = None));
  Ret (Table.or_else error (Table.or_else put_error close_error), s, rest).
Definition do_table_command (set : config_command_set) (s : S) (command format : cstring) (lines : list cstring)
    : outcome (list Z * S * list cstring) :=
  '(e, s, rest) ← process_table_command set s command format lines; Ret (report_status e, s, rest).

(** The same with the lines read one at a time, from a file ([struct table_read_line]):
    [do_put_table] and [process_put_table_command] of config_server.c. *)
Section read_line.
Context {R : Type} (read_line : R → option cstring * R).
Fixpoint do_put_table (fuel : nat) (writer : Table.put_table_writer S) (s : S) (error : error__t) (r : R) : outcome (error__t * S * R) :=
  match fuel with
  | O => Undef
  | Datatypes.S fuel' =>
      match read_line r with
      | (None, r) => Ret (match error with Some _ => error | None => TEST_OK_ false "Unexpected EOF" end, s, r)
      | (Some line, r) =>
          if bool_decide (cur line = 0) then Ret (error, s, r)
          else
            match error with
            | Some _ => do_put_table fuel' writer s error r
            | None => '(error, s) ← Table.w_write writer s line; do_put_table fuel' writer s error r
            end
      end
  end.
Definition process_put_table_command (fuel : nat) (set : config_command_set) (s : S) (name format : cstring) (r : R)
    : outcome (error__t * S * R) :=
  let '(eos, streaming, last, binary) := Table.parse_table_format format in
  '(error, s, writer) ←
    (match eos return outcome (error__t * S * Table.put_table_writer S) with
     | Err e => Ret (Some e, s, Table.dummy_table_writer)
     | OK _ => cs_put_table set s name streaming last binary
     end);
  let writer := match error with Some _ => Table.dummy_table_writer | None => writer end in
  '(put_error, s, r) ← do_put_table fuel writer s None r;
  '(close_error, s) ← Table.w_close writer s (bool_decide (put_error = None));
  Ret (Table.or_else error (Table.or_else put_error close_error), s, r).
End read_line.

(** A source of lines: [src r lines] when reading from [r] gives these lines and then
    none. *)
Definition line_source {R} (read_line : R → option cstring * R) (src : R → list cstring → Prop) : Prop :=
  ∀ r lines, src r lines →
    match lines with
    | [] => ∃ r', read_line r = (None, r') ∧ src r' []
    | line :: lines => ∃ r', read_line r = (Some line, r') ∧ src r' lines
    end.
Lemma do_put_table_source {R} (read_line : R → option cstring * R) src writer lines :
  line_source read_line src → ∀ fuel (s : S) error r, src r lines → (length lines < fuel)%nat →
  match Table.do_put_table writer s error lines with
  | Ret (e, s', rest) => ∃ r', do_put_table read_line fuel writer s error r = Ret (e, s', r') ∧ src r' rest
  | Panic => do_put_table read_line fuel writer s error r = Panic
  | Undef => do_put_table read_line fuel writer s error r = Undef
  end.
Proof.
  intros Hsrc. induction lines as [|line lines IH]; intros fuel s error r Hr Hf; destruct fuel as [|fuel]; cbn [length] in Hf; try lia;
    destruct (Hsrc _ _ Hr) as (r' & E & Hr'); cbn [do_put_table Table.do_put_table]; rewrite E; [by exists r'|].
  destruct (bool_decide (cur line = 0)); [by exists r'|].
  destruct error as [e|]; [apply IH; [done|lia]|].
  destruct (Table.w_write writer s line) as [[e s']| |]; [|done..]. apply IH; [done|lia].
Qed.
Lemma process_put_table_source {R} (read_line : R → option cstring * R) src set lines fuel (s : S) name format r :
  line_source read_line src → src r lines → (length lines < fuel)%nat →
  match process_table_command set s name format lines with
  | Ret (e, s', rest) => ∃ r', process_put_table_command read_line fuel set s name format r = Ret (e, s', r') ∧ src r' rest
  | Panic => process_put_table_command read_line fuel set s name format r = Panic
  | Undef => process_put_table_command read_line fuel set s name format r = Undef
  end.
Proof.
  intros Hsrc Hr Hf. unfold process_table_command, process_put_table_command.
  destruct (Table.parse_table_format format) as [[[eos streaming] lst] binary].
  set (opened := match eos with OK _ => _ | Err e => _ end).
  destruct opened as [[[error s1] writer]| |]; cbn [mbind outcome_bind]; [|done..].
  set (w := match error with Some _ => _ | None => writer end).
  pose proof (do_put_table_source read_line src w lines Hsrc fuel s1 None r Hr Hf) as Hput.
  destruct (Table.do_put_table w s1 None lines) as [[[e s2] rest]| |]; cbn [mbind outcome_bind].
  2,3: by rewrite Hput.
  destruct Hput as (r' & -> & Hr'). cbn [mbind outcome_bind].
  destruct (Table.w_close w s2 _) as [[ce s3]| |]; [|done..]. by exists r'.
Qed.

(** [strcspn(command, "?=<")]: the text before the separator, and from it on. *)
Definition is_separator (c : Z) : bool := bool_decide (c = 63) || bool_decide (c = 61) || bool_decide (c = 60).
Fixpoint split_command (command : cstring) : cstring * cstring :=
  match command with
  | [] => ([], [])
  | c :: rest => if is_separator c then ([], command) else let '(name, tail) := split_command rest in (c :: name, tail)
  end.

(** [process_config_command]: the bytes of the reply, and the lines not read. *)
Definition process_config_command (entity_commands system_commands : config_command_set) (s : S) (command : cstring)
    (lines : list cstring) : outcome (list Z * S * list cstring) :=
  let '(star, command) := read_char 42 command in
  let set := if star then system_commands else entity_commands in
  match split_command command with
  | (name, ch :: value) =>
      if bool_decide (ch = 63) then '(out, s) ← do_read_command set s name value; Ret (out, s, lines)
      else if bool_decide (ch = 61) then '(out, s) ← do_write_command set s name value; Ret (out, s, lines)
      else do_table_command set s name value lines
  | (_, []) => Ret (report_status (TEST_OK_ false "Unknown command"), s, lines)
  end.
End server.

Definition entity_commands `{Platform} {C T : Type} `{!StringTable nat T} (db : database (C := C) (T := T))
    : config_command_set (S := state C) :=
  mk_command_set (process_entity_get db) (process_entity_put db) (process_entity_put_table db).

End Entity.
