(* ===== verification/EntitySpec.v ===== *)
(** * Commands on entities: names are read back

    The name under which the server reports a field or an attribute is accepted in
    a command, and leads to the same block, instance, field and attribute. *)

From S2P Require Import Prelude Errors Parse Format HashTable HashTableSpec Enums StdDev Capture PosOut Changes Table Metadata Mux Hardware Fields FieldsSpec Entity.
From stdpp Require Import base numbers list list_numbers gmap option strings pretty.
Open Scope Z_scope.

Module EntitySpec.
Import Parse Format Capture Changes Fields Entity.

(** ** Printed numbers *)

Lemma print_loop_digits fuel n acc : Forall (λ c, isdigit c = true) acc → 0 ≤ n →
  Forall (λ c, isdigit c = true) (print_loop fuel 10 n acc).
Proof.
  revert n acc. induction fuel as [|fuel IH]; intros n acc Ha Hn; [done|]. cbn [print_loop].
  pose proof (Z.mod_pos_bound n 10 ltac:(lia)) as Hm.
  assert (isdigit (digit_char (n mod 10)) = true).
  { unfold isdigit, digit_char. rewrite decide_True by lia. apply bool_decide_eq_true_2. lia. }
  case_decide; [by constructor|]. apply IH; [by constructor|]. apply Z.div_pos; lia.
Qed.
Lemma fmt_u_digits n : 0 ≤ n → Forall (λ c, isdigit c = true) (fmt_u n).
Proof. intros Hn. unfold fmt_u, print_uint. apply print_loop_digits; [constructor|done]. Qed.

Lemma isdigit_alphanum c : isdigit c = true → valid_alphanum_char c = true.
Proof.
  unfold valid_alphanum_char, isascii, isdigit. intros Hd%bool_decide_eq_true.
  rewrite (bool_decide_true (0 ≤ c < 128)), (bool_decide_true (48 ≤ c ≤ 57)) by lia. by rewrite orb_true_r.
Qed.

(** ** Names in front of a number and a dot *)

(** A name of a block: alphanumeric, neither starting nor ending with a digit. *)
Record block_name_ok (name : cstring) : Prop := {
  bn_chars : Forall (λ c, valid_alphanum_char c = true) name;
  bn_first : valid_name_char (cur name) = true;
  bn_last : ∃ l before, rev name = l :: before ∧ isdigit l = false;
}.
Record field_name_ok (name : cstring) : Prop := {
  fn_chars : Forall (λ c, valid_alphanum_char c = true) name;
  fn_first : valid_name_char (cur name) = true;
  fn_length : (0 < length name < PosOut.MAX_NAME_LENGTH)%nat;
}.
(** What may follow a name. *)
Definition ends_name (rest : cstring) : Prop := ∀ c t, rest = c :: t → valid_alphanum_char c = false.

Lemma back_over_rev ds before s : Forall (λ c, isdigit c = true) ds →
  back_over_digits (rev ds ++ before) s = back_over_digits before (ds ++ s).
Proof.
  intros Hd. revert s. induction ds as [|c ds IH] using rev_ind; intros s; [done|].
  apply Forall_app in Hd as [Hd Hc]. apply list.Forall_cons in Hc as [Hc _]. rewrite rev_unit. cbn [app back_over_digits].
  rewrite Hc, IH by done. by rewrite <-app_assoc.
Qed.

Lemma read_alphanum name rest : field_name_ok name → ends_name rest →
  parse_alphanum_name PosOut.MAX_NAME_LENGTH (name ++ rest) = (OK name, rest).
Proof. intros [] Hr. apply parse_alphanum_name_iff. split; [by split|done]. Qed.

Lemma read_block_name name ds rest : block_name_ok name → Forall (λ c, isdigit c = true) ds →
  (length name + length ds < PosOut.MAX_NAME_LENGTH)%nat → ends_name rest →
  parse_block_name PosOut.MAX_NAME_LENGTH (name ++ ds ++ rest) = Ret (OK name, ds ++ rest).
Proof.
  intros [Hc Hf (l & before & Hrev & Hl)] Hd Hlen Hr. unfold parse_block_name. rewrite app_assoc.
  assert (name ≠ []) as Hne by (by intros ->).
  rewrite (proj2 (parse_alphanum_name_iff PosOut.MAX_NAME_LENGTH _ (name ++ ds) rest)).
  - rewrite rev_app_distr, back_over_rev by done. rewrite Hrev. cbn [back_over_digits]. rewrite Hl. cbn [mbind outcome_bind].
    rewrite <-Hrev, rev_involutive. done.
  - split; [|by destruct name].
    assert (0 < length name)%nat by (destruct name; [done|simpl; lia]).
    split; [done| |rewrite length_app; lia|done]. apply Forall_app. split; [done|].
    eapply Forall_impl; [exact Hd|]. apply isdigit_alphanum.
Qed.

Section names.
Context `{Platform} {C T : Type} `{!StringTable nat T}.
Abbreviation database := (database (C := C) (T := T)).
Implicit Types (db : database).

(** A field that the database leads to. *)
Record field_in db (bix : nat) (b : block T) (fix_ : nat) (f : field T) : Prop := {
  fi_blocks : st_wf (block_map db);
  fi_block : st_map (block_map db) !! b_name b = Some (Some bix);
  fi_block_at : blocks db !! bix = Some b;
  fi_block_name : block_name_ok (b_name b);
  fi_fields : st_wf (b_fields b);
  fi_field : st_map (b_fields b) !! fd_name f = Some (Some fix_);
  fi_field_at : all_fields db !! fix_ = Some f;
  fi_field_name : field_name_ok (fd_name f);
}.

(** The number in a name, if there is one. *)
Definition number_digits (b : block T) (number : Z) : cstring :=
  if bool_decide (b_count b = 1) then [] else fmt_d (to_signed 32 (number + 1)).
Lemma number_digits_value b number : 0 ≤ number < b_count b → b_count b < 2 ^ 31 →
  number_digits b number = if bool_decide (b_count b = 1) then [] else fmt_u (number + 1).
Proof.
  intros Hn Hc. unfold number_digits. case_bool_decide; [done|].
  unfold to_signed. rewrite wrap_small by lia. rewrite decide_True by lia. unfold fmt_d. by rewrite decide_False by lia.
Qed.

Lemma lookup_st t name ix : st_wf t → st_map t !! name = Some (Some ix) →
  st_lookup_bool (V := nat) (T := T) t name = Some (true, Some ix).
Proof. intros Hwf Hm. rewrite (st_lookup_ok _ _ Hwf), Hm. done. Qed.

Lemma dot_ends rest : ends_name (46 :: rest).
Proof. by intros c t [= <- _]. Qed.

Lemma read_block_part db bix b fix_ f number rest : field_in db bix b fix_ f →
  0 ≤ number < b_count b → b_count b < 2 ^ 31 →
  (length (b_name b) + length (number_digits b number) < PosOut.MAX_NAME_LENGTH)%nat →
  parse_and_lookup_block db (b_name b ++ number_digits b number ++ [46] ++ rest) =
    Ret (OK (mk_context bix number None None, b_count b, bool_decide (b_count b ≠ 1)), [46] ++ rest).
Proof.
  intros [] Hn Hc Hlen. unfold parse_and_lookup_block.
  rewrite read_block_name; [|done| |done|apply dot_ends].
  2:{ rewrite number_digits_value by done. case_bool_decide; [constructor|apply fmt_u_digits; lia]. }
  cbn [mbind outcome_bind]. unfold lookup_block. rewrite (lookup_st _ _ bix) by done. cbn [mbind outcome_bind Enums.call].
  rewrite (at_index_some _ _ _ fi_block_at0). cbn [mbind outcome_bind].
  rewrite number_digits_value by done. case_bool_decide as H1.
  - change (isdigit (cur ([] ++ [46] ++ rest))) with false. cbn beta iota.
    rewrite bool_decide_false by (by intros E; destruct E). by assert (number = 0) as -> by lia.
  - assert (stops ([46] ++ rest)) as Hstop by done.
    destruct (read_uint_fmt (number + 1) ([46] ++ rest) ltac:(lia) Hstop) as [Hp _].
    destruct (print_uint_first (number + 1) ([46] ++ rest) ltac:(lia)) as (c & t & E & Hdig).
    unfold fmt_u in *. rewrite E. cbn [cur].
    assert (isdigit c = true) as -> by (unfold isdigit; by apply bool_decide_eq_true_2).
    rewrite <-E. unfold mbind, parser_bind. rewrite Hp. cbn beta iota.
    unfold lift, test_ok, TEST_OK_. rewrite (bool_decide_true (0 < number + 1)), (bool_decide_true (number + 1 ≤ b_count b)) by lia.
    cbn. rewrite (bool_decide_true (b_count b ≠ 1)) by done. by replace (number + 1 - 1) with number by lia.
Qed.

Lemma field_text_eq b f number : Mux.field_text (field_label (C := C) b f) number = b_name b ++ number_digits b number ++ [46] ++ fd_name f.
Proof. done. Qed.

(** Up to the end of the field's name. *)
Lemma read_field_part db bix b fix_ f number rest : field_in db bix b fix_ f →
  0 ≤ number < b_count b → b_count b < 2 ^ 31 →
  (length (b_name b) + length (number_digits b number) < PosOut.MAX_NAME_LENGTH)%nat → ends_name rest →
  parse_block_entity db true true (Mux.field_text (field_label b f) number ++ rest) =
    parse_attr_part db true true (b_count b) (bool_decide (b_count b ≠ 1)) (mk_context bix number (Some fix_) None) rest.
Proof.
  intros Hin Hn Hc Hlen Hrest. rewrite field_text_eq, <-!app_assoc. unfold parse_block_entity.
  rewrite (read_block_part db bix b fix_ f number (fd_name f ++ rest)) by done. cbn [mbind outcome_bind].
  destruct Hin. pose proof (fn_first _ fi_field_name0) as Hfirst. pose proof (fn_length _ fi_field_name0) as Hflen.
  change (read_char 46 ([46] ++ fd_name f ++ rest)) with (true, fd_name f ++ rest). cbn beta iota.
  assert (read_char 42 (fd_name f ++ rest) = (false, fd_name f ++ rest)) as ->.
  { destruct (fd_name f) as [|c t]; [simpl in Hflen; lia|]. cbn in Hfirst |- *. unfold read_char. cbn.
    rewrite decide_False; [done|]. intros ->. done. }
  cbn beta iota. unfold parse_field_name. rewrite read_alphanum by done.
  cbn [ec_block]. rewrite (at_index_some _ _ _ fi_block_at0). cbn [mbind outcome_bind].
  unfold lookup_field. rewrite (lookup_st _ _ fix_) by done. done.
Qed.

Lemma number_ok b number : 0 ≤ number < b_count b →
  check_block_number (b_count b) (Some (bool_decide (b_count (TF := T) b ≠ 1))) = OK tt.
Proof.
  intros Hn. unfold check_block_number. destruct (decide (b_count b = 1)) as [->|Hne]; [done|].
  by rewrite (bool_decide_true (b_count b ≠ 1)).
Qed.

(** C27: the name [format_field_name] gives to an instance of a field, as in reports of
    changes and lists of sources, is accepted in a command and leads back to the
    same block, instance and field; with the name of an attribute after it, to
    that attribute. *)
Theorem entity_names_read_back db bix b fix_ f number : field_in db bix b fix_ f →
  0 ≤ number < b_count b → b_count b < 2 ^ 31 →
  (length (b_name b) + length (number_digits b number) < PosOut.MAX_NAME_LENGTH)%nat →
  compute_entity_handler db (Mux.field_text (field_label b f) number) =
    Ret (OK (mk_context bix number (Some fix_) None, block_field_actions)) ∧
  ∀ attr aix, Forall (λ c, valid_name_char c = true) attr → (0 < length attr < PosOut.MAX_NAME_LENGTH)%nat →
    st_wf (fd_attrs f) → st_map (fd_attrs f) !! attr = Some (Some aix) →
    compute_entity_handler db (Mux.field_text (field_label b f) number ++ [46] ++ attr) =
      Ret (OK (mk_context bix number (Some fix_) (Some aix), field_attr_actions)).
Proof.
  intros Hin Hn Hc Hlen. unfold compute_entity_handler. split.
  - rewrite <-(app_nil_r (Mux.field_text _ _)). rewrite (read_field_part db bix b fix_ f number []) by done.
    unfold parse_attr_part. rewrite (number_ok b number) by done. done.
  - intros attr aix Hattr Halen Hwf Hmap. rewrite (read_field_part db bix b fix_ f number) by (done || apply dot_ends).
    unfold parse_attr_part. rewrite (number_ok b number) by done.
    change (read_char 46 ([46] ++ attr)) with (true, attr). cbn beta iota.
    assert (read_char 42 attr = (false, attr)) as ->.
    { destruct attr as [|c t]; [done|]. apply list.Forall_cons in Hattr as [Hca _]. unfold read_char. cbn.
      rewrite decide_False; [done|]. by intros ->. }
    cbn beta iota. unfold parse_attr_name.
    assert (parse_name PosOut.MAX_NAME_LENGTH attr = (OK attr, [])) as ->.
    { apply parse_name_iff. split; [by rewrite app_nil_r|done|done|done]. }
    cbn [ec_field Enums.call mbind outcome_bind]. rewrite (at_index_some _ _ _ (fi_field_at _ _ _ _ _ Hin)).
    cbn [mbind outcome_bind]. unfold lookup_attr. rewrite (lookup_st _ _ aix) by done. done.
Qed.
End names.

(** ** A concrete name *)

Section example.
#[local] Existing Instance X86_64.
#[local] Existing Instance keep_string_table.
Import FieldsSpec.
Abbreviation table := (HashTable.hash_table (K := cstring) (V := nat)).

Definition example_block : block table := default (mk_block [] 0 0 st_create None) (blocks example_database !! 0%nat).
Definition example_field : field (C := unit) table :=
  default (mk_field 0 [] example_class 0 None st_create 0 false) (all_fields example_database !! 0%nat).

Lemma entity_names_read_back_witness :
  Mux.field_text (field_label example_block example_field) 1 = bytes_of "PULSE2.DELAY" ∧
  compute_entity_handler example_database (bytes_of "PULSE2.DELAY") =
    Ret (OK (mk_context 0 1 (Some 0%nat) None, block_field_actions)).
Proof.
  assert (Mux.field_text (field_label example_block example_field) 1 = bytes_of "PULSE2.DELAY") as E by by vm_compute.
  split; [exact E|]. rewrite <-E.
  assert (1 < b_count example_block) as Hn by by vm_compute.
  assert (b_count example_block < 2 ^ 31) as Hc by by vm_compute.
  assert (length (b_name example_block) + length (number_digits example_block 1) < PosOut.MAX_NAME_LENGTH)%nat as Hl
    by (apply Nat.ltb_lt; by vm_compute).
  destruct (λ Hin, entity_names_read_back example_database 0 example_block 0 example_field 1 Hin (conj Z.le_0_1 Hn) Hc Hl)
    as [Hread _]; [|exact Hread].
  destruct example_tables as [Hb Hf].
  split; [exact Hb|by vm_compute|by vm_compute| | |by vm_compute|by vm_compute|].
  - split; [by vm_compute; repeat constructor|by vm_compute|].
    exists 69, (bytes_of "SLUP"). split; by vm_compute.
  - exact (Forall_lookup_1 _ _ 0%nat example_block Hf eq_refl).
  - split; [by vm_compute; repeat constructor|by vm_compute|]. split; apply Nat.ltb_lt; by vm_compute.
Defined.
End example.

End EntitySpec.
