(* ===== verification/Floats.v ===== *)
(** * Text of floating point numbers: parse_double, format_double

    [strtod] and [printf("%.10g")] on IEEE doubles, correctly rounded as the C
    library of the server does, the parser of parse.c and the formatter of
    config_server.c on top of them, and the rounding functions types.c and
    time.c use.  The server stays in the "C" locale.  The sign of a NaN is not
    represented: it prints as the default NaN of ARM does. *)

From S2P Require Import Prelude Errors Parse Format StdDev.
From Stdlib Require Import SpecFloat.
From stdpp Require Import base numbers list option strings.
Open Scope Z_scope.

Module Floats.
Import Double Parse Format.

(** ** Exact values *)

(** A positive rational with a sign, correctly rounded. *)
Definition round_rational (neg : bool) (num den : Z) : double :=
  match num, den with
  | Zpos n, Zpos d => div (S754_finite neg n 0) (S754_finite false d 0)
  | _, _ => S754_zero neg
  end.

(** The value of a finite double as a fraction: numerator without its sign, and
    denominator. *)
Definition fraction (d : double) : option (bool * Z * Z) :=
  match d with
  | S754_zero neg => Some (neg, 0, 1)
  | S754_finite neg m e => Some (neg, Zpos m * 2 ^ Z.max e 0, 2 ^ Z.max (- e) 0)
  | _ => None
  end.
Definition signed (neg : bool) (x : Z) : Z := if neg then - x else x.

(** [low <= d] and [d <= high] for integers that are doubles. *)
Definition Z_le_double (low : Z) (d : double) : bool :=
  match d with
  | S754_nan => false
  | S754_infinity neg => negb neg
  | _ => match fraction d with Some (neg, n, m) => bool_decide (low * m ≤ signed neg n) | None => false end
  end.
Definition double_le_Z (d : double) (high : Z) : bool :=
  match d with
  | S754_nan => false
  | S754_infinity neg => neg
  | _ => match fraction d with Some (neg, n, m) => bool_decide (signed neg n ≤ high * m) | None => false end
  end.

(** [round] and [llround], halves away from zero, where the result is a number. *)
Definition round_away (d : double) : option Z :=
  '(neg, n, m) ← fraction d; Some (signed neg ((2 * n + m) / (2 * m))).
(** The conversion of a double to an integer drops the fraction. *)
Definition truncate (d : double) : option Z :=
  '(neg, n, m) ← fraction d; Some (signed neg (n / m)).

(** ** strtod *)

Definition lower (c : Z) : Z := if decide (65 ≤ c ≤ 90) then c + 32 else c.
(** The text after [word], whatever the case of its letters. *)
Definition read_word (word s : cstring) : option cstring :=
  if decide (lower <$> take (length word) s = word) then Some (drop (length word) s) else None.

(** Digits with an optional point: value, number of digits after the point, rest. *)
Definition scan_mantissa (base : Z) (s : cstring) : option (Z * Z * cstring) :=
  let '(whole, r1) := digits base 0 s in
  let '(m, places, rest) :=
    match r1 with
    | c :: r2 =>
        if decide (c = 46) then
          let '(m, r3) := digits base whole r2 in (m, Z.of_nat (length r2 - length r3), r3)
        else (whole, 0, r1)
    | [] => (whole, 0, r1)
    end in
  if decide (is_Some (digit_in base (cur s)) ∨ 0 < places) then Some (m, places, rest) else None.

(** The exponent counts only when it has a digit. *)
Definition scan_exponent (letter : Z) (s : cstring) : Z * cstring :=
  match s with
  | c :: t =>
      if decide (lower c = letter) then
        let '(neg, u) := read_sign t in
        match digit_in 10 (cur u) with
        | Some _ => let '(e, rest) := digits 10 0 u in (signed neg e, rest)
        | None => (0, s)
        end
      else (0, s)
  | [] => (0, s)
  end.

(** What is written is [m * base ^ k]. *)
Definition scan_hex (s : cstring) : option (Z * Z * Z * cstring) :=
  match s with
  | z :: x :: t =>
      if decide (z = 48 ∧ lower x = 120) then
        '(m, places, rest) ← scan_mantissa 16 t;
        let '(e, rest) := scan_exponent 112 rest in Some (2, m, e - 4 * places, rest)
      else None
  | _ => None
  end.
Definition scan_decimal (s : cstring) : option (Z * Z * Z * cstring) :=
  '(m, places, rest) ← scan_mantissa 10 s;
  let '(e, rest) := scan_exponent 101 rest in Some (10, m, e - places, rest).

(** [nan], or [nan(chars)] when the parenthesis is closed. *)
Fixpoint nan_chars (s : cstring) : cstring :=
  match s with
  | c :: t => if valid_name_char c || isdigit c then nan_chars t else s
  | [] => []
  end.
Definition scan_nan (s : cstring) : cstring :=
  match s with
  | c :: t =>
      if decide (c = 40) then match nan_chars t with d :: rest => if decide (d = 41) then rest else s | [] => s end
      else s
  | [] => s
  end.

(** The double for [m * base ^ k], and whether it is out of range. *)
Definition to_double (neg : bool) (base m k : Z) : double * option errno :=
  let num := m * base ^ Z.max k 0 in
  let den := base ^ Z.max (- k) 0 in
  let d := round_rational neg num den in
  let erange :=
    match d with
    | S754_infinity _ => true
    | _ => bool_decide (0 < num ∧ num * 2 ^ 1022 < den) &&
           match fraction d with Some (_, n, e) => bool_decide (n * den ≠ num * e) | None => false end
    end in
  (d, if erange then Some ERANGE else None).

Definition strtod (s : cstring) : double * cstring * option errno :=
  let '(neg, t) := read_sign (skip_isspace s) in
  match read_word (bytes_of "infinity") t, read_word (bytes_of "inf") t, read_word (bytes_of "nan") t with
  | Some rest, _, _ => (S754_infinity neg, rest, None)
  | None, Some rest, _ => (S754_infinity neg, rest, None)
  | None, None, Some rest => (S754_nan, scan_nan rest, None)
  | None, None, None =>
      match (match scan_hex t with Some r => Some r | None => scan_decimal t end) with
      | Some (base, m, k, rest) => let '(d, eno) := to_double neg base m k in (d, rest, eno)
      | None => (S754_zero false, s, None)
      end
  end.

Definition parse_double : parser double := λ start,
  let '(value, end_, eno) := strtod start in
  ((_ ← check_number start end_ eno; mret value), end_).

(** ** "%.10g" and "%.12g" *)

(** The largest power of ten that is at most [num / den]. *)
Definition decimal_exponent (num den : Z) : Z :=
  if decide (den ≤ num) then Z.of_nat (length (print_uint 10 (num / den))) - 1
  else - Z.of_nat (length (print_uint 10 ((den + num - 1) / num - 1))).

(** [num / den] rounded to an integer, halves to even. *)
Definition round_even (num den : Z) : Z :=
  let q := num / den in
  match Z.compare (2 * (num mod den)) den with
  | Lt => q
  | Gt => q + 1
  | Eq => if Z.even q then q else q + 1
  end.

(** [precision] digits, and the exponent of the first. *)
Definition decimal_digits (precision num den : Z) : Z * Z :=
  let x := decimal_exponent num den in
  let n := round_even (num * 10 ^ Z.max (precision - 1 - x) 0) (den * 10 ^ Z.max (x - (precision - 1)) 0) in
  if decide (n = 10 ^ precision) then (10 ^ (precision - 1), x + 1) else (n, x).

Fixpoint drop_zeros (l : cstring) : cstring :=
  match l with c :: t => if decide (c = 48) then drop_zeros t else l | [] => [] end.
Definition strip_zeros (ds : cstring) : cstring := rev (drop_zeros (rev ds)).
Definition with_fraction (whole frac : cstring) : cstring :=
  match strip_zeros frac with [] => whole | f => whole ++ [46] ++ f end.

Definition print_exponent (x : Z) : cstring :=
  let ds := print_uint 10 (Z.abs x) in
  [101; if decide (x < 0) then 45 else 43] ++ replicate (2 - length ds) 48 ++ ds.

Definition fmt_g (precision : Z) (d : double) : cstring :=
  match d with
  | S754_nan => bytes_of "nan"
  | S754_infinity neg => (if neg then [45] else []) ++ bytes_of "inf"
  | S754_zero neg => (if neg then [45] else []) ++ [48]
  | _ =>
      match fraction d with
      | None => []
      | Some (neg, num, den) =>
          let '(n, x) := decimal_digits precision num den in
          let ds := print_uint 10 n in
          (if neg then [45] else []) ++
          (if decide (x < -4 ∨ precision ≤ x) then with_fraction (take 1 ds) (drop 1 ds) ++ print_exponent x
           else if decide (0 ≤ x) then with_fraction (take (Z.to_nat (x + 1)) ds) (drop (Z.to_nat (x + 1)) ds)
           else with_fraction [48] (replicate (Z.to_nat (- x - 1)) 48 ++ ds))
      end
  end.

Definition fmt_10g : double → cstring := fmt_g 10.

(** [format_double]: the text without leading blanks. *)
Definition format_double (length_ : nat) (d : double) : res cstring :=
  text ← format_string length_ (fmt_10g d); mret (skip_whitespace text).

(** ** Examples *)

Example strtod_decimal : strtod (bytes_of " -12.5e-1x") = (S754_finite true 5629499534213120 (-52), [120], None).
Proof. vm_compute. reflexivity. Qed.
Example strtod_hex : strtod (bytes_of "0x1.8p1") = (S754_finite false 6755399441055744 (-51), [], None).
Proof. vm_compute. reflexivity. Qed.
Example strtod_large : strtod (bytes_of "1e309") = (S754_infinity false, [], Some ERANGE).
Proof. vm_compute. reflexivity. Qed.
Example fmt_10g_examples :
  (fmt_10g <$> [(strtod (bytes_of "0.1")).1.1; (strtod (bytes_of "123456789012")).1.1; (strtod (bytes_of "-1.5e-5")).1.1;
                (strtod (bytes_of "1e10")).1.1; (strtod (bytes_of "9999999999.5")).1.1; (strtod (bytes_of "-250")).1.1]) =
  [bytes_of "0.1"; bytes_of "1.23456789e+11"; bytes_of "-1.5e-05"; bytes_of "1e+10"; bytes_of "1e+10"; bytes_of "-250"].
Proof. vm_compute. reflexivity. Qed.

End Floats.
