(* ===== verification/TimeClass.v ===== *)
(** * Times: panda-server/server/time.c

    The class [time], whose fields are 48-bit numbers of clock ticks in two
    registers, and what the type [time] of 32-bit registers shares with it.  A
    time is read and written in one of four units. *)

From S2P Require Import Prelude Errors Parse Format HashTable HashTableSpec Enums StdDev Capture Changes Hardware Fields Floats.
From stdpp Require Import base numbers list list_numbers gmap option strings.
Open Scope Z_scope.

Module TimeClass.
Import Double Parse Format Capture Changes Hardware Floats.

Definition TIME_SECS : Z := 1.
Definition time_units_enum_set : list Enums.enum_entry :=
  [Enums.mk_enum 0 (Some (bytes_of "min")); Enums.mk_enum 1 (Some (bytes_of "s"));
   Enums.mk_enum 2 (Some (bytes_of "ms")); Enums.mk_enum 3 (Some (bytes_of "us"))].

(** The doubles [60.0], [1.0], [1e-3] and [1e-6]. *)
Definition time_conversion : list double :=
  [of_Z 60; of_Z 1; round_rational false 1 (10 ^ 3); round_rational false 1 (10 ^ 6)].

Definition UINT32_MAX : Z := 2 ^ 32 - 1.

Section time.
Context `{Platform} `{Fpga} {T : Type} `{!StringTable Z T}.
Abbreviation enumeration := (Enums.enumeration (T := T)).

(** [initialise_time]. *)
Definition time_units_enumeration : outcome enumeration := Enums.create_static_enumeration time_units_enum_set.

(** ** Conversions *)

(** [time_class_format]: the clock is read each time. *)
Definition time_class_format (f : fpga) (value scale : Z) (length_ : nat) : outcome (res cstring * fpga) :=
  conversion ← at_index time_conversion (Z.to_nat scale);
  let '(clock, f) := hw_read_nominal_clock f in
  Ret (format_double length_ (div (div (of_Z value) conversion) (of_Z clock)), f).

(** The test and the rounding of [time_class_parse]. *)
Definition time_value (scaled_value conversion : double) (clock max_value : Z) : res Z :=
  let value := mul (mul scaled_value conversion) (of_Z clock) in
  _ ← test_ok (Z_le_double 0 value && double_le_Z value max_value) "Time setting out of range";
  mret (u64 (default 0 (round_away value))).
Definition time_class_parse (f : fpga) (scale max_value : Z) (string : cstring) : outcome (res Z * cstring * fpga) :=
  match parse_double string with
  | (Err e, rest) => Ret (Err e, rest, f)
  | (OK scaled_value, rest) =>
      conversion ← at_index time_conversion (Z.to_nat scale);
      let '(clock, f) := hw_read_nominal_clock f in
      Ret (time_value scaled_value conversion clock max_value, rest, f)
  end.

(** [shared_units_format] and [shared_units_parse]. *)
Definition shared_units_format (units : enumeration) (scale : Z) (length_ : nat) : outcome (res cstring) :=
  name ← Enums.enum_index_to_name units scale;
  match name with
  | None => Panic
  | Some name => Ret (format_string length_ name)
  end.
Definition shared_units_parse (units : enumeration) (string : cstring) : outcome (res Z) :=
  scale ← Enums.enum_name_to_index units string;
  Ret (match scale with Some scale => OK scale | None => fail "Invalid time units" end).

(** ** The class *)

(** [struct time_class_state]; [count] is the length of [values]. *)
Record time_field := mk_time_field { tf_scale : Z; tf_value : Z; tf_update_index : Z }.
Record time_class_state := mk_time_class {
  tc_block_base : Z;
  tc_low_register : Z;
  tc_high_register : Z;
  tc_values : list time_field;
}.
Definition set_tc_values (s : time_class_state) (values : list time_field) : time_class_state :=
  mk_time_class (tc_block_base s) (tc_low_register s) (tc_high_register s) values.

Definition time_class_init (count : nat) : time_class_state :=
  mk_time_class UNASSIGNED_REGISTER UNASSIGNED_REGISTER UNASSIGNED_REGISTER (replicate count (mk_time_field TIME_SECS 0 1)).

(** [time_parse_register]: two registers separated by blanks. *)
Definition time_parse_register (types : list Fields.block_type) (s : time_class_state) (base : Z) (line : cstring)
    : outcome (error__t * list Fields.block_type * time_class_state * cstring) :=
  let s := mk_time_class base (tc_low_register s) (tc_high_register s) (tc_values s) in
  '(low, types, line) ← Fields.check_parse_register types base line;
  match low return outcome (error__t * list Fields.block_type * time_class_state * cstring) with
  | Err e => Ret (Some e, types, s, line)
  | OK low =>
      let s := mk_time_class base low (tc_high_register s) (tc_values s) in
      match parse_whitespace line with
      | (Err e, line) => Ret (Some e, types, s, line)
      | (OK _, line) =>
          '(high, types, line) ← Fields.check_parse_register types base line;
          match high return outcome (error__t * list Fields.block_type * time_class_state * cstring) with
          | Err e => Ret (Some e, types, s, line)
          | OK high => Ret (None, types, mk_time_class base low high (tc_values s), line)
          end
      end
  end.

Definition time_get (f : fpga) (s : time_class_state) (number length_ : nat) : outcome (res cstring * fpga) :=
  field ← at_index (tc_values s) number;
  time_class_format f (tf_value field) (tf_scale field) length_.

(** [write_time_value], with the counter of change indices [g]. *)
Definition write_time_registers (f : fpga) (s : time_class_state) (number : nat) (value : Z) : fpga :=
  let f := hw_write_register f (tc_block_base s) (Z.of_nat number) (tc_low_register s) (u32 value) in
  hw_write_register f (tc_block_base s) (Z.of_nat number) (tc_high_register s) (u32 (Z.shiftr value 32)).
Definition write_time_value (f : fpga) (s : time_class_state) (g : Z) (number : nat) (value : Z)
    : outcome (fpga * time_class_state * Z) :=
  field ← at_index (tc_values s) number;
  let g := get_change_index g in
  Ret (write_time_registers f s number value,
       set_tc_values s (<[number := mk_time_field (tf_scale field) value g]> (tc_values s)), g).

Definition time_put (f : fpga) (s : time_class_state) (g : Z) (number : nat) (string : cstring)
    : outcome (error__t * fpga * time_class_state * Z) :=
  field ← at_index (tc_values s) number;
  '(result, rest, f) ← time_class_parse f (tf_scale field) MAX_CLOCK_VALUE string;
  match (result ← result; _ ← (parse_eos rest).1; mret result) return outcome (error__t * fpga * time_class_state * Z) with
  | Err e => Ret (Some e, f, s, g)
  | OK result => '(f, s, g) ← write_time_value f s g number result; Ret (None, f, s, g)
  end.

Definition time_change_set (s : time_class_state) (report_index : Z) : list bool :=
  (λ field, changed_since report_index (tf_update_index field)) <$> tc_values s.

(** ** Attributes *)

Definition time_raw_format (s : time_class_state) (number length_ : nat) : outcome (res cstring) :=
  field ← at_index (tc_values s) number; Ret (format_string length_ (fmt_u (tf_value field))).
Definition time_raw_put (f : fpga) (s : time_class_state) (g : Z) (number : nat) (string : cstring)
    : outcome (error__t * fpga * time_class_state * Z) :=
  match (value ← parse_uint64; _ ← parse_eos; mret value) string with
  | (Err e, _) => Ret (Some e, f, s, g)
  | (OK value, _) => '(f, s, g) ← write_time_value f s g number value; Ret (None, f, s, g)
  end.
Definition time_class_units_format (units : enumeration) (s : time_class_state) (number length_ : nat) : outcome (res cstring) :=
  field ← at_index (tc_values s) number; shared_units_format units (tf_scale field) length_.
Definition time_class_units_put (units : enumeration) (s : time_class_state) (g : Z) (number : nat) (string : cstring)
    : outcome (error__t * time_class_state * Z) :=
  scale ← shared_units_parse units string;
  match scale with
  | Err e => Ret (Some e, s, g)
  | OK scale =>
      field ← at_index (tc_values s) number;
      let g := get_change_index g in
      Ret (None, set_tc_values s (<[number := mk_time_field scale (tf_value field) g]> (tc_values s)), g)
  end.

(** ** The type: the scale of every instance *)

Definition time_type_init (count : nat) : list Z := replicate count TIME_SECS.
Definition time_parse (f : fpga) (scales : list Z) (number : nat) (string : cstring) : outcome (res Z * cstring * fpga) :=
  scale ← at_index scales number;
  '(result, rest, f) ← time_class_parse f scale UINT32_MAX string;
  Ret (match result with OK v => OK (u32 v) | Err e => Err e end, rest, f).
Definition time_format (f : fpga) (scales : list Z) (number : nat) (value : Z) (length_ : nat) : outcome (res cstring * fpga) :=
  scale ← at_index scales number; time_class_format f value scale length_.
Definition time_type_units_format (units : enumeration) (scales : list Z) (number length_ : nat) : outcome (res cstring) :=
  scale ← at_index scales number; shared_units_format units scale length_.
Definition time_type_units_put (units : enumeration) (scales : list Z) (number : nat) (string : cstring)
    : outcome (error__t * list Z) :=
  scale ← shared_units_parse units string;
  match scale with
  | Err e => Ret (Some e, scales)
  | OK scale => _ ← at_index scales number; Ret (None, <[number := scale]> scales)
  end.

(** ** What a write does *)

Lemma double_le_round d max :
  Z_le_double 0 d = true → double_le_Z d max = true → ∃ v, round_away d = Some v ∧ 0 ≤ v ≤ max.
Proof.
  unfold round_away. destruct d as [neg|[]| |neg m e]; try done; cbn [Z_le_double double_le_Z fraction];
    rewrite !bool_decide_eq_true; intros Hlo Hhi; eexists; (split; [reflexivity|]).
  { change ((2 * 0 + 1) / (2 * 1)) with 0. destruct neg; unfold signed in *; lia. }
  set (n := Zpos m * 2 ^ Z.max e 0) in *. set (q := 2 ^ Z.max (- e) 0) in *.
  assert (0 < q) by (unfold q; lia). assert (0 < n) by (unfold n; lia).
  destruct neg; cbn [signed] in *; [lia|]. split; [apply Z.div_pos; lia|].
  enough ((2 * n + q) / (2 * q) < max + 1) by lia. apply Z.div_lt_upper_bound; lia.
Qed.

Lemma time_value_range scaled conversion clock max v :
  0 ≤ max < 2 ^ 64 → time_value scaled conversion clock max = OK v →
  0 ≤ v ≤ max ∧ round_away (mul (mul scaled conversion) (of_Z clock)) = Some v.
Proof.
  intros Hmax. unfold time_value, test_ok, TEST_OK_.
  destruct (Z_le_double _ _ && double_le_Z _ _) eqn:E; [|done].
  apply andb_prop in E as [Hlo Hhi]. destruct (double_le_round _ _ Hlo Hhi) as (v' & Hr & Hv).
  cbn. rewrite Hr. intros [= <-]. cbn. rewrite wrap_small by lia. done.
Qed.

(** A time written through [time_put] is the text times its unit times the clock,
    rounded to ticks; it never exceeds 48 bits, the two registers hold its low 32
    and its high 16 bits, and the value kept for reading is the one written.  A
    refused text changes neither the registers nor the state. *)
Theorem time_put_registers f s g number string field e f' s' g' :
  tc_values s !! number = Some field →
  time_put f s g number string = Ret (e, f', s', g') →
  match e with
  | Some _ => s' = s ∧ g' = g ∧ (f' = f ∨ f' = (hw_read_nominal_clock f).2)
  | None =>
      ∃ scaled conversion v,
        (parse_double string).1 = OK scaled ∧ time_conversion !! Z.to_nat (tf_scale field) = Some conversion ∧
        let '(clock, f1) := hw_read_nominal_clock f in
        round_away (mul (mul scaled conversion) (of_Z clock)) = Some v ∧
        0 ≤ v < 2 ^ 48 ∧
        f' = fpga_write (fpga_write f1 (make_offset (tc_block_base s) (Z.of_nat number) (tc_low_register s)) (v mod 2 ^ 32))
               (make_offset (tc_block_base s) (Z.of_nat number) (tc_high_register s)) (v / 2 ^ 32) ∧
        v / 2 ^ 32 < 2 ^ 16 ∧
        tc_values s' !! number = Some (mk_time_field (tf_scale field) v g') ∧ g' = get_change_index g
  end.
Proof.
  intros Hf. unfold time_put. rewrite (at_index_some _ _ _ Hf). cbn [mbind outcome_bind].
  unfold time_class_parse. destruct (parse_double string) as [[scaled|er] rest] eqn:Ep.
  2:{ cbn. intros [= <- <- <- <-]. eauto. }
  unfold at_index at 1. destruct (time_conversion !! Z.to_nat (tf_scale field)) as [conversion|] eqn:Ec; [|done].
  cbn [mbind outcome_bind]. destruct (hw_read_nominal_clock f) as [clock f1] eqn:Eh.
  cbn [mbind outcome_bind res_bind mret res_ret].
  destruct (time_value scaled conversion clock MAX_CLOCK_VALUE) as [v|er] eqn:Ev;
    cbn [mbind res_bind]; [|intros [= <- <- <- <-]; eauto].
  destruct ((parse_eos rest).1) as [[]|er]; cbn [mbind res_bind mret res_ret]; [|intros [= <- <- <- <-]; eauto].
  apply time_value_range in Ev as [Hv Hr]; [|unfold MAX_CLOCK_VALUE; lia].
  unfold write_time_value. rewrite (at_index_some _ _ _ Hf). cbn [mbind outcome_bind]. intros [= <- <- <- <-].
  exists scaled, conversion, v. unfold MAX_CLOCK_VALUE in Hv.
  assert (Hh : v / 2 ^ 32 < 2 ^ 16) by (apply Z.div_lt_upper_bound; lia).
  split_and!; try done; [lia|lia| |].
  - unfold write_time_registers, hw_write_register. rewrite !wrap_wrap, Z.shiftr_div_pow2 by lia.
    by rewrite (wrap_small 32 (v / 2 ^ 32)) by (split; [apply Z.div_pos|]; lia).
  - cbn. apply list_lookup_insert_eq. by eapply lookup_lt_Some.
Qed.

(** The raw value is not checked against the 48 bits: any 64-bit number is stored
    and shown, while the registers only hold what fits. *)
Theorem time_raw_unchecked f s g number field v :
  tc_values s !! number = Some field → 0 ≤ v < 2 ^ 64 →
  ∃ s', time_raw_put f s g number (fmt_u v) = Ret (None, write_time_registers f s number v, s', get_change_index g) ∧
    time_raw_format s' number 256 = Ret (format_string 256 (fmt_u v)).
Proof.
  intros Hf Hv. unfold time_raw_put, mbind at 1, parser_bind.
  pose proof (read_uint64_fmt v [] Hv) as E. rewrite app_nil_r in E. rewrite E by done. cbn.
  unfold write_time_value. rewrite (at_index_some _ _ _ Hf). cbn [mbind outcome_bind].
  eexists. split; [reflexivity|]. unfold time_raw_format. cbn.
  rewrite (at_index_some _ _ (mk_time_field (tf_scale field) v (get_change_index g))); [done|].
  apply list_lookup_insert_eq. by eapply lookup_lt_Some.
Qed.

End time.

(** ** Concrete times *)

Section example.
#[local] Existing Instance ARM32.
#[local] Existing Instance register_file.

Definition example_time : time_class_state := mk_time_class 3 5 6 [mk_time_field 3 0 1; mk_time_field 1 0 1].

(** 1.5 us at 125 MHz are 187.5 ticks. *)
Lemma time_put_registers_witness :
  match time_put ∅ example_time 7 0 (bytes_of "1.5") with
  | Ret (None, _, s, 8) => tc_values s !! 0%nat = Some (mk_time_field 3 188 8)
  | _ => False
  end.
Proof.
  assert (Hok : match time_put ∅ example_time 7 0 (bytes_of "1.5") with Ret (None, _, _, 8) => true | _ => false end = true)
    by (vm_compute; reflexivity).
  destruct (time_put ∅ example_time 7 0 (bytes_of "1.5")) as [[[[[e|] f] s] g]| |] eqn:E; [discriminate Hok| |discriminate Hok..].
  pose proof (time_put_registers ∅ example_time 7 0 (bytes_of "1.5") (mk_time_field 3 0 1) None f s g eq_refl E) as H.
  cbn [tf_scale] in H. destruct H as (scaled & conversion & v & Hs & Hc & H). vm_compute in Hs, Hc. clear E. injection Hs as <-. injection Hc as <-.
  destruct (hw_read_nominal_clock ∅) as [clock f1] eqn:Ec. vm_compute in Ec. injection Ec as <- _.
  destruct H as (Hv & _ & _ & _ & H & ->). vm_compute in Hv. injection Hv as <-. exact H.
Defined.

Lemma time_raw_unchecked_witness :
  ∃ s, time_raw_put ∅ example_time 7 1 (fmt_u (2 ^ 60)) =
         Ret (None, write_time_registers ∅ example_time 1 (2 ^ 60), s, get_change_index 7) ∧
       time_raw_format s 1 256 = Ret (format_string 256 (fmt_u (2 ^ 60))).
Proof. by apply (time_raw_unchecked ∅ example_time 7 1 (mk_time_field 1 0 1)). Defined.
End example.
End TimeClass.
