(* ===== verification/Types.v ===== *)
(** * Types of values: panda-server/server/types.c

    A type translates between the text of a value and the 32-bit number in its
    register.  The register behind it is a table of functions, some of which may
    be absent, on a state [R]; the types of times read the clock of the FPGA, which
    is part of that state. *)

From S2P Require Import Prelude Errors Parse Format Lut HashTable HashTableSpec Enums StdDev Capture PosOut Hardware Floats TimeClass.
From stdpp Require Import base numbers list list_numbers gmap option strings.
Open Scope Z_scope.

Module Types.
Import Double Parse Format Capture PosOut Hardware Floats TimeClass.

Definition INT_MIN : Z := - 2 ^ 31.
Definition INT_MAX : Z := 2 ^ 31 - 1.

#[export] Instance parse_lut_status_eq_dec : EqDecision Lut.parse_lut_status.
Proof. solve_decision. Defined.

(** [struct scalar_state], and an entry of [struct lut_state]. *)
Record scalar_state := mk_scalar { sc_scale : double; sc_offset : double; sc_units : option cstring }.
Record lut_field := mk_lut_field { lf_value : Z; lf_string : option cstring }.

(** [struct register_methods]. *)
Record register_methods (R : Type) := mk_register_methods {
  reg_read : option (R → nat → outcome (res Z * R));
  reg_write : option (R → nat → Z → outcome (error__t * R));
  reg_changed : option (R → nat → outcome R);
}.
#[global] Arguments mk_register_methods {R}.
#[global] Arguments reg_read {R}.
#[global] Arguments reg_write {R}.
#[global] Arguments reg_changed {R}.

(** The FPGA inside a larger state. *)
Class HasFpga `{Fpga} (R : Type) := { the_fpga : R → fpga; set_fpga : R → fpga → R }.

(** [check_for_option]. *)
Definition check_for_option (string : cstring) : bool :=
  bool_decide (cur string = 32) && bool_decide (cur (skip_whitespace string) ≠ 61).

(** [strtoul] with base 16. *)
Definition strtoul_16 `{Platform} (s : cstring) : Z * cstring :=
  let '(neg, s1) := read_sign (skip_isspace s) in
  let s2 := match s1 with
            | z :: x :: h :: t => if decide (z = 48 ∧ (x = 120 ∨ x = 88) ∧ is_Some (digit_in 16 h)) then h :: t else s1
            | _ => s1
            end in
  match digit_in 16 (cur s2) with
  | Some _ =>
      let '(m, end_) := digits 16 0 s2 in
      (if decide (2 ^ long_bits ≤ m) then 2 ^ long_bits - 1 else if neg : bool then wrap long_bits (- m) else m, end_)
  | None => (0, s)
  end.

(** [do_parse_lut]. *)
Definition do_parse_lut `{Platform} (string : cstring) : outcome (res Z) :=
  if decide (take 2 string = bytes_of "0x") then
    let '(value, end_) := strtoul_16 string in
    Ret (_ ← test_ok (bool_decide (cur end_ = 0) && bool_decide (2 < length string)%nat) "Bad LUT number"; mret (u32 value))
  else
    match Lut.parse_lut string with
    | None => Undef
    | Some r =>
        '(status, value) ← r;
        Ret (_ ← test_ok (bool_decide (status = Lut.LUT_PARSE_OK)) (Lut.parse_lut_error_string status); mret value)
    end.

Section types.
Context `{Platform} `{Fpga} {T : Type} `{!StringTable Z T} {R : Type} `{!HasFpga R}.
Abbreviation enumeration := (Enums.enumeration (T := T)).

(** The methods of a type with its data. *)
Inductive type_data :=
  | TYPE_UINT (max_value : Z)
  | TYPE_INT
  | TYPE_SCALAR (state : scalar_state)
  | TYPE_BIT
  | TYPE_ACTION
  | TYPE_LUT (values : list lut_field)
  | TYPE_TIME (scale : list Z)
  | TYPE_ENUM (e : enumeration).

Definition type_name (t : type_data) : string :=
  match t with
  | TYPE_UINT _ => "uint" | TYPE_INT => "int" | TYPE_SCALAR _ => "scalar" | TYPE_BIT => "bit"
  | TYPE_ACTION => "action" | TYPE_LUT _ => "lut" | TYPE_TIME _ => "time" | TYPE_ENUM _ => "enum"
  end.

(** ** Reading text *)

Definition uint_parse (max_value : Z) : parser Z :=
  value ← parse_uint; _ ← lift (test_ok (bool_decide (value ≤ max_value)) "Number out of range"); mret value.
Definition int_parse : parser Z := value ← parse_int; mret (u32 value).

(** [scalar_parse]: a negative double has no value as an [unsigned int]. *)
Definition scalar_value (s : scalar_state) (result : double) : outcome (res Z) :=
  match round_away (div (sub result (sc_offset s)) (sc_scale s)) with
  | Some r =>
      if bool_decide (INT_MIN ≤ r ≤ INT_MAX) then _ ← in_range (bool_decide (0 ≤ r)); Ret (OK r)
      else Ret (fail "Value out of range")
  | None => Ret (fail "Value out of range")
  end.
Definition scalar_parse (s : scalar_state) (string : cstring) : outcome (res Z * cstring) :=
  match parse_double string with
  | (Err e, rest) => Ret (Err e, rest)
  | (OK result, rest) => r ← scalar_value s result; Ret (r, rest)
  end.

Definition bit_parse : parser Z := result ← parse_bit; mret (Z.b2z result).

(** [lut_parse]: the text is kept with the value. *)
Definition lut_parse (values : list lut_field) (number : nat) (string : cstring)
    : outcome (res Z * cstring * list lut_field) :=
  r ← do_parse_lut string;
  match r with
  | Err e => Ret (Err e, string, values)
  | OK value => _ ← at_index values number; Ret (OK value, [], <[number := mk_lut_field value (Some string)]> values)
  end.

(** [methods->parse]. *)
Definition type_parse (w : R) (t : type_data) (number : nat) (string : cstring)
    : outcome (res Z * cstring * type_data * R) :=
  let simple (x : res Z * cstring) : outcome (res Z * cstring * type_data * R) := Ret (x.1, x.2, t, w) in
  match t return outcome (res Z * cstring * type_data * R) with
  | TYPE_UINT max_value => simple (uint_parse max_value string)
  | TYPE_INT => simple (int_parse string)
  | TYPE_SCALAR s => '(r, rest) ← scalar_parse s string; simple (r, rest)
  | TYPE_BIT => simple (bit_parse string)
  | TYPE_ACTION => simple (OK 0, string)
  | TYPE_LUT values => '(r, rest, values) ← lut_parse values number string; Ret (r, rest, TYPE_LUT values, w)
  | TYPE_TIME scale => '(r, rest, f) ← time_parse (the_fpga w) scale number string; Ret (r, rest, t, set_fpga w f)
  | TYPE_ENUM e => '(r, rest) ← Enums.enum_parse e string; simple (r, rest)
  end.

(** ** Writing text *)

Definition scalar_format (s : scalar_state) (value : Z) (length_ : nat) : res cstring :=
  format_double length_ (add (mul (sc_scale s) (of_Z (to_signed 32 value))) (sc_offset s)).
Definition lut_format (values : list lut_field) (number : nat) (value : Z) (length_ : nat) : outcome (res cstring) :=
  field ← at_index values number;
  Ret (format_string length_
         match lf_string field with
         | Some string => if bool_decide (value = lf_value field) then string else fmt_0x08X value
         | None => fmt_0x08X value
         end).

(** [methods->format], where the type has it. *)
Definition type_format (w : R) (t : type_data) : option (nat → Z → nat → outcome (res cstring * R)) :=
  match t with
  | TYPE_UINT _ => Some (λ number value length_, Ret (format_string length_ (fmt_u value), w))
  | TYPE_INT => Some (λ number value length_, Ret (format_string length_ (fmt_d (to_signed 32 value)), w))
  | TYPE_SCALAR s => Some (λ number value length_, Ret (scalar_format s value length_, w))
  | TYPE_BIT => Some (λ number value length_, Ret (format_string length_ (if bool_decide (value = 0) then [48] else [49]), w))
  | TYPE_ACTION => None
  | TYPE_LUT values => Some (λ number value length_, r ← lut_format values number value length_; Ret (r, w))
  | TYPE_TIME scale =>
      Some (λ number value length_, '(r, f) ← time_format (the_fpga w) scale number value length_; Ret (r, set_fpga w f))
  | TYPE_ENUM e => Some (λ number value length_, r ← Enums.enum_format e value length_; Ret (r, w))
  end.

(** ** The register behind a type *)

Definition read_type_register (reg : register_methods R) (w : R) (number : nat) : outcome (res Z * R) :=
  match reg_read reg with Some read => read w number | None => Ret (fail "Register cannot be read", w) end.
Definition write_type_register (reg : register_methods R) (w : R) (number : nat) (value : Z) : outcome (error__t * R) :=
  match reg_write reg with
  | Some write => write w number value
  | None => Ret (TEST_OK_ false "Register cannot be written", w)
  end.
Definition changed_type_register (reg : register_methods R) (w : R) (number : nat) : outcome R :=
  match reg_changed reg with Some changed => changed w number | None => Ret w end.

Definition type_get (reg : register_methods R) (w : R) (t : type_data) (number length_ : nat) : outcome (res cstring * R) :=
  match type_format w t return outcome (res cstring * R) with
  | None => Ret (fail ("Cannot read " +:+ type_name t +:+ " value"), w)
  | Some _ =>
      '(value, w) ← read_type_register reg w number;
      match value return outcome (res cstring * R) with
      | Err e => Ret (Err e, w)
      | OK value =>
          match type_format w t return outcome (res cstring * R) with
          | Some format => format number value length_
          | None => Undef
          end
      end
  end.
Definition type_put (reg : register_methods R) (w : R) (t : type_data) (number : nat) (string : cstring)
    : outcome (error__t * type_data * R) :=
  '(value, rest, t, w) ← type_parse w t number string;
  match (value ← value; _ ← (parse_eos rest).1; mret value) return outcome (error__t * type_data * R) with
  | Err e => Ret (Some e, t, w)
  | OK value => '(error, w) ← write_type_register reg w number value; Ret (error, t, w)
  end.

(** ** Attributes *)

Inductive type_attr :=
  | ATTR_UINT_MAX | ATTR_SCALAR_RAW | ATTR_SCALAR_UNITS | ATTR_SCALAR_SCALE | ATTR_SCALAR_OFFSET | ATTR_LUT_RAW
  | ATTR_TIME_RAW | ATTR_TIME_UNITS.
(** [methods->attrs]: names and methods. *)
Definition type_attrs (t : type_data) : list (string * type_attr) :=
  match t with
  | TYPE_UINT _ => [("MAX", ATTR_UINT_MAX)]
  | TYPE_SCALAR _ =>
      [("RAW", ATTR_SCALAR_RAW); ("UNITS", ATTR_SCALAR_UNITS); ("SCALE", ATTR_SCALAR_SCALE); ("OFFSET", ATTR_SCALAR_OFFSET)]
  | TYPE_LUT _ => [("RAW", ATTR_LUT_RAW)]
  | TYPE_TIME _ => [("RAW", ATTR_TIME_RAW); ("UNITS", ATTR_TIME_UNITS)]
  | _ => []
  end.

(** A read of the register, formatted. *)
Definition raw_format (text : Z → cstring) (reg : register_methods R) (w : R) (number length_ : nat) : outcome (res cstring * R) :=
  '(value, w) ← read_type_register reg w number;
  Ret (match value with OK value => format_string length_ (text value) | Err e => Err e end, w).
Definition raw_format_uint := raw_format fmt_u.
Definition raw_format_int := raw_format (λ value, fmt_d (to_signed 32 value)).
Definition lut_raw_format := raw_format fmt_0x08X.
Definition raw_put (parse : parser Z) (reg : register_methods R) (w : R) (number : nat) (string : cstring) : outcome (error__t * R) :=
  match (value ← parse; _ ← parse_eos; mret value) string return outcome (error__t * R) with
  | (Err e, _) => Ret (Some e, w)
  | (OK value, _) => write_type_register reg w number (u32 value)
  end.
Definition raw_put_uint := raw_put parse_uint.
Definition raw_put_int := raw_put parse_int.

Definition attr_format (units : enumeration) (reg : register_methods R) (w : R) (t : type_data) (a : type_attr)
    (number length_ : nat) : outcome (res cstring * R) :=
  match a, t with
  | ATTR_UINT_MAX, TYPE_UINT max_value => Ret (format_string length_ (fmt_u max_value), w)
  | ATTR_SCALAR_RAW, _ => raw_format_int reg w number length_
  | ATTR_SCALAR_UNITS, TYPE_SCALAR s => Ret (format_string length_ (default [] (sc_units s)), w)
  | ATTR_SCALAR_SCALE, TYPE_SCALAR s => Ret (format_double length_ (sc_scale s), w)
  | ATTR_SCALAR_OFFSET, TYPE_SCALAR s => Ret (format_double length_ (sc_offset s), w)
  | ATTR_LUT_RAW, _ => lut_raw_format reg w number length_
  | ATTR_TIME_RAW, _ => raw_format_uint reg w number length_
  | ATTR_TIME_UNITS, TYPE_TIME scale => r ← time_type_units_format units scale number length_; Ret (r, w)
  | _, _ => Undef
  end.
(** The attributes that can be written. *)
Definition attr_put (units : enumeration) (reg : register_methods R) (w : R) (t : type_data) (a : type_attr)
    (number : nat) (string : cstring) : option (outcome (error__t * type_data * R)) :=
  match a, t return option (outcome (error__t * type_data * R)) with
  | ATTR_SCALAR_RAW, _ => Some ('(error, w) ← raw_put_int reg w number string; Ret (error, t, w))
  | ATTR_TIME_RAW, _ => Some ('(error, w) ← raw_put_uint reg w number string; Ret (error, t, w))
  | ATTR_TIME_UNITS, TYPE_TIME scale =>
      Some ('(error, scale) ← time_type_units_put units scale number string;
            match error return outcome (error__t * type_data * R) with
            | Some e => Ret (Some e, TYPE_TIME scale, w)
            | None => w ← changed_type_register reg w number; Ret (None, TYPE_TIME scale, w)
            end)
  | _, _ => None
  end.

(** ** Creation *)

Definition uint_init : parser type_data := λ string,
  if check_for_option string then (max_value ← parse_uint; mret (TYPE_UINT max_value)) string
  else (OK (TYPE_UINT UINT32_MAX), string).
(** A blank and what follows it, if there is one. *)
Definition after_blank {A} (p : parser A) (otherwise : A) : parser A := λ string,
  let '(more, rest) := read_char 32 string in if more then p rest else (OK otherwise, rest).
Definition scalar_init : parser type_data :=
  _ ← parse_char (Ascii.ascii_of_nat 32);
  scale ← parse_double;
  '(offset, units) ← after_blank (offset ← parse_double;
                                  units ← after_blank (u ← parse_utf8_string; mret (Some u)) None; mret (offset, units))
                       (of_Z 0, None);
  mret (TYPE_SCALAR (mk_scalar scale offset units)).

(** [lookup_type] and [methods->init], in the order of [types_table]. *)
Definition types_table (count : nat) : list (string * parser type_data) :=
  [("uint", uint_init); ("int", mret TYPE_INT); ("scalar", scalar_init); ("bit", mret TYPE_BIT); ("action", mret TYPE_ACTION);
   ("lut", mret (TYPE_LUT (replicate count (mk_lut_field 0 None)))); ("time", mret (TYPE_TIME (time_type_init count)));
   ("enum", mret (TYPE_ENUM Enums.enum_init))].
Definition lookup_type (name : cstring) (count : nat) : res (parser type_data) :=
  match list_find (λ m, bytes_of m.1 = name) (types_table count) with
  | Some (_, m) => OK m.2
  | None => fail ("Unknown field type " +:+ Enums.text_of name)
  end.
Definition named_type (count : nat) : parser type_data :=
  name ← parse_name MAX_NAME_LENGTH; init ← lift (lookup_type name count); init.
(** [create_type]: on an empty line the default is parsed instead, and the cursor
    stays where it is. *)
Definition create_type (default_type : option string) (count : nat) : parser type_data := λ line,
  match default_type with
  | Some d => if bool_decide (cur line = 0) then ((named_type count (bytes_of d)).1, line)
              else (_ ← parse_whitespace; named_type count) line
  | None => (_ ← parse_whitespace; named_type count) line
  end.

End types.
End Types.
