(* ===== verification/Extension.v ===== *)
(** * The extension server: panda-server/server/extension.c

    Registers that the FPGA does not have belong to an external server: the lines
    sent to it, the answers that are accepted, and the syntax of such registers in
    the configuration.  The server at the other end of the socket is a parameter:
    its answer to a line, if one arrives. *)

From S2P Require Import Prelude Errors Parse Format Enums Capture Hardware.
From stdpp Require Import base numbers list list_numbers gmap option strings pretty.
Open Scope Z_scope.

(** The other end: [None] when the line cannot be sent or no answer is read. *)
Class ExtensionServer := {
  ext_server : Type;
  ext_answer : ext_server → list Z → option (list Z) * ext_server;
}.

(** A server that gives prepared answers. *)
Definition scripted_server : ExtensionServer := {|
  ext_server := list (list Z);
  ext_answer answers _ := match answers with a :: rest => (Some a, rest) | [] => (None, []) end;
|}.

Module Extension.
Import Parse Format Hardware.

Definition MESSAGE_LENGTH : nat := 256.
Definition PARSE_MESSAGE_LENGTH : nat := 128.

Section extension.
Context `{Platform} `{Fpga} `{ExtensionServer}.

(** The connection: [None] when there is no extension server. *)
Abbreviation connection := (option ext_server).

(** [extension_server_exchange], for an answer of [count] numbers. *)
Definition parse_answer (prefix : Z) (count : nat) (response : cstring) : outcome (res (list Z)) :=
  let '(ok, response') := read_char prefix response in
  if ok then
    match (r ← parse_uint_array count; _ ← parse_eos; mret r) response' with
    | (OK result, _) => Ret (OK result)
    | (Err e, rest) =>
        e' ← ERROR_EXTEND (Some e)
          ("Error at offset " +:+ pretty (Z.of_nat (length response - length rest) + 1) +:+ " in response " +:+
           Enums.quote +:+ Enums.text_of response +:+ Enums.quote);
        Ret (match e' with Some e' => Err e' | None => Err e end)
    end
  else Ret (match parse_char (Ascii.ascii_of_nat 69) response with
            | (Err e, _) => Err e
            | (OK _, rest) => fail (Enums.text_of rest)
            end).
Definition extension_server_exchange (c : connection) (message : list Z) (count : nat)
    : outcome (res (list Z) * connection) :=
  match c with
  | None => Ret (fail "Extension server not running", c)
  | Some s =>
      match ext_answer s message with
      | (None, s) => Ret (fail "Extension server communication failure", Some s)
      | (Some response, s) =>
          _ ← in_range (bool_decide (0 < length message)%nat);
          r ← parse_answer (cur message) count response; Ret (r, Some s)
      end
  end.
Definition exchange_one (c : connection) (message : list Z) : outcome (res Z * connection) :=
  '(r, c) ← extension_server_exchange c message 1;
  Ret (match r with OK (x :: _) => OK x | OK [] => fail EmptyString | Err e => Err e end, c).

Definition extension_server_parse_block (c : connection) (count : Z) (request : cstring) : outcome (res Z * connection) :=
  match format_string PARSE_MESSAGE_LENGTH ([66] ++ fmt_d (to_signed 32 count) ++ [32] ++ request ++ [10]) with
  | Err e => Ret (Err e, c)
  | OK message => exchange_one c message
  end.
Definition extension_server_parse_field (c : connection) (block_id : Z) (write_not_read : bool) (request : cstring)
    : outcome (res Z * connection) :=
  match format_string PARSE_MESSAGE_LENGTH
          ([80; if write_not_read then 87 else 82] ++ fmt_d (to_signed 32 block_id) ++ [32] ++ request ++ [10]) with
  | Err e => Ret (Err e, c)
  | OK message => exchange_one c message
  end.

(** [parse_extension_block]: the identifier the server gives. *)
Definition parse_extension_block (c : connection) (count : Z) (line : cstring) : outcome (res Z * connection * cstring) :=
  match parse_utf8_string line with
  | (Err e, rest) => Ret (Err e, c, rest)
  | (OK request, rest) => '(r, c) ← extension_server_parse_block c count request; Ret (r, c, rest)
  end.

(** ** Registers in the configuration *)

(** [struct extension_address]; the counts are the lengths of the lists. *)
Record extension_address := mk_address {
  ea_block_base : Z;
  ea_parse_id : Z;
  ea_read_registers : list Z;
  ea_write_registers : list Z;
}.

(** [count_uint_strings]: the loop passes white space and then digits. *)
Fixpoint skip_digits (line : cstring) : cstring :=
  match line with
  | c :: rest => if isdigit c then skip_digits rest else line
  | [] => []
  end.
Fixpoint count_uint_loop (fuel : nat) (line : cstring) (count : nat) : option nat :=
  match fuel with
  | O => None
  | S fuel' =>
      let line := skip_whitespace line in
      if isdigit (cur line) then count_uint_loop fuel' (skip_digits line) (S count) else Some count
  end.
Definition count_uint_strings (line : cstring) : option nat := count_uint_loop (S (length line)) line 0.

(** [parse_register_array]. *)
Definition parse_register_array (line : cstring) : option (res (list Z) * cstring) :=
  count ← count_uint_strings line;
  Some (if bool_decide (0 < count)%nat then
          let '(r, rest) := parse_uint_array count line in
          ((array ← r;
            _ ← test_ok (forallb (λ reg, bool_decide (reg < BLOCK_REGISTER_COUNT)) array) "Register value too large";
            mret array), skip_whitespace rest)
        else (OK [], line)).

(** The part of [parse_extension_register] before the name: the two lists. *)
Definition parse_extension_lists (write_not_read : bool) (line : cstring)
    : option (res (list Z * list Z) * cstring) :=
  '(reads, line) ← parse_register_array line;
  match reads with
  | Err e => Some (Err e, line)
  | OK reads =>
      let '(w, line) := read_char 87 line in
      if w then
        if negb write_not_read then Some (fail "Cannot specify write registers for read type", line)
        else
          '(writes, line) ← parse_register_array line;
          Some (match writes with Err e => Err e | OK writes => OK (reads, writes) end, line)
      else Some (OK (reads, []), line)
  end.

(** [parse_extension_register], for a block with the identifier [block_id], if it has
    one. *)
Definition parse_extension_register (c : connection) (block_id : option Z) (block_base : Z) (write_not_read : bool)
    (line : cstring) : outcome (res extension_address * connection * cstring) :=
  match block_id return outcome (res extension_address * connection * cstring) with
  | None => Ret (fail "No extensions defined for this block", c, line)
  | Some block_id =>
      lists ← match parse_extension_lists write_not_read line with Some x => Ret x | None => Undef end;
      match lists return outcome (res extension_address * connection * cstring) with
      | (Err e, line) => Ret (Err e, c, line)
      | (OK (reads, writes), line) =>
          match (_ ← parse_char (Ascii.ascii_of_nat 88); _ ← parse_whitespace; parse_utf8_string) line with
          | (Err e, line) => Ret (Err e, c, line)
          | (OK request, line) =>
              '(id, c) ← extension_server_parse_field c block_id write_not_read request;
              Ret ((id ← id;
                    _ ← test_ok (bool_decide (block_base ≠ INVALID_REGISTER) || bool_decide (reads = [] ∧ writes = []))
                          "Cannot use hardware registers in this block";
                    mret (mk_address block_base id reads writes)), c, line)
          end
      end
  end.

(** ** Reading and writing *)

(** The loop of [read_hardware_registers], with the text so far. *)
Fixpoint read_registers_loop (f : fpga) (a : extension_address) (number : Z) (text : list Z) (regs : list Z)
    : res (list Z) * fpga :=
  match regs with
  | [] => (OK text, f)
  | reg :: regs =>
      let '(value, f) := hw_read_register f (ea_block_base a) number reg in
      let piece := [32] ++ fmt_u value in
      match TEST_OK_ (bool_decide (length text + length piece < MESSAGE_LENGTH)%nat) "Buffer overflow reading registers" with
      | Some e => (Err e, f)
      | None => read_registers_loop f a number (text ++ piece) regs
      end
  end.
Definition read_hardware_registers (f : fpga) (a : extension_address) (number : Z) (prefix : list Z)
    : outcome (res (list Z) * fpga) :=
  _ ← assert_ok (bool_decide (0 < length prefix < MESSAGE_LENGTH)%nat);
  let '(r, f) := read_registers_loop f a number prefix (ea_read_registers a) in
  Ret ((text ← r;
        _ ← test_ok (bool_decide (length text + 2 ≤ MESSAGE_LENGTH)%nat) "Buffer overflow reading registers";
        mret (text ++ [10])), f).

Definition extension_read_register (f : fpga) (c : connection) (a : extension_address) (number : Z)
    : outcome (res Z * fpga * connection) :=
  '(message, f) ← read_hardware_registers f a number ([82] ++ fmt_u (ea_parse_id a) ++ [32] ++ fmt_u number);
  match message with
  | Err e => Ret (Err e, f, c)
  | OK message => '(r, c) ← exchange_one c message; Ret (r, f, c)
  end.

Definition write_results (f : fpga) (a : extension_address) (number : Z) (results : list Z) : fpga :=
  foldl (λ f x, hw_write_register f (ea_block_base a) number x.1 x.2) f (zip (ea_write_registers a) results).
Definition extension_write_register (f : fpga) (c : connection) (a : extension_address) (number value : Z)
    : outcome (error__t * fpga * connection) :=
  '(message, f) ← read_hardware_registers f a number
     ([87] ++ fmt_u (ea_parse_id a) ++ [32] ++ fmt_u number ++ [32] ++ fmt_u value);
  match message with
  | Err e => Ret (Some e, f, c)
  | OK message =>
      '(r, c) ← extension_server_exchange c message (length (ea_write_registers a));
      match r with
      | Err e => Ret (Some e, f, c)
      | OK results => Ret (None, write_results f a number results, c)
      end
  end.
End extension.
End Extension.

(** ** Theorems on the exchange with the extension server *)

Module ExtensionSpec.
Import Parse Format Hardware Extension.

Section spec.
Context `{Platform} `{Fpga} `{ExtensionServer}.

(** The registers of an extension field, read in order. *)
Fixpoint read_all (f : fpga) (base number : Z) (regs : list Z) : list Z * fpga :=
  match regs with
  | [] => ([], f)
  | reg :: regs =>
      let '(value, f) := hw_read_register f base number reg in
      let '(values, f) := read_all f base number regs in (value :: values, f)
  end.
(** The line sent for a command with the values read. *)
Definition request (prefix : cstring) (values : list Z) : list Z := prefix ++ (values ≫= λ v, [32] ++ fmt_u v) ++ [10].

Lemma read_registers_loop_ok f a number text regs text' f' :
  (length text < MESSAGE_LENGTH)%nat →
  read_registers_loop f a number text regs = (OK text', f') →
  (length text' < MESSAGE_LENGTH)%nat ∧
  ∃ values, read_all f (ea_block_base a) number regs = (values, f') ∧ text' = text ++ (values ≫= λ v, [32] ++ fmt_u v).
Proof.
  revert f text. induction regs as [|reg regs IH]; intros f text Hlen; cbn.
  { intros [= <- <-]. split; [done|]. exists []. by rewrite app_nil_r. }
  destruct (hw_read_register f (ea_block_base a) number reg) as [value f1].
  unfold TEST_OK_. case_bool_decide as Hl; [|done]. intros E.
  apply IH in E as (Hlen' & values & Hr & ->); [|rewrite length_app; cbn; lia].
  rewrite Hr. split; [done|]. exists (value :: values). split; [done|]. by rewrite <-app_assoc.
Qed.

Lemma request_sent f a number prefix text f' :
  read_hardware_registers f a number prefix = Ret (OK text, f') →
  (length text < MESSAGE_LENGTH)%nat ∧
  ∃ values, read_all f (ea_block_base a) number (ea_read_registers a) = (values, f') ∧ text = request prefix values.
Proof.
  unfold read_hardware_registers, assert_ok. case_bool_decide as Hp; [|done]. cbn [mbind outcome_bind].
  destruct (read_registers_loop f a number prefix (ea_read_registers a)) as [[text1|e] f1] eqn:E; [|done].
  apply read_registers_loop_ok in E as (_ & values & Hr & ->); [|lia].
  unfold test_ok, TEST_OK_. cbn [mbind res_bind]. case_bool_decide as Hl; [|done]. intros [= <- <-].
  split; [rewrite (length_app _ [10]); change (length [10]) with 1%nat; cbn [app] in *; lia|]. exists values. split; [done|]. unfold request. by rewrite <-app_assoc.
Qed.

Lemma uint_array_length first n s l rest : uint_array_loop first n s = (OK l, rest) → length l = n.
Proof.
  revert first s l. induction n as [|n IH]; intros first s l; cbn [uint_array_loop]; [by intros [= <- _]|].
  unfold mbind, parser_bind. destruct (_ s) as [[[]|e] s1]; [|done].
  destruct (parse_uint s1) as [[x|e] s2]; [|done].
  destruct (uint_array_loop false n s2) as [[xs|e] s3] eqn:E; [|done]. intros [= <- <-]. cbn. f_equal. by eapply IH.
Qed.

Lemma parse_answer_ok prefix count response results :
  parse_answer prefix count response = Ret (OK results) →
  cur response = prefix ∧ length results = count ∧
  ∃ rest, parse_uint_array count (tail response) = (OK results, rest) ∧ cur rest = 0.
Proof.
  unfold parse_answer. destruct response as [|c response]; cbn [read_char]; [intros E; by repeat case_match|].
  case_decide as Hc; [|intros E; by repeat case_match].
  unfold mbind at 1, parser_bind. destruct (parse_uint_array count response) as [[l|e] rest] eqn:E.
  2:{ unfold ERROR_EXTEND, error_extend. destruct (assert_ok _); cbn; done. }
  unfold mbind, parser_bind, parse_eos, test_ok, TEST_OK_. case_bool_decide as He; cbn; [|done].
  intros [= <-]. split; [done|]. split; [by eapply uint_array_length|]. by exists rest.
Qed.

(** C39: A write that succeeds has sent one line of less than 256 characters, the command
    W with the identifier of the field, the instance, the value and the contents of
    the registers to read; the answer was W and exactly as many numbers as there are
    registers to write, and these are what the registers hold. *)
Theorem extension_write_exact f c a number value f' c' :
  extension_write_register f c a number value = Ret (None, f', c') →
  ∃ server server' values f1 response results rest,
    c = Some server ∧ c' = Some server' ∧ read_all f (ea_block_base a) number (ea_read_registers a) = (values, f1) ∧
    let line := request ([87] ++ fmt_u (ea_parse_id a) ++ [32] ++ fmt_u number ++ [32] ++ fmt_u value) values in
    (length line < 256)%nat ∧ ext_answer server line = (Some response, server') ∧ cur response = 87 ∧
    parse_uint_array (length (ea_write_registers a)) (tail response) = (OK results, rest) ∧ cur rest = 0 ∧
    length results = length (ea_write_registers a) ∧
    f' = foldl (λ f x, hw_write_register f (ea_block_base a) number x.1 x.2) f1 (zip (ea_write_registers a) results).
Proof.
  unfold extension_write_register. set (prefix := [87] ++ _).
  destruct (read_hardware_registers f a number prefix) as [[[line|e] f1]| |] eqn:E; [|done..].
  destruct (request_sent _ _ _ _ _ _ E) as (Hlen & values & Hr & Hline).
  cbn [mbind outcome_bind]. unfold extension_server_exchange. destruct c as [server|]; [|done].
  destruct (ext_answer server line) as [[response|] server'] eqn:Ea; [|done].
  rewrite Hline in Ea |- *. unfold in_range. destruct (bool_decide _); [|done]. cbn [mbind outcome_bind].
  change (cur (request prefix values)) with 87.
  destruct (parse_answer 87 _ response) as [[results|e]| |] eqn:Ep; [|done..].
  apply parse_answer_ok in Ep as (Hc & Hl & rest & Hp & Hrest). cbn [mbind outcome_bind]. intros [= <- <-].
  exists server, server', values, f1, response, results, rest. rewrite Hline in Hlen. by split_and!.
Qed.

End spec.

(** ** A concrete exchange *)

Section example.
#[local] Existing Instance ARM32.
#[local] Existing Instance register_file.
#[local] Existing Instance scripted_server.

Definition example_address : extension_address := mk_address 2 7 [3] [4; 5].
Definition example_script : list cstring := [bytes_of "W10 20"].
Definition example_connection : option ext_server := Some example_script.

Lemma extension_write_exact_witness :
  ∃ line : list Z, (length line < 256)%nat ∧ line = bytes_of "W7 1 9 0" ++ [10].
Proof.
  destruct (extension_write_register ∅ example_connection example_address 1 9) as [[[[e|] f] c]| |] eqn:E.
  2:{ destruct (extension_write_exact ∅ example_connection example_address 1 9 f c E)
        as (server & server' & values & f1 & response & results & rest & _ & _ & Hr & Hlen & _).
      vm_compute in Hr. injection Hr as <- _. eexists. split; [exact Hlen|]. by vm_compute. }
  all: vm_compute in E; discriminate E.
Defined.
End example.
End ExtensionSpec.
