(* ===== verification/Registers.v ===== *)
(** * Register fields: panda-server/server/register.c

    The classes [param], [read] and [write]: fields with a type whose value is in
    one register, either of the FPGA or of the extension server.  The first two
    keep the value last written or read and when it changed. *)

From S2P Require Import Prelude Errors Parse Format HashTable HashTableSpec Enums Capture Changes Hardware Fields Floats TimeClass Types Extension.
From stdpp Require Import base numbers list list_numbers gmap option strings.
Open Scope Z_scope.

Module Registers.
Import Parse Format Capture Changes Hardware Types Extension.

Section registers.
Context `{Platform} `{Fpga} `{ExtensionServer} {T : Type} `{!StringTable Z T}.
Abbreviation type_data := (type_data (T := T)).

(** What lies outside the fields: the FPGA, the connection to the extension server
    and the counter of change indices. *)
Record world := mk_world {
  w_fpga : fpga;
  w_connection : option ext_server;
  w_index : Z;
}.
#[export] Instance state_has_fpga A : HasFpga (A * world) := {|
  the_fpga w := w_fpga w.2;
  set_fpga w f := (w.1, mk_world f (w_connection w.2) (w_index w.2));
|}.

(** ** [struct base_state] *)

Record base_state := mk_base {
  bs_type : type_data;
  bs_block_base : Z;
  bs_field_register : Z;
  bs_extension : option extension_address;
  bs_read_only : bool;
}.
Definition set_type (b : base_state) (t : type_data) : base_state :=
  mk_base t (bs_block_base b) (bs_field_register b) (bs_extension b) (bs_read_only b).

(** [base_parse_register], for a block with the extension [block_id], if any. *)
Definition base_parse_register (types : list Fields.block_type) (c : option ext_server) (b : base_state)
    (block_id : option Z) (block_base : Z) (line : cstring) (write_not_read : bool)
    : outcome (error__t * list Fields.block_type * option ext_server * base_state * cstring) :=
  if bool_decide (88 ∈ line) then
    '(address, c, line) ← parse_extension_register c block_id block_base write_not_read line;
    let '(error, extension) := match address with OK a => (None, Some a) | Err e => (Some e, bs_extension b) end in
    Ret (error, types, c, mk_base (bs_type b) block_base (bs_field_register b) extension (bs_read_only b), line)
  else
    '(reg, types, line) ← Fields.check_parse_register types block_base line;
    let '(error, reg) := match reg with OK reg => (None, reg) | Err e => (Some e, bs_field_register b) end in
    Ret (error, types, c, mk_base (bs_type b) block_base reg (bs_extension b) (bs_read_only b), line).

Definition base_describe (b : base_state) : string := type_name (bs_type b).
(** [write_register] and [read_register]. *)
Definition write_register (b : base_state) (w : world) (number : nat) (value : Z) : outcome (error__t * world) :=
  match bs_extension b with
  | Some a =>
      '(error, f, c) ← extension_write_register (w_fpga w) (w_connection w) a (Z.of_nat number) value;
      Ret (error, mk_world f c (w_index w))
  | None =>
      Ret (None, mk_world (hw_write_register (w_fpga w) (bs_block_base b) (Z.of_nat number) (bs_field_register b) value)
                   (w_connection w) (w_index w))
  end.
Definition read_register (b : base_state) (w : world) (number : nat) : outcome (res Z * world) :=
  match bs_extension b with
  | Some a =>
      '(result, f, c) ← extension_read_register (w_fpga w) (w_connection w) a (Z.of_nat number);
      Ret (result, mk_world f c (w_index w))
  | None =>
      let '(result, f) := hw_read_register (w_fpga w) (bs_block_base b) (Z.of_nat number) (bs_field_register b) in
      Ret (OK result, mk_world f (w_connection w) (w_index w))
  end.
Definition register_get_registers (b : base_state) : res (list Z) :=
  _ ← test_ok (bool_decide (bs_extension b = None)) "Field uses an extension register, not a simple one";
  mret [bs_field_register b].
Definition register_set_read_only (b : base_state) : base_state :=
  mk_base (bs_type b) (bs_block_base b) (bs_field_register b) (bs_extension b) true.

(** ** [struct simple_state]; [count] is the length of [values]. *)

Record simple_field := mk_simple_field { sf_value : Z; sf_update_index : Z }.
Record simple_state := mk_simple { ss_base : base_state; ss_values : list simple_field }.
Abbreviation W := (simple_state * world)%type.

(** [simple_register_init]: the line holds the type. *)
Definition new_base (t : type_data) : base_state := mk_base t 0 0 None false.
Definition simple_register_init (count : nat) : parser simple_state :=
  t ← create_type (Some "uint") count; mret (mk_simple (new_base t) (replicate count (mk_simple_field 0 1))).

(** A new index for an instance, which keeps its value. *)
Definition next_index (w : world) : world := mk_world (w_fpga w) (w_connection w) (get_change_index (w_index w)).
Definition simple_register_changed (s : W) (number : nat) : outcome W :=
  field ← at_index (ss_values s.1) number;
  let w := next_index s.2 in
  Ret (mk_simple (ss_base s.1) (<[number := mk_simple_field (sf_value field) (w_index w)]> (ss_values s.1)), w).
Definition store_value (s : W) (number : nat) (value : Z) : W :=
  let w := next_index s.2 in
  (mk_simple (ss_base s.1) (<[number := mk_simple_field value (w_index w)]> (ss_values s.1)), w).

(** ** Parameters *)

Definition param_read (s : W) (number : nat) : outcome (res Z * W) :=
  field ← at_index (ss_values s.1) number; Ret (OK (sf_value field), s).
Definition param_write (s : W) (number : nat) (value : Z) : outcome (error__t * W) :=
  '(error, w) ← write_register (ss_base s.1) s.2 number value;
  match error return outcome (error__t * W) with
  | Some e => Ret (Some e, (s.1, w))
  | None => _ ← at_index (ss_values s.1) number; Ret (None, store_value (s.1, w) number value)
  end.
Definition param_methods : register_methods W :=
  mk_register_methods (Some param_read) (Some param_write) (Some simple_register_changed).

(** [parse_default_param]: the value for every instance. *)
Definition parse_default_param : parser (option Z) := λ line,
  let '(more, rest) := read_char 32 line in
  if more then (_ ← parse_char (Ascii.ascii_of_nat 61); v ← parse_uint32; mret (Some v)) (skip_whitespace rest)
  else (OK None, rest).
Definition param_init (count : nat) : parser simple_state :=
  s ← simple_register_init count;
  v ← parse_default_param;
  mret (match v with
        | Some v => mk_simple (ss_base s) ((λ field, mk_simple_field v (sf_update_index field)) <$> ss_values s)
        | None => s
        end).

(** [param_finalise]: the loop goes on while there is an error. *)
Fixpoint finalise_loop (s : simple_state) (error : error__t) (i : nat) (values : list simple_field) (w : world)
    : outcome (error__t * world) :=
  match values with
  | field :: rest =>
      if bool_decide (error ≠ None) then
        '(error, w) ← write_register (ss_base s) w i (sf_value field); finalise_loop s error (S i) rest w
      else Ret (error, w)
  | [] => Ret (error, w)
  end.
Definition param_finalise (s : simple_state) (w : world) : outcome (error__t * world) :=
  finalise_loop s None 0 (ss_values s) w.

Definition param_change_set (s : simple_state) (report_index : Z) : list bool :=
  (λ field, changed_since report_index (sf_update_index field)) <$> ss_values s.

(** [base_get] and [base_put], for a class with the given methods. *)
Definition base_get (methods : register_methods W) (s : W) (number length_ : nat) : outcome (res cstring * W) :=
  type_get methods s (bs_type (ss_base s.1)) number length_.
Definition base_put (methods : register_methods W) (s : W) (number : nat) (string : cstring) : outcome (error__t * W) :=
  if bs_read_only (ss_base s.1) then Ret (TEST_OK_ false "Field is bridge-owned (client writes refused)", s)
  else
    '(error, t, s) ← type_put methods s (bs_type (ss_base s.1)) number string;
    Ret (error, (mk_simple (set_type (ss_base s.1) t) (ss_values s.1), s.2)).
Definition param_get := base_get param_methods.
Definition param_put := base_put param_methods.

(** ** Read only registers *)

Definition read_read (s : W) (number : nat) : outcome (res Z * W) :=
  '(result, w) ← read_register (ss_base s.1) s.2 number;
  match result return outcome (res Z * W) with
  | Err e => Ret (Err e, (s.1, w))
  | OK value =>
      field ← at_index (ss_values s.1) number;
      Ret (OK value, if bool_decide (value ≠ sf_value field) then store_value (s.1, w) number value else (s.1, w))
  end.
Definition read_methods : register_methods W := mk_register_methods (Some read_read) None (Some simple_register_changed).

(** [read_change_set]: every instance is read, and an error of the read goes to the
    log. *)
Fixpoint poll_loop (s : W) (numbers : list nat) : outcome W :=
  match numbers with
  | [] => Ret s
  | i :: rest => '(_, s) ← read_read s i; poll_loop s rest
  end.
Definition read_change_set (s : W) (report_index : Z) : outcome (list bool * W) :=
  s ← poll_loop s (seq 0 (length (ss_values s.1)));
  Ret (param_change_set s.1 report_index, s).

(** ** Write only registers *)

Definition write_write (s : base_state * world) (number : nat) (value : Z) : outcome (error__t * (base_state * world)) :=
  '(error, w) ← write_register s.1 s.2 number value; Ret (error, (s.1, w)).
Definition write_methods : register_methods (base_state * world) := mk_register_methods None (Some write_write) None.
Definition write_init (count : nat) : parser base_state := t ← create_type (Some "uint") count; mret (new_base t).
(** [base_put] of this class. *)
Definition write_put (s : base_state * world) (number : nat) (string : cstring) : outcome (error__t * (base_state * world)) :=
  if bs_read_only s.1 then Ret (TEST_OK_ false "Field is bridge-owned (client writes refused)", s)
  else
    '(error, t, s) ← type_put write_methods s (bs_type s.1) number string;
    Ret (error, (set_type s.1 t, s.2)).

End registers.
End Registers.
