(* ===== verification/RegistersSpec.v ===== *)
(** * Theorems on types and register fields *)

From S2P Require Import Prelude Errors Parse Format Lut HashTable HashTableSpec Enums StdDev Capture Changes Hardware Fields Floats TimeClass Types Extension Registers.
From stdpp Require Import base numbers list list_numbers gmap option strings.
Open Scope Z_scope.

Module RegistersSpec.
Import Double Parse Format Capture Changes Hardware Floats Types Extension Registers.

Section spec.
Context `{Platform} `{Fpga} `{ExtensionServer} {T : Type} `{!StringTable Z T}.
Abbreviation type_data := (type_data (T := T)).
Abbreviation base_state := (base_state (T := T)).
Abbreviation simple_state := (simple_state (T := T)).

(** ** Text and value of a type *)

(** The values that come back from their text: not the ones with a floating point
    text, and for a lookup table the text that is kept must have this value. *)
Definition storable (t : type_data) (number : nat) (v : Z) : Prop :=
  0 ≤ v < 2 ^ 32 ∧
  match t with
  | TYPE_UINT max_value => v ≤ max_value
  | TYPE_INT => True
  | TYPE_BIT => v < 2
  | TYPE_LUT values =>
      ∃ field, values !! number = Some field ∧ ∀ string, lf_string field = Some string → do_parse_lut string = Ret (OK (lf_value field))
  | TYPE_ENUM e => Enums.enum_wf e
  | _ => False
  end.

(** The same type with the same options; the texts of lookup tables may differ. *)
Definition same_type (t1 t2 : type_data) : Prop :=
  match t1, t2 with
  | TYPE_LUT v1, TYPE_LUT v2 => length v1 = length v2
  | _, _ => t1 = t2
  end.

Lemma reads_zeros k l n : reads 16 l n → reads 16 (replicate k 48 ++ l) n.
Proof.
  intros Hl. induction k as [|k IH]; [done|]. cbn [replicate app]. change 48 with (digit_char 0).
  replace n with (0 * 16 ^ Z.of_nat (length (replicate k 48 ++ l)) + n) by lia. by apply reads_cons.
Qed.

Lemma hex_head k v : 0 ≤ v → ∃ c l, replicate k 48 ++ print_uint 16 v = c :: l ∧ is_Some (digit_in 16 c).
Proof.
  intros Hv. destruct k as [|k]; cbn [replicate app]; [|by do 2 eexists].
  destruct (decide (v = 0)) as [->|]; [by do 2 eexists|].
  destruct (print_uint_head 16 v) as (d & l & -> & Hd); [lia..|].
  do 2 eexists. split; [done|]. rewrite digit_in_char by lia. done.
Qed.

(** A number written as a lookup table is read back. *)
Lemma parse_lut_hex v : 0 ≤ v < 2 ^ 32 → do_parse_lut (fmt_0x08X v) = Ret (OK v).
Proof.
  intros Hv. unfold do_parse_lut, fmt_0x08X.
  set (k := (8 - length (print_uint 16 v))%nat).
  destruct (hex_head k v) as (c & l & E & Hc); [lia|].
  pose proof (reads_zeros k _ _ (print_uint_reads 16 v ltac:(lia) ltac:(lia)) 0 []) as Hr.
  rewrite E in *. rewrite app_nil_r in Hr. rewrite decide_True by done.
  assert (strtoul_16 (bytes_of "0x" ++ c :: l) = (v, [])) as ->.
  { unfold strtoul_16. change (skip_isspace (bytes_of "0x" ++ c :: l)) with (48 :: 120 :: c :: l).
    change (read_sign (48 :: 120 :: c :: l)) with (false, 48 :: 120 :: c :: l).
    cbn beta iota. rewrite decide_True by eauto. cbn [cur]. destruct Hc as [d Hd]. rewrite Hd, Hr. cbn [digits].
    rewrite decide_False by (destruct long_bits_ok as [->| ->]; lia). f_equal; lia. }
  rewrite wrap_small by done. reflexivity.
Qed.

Lemma format_string_ok n text text' : format_string n text = OK text' → text' = text.
Proof. unfold format_string, test_ok, TEST_OK_. case_bool_decide; cbn; [by intros [= <-]|done]. Qed.

Lemma signed_unsigned v : 0 ≤ v < 2 ^ 32 → - 2 ^ 31 ≤ to_signed 32 v < 2 ^ 31 ∧ u32 (to_signed 32 v) = v.
Proof.
  intros Hv. unfold to_signed. rewrite wrap_small by lia. case_decide.
  - split; [lia|]. by apply wrap_small.
  - split; [lia|]. unfold wrap. rewrite <-(Z.mod_add _ 1) by lia. rewrite Z.mod_small by lia. lia.
Qed.

#[local] Ltac read_back Htext :=
  split; [reflexivity|split; [reflexivity|split; [reflexivity|split; [split; done|split; [reflexivity|]]]]];
  cbn beta; by rewrite Htext.

(** What a type writes for a storable value it reads as that value, and then writes
    the same. *)
Lemma type_text_value {R} `{!HasFpga R} (w1 w2 : R) t1 t2 number length_ v text format w1' :
  storable t1 number v → same_type t1 t2 →
  type_format w1 t1 = Some format → format number v length_ = Ret (OK text, w1') →
  w1' = w1 ∧ ∃ rest t2' format2,
    type_parse w2 t2 number text = Ret (OK v, rest, t2', w2) ∧ (parse_eos rest).1 = OK tt ∧ same_type t2 t2' ∧
    storable t2' number v ∧
    type_format w2 t2' = Some format2 ∧ format2 number v length_ = Ret (OK text, w2).
Proof.
  intros [Hv Ht] Hs Hf Htext. destruct t1 as [max| |s| | |values|scale|e]; try done; cbn [type_format] in Hf; injection Hf as <-.
  - cbn in Hs. subst t2. injection Htext as Htext <-. pose proof (format_string_ok _ _ _ Htext) as ->.
    split; [done|]. exists [], (TYPE_UINT max). eexists. cbn [type_parse]. unfold uint_parse, mbind, parser_bind.
    pose proof (proj1 (read_uint_fmt v [] Hv eq_refl)) as Hp. rewrite app_nil_r in Hp. rewrite Hp.
    unfold lift, test_ok, TEST_OK_. rewrite bool_decide_true by done. read_back Htext.
  - cbn in Hs. subst t2. injection Htext as Htext <-. pose proof (format_string_ok _ _ _ Htext) as ->.
    split; [done|]. exists [], TYPE_INT. eexists. cbn [type_parse]. unfold int_parse, mbind, parser_bind.
    destruct (signed_unsigned v Hv) as [Hr Hu].
    pose proof (read_int_fmt (to_signed 32 v) [] Hr eq_refl) as Hp. rewrite app_nil_r in Hp. rewrite Hp.
    cbn [mbind parser_bind mret parser_ret res_bind]. rewrite Hu. read_back Htext.
  - cbn in Hs. subst t2. injection Htext as Htext <-. pose proof (format_string_ok _ _ _ Htext) as ->.
    split; [done|]. assert (v = 0 ∨ v = 1) as [-> | ->] by lia; exists [], TYPE_BIT; eexists; read_back Htext.
  - destruct t2 as [| | | | |values2| |]; try done. destruct Ht as (field & Hfield & Hstring).
    unfold lut_format in Htext. rewrite (at_index_some _ _ _ Hfield) in Htext. cbn [mbind outcome_bind] in Htext.
    injection Htext as Htext <-. pose proof (format_string_ok _ _ _ Htext) as Htext'.
    assert (Hself : format_string length_ text = OK text) by (rewrite Htext' at 1; exact Htext).
    assert (Hp : do_parse_lut text = Ret (OK v)).
    { subst text. destruct (lf_string field) as [str|]; [|by apply parse_lut_hex].
      case_bool_decide as Ev; [|by apply parse_lut_hex]. rewrite (Hstring str eq_refl). by rewrite Ev. }
    split; [done|]. eexists [], _, _. cbn [type_parse]. unfold lut_parse. rewrite Hp. cbn [mbind outcome_bind].
    destruct (lookup_lt_is_Some_2 values2 number) as [field2 Hf2]; [rewrite <-Hs; by eapply lookup_lt_Some|].
    rewrite (at_index_some _ _ _ Hf2). cbn [mbind outcome_bind].
    pose proof (lookup_lt_Some _ _ _ Hf2) as Hlt.
    split_and!; [done|done|cbn; by rewrite length_insert|split; [done|]|reflexivity|].
    + eexists. rewrite list_lookup_insert_eq by done. split; [done|]. cbn. by intros ? [= <-].
    + unfold lut_format. rewrite (at_index_some _ _ (mk_lut_field v (Some text))) by (by rewrite list_lookup_insert_eq).
      cbn. rewrite bool_decide_true by done. by rewrite Hself.
  - cbn in Hs. subst t2. destruct (Enums.enum_format e v length_) as [r| |] eqn:E; cbn in Htext; [|done..].
    injection Htext as -> <-.
    split; [done|]. exists [], (TYPE_ENUM e). eexists. cbn [type_parse].
    rewrite (Enums.enum_format_parse e v text length_ Ht E). read_back E.
Qed.

(** ** Parameters *)

(** The FPGA after a write to the register of a field. *)
Definition written (b : base_state) (w : world) (number : nat) (v : Z) : world :=
  mk_world (hw_write_register (w_fpga w) (bs_block_base b) (Z.of_nat number) (bs_field_register b) v)
    (w_connection w) (get_change_index (w_index w)).

Lemma param_put_value s w number string v rest t' :
  bs_read_only (ss_base s) = false → bs_extension (ss_base s) = None → (number < length (ss_values s))%nat →
  type_parse (s, w) (bs_type (ss_base s)) number string = Ret (OK v, rest, t', (s, w)) → (parse_eos rest).1 = OK tt →
  param_put (s, w) number string =
    Ret (None, (mk_simple (set_type (ss_base s) t')
                  (<[number := mk_simple_field v (get_change_index (w_index w))]> (ss_values s)),
                written (ss_base s) w number v)).
Proof.
  intros Hro Hext Hn Hp He. unfold param_put, base_put. cbn [fst snd]. rewrite Hro. unfold type_put. rewrite Hp.
  cbn [mbind outcome_bind res_bind]. rewrite He. cbn [mbind res_bind mret res_ret].
  unfold write_type_register, param_methods, reg_write, param_write, write_register. cbn [fst snd]. rewrite Hext.
  cbn [mbind outcome_bind fst snd]. destruct (lookup_lt_is_Some_2 _ _ Hn) as [field Hf].
  rewrite (at_index_some _ _ _ Hf). reflexivity.
Qed.

Lemma param_get_value (s : simple_state) w number length_ field format :
  ss_values s !! number = Some field → type_format (s, w) (bs_type (ss_base s)) = Some format →
  param_get (s, w) number length_ = format number (sf_value field) length_.
Proof.
  intros Hf Ht. unfold param_get, base_get, type_get. cbn [fst snd]. rewrite Ht.
  unfold read_type_register, param_methods, reg_read, param_read. cbn [fst snd].
  rewrite (at_index_some _ _ _ Hf). cbn [mbind outcome_bind]. by rewrite Ht.
Qed.

Lemma format_any_state {R} `{!HasFpga R} (w1 w2 : R) t number v length_ text format :
  storable t number v → type_format w1 t = Some format → format number v length_ = Ret (OK text, w1) →
  ∃ format2, type_format w2 t = Some format2 ∧ format2 number v length_ = Ret (OK text, w2).
Proof.
  intros [_ Ht] Hf Htext. destruct t as [max| |s| | |values|scale|e]; try done; cbn [type_format] in *; injection Hf as <-;
    (eexists; split; [reflexivity|]); cbn beta in *.
  1-3: injection Htext as Htext; by rewrite Htext.
  - destruct (lut_format values number v length_); cbn in *; [by injection Htext as ->|done..].
  - destruct (Enums.enum_format e v length_); cbn in *; [by injection Htext as ->|done..].
Qed.

(** What a parameter reads as can be written back: in any other state of the
    server with the same configuration, the text read is accepted, the register gets
    the value the text stood for, the field reads as the same text, has a new change
    index, and no other instance is touched. *)
Theorem saved_value_restored (s : simple_state) w (s2 : simple_state) w2 number length_ text field1 field2 r :
  ss_values s !! number = Some field1 → storable (bs_type (ss_base s)) number (sf_value field1) →
  param_get (s, w) number length_ = Ret (OK text, r) →
  same_type (bs_type (ss_base s)) (bs_type (ss_base s2)) → bs_read_only (ss_base s2) = false →
  bs_extension (ss_base s2) = None → ss_values s2 !! number = Some field2 →
  ∃ s2' w2', param_put (s2, w2) number text = Ret (None, (s2', w2')) ∧
    w_fpga w2' = hw_write_register (w_fpga w2) (bs_block_base (ss_base s2)) (Z.of_nat number)
                   (bs_field_register (ss_base s2)) (sf_value field1) ∧
    param_get (s2', w2') number length_ = Ret (OK text, (s2', w2')) ∧
    ss_values s2' = <[number := mk_simple_field (sf_value field1) (w_index w2')]> (ss_values s2) ∧
    w_index w2' = get_change_index (w_index w2).
Proof.
  intros Hf1 Hs Hget Hsame Hro Hext Hf2.
  destruct (type_format (s, w) (bs_type (ss_base s))) as [format|] eqn:Ef.
  2:{ unfold param_get, base_get, type_get in Hget. cbn [fst snd] in Hget. by rewrite Ef in Hget. }
  rewrite (param_get_value _ _ _ _ _ _ Hf1 Ef) in Hget.
  pose proof (lookup_lt_Some _ _ _ Hf2) as Hn.
  destruct (type_text_value (s, w) (s2, w2) _ _ _ _ _ _ _ _ Hs Hsame Ef Hget)
    as (_ & rest & t2' & format2 & Hp & He & _ & Hs2 & Ef2 & Hg2).
  rewrite (param_put_value _ _ _ _ _ _ _ Hro Hext Hn Hp He). do 2 eexists. split; [reflexivity|].
  split; [reflexivity|]. split; [|split; reflexivity].
  set (s2' := mk_simple _ _). set (w2' := written _ _ _ _).
  destruct (format_any_state (s2, w2) (s2', w2') _ _ _ _ _ _ Hs2 Ef2 Hg2) as (format3 & Ef3 & Hg3).
  rewrite (param_get_value s2' w2' number length_ (mk_simple_field (sf_value field1) (get_change_index (w_index w2))) format3);
    [exact Hg3|cbn; by rewrite list_lookup_insert_eq|exact Ef3].
Qed.

(** A parameter with a default value reads as the default, but finishing the
    initialisation writes nothing to the FPGA: the loop that should do it runs only
    while there is an error, and there is none to start with. *)
Theorem defaults_not_written count line (s0 : simple_state) rest0 v rest w number :
  simple_register_init count line = (OK s0, rest0) → parse_default_param rest0 = (OK (Some v), rest) → (number < count)%nat →
  ∃ s : simple_state, param_init count line = (OK s, rest) ∧ param_finalise s w = Ret (None, w) ∧
    param_read (s, w) number = Ret (OK v, (s, w)).
Proof.
  intros Hi Hd Hn. unfold param_init, mbind, parser_bind. rewrite Hi, Hd. eexists. split; [reflexivity|].
  unfold simple_register_init, mbind, parser_bind in Hi.
  destruct (create_type (Some "uint") count line) as [[t|e] r]; [|done]. injection Hi as <- _. split.
  - unfold param_finalise. cbn. destruct count; [lia|]. done.
  - unfold param_read. cbn [ss_values fst]. rewrite fmap_replicate.
    by rewrite (at_index_some _ _ _ (lookup_replicate_2 _ _ _ Hn)).
Qed.

(** ** Fields that are only read *)

Lemma read_read_step (s : simple_state) w number old :
  bs_extension (ss_base s) = None → ss_values s !! number = Some old →
  ∃ v w1, read_read (s, w) number =
    Ret (OK v, if bool_decide (v ≠ sf_value old) then store_value (s, w1) number v else (s, w1)) ∧ w_index w1 = w_index w.
Proof.
  intros Hext Ho. unfold read_read, read_register. cbn [fst snd]. rewrite Hext.
  destruct (hw_read_register _ _ _ _) as [v f] eqn:E. cbn [mbind outcome_bind]. rewrite (at_index_some _ _ _ Ho).
  by exists v, (mk_world f (w_connection w) (w_index w)).
Qed.

(** What polling leaves of an instance: as it was, or with another value and an index
    above [g]. *)
Definition polled (g : Z) (old new : simple_field) : Prop :=
  new = old ∨ sf_value new ≠ sf_value old ∧ g < sf_update_index new.

Lemma poll_loop_spec (numbers : list nat) (s : simple_state) w :
  bs_extension (ss_base s) = None → NoDup numbers → Forall (λ i, i < length (ss_values s))%nat numbers →
  0 ≤ w_index w → w_index w + Z.of_nat (length numbers) < 2 ^ 64 →
  ∃ (s' : simple_state) w', poll_loop (s, w) numbers = Ret (s', w') ∧ length (ss_values s') = length (ss_values s) ∧
    ∀ i old, ss_values s !! i = Some old →
      ∃ new, ss_values s' !! i = Some new ∧ polled (w_index w) old new ∧ (i ∉ numbers → new = old).
Proof.
  revert s w. induction numbers as [|n numbers IH]; intros s w Hext Hnd Hall Hg Hb.
  { exists s, w. split_and!; [done..|]. intros i old Hi. exists old. unfold polled. eauto. }
  apply list.NoDup_cons in Hnd as [Hnn Hnd]. apply list.Forall_cons in Hall as [Hn Hall].
  destruct (lookup_lt_is_Some_2 _ _ Hn) as [old Ho]. cbn [poll_loop length] in *.
  destruct (read_read_step s w n old Hext Ho) as (v & w1 & E & Hw1). rewrite E. cbn [mbind outcome_bind].
  case_bool_decide as Hv.
  - destruct (IH (mk_simple (ss_base s) (<[n := mk_simple_field v (w_index (next_index w1))]> (ss_values s))) (next_index w1))
      as (s' & w' & Ep & Hlen & Hrest); [done|done| | |..].
    { cbn. by rewrite length_insert. }
    { cbn. unfold get_change_index. rewrite Hw1, wrap_small by lia. lia. }
    { cbn. unfold get_change_index. rewrite Hw1, wrap_small by lia. lia. }
    exists s', w'. split; [exact Ep|]. cbn in Hlen, Hrest. rewrite length_insert in Hlen. split; [done|].
    assert (Hnext : w_index w < get_change_index (w_index w1))
      by (unfold get_change_index; rewrite Hw1, wrap_small by lia; lia).
    intros i o Hi. destruct (decide (i = n)) as [->|Hin].
    + destruct (Hrest n (mk_simple_field v (get_change_index (w_index w1)))) as (new & Hnew & _ & Hsame).
      { by apply list_lookup_insert_eq. }
      exists new. rewrite (Hsame Hnn) in *. split; [done|]. split; [|set_solver].
      right. rewrite Ho in Hi. injection Hi as <-. done.
    + destruct (Hrest i o) as (new & Hnew & Hp & Hsame); [by rewrite list_lookup_insert_ne|].
      exists new. split; [done|]. split; [|set_solver].
      destruct Hp as [->|[? ?]]; [by left|right; split; [done|lia]].
  - destruct (IH s w1) as (s' & w' & Ep & Hlen & Hrest); [done|done|done|lia|lia|].
    exists s', w'. split; [exact Ep|]. split; [done|]. intros i o Hi.
    destruct (Hrest i o Hi) as (new & Hnew & Hp & Hsame). rewrite Hw1 in Hp.
    exists new. split; [done|]. split; [done|set_solver].
Qed.

(** Polling for changes reads every instance of a field; an instance is reported
    exactly when its register differs from the value kept or the kept value is newer
    than the last report, and a report leaves an unchanged instance as it is. *)
Theorem read_changes_exact (s : simple_state) w r :
  bs_extension (ss_base s) = None → 0 ≤ r ≤ w_index w → w_index w + Z.of_nat (length (ss_values s)) < 2 ^ 64 →
  ∃ changes (s' : simple_state) w', read_change_set (s, w) r = Ret (changes, (s', w')) ∧
    ∀ i old, ss_values s !! i = Some old →
      ∃ new, ss_values s' !! i = Some new ∧
        changes !! i = Some (bool_decide (sf_value new ≠ sf_value old ∨ r < sf_update_index old)) ∧
        (sf_value new = sf_value old → new = old).
Proof.
  intros Hext Hr Hb. unfold read_change_set. cbn [fst].
  destruct (poll_loop_spec (seq 0 (length (ss_values s))) s w) as (s' & w' & E & _ & Hrest);
    [done|apply NoDup_seq|apply Forall_forall; intros i; rewrite elem_of_seq; lia|lia|by rewrite length_seq|].
  rewrite E. cbn [mbind outcome_bind fst]. eexists _, s', w'. split; [reflexivity|]. intros i old Hi.
  destruct (Hrest i old Hi) as (new & Hnew & Hp & _). exists new. split; [done|].
  split; [|by intros Hv; destruct Hp as [->|[? _]]].
  unfold param_change_set, changed_since. rewrite list_lookup_fmap, Hnew. cbn. f_equal.
  apply bool_decide_ext. destruct Hp as [->|[Hv Hix]]; [tauto|]. split; [by left|lia].
Qed.

End spec.

(** ** Concrete fields *)

Section example.
#[local] Existing Instance ARM32.
#[local] Existing Instance register_file.
#[local] Existing Instance scripted_server.
Abbreviation table := (HashTable.hash_table (K := cstring) (V := Z)).

Definition empty_fpga : fpga := ∅ : gmap Z Z.
Definition example_world : world := mk_world empty_fpga None 9.
Definition example_param (v : Z) : simple_state (T := table) :=
  mk_simple (mk_base (TYPE_INT) 2 3 None false) [mk_simple_field 0 1; mk_simple_field v 4].

Lemma saved_value_restored_witness :
  ∃ s' w', param_put (example_param 5, example_world) 1 (bytes_of "-12") = Ret (None, (s', w')) ∧
    w_fpga w' = hw_write_register empty_fpga 2 1 3 (2 ^ 32 - 12).
Proof.
  destruct (saved_value_restored (example_param (2 ^ 32 - 12)) example_world (example_param 5) example_world 1 256 (bytes_of "-12")
    (mk_simple_field (2 ^ 32 - 12) 4) (mk_simple_field 5 4) (example_param (2 ^ 32 - 12), example_world))
    as (s' & w' & E & Hw & _); try reflexivity; [split; [cbn [sf_value]; lia|done]|].
  exists s', w'. by split.
Defined.

Lemma defaults_not_written_witness :
  ∃ s : simple_state (T := table), param_init 2 (bytes_of " uint = 5") = (OK s, []) ∧
    param_finalise s example_world = Ret (None, example_world) ∧ param_read (s, example_world) 1 = Ret (OK 5, (s, example_world)).
Proof.
  apply (defaults_not_written 2 (bytes_of " uint = 5")
    (mk_simple (new_base (TYPE_UINT (2 ^ 32 - 1))) (replicate 2 (mk_simple_field 0 1))) (bytes_of " = 5") 5 [] example_world 1);
    [vm_compute; reflexivity|vm_compute; reflexivity|repeat constructor].
Defined.

Lemma read_changes_exact_witness :
  ∃ changes (s' : simple_state (T := table)) w', read_change_set (example_param 5, example_world) 4 = Ret (changes, (s', w')) ∧
    changes !! 1%nat = Some true.
Proof.
  destruct (read_changes_exact (example_param 5) example_world 4) as (changes & s' & w' & E & Hspec); [done|by split|by vm_compute|].
  exists changes, s', w'. split; [exact E|].
  assert (Hok : match read_change_set (example_param 5, example_world) 4 with Ret (l, _) => l !! 1%nat | _ => None end = Some true)
    by (vm_compute; reflexivity).
  rewrite E in Hok. exact Hok.
Defined.
End example.
End RegistersSpec.
