(* ===== verification/Indent.v ===== *)
(** * Indented files: the second half of panda-server/server/parse.c

    The configuration files are lines whose indentation draws a tree: each line is
    given to the parser of its level, which says how the lines below it are to be
    parsed.  The parsers work on a state [S]; the context of the source is in their
    closures.  Shown are that any file is handled within the fixed stack, and that
    what is done is what the tree says. *)

From S2P Require Import Prelude Errors Parse Enums Capture Metadata.
From stdpp Require Import base numbers list option strings pretty.
Open Scope Z_scope.

Module Indent.
Import Parse Capture Metadata.

Definition MAX_INDENT : nat := 10.

Section indent.
Context {S : Type}.

(** [struct indent_parser]. *)
Inductive indent_parser := mk_parser {
  ip_parse_line : option (S → cstring → outcome (error__t * cstring * indent_parser * S));
  ip_end : option (S → outcome (error__t * S));
}.
Definition no_parser : indent_parser := mk_parser None None.

(** [struct indent_state]: an element of the stack holds what has been stored in
    it. *)
Record indent_state := mk_indent { is_indent : option nat; is_parser : option indent_parser }.
Definition initial_stack (parser : indent_parser) : list indent_state :=
  mk_indent (Some 0%nat) (Some parser) :: mk_indent None (Some no_parser) :: replicate MAX_INDENT (mk_indent None None).

Definition stack_indent (stack : list indent_state) (i : nat) : outcome nat :=
  x ← at_index stack i; match is_indent x with Some n => Ret n | None => Undef end.
Definition stack_parser (stack : list indent_state) (i : nat) : outcome indent_parser :=
  x ← at_index stack i; match is_parser x with Some p => Ret p | None => Undef end.
Definition set_indent (stack : list indent_state) (i indent : nat) : outcome (list indent_state) :=
  x ← at_index stack i; Ret (<[i := mk_indent (Some indent) (is_parser x)]> stack).
Definition set_parser (stack : list indent_state) (i : nat) (p : indent_parser) : outcome (list indent_state) :=
  x ← at_index stack i; Ret (<[i := mk_indent (is_indent x) (Some p)]> stack).

(** [open_indent]. *)
Definition open_indent (stack : list indent_state) (sp indent : nat) : outcome (error__t * list indent_state * nat) :=
  match TEST_OK_ (bool_decide (sp < MAX_INDENT)%nat) "Too much indentation" with
  | Some e => Ret (Some e, stack, sp)
  | None => stack ← set_indent stack (sp + 1) indent; Ret (None, stack, (sp + 1)%nat)
  end.

Definition call_end (p : indent_parser) (s : S) : outcome (error__t * S) :=
  match ip_end p with Some end_ => end_ s | None => Ret (None, s) end.
(** The loop of [close_indents]. *)
Fixpoint close_loop (stack : list indent_state) (indent sp : nat) (s : S) : outcome (error__t * nat * S) :=
  p ← stack_parser stack (sp + 1);
  '(error, s) ← call_end p s;
  here ← stack_indent stack sp;
  if bool_decide (indent < here)%nat then
    match sp return outcome (error__t * nat * S) with
    | O => Undef
    | Datatypes.S sp' => if bool_decide (error = None) then close_loop stack indent sp' s else Ret (error, sp', s)
    end
  else Ret (error, sp, s).
Definition close_indents (stack : list indent_state) (sp indent : nat) (s : S) : outcome (error__t * nat * S) :=
  '(error, sp, s) ← close_loop stack indent sp s;
  match error with
  | Some e => Ret (Some e, sp, s)
  | None =>
      here ← stack_indent stack sp;
      Ret (TEST_OK_ (bool_decide (indent = here)) "Invalid indentation on line", sp, s)
  end.

(** [parse_one_line]: the error, the cursor and the stack it leaves. *)
Definition line_indent (line : cstring) : nat := length line - length (skip_whitespace line).
Definition call_line (stack : list indent_state) (sp : nat) (line : cstring) (s : S)
    : outcome (error__t * cstring * list indent_state * S) :=
  p ← stack_parser stack sp;
  stack ← set_parser stack (sp + 1) no_parser;
  match ip_parse_line p return outcome (error__t * cstring * list indent_state * S) with
  | None => Ret (TEST_OK_ false "Cannot parse this indentation", line, stack, s)
  | Some parse_line =>
      '(error, rest, next, s) ← parse_line s line;
      stack ← set_parser stack (sp + 1) next;
      Ret (match error with Some e => Some e | None => err_of (parse_eos rest).1 end, rest, stack, s)
  end.
Definition parse_one_line (line : cstring) (stack : list indent_state) (sp : nat) (s : S)
    : outcome (error__t * cstring * list indent_state * nat * S) :=
  let indent := line_indent line in
  let line := skip_whitespace line in
  if bool_decide (cur line = 35) || bool_decide (cur line = 0) then Ret (None, line, stack, sp, s)
  else
    here ← stack_indent stack sp;
    '(error, stack, sp, s) ←
      (if bool_decide (here < indent)%nat
       then '(error, stack, sp) ← open_indent stack sp indent; Ret (error, stack, sp, s)
       else '(error, sp, s) ← close_indents stack sp indent s; Ret (error, stack, sp, s));
    match error return outcome (error__t * cstring * list indent_state * nat * S) with
    | Some e => Ret (Some e, line, stack, sp, s)
    | None => '(error, rest, stack, s) ← call_line stack sp line s; Ret (error, rest, stack, sp, s)
    end.

(** ** The file *)

(** [fgets] with a buffer of [size] bytes: the bytes stored and what is left. *)
Fixpoint fgets (size : nat) (file : list Z) : list Z * list Z :=
  match size, file with
  | Datatypes.S (Datatypes.S n as size'), c :: rest =>
      if decide (c = 10) then ([c], rest) else let '(line, rest) := fgets size' rest in (c :: line, rest)
  | _, _ => ([], file)
  end.
(** The text of the line up to its end. *)
Fixpoint chop (line : cstring) : cstring :=
  match line with [] => [] | c :: rest => if decide (c = 10) then [] else c :: chop rest end.

(** The loop of [parse_indented_file], with the number of the last line read. *)
Fixpoint file_loop (fuel : nat) (file_name : string) (file : list Z) (line_no : Z) (stack : list indent_state) (sp : nat) (s : S)
    : outcome (error__t * list indent_state * S) :=
  match file, fuel with
  | [], _ => Ret (None, stack, s)
  | _ :: _, O => Undef
  | _ :: _, Datatypes.S fuel' =>
      let '(bytes, file) := fgets MAX_LINE_LENGTH file in
      let line := chop (c_str bytes) in
      let line_no := line_no + 1 in
      '(error, rest, stack, sp, s) ← parse_one_line line stack sp s;
      match error with
      | None => file_loop fuel' file_name file line_no stack sp s
      | Some _ =>
          e ← ERROR_EXTEND error
            ("Parsing line " +:+ pretty line_no +:+ " of " +:+ Enums.quote +:+ file_name +:+ Enums.quote +:+ " at column " +:+
             pretty (Z.of_nat (length line - length rest) + 1));
          Ret (e, stack, s)
      end
  end.
(** [parse_indented_file], for a file that can be opened.  Its lines have at least
    one byte each. *)
Definition parse_indented_file (file_name : string) (file : list Z) (parser : indent_parser) (s : S) : outcome (error__t * S) :=
  '(error, stack, s) ← file_loop (length file) file_name file 0 (initial_stack parser) 0 s;
  match error return outcome (error__t * S) with
  | Some e => Ret (Some e, s)
  | None => '(_, s) ← call_end parser s; Ret (None, s)
  end.

(** ** Any file is handled *)

(** Parsers that always return, whatever the line, with errors that leave room for
    the place to be added. *)
Definition short_error (e : error__t) : Prop :=
  match e with Some e => (length (messages e) < MAX_ERROR_DEPTH)%nat | None => True end.
Inductive well_behaved : indent_parser → Prop :=
  | well_behaved_parser p :
      (∀ f, ip_parse_line p = Some f → ∀ s line, ∃ e rest next s',
         f s line = Ret (e, rest, next, s') ∧ short_error e ∧ well_behaved next) →
      (∀ f, ip_end p = Some f → ∀ s, ∃ e s', f s = Ret (e, s') ∧ short_error e) →
      well_behaved p.

(** The stack at level [sp]: the parsers and the indents up to this level are set;
    [depth] is the number of parsers known to be set. *)
Record stack_ok (stack : list indent_state) (sp depth : nat) : Prop := {
  so_length : length stack = (MAX_INDENT + 2)%nat;
  so_sp : (sp ≤ MAX_INDENT)%nat;
  so_indent i : (i ≤ sp)%nat → ∃ x n, stack !! i = Some x ∧ is_indent x = Some n;
  so_base : ∃ x, stack !! 0%nat = Some x ∧ is_indent x = Some 0%nat;
  so_parser i : (i < depth)%nat → ∃ x p, stack !! i = Some x ∧ is_parser x = Some p ∧ well_behaved p;
}.

Lemma no_parser_ok : well_behaved no_parser.
Proof. constructor; by intros f [=]. Qed.

Lemma initial_stack_ok p : well_behaved p → stack_ok (initial_stack p) 0 2.
Proof.
  intros Hp. split; [done|unfold MAX_INDENT; lia| | |].
  - intros i Hi. assert (i = 0%nat) as -> by lia. by do 2 eexists.
  - by eexists.
  - intros i Hi. destruct i as [|[|i]]; [by do 2 eexists| |lia]. do 2 eexists. split; [done|]. split; [done|apply no_parser_ok].
Qed.

Section level.
Context {stack : list indent_state} {sp depth : nat} (Hs : stack_ok stack sp depth).

Lemma stack_indent_ok i : (i ≤ sp)%nat → ∃ n, stack_indent stack i = Ret n.
Proof.
  intros Hi. destruct (so_indent _ _ _ Hs i Hi) as (x & n & Hx & Hn). exists n.
  unfold stack_indent. rewrite (at_index_some _ _ _ Hx). cbn. by rewrite Hn.
Qed.

Lemma stack_base : stack_indent stack 0 = Ret 0%nat.
Proof.
  destruct (so_base _ _ _ Hs) as (x & Hx & Hn). unfold stack_indent. rewrite (at_index_some _ _ _ Hx). cbn. by rewrite Hn.
Qed.

Lemma stack_parser_ok i : (i < depth)%nat → ∃ p, stack_parser stack i = Ret p ∧ well_behaved p.
Proof.
  intros Hi. destruct (so_parser _ _ _ Hs i Hi) as (x & p & Hx & Hp & Hw). exists p.
  unfold stack_parser. rewrite (at_index_some _ _ _ Hx). cbn. by rewrite Hp.
Qed.

Lemma stack_ok_down sp' depth' : (sp' ≤ sp)%nat → (depth' ≤ depth)%nat → stack_ok stack sp' depth'.
Proof. intros ??. destruct Hs. split; [done|lia|intros; eauto with lia|done|intros; eauto with lia]. Qed.

Lemma set_parser_ok p :
  (sp < depth)%nat → well_behaved p → ∃ stack', set_parser stack (sp + 1) p = Ret stack' ∧ stack_ok stack' sp (sp + 2).
Proof.
  intros Hd Hp. pose proof (so_length _ _ _ Hs) as Hlen. pose proof (so_sp _ _ _ Hs) as Hsp.
  destruct (lookup_lt_is_Some_2 stack (sp + 1)) as [x Hx]; [lia|].
  unfold set_parser. rewrite (at_index_some _ _ _ Hx). cbn. eexists. split; [done|].
  split; [by rewrite length_insert|done| | |].
  - intros i Hi. rewrite list_lookup_insert_ne by lia. by apply Hs.
  - rewrite list_lookup_insert_ne by lia. by apply Hs.
  - intros i Hi. destruct (decide (i = sp + 1)%nat) as [->|].
    + rewrite list_lookup_insert_eq by lia. by do 2 eexists.
    + rewrite list_lookup_insert_ne by lia. apply Hs. lia.
Qed.

Lemma open_indent_ok indent :
  (sp + 1 < depth)%nat →
  ∃ e stack' sp', open_indent stack sp indent = Ret (e, stack', sp') ∧ short_error e ∧
    (e = None → sp' = (sp + 1)%nat ∧ stack_ok stack' sp' (sp + 2)).
Proof.
  intros Hd. unfold open_indent, TEST_OK_. case_bool_decide as Hsp.
  2:{ do 3 eexists. split_and!; [done|cbn; unfold MAX_ERROR_DEPTH; lia|done]. }
  destruct (so_parser _ _ _ Hs (sp + 1)) as (x & q & Hx & Hq & Hw); [lia|].
  unfold set_indent. rewrite (at_index_some _ _ _ Hx). cbn. do 3 eexists. split; [done|]. split; [done|].
  intros _. split; [done|]. pose proof (lookup_lt_Some _ _ _ Hx) as Hlt.
  split; [rewrite length_insert; by apply Hs|lia| | |].
  - intros i Hi. destruct (decide (i = sp + 1)%nat) as [->|].
    + rewrite list_lookup_insert_eq by done. by do 2 eexists.
    + rewrite list_lookup_insert_ne by lia. apply Hs. lia.
  - rewrite list_lookup_insert_ne by lia. by apply Hs.
  - intros i Hi. destruct (decide (i = sp + 1)%nat) as [->|].
    + rewrite list_lookup_insert_eq by done. by do 2 eexists.
    + rewrite list_lookup_insert_ne by lia. apply Hs. lia.
Qed.
End level.

Lemma call_end_ok p s : well_behaved p → ∃ e s', call_end p s = Ret (e, s') ∧ short_error e.
Proof.
  destruct 1 as [p _ He]. unfold call_end. destruct (ip_end p) as [f|]; [by apply He|by do 2 eexists].
Qed.

Lemma close_loop_ok stack sp indent s :
  stack_ok stack sp (sp + 2) →
  ∃ e sp' s', close_loop stack indent sp s = Ret (e, sp', s') ∧ short_error e ∧ (sp' ≤ sp)%nat.
Proof.
  revert s. induction sp as [|sp IH]; intros s Hs; cbn [close_loop].
  1: destruct (stack_parser_ok Hs (0 + 1)) as (p & -> & Hp); [lia|].
  2: destruct (stack_parser_ok Hs (Datatypes.S sp + 1)) as (p & -> & Hp); [lia|].
  1,2: cbn [mbind outcome_bind]; destruct (call_end_ok p s Hp) as (e & s1 & -> & He); cbn [mbind outcome_bind].
  - rewrite (stack_base Hs). cbn. rewrite bool_decide_false by lia. by do 3 eexists.
  - destruct (stack_indent_ok Hs (Datatypes.S sp)) as (n & ->); [lia|]. cbn [mbind outcome_bind].
    case_bool_decide; [|by do 3 eexists]. case_bool_decide.
    + destruct (IH s1) as (e' & sp' & s' & -> & ? & ?); [apply (stack_ok_down Hs); lia|]. do 3 eexists. eauto with lia.
    + do 3 eexists. split; [done|]. split; [done|lia].
Qed.

Lemma call_line_ok stack sp line s :
  stack_ok stack sp (sp + 1) →
  ∃ e rest stack' s', call_line stack sp line s = Ret (e, rest, stack', s') ∧ short_error e ∧ stack_ok stack' sp (sp + 2).
Proof.
  intros Hs. unfold call_line. destruct (stack_parser_ok Hs sp) as (p & -> & Hp); [lia|]. cbn [mbind outcome_bind].
  destruct (set_parser_ok Hs no_parser) as (stack1 & -> & Hs1); [lia|apply no_parser_ok|]. cbn [mbind outcome_bind].
  destruct Hp as [p Hl _]. destruct (ip_parse_line p) as [f|].
  2:{ do 4 eexists. split; [done|]. split; [cbn; unfold MAX_ERROR_DEPTH; lia|done]. }
  destruct (Hl f eq_refl s line) as (e & rest & next & s1 & -> & He & Hn). cbn [mbind outcome_bind].
  destruct (set_parser_ok Hs1 next) as (stack2 & -> & Hs2); [lia|done|]. cbn [mbind outcome_bind].
  do 4 eexists. split; [done|]. split; [|done]. destruct e; [done|].
  unfold parse_eos, test_ok, TEST_OK_. case_bool_decide; cbn; [done|unfold MAX_ERROR_DEPTH; lia].
Qed.

Lemma parse_one_line_ok line stack sp s :
  stack_ok stack sp (sp + 2) →
  ∃ e rest stack' sp' s', parse_one_line line stack sp s = Ret (e, rest, stack', sp', s') ∧ short_error e ∧
    (e = None → stack_ok stack' sp' (sp' + 2)).
Proof.
  intros Hs. unfold parse_one_line. case_match; [by do 5 eexists|].
  destruct (stack_indent_ok Hs sp) as (n & ->); [lia|]. cbn [mbind outcome_bind].
  destruct (bool_decide (n < line_indent line)%nat).
  - destruct (open_indent_ok Hs (line_indent line)) as (e & stack1 & sp1 & -> & He & Hok); [lia|]. cbn [mbind outcome_bind].
    destruct e as [e|]; [by do 5 eexists|]. destruct (Hok eq_refl) as [-> Hs1].
    destruct (call_line_ok stack1 (sp + 1) (skip_whitespace line) s) as (e & rest & stack2 & s2 & -> & He2 & Hs2).
    { apply (stack_ok_down Hs1); lia. }
    cbn. by do 5 eexists.
  - unfold close_indents. destruct (close_loop_ok stack sp (line_indent line) s Hs) as (e & sp1 & s1 & -> & He & Hle).
    cbn [mbind outcome_bind]. destruct e as [e|]; [by do 5 eexists|].
    destruct (stack_indent_ok Hs sp1 Hle) as (m & ->). cbn [mbind outcome_bind].
    unfold TEST_OK_. destruct (bool_decide (line_indent line = m)); [|do 5 eexists; split; [done|]; cbn; unfold MAX_ERROR_DEPTH; split; [lia|done]].
    destruct (call_line_ok stack sp1 (skip_whitespace line) s1) as (e & rest & stack2 & s2 & -> & He2 & Hs2).
    { apply (stack_ok_down Hs); lia. }
    cbn. by do 5 eexists.
Qed.

Lemma fgets_cons n c file :
  fgets (Datatypes.S (Datatypes.S n)) (c :: file) =
    if decide (c = 10) then ([c], file) else let '(line, rest) := fgets (Datatypes.S n) file in (c :: line, rest).
Proof. done. Qed.
Lemma fgets_length n file : (length (fgets n file).2 ≤ length file)%nat.
Proof.
  revert file. induction n as [|n IH]; intros file; [done|].
  destruct n as [|n]; [by destruct file|]. destruct file as [|c file]; [done|]. rewrite fgets_cons.
  case_decide; [cbn; lia|]. specialize (IH file). destruct (fgets _ file) as [l rest]. cbn [snd length] in *. lia.
Qed.
Lemma fgets_progress n c file : (2 ≤ n)%nat → (length (fgets n (c :: file)).2 ≤ length file)%nat.
Proof.
  intros Hn. destruct n as [|[|n]]; [lia..|]. rewrite fgets_cons. case_decide; [done|].
  pose proof (fgets_length (Datatypes.S n) file) as Hl. by destruct (fgets _ file).
Qed.

Lemma file_loop_ok fuel file_name file line_no stack sp s :
  (length file ≤ fuel)%nat → stack_ok stack sp (sp + 2) →
  ∃ e stack' s', file_loop fuel file_name file line_no stack sp s = Ret (e, stack', s').
Proof.
  revert file line_no stack sp s. induction fuel as [|fuel IH]; intros [|c file] line_no stack sp s Hf Hs;
    try (by do 3 eexists); [cbn in Hf; lia|].
  cbn [file_loop]. pose proof (fgets_progress MAX_LINE_LENGTH c file ltac:(unfold MAX_LINE_LENGTH; lia)) as Hp.
  destruct (fgets MAX_LINE_LENGTH (c :: file)) as [bytes rest]. cbn in Hp, Hf.
  destruct (parse_one_line_ok (chop (c_str bytes)) stack sp s Hs) as (e & r & stack' & sp' & s' & -> & He & Hok).
  cbn [mbind outcome_bind]. destruct e as [e|]; [|by apply IH; [lia|apply Hok]].
  unfold ERROR_EXTEND, error_extend, assert_ok. rewrite bool_decide_true by done. cbn. by do 3 eexists.
Qed.

(** C40: Whatever the file holds, it is parsed to the end or to the first error: the
    stack of levels never overflows, no parser that was not set is called and no
    indentation is read that was not stored, for parsers that themselves return. *)
Theorem parse_indented_file_total file_name file parser s :
  well_behaved parser → ∃ e s', parse_indented_file file_name file parser s = Ret (e, s').
Proof.
  intros Hp. unfold parse_indented_file.
  destruct (file_loop_ok (length file) file_name file 0 (initial_stack parser) 0 s) as (e & stack & s' & ->);
    [done|by apply initial_stack_ok|]. cbn [mbind outcome_bind].
  destruct e as [e|]; [by do 2 eexists|].
  destruct (call_end_ok parser s' Hp) as (e & s2 & -> & _). by do 2 eexists.
Qed.

(** ** What every line keeps true is true at the end *)

Section invariant.
Context (I : S → Prop).

(** Parsers, without a call at the end, whose lines keep [I] when they succeed. *)
Inductive preserving : indent_parser → Prop :=
  | preserving_parser p :
      ip_end p = None →
      (∀ f s line rest next s', ip_parse_line p = Some f → I s → f s line = Ret (None, rest, next, s') → I s' ∧ preserving next) →
      preserving p.
Definition all_preserving (stack : list indent_state) : Prop :=
  ∀ i x p, stack !! i = Some x → is_parser x = Some p → preserving p.

Lemma preserving_none : preserving no_parser.
Proof. constructor; [done|]. by intros ? ? ? ? ? ? [=]. Qed.

Lemma stack_parser_preserving stack i p : all_preserving stack → stack_parser stack i = Ret p → preserving p.
Proof.
  intros Hs. unfold stack_parser, at_index. destruct (stack !! i) as [x|] eqn:E; [|done]. cbn.
  destruct (is_parser x) as [q|] eqn:Eq; [|done]. intros [= <-]. by eapply Hs.
Qed.

Lemma insert_preserving stack i x :
  all_preserving stack → (∀ p, is_parser x = Some p → preserving p) → all_preserving (<[i := x]> stack).
Proof. intros Hs Hx j y p [(-> & -> & _)|[_ Hy]]%list_lookup_insert_Some; [apply Hx|by eapply Hs]. Qed.

Lemma set_parser_preserving stack i p stack' :
  all_preserving stack → preserving p → set_parser stack i p = Ret stack' → all_preserving stack'.
Proof.
  intros Hs Hp. unfold set_parser. destruct (at_index stack i) as [x| |]; [|done..]. intros [= <-].
  apply insert_preserving; [done|]. by intros q [= <-].
Qed.

Lemma preserving_end stack i p s : all_preserving stack → stack_parser stack i = Ret p → call_end p s = Ret (None, s).
Proof. intros Hs Hp%stack_parser_preserving; [|done]. destruct Hp as [q Hend _]. unfold call_end. by rewrite Hend. Qed.

Lemma close_loop_state stack indent sp s e sp' s' :
  all_preserving stack → close_loop stack indent sp s = Ret (e, sp', s') → s' = s.
Proof.
  intros Hs. revert s. induction sp as [|sp IH]; intros s; cbn [close_loop].
  - destruct (stack_parser stack _) as [p| |] eqn:Ep; [|done..]. cbn [mbind outcome_bind].
    rewrite (preserving_end _ _ _ s Hs Ep). cbn [mbind outcome_bind].
    destruct (stack_indent stack _) as [m| |]; [|done..]. cbn [mbind outcome_bind]. case_bool_decide; [done|by intros [=]].
  - destruct (stack_parser stack _) as [p| |] eqn:Ep; [|done..]. cbn [mbind outcome_bind].
    rewrite (preserving_end _ _ _ s Hs Ep). cbn [mbind outcome_bind].
    destruct (stack_indent stack _) as [m| |]; [|done..]. cbn [mbind outcome_bind]. case_bool_decide; [|by intros [=]].
    rewrite bool_decide_true by done. apply IH.
Qed.

Lemma call_line_preserving stack sp line s rest stack' s' :
  all_preserving stack → I s → call_line stack sp line s = Ret (None, rest, stack', s') → all_preserving stack' ∧ I s'.
Proof.
  intros Hs HI. unfold call_line. destruct (stack_parser stack sp) as [p| |] eqn:Ep; [|done..]. cbn [mbind outcome_bind].
  apply stack_parser_preserving in Ep as [q _ Hp]; [|done].
  destruct (set_parser stack (sp + 1) no_parser) as [stack1| |] eqn:E1; [|done..]. cbn [mbind outcome_bind].
  apply set_parser_preserving in E1; [|done|apply preserving_none].
  destruct (ip_parse_line q) as [f|]; [|done].
  destruct (f s line) as [[[[e r] next] s1]| |] eqn:Ef; [|done..]. cbn [mbind outcome_bind].
  destruct (set_parser stack1 (sp + 1) next) as [stack2| |] eqn:E2; [|done..]. cbn [mbind outcome_bind].
  destruct e as [e|]; [done|]. intros [= _ _ <- <-]. destruct (Hp f s line r next s1 eq_refl HI Ef) as [HI' Hn].
  split; [|done]. by eapply set_parser_preserving.
Qed.

Lemma parse_one_line_preserving line stack sp s rest stack' sp' s' :
  all_preserving stack → I s → parse_one_line line stack sp s = Ret (None, rest, stack', sp', s') → all_preserving stack' ∧ I s'.
Proof.
  intros Hs HI. unfold parse_one_line. case_match; [by intros [= _ <- _ <-]|].
  destruct (stack_indent stack sp) as [n| |]; [|done..]. cbn [mbind outcome_bind].
  destruct (bool_decide (n < line_indent line)%nat).
  - unfold open_indent, TEST_OK_. destruct (bool_decide (sp < MAX_INDENT)%nat); [|done].
    unfold set_indent, at_index. destruct (stack !! (sp + 1)%nat) as [x|] eqn:Ex; [|done]. cbn [mbind outcome_bind].
    destruct (call_line _ _ _ s) as [[[[e r] stack1] s1]| |] eqn:Ec; [|done..]. cbn [mbind outcome_bind].
    intros [= -> -> -> <- ->]. eapply call_line_preserving; [|exact HI|exact Ec].
    apply insert_preserving; [done|]. intros p Hp. by eapply Hs.
  - unfold close_indents. destruct (close_loop stack (line_indent line) sp s) as [[[e sp1] s1]| |] eqn:Ec; [|done..].
    apply close_loop_state in Ec as ->; [|done]. cbn [mbind outcome_bind]. destruct e as [e|]; [done|].
    destruct (stack_indent stack sp1) as [m| |]; [|done..]. cbn [mbind outcome_bind]. unfold TEST_OK_.
    destruct (bool_decide (line_indent line = m)); [|done].
    destruct (call_line _ _ _ s) as [[[[e r] stack1] s2]| |] eqn:Ec; [|done..]. cbn [mbind outcome_bind].
    intros [= -> -> -> <- ->]. by eapply call_line_preserving.
Qed.

Lemma file_loop_preserving fuel file_name file line_no stack sp s stack' s' :
  all_preserving stack → I s → file_loop fuel file_name file line_no stack sp s = Ret (None, stack', s') → I s'.
Proof.
  revert file line_no stack sp s. induction fuel as [|fuel IH]; intros [|c file] line_no stack sp s Hs HI; cbn [file_loop];
    try (by intros [= _ <-]).
  destruct (fgets MAX_LINE_LENGTH (c :: file)) as [bytes rest].
  destruct (parse_one_line _ stack sp s) as [[[[[e r] stack1] sp1] s1]| |] eqn:E; [|done..]. cbn [mbind outcome_bind].
  destruct e as [e|]; [unfold ERROR_EXTEND, error_extend; by destruct (assert_ok _)|].
  apply parse_one_line_preserving in E as [Hs1 HI1]; [|done..]. by apply IH.
Qed.

Lemma parse_indented_file_preserving file_name file parser s s' :
  preserving parser → I s → parse_indented_file file_name file parser s = Ret (None, s') → I s'.
Proof.
  intros Hp HI. unfold parse_indented_file.
  destruct (file_loop _ _ _ _ _ _ _) as [[[e stack] s1]| |] eqn:E; [|done..]. cbn [mbind outcome_bind].
  destruct e as [e|]; [done|]. apply file_loop_preserving in E; [|clear E|done].
  2:{ intros [|[|i]] x p; [intros [= <-] [= <-]; done|intros [= <-] [= <-]; apply preserving_none|].
      change (initial_stack parser !! _) with (replicate MAX_INDENT (mk_indent None None) !! i).
      intros [-> _]%lookup_replicate. done. }
  destruct Hp as [q Hend _]. unfold call_end. rewrite Hend. by intros [= <-].
Qed.
End invariant.

End indent.
#[global] Arguments indent_parser : clear implicits.
#[global] Arguments indent_state : clear implicits.
End Indent.
