(* ===== verification/IndentSpec.v ===== *)
(** * What an indented file means *)

From S2P Require Import Prelude Errors Parse Capture Metadata Indent.
From stdpp Require Import base numbers list option strings pretty.
Open Scope Z_scope.

Module IndentSpec.
Import Parse Capture Metadata Indent.

(** The tree that the indentation of a file draws: lines with what is below them,
    and the lines that follow at the same level.  [extra] is by how much more than one
    the lines below are moved. *)
Inductive forest :=
  | Nil
  | Line (text : cstring) (extra : nat) (below following : forest).

Fixpoint render (indent : nat) (f : forest) : list cstring :=
  match f with
  | Nil => []
  | Line text extra below following =>
      (replicate indent 32 ++ text) :: render (indent + 1 + extra) below ++ render indent following
  end.
Definition join (lines : list cstring) : list Z := foldr (λ line rest, line ++ 10 :: rest) [] lines.
Definition file_of (f : forest) : list Z := join (render 0 f).
Fixpoint depth (f : forest) : nat :=
  match f with Nil => 0 | Line _ _ below following => Nat.max (1 + depth below) (depth following) end.

(** A line of text as it may stand in a file: neither empty nor a comment. *)
Definition text_ok (text : cstring) : Prop :=
  Forall (λ c, c ≠ 0 ∧ c ≠ 10) text ∧ is_blank (cur text) = false ∧ cur text ≠ 0 ∧ cur text ≠ 35.
Fixpoint forest_ok (indent : nat) (f : forest) : Prop :=
  match f with
  | Nil => True
  | Line text extra below following =>
      text_ok text ∧ (indent + length text + 2 ≤ MAX_LINE_LENGTH)%nat ∧
      forest_ok (indent + 1 + extra) below ∧ forest_ok indent following
  end.

Section tree.
Context {S : Type}.
Abbreviation indent_parser := (indent_parser S).
Abbreviation indent_state := (indent_state S).
Implicit Types stack : list indent_state.
Implicit Types x : indent_state.
Implicit Types p q : indent_parser.

(** ** The meaning of a tree *)

(** One line: the error, the parser for what is below, the state. *)
Definition run_text (p : indent_parser) (text : cstring) (s : S) : outcome (error__t * indent_parser * S) :=
  match ip_parse_line p return outcome (error__t * indent_parser * S) with
  | None => Ret (TEST_OK_ false "Cannot parse this indentation", no_parser, s)
  | Some parse_line =>
      '(error, rest, next, s) ← parse_line s text;
      Ret (match error with Some e => Some e | None => err_of (parse_eos rest).1 end, next, s)
  end.
Fixpoint run_forest (p : indent_parser) (f : forest) (s : S) : outcome (error__t * S) :=
  match f with
  | Nil => Ret (None, s)
  | Line text _ below following =>
      '(error, next, s) ← run_text p text s;
      match error return outcome (error__t * S) with
      | Some e => Ret (Some e, s)
      | None =>
          '(error, s) ← run_forest next below s;
          match error return outcome (error__t * S) with Some e => Ret (Some e, s) | None => run_forest p following s end
      end
  end.

(** Parsers that need no call at the end, as all those of the server. *)
Inductive no_end : indent_parser → Prop :=
  | no_end_parser p :
      ip_end p = None →
      (∀ parse_line s line e rest next s', ip_parse_line p = Some parse_line →
         parse_line s line = Ret (e, rest, next, s') → no_end next) → no_end p.

Lemma no_end_call p s : no_end p → call_end p s = Ret (None, s).
Proof. destruct 1 as [p E _]. unfold call_end. by rewrite E. Qed.

Lemma no_end_none : no_end no_parser.
Proof. constructor; [done|]. by intros ? ? ? ? ? ? ? [=]. Qed.

(** ** Running the lines *)

(** The lines of a file, up to the first error. *)
Fixpoint run_lines (lines : list cstring) (stack : list indent_state) (sp : nat) (s : S) : outcome (error__t * S) :=
  match lines with
  | [] => Ret (None, s)
  | line :: lines =>
      '(error, _, stack, sp, s) ← parse_one_line line stack sp s;
      match error return outcome (error__t * S) with Some e => Ret (Some e, s) | None => run_lines lines stack sp s end
  end.

Definition level (n : nat) (p : indent_parser) : indent_state := mk_indent (Some n) (Some p).
(** The parser [p] is in use at level [l] with this indent; the levels above are
    further in. *)
Record settled (stack : list indent_state) (sp l indent : nat) (p : indent_parser) : Prop := {
  st_length : length stack = (MAX_INDENT + 2)%nat;
  st_sp : (l ≤ sp ≤ MAX_INDENT)%nat;
  st_level : stack !! l = Some (level indent p);
  st_above i : (l < i ≤ sp)%nat → ∃ n q, stack !! i = Some (level n q) ∧ (indent < n)%nat ∧ no_end q;
  st_next : ∃ x q, stack !! (sp + 1)%nat = Some x ∧ is_parser x = Some q ∧ no_end q;
}.
(** The next line may open a new level with this indent and the parser [p]. *)
Record pending (stack : list indent_state) (sp indent : nat) (p : indent_parser) : Prop := {
  pe_length : length stack = (MAX_INDENT + 2)%nat;
  pe_sp : (sp < MAX_INDENT)%nat;
  pe_level : ∃ n q, stack !! sp = Some (level n q) ∧ (n < indent)%nat;
  pe_next : ∃ x, stack !! (sp + 1)%nat = Some x ∧ is_parser x = Some p;
}.

Lemma stack_indent_level stack i n p : stack !! i = Some (level n p) → stack_indent stack i = Ret n.
Proof. intros E. unfold stack_indent. by rewrite (at_index_some _ _ _ E). Qed.
Lemma stack_parser_at stack i x p : stack !! i = Some x → is_parser x = Some p → stack_parser stack i = Ret p.
Proof. intros E Ep. unfold stack_parser. rewrite (at_index_some _ _ _ E). cbn. by rewrite Ep. Qed.

Lemma close_loop_settled stack sp l indent p s :
  settled stack sp l indent p → close_loop stack indent sp s = Ret (None, l, s).
Proof.
  intros [Hlen Hsp Hl Habove Hnext]. revert Hsp Habove Hnext.
  induction sp as [|sp IH]; intros Hsp Habove (x & q & Hx & Hq & Hend); cbn [close_loop];
    rewrite (stack_parser_at _ _ _ _ Hx Hq); cbn [mbind outcome_bind]; rewrite (no_end_call _ _ Hend); cbn [mbind outcome_bind].
  - assert (l = 0%nat) as -> by lia. rewrite (stack_indent_level _ _ _ _ Hl). cbn. by rewrite bool_decide_false by lia.
  - destruct (decide (l = Datatypes.S sp)) as [->|].
    + rewrite (stack_indent_level _ _ _ _ Hl). cbn. by rewrite bool_decide_false by lia.
    + destruct (Habove (Datatypes.S sp)) as (m & q' & Hm & Hlt & Hq'); [lia|].
      rewrite (stack_indent_level _ _ _ _ Hm). cbn [mbind outcome_bind]. rewrite bool_decide_true by done.
      rewrite bool_decide_true by done. apply IH; [lia|intros; apply Habove; lia|].
      exists (level m q'), q'. replace (sp + 1)%nat with (Datatypes.S sp) by lia. done.
Qed.

Lemma call_line_level stack l indent p text s :
  length stack = (MAX_INDENT + 2)%nat → (l ≤ MAX_INDENT)%nat → stack !! l = Some (level indent p) → no_end p →
  match run_text p text s with
  | Ret (e, next, s') => ∃ rest stack', call_line stack l text s = Ret (e, rest, stack', s') ∧
      length stack' = length stack ∧ no_end next ∧ (∀ i, (i ≤ l)%nat → stack' !! i = stack !! i) ∧
      ∃ x, stack' !! (l + 1)%nat = Some x ∧ is_parser x = Some next
  | _ => True
  end.
Proof.
  intros Hlen Hl Hp Hend. unfold run_text, call_line, set_parser. rewrite (stack_parser_at _ _ _ _ Hp eq_refl).
  destruct (lookup_lt_is_Some_2 stack (l + 1)) as [x Hx]; [lia|]. cbn [mbind outcome_bind].
  rewrite (at_index_some _ _ _ Hx). cbn [mbind outcome_bind].
  assert (Hlt : (l + 1 < length stack)%nat) by lia.
  destruct (ip_parse_line p) as [f|] eqn:Ef.
  - destruct (f s text) as [[[[e rest] next] s']| |] eqn:E; cbn [mbind outcome_bind]; [|done..].
    rewrite (at_index_some _ _ (mk_indent (is_indent x) (Some no_parser))) by (by rewrite list_lookup_insert_eq).
    cbn [mbind outcome_bind]. do 2 eexists. split; [reflexivity|]. rewrite !length_insert. split; [done|].
    split; [destruct Hend as [p _ Hn]; by eapply Hn|]. rewrite list_insert_insert_eq. split.
    + intros i Hi. by rewrite list_lookup_insert_ne by lia.
    + rewrite list_lookup_insert_eq by done. by eexists.
  - do 2 eexists. split; [reflexivity|]. rewrite length_insert. split; [done|]. split; [apply no_end_none|]. split.
    + intros i Hi. by rewrite list_lookup_insert_ne by lia.
    + rewrite list_lookup_insert_eq by done. by eexists.
Qed.

Lemma line_parts indent text :
  text_ok text → skip_whitespace (replicate indent 32 ++ text) = text ∧ line_indent (replicate indent 32 ++ text) = indent.
Proof.
  intros (_ & Hb & _). assert (E : skip_whitespace (replicate indent 32 ++ text) = text).
  { apply skip_blanks; [|done]. apply Forall_replicate. done. }
  split; [done|]. unfold line_indent. rewrite E, length_app, length_replicate. lia.
Qed.

(** One line at the level of [p], whether the level is in use or about to be. *)
Definition ready stack sp l indent p : Prop :=
  settled stack sp l indent p ∨ l = (sp + 1)%nat ∧ pending stack sp indent p.

Lemma level_found stack sp l indent p text s :
  ready stack sp l indent p → text_ok text →
  ∃ stack1, length stack1 = (MAX_INDENT + 2)%nat ∧ (l ≤ MAX_INDENT)%nat ∧ stack1 !! l = Some (level indent p) ∧
    (∀ i, (i < l)%nat → stack1 !! i = stack !! i) ∧
    parse_one_line (replicate indent 32 ++ text) stack sp s =
      ('(error, rest, stack, s) ← call_line stack1 l text s; Ret (error, rest, stack, l, s)).
Proof.
  intros Hr Ht. destruct (line_parts indent text Ht) as [Es Ei]. destruct Ht as (_ & _ & H0 & H35).
  unfold parse_one_line. rewrite Es, Ei, bool_decide_false, bool_decide_false by done. cbn [orb].
  destruct Hr as [Hs|[-> Hp]].
  - exists stack. pose proof (st_sp _ _ _ _ _ Hs) as Hsp. split; [apply Hs|]. split; [lia|]. split; [apply Hs|]. split; [done|].
    assert (∃ n q, stack !! sp = Some (level n q) ∧ (indent ≤ n)%nat) as (n & q & Hn & Hle).
    { destruct (decide (sp = l)) as [->|Hne]; [do 2 eexists; split; [apply Hs|lia]|].
      destruct (st_above _ _ _ _ _ Hs sp) as (n & q & Hn & Hlt & _); [lia|]. eauto with lia. }
    rewrite (stack_indent_level _ _ _ _ Hn). cbn [mbind outcome_bind]. rewrite bool_decide_false by lia.
    unfold close_indents. rewrite (close_loop_settled _ _ _ _ _ s Hs). cbn [mbind outcome_bind].
    rewrite (stack_indent_level _ _ _ _ (st_level _ _ _ _ _ Hs)). cbn [mbind outcome_bind].
    unfold TEST_OK_. by rewrite bool_decide_true.
  - destruct Hp as [Hlen Hsp (n & q & Hn & Hlt) (x & Hx & Hq)]. pose proof (lookup_lt_Some _ _ _ Hx) as Hl.
    exists (<[(sp + 1)%nat := level indent p]> stack). rewrite length_insert, list_lookup_insert_eq by done.
    split; [done|]. split; [lia|]. split; [done|].
    split; [intros i Hi; by rewrite list_lookup_insert_ne by lia|].
    rewrite (stack_indent_level _ _ _ _ Hn). cbn [mbind outcome_bind]. rewrite bool_decide_true by done.
    unfold open_indent, TEST_OK_. rewrite bool_decide_true by done. unfold set_indent.
    rewrite (at_index_some _ _ _ Hx). cbn [mbind outcome_bind]. by rewrite Hq.
Qed.

(** What lies below the level of the lines under a line is settled too. *)
Lemma settled_below stack2 stack3 sp3 l indent p indent' next :
  settled stack2 l l indent p → no_end next → (indent < indent')%nat → settled stack3 sp3 (l + 1) indent' next →
  stack3 !! l = stack2 !! l → settled stack3 sp3 l indent p.
Proof.
  intros H2 Hn Hi H3 Hl. pose proof (st_sp _ _ _ _ _ H3) as Hsp. split; [apply H3|lia|by rewrite Hl; apply H2| |apply H3].
  intros i Hlt. destruct (decide (i = l + 1)%nat) as [->|Hne].
  - exists indent', next. split; [apply H3|done].
  - destruct (st_above _ _ _ _ _ H3 i) as (n & q & ? & ? & ?); [lia|]. exists n, q. eauto with lia.
Qed.

(** The lines of a tree do what the tree says, and leave the levels below alone. *)
Lemma run_forest_lines f l indent p stack sp s rest e s' :
  ready stack sp l indent p → no_end p → forest_ok indent f → (l + depth f ≤ MAX_INDENT + 1)%nat →
  run_forest p f s = Ret (e, s') →
  match e with
  | Some _ => run_lines (render indent f ++ rest) stack sp s = Ret (e, s')
  | None => ∃ stack' sp', run_lines (render indent f ++ rest) stack sp s = run_lines rest stack' sp' s' ∧
      (f = Nil ∧ stack' = stack ∧ sp' = sp ∨ settled stack' sp' l indent p) ∧
      ∀ i, (i < l)%nat → stack' !! i = stack !! i
  end.
Proof.
  revert l indent p stack sp s rest e s'.
  induction f as [|text extra below IHb following IHf]; intros l indent p stack sp s rest e s' Hr Hp Hok Hd Hrun.
  { injection Hrun as <- <-. exists stack, sp. split_and!; [done|by left|done]. }
  cbn [forest_ok render depth run_forest] in *. destruct Hok as (Ht & _ & Hokb & Hokf).
  destruct (level_found stack sp l indent p text s Hr Ht) as (stack1 & Hlen & Hl & Hlevel & Hbelow & Eline).
  pose proof (call_line_level stack1 l indent p text s Hlen Hl Hlevel Hp) as Hcall.
  cbn [app run_lines]. rewrite Eline.
  destruct (run_text p text s) as [[[e1 next] s1]| |]; cbn [mbind outcome_bind] in Hrun; [|done..].
  destruct Hcall as (r & stack2 & -> & Hlen2 & Hnext & Hsame & x & Hx & Hxn). cbn [mbind outcome_bind].
  destruct e1 as [e1|]; [by injection Hrun as <- <-|].
  rewrite <-app_assoc.
  destruct (run_forest next below s1) as [[e2 s2]| |] eqn:Eb; cbn [mbind outcome_bind] in Hrun; [|done..].
  assert (Hset : settled stack2 l l indent p).
  { split; [lia|lia|by rewrite Hsame by lia|intros; lia|]. by exists x, next. }
  assert (Hready : below = Nil ∨ ready stack2 l (l + 1) (indent + 1 + extra) next).
  { destruct below as [|t ex b fo]; [by left|]. right. right. split; [done|]. cbn [depth] in Hd.
    split; [lia|lia| |by exists x]. exists indent, p. split; [by rewrite Hsame by lia|lia]. }
  assert (Hb : match e2 with
    | Some _ => run_lines (render (indent + 1 + extra) below ++ render indent following ++ rest) stack2 l s1 = Ret (e2, s2)
    | None => ∃ stack3 sp3, run_lines (render (indent + 1 + extra) below ++ render indent following ++ rest) stack2 l s1 =
        run_lines (render indent following ++ rest) stack3 sp3 s2 ∧ settled stack3 sp3 l indent p ∧
        ∀ i, (i < l)%nat → stack3 !! i = stack2 !! i
    end).
  { destruct Hready as [->|Hready].
    { cbn in Eb. injection Eb as <- <-. by exists stack2, l. }
    pose proof (IHb _ _ _ _ _ _ (render indent following ++ rest) _ _ Hready Hnext Hokb ltac:(lia) Eb) as H.
    destruct e2 as [e2|]; [done|]. destruct H as (stack3 & sp3 & E3 & Hpost & Hs3). exists stack3, sp3. split; [done|].
    split; [|intros; apply Hs3; lia]. destruct Hpost as [(-> & -> & ->)|Hset3]; [done|].
    apply (settled_below stack2 stack3 sp3 l indent p (indent + 1 + extra) next); [done|done|lia|done|]. apply Hs3. lia. }
  destruct e2 as [e2|]; [by injection Hrun as <- <-|]. destruct Hb as (stack3 & sp3 & -> & Hset3 & Hs3).
  pose proof (IHf l indent p stack3 sp3 s2 rest e s' ltac:(by left) Hp Hokf ltac:(lia) Hrun) as H.
  destruct e as [e|]; [done|]. destruct H as (stack4 & sp4 & E4 & Hpost & Hs4). exists stack4, sp4. split; [done|].
  split; [|intros i Hi; rewrite Hs4, Hs3, Hsame, Hbelow by lia; done].
  right. by destruct Hpost as [(-> & -> & ->)|?].
Qed.

(** ** Lines and bytes *)

Definition line_ok (line : cstring) : Prop := Forall (λ c, c ≠ 0 ∧ c ≠ 10) line ∧ (length line + 2 ≤ MAX_LINE_LENGTH)%nat.

Lemma fgets_line size line rest :
  Forall (λ c, c ≠ 0 ∧ c ≠ 10) line → (length line + 2 ≤ size)%nat → fgets size (line ++ 10 :: rest) = (line ++ [10], rest).
Proof.
  intros Hl. revert size. induction Hl as [|c line [_ Hc] _ IH]; intros size Hs; destruct size as [|[|size]]; cbn [length] in Hs; try lia;
    cbn [app]; rewrite fgets_cons; [by rewrite decide_True|].
  rewrite decide_False by done. by rewrite IH by lia.
Qed.

Lemma chop_line line : Forall (λ c, c ≠ 0 ∧ c ≠ 10) line → chop (c_str (line ++ [10])) = line.
Proof.
  induction 1 as [|c line [H0 Hc] _ IH]; [done|]. cbn. rewrite decide_False by done. cbn. rewrite decide_False by done. by f_equal.
Qed.

Lemma render_ok indent f : forest_ok indent f → Forall line_ok (render indent f).
Proof.
  revert indent. induction f as [|text extra below IHb following IHf]; intros indent Hok; cbn in *; [done|].
  destruct Hok as ((Ht & _) & Hlen & Hb & Hf). constructor; [|apply Forall_app; eauto].
  split; [apply Forall_app; split; [by apply Forall_replicate|done]|]. rewrite length_app, length_replicate. lia.
Qed.

Lemma file_loop_lines fuel file_name lines n stack sp s e s' :
  Forall line_ok lines → (length (join lines) ≤ fuel)%nat → short_error e →
  run_lines lines stack sp s = Ret (e, s') →
  match e with
  | None => ∃ stack', file_loop fuel file_name (join lines) n stack sp s = Ret (None, stack', s')
  | Some m => ∃ place stack', file_loop fuel file_name (join lines) n stack sp s =
      Ret (Some (mk_error (messages m ++ [place]) (formatted m)), stack', s')
  end.
Proof.
  intros Hok. revert fuel n stack sp s. induction Hok as [|line lines [Hl Hlen] Hok IH]; intros fuel n stack sp s Hf He Hrun.
  { injection Hrun as <- <-. exists stack. by destruct fuel. }
  cbn [join foldr] in Hf |- *. fold (join lines) in *. rewrite length_app in Hf. cbn [length] in Hf.
  destruct fuel as [|fuel]; [lia|]. cbn [run_lines] in Hrun.
  destruct (line ++ 10 :: join lines) as [|c rest] eqn:Ef; [by destruct line|].
  cbn [file_loop]. rewrite <-Ef, fgets_line, chop_line by done.
  destruct (parse_one_line line stack sp s) as [[[[[e1 r] stack1] sp1] s1]| |]; cbn [mbind outcome_bind] in *; [|done..].
  destruct e1 as [e1|].
  - injection Hrun as <- <-. unfold ERROR_EXTEND, error_extend, assert_ok. rewrite bool_decide_true by done. cbn.
    by do 2 eexists.
  - apply IH; [lia|done|done].
Qed.

(** C26: A file whose indentation draws a tree of at most eleven levels is parsed as the
    tree says: every line by the parser that the line above it has given, in order, up
    to the first error, which is reported with the place added to it. *)
Theorem parse_indented_tree file_name f p s e s' :
  no_end p → forest_ok 0 f → (depth f ≤ 11)%nat → run_forest p f s = Ret (e, s') → short_error e →
  match e with
  | None => parse_indented_file file_name (file_of f) p s = Ret (None, s')
  | Some m => ∃ place, parse_indented_file file_name (file_of f) p s =
      Ret (Some (mk_error (messages m ++ [place]) (formatted m)), s')
  end.
Proof.
  intros Hp Hok Hd Hrun He.
  assert (Hr : ready (initial_stack p) 0 0 0 p).
  { left. split; [done|unfold MAX_INDENT; lia|done|intros; lia|]. by eexists _, no_parser. }
  pose proof (run_forest_lines f 0 0 p (initial_stack p) 0 s [] e s' Hr Hp Hok ltac:(unfold MAX_INDENT; lia) Hrun) as Hlines.
  assert (Hl : run_lines (render 0 f) (initial_stack p) 0 s = Ret (e, s')).
  { rewrite app_nil_r in Hlines. destruct e as [e|]; [done|]. by destruct Hlines as (? & ? & -> & _). }
  pose proof (file_loop_lines (length (file_of f)) file_name _ 0 _ _ _ _ _ (render_ok 0 f Hok) ltac:(done) He Hl) as Hfile.
  unfold parse_indented_file. fold (file_of f) in Hfile. destruct e as [m|].
  - destruct Hfile as (place & stack' & ->). cbn. by exists place.
  - destruct Hfile as (stack' & ->). cbn [mbind outcome_bind]. by rewrite (no_end_call _ _ Hp).
Qed.

End tree.

(** ** A concrete file *)

(** Parsers of [n] levels that collect the lines. *)
Fixpoint recorder (n : nat) : indent_parser (list cstring) :=
  match n with
  | O => no_parser
  | S n => mk_parser (Some (λ s line, Ret (None, [], recorder n, s ++ [line]))) None
  end.
Lemma recorder_no_end n : no_end (recorder n).
Proof.
  induction n as [|n IH]; [apply no_end_none|]. constructor; [done|]. intros f s line e rest next s' [= <-] [= <- <- <- <-]. done.
Qed.
Lemma recorder_well_behaved n : well_behaved (recorder n).
Proof.
  induction n as [|n IH]; [apply no_parser_ok|]. constructor; [|by intros f [=]]. intros f [= <-] s line. by do 4 eexists.
Qed.

Definition example_forest : forest :=
  Line (bytes_of "PULSE[4]") 3 (Line (bytes_of "DELAY time") 0 Nil (Line (bytes_of "TYPE param enum") 3 (Line (bytes_of "0 Off") 0 Nil Nil) Nil))
    (Line (bytes_of "LUT[8]") 0 Nil Nil).

Lemma parse_indented_tree_witness :
  parse_indented_file "config" (file_of example_forest) (recorder 3) [] =
    Ret (None, [bytes_of "PULSE[4]"; bytes_of "DELAY time"; bytes_of "TYPE param enum"; bytes_of "0 Off"; bytes_of "LUT[8]"]).
Proof.
  apply (parse_indented_tree "config" example_forest (recorder 3) [] None); [apply recorder_no_end| |cbn; lia|reflexivity|done].
  cbn [example_forest forest_ok]. unfold text_ok. split_and!; try done; try (by apply (bool_decide_unpack _); vm_compute); cbn; unfold MAX_LINE_LENGTH; lia.
Defined.

Lemma parse_indented_file_total_witness :
  ∃ e s, parse_indented_file "config" (bytes_of " a" ++ [10; 32; 32; 98]) (recorder 3) [] = Ret (e, s).
Proof. apply parse_indented_file_total, recorder_well_behaved. Defined.
End IndentSpec.
