(* ===== verification/Database.v ===== *)
(** * Loading the configuration: panda-server/server/database.c, and the part of
      fields.c that it calls

    Three indented files make the database: blocks and their fields, the registers
    they use, and their descriptions.  What each class of fields does with its part
    of a line is an interface: a record of functions per class. *)

From S2P Require Import Prelude Errors Parse Format HashTable HashTableSpec Enums Capture PosOut Changes Metadata Hardware Fields Extension Indent.
From stdpp Require Import base numbers list list_numbers gmap option strings pretty.
Open Scope Z_scope.

Module Database.
Import Parse Format Capture PosOut Changes Metadata Hardware Fields Extension Indent.

(** Error of a call, and the value that the code goes on with only without one. *)
Definition split_res {A} (r : res A) (otherwise : A) : error__t * A :=
  match r with OK a => (None, a) | Err e => (Some e, otherwise) end.

(** ** Loaders of classes *)

(** What database.c reaches of [struct class_methods], with the functions the class
    has at run time.  The state [C] is the state of all classes, which have access to
    the connection to the extension server. *)
Section loader.
Context {C : Type}.

Record class_loader := mk_loader {
  cl_methods : class_methods (C := C);
  (** [init]: the data of the field, the attributes of its type, the rest of the line
      and the parser of the lines below. *)
  cl_init : C → Z → cstring → outcome (res (nat * list (attr_methods (C := C))) * C * cstring * indent_parser C);
  (** [attrs]: the attributes of the class, given the data. *)
  cl_attrs : nat → list (attr_methods (C := C));
  (** [parse_register], for a block with this extension and this base. *)
  cl_parse_register : option (C → nat → list block_type → option Z → Z → cstring → outcome (error__t * C * list block_type * cstring));
  (** [set_description_parse]. *)
  cl_set_description_parse : option (nat → indent_parser C);
}.
End loader.
#[global] Arguments class_loader : clear implicits.

Section database.
Context `{Platform} `{ExtensionServer} {C T : Type} `{!StringTable nat T} (classes_table : list (class_loader C)).
Abbreviation database := (database (C := C) (T := T)).
Abbreviation attr_methods := (attr_methods (C := C)).
Abbreviation field := (field (C := C) T).

(** ** Everything the files are loaded into *)

Record config := mk_config {
  cf_db : database;
  cf_types : list block_type;
  cf_extensions : gmap nat Z;
  cf_connection : option ext_server;
  cf_metadata : Metadata.metadata (T := T);
  cf_registers : list named_register;
  cf_constants : list named_constant;
  cf_classes : C;
}.
Definition set_db (c : config) (db : database) : config :=
  mk_config db (cf_types c) (cf_extensions c) (cf_connection c) (cf_metadata c) (cf_registers c) (cf_constants c) (cf_classes c).
Definition set_types (c : config) (types : list block_type) : config :=
  mk_config (cf_db c) types (cf_extensions c) (cf_connection c) (cf_metadata c) (cf_registers c) (cf_constants c) (cf_classes c).
Definition set_extension (c : config) (bix : nat) (id : Z) (conn : option ext_server) : config :=
  mk_config (cf_db c) (cf_types c) (<[bix := id]> (cf_extensions c)) conn (cf_metadata c) (cf_registers c) (cf_constants c) (cf_classes c).
Definition set_connection (c : config) (conn : option ext_server) : config :=
  mk_config (cf_db c) (cf_types c) (cf_extensions c) conn (cf_metadata c) (cf_registers c) (cf_constants c) (cf_classes c).
Definition set_metadata (c : config) (m : Metadata.metadata) : config :=
  mk_config (cf_db c) (cf_types c) (cf_extensions c) (cf_connection c) m (cf_registers c) (cf_constants c) (cf_classes c).
Definition set_registers (c : config) (regs : list named_register) : config :=
  mk_config (cf_db c) (cf_types c) (cf_extensions c) (cf_connection c) (cf_metadata c) regs (cf_constants c) (cf_classes c).
Definition set_constants (c : config) (constants : list named_constant) : config :=
  mk_config (cf_db c) (cf_types c) (cf_extensions c) (cf_connection c) (cf_metadata c) (cf_registers c) constants (cf_classes c).
Definition set_classes (c : config) (classes : C) : config :=
  mk_config (cf_db c) (cf_types c) (cf_extensions c) (cf_connection c) (cf_metadata c) (cf_registers c) (cf_constants c) classes.

(** A parser of a class works on its part of the state. *)
Fixpoint lift_parser (p : indent_parser C) : indent_parser config :=
  match p with
  | mk_parser parse_line end_ =>
      mk_parser
        (match parse_line with
         | Some f => Some (λ c line, match f (cf_classes c) line with
                                     | Ret (error, rest, next, s) => Ret (error, rest, lift_parser next, set_classes c s)
                                     | Panic => Panic
                                     | Undef => Undef
                                     end)
         | None => None
         end)
        (match end_ with
         | Some f => Some (λ c, match f (cf_classes c) with
                                | Ret (error, s) => Ret (error, set_classes c s)
                                | Panic => Panic
                                | Undef => Undef
                                end)
         | None => None
         end)
  end.

(** The line parsers return the error, the rest of the line, the parser for the lines
    below and the configuration. *)
Abbreviation parsed := (outcome (error__t * cstring * indent_parser config * config)).
Abbreviation line_parser := (config → cstring → parsed).
Definition stop (e : error) (rest : cstring) (c : config) : parsed := Ret (Some e, rest, no_parser, c).
(** A parser of the line that gives a value, and what follows. *)
Definition on_line {A} (p : parser A) (c : config) (line : cstring) (next : A → cstring → parsed) : parsed :=
  match p line with (OK a, rest) => next a rest | (Err e, rest) => stop e rest c end.
Definition level_of (f : line_parser) : indent_parser config := mk_parser (Some (λ c line, f c line)) None.

(** ** Creating fields: fields.c *)

Definition lookup_class (name : cstring) : res (class_loader C) :=
  match list_find (λ l, cm_name (cl_methods l) = name) classes_table with
  | Some (_, l) => OK l
  | None => fail ("Class " +:+ Enums.text_of name +:+ " not found")
  end.

(** [add_one_attribute] for each: the names must not be repeated. *)
Fixpoint add_attributes (db : database) (attr_map : T) (l : list attr_methods) : outcome (database * T) :=
  match l with
  | [] => Ret (db, attr_map)
  | a :: l =>
      '(old, attr_map) ← Enums.call (st_insert attr_map (am_name a) (Some (length (all_attrs db))));
      _ ← assert_ok (bool_decide (old = None));
      add_attributes (mk_database (block_map db) (blocks db) (all_fields db) (all_attrs db ++ [a])) attr_map l
  end.
(** [info_attribute]: what [describe_field] says of the field. *)
Definition info_attribute (methods : class_methods) (data : nat) (attr_map : T) : attr_methods :=
  mk_attr_methods (bytes_of "INFO")
    (Some (λ w number length_, Ret (describe_field w (mk_field 0 [] methods 0 None attr_map data false) length_, w))) None None.

Definition create_field (bix : nat) : line_parser := λ c line,
  on_line (name ← parse_alphanum_name MAX_NAME_LENGTH; _ ← parse_whitespace; class_name ← parse_name MAX_NAME_LENGTH;
           loader ← lift (lookup_class class_name); mret (name, loader)) c line (λ '(name, loader) rest,
    b ← at_index (blocks (cf_db c)) bix;
    '(r, classes, rest, sub) ← cl_init loader (cf_classes c) (b_count b) rest;
    let c := set_classes c classes in
    match r return parsed with
    | Err e => stop e rest c
    | OK (data, type_attrs) =>
        '(db, attr_map) ← add_attributes (cf_db c) st_create
           (type_attrs ++ cl_attrs loader data ++ [info_attribute (cl_methods loader) data st_create]);
        '(error, db) ← insert_field db bix name (cl_methods loader) attr_map data;
        Ret (error, rest, lift_parser sub, set_db c db)
    end).

(** ** The file config *)

Definition config_parse_metadata_field : line_parser := λ c line,
  on_line (name ← parse_alphanum_name MAX_NAME_LENGTH; _ ← parse_whitespace; mret name) c line (λ name rest,
    '(error, m, rest) ← add_metadata_key (cf_metadata c) name rest;
    Ret (error, rest, no_parser, set_metadata c m)).

(** The name after a star. *)
Definition special_name : parser cstring := _ ← parse_char (Ascii.ascii_of_nat 42); parse_name MAX_NAME_LENGTH.
Definition config_parse_metadata_header : line_parser := λ c line,
  on_line (name ← special_name; lift (test_ok (bool_decide (name = bytes_of "METADATA")) "Unexpected block")) c line
    (λ _ rest, Ret (None, rest, level_of config_parse_metadata_field, c)).

Definition config_parse_field_line (bix : nat) : line_parser := create_field bix.

(** [ "[" <count> "]" ], one by default. *)
Definition parse_count : parser Z := λ line,
  let '(more, rest) := read_char 91 line in
  if more then (count ← parse_uint; _ ← parse_char (Ascii.ascii_of_nat 93); mret count) rest else (OK 1, rest).
Definition config_parse_normal_header : line_parser := λ c line,
  '(r, rest) ← parse_block_name MAX_NAME_LENGTH line;
  match r return parsed with
  | Err e => stop e rest c
  | OK name =>
      on_line parse_count c rest (λ count rest,
        '(error, bix, db) ← create_block (cf_db c) name count;
        Ret (error, rest, level_of (config_parse_field_line bix), set_db c db))
  end.
Definition config_parse_header_line : line_parser := λ c line,
  if bool_decide (cur line = 42) then config_parse_metadata_header c line else config_parse_normal_header c line.

Definition load_config_database (file : list Z) (c : config) : outcome (error__t * config) :=
  parse_indented_file "config" file (level_of config_parse_header_line) c.

(** ** The file registers *)

(** [register_parse_special_field]: the line, and where its numbers go. *)
Definition read_text (text : cstring) : parser bool := λ line, let '(found, rest) := read_string text line in (OK found, rest).
Definition special_field : parser (cstring * Z * option Z) :=
  name ← parse_name MAX_NAME_LENGTH;
  _ ← parse_whitespace;
  _ ← read_text (bytes_of "opt");
  reg ← parse_uint;
  more ← peek;
  if bool_decide (more = 0) then mret (name, reg, None)
  else
    _ ← parse_whitespace;
    dots ← read_text (bytes_of "..");
    _ ← lift (test_ok dots "Expected end of input or number range");
    reg_end ← parse_uint;
    mret (name, reg, Some reg_end).
Definition register_parse_special_field (assign : bool) : line_parser := λ c line,
  on_line special_field c line (λ '(name, reg, reg_end) rest,
    let '(error, regs) :=
      if assign then
        match reg_end with
        | Some reg_end => hw_set_named_register_range (cf_registers c) (Enums.text_of name) reg reg_end
        | None => hw_set_named_register (cf_registers c) (Enums.text_of name) reg
        end
      else (None, cf_registers c) in
    Ret (error, rest, no_parser, set_registers c regs)).

Definition register_parse_special_header : line_parser := λ c line,
  on_line (name ← special_name; _ ← parse_whitespace; base ← parse_uint; mret (name, base)) c line (λ '(name, base) rest,
    if bool_decide (name = bytes_of "REG") then
      Ret (hw_set_block_base base, rest, level_of (register_parse_special_field true), c)
    else if bool_decide (name = bytes_of "DRV") then
      Ret (None, rest, level_of (register_parse_special_field false), c)
    else Ret (TEST_OK_ false "Invalid special block", rest, no_parser, c)).

(** [lookup_field] with the field found, as both register and description lines need it. *)
Definition find_field (c : config) (bix : nat) (name : cstring) : outcome (res (nat * field)) :=
  b ← at_index (blocks (cf_db c)) bix;
  r ← lookup_field b name;
  match r with
  | Err e => Ret (Err e)
  | OK fix_ => f ← at_index (all_fields (cf_db c)) fix_; Ret (OK (fix_, f))
  end.
Definition update_field (c : config) (fix_ : nat) (f : field) : config :=
  let db := cf_db c in set_db c (mk_database (block_map db) (blocks db) (<[fix_ := f]> (all_fields db)) (all_attrs db)).
Definition set_initialised (f : field) : field :=
  mk_field (fd_block f) (fd_name f) (fd_methods f) (fd_sequence f) (fd_description f) (fd_attrs f) (fd_class_data f) true.

(** The loader of a field is the one with the name of its class. *)
Definition field_loader (f : field) : outcome (class_loader C) :=
  match lookup_class (cm_name (fd_methods f)) with OK l => Ret l | Err _ => Undef end.

(** [field_parse_registers]. *)
Definition field_parse_registers (c : config) (fix_ : nat) (f : field) (line : cstring) : parsed :=
  loader ← field_loader f;
  b ← at_index (blocks (cf_db c)) (fd_block f);
  match cl_parse_register loader return parsed with
  | None => Ret (TEST_OK_ false "No register assignment expected for this class", line, no_parser, c)
  | Some parse_register =>
      match TEST_OK_ (negb (fd_initialised f)) "Register already assigned" return parsed with
      | Some e => stop e line c
      | None =>
          '(error, classes, types, rest) ←
            parse_register (cf_classes c) (fd_class_data f) (cf_types c) (cf_extensions c !! fd_block f) (b_base b) line;
          let c := set_types (set_classes c classes) types in
          Ret (error, rest, no_parser, match error with Some _ => c | None => update_field c fix_ (set_initialised f) end)
      end
  end.

(** [register_parse_normal_field]: the parser has been set before the line is read. *)
Definition register_parse_normal_field (bix : nat) : line_parser := λ c line,
  match parse_alphanum_name MAX_NAME_LENGTH line return parsed with
  | (Err e, rest) => stop e rest c
  | (OK name, rest) =>
      r ← find_field c bix name;
      match r return parsed with
      | Err e => stop e rest c
      | OK (fix_, f) => on_line parse_whitespace c rest (λ _ rest, field_parse_registers c fix_ f rest)
      end
  end.

(** [lookup_block] after the name of the block. *)
Definition find_block (c : config) (line : cstring) : outcome (res nat * cstring) :=
  '(r, rest) ← parse_block_name MAX_NAME_LENGTH line;
  match r with
  | Err e => Ret (Err e, rest)
  | OK name => bix ← lookup_block (cf_db c) name; Ret (bix, rest)
  end.
Definition set_block_base (db : database) (bix : nat) (b : block T) (base : Z) : database :=
  mk_database (block_map db) (<[bix := mk_block (b_name b) (b_count b) base (b_fields b) (b_description b)]> (blocks db))
    (all_fields db) (all_attrs db).
(** [parse_block_set_register]: the base, and an extension if more follows. *)
Definition parse_block_set_register (c : config) (bix : nat) (line : cstring) : outcome (error__t * cstring * config) :=
  b ← at_index (blocks (cf_db c)) bix;
  '(base, types, rest) ← parse_block_base (cf_types c) (b_base b) line;
  let c := set_types c types in
  match base return outcome (error__t * cstring * config) with
  | Err e => Ret (Some e, rest, c)
  | OK base =>
      let c := set_db c (set_block_base (cf_db c) bix b base) in
      let '(more, rest) := read_char 32 rest in
      if more then
        '(id, conn, rest) ← parse_extension_block (cf_connection c) (b_count b) rest;
        Ret (match id with
             | OK id => (None, rest, set_extension c bix id conn)
             | Err e => (Some e, rest, set_connection c conn)
             end)
      else Ret (None, rest, c)
  end.
Definition register_parse_normal_header : line_parser := λ c line,
  '(bix, rest) ← find_block c line;
  match bix return parsed with
  | Err e => stop e rest c
  | OK bix =>
      on_line parse_whitespace c rest (λ _ rest,
        '(error, rest, c) ← parse_block_set_register c bix rest;
        Ret (error, rest, level_of (register_parse_normal_field bix), c))
  end.

Definition register_parse_constant : line_parser := λ c line,
  match parse_alphanum_name MAX_NAME_LENGTH line return parsed with
  | (Err e, rest) => stop e rest c
  | (OK name, rest) =>
      on_line (_ ← parse_char (Ascii.ascii_of_nat 61); parse_uint) c (skip_whitespace rest) (λ value rest,
        let '(error, constants) := hw_set_named_constant (cf_constants c) (Enums.text_of name) value in
        Ret (error, rest, no_parser, set_constants c constants))
  end.

Definition register_parse_line : line_parser := λ c line,
  if bool_decide (cur line = 42) then register_parse_special_header c line
  else if bool_decide (61 ∈ line) then register_parse_constant c line
  else register_parse_normal_header c line.

Definition load_register_database (file : list Z) (c : config) : outcome (error__t * config) :=
  '(error, c) ← parse_indented_file "registers" file (level_of register_parse_line) c;
  Ret (match error with Some e => Some e | None => hw_validate (cf_registers c) (cf_constants c) end, c).

(** ** The file description *)

(** [field_set_description] and [block_set_description]. *)
Definition set_field_description (f : field) (description : cstring) : field :=
  mk_field (fd_block f) (fd_name f) (fd_methods f) (fd_sequence f) (Some description) (fd_attrs f) (fd_class_data f) (fd_initialised f).
Definition field_set_description (c : config) (fix_ : nat) (f : field) (description rest : cstring) : parsed :=
  match TEST_OK_ (bool_decide (fd_description f = None)) "Description already set" return parsed with
  | Some e => stop e rest c
  | None =>
      loader ← field_loader f;
      Ret (None, rest, match cl_set_description_parse loader with
                       | Some p => lift_parser (p (fd_class_data f))
                       | None => no_parser
                       end, update_field c fix_ (set_field_description f description))
  end.
Definition block_set_description (c : config) (bix : nat) (description : cstring) : outcome (error__t * config) :=
  b ← at_index (blocks (cf_db c)) bix;
  match TEST_OK_ (bool_decide (b_description b = None)) "Description already set" return outcome (error__t * config) with
  | Some e => Ret (Some e, c)
  | None =>
      let db := cf_db c in
      Ret (None, set_db c (mk_database (block_map db)
                   (<[bix := mk_block (b_name b) (b_count b) (b_base b) (b_fields b) (Some description)]> (blocks db))
                   (all_fields db) (all_attrs db)))
  end.

Definition description_text : parser cstring := _ ← parse_whitespace; parse_utf8_string.
Definition description_parse_field_line (bix : nat) : line_parser := λ c line,
  match parse_alphanum_name MAX_NAME_LENGTH line return parsed with
  | (Err e, rest) => stop e rest c
  | (OK name, rest) =>
      r ← find_field c bix name;
      match r return parsed with
      | Err e => stop e rest c
      | OK (fix_, f) => on_line description_text c rest (λ description rest, field_set_description c fix_ f description rest)
      end
  end.
Definition description_parse_block_line : line_parser := λ c line,
  '(bix, rest) ← find_block c line;
  match bix return parsed with
  | Err e => stop e rest c
  | OK bix =>
      on_line description_text c rest (λ description rest,
        '(error, c) ← block_set_description c bix description;
        Ret (error, rest, level_of (description_parse_field_line bix), c))
  end.
Definition load_description_database (file : list Z) (c : config) : outcome (error__t * config) :=
  parse_indented_file "description" file (level_of description_parse_block_line) c.

(** ** All of it *)

(** [load_config_databases]: the three files and the check at the end, which runs the
    [finalise] of every class on the state of the server [W]. *)
Definition load_config_databases (config_file registers_file description_file : list Z) (g : Z) (attributes : list attr) (c : config)
    : outcome (error__t * config) :=
  '(error, c) ← load_config_database config_file c;
  match error return outcome (error__t * config) with
  | Some e => Ret (Some e, c)
  | None =>
      '(error, c) ← load_register_database registers_file c;
      match error return outcome (error__t * config) with
      | Some e => Ret (Some e, c)
      | None =>
          '(error, c) ← load_description_database description_file c;
          match error return outcome (error__t * config) with
          | Some e => Ret (Some e, c)
          | None =>
              '(error, w) ← validate_fields (cf_db c) (mk_state g attributes (cf_classes c));
              Ret (error, set_classes c (class_state w))
          end
      end
  end.

End database.
End Database.
