(* ===== verification/DatabaseSpec.v ===== *)
(** * Theorems on the loaded configuration *)

From S2P Require Import Prelude Errors Parse Format HashTable HashTableSpec Enums Capture PosOut Changes Metadata Hardware Fields FieldsSpec Entity EntitySpec Extension Indent Database.
From stdpp Require Import base numbers list list_numbers gmap option strings pretty.
Open Scope Z_scope.

Module DatabaseSpec.
Import Parse Format Capture PosOut Changes Metadata Hardware Fields FieldsSpec EntitySpec Extension Indent Database.

Section database.
Context `{Platform} `{ExtensionServer} {C T : Type} `{!StringTable nat T} (classes_table : list (class_loader C)).
Abbreviation database := (database (C := C) (T := T)).
Abbreviation field := (field (C := C) T).
Abbreviation config := (config (C := C) (T := T)).
Abbreviation indent_parser := (indent_parser config).
Implicit Types (db : database) (c : config).

(** ** The shape of a database: names, and what they lead to *)

Definition block_shapes db : list (cstring * T) := (λ b, (b_name b, b_fields b)) <$> blocks db.
Definition field_shapes db : list (cstring * nat) := (λ f, (fd_name f, fd_block f)) <$> all_fields db.

(** A table leads exactly to the positions that [P] allows for a name. *)
Record table_leads (t : T) (P : cstring → nat → Prop) (bound : nat) : Prop := {
  tl_wf : st_wf t;
  tl_some name : st_map t !! name ≠ Some None;
  tl_exact name ix : st_map t !! name = Some (Some ix) ↔ P name ix;
  tl_size : (size (st_map t) ≤ bound)%nat;
}.
Record shape_ok (map : T) (bs : list (cstring * T)) (fs : list (cstring * nat)) : Prop := {
  sh_blocks : table_leads map (λ name bix, ∃ t, bs !! bix = Some (name, t)) (length bs);
  sh_fields bix name t : bs !! bix = Some (name, t) → table_leads t (λ fname fix_, fs !! fix_ = Some (fname, bix)) (length fs);
  sh_block_names : Forall (λ b, block_name_ok b.1) bs;
  sh_field_names : Forall (λ f, field_name_ok f.1) fs;
  sh_field_blocks : Forall (λ f, f.2 < length bs)%nat fs;
}.
(** As far as the tables have not grown beyond what they can hold. *)
Definition small db : Prop := Z.of_nat (length (blocks db)) < HashTableSpec.MAX_COUNT ∧ Z.of_nat (length (all_fields db)) < HashTableSpec.MAX_COUNT.
Definition db_ok db : Prop := small db → shape_ok (block_map db) (block_shapes db) (field_shapes db).

(** Tables with a new name. *)
Lemma table_leads_insert t P bound name v P' :
  table_leads t P bound → Z.of_nat bound < HashTableSpec.MAX_COUNT → (∀ ix, ¬ P name ix) →
  (∀ n ix, P' n ix ↔ P n ix ∨ n = name ∧ ix = v) →
  ∃ t', st_insert t name (Some v) = Some (None, t') ∧ table_leads t' P' (S bound).
Proof.
  intros [Hwf Hsome Hex Hsize] Hb Hfresh HP'.
  assert (Hn : st_map t !! name = None).
  { destruct (st_map t !! name) as [[ix|]|] eqn:E; [|by apply Hsome in E|done]. apply Hex in E. by apply Hfresh in E. }
  destruct (st_insert_ok t name (Some v) Hwf) as (t' & E & Hwf' & Hmap); [lia|]. rewrite Hn in E. exists t'. split; [exact E|].
  split; [done| | |rewrite Hmap, map_size_insert_None by done; lia].
  - intros n. rewrite Hmap. destruct (decide (n = name)) as [->|Hne]; [by rewrite lookup_insert_eq|].
    by rewrite lookup_insert_ne.
  - intros n ix. rewrite Hmap, HP'. destruct (decide (n = name)) as [->|Hne].
    + rewrite lookup_insert_eq. split; [intros [= ->]; by right|]. intros [Hp|[_ ->]]; [by apply Hfresh in Hp|done].
    + rewrite lookup_insert_ne by done. rewrite Hex. naive_solver.
Qed.

Lemma table_leads_old t P bound name v old t' :
  table_leads t P bound → Z.of_nat bound < HashTableSpec.MAX_COUNT →
  st_insert t name (Some v) = Some (old, t') → old = None → ∀ ix, ¬ P name ix.
Proof.
  intros [Hwf Hsome Hex Hsize] Hb E -> ix Hp.
  destruct (st_insert_ok t name (Some v) Hwf) as (t2 & E2 & _); [lia|]. rewrite E in E2. injection E2 as Hold _.
  apply Hex in Hp. by rewrite Hp in Hold.
Qed.

Lemma table_leads_weaken t (P P' : cstring → nat → Prop) bound bound' :
  table_leads t P bound → (∀ n ix, P' n ix ↔ P n ix) → (bound ≤ bound')%nat → table_leads t P' bound'.
Proof. intros [] HP Hb. split; [done|done| |lia]. intros n ix. by rewrite HP. Qed.

(** A new block has the next position and an empty table. *)
Lemma shape_new_block map bs fs name map' :
  shape_ok map bs fs → block_name_ok name → Z.of_nat (S (length bs)) < HashTableSpec.MAX_COUNT →
  st_insert map name (Some (length bs)) = Some (None, map') → shape_ok map' (bs ++ [(name, st_create)]) fs.
Proof.
  intros [Hb Hf Hbn Hfn Hfb] Hname Hlt E.
  pose proof (table_leads_old _ _ _ _ _ _ _ Hb ltac:(lia) E eq_refl) as Hfresh.
  destruct (table_leads_insert map _ _ name (length bs)
    (λ n bix, ∃ t, (bs ++ [(name, st_create)]) !! bix = Some (n, t)) Hb ltac:(lia) Hfresh) as (t' & E' & Hok).
  { intros n ix. split.
    - intros [t [Ht|[Hlen Ht]]%lookup_app_Some]; [eauto|].
      apply list_lookup_singleton_Some in Ht as [Hix [= <- <-]]. right. split; [done|lia].
    - intros [[t Ht]|[-> ->]]; [exists t; by apply lookup_app_l_Some|]. exists st_create. by rewrite lookup_app_r, Nat.sub_diag. }
  rewrite E in E'. injection E' as <-. split.
  - rewrite length_app, Nat.add_comm. exact Hok.
  - intros bix n t [Ht|[Hlen Ht]]%lookup_app_Some; [by eapply Hf|].
    apply list_lookup_singleton_Some in Ht as [Hix [= <- <-]]. destruct st_create_ok as [Hwf Hemp].
    split; [done|by intros n'; rewrite Hemp| |rewrite Hemp, map_size_empty; lia].
    intros n' ix. rewrite Hemp, lookup_empty. split; [done|]. intros Hx. exfalso.
    pose proof (Forall_lookup_1 _ _ _ _ Hfb Hx) as Hlt'. cbn in Hlt'. lia.
  - apply Forall_app. split; [done|]. by constructor.
  - done.
  - eapply Forall_impl; [exact Hfb|]. intros f Hlt'. cbn in *. rewrite length_app. lia.
Qed.

(** A new field has the next position and is in the table of its block. *)
Lemma shape_new_field map bs fs bix bname t name t' :
  shape_ok map bs fs → bs !! bix = Some (bname, t) → field_name_ok name → Z.of_nat (S (length fs)) < HashTableSpec.MAX_COUNT →
  st_insert t name (Some (length fs)) = Some (None, t') →
  shape_ok map (<[bix := (bname, t')]> bs) (fs ++ [(name, bix)]).
Proof.
  intros [Hb Hf Hbn Hfn Hfb] Hbix Hname Hlt E. pose proof (lookup_lt_Some _ _ _ Hbix) as Hlen.
  pose proof (Hf _ _ _ Hbix) as Ht. pose proof (table_leads_old _ _ _ _ _ _ _ Ht ltac:(lia) E eq_refl) as Hfresh.
  assert (Hnew : ∀ i n fix_, (fs ++ [(name, bix)]) !! fix_ = Some (n, i) ↔
    fs !! fix_ = Some (n, i) ∨ n = name ∧ i = bix ∧ fix_ = length fs).
  { intros i n fx. split.
    - intros [Hx|[Hl Hx]]%lookup_app_Some; [by left|]. apply list_lookup_singleton_Some in Hx as [? [= <- <-]]. right. split_and!; [done..|lia].
    - intros [Hx|(-> & -> & ->)]; [by apply lookup_app_l_Some|]. by rewrite lookup_app_r, Nat.sub_diag. }
  split.
  - rewrite length_insert. eapply table_leads_weaken; [exact Hb| |done]. intros n ix. split.
    + intros [t2 [(-> & [= -> ->] & _)|[_ Hx]]%list_lookup_insert_Some]; eauto.
    + intros [t2 Hx]. destruct (decide (ix = bix)) as [->|Hne].
      * rewrite Hbix in Hx. injection Hx as -> ->. exists t'. by apply list_lookup_insert_eq.
      * exists t2. by rewrite list_lookup_insert_ne.
  - rewrite length_app. cbn [length]. intros i n t2 [(-> & [= -> ->] & _)|[Hne Hx]]%list_lookup_insert_Some.
    + destruct (table_leads_insert t _ _ name (length fs) (λ fname fix_, (fs ++ [(name, i)]) !! fix_ = Some (fname, i))
        Ht ltac:(lia) Hfresh) as (t3 & E' & Hok).
      { intros n' ix. rewrite Hnew. naive_solver. }
      rewrite E in E'. injection E' as <-. rewrite Nat.add_comm. exact Hok.
    + eapply table_leads_weaken; [by eapply Hf| |lia]. intros n' ix. rewrite Hnew. naive_solver.
  - apply Forall_insert; [done|]. cbn. exact (Forall_lookup_1 _ _ _ _ Hbn Hbix).
  - apply Forall_app. split; [done|]. by constructor.
  - rewrite length_insert. apply Forall_app. split; [done|]. by constructor.
Qed.

(** ** Operations on the database *)

Lemma db_ok_same db db' :
  block_map db' = block_map db → block_shapes db' = block_shapes db → field_shapes db' = field_shapes db → db_ok db → db_ok db'.
Proof.
  intros Hm Hb Hf Hok [Hs1 Hs2]. rewrite Hm, Hb, Hf. apply Hok.
  apply (f_equal length) in Hb, Hf. unfold block_shapes, field_shapes in *. rewrite !length_fmap in *. split; lia.
Qed.

Lemma shape_lookup db bix b : blocks db !! bix = Some b → block_shapes db !! bix = Some (b_name b, b_fields b).
Proof. intros Hb. unfold block_shapes. by rewrite list_lookup_fmap, Hb. Qed.

Lemma call_ret {A} (o : option A) a : Enums.call o = Ret a → o = Some a.
Proof. destruct o; cbn; congruence. Qed.

Lemma create_block_ok db name count bix db' :
  db_ok db → block_name_ok name → create_block db name count = Ret (None, bix, db') → db_ok db'.
Proof.
  intros Hok Hname E. unfold create_block in E. apply bind_ret in E as ([old map] & Ecall & E). apply call_ret in Ecall.
  unfold TEST_OK_ in E. case_bool_decide as Hold; [|done]. injection E as <- <-. subst old.
  intros [Hs1 Hs2]. cbn [blocks all_fields block_map] in *. rewrite length_app in Hs1. cbn [length] in Hs1.
  unfold block_shapes at 1. cbn [blocks]. rewrite fmap_app. cbn [fmap list_fmap b_name b_fields].
  change (field_shapes _) with (field_shapes db). apply (shape_new_block (block_map db)).
  - apply Hok. split; lia.
  - done.
  - unfold block_shapes. rewrite length_fmap. lia.
  - unfold block_shapes. by rewrite length_fmap.
Qed.

Lemma insert_field_ok db bix name methods attr_map data db' :
  db_ok db → field_name_ok name → insert_field db bix name methods attr_map data = Ret (None, db') → db_ok db'.
Proof.
  intros Hok Hname E. unfold insert_field in E. apply bind_ret in E as (b & Hb & E).
  unfold at_index in Hb. destruct (blocks db !! bix) as [b'|] eqn:Hbix; [|done]. injection Hb as ->.
  apply bind_ret in E as ([old t] & Ecall & E). apply call_ret in Ecall.
  unfold TEST_OK_ in E. case_bool_decide as Hold; [|done]. injection E as <-. subst old.
  intros [Hs1 Hs2]. cbn [blocks all_fields block_map] in *. rewrite length_insert in Hs1. rewrite length_app in Hs2. cbn [length] in Hs2.
  unfold block_shapes, field_shapes. cbn [blocks all_fields]. rewrite list_fmap_insert, fmap_app.
  cbn [fmap list_fmap set_b_fields b_name b_fields fd_name fd_block].
  apply (shape_new_field (block_map db) (block_shapes db) (field_shapes db) bix (b_name b) (b_fields b) name t).
  - apply Hok. split; lia.
  - by apply shape_lookup.
  - done.
  - unfold field_shapes. rewrite length_fmap. lia.
  - unfold field_shapes. by rewrite length_fmap.
Qed.

Lemma add_attributes_shape l db t db' t' :
  add_attributes db t l = Ret (db', t') → block_map db' = block_map db ∧ blocks db' = blocks db ∧ all_fields db' = all_fields db.
Proof.
  revert db t. induction l as [|a l IH]; intros db t E; [by injection E as <- _|].
  cbn [add_attributes] in E. apply bind_ret in E as ([old t1] & _ & E). apply bind_ret in E as ([] & _ & E).
  by apply IH in E.
Qed.

Lemma set_block_same db bix b b' :
  blocks db !! bix = Some b → b_name b' = b_name b → b_fields b' = b_fields b →
  (λ b, (b_name b, b_fields b)) <$> (<[bix := b']> (blocks db)) = block_shapes db.
Proof.
  intros Hb Hn Hf. unfold block_shapes. rewrite list_fmap_insert, Hn, Hf. apply list_insert_id.
  by rewrite list_lookup_fmap, Hb.
Qed.
Lemma set_field_same db fix_ (f f' : field) :
  all_fields db !! fix_ = Some f → fd_name f' = fd_name f → fd_block f' = fd_block f →
  (λ f : field, (fd_name f, fd_block f)) <$> (<[fix_ := f']> (all_fields db)) = field_shapes db.
Proof.
  intros Hb Hn Hf. unfold field_shapes. rewrite list_fmap_insert, Hn, Hf. apply list_insert_id.
  by rewrite list_lookup_fmap, Hb.
Qed.

(** ** Names read from the files *)

Lemma alphanum_name_ok line name rest :
  parse_alphanum_name PosOut.MAX_NAME_LENGTH line = (OK name, rest) → field_name_ok name.
Proof. intros [[Hs Hf Hb Hr] Hc]%parse_alphanum_name_iff. by split. Qed.

Lemma block_name_read line name rest :
  parse_block_name PosOut.MAX_NAME_LENGTH line = Ret (OK name, rest) → block_name_ok name.
Proof.
  intros E. unfold parse_block_name in E.
  destruct (parse_alphanum_name PosOut.MAX_NAME_LENGTH line) as [[full|e] r] eqn:Ea; [|done].
  destruct (parse_block_name_spec _ _ _ _ Ea) as (n & ds & En & -> & _ & Hne & _ & Hlast).
  unfold parse_block_name in En. rewrite Ea in En. rewrite E in En. injection En as <- _.
  apply alphanum_name_ok in Ea as [Hc Hf _]. apply Forall_app in Hc as [Hc _]. split; [done|by destruct name|].
  destruct (rev name) as [|l before] eqn:Er.
  { apply (f_equal length) in Er. rewrite length_rev in Er. by destruct name. }
  exists l, before. split; [done|]. apply Hlast. apply (f_equal (@rev Z)) in Er. rewrite rev_involutive in Er. subst name.
  cbn [rev]. by rewrite last_snoc.
Qed.

(** ** The line parsers keep the database in order *)

Definition I c : Prop := db_ok (cf_db c).
Abbreviation line_parser := (config → cstring → outcome (error__t * cstring * indent_parser * config)).
Definition line_ok (f : line_parser) : Prop :=
  ∀ c line rest next c', I c → f c line = Ret (None, rest, next, c') → I c' ∧ preserving I next.

Lemma level_preserving f : line_ok f → preserving I (level_of f).
Proof. intros Hf. constructor; [done|]. intros g c line rest next c' [= <-]. apply Hf. Qed.

Lemma on_line_ret {A} (p : parser A) c line next rest n c' :
  on_line p c line next = Ret (None, rest, n, c') → ∃ a r, p line = (OK a, r) ∧ next a r = Ret (None, rest, n, c').
Proof. unfold on_line, stop. destruct (p line) as [[a|e] r]; [eauto|done]. Qed.

(** What a parser of a class does does not touch the database. *)
Inductive no_ends : Indent.indent_parser C → Prop :=
  | no_ends_parser p : ip_end p = None →
      (∀ f s line e rest next s', ip_parse_line p = Some f → f s line = Ret (e, rest, next, s') → no_ends next) → no_ends p.
Lemma lift_preserving p : no_ends p → preserving I (lift_parser p).
Proof.
  induction 1 as [[pl en] Hend Hn IH]. cbn in Hend. subst en. constructor; [done|].
  intros f c line rest next c' Hf HI E. cbn in Hf. destruct pl as [g|]; [|done]. injection Hf as <-.
  destruct (g (cf_classes c) line) as [[[[e r] n] s]| |] eqn:Eg; [|done..]. injection E as -> -> <- <-.
  split; [exact HI|]. by eapply IH.
Qed.

(** Class loaders whose sub-parsers need no call at the end. *)
Record loader_ok (l : class_loader C) : Prop := {
  lo_init classes count line r classes' rest sub : cl_init l classes count line = Ret (r, classes', rest, sub) → no_ends sub;
  lo_description p data : cl_set_description_parse l = Some p → no_ends (p data);
}.
Context (Hclasses : Forall loader_ok classes_table).

Lemma lookup_class_ok name l : lookup_class classes_table name = OK l → loader_ok l.
Proof.
  unfold lookup_class. destruct (list_find _ classes_table) as [[i l']|] eqn:E; [|done]. intros [= <-].
  apply list_find_Some in E as (Hl & _). by apply (Forall_lookup_1 _ _ _ _ Hclasses Hl).
Qed.

Lemma create_field_line_ok bix : line_ok (create_field classes_table bix).
Proof.
  intros c line rest next c' HI E. unfold create_field in E. apply on_line_ret in E as ([name loader] & r & Ep & E).
  unfold mbind, parser_bind, lift in Ep. destruct (parse_alphanum_name _ line) as [[n|e] r1] eqn:En; [|done].
  apply alphanum_name_ok in En. destruct (parse_whitespace r1) as [[[]|e] r2]; [|done].
  destruct (parse_name _ r2) as [[cn|e] r3]; [|done].
  destruct (lookup_class classes_table cn) as [l|e] eqn:El; [|done]. injection Ep as <- <- _. apply lookup_class_ok in El.
  apply bind_ret in E as (b & _ & E). apply bind_ret in E as ([[[x classes] r4] sub] & Ei & E). apply (lo_init _ El) in Ei.
  destruct x as [[data type_attrs]|e]; [|done]. apply bind_ret in E as ([db attr_map] & Ea & E).
  apply bind_ret in E as ([error db'] & Einsert & E). injection E as -> _ <- <-.
  split; [|by apply lift_preserving]. apply insert_field_ok in Einsert; [done| |done].
  apply add_attributes_shape in Ea as (Hm & Hb & Hf). apply (db_ok_same (cf_db c)); [done| | |done].
  - unfold block_shapes. by rewrite Hb.
  - unfold field_shapes. by rewrite Hf.
Qed.

Lemma metadata_line_ok : line_ok config_parse_metadata_field.
Proof.
  intros c line rest next c' HI E. unfold config_parse_metadata_field in E. apply on_line_ret in E as (name & r & _ & E).
  apply bind_ret in E as ([[e m] r2] & _ & E). injection E as _ _ <- <-. split; [done|apply preserving_none].
Qed.

Lemma config_header_ok : line_ok (config_parse_header_line classes_table).
Proof.
  intros c line rest next c' HI E. unfold config_parse_header_line in E. case_bool_decide.
  - unfold config_parse_metadata_header in E. apply on_line_ret in E as (? & r & _ & E). injection E as _ <- <-.
    split; [done|]. apply level_preserving, metadata_line_ok.
  - unfold config_parse_normal_header in E. apply bind_ret in E as ([x r] & En & E). destruct x as [name|e]; [|done].
    apply block_name_read in En. apply on_line_ret in E as (count & r2 & _ & E).
    apply bind_ret in E as ([[e bix] db] & Ec & E). injection E as -> _ <- <-.
    apply create_block_ok in Ec; [|done..]. split; [done|]. apply level_preserving. apply create_field_line_ok.
Qed.

Lemma find_field_at c bix name fix_ f :
  find_field c bix name = Ret (OK (fix_, f)) → all_fields (cf_db c) !! fix_ = Some f.
Proof.
  unfold find_field. intros E. apply bind_ret in E as (b & _ & E). apply bind_ret in E as ([x|e] & _ & E); [|done].
  apply bind_ret in E as (g & Hg & E). injection E as -> ->. unfold at_index in Hg.
  destruct (all_fields (cf_db c) !! fix_); [|done]. by injection Hg as ->.
Qed.

Lemma update_field_ok c fix_ (f f' : field) :
  I c → all_fields (cf_db c) !! fix_ = Some f → fd_name f' = fd_name f → fd_block f' = fd_block f → I (update_field c fix_ f').
Proof. intros HI Hf Hn Hb. apply (db_ok_same (cf_db c)); [done|done| |done]. by apply (set_field_same _ _ f). Qed.

Lemma register_field_ok bix : line_ok (register_parse_normal_field classes_table bix).
Proof.
  intros c line rest next c' HI E. unfold register_parse_normal_field in E.
  destruct (parse_alphanum_name _ line) as [[name|e] r]; [|done]. apply bind_ret in E as ([[fx f]|e] & Hfind & E); [|done].
  apply find_field_at in Hfind. apply on_line_ret in E as ([] & r2 & _ & E). unfold field_parse_registers in E.
  apply bind_ret in E as (l & _ & E). apply bind_ret in E as (b & _ & E). destruct (cl_parse_register l) as [p|]; [|done].
  unfold TEST_OK_ in E. destruct (negb _); [|done].
  apply bind_ret in E as ([[[e classes] types] r3] & _ & E). injection E as -> _ <- <-.
  split; [|apply preserving_none]. by apply (update_field_ok _ _ f).
Qed.

Lemma special_field_ok assign : line_ok (register_parse_special_field assign).
Proof.
  intros c line rest next c' HI E. unfold register_parse_special_field in E. apply on_line_ret in E as ([[n r] re] & r2 & _ & E).
  destruct (if assign then _ else _) as [error regs]. injection E as _ _ <- <-. split; [done|apply preserving_none].
Qed.

Lemma block_register_ok c bix line rest c' :
  I c → parse_block_set_register c bix line = Ret (None, rest, c') → I c'.
Proof.
  intros HI E. unfold parse_block_set_register in E. apply bind_ret in E as (b & Hb & E).
  apply bind_ret in E as ([[x types] r] & _ & E). destruct x as [base|e]; [|done].
  unfold at_index in Hb. destruct (blocks (cf_db c) !! bix) as [b'|] eqn:Hbix; [|done]. injection Hb as ->.
  assert (HI' : I (set_db (set_types c types) (set_block_base (cf_db c) bix b base))).
  { apply (db_ok_same (cf_db c)); [done| |done|done]. by apply (set_block_same _ _ b). }
  destruct (read_char 32 r) as [more r2]. destruct more; [|by injection E as _ <-].
  apply bind_ret in E as ([[id conn] r3] & _ & E). destruct id; [by injection E as _ <-|done].
Qed.

Lemma register_line_ok : line_ok (register_parse_line classes_table).
Proof.
  intros c line rest next c' HI E. unfold register_parse_line in E. case_bool_decide; [|case_bool_decide].
  - unfold register_parse_special_header in E. apply on_line_ret in E as ([name base] & r & _ & E).
    destruct (bool_decide (name = bytes_of "REG")); [|destruct (bool_decide (name = bytes_of "DRV")); [|done]].
    + injection E as _ _ <- <-. split; [done|]. apply level_preserving, special_field_ok.
    + injection E as _ <- <-. split; [done|]. apply level_preserving, special_field_ok.
  - unfold register_parse_constant in E. destruct (parse_alphanum_name _ line) as [[name|e] r]; [|done].
    apply on_line_ret in E as (v & r2 & _ & E). destruct (hw_set_named_constant _ _ _). injection E as _ _ <- <-.
    split; [done|apply preserving_none].
  - unfold register_parse_normal_header in E. apply bind_ret in E as ([x r] & _ & E). destruct x as [bix|e]; [|done].
    apply on_line_ret in E as ([] & r2 & _ & E). apply bind_ret in E as ([[e r3] c2] & Eb & E). injection E as -> _ <- <-.
    split; [by eapply block_register_ok|]. apply level_preserving, register_field_ok.
Qed.

Lemma description_field_ok bix : line_ok (description_parse_field_line classes_table bix).
Proof.
  intros c line rest next c' HI E. unfold description_parse_field_line in E.
  destruct (parse_alphanum_name _ line) as [[name|e] r]; [|done]. apply bind_ret in E as ([[fx f]|e] & Hfind & E); [|done].
  apply find_field_at in Hfind. apply on_line_ret in E as (d & r2 & _ & E). unfold field_set_description, TEST_OK_ in E.
  case_bool_decide; [|done]. apply bind_ret in E as (l & Hl & E). injection E as _ <- <-.
  split; [by apply (update_field_ok _ _ f)|]. unfold field_loader in Hl.
  destruct (lookup_class _ _) as [l'|e] eqn:El; [|done]. injection Hl as ->. apply lookup_class_ok in El.
  destruct (cl_set_description_parse l) as [p|] eqn:Ed; [|apply preserving_none]. by apply lift_preserving, (lo_description _ El).
Qed.

Lemma description_block_ok : line_ok (description_parse_block_line classes_table).
Proof.
  intros c line rest next c' HI E. unfold description_parse_block_line in E. apply bind_ret in E as ([x r] & _ & E).
  destruct x as [bix|e]; [|done]. apply on_line_ret in E as (d & r2 & _ & E). apply bind_ret in E as ([e c2] & Eb & E).
  injection E as -> _ <- <-. split; [|apply level_preserving, description_field_ok].
  unfold block_set_description in Eb. apply bind_ret in Eb as (b & Hb & Eb). unfold TEST_OK_ in Eb.
  unfold at_index in Hb. destruct (blocks (cf_db c) !! bix) as [b'|] eqn:Hbix; [|done]. injection Hb as ->.
  case_bool_decide; [|done]. injection Eb as <-. apply (db_ok_same (cf_db c)); [done| |done|done].
  by apply (set_block_same _ _ b).
Qed.

(** ** The loaded database *)

Lemma shape_field_in db fix_ (f : field) :
  shape_ok (block_map db) (block_shapes db) (field_shapes db) → all_fields db !! fix_ = Some f →
  ∃ b, field_in db (fd_block f) b fix_ f ∧ st_map (block_map db) !! b_name b = Some (Some (fd_block f)).
Proof.
  intros [Hb Hf Hbn Hfn Hfb] Hfix.
  assert (Hs : field_shapes db !! fix_ = Some (fd_name f, fd_block f)) by (unfold field_shapes; by rewrite list_lookup_fmap, Hfix).
  pose proof (Forall_lookup_1 _ _ _ _ Hfb Hs) as Hlt. cbn in Hlt. unfold block_shapes in Hlt. rewrite length_fmap in Hlt.
  destruct (lookup_lt_is_Some_2 _ _ Hlt) as [b Hbix]. pose proof (shape_lookup _ _ _ Hbix) as Hbs.
  assert (Hmap : st_map (block_map db) !! b_name b = Some (Some (fd_block f))) by (apply (tl_exact _ _ _ Hb); eauto).
  pose proof (Hf _ _ _ Hbs) as Ht. exists b. split; [|done]. split; try done.
  - apply Hb.
  - exact (Forall_lookup_1 _ _ _ _ Hbn Hbs).
  - apply Ht.
  - by apply (tl_exact _ _ _ Ht).
  - exact (Forall_lookup_1 _ _ _ _ Hfn Hs).
Qed.

Lemma load_databases_ok file1 file2 file3 g attributes c c' :
  I c → load_config_databases classes_table file1 file2 file3 g attributes c = Ret (None, c') →
  I c' ∧ ∃ w w', validate_fields (cf_db c') w = Ret (None, w').
Proof.
  intros HI E. unfold load_config_databases in E.
  apply bind_ret in E as ([e1 c1] & E1 & E). destruct e1; [done|]. apply bind_ret in E as ([e2 c2] & E2 & E). destruct e2; [done|].
  apply bind_ret in E as ([e3 c3] & E3 & E). destruct e3; [done|]. apply bind_ret in E as ([e4 w] & E4 & E). injection E as -> <-.
  unfold load_config_database in E1. apply (parse_indented_file_preserving I) in E1; [|apply level_preserving, config_header_ok|done].
  unfold load_register_database in E2. apply bind_ret in E2 as ([e5 c5] & E5 & E2). injection E2 as He <-.
  destruct e5; [done|]. apply (parse_indented_file_preserving I) in E5; [|apply level_preserving, register_line_ok|done].
  unfold load_description_database in E3.
  apply (parse_indented_file_preserving I) in E3; [|apply level_preserving, description_block_ok|done].
  split; [exact E3|]. by exists (mk_state g attributes (cf_classes c3)), w.
Qed.

(** C18: When the configuration loads without an error, whatever the three files hold,
    every field is in the table of its block under its name, the block is in the map
    under its own, the names are such as commands can name, the block has a base
    address and the field its registers. *)
Theorem loaded_database_consistent file1 file2 file3 g attributes c c' :
  I c → load_config_databases classes_table file1 file2 file3 g attributes c = Ret (None, c') → small (cf_db c') →
  ∀ fix_ f, all_fields (cf_db c') !! fix_ = Some f →
    ∃ b, field_in (cf_db c') (fd_block f) b fix_ f ∧ b_base b ≠ UNASSIGNED_REGISTER ∧ fd_initialised f = true.
Proof.
  intros HI E Hs fix_ f Hf. destruct (load_databases_ok _ _ _ _ _ _ _ HI E) as (HI' & w & w' & Ev). pose proof (HI' Hs) as Hshape.
  destruct (shape_field_in _ _ _ Hshape Hf) as (b & Hin & Hmap). exists b. split; [done|].
  destruct (fields_validated (cf_db c') w w' (tl_wf _ _ _ (sh_blocks _ _ _ Hshape))) with (name := b_name b) (bix := fd_block f)
    as (b' & Hb' & Hbase & Hall); [|done|done|].
  { apply Forall_lookup_2. intros i x Hi. apply (sh_fields _ _ _ Hshape i (b_name x)). by apply shape_lookup. }
  rewrite (fi_block_at _ _ _ _ _ Hin) in Hb'. injection Hb' as <-. split; [done|].
  destruct (Hall _ _ (fi_field _ _ _ _ _ Hin)) as (f' & Hf' & Hinit). rewrite Hf in Hf'. by injection Hf' as <-.
Qed.

Lemma empty_database_ok : shape_ok (st_create : T) [] [].
Proof.
  destruct st_create_ok as [Hwf Hemp]. split; [|by intros|constructor..].
  split; [done|by intros n; rewrite Hemp| |by rewrite Hemp, map_size_empty].
  intros n ix. rewrite Hemp, lookup_empty. split; [done|]. by intros [t Ht].
Qed.

End database.

(** ** A concrete configuration *)

Section example.
#[local] Existing Instance X86_64.
#[local] Existing Instance scripted_server.
#[local] Existing Instance keep_string_table.
Abbreviation table := (HashTable.hash_table (K := cstring) (V := nat)).

Definition example_loader : class_loader unit :=
  mk_loader (mk_class (bytes_of "param") None (λ _ _, None) None None None None None None None 0)
    (λ classes _ _, Ret (OK (0%nat, []), classes, [], no_parser)) (λ _, [])
    (Some (λ classes _ types _ base line, '(reg, types, rest) ← check_parse_register types base line; Ret (err_of reg, classes, types, rest)))
    None.
Definition example_config : config (C := unit) (T := table) :=
  mk_config (mk_database st_create [] [] []) initial_block_types ∅ None initialise_metadata [] [] tt.
Definition lines (l : list string) : list Z := l ≫= λ s, bytes_of s ++ [10].
Definition config_lines : list Z := lines ["# comment"; "PULSE[4]"; "    DELAY param"; "    WIDTH param"; "*METADATA"; "    HOST string"].
Definition registers_lines : list Z := lines ["PULSE 3"; "    DELAY 5"; "    WIDTH 6"].
Definition description_lines : list Z := lines ["PULSE Pulse generator"; "    DELAY Delay before the pulse"].
Definition example_loaded : config (C := unit) (T := table) := 
  match load_config_databases [example_loader] config_lines registers_lines description_lines 1 [] example_config with
  | Ret (_, c) => c
  | _ => example_config
  end.

Lemma example_loader_ok : Forall loader_ok [example_loader].
Proof.
  constructor; [|constructor]. split; [|by intros p data [=]].
  intros classes count line r classes' rest sub [= _ _ _ <-]. constructor; [done|]. by intros f s l e r' n s' [=].
Qed.

Lemma loaded_database_consistent_witness :
  ∃ f b, all_fields (cf_db example_loaded) !! 1%nat = Some f ∧ fd_name f = bytes_of "WIDTH" ∧
    field_in (cf_db example_loaded) (fd_block f) b 1 f ∧ b_base b ≠ UNASSIGNED_REGISTER.
Proof.
  assert (E : load_config_databases [example_loader] config_lines registers_lines description_lines 1 [] example_config =
    Ret (None, example_loaded)) by (vm_compute; reflexivity).
  assert (Hn : fd_name <$> (all_fields (cf_db example_loaded) !! 1%nat) = Some (bytes_of "WIDTH")) by (vm_compute; reflexivity).
  destruct (all_fields (cf_db example_loaded) !! 1%nat) as [f|] eqn:Ef; [|discriminate Hn].
  destruct (loaded_database_consistent [example_loader] example_loader_ok config_lines registers_lines description_lines 1 [] example_config example_loaded
    (λ _, empty_database_ok) E ltac:(split; vm_compute; reflexivity) 1%nat f Ef) as (b & Hin & Hbase & _).
  exists f, b. split; [done|]. split; [by injection Hn|by split].
Defined.
End example.
End DatabaseSpec.
