(* ===== verification/DataServer.v ===== *)
(** * The data server: panda-server/server/data_server.c

    One thread moves the captured data from the hardware to the capture buffer, and a
    thread per client sends it on: whole samples, converted, in blocks that fit the
    output buffer.  The conversion of a sample (capture.c) is an interface; what the
    reader of the buffer and the socket will answer is a script in the state of the
    connection. *)

From S2P Require Import Prelude Errors Base64 StdDev Buffer Capture Hardware Prepare.
From stdpp Require Import base numbers list list_numbers option strings.
Open Scope Z_scope.

Definition NET_BUF_SIZE : nat := Z.to_nat 65536.
Definition MAX_RAW_SAMPLE_LENGTH : nat := 256.

(** What [get_raw_sample_length], [get_binary_sample_length] and
    [convert_raw_data_to_binary] promise for the capture in progress. *)
Class SampleConversion := {
  raw_sample_length : nat;
  binary_sample_length : nat;
  convert_one : list Z → outcome (list Z);
  raw_length_ok : (0 < raw_sample_length ≤ MAX_RAW_SAMPLE_LENGTH)%nat;
  binary_length_ok : (0 < binary_sample_length ∧ binary_sample_length + 8 ≤ NET_BUF_SIZE)%nat;
  convert_one_length s o : convert_one s = Ret o → length o = binary_sample_length;
}.

(** Where the stream of a client goes: the answers of [check_read_block], the writing of
    an output with its number of samples, and [flush_out_buf]. *)
Class Sender := {
  sender : Type;
  check_block : sender → bool * sender;
  write_out : sender → nat → list Z → outcome (bool * sender);
  flush_out : sender → bool * sender;
}.

Module DataServer.
Import Buffer Prepare Capture Hardware.

Definition DATA_BLOCK_SIZE : Z := Z.shiftl 1 21.
Definition DATA_BLOCK_COUNT : Z := 128.
Definition BASE64_CONVERT_COUNT : nat := 57.
Definition BUFFER_READ_MARGIN : Z := DATA_BLOCK_COUNT / 4.

(** ** Capture: from the hardware to the buffer *)

(** One call of [hw_read_streamed_data]: the data, whether it is the end, whether the
    driver has the start time by now, and whether the server is still to run after it. *)
Record hw_data := mk_hw_data { hd_data : list Z; hd_eof : bool; hd_start : bool; hd_running : bool }.

(** The inner loop of [capture_experiment]: the data of the block, at_eof, ts_captured
    and whether the server goes on; [None] when the script ends within the loop. *)
Fixpoint read_block_data (ts_captured : bool) (reads : list hw_data) : option (list Z * bool * bool * bool * list hw_data) :=
  match reads with
  | [] => None
  | r :: reads =>
      let done (ts : bool) := Some (hd_data r, hd_eof r, ts, hd_running r, reads) in
      if negb ts_captured && hd_start r then done true
      else if hd_running r && bool_decide (hd_data r = []) && negb (hd_eof r) then read_block_data (ts_captured || hd_start r) reads
      else done (ts_captured || hd_start r)
  end.
(** The outer loop: the buffer, and the bytes captured. *)
Fixpoint capture_loop (fuel : nat) (b : capture_buffer) (running at_eof ts_captured : bool) (total_bytes : Z) (reads : list hw_data)
    : option (capture_buffer * Z) :=
  if running && negb at_eof then
    match fuel with
    | O => None
    | S fuel' =>
        '(data, at_eof, ts_captured, running, reads) ← read_block_data ts_captured reads;
        let b := release_write_block (fill_write_block b data) (Z.of_nat (length data)) in
        capture_loop fuel' b running at_eof ts_captured (u64 (total_bytes + Z.of_nat (length data))) reads
    end
  else Some (b, total_bytes).
(** [capture_experiment]: the buffer and the number of samples. *)
Definition capture_experiment (sample_length : Z) (b : capture_buffer) (reads : list hw_data) : option (capture_buffer * Z) :=
  '(b, total_bytes) ← capture_loop (length reads) (start_write b) true false false 0 reads;
  Some (end_write b, total_bytes / sample_length).

(** [update_start_timestamp], once the driver has a time: the time to report, and the
    offset of the clock of the hardware from that of the driver, if that was used. *)
Definition update_start_timestamp (driver hardware : Z * Z) : (Z * Z) * option Z :=
  if bool_decide (hardware = (0, 0)) then (driver, None)
  else (hardware, Some (to_signed 64 ((driver.1 * NSECS + driver.2) - (hardware.1 * NSECS + hardware.2)))).

(** ** Control *)

(** [arm_capture], up to the preparation of the capture, which gives [prepared]: the
    error, and whether capture is enabled afterwards.  The message of a test without
    one is its place in the source. *)
Definition arm_capture (place : string) (pcap_valid data_capture_enabled : bool) (b : capture_buffer) (prepared : error__t) : error__t * bool :=
  let '(busy, _, active) := read_buffer_status b in
  match
    (_ ← test_ok pcap_valid "PCAP not supported with this configuration";
     _ ← test_ok (negb data_capture_enabled) "Data capture already in progress";
     _ ← test_ok (negb busy) ("Unexpected error at " +:+ place);
     _ ← test_ok (bool_decide (active = 0)) "Data clients still taking data";
     res_of prepared)
  with
  | OK _ => (None, true)
  | Err e => (Some e, data_capture_enabled)
  end.
(** [get_capture_status]: the state, readers, active readers. *)
Definition get_capture_status (b : capture_buffer) : string * Z * Z :=
  let '(busy, readers, active) := read_buffer_status b in (if busy then "Busy" else "Idle", readers, active).
Definition get_capture_completion (data_capture_enabled : bool) (completion_code : Z) : string :=
  if data_capture_enabled then "Busy" else hw_decode_completion completion_code.

(** ** Waiting for the capture: what was lost *)

Definition lost_samples (sample_size lost_bytes : Z) : Z := u64 (lost_bytes + sample_size - 1) / sample_size.
Definition skip_bytes (sample_size lost_bytes : Z) : Z :=
  let extra_bytes := lost_bytes mod sample_size in
  if bool_decide (0 < extra_bytes) then sample_size - extra_bytes else 0.

(** ** The stream to a client *)

(** A sender with a script: the coming answers of [check_read_block] and of writes to the
    socket, true when there are none left, and the outputs written, with their numbers of
    samples. *)
Record connection := mk_connection { cn_checks : list bool; cn_writes : list bool; cn_sent : list (nat * list Z) }.
Definition script_check (c : connection) : bool * connection :=
  (default true (head (cn_checks c)), mk_connection (tail (cn_checks c)) (cn_writes c) (cn_sent c)).
Definition script_write (c : connection) (samples : nat) (output : list Z) : bool * connection :=
  (default true (head (cn_writes c)), mk_connection (cn_checks c) (tail (cn_writes c)) (cn_sent c ++ [(samples, output)])).
#[export] Instance scripted : Sender := {|
  sender := connection;
  check_block := script_check;
  write_out c samples output := Ret (script_write c samples output);
  flush_out c := (true, c);
|}.

Section stream.
Context `{Platform} `{SampleConversion} `{Sender} (format_ : data_format) (process : data_process).

(** [struct data_capture_state]: the used parts of the two buffers. *)
Record capture_state := mk_state { dc_sample : list Z; dc_output : list Z }.

(** [convert_raw_data_to_binary]: samples one after the other. *)
Fixpoint convert_samples (n : nat) (buffer : list Z) : outcome (list Z) :=
  match n with
  | O => Ret []
  | S n =>
      sample ← convert_one (take raw_sample_length buffer);
      rest ← convert_samples n (drop raw_sample_length buffer);
      Ret (sample ++ rest)
  end.

Definition process_samples (st : capture_state) (buffer : list Z) : outcome (nat * capture_state * list Z) :=
  let free_space := (NET_BUF_SIZE - length (dc_output st))%nat in
  let sample_count := Nat.min (length buffer `div` raw_sample_length) (free_space `div` binary_sample_length) in
  samples ← convert_samples sample_count buffer;
  Ret (sample_count, mk_state (dc_sample st) (dc_output st ++ samples), drop (sample_count * raw_sample_length) buffer).

(** [process_single_sample]: the samples converted, 0 or 1. *)
Definition process_single_sample (st : capture_state) (buffer : list Z) : outcome (nat * capture_state * list Z) :=
  if bool_decide (dc_sample st = []) then Ret (0%nat, st, buffer)
  else
    let to_copy := Nat.min (length buffer) (raw_sample_length - length (dc_sample st)) in
    let sample := dc_sample st ++ take to_copy buffer in
    let rest := drop to_copy buffer in
    if bool_decide (raw_sample_length ≤ length sample)%nat then
      '(n, st, sample) ← process_samples (mk_state sample (dc_output st)) sample;
      Ret (n, mk_state sample (dc_output st), rest)
    else Ret (0%nat, mk_state sample (dc_output st), rest).

(** [update_single_sample_buffer]: the bytes must fit. *)
Definition update_single_sample_buffer (st : capture_state) (buffer : list Z) : outcome capture_state :=
  let sample := dc_sample st ++ buffer in
  _ ← in_range (bool_decide (length sample ≤ MAX_RAW_SAMPLE_LENGTH)%nat); Ret (mk_state sample (dc_output st)).

(** [prepare_output_buffer]: room for the header of a frame. *)
Definition header_length : nat := match format_ with DATA_FORMAT_FRAMED => 8 | _ => 0 end.
Definition prepare_output_buffer (st : capture_state) : capture_state := mk_state (dc_sample st) (replicate header_length 0).

(** [set_frame_header], on a machine with the lowest byte first. *)
Definition le32 (x : Z) : list Z := [u8 x; u8 (Z.shiftr x 8); u8 (Z.shiftr x 16); u8 (Z.shiftr x 24)].
Definition set_frame_header (buffer : list Z) (frame_length : Z) : outcome (list Z) :=
  _ ← assert_ok (bool_decide (frame_length ≤ 2 ^ 32 - 1));
  Ret (bytes_of "BIN " ++ le32 (u32 frame_length) ++ drop 8 buffer).

(** [send_output_buffer]: the buffer as it goes to the formatter of the connection. *)
Definition send_output_buffer (st : capture_state) (samples : nat) (c : sender) : outcome (bool * sender) :=
  output ← match format_ with
           | DATA_FORMAT_FRAMED => set_frame_header (dc_output st) (Z.of_nat (length (dc_output st)))
           | _ => Ret (dc_output st)
           end;
  write_out c samples output.

(** [write_block_base64]: the lines. *)
Fixpoint write_block_base64 (fuel : nat) (data : list Z) : list (list Z) :=
  match fuel, data with
  | S fuel, _ :: _ =>
      ([32] ++ (Base64.base64_encode (take BASE64_CONVERT_COUNT data)).1 ++ [10]) ::
      write_block_base64 fuel (drop BASE64_CONVERT_COUNT data)
  | _, _ => []
  end.

(** How a block ends. *)
Inductive block_result := BLOCK_DONE | BLOCK_OVERRUN | BLOCK_CLOSED.
#[export] Instance block_result_eq_dec : EqDecision block_result.
Proof. solve_decision. Defined.

(** The loop of [process_capture_block], with the samples converted so far. *)
Fixpoint block_loop (fuel : nat) (st : capture_state) (samples : nat) (buffer : list Z) (c : sender) (sent : Z)
    : outcome (block_result * capture_state * list Z * sender * Z) :=
  '(n, st, buffer) ← process_samples st buffer;
  let samples := (samples + n)%nat in
  '(result, st, c, sent) ←
    (if bool_decide (0 < samples)%nat then
       let '(data_ok, c) := check_block c in
       if negb data_ok then Ret (BLOCK_OVERRUN, st, c, sent)
       else
         '(ok, c) ← send_output_buffer st samples c;
         if negb ok then Ret (BLOCK_CLOSED, st, c, sent)
         else Ret (BLOCK_DONE, prepare_output_buffer st, c, u64 (sent + Z.of_nat samples))
     else Ret (BLOCK_DONE, st, c, sent));
  match result with
  | BLOCK_DONE =>
      if bool_decide (raw_sample_length ≤ length buffer)%nat then
        match fuel with O => Undef | S fuel' => block_loop fuel' st 0 buffer c sent end
      else Ret (BLOCK_DONE, st, buffer, c, sent)
  | _ => Ret (result, st, buffer, c, sent)
  end.
Definition process_capture_block (st : capture_state) (buffer : list Z) (c : sender) (sent : Z)
    : outcome (block_result * capture_state * sender * Z) :=
  let st := prepare_output_buffer st in
  '(samples, st, buffer) ← process_single_sample st buffer;
  '(result, st, buffer, c, sent) ← block_loop (length buffer) st samples buffer c sent;
  match result with
  | BLOCK_DONE => st ← update_single_sample_buffer st buffer; Ret (BLOCK_DONE, st, c, sent)
  | _ => Ret (result, st, c, sent)
  end.

(** [passthrough_capture_block]: the output buffer holds the rest of the block before,
    behind the room for the header.  [buffer_to_send] is a [size_t]. *)
Definition passthrough_capture_block (st : capture_state) (buffer : list Z) (c : sender) (sent : Z)
    : outcome (block_result * capture_state * sender * Z) :=
  let count := length (dc_output st) in
  let samples := ((count + length buffer) `div` raw_sample_length)%nat in
  let buffer_to_send := ulong (Z.of_nat (samples * raw_sample_length) - Z.of_nat count) in
  let residual := (8 + count)%nat in
  header ← set_frame_header (replicate 8 0 ++ dc_output st) (ulong (Z.of_nat residual + buffer_to_send));
  '(ok1, c) ← write_out c 0 header;
  if negb ok1 then Ret (BLOCK_CLOSED, st, c, sent)
  else
    _ ← in_range (bool_decide (buffer_to_send ≤ Z.of_nat (length buffer)));
    '(ok2, c) ← write_out c samples (take (Z.to_nat buffer_to_send) buffer);
    if negb ok2 then Ret (BLOCK_CLOSED, st, c, sent)
    else
      let rest := drop (Z.to_nat buffer_to_send) buffer in
      _ ← in_range (bool_decide (8 + length rest ≤ NET_BUF_SIZE)%nat);
      let '(data_ok, c) := check_block c in
      Ret (if data_ok then BLOCK_DONE else BLOCK_OVERRUN, mk_state (dc_sample st) rest, c, u64 (sent + Z.of_nat samples)).

(** Raw framed data goes as it is. *)
Definition passthrough : bool :=
  match format_, process with DATA_FORMAT_FRAMED, DATA_PROCESS_RAW => true | _, _ => false end.

(** [send_data_stream]: the blocks that [get_read_block] returns, up to the first that
    cannot be sent. *)
Definition skip_block (skip : nat) (buffer : list Z) : nat * list Z :=
  let skipped := Nat.min skip (length buffer) in ((skip - skipped)%nat, drop skipped buffer).
Fixpoint send_data_stream (st : capture_state) (skip : nat) (blocks : list (list Z)) (c : sender) (sent : Z)
    : outcome (capture_state * sender * Z) :=
  match blocks with
  | [] => Ret (st, c, sent)
  | buffer :: blocks =>
      let '(skip, buffer) := skip_block skip buffer in
      '(result, st, c, sent) ← (if bool_decide (0 < length buffer)%nat then
                                  if passthrough then passthrough_capture_block st buffer c sent
                                  else process_capture_block st buffer c sent
                                else Ret (BLOCK_DONE, st, c, sent));
      match result with
      | BLOCK_CLOSED => Ret (st, c, sent)
      | _ =>
          let '(ok, c) := flush_out c in
          if bool_decide (result = BLOCK_DONE) && ok then send_data_stream st skip blocks c sent else Ret (st, c, sent)
      end
  end.

End stream.

(** [send_data_completion]: the message at the end. *)
Definition completion_message (status : reader_status) (completion : Z) : string :=
  match status with
  | READER_STATUS_ALL_READ => hw_decode_completion completion
  | READER_STATUS_CLOSED => "Early disconnect"
  | READER_STATUS_OVERRUN => "Data overrun"
  end.

End DataServer.
