(* ===== verification/DataServerSpec.v ===== *)
(** * The data thread and the capture buffer

    The data thread of the server is the writer of the capture buffer.  It starts a
    capture only after [arm_capture] has seen the buffer idle and without clients that
    are still taking data: so every state of the server has a buffer that the protocol
    of BufferSpec allows, and its theorems hold of the server. *)

From S2P Require Import Prelude Errors StdDev Buffer BufferSpec Capture Hardware Prepare DataServer.
From stdpp Require Import base numbers list list_numbers option strings gmap fin_maps relations.
Open Scope Z_scope.

Module DataServerSpec.
Import Buffer BufferSpec DataServer.

(** ** Capture of one experiment *)

Section experiment.
Context (N margin : Z) (HN : 0 < N) (Hmargin : 0 ≤ margin) (HmN : margin + 1 < N).

(** A buffer the writer works on. *)
Definition writing (b : capture_buffer) (blocks : nat) : Prop :=
  state b = STATE_ACTIVE ∧ block_count b = N ∧ length (buffer b) = Z.to_nat N ∧ 0 ≤ in_ptr b < N.

Lemma fill_release_steps s data :
  writing (buf s) (length (log s)) → Z.of_nat (S (length (log s))) < N * 2 ^ 32 →
  let b := release_write_block (fill_write_block (buf s) data) (Z.of_nat (length data)) in
  rtc (step margin) s (mk_sys b (log s ++ [(data, Z.of_nat (length data))]) (clients s)) ∧ writing b (S (length (log s))).
Proof.
  intros (Hst & Hc & Hl & Hin) Hb b. split.
  - eapply rtc_l; [by apply (step_fill _ s data)|]. eapply rtc_l; [|apply rtc_refl].
    apply (step_release margin (mk_sys (fill_write_block (buf s) data) (log s) (clients s)) data); [done| |by simpl; rewrite Hc].
    unfold get_buffer. simpl. apply list_lookup_insert_eq. lia.
  - subst b. unfold writing, release_write_block. simpl. rewrite Hc. destruct (bool_decide (N ≤ in_ptr (buf s) + 1)) eqn:E; simpl;
      split_and!; try done; try (by rewrite length_insert); try apply bool_decide_eq_false in E; lia.
Qed.

(** The data of the reads that end a block: those that found something, or the start
    time, or the end. *)
Fixpoint released (running at_eof ts_captured : bool) (fuel : nat) (reads : list hw_data) : list (list Z) :=
  if running && negb at_eof then
    match fuel, read_block_data ts_captured reads with
    | S fuel, Some (data, at_eof, ts, running, reads) => data :: released running at_eof ts fuel reads
    | _, _ => []
    end
  else [].
Definition total (l : list (list Z)) : Z := Z.of_nat (length (concat l)).

Lemma capture_loop_steps fuel s running at_eof ts bytes reads b n :
  writing (buf s) (length (log s)) → Z.of_nat (length (log s) + fuel) < N * 2 ^ 32 →
  capture_loop fuel (buf s) running at_eof ts (u64 bytes) reads = Some (b, n) →
  let blocks := released running at_eof ts fuel reads in
  rtc (step margin) s (mk_sys b (log s ++ ((λ d, (d, Z.of_nat (length d))) <$> blocks)) (clients s)) ∧
  state b = STATE_ACTIVE ∧ n = u64 (bytes + total blocks).
Proof.
  revert s running at_eof ts bytes reads. induction fuel as [|fuel IH]; intros s running at_eof ts bytes reads Hw Hb E blocks;
    cbn [capture_loop released] in *; subst blocks; destruct (running && negb at_eof).
  1: done. 1,3: injection E as <- <-; unfold total; simpl; rewrite Z.add_0_r, app_nil_r; destruct s, Hw; by split.
  destruct (read_block_data ts reads) as [[[[[data eof] ts'] run] reads']|]; [|done]. cbn [mbind option_bind] in E.
  destruct (fill_release_steps s data Hw) as [Hsteps Hw']; [lia|].
  set (s1 := mk_sys _ (log s ++ _) _) in Hsteps. rewrite wrap_add_l in E.
  destruct (IH s1 run eof ts' (bytes + Z.of_nat (length data)) reads') as (Hs2 & Hst & ->); [..|exact E|].
  { subst s1. simpl. rewrite length_app. simpl. by rewrite Nat.add_1_r. }
  { subst s1. simpl. rewrite length_app. simpl. lia. }
  split_and!; [|done|].
  - etransitivity; [exact Hsteps|]. subst s1. simpl in Hs2. by rewrite <-(assoc_L (++)) in Hs2.
  - unfold total. cbn [concat]. rewrite length_app. f_equal. lia.
Qed.

(** No data is dropped on the way: a read that is not the last of its block was empty. *)
Lemma read_block_consumes ts reads data eof ts' run rest :
  read_block_data ts reads = Some (data, eof, ts', run, rest) →
  ∃ used, reads = used ++ rest ∧ data = concat (hd_data <$> used) ∧ (length rest < length reads)%nat.
Proof.
  revert ts. induction reads as [|r reads IH]; intros ts E; [done|]. cbn [read_block_data] in E.
  destruct (negb ts && hd_start r); [|destruct (hd_running r && bool_decide (hd_data r = []) && negb (hd_eof r)) eqn:Eg].
  1,3: simplify_eq; exists [r]; simpl; rewrite app_nil_r; split_and!; done || lia.
  apply IH in E as (used & -> & -> & Hl). exists (r :: used).
  apply andb_true_iff in Eg as [[_ Eg%bool_decide_eq_true]%andb_true_iff _]. simpl in *. rewrite Eg. split_and!; done || lia.
Qed.

Lemma released_data fuel running at_eof ts reads :
  ∃ used rest, reads = used ++ rest ∧ concat (released running at_eof ts fuel reads) = concat (hd_data <$> used).
Proof.
  revert running at_eof ts reads.
  induction fuel as [|fuel IH]; intros running at_eof ts reads; cbn [released]; destruct (running && negb at_eof);
    try (by exists [], reads).
  destruct (read_block_data ts reads) as [[[[[data eof] ts'] run] reads']|] eqn:E; [|by exists [], reads].
  apply read_block_consumes in E as (used & -> & -> & _). destruct (IH run eof ts' reads') as (used' & rest & -> & E).
  exists (used ++ used'), rest. cbn [concat]. rewrite E, fmap_app, concat_app, <-(assoc_L (++)). done.
Qed.

(** A capture, when no client does anything meanwhile: a run of the protocol of the
    buffer, in which the data read is released in order with nothing dropped, and the
    number of samples is that of the bytes read. *)
Theorem capture_experiment_exact size s reads b n :
  reachable N margin s → state (buf s) = STATE_IDLE → active_count (buf s) = 0 →
  Z.of_nat (length reads) < N * 2 ^ 32 → capture_experiment size (buf s) reads = Some (b, n) →
  let blocks := released true false false (length reads) reads in
  reachable N margin (mk_sys b ((λ d, (d, Z.of_nat (length d))) <$> blocks) (clients s)) ∧
  state b ≠ STATE_ACTIVE ∧ n = u64 (total blocks) / size ∧
  ∃ used rest, reads = used ++ rest ∧ concat blocks = concat (hd_data <$> used).
Proof.
  intros Hr Hst Hact Hb E blocks. unfold capture_experiment in E.
  destruct (capture_loop _ _ _ _ _ _ _) as [[b' bytes]|] eqn:El; [|done]. injection E as <- <-.
  pose proof (inv_shape _ _ (reachable_inv N margin HN Hmargin HmN s Hr)) as [Hc Hl _].
  set (s1 := mk_sys (start_write (buf s)) [] (clients s)).
  destruct (capture_loop_steps (length reads) s1 true false false 0 reads b' bytes) as (Hsteps & Hst' & ->).
  { subst s1. unfold writing, start_write. simpl. split_and!; done || lia. }
  { subst s1. simpl. lia. }
  { exact El. }
  split_and!; [| |done|apply released_data].
  - destruct Hr as (s0 & H0 & Hsteps0). exists s0. split; [done|]. etransitivity; [exact Hsteps0|].
    eapply rtc_l; [by apply step_start|]. etransitivity; [exact Hsteps|]. apply rtc_once. by apply (step_end margin (mk_sys b' _ _)).
  - unfold end_write. case_bool_decide; done.
Qed.

(** ** The data thread, the commands and the clients together *)

(** Where [data_thread] is. *)
Inductive thread_pc := Waiting | Woken | Starting | Capturing | Finishing | Exited.
#[local] Instance thread_pc_eq_dec : EqDecision thread_pc.
Proof. solve_decision. Defined.

(** The flags shared under [data_thread_mutex], the thread, and the buffer with its
    clients. *)
Record server := mk_server { sv_sys : sys; sv_enabled : bool; sv_running : bool; sv_pc : thread_pc }.

(** What clients and shutdown do to the buffer: they leave the blocks alone, and of the
    state they only change clearing to idle. *)
Definition client_step (s s' : sys) : Prop :=
  step margin s s' ∧ buffer (buf s') = buffer (buf s) ∧ log s' = log s ∧
  (state (buf s') = state (buf s) ∨ state (buf s) = STATE_CLEARING ∧ state (buf s') = STATE_IDLE).

Inductive server_step : server → server → Prop :=
  | sv_arm place valid s enabled running pc e :
      arm_capture place valid enabled (buf s) None = (e, true) → e = None →
      server_step (mk_server s enabled running pc) (mk_server s true running pc)
  | sv_refused place valid prepared s enabled running pc e enabled' :
      arm_capture place valid enabled (buf s) prepared = (Some e, enabled') →
      server_step (mk_server s enabled running pc) (mk_server s enabled' running pc)
  | sv_stop s enabled running pc : server_step (mk_server s enabled running pc) (mk_server s enabled false pc)
  | sv_client s s' enabled running pc : client_step s s' →
      server_step (mk_server s enabled running pc) (mk_server s' enabled running pc)
  | sv_woken s enabled running : (running && negb enabled) = false →
      server_step (mk_server s enabled running Waiting) (mk_server s enabled running Woken)
  | sv_test s enabled running :
      server_step (mk_server s enabled running Woken) (mk_server s enabled running (if running then Starting else Finishing))
  | sv_start s enabled running :
      server_step (mk_server s enabled running Starting)
        (mk_server (mk_sys (start_write (buf s)) [] (clients s)) enabled running Capturing)
  | sv_fill s enabled running data :
      server_step (mk_server s enabled running Capturing)
        (mk_server (mk_sys (fill_write_block (buf s) data) (log s) (clients s)) enabled running Capturing)
  | sv_release s enabled running data count :
      get_buffer (buf s) (in_ptr (buf s)) = Some data → Z.of_nat (S (length (log s))) < block_count (buf s) * 2 ^ 32 →
      server_step (mk_server s enabled running Capturing)
        (mk_server (mk_sys (release_write_block (buf s) count) (log s ++ [(data, count)]) (clients s)) enabled running Capturing)
  | sv_end s enabled running :
      server_step (mk_server s enabled running Capturing)
        (mk_server (mk_sys (end_write (buf s)) (log s) (clients s)) enabled running Finishing)
  | sv_finished s enabled running :
      server_step (mk_server s enabled running Finishing)
        (mk_server s false running (if running then Waiting else Exited)).

Inductive server_initial : server → Prop :=
  server_initial_intro s : initial N s → server_initial (mk_server s false true Waiting).
Definition server_reachable (sv : server) : Prop := ∃ sv0, server_initial sv0 ∧ rtc server_step sv0 sv.

(** Who may start: capture is enabled, the buffer idle and no client active, from the
    arming to the start; the buffer is active just while the thread captures. *)
Record server_inv (sv : server) : Prop := {
  sv_reach : reachable N margin (sv_sys sv);
  sv_armed : sv_enabled sv = true → sv_pc sv = Waiting ∨ sv_pc sv = Woken ∨ sv_pc sv = Starting →
    state (buf (sv_sys sv)) = STATE_IDLE ∧ active_count (buf (sv_sys sv)) = 0;
  sv_woken_why : sv_pc sv = Woken → sv_running sv = true → sv_enabled sv = true;
  sv_capturing : sv_pc sv = Starting ∨ sv_pc sv = Capturing → sv_enabled sv = true;
  sv_active : sv_pc sv = Capturing ↔ state (buf (sv_sys sv)) = STATE_ACTIVE;
}.

Lemma reachable_step s s' : reachable N margin s → step margin s s' → reachable N margin s'.
Proof. intros (s0 & H0 & Hs) Hstep. exists s0. split; [done|]. by eapply rtc_r. Qed.

Lemma idle_not_active s : reachable N margin s → state (buf s) = STATE_IDLE → active_count (buf s) = 0.
Proof. intros Hr Hst. by apply (inv_idle _ _ (reachable_inv N margin HN Hmargin HmN s Hr) Hst). Qed.

Lemma arm_capture_ok place valid enabled b prepared e :
  arm_capture place valid enabled b prepared = (None, e) →
  enabled = false ∧ state b = STATE_IDLE ∧ active_count b = 0 ∧ prepared = None ∧ e = true.
Proof.
  unfold arm_capture, read_buffer_status, test_ok. intros E. destruct valid; [|done]. destruct enabled; [done|]. cbn in E.
  destruct (bool_decide (state b ≠ STATE_IDLE)) eqn:Es; [done|]. cbn in E.
  destruct (bool_decide (active_count b = 0)) eqn:Ea; [|done]. cbn in E. destruct prepared; [done|]. injection E as <-.
  apply bool_decide_eq_false in Es. apply bool_decide_eq_true in Ea. destruct (decide (state b = STATE_IDLE)); [done|]. by destruct Es.
Qed.
Lemma arm_capture_refused place valid enabled b prepared e enabled' :
  arm_capture place valid enabled b prepared = (Some e, enabled') → enabled' = enabled.
Proof.
  unfold arm_capture. destruct (read_buffer_status b) as [[busy readers] active]. destruct (_ ≫= _); intros [= <- <-] || intros [=]; done.
Qed.

Lemma release_state b count : state (release_write_block b count) = state b.
Proof. unfold release_write_block. by destruct (if bool_decide _ then _ else _). Qed.

Lemma client_step_inv s s' enabled running pc :
  client_step s s' → server_inv (mk_server s enabled running pc) → server_inv (mk_server s' enabled running pc).
Proof.
  intros (Hstep & _ & _ & Hst) [Hr Ha Hw Hs Hc]. simpl in *. pose proof (reachable_step _ _ Hr Hstep) as Hr'.
  split; simpl; [done| |done|done|].
  - intros Hen Hpc. destruct (Ha Hen Hpc) as [E _]. assert (state (buf s') = STATE_IDLE) as E' by (destruct Hst as [->|[]]; done).
    by split; [|apply idle_not_active].
  - rewrite Hc. destruct Hst as [->|[-> ->]]; done.
Qed.

Lemma server_step_inv sv sv' : server_step sv sv' → server_inv sv → server_inv sv'.
Proof.
  destruct 1 as [place valid s enabled running pc e E ->|place valid prepared s enabled running pc e enabled' E
    |s enabled running pc|s s' enabled running pc Hc|s enabled running Hw|s enabled running|s enabled running
    |s enabled running data|s enabled running data count Hd Hb|s enabled running|s enabled running];
    intros Hinv.
  - destruct (arm_capture_ok _ _ _ _ _ _ E) as (-> & ? & ? & _ & _). destruct Hinv as [Hr Ha Hw Hs Hc]. by split.
  - by rewrite (arm_capture_refused _ _ _ _ _ _ _ E).
  - destruct Hinv as [Hr Ha Hw Hs Hc]. by split.
  - by eapply client_step_inv.
  - destruct Hinv as [Hr Ha Hw' Hs Hc]. split; simpl in *; [done| | | |].
    + intros Hen _. apply Ha; auto.
    + intros _ ->. by destruct enabled.
    + naive_solver.
    + split; [done|]. intros ?%Hc. done.
  - destruct Hinv as [Hr Ha Hw Hs Hc]. destruct running; split; simpl in *; try done; try naive_solver.
  - destruct Hinv as [Hr Ha _ Hs Hc]. simpl in *. assert (enabled = true) as -> by auto. destruct Ha as [Hst Hact]; [auto..|].
    split; simpl; [by eapply reachable_step, step_start|naive_solver|done|done|done].
  - destruct Hinv as [Hr _ _ Hs Hc]. simpl in *. assert (state (buf s) = STATE_ACTIVE) as Hst by by apply Hc.
    split; simpl; [by eapply reachable_step, step_fill|naive_solver|done|auto|done].
  - destruct Hinv as [Hr _ _ Hs Hc]. simpl in *. assert (state (buf s) = STATE_ACTIVE) as Hst by by apply Hc.
    split; simpl; [by eapply reachable_step, step_release|naive_solver|done|auto|]. by rewrite release_state.
  - destruct Hinv as [Hr _ _ Hs Hc]. simpl in *. assert (state (buf s) = STATE_ACTIVE) as Hst by by apply Hc.
    split; simpl; [by eapply reachable_step, step_end|naive_solver|done|naive_solver|].
    split; [done|]. unfold end_write. by case_bool_decide.
  - destruct Hinv as [Hr _ _ _ Hc]. simpl in *. destruct running; split; simpl; done || (rewrite <-Hc; naive_solver) || naive_solver.
Qed.

(** C16: The server never breaks the protocol of its capture buffer, whatever the order of
    commands, clients and data: its buffer is always in a state the protocol reaches,
    is active just while the data thread captures, and then capture is enabled, so that
    no other capture can be armed. *)
Theorem server_keeps_protocol sv :
  server_reachable sv →
  reachable N margin (sv_sys sv) ∧
  (sv_pc sv = Capturing ↔ state (buf (sv_sys sv)) = STATE_ACTIVE) ∧ (sv_pc sv = Capturing → sv_enabled sv = true).
Proof.
  intros (sv0 & H0 & Hsteps). assert (server_inv sv) as [Hr _ _ Hs Hc]; [|by auto].
  assert (server_inv sv0) as H1.
  { destruct H0 as [s Hi]. assert (reachable N margin s) as Hr by by exists s.
    destruct Hi. split; simpl; done || naive_solver. }
  clear H0. induction Hsteps; eauto using server_step_inv.
Qed.

(** While clients still take the data of the capture before, [arm_capture] does refuse,
    but with a message that is not meant for users: its last test, which has the
    right one, never fails. *)
Theorem arm_while_clearing place s prepared :
  reachable N margin s → state (buf s) = STATE_CLEARING →
  arm_capture place true false (buf s) prepared = (TEST_OK_ false ("Unexpected error at " +:+ place), false) ∧
  0 < active_count (buf s).
Proof.
  intros Hr Hst. split; [|by apply (inv_clearing _ _ (reachable_inv N margin HN Hmargin HmN s Hr))].
  unfold arm_capture, read_buffer_status. by rewrite Hst.
Qed.

End experiment.

(** ** Examples: a buffer of three blocks *)

Definition example_buffer : capture_buffer := create_buffer 16 3 [[]; []; []] [0; 0; 0].
Definition example_sys : sys := mk_sys example_buffer [] ∅.
Lemma example_initial : initial 3 example_sys.
Proof. by constructor. Defined.

Definition example_reads : list hw_data :=
  [mk_hw_data [] false false true; mk_hw_data [1; 2; 3; 4; 5; 6; 7; 8] false true true; mk_hw_data [] false true true;
   mk_hw_data [9; 10; 11; 12] true true true].
Lemma capture_experiment_exact_witness :
  ∃ b, capture_experiment 4 example_buffer example_reads = Some (b, 3) ∧
  reachable 3 0 (mk_sys b [([1; 2; 3; 4; 5; 6; 7; 8], 8); ([9; 10; 11; 12], 4)] ∅).
Proof.
  assert (∃ b, capture_experiment 4 example_buffer example_reads = Some (b, 3)) as [b E] by (eexists; vm_compute; reflexivity).
  exists b. split; [exact E|].
  refine (proj1 (capture_experiment_exact 3 0 _ _ _ 4 example_sys example_reads b 3 _ _ _ _ E)); [lia..| | | |].
  - exists example_sys. split; [apply example_initial|apply rtc_refl].
  - reflexivity.
  - reflexivity.
  - vm_compute. reflexivity.
Defined.

Lemma server_keeps_protocol_witness :
  let sv := mk_server (mk_sys (start_write example_buffer) [] ∅) true true Capturing in
  server_reachable 3 0 sv ∧ reachable 3 0 (sv_sys sv).
Proof.
  intros sv. assert (server_reachable 3 0 sv) as Hr.
  { exists (mk_server example_sys false true Waiting). split; [constructor; apply example_initial|].
    eapply rtc_l; [apply (sv_arm 0 "here" true example_sys false true Waiting None); [vm_compute; reflexivity|reflexivity]|].
    eapply rtc_l; [apply (sv_woken 0 example_sys true true); reflexivity|].
    eapply rtc_l; [apply (sv_test 0 example_sys true true)|].
    apply rtc_once. apply (sv_start 0 example_sys true true). }
  split; [exact Hr|]. refine (proj1 (server_keeps_protocol 3 0 _ _ _ sv Hr)); lia.
Defined.

(** One client, a capture started and ended: the client has still to finish. *)
Definition clearing_sys : sys :=
  let '(r, b) := create_reader example_buffer in
  mk_sys (end_write (start_write b)) [] {[0%nat := mk_client r Closed 0 0 [] 0]}.
Lemma arm_while_clearing_witness :
  reachable 3 0 clearing_sys ∧
  arm_capture "here" true false (buf clearing_sys) None = (TEST_OK_ false "Unexpected error at here", false).
Proof.
  assert (reachable 3 0 clearing_sys) as Hr.
  { exists example_sys. split; [apply example_initial|].
    eapply rtc_l; [apply (step_create 0 example_sys 0%nat); [reflexivity|vm_compute; reflexivity|reflexivity]|].
    eapply rtc_l; [apply step_start; reflexivity|]. apply rtc_once.
    eapply (step_end 0 (mk_sys _ _ _)). reflexivity. }
  split; [exact Hr|]. refine (proj1 (arm_while_clearing 3 0 _ _ _ "here" clearing_sys None Hr _)); [lia..|reflexivity].
Defined.

End DataServerSpec.
