(* ===== verification/DataStreamSpec.v ===== *)
(** * What a client of the data server receives

    However the captured data is cut into blocks, the converted samples sent are the
    conversion of the stream, in order and without a gap, in outputs of whole samples;
    the bytes of an incomplete sample are kept for the next block. *)

From S2P Require Import Prelude Errors StdDev Buffer Capture CaptureSpec Hardware Prepare DataServer.
From stdpp Require Import base numbers list list_numbers option strings.
Open Scope Z_scope.

Module DataStreamSpec.
Import Buffer Prepare Capture DataServer.

(** ** Arithmetic of whole samples *)

Lemma div_sub_mul (a k r : nat) : (0 < r → k * r ≤ a → (a - k * r) `div` r = a `div` r - k)%nat.
Proof.
  intros Hr Hk. replace a with ((a - k * r) + k * r)%nat at 2 by lia. rewrite Nat.div_add by lia. lia.
Qed.
Lemma div_mul_le (a r : nat) : (0 < r → a `div` r * r ≤ a)%nat.
Proof. intros. rewrite Nat.mul_comm. apply Nat.Div0.mul_div_le. Qed.
Lemma div_rest_lt (a r : nat) : (0 < r → a - a `div` r * r < r)%nat.
Proof. intros. pose proof (Nat.div_mod a r). pose proof (Nat.mod_upper_bound a r). lia. Qed.
Lemma div_pos_le (a r : nat) : (0 < r → r ≤ a → 0 < a `div` r)%nat.
Proof. intros. apply Nat.div_str_pos. lia. Qed.

Section stream.
Context `{Platform} `{SampleConversion} (format_ : data_format) (process : data_process).
Abbreviation R := raw_sample_length.
Abbreviation B := binary_sample_length.
Abbreviation headroom := (header_length format_).
Implicit Types (s buffer : list Z) (n m : nat).

Lemma raw_pos : (0 < R)%nat.
Proof. destruct raw_length_ok; lia. Qed.
Lemma binary_pos : (0 < B)%nat.
Proof. destruct binary_length_ok; lia. Qed.
Lemma headroom_le : (headroom ≤ 8)%nat.
Proof. unfold header_length. destruct format_; lia. Qed.

(** ** The conversion of several samples *)

Lemma convert_samples_length n s o : convert_samples n s = Ret o → length o = (n * B)%nat.
Proof.
  revert s o. induction n as [|n IH]; intros s o E; [by inversion E|]. cbn [convert_samples] in E.
  apply CaptureSpec.outcome_bind_ret in E as (o1 & E1%convert_one_length & E).
  apply CaptureSpec.outcome_bind_ret in E as (o2 & E2%IH & E). injection E as <-.
  rewrite length_app, E1, E2. lia.
Qed.

Lemma convert_samples_add n m s :
  convert_samples (n + m) s =
  (o1 ← convert_samples n s; o2 ← convert_samples m (drop (n * R) s); Ret (o1 ++ o2)).
Proof.
  revert s. induction n as [|n IH]; intros s.
  { simpl. rewrite drop_0. by destruct (convert_samples m s). }
  cbn [convert_samples Nat.add]. rewrite IH. destruct (convert_one _) as [o| |]; [|done..].
  cbn [mbind outcome_bind]. destruct (convert_samples n _) as [o1| |]; [|done..]. cbn [mbind outcome_bind].
  rewrite drop_drop. replace (S n * R)%nat with (R + n * R)%nat by lia.
  destruct (convert_samples m _) as [o2| |]; [|done..]. cbn [mbind outcome_bind]. by rewrite (assoc_L (++)).
Qed.

Lemma convert_samples_app n s t : (n * R ≤ length s)%nat → convert_samples n (s ++ t) = convert_samples n s.
Proof.
  revert s. induction n as [|n IH]; intros s Hn; [done|]. cbn [convert_samples].
  rewrite take_app_le, drop_app_le by lia. rewrite IH; [done|]. rewrite length_drop. lia.
Qed.

Lemma convert_samples_prefix n m s o :
  convert_samples (n + m) s = Ret o →
  ∃ o1 o2, convert_samples n s = Ret o1 ∧ convert_samples m (drop (n * R) s) = Ret o2 ∧ o = o1 ++ o2.
Proof.
  rewrite convert_samples_add. intros (o1 & E1 & E)%CaptureSpec.outcome_bind_ret.
  apply CaptureSpec.outcome_bind_ret in E as (o2 & E2 & E). injection E as <-. eauto.
Qed.

(** ** One output *)

(** What an output carries, behind the room for the header of a frame. *)
Definition payload (f : nat * list Z) : list Z := drop headroom f.2.
Definition samples_of (frames : list (nat * list Z)) : nat := sum_list (fst <$> frames).
Record frame_ok (f : nat * list Z) : Prop := {
  frame_samples : (0 < f.1)%nat;
  frame_length : length f.2 = (headroom + f.1 * B)%nat;
  frame_header : format_ = DATA_FORMAT_FRAMED → take 8 f.2 = bytes_of "BIN " ++ le32 (Z.of_nat (length f.2));
}.

End stream.

(** ** Senders *)

(** What a sender of outputs promises: from [c] to [c'] it has taken the outputs [l], in
    frames of any kind; a live one takes every output, and its reader is never overrun. *)
Class SenderSpec `{SampleConversion} `{Sender} (format_ : data_format) := {
  delivers : sender → sender → list (nat * list Z) → Prop;
  live_sender : sender → Prop;
  delivers_refl c : delivers c c [];
  delivers_trans c1 c2 c3 l1 l2 : delivers c1 c2 l1 → delivers c2 c3 l2 → delivers c1 c3 (l1 ++ l2);
  check_delivers c b c' : check_block c = (b, c') → delivers c c' [] ∧ (live_sender c → b = true ∧ live_sender c');
  write_delivers c n f : format_ = DATA_FORMAT_FRAMED ∨ frame_ok format_ (n, f) →
    ∃ b c', write_out c n f = Ret (b, c') ∧ delivers c c' [(n, f)] ∧ (live_sender c → b = true ∧ live_sender c');
  flush_delivers c b c' : flush_out c = (b, c') → delivers c c' [] ∧ (live_sender c → b = true ∧ live_sender c');
}.

Section sent.
Context `{Platform} `{SampleConversion} {Sd : Sender} (format_ : data_format) (process : data_process) `{!SenderSpec format_}.
Abbreviation R := raw_sample_length.
Abbreviation B := binary_sample_length.
Abbreviation headroom := (header_length format_).
Implicit Types (st : capture_state) (c : sender) (s buffer : list Z) (n m : nat).

Lemma net_buf_frame (k : nat) : (k ≤ NET_BUF_SIZE)%nat → Z.of_nat k < 2 ^ 32.
Proof. unfold NET_BUF_SIZE. lia. Qed.

Lemma send_output_ok st n c out :
  dc_output st = replicate headroom 0 ++ out → length out = (n * B)%nat → (0 < n)%nat →
  (headroom + length out ≤ NET_BUF_SIZE)%nat →
  ∃ f2, send_output_buffer format_ st n c = write_out c n f2 ∧ frame_ok format_ (n, f2) ∧ payload format_ (n, f2) = out.
Proof.
  intros Eo El Hn Hfit. unfold send_output_buffer. rewrite Eo. clear Eo.
  assert (∀ f2, length f2 = (headroom + length out)%nat → drop headroom f2 = out →
    (format_ = DATA_FORMAT_FRAMED → take 8 f2 = bytes_of "BIN " ++ le32 (Z.of_nat (length f2))) →
    frame_ok format_ (n, f2) ∧ payload format_ (n, f2) = out) as Hok.
  { intros f2 Hl Hd Hh. split; [|done]. split; simpl; [done|lia|done]. }
  destruct format_ eqn:Ef; cbn [header_length replicate app] in *;
    try (exists out; split; [done|apply Hok; [done|by rewrite drop_0|done]]).
  unfold set_frame_header, assert_ok. rewrite bool_decide_true.
  2:{ apply net_buf_frame in Hfit. cbn [length]. lia. }
  cbn [mbind outcome_bind]. eexists. split; [reflexivity|]. apply Hok; [done|done|]. intros _.
  simpl. do 4 f_equal. unfold le32. by rewrite (wrap_small 32) by (apply net_buf_frame in Hfit; cbn [length] in *; lia).
Qed.

(** ** The loop over a block *)

Lemma process_samples_ok st n out0 buffer out :
  dc_output st = replicate headroom 0 ++ out0 → length out0 = (n * B)%nat → (n ≤ 1)%nat →
  convert_samples (length buffer `div` R) buffer = Ret out →
  ∃ k o1 o2, process_samples st buffer =
    Ret (k, mk_state (dc_sample st) (replicate headroom 0 ++ out0 ++ o1), drop (k * R) buffer) ∧
  length o1 = (k * B)%nat ∧ (headroom + length (out0 ++ o1) ≤ NET_BUF_SIZE)%nat ∧ (k ≤ length buffer `div` R)%nat ∧
  convert_samples (length buffer `div` R - k) (drop (k * R) buffer) = Ret o2 ∧ out = o1 ++ o2 ∧
  (n = 0%nat → (R ≤ length buffer)%nat → (0 < k)%nat).
Proof.
  intros Eo El Hn Ec. pose proof raw_pos as HR. pose proof binary_pos as HB. pose proof (headroom_le format_) as Hh.
  destruct binary_length_ok as [_ Hfit]. unfold process_samples. rewrite Eo, length_app, length_replicate, El.
  set (free := (NET_BUF_SIZE - (headroom + n * B))%nat). set (k := Nat.min (length buffer `div` R) (free `div` B)).
  assert (k ≤ length buffer `div` R)%nat as Hk by lia.
  assert (k * B ≤ free)%nat as Hkf.
  { transitivity (free `div` B * B)%nat; [apply Nat.mul_le_mono_r; lia|by apply div_mul_le]. }
  replace (length buffer `div` R)%nat with (k + (length buffer `div` R - k))%nat in Ec by lia.
  apply convert_samples_prefix in Ec as (o1 & o2 & E1 & E2 & ->).
  pose proof (convert_samples_length _ _ _ E1) as Ho1. rewrite E1. cbn [mbind outcome_bind].
  exists k, o1, o2. rewrite <-(assoc_L (++)). split_and!; try done.
  - rewrite length_app, El, Ho1. subst free. destruct n as [|[|]]; [lia..|lia].
  - intros -> HRb. pose proof (div_pos_le _ _ HR HRb) as Hdiv.
    assert (B ≤ free)%nat as Hf by (subst free; lia). pose proof (div_pos_le _ _ HB Hf). lia.
Qed.

(** What was sent: outputs that were accepted, and one that was not when the
    connection is closed. *)
Definition delivered c c' (result : block_result) (frames : list (nat * list Z)) : Prop :=
  Forall (frame_ok format_) frames ∧ ∃ extra, delivers c c' (frames ++ extra) ∧ (extra = [] ∨ result = BLOCK_CLOSED ∧ length extra = 1%nat).
Definition carried (frames : list (nat * list Z)) : list Z := concat (payload format_ <$> frames).

Lemma delivered_nil c c' result : delivers c c' [] → delivered c c' result [].
Proof. split; [constructor|]. exists []. auto. Qed.
Lemma delivered_cons c c1 c' f frames result :
  delivers c c1 [f] → frame_ok format_ f → delivered c1 c' result frames → delivered c c' result (f :: frames).
Proof.
  intros E Hf [Hfs (extra & E' & He)]. split; [by constructor|]. exists extra. split; [|done]. by eapply (delivers_trans _ _ _ [f]).
Qed.

(** One output: how it ends. *)
Inductive output_step (st : capture_state) n out c (sent : Z) : block_result → capture_state → sender → Z → Prop :=
  | output_done f c' : frame_ok format_ f → payload format_ f = out → f.1 = n → delivers c c' [f] →
      (live_sender c → live_sender c') →
      output_step st n out c sent BLOCK_DONE (prepare_output_buffer format_ st) c' (u64 (sent + Z.of_nat n))
  | output_overrun c' : delivers c c' [] → ¬ live_sender c → output_step st n out c sent BLOCK_OVERRUN st c' sent
  | output_closed f c' : delivers c c' [f] → ¬ live_sender c → output_step st n out c sent BLOCK_CLOSED st c' sent.

Lemma send_step_ok st n out c sent :
  dc_output st = replicate headroom 0 ++ out → length out = (n * B)%nat → (0 < n)%nat →
  (headroom + length out ≤ NET_BUF_SIZE)%nat →
  ∃ result st' c' sent',
  (let '(data_ok, c) := check_block c in
   if negb data_ok then Ret (BLOCK_OVERRUN, st, c, sent)
   else
     '(ok, c) ← send_output_buffer format_ st n c;
     if negb ok then Ret (BLOCK_CLOSED, st, c, sent)
     else Ret (BLOCK_DONE, prepare_output_buffer format_ st, c, u64 (sent + Z.of_nat n))) = Ret (result, st', c', sent') ∧
  output_step st n out c sent result st' c' sent'.
Proof.
  intros Eo El Hn Hfit. destruct (check_block c) as [b c1] eqn:Ec. apply check_delivers in Ec as [Hd1 Hl1].
  destruct b; cbn [negb]; [|do 4 eexists; split; [done|]; apply output_overrun; [done|by intros [? _]%Hl1]].
  destruct (send_output_ok st n c1 out Eo El Hn Hfit) as (f2 & -> & Hf & Hp).
  destruct (write_delivers c1 n f2 (or_intror Hf)) as (b & c2 & -> & Hd2 & Hl2). cbn [mbind outcome_bind].
  pose proof (delivers_trans _ _ _ _ _ Hd1 Hd2) as Hd.
  destruct b; cbn [negb]; do 4 eexists; (split; [done|]).
  - apply (output_done st n out c sent (n, f2)); [done..|]. intros [_ [_ ?]%Hl2]%Hl1. done.
  - apply (output_closed st n out c sent (n, f2)); [done|]. by intros [_ [? _]%Hl2]%Hl1.
Qed.

(** How a run over some samples ends: [out] is their conversion, and [total] their
    number. *)
Definition all_sent (out : list Z) (total : nat) c c' (result : block_result) (frames : list (nat * list Z)) : Prop :=
  delivered c c' result frames ∧ carried frames `prefix_of` out ∧
  (live_sender c → result = BLOCK_DONE ∧ live_sender c') ∧
  (result = BLOCK_DONE → carried frames = out ∧ samples_of frames = total).

Lemma all_sent_done c c' : delivers c c' [] → (live_sender c → live_sender c') → all_sent [] 0 c c' BLOCK_DONE [].
Proof. intros E Ha. split_and!; [by apply delivered_nil|done|auto|done]. Qed.

Lemma all_sent_failed out total c c' result :
  result ≠ BLOCK_DONE → ¬ live_sender c → (delivers c c' [] ∨ result = BLOCK_CLOSED ∧ ∃ f, delivers c c' [f]) →
  all_sent out total c c' result [].
Proof.
  intros Hr Ha [E|[-> [f E]]].
  - split_and!; [by apply delivered_nil|apply prefix_nil|done..].
  - split_and!; [|apply prefix_nil|done..]. split; [constructor|]. exists [f]. auto.
Qed.

Lemma all_sent_cons out out1 total c c1 c' result f frames :
  delivers c c1 [f] → frame_ok format_ f → payload format_ f = out1 → (live_sender c → live_sender c1) →
  all_sent out total c1 c' result frames → all_sent (out1 ++ out) (f.1 + total) c c' result (f :: frames).
Proof.
  intros E Hf Hp Ha (Hd & Hpre & Htrue & Hdone). unfold all_sent, carried, samples_of. simpl. rewrite Hp. split_and!.
  - by eapply delivered_cons.
  - by apply prefix_app.
  - auto.
  - intros Er. destruct (Hdone Er) as [Ec Es]. split; [exact (f_equal (app out1) Ec)|exact (f_equal (Nat.add f.1) Es)].
Qed.

(** One turn of the loop, up to the test for another. *)
Lemma block_turn_ok st n out0 buffer c total out :
  dc_output st = replicate headroom 0 ++ out0 → length out0 = (n * B)%nat → (n ≤ 1)%nat →
  convert_samples (length buffer `div` R) buffer = Ret out →
  ∃ k o1 o2, process_samples st buffer =
    Ret (k, mk_state (dc_sample st) (replicate headroom 0 ++ out0 ++ o1), drop (k * R) buffer) ∧
  (length (drop (k * R) buffer) `div` R = length buffer `div` R - k)%nat ∧ (k ≤ length buffer `div` R)%nat ∧
  convert_samples (length (drop (k * R) buffer) `div` R) (drop (k * R) buffer) = Ret o2 ∧ out = o1 ++ o2 ∧
  (n = 0%nat → (R ≤ length buffer)%nat → (0 < k)%nat) ∧
  let st1 := mk_state (dc_sample st) (replicate headroom 0 ++ out0 ++ o1) in
  if bool_decide (0 < n + k)%nat then
    ∃ result st' c' sent',
    (let '(data_ok, c) := check_block c in
     if negb data_ok then Ret (BLOCK_OVERRUN, st1, c, total)
     else
       '(ok, c) ← send_output_buffer format_ st1 (n + k) c;
       if negb ok then Ret (BLOCK_CLOSED, st1, c, total)
       else Ret (BLOCK_DONE, prepare_output_buffer format_ st1, c, u64 (total + Z.of_nat (n + k)))) = Ret (result, st', c', sent') ∧
    output_step st1 (n + k) (out0 ++ o1) c total result st' c' sent'
  else out0 = [] ∧ o1 = [] ∧ n = 0%nat ∧ k = 0%nat.
Proof.
  intros Eo El Hn Ec. pose proof raw_pos as HR.
  destruct (process_samples_ok st n out0 buffer out Eo El Hn Ec) as (k & o1 & o2 & -> & Hl1 & Hfit & Hk & E2 & -> & Hprog).
  assert (length (drop (k * R) buffer) `div` R = length buffer `div` R - k)%nat as Hrest.
  { rewrite length_drop. apply div_sub_mul; [done|]. transitivity (length buffer `div` R * R)%nat;
      [by apply Nat.mul_le_mono_r|by apply div_mul_le]. }
  exists k, o1, o2. rewrite Hrest. split_and!; try done. cbv zeta. case_bool_decide as Hpos.
  - apply send_step_ok; [done| |done|done]. rewrite length_app. lia.
  - assert (n = 0%nat ∧ k = 0%nat) as [-> ->] by lia. by apply nil_length_inv in El as ->; apply nil_length_inv in Hl1 as ->.
Qed.

Lemma all_sent_one out c c' f :
  delivers c c' [f] → frame_ok format_ f → payload format_ f = out → (live_sender c → live_sender c') →
  all_sent out f.1 c c' BLOCK_DONE [f].
Proof.
  intros E Hf Hp Ha. rewrite <-(app_nil_r out), <-(Nat.add_0_r f.1).
  eapply all_sent_cons; [done..|]. apply all_sent_done; [apply delivers_refl|done].
Qed.

Lemma samples_of_cons f frames : samples_of (f :: frames) = (f.1 + samples_of frames)%nat.
Proof. done. Qed.

Lemma u64_samples_cons total f frames :
  u64 (u64 (total + Z.of_nat f.1) + Z.of_nat (samples_of frames)) = u64 (total + Z.of_nat (samples_of (f :: frames))).
Proof. rewrite wrap_add_l. f_equal. rewrite samples_of_cons. lia. Qed.

Lemma u64_samples_nil total : u64 (total + Z.of_nat (samples_of [])) = u64 total.
Proof. f_equal. unfold samples_of. simpl. lia. Qed.

Lemma block_loop_ok fuel st n out0 buffer c total out :
  dc_output st = replicate headroom 0 ++ out0 → length out0 = (n * B)%nat → (n ≤ 1)%nat →
  convert_samples (length buffer `div` R) buffer = Ret out → (length buffer `div` R + n ≤ S fuel)%nat →
  ∃ result st' rest c' frames,
  block_loop format_ fuel st n buffer c (u64 total) = Ret (result, st', rest, c', u64 (total + Z.of_nat (samples_of frames))) ∧
  all_sent (out0 ++ out) (n + length buffer `div` R) c c' result frames ∧
  (result = BLOCK_DONE → rest = drop (length buffer `div` R * R) buffer ∧ dc_sample st' = dc_sample st).
Proof.
  pose proof raw_pos as HR. revert st n out0 buffer c total out.
  induction fuel as [|fuel IH]; intros st n out0 buffer c total out Eo El Hn Ec Hfuel; cbn [block_loop];
    destruct (block_turn_ok st n out0 buffer c (u64 total) out Eo El Hn Ec) as (k & o1 & o2 & -> & Hrest & Hk & E2 & -> & Hprog & Hturn);
    cbn [mbind outcome_bind]; set (rest := drop (k * R) buffer) in *; cbv zeta in Hturn.
  all: case_bool_decide as Hpos; [destruct Hturn as (result & st1 & c1 & sent1 & -> & Hstep); cbn [mbind outcome_bind];
    destruct Hstep as [f c1 Hf Hp Hfn Es Ha|c1 Es Ha|f c1 Es Ha]|destruct Hturn as (-> & -> & -> & ->); cbn [mbind outcome_bind]].
  (* the ends of the loop *)
  all: lazymatch goal with
    | Ha : ¬ live_sender _ |- _ => eexists _, _, _, _, []; split_and!; [by rewrite u64_samples_nil| |done];
        eapply all_sent_failed; [done|done|eauto]
    | |- _ => destruct (decide (R ≤ length rest)%nat) as [Hmore|Hless];
        [rewrite bool_decide_true by done|rewrite bool_decide_false by done; rewrite (Nat.div_small (length rest)) in Hrest, E2 by lia;
         injection E2 as <-; rewrite ?app_nil_r; try (assert (k = length buffer `div` R)%nat as -> by lia)]
    end.
  all: try (pose proof (div_pos_le _ _ HR Hmore)).
  all: try (subst rest; rewrite drop_0 in Hmore; by specialize (Hprog eq_refl Hmore)).
  all: try (by (eexists _, _, _, _, []; rewrite u64_samples_nil; assert (length buffer `div` R = 0)%nat as -> by lia;
    split_and!; [done|apply all_sent_done; [apply delivers_refl|done]|done])).
  all: try (by (eexists _, _, _, _, [f]; rewrite wrap_add_l, <-Hfn, samples_of_cons, Nat.add_0_r;
    split_and!; [done|by apply all_sent_one|done])).
  - lia.
  - (* another turn *)
    destruct (IH (prepare_output_buffer format_ (mk_state (dc_sample st) (replicate headroom 0 ++ out0 ++ o1)))
      0%nat [] rest c1 (total + Z.of_nat f.1) o2) as (result & st' & rest' & c' & frames & E & Hall & Hend);
      [by rewrite app_nil_r|done|lia|done|lia|].
    rewrite wrap_add_l, <-Hfn, E. exists result, st', rest', c', (f :: frames).
    rewrite <-(u64_samples_cons total), wrap_add_l. split_and!; [done| |].
    + replace (n + length buffer `div` R)%nat with (f.1 + (0 + length rest `div` R))%nat by lia.
      rewrite (assoc_L (++)). by eapply all_sent_cons.
    + intros [-> ->]%Hend. split; [|done]. subst rest. rewrite drop_drop, <-Nat.mul_add_distr_r. do 2 f_equal. lia.
Qed.

(** ** A block, and the sample that straddles two blocks *)

Lemma process_single_ok st buffer out :
  let stream := dc_sample st ++ buffer in
  (length (dc_sample st) < R)%nat → dc_output st = replicate headroom 0 →
  convert_samples (length stream `div` R) stream = Ret out →
  ∃ n st1 rest out0 out1,
  process_single_sample st buffer = Ret (n, st1, rest) ∧
  dc_output st1 = replicate headroom 0 ++ out0 ∧ length out0 = (n * B)%nat ∧ (n ≤ 1)%nat ∧
  convert_samples (length rest `div` R) rest = Ret out1 ∧ out = out0 ++ out1 ∧ (length rest ≤ length buffer)%nat ∧
  (length stream `div` R = n + length rest `div` R)%nat ∧
  dc_sample st1 ++ drop (length rest `div` R * R) rest = drop (length stream `div` R * R) stream.
Proof.
  intros stream Hr Eo Ec. pose proof raw_pos as HR. pose proof binary_pos as HB. unfold process_single_sample.
  destruct (decide (dc_sample st = [])) as [E0|E0].
  { rewrite bool_decide_true by done. subst stream. rewrite E0 in Ec |- *. exists 0%nat, st, buffer, [], out. rewrite E0, app_nil_r. split_and!; done || lia. }
  rewrite bool_decide_false by done. set (part := Nat.min (length buffer) (R - length (dc_sample st))).
  assert (length (dc_sample st ++ take part buffer) = length (dc_sample st) + part)%nat as El.
  { rewrite length_app, length_take. lia. }
  assert (length stream = length (dc_sample st) + length buffer)%nat as Est by apply length_app.
  case_bool_decide as Hfull.
  - assert (part = R - length (dc_sample st))%nat as Epart by lia. set (sample := dc_sample st ++ take part buffer) in *.
    assert (stream = sample ++ drop part buffer) as Es by (subst stream sample; by rewrite <-(assoc_L (++)), take_drop).
    assert (length sample = R) as ElR by lia.
    assert (length stream `div` R = 1 + length (drop part buffer) `div` R)%nat as Ediv.
    { rewrite Es, length_app, ElR. rewrite <-(Nat.mul_1_l R) at 1. rewrite Nat.div_add_l by lia. done. }
    rewrite Ediv in Ec |- *. apply convert_samples_prefix in Ec as (out0 & out1 & E1 & E2 & ->).
    rewrite Es, convert_samples_app in E1 by lia. rewrite Es, drop_app_length' in E2 by lia.
    pose proof (convert_samples_length _ _ _ E1) as Ho. destruct binary_length_ok as [_ Hfit]. pose proof (headroom_le format_).
    unfold process_samples. cbn [dc_output dc_sample]. rewrite Eo, ElR, Nat.div_same, length_replicate by lia.
    assert (0 < (NET_BUF_SIZE - headroom) `div` B)%nat by (apply div_pos_le; lia).
    rewrite Nat.min_l, E1 by lia. cbn [mbind outcome_bind dc_output]. rewrite Nat.mul_1_l, (drop_ge sample) by lia.
    exists 1%nat, (mk_state [] (replicate headroom 0 ++ out0)), (drop part buffer), out0, out1.
    rewrite Es, Nat.mul_add_distr_r, Nat.mul_1_l, drop_app_add' by lia. split_and!; try done; rewrite ?length_drop; try lia.
  - assert (part = length buffer) as Epart by lia. rewrite Epart, take_ge, drop_ge by lia.
    rewrite (Nat.div_small (length stream)) in Ec |- * by lia. injection Ec as <-.
    exists 0%nat, (mk_state stream (dc_output st)), [], [], []. rewrite Eo, app_nil_r, drop_nil, app_nil_r. cbn [length].
    rewrite Nat.Div0.div_0_l. split_and!; rewrite ?app_nil_r; simpl; first [done|lia].
Qed.

Lemma process_block_ok st buffer c total out :
  let stream := dc_sample st ++ buffer in
  (length (dc_sample st) < R)%nat → convert_samples (length stream `div` R) stream = Ret out →
  ∃ result st' c' frames,
  process_capture_block format_ st buffer c (u64 total) = Ret (result, st', c', u64 (total + Z.of_nat (samples_of frames))) ∧
  all_sent out (length stream `div` R) c c' result frames ∧
  (result = BLOCK_DONE → dc_sample st' = drop (length stream `div` R * R) stream).
Proof.
  intros stream Hr Ec. pose proof raw_pos as HR. unfold process_capture_block.
  destruct (process_single_ok (prepare_output_buffer format_ st) buffer out Hr eq_refl Ec)
    as (n & st1 & rest & out0 & out1 & -> & Eo & El & Hn & E1 & -> & Hle & Ediv & Edrop). cbn [mbind outcome_bind].
  destruct (block_loop_ok (length rest) st1 n out0 rest c total out1 Eo El Hn E1)
    as (result & st2 & rest2 & c' & frames & -> & Hall & Hdone).
  { assert (length rest `div` R ≤ length rest)%nat by (apply Nat.Div0.div_le_upper_bound; nia). lia. }
  cbn [mbind outcome_bind]. change (dc_sample (prepare_output_buffer format_ st)) with (dc_sample st) in *.
  fold stream in Ediv, Edrop. rewrite Ediv. destruct result; [|by eexists _, _, _, _..].
  destruct (Hdone eq_refl) as [-> Es]. unfold update_single_sample_buffer. rewrite Es, Edrop.
  unfold in_range. rewrite bool_decide_true.
  - cbn [mbind outcome_bind]. eexists _, _, _, _. split_and!; [done|done|]. intros _. cbn [dc_sample]. by rewrite Ediv.
  - destruct raw_length_ok as [_ Hmax]. rewrite length_drop. pose proof (div_rest_lt (length stream) R HR). lia.
Qed.

(** ** The whole stream *)

Lemma all_sent_app out1 out2 t1 t2 c c1 c' result frames1 frames2 :
  all_sent out1 t1 c c1 BLOCK_DONE frames1 → all_sent out2 t2 c1 c' result frames2 →
  all_sent (out1 ++ out2) (t1 + t2) c c' result (frames1 ++ frames2).
Proof.
  intros ([Hf1 (extra1 & E1 & [->|[? _]]) ] & _ & Ht1 & Hd1) ([Hf2 (extra2 & E2 & He2)] & Hp2 & Ht2 & Hd2); [|done].
  destruct (Hd1 eq_refl) as [<- <-]. assert (carried (frames1 ++ frames2) = carried frames1 ++ carried frames2) as Ec
    by (unfold carried; by rewrite fmap_app, concat_app).
  rewrite app_nil_r in E1. unfold all_sent. rewrite Ec. split_and!.
  - split; [by apply Forall_app|]. exists extra2. split; [|done]. rewrite <-(assoc_L (++)). by eapply delivers_trans.
  - by apply prefix_app.
  - intros Ha. by apply Ht2, Ht1.
  - intros Er. destruct (Hd2 Er) as [-> <-]. split; [done|]. unfold samples_of. by rewrite fmap_app, sum_list_with_app.
Qed.

(** After a block the output is flushed. *)
Lemma all_sent_flush out total c c1 c' result b frames :
  all_sent out total c c1 result frames → flush_out c1 = (b, c') →
  all_sent out total c c' (if b then result else BLOCK_CLOSED) frames.
Proof.
  intros ([Hf (extra & Hd & He)] & Hp & Ht & Hdone) [Hfl Hl]%flush_delivers.
  assert (delivers c c' (frames ++ extra)) as Hd' by (rewrite <-(app_nil_r (frames ++ extra)); by eapply delivers_trans).
  unfold all_sent. destruct b.
  - split_and!; [by split; [|exists extra]|done| |done]. intros [-> [_ ?]%Hl]%Ht. done.
  - split_and!; [split; [done|exists extra; naive_solver]|done| |done]. by intros [_ [? _]%Hl]%Ht.
Qed.

Lemma all_sent_stop out1 out2 t1 t2 c c' result frames :
  result ≠ BLOCK_DONE → all_sent out1 t1 c c' result frames → all_sent (out1 ++ out2) t2 c c' result frames.
Proof.
  intros Hr (Hd & Hp & Ht & _). split_and!; [done|by apply prefix_app_r|intros Ha; by destruct (Ht Ha)|done].
Qed.

(** A stream in two parts: the second begins with what the first left over. *)
Lemma convert_split s t out :
  convert_samples (length (s ++ t) `div` R) (s ++ t) = Ret out →
  let k := (length s `div` R)%nat in let left := drop (k * R) s ++ t in
  ∃ out1 out2, convert_samples k s = Ret out1 ∧ convert_samples (length left `div` R) left = Ret out2 ∧
  out = out1 ++ out2 ∧ (length (s ++ t) `div` R = k + length left `div` R)%nat ∧
  drop (length (s ++ t) `div` R * R) (s ++ t) = drop (length left `div` R * R) left.
Proof.
  intros Ec k left. pose proof raw_pos as HR. pose proof (div_mul_le (length s) R HR) as Hk. fold k in Hk.
  assert (left = drop (k * R) (s ++ t)) as El by (subst left; by rewrite drop_app_le by lia).
  assert (length (s ++ t) `div` R = k + length left `div` R)%nat as Ediv.
  { rewrite El, length_drop, div_sub_mul by (rewrite ?length_app; lia).
    assert (k ≤ length (s ++ t) `div` R)%nat; [|lia]. apply Nat.Div0.div_le_mono. rewrite length_app. lia. }
  rewrite Ediv in Ec |- *. apply convert_samples_prefix in Ec as (out1 & out2 & E1 & E2 & ->).
  rewrite convert_samples_app in E1 by done. exists out1, out2. rewrite <-El in E2. split_and!; try done.
  by rewrite El, drop_drop, Nat.mul_add_distr_r.
Qed.

(** A block of the stream, which may be empty. *)
Lemma sent_block st buffer c total out :
  let stream := dc_sample st ++ buffer in
  (length (dc_sample st) < R)%nat → convert_samples (length stream `div` R) stream = Ret out →
  ∃ result st' c' frames,
  (if bool_decide (0 < length buffer)%nat then process_capture_block format_ st buffer c (u64 total)
   else Ret (BLOCK_DONE, st, c, u64 total)) = Ret (result, st', c', u64 (total + Z.of_nat (samples_of frames))) ∧
  all_sent out (length stream `div` R) c c' result frames ∧
  (result = BLOCK_DONE → dc_sample st' = drop (length stream `div` R * R) stream).
Proof.
  intros stream Hr Ec. case_bool_decide as Hb; [by apply process_block_ok|].
  assert (buffer = []) as -> by (apply nil_length_inv; lia). subst stream. rewrite app_nil_r in *.
  rewrite Nat.div_small in Ec |- * by done. injection Ec as <-. exists BLOCK_DONE, st, c, []. rewrite u64_samples_nil.
  split_and!; [done|apply all_sent_done; [apply delivers_refl|done]|done].
Qed.

Lemma stream_sent blocks st skip c total out :
  passthrough format_ process = false →
  let stream := dc_sample st ++ drop skip (concat blocks) in
  (length (dc_sample st) < R)%nat → convert_samples (length stream `div` R) stream = Ret out →
  ∃ result st' c' frames,
  send_data_stream format_ process st skip blocks c (u64 total) = Ret (st', c', u64 (total + Z.of_nat (samples_of frames))) ∧
  all_sent out (length stream `div` R) c c' result frames ∧
  (result = BLOCK_DONE → dc_sample st' = drop (length stream `div` R * R) stream).
Proof.
  intros Hpass. pose proof raw_pos as HR. revert st skip c total out.
  induction blocks as [|b blocks IH]; intros st skip c total out stream Hr Ec; cbn [send_data_stream].
  { subst stream. cbn [concat] in *. rewrite drop_nil, app_nil_r in *. rewrite Nat.div_small in Ec |- * by done. injection Ec as <-.
    exists BLOCK_DONE, st, c, []. rewrite u64_samples_nil. split_and!; [done|apply all_sent_done; [apply delivers_refl|done]|done]. }
  unfold skip_block. set (b' := drop (Nat.min skip (length b)) b). set (skip' := (skip - Nat.min skip (length b))%nat).
  assert (stream = (dc_sample st ++ b') ++ drop skip' (concat blocks)) as Es.
  { subst stream b' skip'. cbn [concat]. rewrite drop_app, <-(assoc_L (++)). do 2 f_equal; [|f_equal; lia].
    destruct (decide (skip ≤ length b)%nat); [by rewrite Nat.min_l by lia|by rewrite Nat.min_r, !drop_ge by lia]. }
  rewrite Hpass. rewrite Es in Ec |- *. clear stream Es.
  apply convert_split in Ec as (out1 & out2 & E1 & E2 & -> & -> & ->).
  set (k1 := (length (dc_sample st ++ b') `div` R)%nat) in *. set (left := drop (k1 * R) _ ++ _) in *.
  destruct (sent_block st b' c total out1 Hr E1) as (result & st1 & c1 & frames1 & -> & Hall & Hdone). cbn [mbind outcome_bind].
  destruct (flush_out c1) as [ok c2] eqn:Efl. pose proof (all_sent_flush _ _ _ _ _ _ _ _ Hall Efl) as Hall2.
  destruct (decide (result = BLOCK_DONE ∧ ok = true)) as [[-> ->]|Hne].
  - cbn [bool_decide andb]. rewrite bool_decide_true by done. cbn [andb]. specialize (Hdone eq_refl). fold k1 in Hdone. subst left. rewrite <-Hdone in E2 |- *.
    destruct (IH st1 skip' c2 (total + Z.of_nat (samples_of frames1)) out2) as (result & st2 & c3 & frames2 & -> & Hall3 & Hdone2);
      [rewrite Hdone, length_drop; by apply div_rest_lt|done|].
    exists result, st2, c3, (frames1 ++ frames2). split_and!; [|by eapply all_sent_app|done].
    do 3 f_equal. unfold samples_of. rewrite fmap_app, sum_list_with_app. lia.
  - assert (∀ r c3, r ≠ BLOCK_DONE → all_sent out1 k1 c c3 r frames1 →
      ∃ result st' c' frames, Ret (st1, c3, u64 (total + Z.of_nat (samples_of frames1))) = Ret (st', c', u64 (total + Z.of_nat (samples_of frames))) ∧
      all_sent (out1 ++ out2) (k1 + length left `div` R) c c' result frames ∧
      (result = BLOCK_DONE → dc_sample st' = drop (length left `div` R * R) left))
      as Hend by (intros r c3 Hr3 Hs; exists r, st1, c3, frames1; split_and!; [done|by eapply all_sent_stop|done]).
    destruct result; [destruct ok; [by destruct Hne|]|destruct ok|]; cbn [bool_decide andb]; rewrite ?andb_false_r.
    + by apply (Hend BLOCK_CLOSED c2).
    + by apply (Hend BLOCK_OVERRUN c2).
    + by apply (Hend BLOCK_CLOSED c2).
    + by apply (Hend BLOCK_CLOSED c1).
Qed.

(** ** Raw data in frames goes straight from the buffer *)

Lemma ulong_small_nat x : 0 ≤ x < 2 ^ 32 → ulong x = x.
Proof. intros. apply wrap_small. destruct long_bits_ok as [-> | ->]; lia. Qed.

(** A frame. *)
Definition frame_of (data : list Z) : list Z := bytes_of "BIN " ++ le32 (Z.of_nat (8 + length data)) ++ data.

Lemma live_write c n f : format_ = DATA_FORMAT_FRAMED → live_sender c →
  ∃ c', write_out c n f = Ret (true, c') ∧ delivers c c' [(n, f)] ∧ live_sender c'.
Proof.
  intros Ef Hl. destruct (write_delivers c n f (or_introl Ef)) as (b & c' & E & Hd & Hl'). destruct (Hl' Hl) as [-> ?]. eauto.
Qed.
Lemma live_check c : live_sender c → ∃ c', check_block c = (true, c') ∧ delivers c c' [] ∧ live_sender c'.
Proof.
  intros Hl. destruct (check_block c) as [b c'] eqn:E. apply check_delivers in E as [Hd Hl']. destruct (Hl' Hl) as [-> ?]. eauto.
Qed.
Lemma live_flush c : live_sender c → ∃ c', flush_out c = (true, c') ∧ delivers c c' [] ∧ live_sender c'.
Proof.
  intros Hl. destruct (flush_out c) as [b c'] eqn:E. apply flush_delivers in E as [Hd Hl']. destruct (Hl' Hl) as [-> ?]. eauto.
Qed.

Lemma passthrough_block_sent st buffer c sent :
  let stream := dc_output st ++ buffer in let k := (length stream `div` R)%nat in
  format_ = DATA_FORMAT_FRAMED → live_sender c → (length (dc_output st) < R)%nat → (R ≤ length stream)%nat →
  Z.of_nat (length stream) + 8 < 2 ^ 32 →
  ∃ c' header data,
  passthrough_capture_block st buffer c sent =
    Ret (BLOCK_DONE, mk_state (dc_sample st) (drop (k * R) stream), c', u64 (sent + Z.of_nat k)) ∧
  delivers c c' [(0%nat, header); (k, data)] ∧ live_sender c' ∧
  header ++ data = frame_of (take (k * R) stream) ∧ (length (drop (k * R) stream) < R)%nat.
Proof.
  intros stream k Ef Hlive Hr Hle Hmax. pose proof raw_pos as HR. destruct raw_length_ok as [_ HRmax].
  assert (length stream = length (dc_output st) + length buffer)%nat as El by apply length_app.
  assert (k * R ≤ length stream)%nat as HkR by by apply div_mul_le.
  assert (1 ≤ k)%nat as Hk by by apply div_pos_le.
  assert (length (dc_output st) ≤ k * R)%nat as Hout by nia.
  pose proof (div_rest_lt (length stream) R HR) as Hrest. fold k in Hrest.
  unfold passthrough_capture_block. rewrite <-El. fold k.
  rewrite (ulong_small_nat (Z.of_nat (k * R) - _)) by lia. set (n := Z.of_nat (k * R) - Z.of_nat (length (dc_output st))).
  assert (Z.to_nat n = k * R - length (dc_output st))%nat as En by lia.
  assert (drop (Z.to_nat n) buffer = drop (k * R) stream) as Ed by (subst stream; rewrite drop_app_ge, En by lia; done).
  rewrite (ulong_small_nat (_ + n)) by lia. unfold set_frame_header, assert_ok. rewrite (bool_decide_true (_ ≤ 2 ^ 32 - 1)) by lia.
  cbn [mbind outcome_bind].
  match goal with |- context [write_out c 0 ?h] => destruct (live_write c 0 h Ef Hlive) as (c1 & -> & Hd1 & Hl1); set (header := h) in * end.
  cbn [mbind outcome_bind negb]. unfold in_range. rewrite (bool_decide_true (n ≤ _)) by lia. cbn [mbind outcome_bind].
  destruct (live_write c1 k (take (Z.to_nat n) buffer) Ef Hl1) as (c2 & -> & Hd2 & Hl2). cbn [mbind outcome_bind negb].
  rewrite Ed, bool_decide_true by (rewrite length_drop; unfold MAX_RAW_SAMPLE_LENGTH, NET_BUF_SIZE in *; lia).
  cbn [mbind outcome_bind]. destruct (live_check c2 Hl2) as (c3 & -> & Hd3 & Hl3).
  eexists c3, header, (take (Z.to_nat n) buffer). split_and!; [reflexivity| |done| |rewrite length_drop; lia].
  - pose proof (delivers_trans _ _ _ _ _ Hd1 (delivers_trans _ _ _ _ _ Hd2 Hd3)) as Hd. exact Hd.
  - subst header. rewrite drop_app_length' by done. unfold frame_of. rewrite <-!(assoc_L (++)), length_take_le by done. do 2 f_equal.
    { rewrite wrap_small by lia. f_equal. lia. }
    subst stream. rewrite take_app_ge, En by lia. done.
Qed.

(** The blocks without what is skipped. *)
Fixpoint after_skip (skip : nat) (blocks : list (list Z)) : list (list Z) :=
  match blocks with
  | [] => []
  | b :: blocks => (skip_block skip b).2 :: after_skip (skip_block skip b).1 blocks
  end.
Lemma concat_after_skip skip blocks : concat (after_skip skip blocks) = drop skip (concat blocks).
Proof.
  revert skip. induction blocks as [|b blocks IH]; intros skip; [cbn; by rewrite drop_nil|]. cbn [after_skip skip_block fst snd concat].
  rewrite IH, drop_app. f_equal; [|f_equal; lia].
  destruct (decide (skip ≤ length b)%nat); [by rewrite Nat.min_l by lia|by rewrite Nat.min_r, !drop_ge by lia].
Qed.

(** Pieces of the data: whole samples of [size] bytes. *)
Definition whole_samples (size : nat) (chunk : list Z) : Prop := ∃ k, (0 < k)%nat ∧ length chunk = (k * size)%nat.
(** A block that can be passed on: nothing, or at least a sample. *)
Definition passes (b : list Z) : Prop := b = [] ∨ (R ≤ length b)%nat ∧ Z.of_nat (length b + R) + 8 < 2 ^ 32.

Lemma drop_take_split (a b : list Z) m n : (n ≤ length a)%nat →
  take (n + m) (a ++ b) = take n a ++ take m (drop n a ++ b).
Proof.
  intros Hn. rewrite <-(take_drop n a) at 1. rewrite <-(assoc_L (++)).
  rewrite take_app_add' by (rewrite length_take; lia). done.
Qed.

Lemma passthrough_stream_sent blocks st skip c total :
  passthrough format_ process = true → live_sender c → (length (dc_output st) < R)%nat → Forall passes (after_skip skip blocks) →
  let stream := dc_output st ++ concat (after_skip skip blocks) in let k := (length stream `div` R)%nat in
  ∃ st' c' frames chunks,
  send_data_stream format_ process st skip blocks c (u64 total) = Ret (st', c', u64 (total + Z.of_nat k)) ∧
  delivers c c' frames ∧ live_sender c' ∧ concat (snd <$> frames) = concat (frame_of <$> chunks) ∧
  concat chunks = take (k * R) stream ∧ Forall (whole_samples R) chunks.
Proof.
  intros Hpass. assert (format_ = DATA_FORMAT_FRAMED) as Ef by (unfold passthrough in Hpass; by destruct format_).
  pose proof raw_pos as HR. revert st skip c total. induction blocks as [|b blocks IH]; intros st skip c total Hlive Hr Hb stream k.
  { exists st, c, [], []. subst stream k. cbn [after_skip concat] in *. rewrite app_nil_r, Nat.div_small by done.
    rewrite Z.add_0_r. split_and!; [done|apply delivers_refl|done..]. }
  cbn [after_skip] in Hb. apply list.Forall_cons in Hb as [Hb1 Hb]. subst stream k. cbn [after_skip concat send_data_stream].
  destruct (skip_block skip b) as [skip' b']. cbn [fst snd] in *. set (rest := concat (after_skip skip' blocks)) in *.
  destruct Hb1 as [->|[Hb1 Hb2]].
  - rewrite bool_decide_false by (cbn; lia). cbn [mbind outcome_bind app]. destruct (live_flush c Hlive) as (c1 & -> & Hd1 & Hl1).
    cbn [bool_decide andb]. rewrite bool_decide_true by done. cbn [andb].
    destruct (IH st skip' c1 total Hl1 Hr Hb) as (st' & c' & frames & chunks & E & Hd & Hrest). exists st', c', frames, chunks.
    split; [exact E|]. split; [|exact Hrest]. exact (delivers_trans _ _ _ _ _ Hd1 Hd).
  - rewrite bool_decide_true, Hpass by lia.
    destruct (passthrough_block_sent st b' c (u64 total) Ef Hlive Hr) as (c1 & header & data & -> & Hd1 & Hl1 & Efr & Hr1);
      [rewrite length_app; lia|rewrite length_app; lia|]. cbn [mbind outcome_bind].
    destruct (live_flush c1 Hl1) as (c2 & -> & Hd2 & Hl2). rewrite bool_decide_true by done. cbn [andb].
    set (s1 := dc_output st ++ b') in *. set (k1 := (length s1 `div` R)%nat) in *. rewrite wrap_add_l.
    destruct (IH (mk_state (dc_sample st) (drop (k1 * R) s1)) skip' c2 (total + Z.of_nat k1) Hl2 Hr1 Hb)
      as (st' & c' & frames & chunks & E & Hd & Hl' & Et & Ec & Hw).
    cbn [dc_output] in *. fold rest in E, Ec. set (k2 := (length (drop (k1 * R) s1 ++ rest) `div` R)%nat) in *.
    assert (k1 * R ≤ length s1)%nat as Hk1 by by apply div_mul_le.
    assert (length (s1 ++ rest) `div` R = k1 + k2)%nat as Ek.
    { subst k2. rewrite !length_app, length_drop. replace (length s1 + length rest)%nat with (k1 * R + (length s1 - k1 * R + length rest))%nat by lia.
      by rewrite Nat.div_add_l by lia. }
    exists st', c', ([(0%nat, header); (k1, data)] ++ frames), (take (k1 * R) s1 :: chunks).
    assert (dc_output st ++ b' ++ rest = s1 ++ rest) as -> by (subst s1; by rewrite (assoc_L (++))). rewrite Ek. split_and!.
    + rewrite E. do 3 f_equal. lia.
    + pose proof (delivers_trans _ _ _ _ _ Hd1 (delivers_trans _ _ _ _ _ Hd2 Hd)) as Hd'. exact Hd'.
    + done.
    + rewrite fmap_cons. cbn [app concat]. rewrite <-Efr, <-Et, fmap_cons, fmap_cons. cbn [snd concat]. by rewrite <-(assoc_L (++)).
    + cbn [concat]. rewrite Ec, Nat.mul_add_distr_r. by rewrite drop_take_split by done.
    + constructor; [|done]. exists k1. split; [apply div_pos_le; [done|]; subst s1; rewrite length_app; lia|rewrite length_take; lia].
Qed.
End sent.

(** ** A sender with a script *)

Section scripted.
Context `{Platform} `{SampleConversion} (format_ : data_format) (process : data_process).
Abbreviation R := raw_sample_length.
Implicit Types (st : capture_state) (c : connection) (buffer : list Z).

Definition answers_true c : Prop := Forall (λ b, b = true) (cn_checks c) ∧ Forall (λ b, b = true) (cn_writes c).
Lemma head_true (l : list bool) : Forall (λ b, b = true) l → default true (head l) = true ∧ Forall (λ b, b = true) (tail l).
Proof. by intros [|]. Qed.

#[export] Instance scripted_spec : @SenderSpec _ scripted format_.
Proof.
  refine {| delivers (c c' : @sender scripted) l := cn_sent c' = cn_sent c ++ l; live_sender := answers_true |}.
  - intros c. by rewrite app_nil_r.
  - intros c1 c2 c3 l1 l2 E1 E2. by rewrite E2, E1, (assoc_L (++)).
  - intros c b c' [= <- <-]. cbn. rewrite app_nil_r. split; [done|]. intros [Hc Hw]. apply head_true in Hc as [E Hc]. by repeat split.
  - intros c n f _. do 2 eexists. split; [reflexivity|]. split; [done|]. intros [Hc Hw]. apply head_true in Hw as [E Hw]. by repeat split.
  - intros c b c' [= <- <-]. rewrite app_nil_r. split; [done|]. auto.
Defined.

(** The stream of a capture to a client: what is sent is always the conversion of a
    first part of it, in outputs of whole samples, and the whole of it when the
    socket takes it and the buffer is not overrun. *)
Theorem data_stream_sent skip blocks c out :
  passthrough format_ process = false →
  let stream := drop skip (concat blocks) in
  convert_samples (length stream `div` R) stream = Ret out →
  ∃ st' c' frames extra,
  send_data_stream format_ process (mk_state [] []) skip blocks c 0 = Ret (st', c', u64 (Z.of_nat (samples_of frames))) ∧
  cn_sent c' = cn_sent c ++ frames ++ extra ∧ (length extra ≤ 1)%nat ∧ Forall (frame_ok format_) frames ∧ carried format_ frames `prefix_of` out ∧
  (answers_true c → extra = [] ∧ carried format_ frames = out ∧ samples_of frames = (length stream `div` R)%nat ∧
     dc_sample st' = drop (length stream `div` R * R) stream).
Proof.
  intros Hpass stream Ec. pose proof raw_pos.
  destruct (stream_sent (Sd := scripted) format_ process blocks (mk_state [] []) skip c 0 out Hpass) as (result & st' & c' & frames & E & Hall & Hdone);
    [simpl; lia|done|]. destruct Hall as ([Hf (extra & Es & He)] & Hp & Ht & Hd).
  exists st', c', frames, extra. split_and!; [exact E|done|destruct He as [->|[_ ->]]; cbn; lia|done..|]. intros [-> _]%Ht.
  destruct He as [->|[? _]]; [|done]. by destruct (Hd eq_refl) as [-> ->]; rewrite Hdone.
Qed.

End scripted.

(** ** Raw frames to it *)

Section passthrough.
Context `{Platform} `{SampleConversion}.
Abbreviation R := raw_sample_length.
Implicit Types (st : capture_state) (c : connection) (buffer : list Z).

(** With at least a sample there, the two writes are one frame: the header, then the
    bytes kept from before and those of the block, up to the last whole sample. *)
Theorem passthrough_exact st buffer c sent :
  let stream := dc_output st ++ buffer in let k := (length stream `div` R)%nat in
  answers_true c → (length (dc_output st) < R)%nat → (R ≤ length stream)%nat → Z.of_nat (length stream) + 8 < 2 ^ 32 →
  ∃ c' header data,
  passthrough_capture_block st buffer c sent =
    Ret (BLOCK_DONE, mk_state (dc_sample st) (drop (k * R) stream), c', u64 (sent + Z.of_nat k)) ∧
  cn_sent c' = cn_sent c ++ [(0%nat, header); (k, data)] ∧ answers_true c' ∧
  header ++ data = frame_of (take (k * R) stream) ∧ (length (drop (k * R) stream) < R)%nat.
Proof.
  intros stream k Ha Hr Hle Hmax.
  destruct (passthrough_block_sent (Sd := scripted) (SenderSpec0 := scripted_spec DATA_FORMAT_FRAMED) DATA_FORMAT_FRAMED st buffer c sent eq_refl Ha Hr Hle Hmax)
    as (c' & header & data & E & Hd & Hl & Ef & Hrest). by exists c', header, data.
Qed.

(** Bytes kept from before and too few new ones: [buffer_to_send] wraps around, and
    the second write reads far outside the block. *)
Theorem passthrough_short_block st buffer c sent :
  dc_output st ≠ [] → (length (dc_output st ++ buffer) < R)%nat → default true (head (cn_writes c)) = true →
  passthrough_capture_block st buffer c sent = Undef.
Proof.
  intros Hne Hl Hw. unfold passthrough_capture_block. rewrite <-length_app, Nat.div_small by done. rewrite length_app in Hl.
  destruct raw_length_ok as [_ HRmax]. unfold MAX_RAW_SAMPLE_LENGTH in HRmax.
  assert (0 < length (dc_output st))%nat as Hpos by (destruct (dc_output st); [done|simpl; lia]).
  set (n := Z.of_nat (length (dc_output st))) in *. cbn [Nat.mul]. rewrite Z.sub_0_l.
  assert (ulong (- n) = 2 ^ long_bits - n ∧ 2 ^ 32 ≤ 2 ^ long_bits) as [-> Hbig].
  { split; [|apply Z.pow_le_mono_r; destruct long_bits_ok; lia]. unfold ulong, wrap.
    symmetry. apply (Z.mod_unique _ _ (-1)); [|lia]. left. destruct long_bits_ok as [-> | ->]; lia. }
  assert (ulong (Z.of_nat (8 + length (dc_output st)) + (2 ^ long_bits - n)) = 8) as ->.
  { unfold ulong, wrap. symmetry. apply (Z.mod_unique _ _ 1); [left|]; lia. }
  cbn [mbind outcome_bind set_frame_header assert_ok]. cbn [write_out scripted mbind outcome_bind]. unfold script_write at 1. rewrite Hw. cbn [negb].
  unfold in_range. rewrite (bool_decide_false (2 ^ long_bits - n ≤ _)); [done|]. lia.
Qed.

End passthrough.

(** ** Examples: samples of four bytes, of which two are sent *)

Definition half_sample (s : list Z) : outcome (list Z) :=
  match s with a :: b :: _ => Ret [a; b] | _ => Undef end.
#[local] Instance half_conversion : SampleConversion.
Proof.
  refine {| raw_sample_length := 4; binary_sample_length := 2; convert_one := half_sample |}.
  - unfold MAX_RAW_SAMPLE_LENGTH. lia.
  - unfold NET_BUF_SIZE. lia.
  - intros [|a [|b s]] o [= <-]. done.
Defined.

(** Samples that straddle blocks, after three bytes to skip. *)
Definition example_blocks : list (list Z) := [[90; 91]; [92; 1; 2; 3]; [4; 5; 6; 7; 8; 9]; []; [10]].
Definition example_connection : connection := mk_connection [] [] [].
Lemma data_stream_sent_witness :
  ∃ st' c', @send_data_stream X86_64 half_conversion scripted DATA_FORMAT_FRAMED DATA_PROCESS_SCALED (mk_state [] []) 3 example_blocks
    example_connection 0 = Ret (st', c', 2) ∧
  concat (@payload DATA_FORMAT_FRAMED <$> cn_sent c') = [1; 2; 5; 6] ∧ dc_sample st' = [9; 10].
Proof.
  destruct (@data_stream_sent X86_64 half_conversion DATA_FORMAT_FRAMED DATA_PROCESS_SCALED 3 example_blocks
    example_connection [1; 2; 5; 6] eq_refl eq_refl) as (st' & c' & frames & extra & E & Es & _ & _ & _ & Ht).
  destruct Ht as (-> & Hc & Hn & Hd); [by split|]. exists st', c'. rewrite Hn in E. rewrite E, Es, app_nil_r, Hd.
  split; [reflexivity|]. split; [exact Hc|reflexivity].
Defined.

Lemma passthrough_exact_witness :
  ∃ c' header data,
  @passthrough_capture_block X86_64 half_conversion scripted (mk_state [] [1; 2]) [3; 4; 5; 6; 7] example_connection 0 =
    Ret (BLOCK_DONE, mk_state [] [5; 6; 7], c', 1) ∧
  cn_sent c' = [(0%nat, header); (1%nat, data)] ∧ header ++ data = bytes_of "BIN " ++ [12; 0; 0; 0; 1; 2; 3; 4].
Proof.
  destruct (@passthrough_exact X86_64 half_conversion (mk_state [] [1; 2]) [3; 4; 5; 6; 7] example_connection 0)
    as (c' & header & data & E & Es & _ & Hd & _); [by split|simpl; lia..|].
  exists c', header, data. split; [exact E|]. split; [exact Es|exact Hd].
Defined.

Lemma passthrough_short_block_witness :
  @passthrough_capture_block ARM32 half_conversion scripted (mk_state [] [1; 2]) [3] example_connection 0 = Undef.
Proof. apply passthrough_short_block; [done|simpl; lia|done]. Defined.

End DataStreamSpec.
