(* ===== verification/DataClientSpec.v ===== *)
(** * From the sampled values to the bytes a client receives

    The conversion of capture.c discharges what the data server asks of a conversion,
    and the two together say what a client is sent: the items of the fields it has
    selected, computed from the values the hardware sampled, for every sample after
    those it was told it lost. *)

From S2P Require Import Prelude Errors StdDev Buffer Capture CaptureSpec Hardware Prepare DataServer DataStreamSpec.
From Stdlib Require Import SpecFloat.
From stdpp Require Import base numbers list list_numbers option strings.
Open Scope Z_scope.

Module DataClientSpec.
Import Double StdDev Buffer Prepare Capture CaptureSpec DataServer DataStreamSpec.

(** ** Words and items in memory *)

Fixpoint words_of (bytes : list Z) : list Z :=
  match bytes with
  | b0 :: b1 :: b2 :: b3 :: bytes => b0 + Z.shiftl b1 8 + Z.shiftl b2 16 + Z.shiftl b3 24 :: words_of bytes
  | _ => []
  end.
Definition is_word (w : Z) : Prop := 0 ≤ w < 2 ^ 32.

Lemma le32_word w : is_word w → u8 w + Z.shiftl (u8 (Z.shiftr w 8)) 8 + Z.shiftl (u8 (Z.shiftr w 16)) 16 +
  Z.shiftl (u8 (Z.shiftr w 24)) 24 = w.
Proof.
  intros Hw. unfold is_word, wrap in *. rewrite !Z.shiftl_mul_pow2, !Z.shiftr_div_pow2 by lia.
  pose proof (Z.div_mod w (2 ^ 8)). pose proof (Z.div_mod (w / 2 ^ 8) (2 ^ 8)). pose proof (Z.div_mod (w / 2 ^ 16) (2 ^ 8)).
  rewrite (Z.mod_small (w / 2 ^ 24)) by (split; [apply Z.div_pos; lia|apply Z.div_lt_upper_bound; lia]).
  rewrite !Z.div_div in * by lia. change (2 ^ 8 * 2 ^ 8) with (2 ^ 16) in *. change (2 ^ 16 * 2 ^ 8) with (2 ^ 24) in *. lia.
Qed.

Lemma words_of_le32 ws rest : Forall is_word ws → words_of (concat (le32 <$> ws) ++ rest) = ws ++ words_of rest.
Proof.
  induction 1 as [|w ws Hw _ IH]; [done|]. rewrite fmap_cons. cbn [concat le32 app words_of]. by rewrite le32_word, IH by done.
Qed.

Lemma length_le32s ws : length (concat (le32 <$> ws)) = (4 * length ws)%nat.
Proof. induction ws as [|w ws IH]; [done|]. rewrite fmap_cons. cbn [concat le32 app length]. lia. Qed.

(** A double in memory: the sign, eleven bits of exponent, and the fraction, with the
    lowest byte first. *)
Definition double_bits (d : double) : Z :=
  let sign (s : bool) := if s then Z.shiftl 1 63 else 0 in
  match d with
  | S754_zero s => sign s
  | S754_infinity s => sign s + Z.shiftl 2047 52
  | S754_nan => Z.shiftl 4095 51
  | S754_finite s m e =>
      if bool_decide (Zpos m < 2 ^ 52) then sign s + Zpos m
      else sign s + Z.shiftl (e + 1075) 52 + (Zpos m - 2 ^ 52)
  end.
Definition real_bytes (d : double) : list Z := le32 (u32 (double_bits d)) ++ le32 (Z.shiftr (double_bits d) 32).
Lemma real_bytes_length d : length (real_bytes d) = 8%nat.
Proof. done. Qed.

Definition item_bytes (x : item) : list Z := match x with Word w => le32 w | Real d => real_bytes d end.
Definition items_bytes (l : list item) : list Z := concat (item_bytes <$> l).

Lemma items_bytes_length l : length (items_bytes l) = items_size l.
Proof.
  unfold items_bytes. induction l as [|x l IH]; [done|]. rewrite fmap_cons. cbn [concat]. rewrite length_app, IH.
  destruct x; simpl; by rewrite ?real_bytes_length.
Qed.
Lemma items_bytes_app l1 l2 : items_bytes (l1 ++ l2) = items_bytes l1 ++ items_bytes l2.
Proof. unfold items_bytes. by rewrite fmap_app, concat_app. Qed.

(** ** The size of a converted sample *)

Lemma mapM_items_size {A} (g : A → outcome item) n l o :
  (∀ x i, g x = Ret i → item_size i = n) → mapM g l = Ret o → items_size o = (n * length l)%nat.
Proof.
  intros Hg. revert o. induction l as [|x l IH]; intros o E; [injection E as <-; simpl; lia|]. simpl in E.
  apply outcome_bind_ret in E as (i & E1%Hg & E). apply outcome_bind_ret in E as (os & E2%IH & E). injection E as <-.
  cbn [items_size foldr length]. fold (items_size os). lia.
Qed.

Definition true_count (flags : list bool) : nat := length (filter (λ b, b = true) flags).
Lemma std_devs_size (g : nat → outcome (list item)) flags j sd :
  (∀ i b o, flags !! i = Some b → g (j + i)%nat = Ret o → items_size o = (8 + if b : bool then 8 else 0)%nat) →
  mapM g (seq j (length flags)) = Ret sd → items_size (concat sd) = (8 * (length flags + true_count flags))%nat.
Proof.
  revert j sd. induction flags as [|b flags IH]; intros j sd Hg E; [by injection E as <-|]. simpl in E.
  apply outcome_bind_ret in E as (o & E1 & E). apply outcome_bind_ret in E as (os & E2 & E). injection E as <-.
  cbn [concat]. rewrite items_size_app. rewrite (Hg 0%nat b o eq_refl) by (by rewrite Nat.add_0_r).
  rewrite (IH (S j) os); [|intros i b' o' Hi E'; apply (Hg (S i)); [done|by rewrite <-plus_n_Sm]|done].
  unfold true_count. rewrite filter_cons. destruct b; [rewrite decide_True by done|rewrite decide_False by done]; simpl; lia.
Qed.

Definition scaled_length (f : captured_fields) : nat :=
  (4 * length (f_unscaled f) + 8 * (length (f_scaled32 f) + length (f_scaled64 f) + length (f_averaged f) +
   length (f_std_dev f) + true_count (ci_mean <$> f_std_dev f)))%nat.

Lemma word_count_groups f c array : laid_out f c array →
  g_count (d_unscaled c) = length (f_unscaled f) ∧ g_count (d_scaled32 c) = length (f_scaled32 f) ∧
  g_count (d_scaled64 c) = length (f_scaled64 f) ∧ g_count (d_averaged c) = length (f_averaged f) ∧
  g_count (d_std_dev c) = length (f_std_dev f).
Proof. intros [_ [? _] [[? _] _] [[? _] _] [[? _] _] [[? _] _] _ _]. done. Qed.

Lemma convert_sample_size f c array input o :
  laid_out f c array → convert_sample c input = Ret o → items_size o = scaled_length f.
Proof.
  intros Hlo E. destruct (word_count_groups _ _ _ Hlo) as (E1 & E2 & E3 & E4 & E5). unfold convert_sample in E.
  apply outcome_bind_ret in E as (o1 & H1 & E). apply outcome_bind_ret in E as (o2 & H2 & E).
  apply outcome_bind_ret in E as (o3 & H3 & E). apply outcome_bind_ret in E as (o4 & H4 & E).
  apply outcome_bind_ret in E as (o5 & H5 & E). injection E as <-.
  apply outcome_bind_ret in H4 as (n4 & _ & H4). apply outcome_bind_ret in H5 as (n5 & _ & H5).
  apply (mapM_items_size _ 4) in H1; [|by intros x i (w & _ & [= <-])%outcome_bind_ret].
  apply (mapM_items_size _ 8) in H2; [|by intros x i (w & _ & (v & _ & [= <-])%outcome_bind_ret)%outcome_bind_ret].
  apply (mapM_items_size _ 8) in H3; [|by intros x i (w & _ & (v & _ & [= <-])%outcome_bind_ret)%outcome_bind_ret].
  apply (mapM_items_size _ 8) in H4; [|by intros x i (w & _ & (v & _ & [= <-])%outcome_bind_ret)%outcome_bind_ret].
  destruct (mapM _ (seq 0 (g_count (d_std_dev c)))) as [sd| |] eqn:Esd; [|done..]. injection H5 as <-.
  replace (g_count (d_std_dev c)) with (length (ci_mean <$> f_std_dev f)) in Esd by (rewrite length_fmap; lia).
  apply std_devs_size in Esd.
  - rewrite !items_size_app, H1, H2, H3, H4, Esd, !length_seq, E1, E2, E3, E4, length_fmap. unfold scaled_length. lia.
  - intros i b o' Hb. cbn [Nat.add].
    do 5 (intros (? & _ & Hx)%outcome_bind_ret; revert Hx). rewrite (lo_mean _ _ _ Hlo).
    rewrite (at_index_some _ _ _ Hb). by intros ?%std_dev_items_size.
Qed.

(** ** The conversion of a capture, as the data server asks for it *)

Lemma scaled_length_bound f : (scaled_length f ≤ 16 * word_count f)%nat.
Proof.
  unfold scaled_length, word_count, true_count. pose proof (length_filter (λ b, b = true) (ci_mean <$> f_std_dev f)) as Hf.
  rewrite length_fmap in Hf. lia.
Qed.
Lemma scaled_length_pos f : (0 < word_count f)%nat → (0 < scaled_length f)%nat.
Proof.
  unfold scaled_length, word_count, anonymous_words. case_decide as Ha; [destruct Ha as [[?|?] _]|]; lia.
Qed.

(** What the reader was told it lost puts it back in step with the samples. *)
Lemma skip_realigns size lost_ :
  0 < size → 0 ≤ lost_ → lost_ + size < 2 ^ 64 →
  lost_ + skip_bytes size lost_ = lost_samples size lost_ * size ∧ 0 ≤ skip_bytes size lost_ < size.
Proof.
  intros Hs Hl Hmax. unfold lost_samples, skip_bytes. rewrite wrap_small by lia.
  pose proof (Z.div_mod lost_ size ltac:(lia)) as Hd. pose proof (Z.mod_pos_bound lost_ size Hs) as Hm.
  case_bool_decide as Hx.
  - replace ((lost_ + size - 1) / size) with (lost_ / size + 1); [nia|].
    apply (Z.div_unique _ _ _ (lost_ mod size - 1)); lia.
  - replace ((lost_ + size - 1) / size) with (lost_ / size); [nia|].
    apply (Z.div_unique _ _ _ (size - 1)); lia.
Qed.

Section capture.
Context (previous : data_capture) (f : captured_fields) (c : data_capture) (array : list Z) (process : data_process).
Context (Hwf : fields_wf f) (Hgather : gather_data_capture previous f = Ret (c, array)).
Context (Hcount : (0 < length array < MAX_PCAP_WRITE_COUNT)%nat).

Definition client_sample_length : nat :=
  match process with DATA_PROCESS_RAW => 4 * length array | DATA_PROCESS_SCALED => scaled_length f end.
Definition convert_bytes (bytes : list Z) : outcome (list Z) :=
  items ← convert_raw_data_to_binary c process 1 (words_of bytes); Ret (items_bytes items).

Lemma array_word_count : length array = word_count f.
Proof.
  pose proof (gather_data_capture_room previous f Hwf) as Hr. unfold room in Hr. rewrite Hgather in Hr.
  destruct (decide _); [|done]. by destruct Hr as (? & [= <-] & ?).
Qed.

Lemma capture_sample_lengths :
  get_raw_sample_length c = Ret (4 * length array)%nat ∧ get_binary_sample_length c process = Ret client_sample_length.
Proof.
  destruct (gather_laid_out _ _ _ _ Hwf Hgather) as (Hlo & _ & _). pose proof array_word_count as Hwc.
  assert (get_raw_sample_length c = Ret (4 * length array)%nat) as Eraw.
  { unfold get_raw_sample_length, assert_ok. rewrite (lo_words _ _ _ Hlo), bool_decide_true by lia. done. }
  split; [done|]. unfold get_binary_sample_length, client_sample_length. destruct process; [done|].
  destruct (word_count_groups _ _ _ Hlo) as (-> & -> & -> & -> & ->). rewrite (lo_mean_count _ _ _ Hlo).
  pose proof (scaled_length_pos f). unfold assert_ok. fold (true_count (ci_mean <$> f_std_dev f)).
  fold (scaled_length f). by rewrite bool_decide_true by lia.
Qed.

Lemma convert_bytes_length bytes o : convert_bytes bytes = Ret o → length o = client_sample_length.
Proof.
  destruct (gather_laid_out _ _ _ _ Hwf Hgather) as (Hlo & _ & _).
  intros (items & E & [= <-])%outcome_bind_ret. rewrite items_bytes_length. unfold client_sample_length, convert_raw_data_to_binary in *.
  destruct process.
  - apply outcome_bind_ret in E as (_ & _ & E). unfold copy_words in E. apply outcome_bind_ret in E as ([] & Hin & [= <-]).
    unfold in_range in Hin. case_bool_decide as Hl; [|done]. rewrite (items_size_const _ 4), length_take by done.
    rewrite Nat.mul_1_l, (lo_words _ _ _ Hlo) in *. lia.
  - cbn [convert_scaled_data] in E. apply outcome_bind_ret in E as (o & E%(convert_sample_size f c array) & E'); [|done].
    injection E' as <-. by rewrite app_nil_r.
Qed.

Lemma capture_length_bounds :
  (0 < 4 * length array ≤ MAX_RAW_SAMPLE_LENGTH)%nat ∧
  (0 < client_sample_length ∧ client_sample_length + 8 ≤ NET_BUF_SIZE)%nat.
Proof.
  unfold MAX_RAW_SAMPLE_LENGTH, MAX_PCAP_WRITE_COUNT, NET_BUF_SIZE, client_sample_length in *.
  pose proof (scaled_length_bound f). pose proof (scaled_length_pos f). pose proof array_word_count.
  destruct process; lia.
Qed.

#[local] Instance capture_conversion : SampleConversion := {|
  raw_sample_length := 4 * length array;
  binary_sample_length := client_sample_length;
  convert_one := convert_bytes;
  raw_length_ok := proj1 capture_length_bounds;
  binary_length_ok := proj2 capture_length_bounds;
  convert_one_length := convert_bytes_length;
|}.


(** ** The stream of samples *)

(** The bytes the hardware sends for a sample of the capture bus, and the items that
    the client asked for. *)
Definition sample_bytes (bus : Z → Z) : list Z := concat (le32 <$> (bus <$> array)).
Definition sample_items (bus : Z → Z) : outcome (list item) :=
  match process with DATA_PROCESS_RAW => Ret (Word <$> (bus <$> array)) | DATA_PROCESS_SCALED => sample_meaning bus f end.
Definition capture_bytes (buses : list (Z → Z)) : list Z := concat (sample_bytes <$> buses).

Lemma sample_bytes_length bus : length (sample_bytes bus) = (4 * length array)%nat.
Proof. unfold sample_bytes. by rewrite length_le32s, length_fmap. Qed.
Lemma capture_bytes_length buses : length (capture_bytes buses) = (length buses * (4 * length array))%nat.
Proof.
  unfold capture_bytes. induction buses as [|bus buses IH]; [done|]. rewrite fmap_cons. cbn [concat].
  rewrite length_app, sample_bytes_length, IH. cbn [length]. lia.
Qed.
Lemma capture_bytes_drop k buses : drop (k * (4 * length array)) (capture_bytes buses) = capture_bytes (drop k buses).
Proof.
  revert k. unfold capture_bytes. induction buses as [|bus buses IH]; intros k; [rewrite drop_nil; apply drop_nil|].
  destruct k as [|k]; [done|]. rewrite fmap_cons. cbn [concat drop]. rewrite <-IH, Nat.mul_succ_l, Nat.add_comm.
  by rewrite drop_app_add' by by rewrite sample_bytes_length.
Qed.

Context (Hsc : process = DATA_PROCESS_RAW ∨ averaging f ∨ (sample_count_index previous < length array)%nat).

Lemma convert_sample_bytes bus :
  Forall is_word (bus <$> array) → convert_bytes (sample_bytes bus) = (items ← sample_items bus; Ret (items_bytes items)).
Proof.
  intros Hb. unfold convert_bytes, sample_bytes, sample_items.
  rewrite <-(app_nil_r (concat _)), words_of_le32 by done. cbn [words_of]. rewrite app_nil_r.
  destruct (gather_laid_out _ _ _ _ Hwf Hgather) as (Hlo & _ & _). unfold convert_raw_data_to_binary. destruct process.
  - rewrite (proj1 capture_sample_lengths). unfold copy_words. cbn [mbind outcome_bind]. rewrite (lo_words _ _ _ Hlo), Nat.mul_1_l.
    unfold in_range. rewrite length_fmap, bool_decide_true by lia. cbn [mbind outcome_bind].
    by rewrite take_ge by (by rewrite length_fmap).
  - cbn [convert_scaled_data]. rewrite <-(app_nil_r (bus <$> array)), (convert_gathered bus previous f c array []);
      [|done|done|destruct Hsc as [|[]]; [done|by left|right; lia]].
    destruct (sample_meaning bus f) as [o| |]; [|done..]. cbn [mbind outcome_bind]. by rewrite app_nil_r.
Qed.

Lemma convert_capture_bytes buses items :
  Forall (λ bus : Z → Z, Forall is_word (bus <$> array)) buses → mapM sample_items buses = Ret items →
  convert_samples (length buses) (capture_bytes buses) = Ret (items_bytes (concat items)).
Proof.
  intros Hb. revert items. induction Hb as [|bus buses Hbus _ IH]; intros items E; [by injection E as <-|]. simpl in E.
  apply outcome_bind_ret in E as (i & E1 & E). apply outcome_bind_ret in E as (is_ & E2%IH & E). injection E as <-.
  unfold capture_bytes in *. rewrite fmap_cons. cbn [concat length convert_samples raw_sample_length convert_one capture_conversion].
  rewrite take_app_length', drop_app_length' by by rewrite sample_bytes_length.
  rewrite convert_sample_bytes, E1 by done. cbn [mbind outcome_bind]. rewrite E2. cbn [mbind outcome_bind].
  by rewrite items_bytes_app.
Qed.

(** The bytes of raw items are those of the samples. *)
Lemma raw_items_bytes buses items : process = DATA_PROCESS_RAW → mapM sample_items buses = Ret items →
  items_bytes (concat items) = capture_bytes buses.
Proof.
  intros Hraw. revert items. induction buses as [|bus buses IH]; intros items E; [by injection E as <-|]. simpl in E.
  apply outcome_bind_ret in E as (i & E1 & E). apply outcome_bind_ret in E as (is_ & E2%IH & E). injection E as <-.
  unfold capture_bytes in *. rewrite fmap_cons. cbn [concat]. rewrite items_bytes_app, E2. f_equal.
  unfold sample_items in E1. rewrite Hraw in E1. injection E1 as <-. unfold items_bytes, sample_bytes. f_equal.
  by rewrite <-list_fmap_compose.
Qed.

(** C1: From the hardware to the client: the reader was told that the first [lost_] bytes
    of the capture are gone, and was given the rest, cut into any blocks.  Unless raw data
    is sent in frames, the client is sent, in any format and whatever the socket and the
    tests for an overrun answer, outputs that hold the items it asked for of a first part
    of the samples after those counted as lost, and then at most one output that the
    socket refused; when all answers are good it is all of these samples, and nothing is
    left over.  Raw data in frames is passed on without being copied: when all answers are
    good and every block is empty or has at least the length of a sample, the client is
    sent whole samples in frames, and together they are the items it asked for; a shorter
    block can make it read outside the block (lemma [passthrough_short_block]). *)
Theorem client_gets_samples `{Platform} (format_ : data_format) buses blocks lost_ (cn : connection) items :
  Forall (λ bus : Z → Z, Forall is_word (bus <$> array)) buses →
  let size := (4 * length array)%nat in
  0 ≤ lost_ ≤ Z.of_nat (length (capture_bytes buses)) → Z.of_nat (length (capture_bytes buses) + size) < 2 ^ 64 →
  concat blocks = drop (Z.to_nat lost_) (capture_bytes buses) →
  let missed := Z.to_nat (lost_samples (Z.of_nat size) lost_) in
  let skip := Z.to_nat (skip_bytes (Z.of_nat size) lost_) in
  mapM sample_items (drop missed buses) = Ret items →
  if passthrough format_ process then
    answers_true cn → Forall passes (after_skip skip blocks) →
    ∃ st' cn' frames chunks,
    send_data_stream format_ process (mk_state [] []) skip blocks cn 0 = Ret (st', cn', Z.of_nat (length buses - missed)) ∧
    cn_sent cn' = cn_sent cn ++ frames ∧ concat (snd <$> frames) = concat (frame_of <$> chunks) ∧
    Forall (whole_samples size) chunks ∧ concat chunks = items_bytes (concat items)
  else
    ∃ st' cn' frames extra,
    send_data_stream format_ process (mk_state [] []) skip blocks cn 0 = Ret (st', cn', u64 (Z.of_nat (samples_of frames))) ∧
    cn_sent cn' = cn_sent cn ++ frames ++ extra ∧ (length extra ≤ 1)%nat ∧ Forall (frame_ok format_) frames ∧
    concat (payload format_ <$> frames) `prefix_of` items_bytes (concat items) ∧
    (answers_true cn → extra = [] ∧ concat (payload format_ <$> frames) = items_bytes (concat items) ∧
       samples_of frames = (length buses - missed)%nat ∧ dc_sample st' = []).
Proof.
  intros Hb size Hl Hmax Eb missed skip Eitems.
  destruct (skip_realigns (Z.of_nat size) lost_) as [Hskip Hsk]; [lia..|].
  assert (drop skip (concat blocks) = capture_bytes (drop missed buses)) as Estream.
  { rewrite Eb, drop_drop, <-capture_bytes_drop. f_equal. subst missed skip. fold size. nia. }
  assert (length (capture_bytes (drop missed buses)) = length (drop missed buses) * size)%nat as Elen by apply capture_bytes_length.
  assert (length (capture_bytes (drop missed buses)) `div` size = length (drop missed buses))%nat as Ediv by (rewrite Elen; apply Nat.div_mul; lia).
  destruct (passthrough format_ process) eqn:Hpass.
  - intros Ha Hp. assert (process = DATA_PROCESS_RAW) as Hraw by (clear -Hpass; unfold passthrough in Hpass; by destruct format_, process).
    destruct (passthrough_stream_sent (Sd := scripted) (SenderSpec0 := scripted_spec format_) format_ process blocks (mk_state [] []) skip cn 0 Hpass Ha)
      as (st' & cn' & frames & chunks & E & Es & _ & Et & Ec & Hw); [cbn [dc_output length raw_sample_length capture_conversion]; lia|exact Hp|].
    cbn [dc_output app raw_sample_length capture_conversion] in E, Ec, Hw. fold size in E, Ec, Hw.
    rewrite concat_after_skip, Estream, Ediv in E, Ec. exists st', cn', frames, chunks. split_and!; [|done..|].
    + etransitivity; [exact E|]. do 2 f_equal. rewrite capture_bytes_length in Hmax. fold size in Hmax.
      rewrite Z.add_0_l, wrap_small by (rewrite length_drop; nia). by rewrite length_drop.
    + rewrite Ec, take_ge by lia. symmetry. by apply raw_items_bytes.
  - destruct (data_stream_sent format_ process skip blocks cn (items_bytes (concat items)) Hpass) as (st' & cn' & frames & extra & E & Es & Hx & Hf & Hp & Ht);
      cbn [raw_sample_length capture_conversion]; fold size; [rewrite Estream, Ediv; by apply convert_capture_bytes; [apply Forall_drop|]|].
    cbn [raw_sample_length capture_conversion] in Ht. fold size in Ht. rewrite Estream, Ediv in Ht.
    exists st', cn', frames, extra. split_and!; [done..|]. intros Ha. destruct (Ht Ha) as (-> & Hc & Hn & Hd).
    split_and!; [done|done|by rewrite Hn, length_drop|]. rewrite Hd. apply drop_ge. lia.
Qed.
End capture.

(** ** An example: two samples of one field of each kind, the first partly lost *)

Definition example_stream : list Z := capture_bytes example_array [example_bus; example_bus].
Lemma client_gets_samples_witness :
  ∃ c items st' cn' frames,
  gather_data_capture initial_capture example_fields = Ret (c, example_array) ∧
  sample_items example_fields example_array DATA_PROCESS_SCALED example_bus = Ret items ∧
  cn_sent cn' = [] ++ frames ∧ concat (payload DATA_FORMAT_FRAMED <$> frames) = items_bytes items ∧ dc_sample st' = [].
Proof.
  assert (∃ c, gather_data_capture initial_capture example_fields = Ret (c, example_array)) as [c E]
    by (eexists; vm_compute; reflexivity).
  assert (∃ items, sample_items example_fields example_array DATA_PROCESS_SCALED example_bus = Ret items) as [items Ei]
    by (eexists; vm_compute; reflexivity).
  assert (0 < length example_array < MAX_PCAP_WRITE_COUNT)%nat as Hcount by (unfold MAX_PCAP_WRITE_COUNT; simpl; lia).
  destruct (client_gets_samples initial_capture example_fields c example_array DATA_PROCESS_SCALED example_fields_wf E
    Hcount (or_intror (or_introl (or_introl (Nat.lt_0_1)))) (H := ARM32) DATA_FORMAT_FRAMED [example_bus; example_bus]
    [drop 5 (take 50 example_stream); drop 50 example_stream] 5 example_connection [items])
    as (st' & cn' & frames & extra & _ & Es & _ & _ & _ & Ht).
  - repeat (constructor; [repeat (constructor; [vm_compute; split; [discriminate|reflexivity]|]); constructor|]); constructor.
  - vm_compute. split; discriminate.
  - vm_compute. reflexivity.
  - vm_compute. reflexivity.
  - change (drop _ [example_bus; example_bus]) with [example_bus]. cbn [mapM]. rewrite Ei. reflexivity.
  - destruct Ht as (-> & Hc & _ & Hd); [by split|]. exists c, items, st', cn', frames. rewrite app_nil_r in Es.
    split_and!; [exact E|exact Ei|exact Es| |exact Hd]. rewrite Hc. cbn [concat]. by rewrite app_nil_r.
Defined.
End DataClientSpec.
