(* ===== verification/PandaStream.v ===== *)
(** * The driver for captured data: panda-server/driver/panda_stream.c

    A circular buffer of blocks between the DMA engine of the FPGA, which fills them, and
    the server, which reads them.  Two blocks at a time belong to the engine; each
    interrupt hands one over to the reader and assigns another.  The interrupt handler
    runs at the same time as the reader, so both are given as the steps between which
    the other can be seen; PandaStreamSpec interleaves them.

    The memory barriers of the source order these steps, and interrupts do not nest.
    The block sizes, the mapping of the memory and the log are not modelled. *)

From S2P Require Import Prelude DataServer.
From stdpp Require Import base numbers list list_numbers option.
Open Scope Z_scope.

Module PandaStream.

(** [enum block_state]. *)
Inductive block_state := BLOCK_FREE | BLOCK_DMA | BLOCK_DATA | BLOCK_DATA_END.
#[export] Instance block_state_eq_dec : EqDecision block_state.
Proof. solve_decision. Defined.

(** [struct block], with the memory behind it, and [struct stream_open]. *)
Record block := mk_block { b_memory : list Z; b_state : block_state; b_length : nat }.
Record stream_open := mk_open {
  isr_block_index : nat;
  stream_active : bool;
  completion : Z;
  start_ts : Z * Z;
  start_ts_valid : bool;
  read_block_index : nat;
  read_offset : nat;
  blocks : list block;
}.
#[export] Instance block_inhabited : Inhabited block := populate (mk_block [] BLOCK_FREE 0).

Definition set_block (o : stream_open) (ix : nat) (b : block) : stream_open :=
  mk_open (isr_block_index o) (stream_active o) (completion o) (start_ts o) (start_ts_valid o) (read_block_index o)
    (read_offset o) (<[ix := b]> (blocks o)).
Definition set_state (o : stream_open) (ix : nat) (st : block_state) : stream_open :=
  set_block o ix (mk_block (b_memory (blocks o !!! ix)) st (b_length (blocks o !!! ix))).
Definition set_isr (o : stream_open) (ix : nat) (active : bool) (code : Z) : stream_open :=
  mk_open ix active code (start_ts o) (start_ts_valid o) (read_block_index o) (read_offset o) (blocks o).
Definition set_reader (o : stream_open) (ix offset : nat) : stream_open :=
  mk_open (isr_block_index o) (stream_active o) (completion o) (start_ts o) (start_ts_valid o) ix offset (blocks o).

(** The states of the buffer are those of [block_count] blocks. *)
Definition block_count (o : stream_open) : nat := length (blocks o).
Definition step_index (count ix : nat) : nat :=
  let ix := (ix + 1)%nat in if bool_decide (count ≤ ix)%nat then (ix - count)%nat else ix.

(** ** The interrupt *)

Definition IRQ_STATUS_DONE (status : Z) : bool := negb (bool_decide (Z.land status 1 = 0)).
Definition IRQ_STATUS_NEW_BUFFER (status : Z) : bool := negb (bool_decide (Z.land status 97 = 0)).
Definition IRQ_STATUS_LENGTH (status : Z) : nat := Z.to_nat (Z.shiftl (Z.shiftr status 9) 2).
Definition IRQ_STATUS_COMPLETION (status : Z) : Z := Z.land (Z.shiftr status 1) 15.
Definition IRQ_STATUS_START_EVENT (status : Z) : bool := negb (bool_decide (Z.land status 256 = 0)).

(** [assign_buffer]: the block whose address goes to the DMA engine is its argument. *)
Definition assign_buffer (o : stream_open) (n : nat) : stream_open := set_state o n BLOCK_DMA.

(** [advance_isr_block]: with the block assigned, if there was a free one. *)
Definition advance_isr_block (o : stream_open) : stream_open * option nat :=
  let ix := step_index (block_count o) (isr_block_index o) in
  let o := set_isr o ix (stream_active o) (completion o) in
  let next_ix := step_index (block_count o) ix in
  if bool_decide (b_state (blocks o !!! next_ix) = BLOCK_FREE) then (assign_buffer o next_ix, Some next_ix)
  else (o, None).

(** [stream_isr] up to the call of [receive_isr_block]: the block assigned, and the block
    to hand over with its length; [now] is the time of day. *)
Definition stream_isr (status : Z) (now : Z * Z) (o : stream_open) : stream_open * option nat * option (nat * nat) :=
  if stream_active o then
    let o := if IRQ_STATUS_START_EVENT status
             then mk_open (isr_block_index o) (stream_active o) (completion o) now true (read_block_index o) (read_offset o) (blocks o)
             else o in
    if IRQ_STATUS_NEW_BUFFER status then
      let ix := isr_block_index o in
      let o := set_isr o ix (negb (IRQ_STATUS_DONE status)) (completion o) in
      let '(o, assigned) :=
        if stream_active o then advance_isr_block o else (set_isr o ix false (IRQ_STATUS_COMPLETION status), None) in
      (o, assigned, Some (ix, IRQ_STATUS_LENGTH status))
    else (o, None, None)
  else (o, None, None).

(** [receive_isr_block]: the length, and after the barrier the state. *)
Definition receive_length (o : stream_open) (ix length_ : nat) : stream_open :=
  set_block o ix (mk_block (b_memory (blocks o !!! ix)) (b_state (blocks o !!! ix)) length_).
Definition receive_state (o : stream_open) (ix : nat) : stream_open :=
  set_state o ix (if stream_active o then BLOCK_DATA else BLOCK_DATA_END).

(** ** Arming *)

(** [start_hardware], up to the start of the DMA engine; then the second block is
    assigned. *)
Definition start_hardware (o : stream_open) : stream_open :=
  assign_buffer (mk_open 0 true (completion o) (0, 0) false 0 0
    ((λ b, mk_block (b_memory b) BLOCK_FREE (b_length b)) <$> blocks o)) 0.
Definition start_hardware_second (o : stream_open) : stream_open := assign_buffer o 1.

(** [panda_stream_open]: the blocks as they were allocated. *)
Definition panda_stream_open (memory : list (list Z)) : stream_open :=
  mk_open 0 false 0 (0, 0) false 0 0 ((λ m, mk_block m BLOCK_FREE 0) <$> memory).

(** ** Reading *)

Definition current (o : stream_open) : block := blocks o !!! read_block_index o.

(** [wait_for_block]: whether there is something to wait for no longer. *)
Definition block_ready (o : stream_open) : bool :=
  bool_decide (b_state (current o) = BLOCK_DATA) || bool_decide (b_state (current o) = BLOCK_DATA_END).

(** [read_one_block]: [uncopied] is what [copy_to_user] could not copy.  [None] is
    [-EFAULT]. *)
Definition read_one_block (o : stream_open) (count uncopied : nat) : option (list Z * stream_open) :=
  let b := current o in
  if bool_decide (read_offset o < b_length b)%nat then
    let copy_count := (Nat.min (b_length b - read_offset o) count - uncopied)%nat in
    if bool_decide (copy_count = 0)%nat then None
    else Some (take copy_count (drop (read_offset o) (b_memory b)),
               set_reader o (read_block_index o) (read_offset o + copy_count))
  else Some ([], o).

(** [advance_block]: the index moves, and after the barrier the block is free. *)
Definition advance_block (o : stream_open) : stream_open :=
  let ix := read_block_index o in
  set_state (set_reader o (step_index (block_count o) ix) 0) ix BLOCK_FREE.

(** The values [panda_stream_read] returns. *)
Inductive read_result := READ_DATA (data : list Z) | READ_END | READ_AGAIN | READ_ERROR.
Definition read_return (o : stream_open) (copied : list Z) : read_result :=
  if bool_decide (copied ≠ []) then READ_DATA copied
  else if bool_decide (b_state (current o) = BLOCK_DATA_END) then READ_END
  else READ_AGAIN.

(** Where [panda_stream_read] is: at the wait, at the test of its loop, before
    [read_one_block], after it, and at the end, with what is copied so far. *)
Inductive read_pc :=
  | Read_wait (count : nat)
  | Read_loop (count : nat) (copied : list Z)
  | Read_copy (count : nat) (copied : list Z)
  | Read_after (count : nat) (copied : list Z)
  | Read_exit (copied : list Z)
  | Read_returned (r : read_result).

(** One step of it; a wait that finds nothing goes on, or is ended by the time-out or by
    a signal. *)
Inductive wait_end := Wait_more | Wait_timeout | Wait_signal.
Definition read_step (o : stream_open) (pc : read_pc) (wait : wait_end) (uncopied : nat) : stream_open * read_pc :=
  match pc with
  | Read_wait count =>
      if block_ready o then (o, Read_loop count [])
      else (o, match wait with
               | Wait_more => pc
               | Wait_timeout => Read_returned READ_AGAIN
               | Wait_signal => Read_returned READ_ERROR
               end)
  | Read_loop count copied =>
      if bool_decide (0 < count)%nat && bool_decide (b_state (current o) ≠ BLOCK_DMA)
      then (o, Read_copy count copied) else (o, Read_exit copied)
  | Read_copy count copied =>
      match read_one_block o count uncopied with
      | Some (data, o) => (o, Read_after (count - length data) (copied ++ data))
      | None => (o, Read_returned READ_ERROR)
      end
  | Read_after count copied =>
      if bool_decide (b_length (current o) ≤ read_offset o)%nat then
        if bool_decide (b_state (current o) = BLOCK_DATA_END) then (o, Read_exit copied)
        else (advance_block o, Read_loop count copied)
      else (o, Read_loop count copied)
  | Read_exit copied => (o, Read_returned (read_return o copied))
  | Read_returned _ => (o, pc)
  end.

(** [hw_read_streamed_data] of the server, from what [read] returned: the data, and
    whether it is the end. *)
Definition hw_read_streamed_data (r : read_result) : list Z * bool :=
  match r with
  | READ_DATA data => (data, false)
  | READ_END => ([], true)
  | READ_AGAIN => ([], false)
  | READ_ERROR => ([], true)
  end.

(** [panda_stream_ioctl] for the time of the start. *)
Definition get_start_ts (o : stream_open) : option (Z * Z) := if start_ts_valid o then Some (start_ts o) else None.

End PandaStream.
