(* ===== verification/PandaStreamSpec.v ===== *)
(** * What the driver for captured data guarantees

    The DMA engine, the interrupt handler and the reader interleaved.  The engine is
    what the comments of the driver say of it: it fills the blocks in the order of the
    addresses it was given, and goes on after a block only if it has the next address by
    then; otherwise that transfer is its last.  Ghost state logs the data handed over and
    what the server was given. *)

From S2P Require Import Prelude Buffer DataServer PandaStream.
From stdpp Require Import base numbers list list_numbers option relations.
Open Scope Z_scope.

Module PandaStreamSpec.
Import PandaStream.

(** Where the interrupt handler is, with the block it hands over, its length and the
    data the engine put there. *)
Inductive isr_pc :=
  | Isr_idle
  | Isr_received (ix length_ : nat) (data : list Z)
  | Isr_length (ix : nat) (data : list Z).

Record driver := mk_driver {
  d_open : stream_open;
  d_addresses : list nat;       (* blocks the engine has still to fill *)
  d_isr : isr_pc;
  d_half : bool;                (* between the two parts of [start_hardware] *)
  d_log : list (list Z);        (* ghost: data of the blocks handed over *)
  d_reader : option read_pc;    (* the call of [read] in progress *)
  d_got : list Z;               (* ghost: bytes returned *)
  d_end : bool;                 (* ghost: the end was returned *)
  d_failed : bool;              (* ghost: an error was returned *)
}.

Definition set_isr_pc (d : driver) (o : stream_open) (addresses : list nat) (pc : isr_pc) (log : list (list Z)) : driver :=
  mk_driver o addresses pc (d_half d) log (d_reader d) (d_got d) (d_end d) (d_failed d).

(** The engine writes to the beginning of a block. *)
Definition dma_write (o : stream_open) (ix : nat) (data : list Z) : stream_open :=
  let b := blocks o !!! ix in
  set_block o ix (mk_block (data ++ drop (length data) (b_memory b)) (b_state b) (b_length b)).

(** A step of the reader, and what the server takes of its result. *)
Definition is_end (r : read_result) : bool := match r with READ_END => true | _ => false end.
Definition is_error (r : read_result) : bool := match r with READ_ERROR => true | _ => false end.
Definition set_reader_pc (d : driver) (o : stream_open) (pc : read_pc) : driver :=
  match pc with
  | Read_returned r =>
      mk_driver o (d_addresses d) (d_isr d) (d_half d) (d_log d) None
        (d_got d ++ (hw_read_streamed_data r).1) (d_end d || is_end r) (d_failed d || is_error r)
  | _ => mk_driver o (d_addresses d) (d_isr d) (d_half d) (d_log d) (Some pc) (d_got d) (d_end d) (d_failed d)
  end.

Section steps.
(** Whether the engine may hand over a block without data before the last. *)
Context (empty_blocks : bool).

Inductive step : driver → driver → Prop :=
  | step_arm d :
      d_isr d = Isr_idle → d_half d = false → d_reader d = None →
      step d (mk_driver (start_hardware (d_open d)) [0%nat] Isr_idle true [] None [] false false)
  | step_arm_second d :
      d_half d = true →
      step d (mk_driver (start_hardware_second (d_open d)) (d_addresses d ++ [1%nat]) (d_isr d) false (d_log d)
                (d_reader d) (d_got d) (d_end d) (d_failed d))
  | step_start_event d status now o :
      d_isr d = Isr_idle → IRQ_STATUS_NEW_BUFFER status = false → stream_isr status now (d_open d) = (o, None, None) →
      step d (set_isr_pc d o (d_addresses d) Isr_idle (d_log d))
  | step_interrupt d ix rest data status now o assigned received :
      d_isr d = Isr_idle → stream_active (d_open d) = true →
      d_addresses d = ix :: rest → length data = IRQ_STATUS_LENGTH status →
      (length data ≤ length (b_memory (blocks (d_open d) !!! ix)))%nat →
      (* the next transfer needs an address *)
      IRQ_STATUS_DONE status = true ∨ rest ≠ [] →
      IRQ_STATUS_DONE status = true ∨ data ≠ [] ∨ empty_blocks = true →
      IRQ_STATUS_NEW_BUFFER status = true →
      stream_isr status now (dma_write (d_open d) ix data) = (o, assigned, Some received) →
      step d (set_isr_pc d o (rest ++ option_list assigned) (Isr_received received.1 received.2 data) (d_log d))
  | step_isr_length d ix length_ data :
      d_isr d = Isr_received ix length_ data →
      step d (set_isr_pc d (receive_length (d_open d) ix length_) (d_addresses d) (Isr_length ix data) (d_log d))
  | step_isr_state d ix data :
      d_isr d = Isr_length ix data →
      step d (set_isr_pc d (receive_state (d_open d) ix) (d_addresses d) Isr_idle (d_log d ++ [data]))
  | step_read d count :
      d_reader d = None → d_end d = false → (0 < count)%nat →
      step d (set_reader_pc d (d_open d) (Read_wait count))
  | step_reader d pc wait uncopied :
      d_reader d = Some pc →
      step d (set_reader_pc d (read_step (d_open d) pc wait uncopied).1 (read_step (d_open d) pc wait uncopied).2).

(** The device just opened. *)
Inductive initial : driver → Prop :=
  initial_intro memory :
    (2 ≤ length memory)%nat →
    initial (mk_driver (panda_stream_open memory) [] Isr_idle false [] None [] false false).
Definition reachable (d : driver) : Prop := ∃ d0, initial d0 ∧ rtc step d0 d.

(** ** The invariant *)

(** Block [k] is at place [k mod n] of the ring; two blocks less than a turn apart are at
    different places. *)
Lemma ring_slot_ne (n j k : nat) : (j < k < j + n)%nat → (j mod n)%nat ≠ (k mod n)%nat.
Proof.
  intros Hk E. pose proof (Nat.div_mod j n ltac:(lia)) as Ej. pose proof (Nat.div_mod k n ltac:(lia)) as Ek.
  rewrite E in Ej. assert (k - j = n * (k / n - j / n))%nat as Ed by nia.
  destruct (decide (k / n - j / n = 0)%nat) as [Ez|Hnz]; [rewrite Ez in Ed; lia|nia].
Qed.
Lemma ring_slot_ne' (n r j k : nat) : (r ≤ j < r + n → r ≤ k < r + n → j ≠ k → (j mod n) ≠ (k mod n))%nat.
Proof.
  intros. destruct (decide (j < k)%nat); [apply ring_slot_ne; lia|]. intros E. symmetry in E. revert E. apply ring_slot_ne. lia.
Qed.
Lemma ring_slot_lt (n k : nat) : (0 < n → k mod n < n)%nat.
Proof. intros. apply Nat.mod_upper_bound. lia. Qed.
Lemma step_index_slot (n k : nat) : (0 < n)%nat → step_index n (k mod n) = (S k mod n)%nat.
Proof.
  intros Hn. pose proof (ring_slot_lt n k Hn). pose proof (Nat.div_mod k n ltac:(lia)) as Ek. unfold step_index.
  case_bool_decide.
  - apply (Nat.mod_unique _ _ (S (k / n))); nia.
  - apply (Nat.mod_unique _ _ (k / n)); nia.
Qed.

(** ** Updates of a block *)

Lemma set_block_count o ix b : block_count (set_block o ix b) = block_count o.
Proof. apply length_insert. Qed.
Lemma set_block_at o ix b : (ix < block_count o)%nat → blocks (set_block o ix b) !!! ix = b.
Proof. intros. by apply list_lookup_total_insert_eq. Qed.
Lemma set_block_other o ix b j : ix ≠ j → blocks (set_block o ix b) !!! j = blocks o !!! j.
Proof. intros. by apply list_lookup_total_insert_ne. Qed.

Lemma advance_block_other o j : read_block_index o ≠ j → blocks (advance_block o) !!! j = blocks o !!! j.
Proof. intros. by apply (set_block_other (set_reader _ _ _)). Qed.
Lemma advance_block_free o :
  (read_block_index o < block_count o)%nat → b_state (blocks (advance_block o) !!! read_block_index o) = BLOCK_FREE.
Proof. intros. unfold advance_block, set_state. by rewrite set_block_at. Qed.

(** Block [k] with its data. *)
Record holds (b : block) (data : list Z) : Prop := {
  h_length : b_length b = length data;
  h_memory : take (length data) (b_memory b) = data;
}.

Lemma holds_read b data off c :
  holds b data → (off + c ≤ length data)%nat → take c (drop off (b_memory b)) = take c (drop off data).
Proof.
  intros [_ Hm] Hc. rewrite <-Hm at 1. rewrite <-(take_drop (length data) (b_memory b)) at 1.
  rewrite Hm, drop_app_le, take_app_le by (rewrite ?length_drop; lia). done.
Qed.

(** ** The ring *)

(** The data in flight, and the number of transfers completed. *)
Definition idle (d : driver) : bool := match d_isr d with Isr_idle => true | _ => false end.
Definition received (d : driver) : nat := if idle d then length (d_log d) else S (length (d_log d)).
Definition ended (d : driver) : bool := negb (stream_active (d_open d)) && idle d.

Abbreviation nblocks d := (block_count (d_open d)).
Abbreviation slot d k := (k mod nblocks d)%nat.
Definition at_ (d : driver) (k : nat) : block := blocks (d_open d) !!! slot d k.

(** With [r] blocks freed by the reader and [a] assigned to the engine. *)
Record ring_ok (d : driver) (r a : nat) : Prop := {
  ro_count : (2 ≤ nblocks d)%nat;
  ro_read : (r ≤ length (d_log d))%nat;
  ro_assigned : (received d ≤ a ≤ r + nblocks d)%nat;
  ro_live : stream_active (d_open d) = true → (received d < a ≤ received d + 2)%nat;
  ro_data k data : (r ≤ k)%nat → d_log d !! k = Some data →
    holds (at_ d k) data ∧
    b_state (at_ d k) = if ended d && bool_decide (S k = length (d_log d)) then BLOCK_DATA_END else BLOCK_DATA;
  ro_dma k : (length (d_log d) ≤ k < a)%nat → b_state (at_ d k) = BLOCK_DMA;
  ro_free k : stream_active (d_open d) = true → (a ≤ k < r + nblocks d)%nat → b_state (at_ d k) = BLOCK_FREE;
  ro_isr : stream_active (d_open d) = true → isr_block_index (d_open d) = slot d (received d);
  ro_addresses : stream_active (d_open d) = true → d_addresses d = (λ k, slot d k) <$> seq (received d) (a - received d);
  ro_half : d_half d = true → a = 1%nat;
  ro_in_flight :
    match d_isr d with
    | Isr_idle => True
    | Isr_received ix length_ data => ix = slot d (length (d_log d)) ∧ length_ = length data ∧
        take (length data) (b_memory (at_ d (length (d_log d)))) = data ∧
        (empty_blocks = true ∨ data ≠ [] ∨ stream_active (d_open d) = false)
    | Isr_length ix data => ix = slot d (length (d_log d)) ∧ holds (at_ d (length (d_log d))) data ∧
        (empty_blocks = true ∨ data ≠ [] ∨ stream_active (d_open d) = false)
    end;
  ro_ended : ended d = true → (r < length (d_log d))%nat;
  ro_nonempty k data : empty_blocks = false → d_log d !! k = Some data →
    data ≠ [] ∨ ended d = true ∧ S k = length (d_log d);
}.

(** ** The reader *)

Definition copied_of (pc : option read_pc) : list Z :=
  match pc with
  | Some (Read_loop _ copied | Read_copy _ copied | Read_after _ copied | Read_exit copied) => copied
  | _ => []
  end.
Definition block_data (d : driver) (k : nat) : list Z := default [] (d_log d !! k).
Record reader_ok (d : driver) (r : nat) : Prop := {
  rd_index : read_block_index (d_open d) = slot d r;
  rd_offset : (read_offset (d_open d) ≤ length (block_data d r))%nat;
  rd_got : d_failed d = false →
    d_got d ++ copied_of (d_reader d) = concat (take r (d_log d)) ++ take (read_offset (d_open d)) (block_data d r);
  rd_pc :
    match d_reader d with
    | None => True
    | Some (Read_wait count) => (0 < count)%nat
    | Some (Read_loop count copied) => copied = [] → (0 < count)%nat ∧ (empty_blocks = false → (r < length (d_log d))%nat)
    | Some (Read_copy count copied) => (0 < count)%nat ∧ (r < length (d_log d))%nat
    | Some (Read_after count copied) => (r < length (d_log d))%nat ∧
        (copied = [] → (0 < count)%nat ∧ read_offset (d_open d) = length (block_data d r) ∧
           (empty_blocks = false → ended d = true ∧ S r = length (d_log d)))
    | Some (Read_exit copied) => copied = [] → empty_blocks = false →
        ended d = true ∧ S r = length (d_log d) ∧ read_offset (d_open d) = length (block_data d r)
    | Some (Read_returned _) => False
    end;
  rd_partial :
    match d_reader d with
    | Some (Read_after _ _) => True
    | _ => (r < length (d_log d))%nat → (ended d = true ∧ S r = length (d_log d)) ∨
        (read_offset (d_open d) < length (block_data d r))%nat ∨ block_data d r = []
    end;
  rd_stop : d_end d = true → d_reader d = None;
  rd_end : d_end d = true → empty_blocks = false → d_failed d = false → ended d = true ∧ d_got d = concat (d_log d);
}.

(** Before the first arming there is nothing to read. *)
Record unarmed (d : driver) : Prop := {
  ua_count : (2 ≤ nblocks d)%nat;
  ua_inactive : stream_active (d_open d) = false;
  ua_isr : d_isr d = Isr_idle;
  ua_half : d_half d = false;
  ua_log : d_log d = [];
  ua_got : d_got d = [];
  ua_end : d_end d = false;
  ua_free : block_ready (d_open d) = false;
  ua_reader : match d_reader d with None | Some (Read_wait _) => True | _ => False end;
}.
Definition inv (d : driver) : Prop := unarmed d ∨ ∃ r a, ring_ok d r a ∧ reader_ok d r.

(** ** The ring as the reader moves within a block *)

Lemma ring_same d d' r a :
  blocks (d_open d') = blocks (d_open d) → isr_block_index (d_open d') = isr_block_index (d_open d) →
  stream_active (d_open d') = stream_active (d_open d) → d_addresses d' = d_addresses d → d_isr d' = d_isr d →
  d_half d' = d_half d → d_log d' = d_log d → ring_ok d r a → ring_ok d' r a.
Proof.
  intros Eb Ei Ea E1 E2 E3 E4 Hr. destruct Hr.
  split; unfold received, ended, idle, at_, block_count in *; rewrite ?E1, ?E2, ?E3, ?E4, ?Eb, ?Ei, ?Ea; assumption.
Qed.
Lemma ring_reader d r a o pc :
  blocks o = blocks (d_open d) → isr_block_index o = isr_block_index (d_open d) →
  stream_active o = stream_active (d_open d) → ring_ok d r a → ring_ok (set_reader_pc d o pc) r a.
Proof. intros. apply (ring_same d); destruct pc; done. Qed.

(** A block the reader has reached has data, unless the engine has it. *)
Lemma reached_data d r a :
  ring_ok d r a → b_state (at_ d r) ≠ BLOCK_DMA → (r < length (d_log d))%nat.
Proof.
  intros Hr Hst. destruct (decide (r = length (d_log d))) as [->|Hne]; [|pose proof (ro_read _ _ _ Hr); lia].
  destruct (stream_active (d_open d)) eqn:Ea.
  - destruct Hst. apply (ro_dma _ _ _ Hr). pose proof (ro_live _ _ _ Hr Ea) as Hl. unfold received in Hl. destruct (idle d); lia.
  - destruct (idle d) eqn:Ei.
    + apply (ro_ended _ _ _ Hr). unfold ended. by rewrite Ea, Ei.
    + destruct Hst. apply (ro_dma _ _ _ Hr). pose proof (ro_assigned _ _ _ Hr) as Hl. unfold received in Hl. rewrite Ei in Hl. lia.
Qed.

Lemma at_current d r : reader_ok d r → current (d_open d) = at_ d r.
Proof. intros Hrd. unfold current, at_. by rewrite (rd_index _ _ Hrd). Qed.

(** The block the reader is at. *)
Lemma reader_block d r a :
  ring_ok d r a → reader_ok d r → (r < length (d_log d))%nat →
  holds (current (d_open d)) (block_data d r) ∧
  b_state (current (d_open d)) = if ended d && bool_decide (S r = length (d_log d)) then BLOCK_DATA_END else BLOCK_DATA.
Proof.
  intros Hr Hrd Hlt. rewrite (at_current _ _ Hrd). unfold block_data.
  destruct (d_log d !! r) as [data|] eqn:E; [|apply lookup_ge_None in E; lia]. by apply (ro_data _ _ _ Hr).
Qed.

(** ** The steps of the reader *)

Section reader_steps.
Context (d : driver) (r a : nat) (Hr : ring_ok d r a) (Hrd : reader_ok d r).
Implicit Types (wait : wait_end) (uncopied : nat).

Lemma reading_not_ended pc : d_reader d = Some pc → d_end d = false.
Proof. intros E. pose proof (rd_stop _ _ Hrd) as Hs. destruct (d_end d); [|done]. rewrite E in Hs. by specialize (Hs eq_refl). Qed.

Lemma wait_step_ok count wait uncopied :
  d_reader d = Some (Read_wait count) →
  let next := read_step (d_open d) (Read_wait count) wait uncopied in
  reader_ok (set_reader_pc d next.1 next.2) r ∧ next.1 = d_open d.
Proof.
  intros Epc. pose proof (reading_not_ended _ Epc) as Hnd. destruct Hrd as [Hix Hoff Hgot Hpc Hpart Hstop Hend]. rewrite Epc in Hgot, Hpc, Hpart, Hstop. cbn in Hgot.
  cbn [read_step]. destruct (block_ready (d_open d)) eqn:Er.
  - cbn. split; [|done]. split; cbn; rewrite ?Hnd; try done.
    intros _. split; [done|]. intros _. apply (reached_data _ _ _ Hr). rewrite <-(at_current _ _ Hrd).
    unfold block_ready in Er. intros E. rewrite E in Er. done.
  - rewrite app_nil_r in Hgot. destruct wait; cbn; (split; [|done]); split; cbn; rewrite ?Hnd, ?orb_true_r, ?orb_false_r, ?app_nil_r; done.
Qed.

Lemma loop_step_ok count copied wait uncopied :
  d_reader d = Some (Read_loop count copied) →
  let next := read_step (d_open d) (Read_loop count copied) wait uncopied in
  reader_ok (set_reader_pc d next.1 next.2) r ∧ next.1 = d_open d.
Proof.
  intros Epc. pose proof (reading_not_ended _ Epc) as Hnd. destruct Hrd as [Hix Hoff Hgot Hpc Hpart Hstop Hend]. rewrite Epc in Hgot, Hpc, Hpart, Hstop. cbn in Hgot, Hpc.
  cbn [read_step]. destruct (bool_decide (0 < count)%nat && _) eqn:Et; cbn; (split; [|done]).
  - apply andb_prop in Et as [Hc%bool_decide_eq_true Hst%bool_decide_eq_true]. split; cbn; rewrite ?Hnd; try done.
    split; [done|]. apply (reached_data _ _ _ Hr). by rewrite <-(at_current _ _ Hrd).
  - split; cbn; rewrite ?Hnd; try done. intros -> Hne. destruct (Hpc eq_refl) as [Hc Hlt]. specialize (Hlt Hne).
    destruct (reader_block _ _ _ Hr Hrd Hlt) as [_ Hst]. rewrite Hst in Et. rewrite bool_decide_true in Et by done.
    by destruct (ended d && _); vm_compute in Et.
Qed.

Lemma copy_step_ok count copied wait uncopied :
  d_reader d = Some (Read_copy count copied) →
  let next := read_step (d_open d) (Read_copy count copied) wait uncopied in
  reader_ok (set_reader_pc d next.1 next.2) r ∧ blocks next.1 = blocks (d_open d) ∧
  isr_block_index next.1 = isr_block_index (d_open d) ∧ stream_active next.1 = stream_active (d_open d).
Proof.
  intros Epc. destruct Hrd as [Hix Hoff Hgot Hpc Hpart Hstop Hend]. rewrite Epc in Hgot, Hpc, Hpart, Hstop. cbn in Hgot, Hpc.
  destruct Hpc as [Hc Hlt]. destruct (reader_block _ _ _ Hr Hrd Hlt) as [Hh _].
  pose proof (reading_not_ended _ Epc) as Hnd.
  cbn [read_step]. unfold read_one_block. rewrite (h_length _ _ Hh). case_bool_decide as Hmore; [case_bool_decide as Hfault|].
  - cbn. split_and!; [|done..]. split; cbn; rewrite ?orb_true_r, ?Hnd; done.
  - set (c := (Nat.min _ count - uncopied)%nat) in *. rewrite (holds_read _ _ _ _ Hh) by lia.
    assert (length (take c (drop (read_offset (d_open d)) (block_data d r))) = c) as El by (rewrite length_take, length_drop; lia).
    cbn. split_and!; [|done..]. split; cbn; try done; try (by rewrite Hnd).
    + unfold block_data in *. cbn. lia.
    + intros Hf. rewrite (assoc_L (++)), (Hgot Hf), <-(assoc_L (++)). f_equal. unfold block_data. cbn.
      rewrite <-take_take_drop. done.
    + split; [done|]. intros [_ E]%app_nil. rewrite E in El. simpl in El. lia.
  - cbn. split_and!; [|done..]. split; cbn; rewrite ?app_nil_r, ?Hnd; try done.
    split; [done|]. intros ->. unfold block_data in *. cbn. split_and!; [lia..|]. intros Hne. split.
    all: destruct (Hpart Hlt) as [[? ?]|[?|E]]; [done|lia|].
    all: destruct (d_log d !! r) as [data|] eqn:El; [|apply lookup_ge_None in El; lia].
    all: cbn in E; subst data; by destruct (ro_nonempty _ _ _ Hr r [] Hne El) as [|[]].
Qed.

Lemma advance_blocks count copied : nblocks (set_reader_pc d (advance_block (d_open d)) (Read_loop count copied)) = nblocks d.
Proof. etransitivity; [apply set_block_count|done]. Qed.

(** The block read is freed. *)
Lemma advance_ring count copied :
  (r < length (d_log d))%nat → ended d && bool_decide (S r = length (d_log d)) = false →
  ring_ok (set_reader_pc d (advance_block (d_open d)) (Read_loop count copied)) (S r) a.
Proof.
  intros Hlt Hend. pose proof (rd_index _ _ Hrd) as Hix. pose proof Hr as [Hn Hread Hass Hlive Hdata Hdma Hfree Hisr Haddr Hhalf Hfl Hended Hne].
  assert (length (d_log d) ≤ received d)%nat as Hrec by (unfold received; destruct (idle d); lia).
  set (d' := set_reader_pc _ _ _).
  assert (nblocks d' = nblocks d) as Ec by apply advance_blocks.
  assert (∀ k, (r < k < r + nblocks d)%nat → at_ d' k = at_ d k) as Hother.
  { intros k Hk. unfold at_. rewrite Ec. apply advance_block_other. rewrite Hix. apply ring_slot_ne. lia. }
  assert (b_state (at_ d' (r + nblocks d)) = BLOCK_FREE) as Hslot.
  { unfold at_. rewrite Ec. replace ((r + nblocks d) mod nblocks d)%nat with (slot d r)
      by (rewrite <-(Nat.Div0.mod_add r 1 (nblocks d)); f_equal; lia).
    rewrite <-Hix. apply advance_block_free. rewrite Hix. apply ring_slot_lt. lia. }
  split; change (received d') with (received d) in *; change (ended d') with (ended d) in *; change (d_log d') with (d_log d) in *;
    rewrite ?Ec; try done; try lia.
  - intros k data Hk Hd. rewrite Hother; [apply Hdata; [lia|done]|]. apply lookup_lt_Some in Hd. lia.
  - intros k Hk. rewrite Hother by lia. by apply Hdma.
  - intros k Hl Hk. destruct (decide (k = r + nblocks d)%nat) as [->|]; [done|]. specialize (Hlive Hl). rewrite Hother by lia. apply Hfree; [done|lia].
  - change (d_isr d') with (d_isr d). change (stream_active (d_open d')) with (stream_active (d_open d)).
    unfold received, idle in *. destruct (d_isr d) as [|ix len data|ix data]; [done|..]; cbn in Hass; rewrite Hother by lia; done.
  - intros He. specialize (Hended He). rewrite He in Hend. apply bool_decide_eq_false in Hend. lia.
Qed.

Lemma advance_reader count copied :
  d_reader d = Some (Read_after count copied) → (length (block_data d r) ≤ read_offset (d_open d))%nat →
  ended d && bool_decide (S r = length (d_log d)) = false →
  reader_ok (set_reader_pc d (advance_block (d_open d)) (Read_loop count copied)) (S r).
Proof.
  intros Epc Hfull He. pose proof (reading_not_ended _ Epc) as Hnd. pose proof Hrd as [Hix Hoff Hgot Hpc Hpart Hstop Hend].
  rewrite Epc in Hgot, Hpc, Hpart. cbn in Hgot. destruct Hpc as [Hlt Hpc].
  assert (∀ k, block_data (set_reader_pc d (advance_block (d_open d)) (Read_loop count copied)) k = block_data d k) as Eb by done.
  split; cbn [fst snd set_reader_pc d_open advance_block set_state set_block set_reader read_block_index read_offset d_reader d_got
    copied_of d_failed d_end d_log]; rewrite ?Hnd, ?Eb; try done; try lia.
  - transitivity (slot d (S r)); [rewrite Hix; apply step_index_slot; pose proof (ro_count _ _ _ Hr); lia|].
    f_equal. symmetry. apply (advance_blocks count copied).
  - intros Hf. rewrite (Hgot Hf), take_0, app_nil_r. unfold block_data.
    destruct (d_log d !! r) as [data|] eqn:El; [|apply lookup_ge_None in El; lia]. cbn.
    rewrite (take_S_r _ _ _ El), concat_app, (take_ge data); [by cbn; rewrite app_nil_r|].
    unfold block_data in Hfull. rewrite El in Hfull. cbn in Hfull. lia.
  - intros ->. destruct (Hpc eq_refl) as (Hc & _ & Hlast). split; [done|]. intros Hne. destruct (Hlast Hne) as [He' Hl].
    rewrite He', bool_decide_true in He by done. done.
  - intros Hlt'. right. destruct (block_data d (S r)) eqn:Ed; [right|left]; unfold block_data in *; cbn; rewrite Ed; [done|cbn; lia].
Qed.

(** After a block the reader goes on to the next, ends at the last, or has room for no
    more. *)
Lemma after_step_ok count copied wait uncopied :
  d_reader d = Some (Read_after count copied) →
  let next := read_step (d_open d) (Read_after count copied) wait uncopied in
  let r' := if bool_decide (length (block_data d r) ≤ read_offset (d_open d))%nat && negb (ended d && bool_decide (S r = length (d_log d)))
    then S r else r in
  ring_ok (set_reader_pc d next.1 next.2) r' a ∧ reader_ok (set_reader_pc d next.1 next.2) r'.
Proof.
  intros Epc. pose proof (reading_not_ended _ Epc) as Hnd. pose proof Hrd as [Hix Hoff Hgot Hpc Hpart Hstop Hend].
  rewrite Epc in Hgot, Hpc, Hpart. cbn in Hgot. destruct Hpc as [Hlt Hpc].
  destruct (reader_block _ _ _ Hr Hrd Hlt) as [Hh Hst]. cbn [read_step]. rewrite (h_length _ _ Hh), Hst.
  destruct (bool_decide (_ ≤ _)%nat) eqn:Hfull; [apply bool_decide_eq_true in Hfull|apply bool_decide_eq_false in Hfull].
  - destruct (ended d && bool_decide (S r = length (d_log d))) eqn:He.
    + rewrite bool_decide_true by done. split; [by apply ring_reader|].
      apply andb_prop in He as [He Hlast%bool_decide_eq_true]. split; cbn; rewrite ?Hnd; try done; [|auto].
      intros _ _. split; [done|]. split; [done|]. unfold block_data in *. cbn. lia.
    + rewrite bool_decide_false by done. split; [by apply advance_ring|by apply advance_reader].
  - split; [by apply ring_reader|]. split; cbn; rewrite ?Hnd; try done.
    + intros ->. destruct (Hpc eq_refl) as (_ & Eo & _). lia.
    + intros _. right. left. unfold block_data in *. cbn. lia.
Qed.

Lemma exit_step_ok copied wait uncopied :
  d_reader d = Some (Read_exit copied) →
  let next := read_step (d_open d) (Read_exit copied) wait uncopied in
  reader_ok (set_reader_pc d next.1 next.2) r ∧ next.1 = d_open d.
Proof.
  intros Epc. pose proof (reading_not_ended _ Epc) as Hnd. destruct Hrd as [Hix Hoff Hgot Hpc Hpart Hstop Hend].
  rewrite Epc in Hgot, Hpc, Hpart. cbn in Hgot. cbn [read_step]. unfold read_return.
  destruct copied as [|x copied]; cbn; [|split; [|done]; split; cbn; rewrite ?Hnd, ?orb_false_r, ?app_nil_r; done].
  rewrite app_nil_r in Hgot.
  destruct (bool_decide (_ = BLOCK_DATA_END)); cbn; (split; [|done]); split; cbn; rewrite ?Hnd, ?orb_false_r, ?app_nil_r; try done.
  intros _ Hne Hf. destruct (Hpc eq_refl Hne) as (He & Hlast & Eo). split; [done|].
  rewrite (Hgot Hf). unfold block_data in *. destruct (d_log d !! r) as [data|] eqn:El; [|apply lookup_ge_None in El; lia].
  cbn in *. rewrite <-(take_drop_middle _ _ _ El) at 2. rewrite (drop_ge (d_log d)), concat_app, (take_ge data) by lia.
  cbn. by rewrite app_nil_r.
Qed.

Lemma reader_step_ok pc wait uncopied :
  d_reader d = Some pc →
  let next := read_step (d_open d) pc wait uncopied in
  ∃ r', ring_ok (set_reader_pc d next.1 next.2) r' a ∧ reader_ok (set_reader_pc d next.1 next.2) r'.
Proof.
  intros Epc. destruct pc as [count|count copied|count copied|count copied|copied|res].
  - destruct (wait_step_ok count wait uncopied Epc) as [H1 H2]. exists r. split; [|done]. apply ring_reader; by rewrite ?H2.
  - destruct (loop_step_ok count copied wait uncopied Epc) as [H1 H2]. exists r. split; [|done]. apply ring_reader; by rewrite ?H2.
  - destruct (copy_step_ok count copied wait uncopied Epc) as (H1 & H2 & H3 & H4). exists r. split; [|done]. by apply ring_reader.
  - destruct (after_step_ok count copied wait uncopied Epc). eauto.
  - destruct (exit_step_ok copied wait uncopied Epc) as [H1 H2]. exists r. split; [|done]. apply ring_reader; by rewrite ?H2.
  - pose proof (rd_pc _ _ Hrd) as Hpc. by rewrite Epc in Hpc.
Qed.

(** A call begins. *)
Lemma read_begins count :
  d_reader d = None → d_end d = false → (0 < count)%nat →
  ring_ok (set_reader_pc d (d_open d) (Read_wait count)) r a ∧ reader_ok (set_reader_pc d (d_open d) (Read_wait count)) r.
Proof.
  intros Epc Hnd Hc. split; [by apply ring_reader|]. destruct Hrd as [Hix Hoff Hgot Hpc Hpart Hstop Hend].
  rewrite Epc in Hgot, Hpart. split; cbn; rewrite ?Hnd; done.
Qed.
End reader_steps.

(** ** The interrupt *)

(** The reader does not see what the interrupt handler does to other blocks, and a block
    more changes nothing for it until it gets there. *)
Lemma reader_isr d d' r a :
  ring_ok d r a → reader_ok d r → nblocks d' = nblocks d →
  read_block_index (d_open d') = read_block_index (d_open d) → read_offset (d_open d') = read_offset (d_open d) →
  d_reader d' = d_reader d → d_got d' = d_got d → d_end d' = d_end d → d_failed d' = d_failed d →
  (d_log d' = d_log d ∧ ended d' = ended d ∨ ∃ data, d_log d' = d_log d ++ [data] ∧ ended d = false) → reader_ok d' r.
Proof.
  intros Hr [Hix Hoff Hgot Hpc Hpart Hstop Hend] Ec Ei Eo Er Eg Ee Ef Hlog. pose proof (ro_read _ _ _ Hr) as Hread.
  destruct Hlog as [[El Een]|(data & El & Een)].
  { split; unfold block_data in *; rewrite ?Ec, ?Ei, ?Eo, ?Er, ?Eg, ?Ee, ?Ef, ?El, ?Een; done. }
  assert (take r (d_log d') = take r (d_log d)) as Etake by (rewrite El, take_app_le by lia; done).
  assert (length (d_log d) < length (d_log d'))%nat as Hlen by (rewrite El, length_app; simpl; lia).
  destruct (decide (r < length (d_log d))%nat) as [Hlt|Hge].
  - assert (block_data d' r = block_data d r) as Eb by (unfold block_data; rewrite El, lookup_app_l by lia; done).
    rewrite Een in Hpart, Hpc, Hend. split; rewrite ?Ec, ?Ei, ?Eo, ?Er, ?Eg, ?Ee, ?Ef, ?Eb, ?Etake; try done.
    + destruct (d_reader d) as [[]|]; try done; try naive_solver lia. 
    + destruct (d_reader d) as [[]|]; try done; try naive_solver lia. 
    + naive_solver.
  - assert (block_data d r = []) as Eb0 by (unfold block_data; rewrite lookup_ge_None_2 by lia; done).
    rewrite Eb0 in Hoff, Hgot. simpl in Hoff. assert (read_offset (d_open d) = 0)%nat as E0 by lia.
    rewrite E0 in Hgot. rewrite Een in Hpc, Hend.
    split; rewrite ?Ec, ?Ei, ?Eo, ?Er, ?Eg, ?Ee, ?Ef, ?Etake, ?E0; try done; try lia.
    + destruct (d_reader d) as [[]|]; try done; naive_solver lia.
    + assert (0 < length (block_data d' r) ∨ block_data d' r = [])%nat as Hd by (destruct (block_data d' r); simpl; auto with lia).
      destruct (d_reader d) as [[]|]; auto.
    + naive_solver.
Qed.

Lemma at_updated d d' j b :
  (0 < nblocks d)%nat → blocks (d_open d') = <[slot d j := b]> (blocks (d_open d)) →
  nblocks d' = nblocks d ∧ at_ d' j = b ∧
  ∀ r k, (r ≤ j < r + nblocks d)%nat → (r ≤ k < r + nblocks d)%nat → k ≠ j → at_ d' k = at_ d k.
Proof.
  intros Hn Eb. assert (nblocks d' = nblocks d) as Ec by (unfold block_count; rewrite Eb; apply length_insert).
  split; [done|]. unfold at_. rewrite Ec, Eb. split; [apply list_lookup_total_insert_eq; by apply ring_slot_lt|].
  intros r k Hj Hk Hne. apply list_lookup_total_insert_ne. by apply (ring_slot_ne' _ r).
Qed.

(** The second buffer is assigned. *)
Lemma arm_second_ok d r a :
  ring_ok d r a → d_half d = true →
  ring_ok (mk_driver (start_hardware_second (d_open d)) (d_addresses d ++ [1%nat]) (d_isr d) false (d_log d)
    (d_reader d) (d_got d) (d_end d) (d_failed d)) r 2.
Proof.
  intros [Hn Hread Hass Hlive Hdata Hdma Hfree Hisr Haddr Hhalf Hfl Hended Hne] Eh.
  rewrite (Hhalf Eh) in *. set (d' := mk_driver _ _ _ _ _ _ _ _ _).
  assert (length (d_log d) ≤ received d)%nat as Hrec by (unfold received; destruct (idle d); lia).
  assert (slot d 1 = 1%nat) as E1 by (apply Nat.mod_small; lia).
  destruct (at_updated d d' 1 (mk_block (b_memory (blocks (d_open d) !!! 1%nat)) BLOCK_DMA (b_length (blocks (d_open d) !!! 1%nat))))
    as (Ec & Eat & Hother); [lia|by rewrite E1|].
  split; change (received d') with (received d) in *; change (ended d') with (ended d) in *; change (d_log d') with (d_log d) in *;
    change (stream_active (d_open d')) with (stream_active (d_open d)); change (isr_block_index (d_open d')) with (isr_block_index (d_open d));
    rewrite ?Ec; try done; try lia.
  - intros k data Hk Hd. pose proof (lookup_lt_Some _ _ _ Hd). rewrite (Hother r) by lia. by apply Hdata.
  - intros k Hk. destruct (decide (k = 1%nat)) as [->|]; [by rewrite Eat|]. rewrite (Hother r) by lia. apply Hdma. lia.
  - intros k Ha Hk. specialize (Hlive Ha). rewrite (Hother r) by lia. apply Hfree; [done|lia].
  - intros Ha. specialize (Hlive Ha). cbn [d_addresses d']. rewrite (Haddr Ha). assert (received d = 0)%nat as -> by lia.
    cbn. by rewrite E1.
  - change (d_isr d') with (d_isr d). unfold received, idle in *. destruct (d_isr d) as [|ix len data|ix data]; [done|..];
      cbn in Hass; rewrite (Hother r) by lia; done.
Qed.

(** The length of the block handed over is stored. *)
Lemma isr_length_ok d r a ix length_ data :
  ring_ok d r a → d_isr d = Isr_received ix length_ data →
  ring_ok (set_isr_pc d (receive_length (d_open d) ix length_) (d_addresses d) (Isr_length ix data) (d_log d)) r a.
Proof.
  intros [Hn Hread Hass Hlive Hdata Hdma Hfree Hisr Haddr Hhalf Hfl Hended Hne] Epc.
  set (d' := set_isr_pc _ _ _ _ _). rewrite Epc in Hfl. destruct Hfl as (Eix & Elen & Emem & Hempty). set (n := length (d_log d)) in *.
  assert (idle d = false) as Ei by (unfold idle; by rewrite Epc). assert (received d = S n) as Erec by (unfold received; by rewrite Ei).
  assert (received d' = received d) as Erec' by (by rewrite Erec).
  assert (ended d' = ended d) as Een by (transitivity false; [apply andb_false_r|unfold ended; by rewrite Ei, andb_false_r]).
  rewrite Erec in *. destruct (at_updated d d' n (mk_block (b_memory (at_ d n)) (b_state (at_ d n)) length_)) as (Ec & Eat & Hother);
    [lia|by unfold d'; rewrite Eix|].
  split; rewrite ?Erec', ?Een; change (d_log d') with (d_log d) in *; fold n;
    change (stream_active (d_open d')) with (stream_active (d_open d)); change (isr_block_index (d_open d')) with (isr_block_index (d_open d));
    rewrite ?Ec; try done; try lia.
  - intros k x Hk Hd. pose proof (lookup_lt_Some _ _ _ Hd). rewrite (Hother r) by lia. by apply Hdata.
  - intros k Hk. destruct (decide (k = n)) as [->|]; [rewrite Eat; apply Hdma; lia|]. rewrite (Hother r) by lia. apply Hdma. lia.
  - intros k Ha Hk. specialize (Hlive Ha). rewrite (Hother r) by lia. by apply Hfree.
  - cbn [d_isr d' set_isr_pc]. rewrite Eat. split_and!; [done|by rewrite Elen|done].
Qed.

(** The block is handed over. *)
Lemma isr_state_ok d r a ix data :
  ring_ok d r a → d_isr d = Isr_length ix data →
  ring_ok (set_isr_pc d (receive_state (d_open d) ix) (d_addresses d) Isr_idle (d_log d ++ [data])) r a.
Proof.
  intros [Hn Hread Hass Hlive Hdata Hdma Hfree Hisr Haddr Hhalf Hfl Hended Hne] Epc.
  set (d' := set_isr_pc _ _ _ _ _). rewrite Epc in Hfl. destruct Hfl as (Eix & Hh & Hempty). set (n := length (d_log d)) in *.
  assert (idle d = false) as Ei by (unfold idle; by rewrite Epc). assert (received d = S n) as Erec by (unfold received; by rewrite Ei).
  assert (length (d_log d') = S n) as Elen by (cbn; rewrite length_app; cbn; unfold n; lia).
  assert (received d' = S n) as Erec' by done. assert (ended d = false) as Een by (unfold ended; by rewrite Ei, andb_false_r).
  assert (ended d' = negb (stream_active (d_open d))) as Een' by apply andb_true_r.
  rewrite Erec, Een in *.
  destruct (at_updated d d' n (mk_block (b_memory (at_ d n)) (if stream_active (d_open d) then BLOCK_DATA else BLOCK_DATA_END)
    (b_length (at_ d n)))) as (Ec & Eat & Hother); [lia|by unfold d'; rewrite Eix|].
  split; rewrite ?Erec', ?Een', ?Elen; change (stream_active (d_open d')) with (stream_active (d_open d));
    change (isr_block_index (d_open d')) with (isr_block_index (d_open d)); rewrite ?Ec; try done; try lia.
  - intros k x Hk Hd. cbn [d_log d' set_isr_pc] in Hd. destruct (decide (k = n)) as [->|].
    + rewrite lookup_app_r, Nat.sub_diag in Hd by done. injection Hd as <-. rewrite Eat. split; [by destruct Hh; split|].
      rewrite bool_decide_true by done. cbn. by destruct (stream_active (d_open d)).
    + pose proof (lookup_lt_Some _ _ _ Hd) as Hlt. rewrite length_app in Hlt. cbn in Hlt. fold n in Hlt.
      rewrite lookup_app_l in Hd by (fold n; lia). rewrite (Hother r) by lia.
      rewrite (bool_decide_false (S k = S n)), andb_false_r by lia. by apply Hdata.
  - intros k Hk. rewrite (Hother r) by lia. apply Hdma. lia.
  - intros k Ha Hk. specialize (Hlive Ha). rewrite (Hother r) by lia. by apply Hfree.
  - intros k x Heb Hd. cbn [d_log d' set_isr_pc] in Hd. destruct (decide (k < n)%nat) as [Hlt|].
    + rewrite lookup_app_l in Hd by done. by destruct (Hne k x Heb Hd) as [|[]]; [left|].
    + pose proof (lookup_lt_Some _ _ _ Hd) as Hlt. rewrite length_app in Hlt. cbn in Hlt. fold n in Hlt.
      assert (k = n) as -> by lia. rewrite lookup_app_r, Nat.sub_diag in Hd by done. injection Hd as <-.
      destruct Hempty as [E|[E|E]]; [congruence|by left|right; by rewrite E].
Qed.

(** What the engine writes is not yet the reader's. *)
Lemma dma_write_ok d r a data :
  ring_ok d r a → d_isr d = Isr_idle → stream_active (d_open d) = true →
  ring_ok (set_isr_pc d (dma_write (d_open d) (slot d (length (d_log d))) data) (d_addresses d) Isr_idle (d_log d)) r a.
Proof.
  intros [Hn Hread Hass Hlive Hdata Hdma Hfree Hisr Haddr Hhalf Hfl Hended Hne] Epc Hact.
  set (d' := set_isr_pc _ _ _ _ _). set (n := length (d_log d)) in *.
  assert (idle d = true) as Ei by (unfold idle; by rewrite Epc). assert (received d = n) as Erec by (unfold received; by rewrite Ei).
  assert (received d' = n) as Erec' by done. assert (ended d = false) as Een by (unfold ended; by rewrite Hact).
  assert (ended d' = false) as Een' by (unfold ended; cbn; by rewrite Hact). specialize (Hlive Hact). rewrite Erec, Een in *.
  destruct (at_updated d d' n (mk_block (data ++ drop (length data) (b_memory (at_ d n))) (b_state (at_ d n)) (b_length (at_ d n))))
    as (Ec & Eat & Hother); [lia|done|].
  split; rewrite ?Erec', ?Een'; change (d_log d') with (d_log d) in *; fold n;
    change (stream_active (d_open d')) with (stream_active (d_open d)); change (isr_block_index (d_open d')) with (isr_block_index (d_open d));
    rewrite ?Ec; try done; try lia.
  - intros k x Hk Hd. pose proof (lookup_lt_Some _ _ _ Hd). rewrite (Hother r) by lia. by apply Hdata.
  - intros k Hk. destruct (decide (k = n)) as [->|]; [rewrite Eat; apply Hdma; lia|]. rewrite (Hother r) by lia. apply Hdma. lia.
  - intros k _ Hk. rewrite (Hother r) by lia. by apply Hfree.
Qed.

(** What [stream_isr] does when a block is complete. *)
Record isr_result (status : Z) (o o' : stream_open) (assigned : option nat) (received : nat * nat) : Prop := {
  ir_received : received = (isr_block_index o, IRQ_STATUS_LENGTH status);
  ir_active : stream_active o' = negb (IRQ_STATUS_DONE status);
  ir_reader : read_block_index o' = read_block_index o ∧ read_offset o' = read_offset o;
  ir_next :
    let ix := step_index (block_count o) (isr_block_index o) in let next := step_index (block_count o) ix in
    if IRQ_STATUS_DONE status then blocks o' = blocks o ∧ assigned = None
    else isr_block_index o' = ix ∧
      if bool_decide (b_state (blocks o !!! next) = BLOCK_FREE)
      then blocks o' = <[next := mk_block (b_memory (blocks o !!! next)) BLOCK_DMA (b_length (blocks o !!! next))]> (blocks o) ∧
           assigned = Some next
      else blocks o' = blocks o ∧ assigned = None
}.
Lemma stream_isr_result status now o o' assigned received :
  stream_active o = true → IRQ_STATUS_NEW_BUFFER status = true →
  stream_isr status now o = (o', assigned, Some received) → isr_result status o o' assigned received.
Proof.
  intros Ha Hnew. unfold stream_isr, advance_isr_block. rewrite Ha, Hnew.
  destruct (IRQ_STATUS_START_EVENT status); destruct (IRQ_STATUS_DONE status) eqn:Ed; cbn; rewrite ?Ha.
  all: try (destruct (bool_decide _) eqn:Ef in |- * ).
  all: cbn; intros [= <- <- <-]; split; cbn; rewrite ?Ed; try done.
  all: unfold block_count in *; cbn in *; by rewrite Ef.
Qed.

(** The block two ahead is free only if the reader has been there. *)
Lemma free_ahead d r a :
  ring_ok d r a → stream_active (d_open d) = true → d_isr d = Isr_idle → a = S (S (length (d_log d))) →
  b_state (at_ d a) = BLOCK_FREE → (a < r + nblocks d)%nat.
Proof.
  intros Hr Hact Epc Ea Hst. pose proof (ro_assigned _ _ _ Hr) as [_ Hle].
  destruct (decide (a = r + nblocks d)%nat) as [E|]; [exfalso|lia].
  assert (at_ d a = at_ d r) as Eat.
  { unfold at_. f_equal. rewrite E, <-(Nat.Div0.mod_add r 1 (nblocks d)). f_equal. lia. }
  rewrite Eat in Hst. destruct (decide (r < length (d_log d))%nat) as [Hlt|].
  - destruct (d_log d !! r) as [data|] eqn:El; [|apply lookup_ge_None in El; lia].
    destruct (ro_data _ _ _ Hr r data (le_n r) El) as [_ Hd]. rewrite Hst in Hd. by destruct (_ && _).
  - pose proof (ro_read _ _ _ Hr). rewrite (ro_dma _ _ _ Hr r) in Hst by lia. done.
Qed.

(** The interrupt of a block that is complete. *)
Lemma interrupt_ok d r a ix rest data status o assigned received :
  ring_ok d r a → d_isr d = Isr_idle → stream_active (d_open d) = true → d_addresses d = ix :: rest →
  length data = IRQ_STATUS_LENGTH status → take (length data) (b_memory (at_ d (length (d_log d)))) = data →
  IRQ_STATUS_DONE status = true ∨ rest ≠ [] → IRQ_STATUS_DONE status = true ∨ data ≠ [] ∨ empty_blocks = true →
  isr_result status (d_open d) o assigned received →
  ∃ a', ring_ok (set_isr_pc d o (rest ++ option_list assigned) (Isr_received received.1 received.2 data) (d_log d)) r a'.
Proof.
  intros Hr Epc Hact Eaddr Elen Emem Hrest Hempty [-> Eact _ Hnext].
  pose proof Hr as [Hn Hread Hass Hlive Hdata Hdma Hfree Hisr Haddr Hhalf Hfl Hended Hne].
  set (d' := set_isr_pc _ _ _ _ _). set (n := length (d_log d)) in *.
  assert (idle d = true) as Ei by (unfold idle; by rewrite Epc). assert (received d = n) as Erec by (unfold received; by rewrite Ei).
  assert (received d' = S n) as Erec' by done. assert (ended d = false) as Een by (unfold ended; by rewrite Hact).
  assert (ended d' = false) as Een' by apply andb_false_r. specialize (Hlive Hact). specialize (Haddr Hact).
  rewrite Erec, Een in *. pose proof (Hisr Hact) as Eisr. rewrite Eisr in Hnext. cbv zeta in Hnext. rewrite !step_index_slot in Hnext by lia.
  assert (rest = (λ k, slot d k) <$> seq (S n) (a - S n)) as Erest.
  { rewrite Eaddr in Haddr. replace (a - n)%nat with (S (a - S n)) in Haddr by lia. by injection Haddr. }
  assert (IRQ_STATUS_DONE status = false → a = S (S n)) as Ea.
  { intros E. destruct Hrest as [|Hrest]; [congruence|]. destruct (decide (a = S n)) as [->|]; [|lia].
    destruct Hrest. by rewrite Erest, Nat.sub_diag. }
  assert (∀ a', (S n ≤ a' ≤ r + nblocks d)%nat → (stream_active o = true → (S n < a' ≤ S n + 2)%nat) →
    nblocks d' = nblocks d → at_ d' n = at_ d n →
    (∀ k, (r ≤ k < n)%nat → at_ d' k = at_ d k) → (∀ k, (n ≤ k < a')%nat → b_state (at_ d' k) = BLOCK_DMA) →
    (stream_active o = true → ∀ k, (a' ≤ k < r + nblocks d)%nat → b_state (at_ d' k) = BLOCK_FREE) →
    (stream_active o = true → isr_block_index o = slot d (S n)) →
    (stream_active o = true → rest ++ option_list assigned = (λ k, slot d k) <$> seq (S n) (a' - S n)) →
    (d_half d = true → a' = 1%nat) → ring_ok d' r a') as Hcase.
  { intros a' Ha Hl Ec Eat Hold Hd Hf Hi Had Hh.
    split; rewrite ?Erec', ?Een'; change (d_log d') with (d_log d) in *; fold n; change (d_open d') with o in *; rewrite ?Ec; try done.
    - intros k x Hk Hx. pose proof (lookup_lt_Some _ _ _ Hx). rewrite Hold by done. by apply Hdata.
    - intros k E Hk. by apply Hf.
    - cbn [d_isr d' set_isr_pc fst snd]. rewrite Eat, Eact. split_and!; [done..|]. destruct (IRQ_STATUS_DONE status); naive_solver. }
  destruct (IRQ_STATUS_DONE status) eqn:Edone.
  - destruct Hnext as [Eb ->]. assert (nblocks d' = nblocks d) as Ec by (unfold block_count; cbn; by rewrite Eb).
    assert (∀ k, at_ d' k = at_ d k) as Eat by (intros; unfold at_; rewrite Ec; cbn; by rewrite Eb).
    exists a. apply Hcase; rewrite ?Eact; try done; try lia. intros k Hk. rewrite Eat. by apply Hdma.
  - specialize (Ea eq_refl). subst a. destruct Hnext as [Eix Hnext]. destruct (bool_decide _) eqn:Ef.
    + apply bool_decide_eq_true in Ef. destruct Hnext as [Eb ->].
      pose proof (free_ahead d r _ Hr Hact Epc eq_refl Ef) as Hroom.
      destruct (at_updated d d' (S (S n)) _ ltac:(lia) Eb) as (Ec & Eat & Hother).
      exists (S (S (S n))). apply Hcase; rewrite ?Eact; try done; try lia.
      * apply (Hother r); lia.
      * intros k Hk. apply (Hother r); lia.
      * intros k Hk. destruct (decide (k = S (S n))) as [->|]; [by rewrite Eat|]. rewrite (Hother r) by lia. apply Hdma. lia.
      * intros _ k Hk. rewrite (Hother r) by lia. apply Hfree; [done|lia].
      * intros _. rewrite Erest. replace (S (S n) - S n)%nat with 1%nat by lia. by replace (S (S (S n)) - S n)%nat with 2%nat by lia.
      * intros E. specialize (Hhalf E). lia.
    + destruct Hnext as [Eb ->]. assert (nblocks d' = nblocks d) as Ec by (unfold block_count; cbn; by rewrite Eb).
      assert (∀ k, at_ d' k = at_ d k) as Eat by (intros; unfold at_; rewrite Ec; cbn; by rewrite Eb).
      exists (S (S n)). apply Hcase; rewrite ?Eact; try done; try lia.
      * intros k Hk. rewrite Eat. by apply Hdma.
      * intros _ k Hk. rewrite Eat. by apply Hfree.
      * intros _. cbn [option_list]. by rewrite app_nil_r.
Qed.

(** ** The interrupt as a step *)

Lemma dma_write_at d r a ix rest data :
  ring_ok d r a → d_isr d = Isr_idle → stream_active (d_open d) = true → d_addresses d = ix :: rest →
  ix = slot d (length (d_log d)) ∧
  (∀ d', d_open d' = dma_write (d_open d) ix data → take (length data) (b_memory (at_ d' (length (d_log d)))) = data).
Proof.
  intros Hr Ei Hact Eaddr. pose proof (ro_count _ _ _ Hr) as Hn. pose proof (ro_live _ _ _ Hr Hact) as Hl.
  pose proof (ro_addresses _ _ _ Hr Hact) as Ha. rewrite Eaddr in Ha. unfold received, idle in *. rewrite Ei in *.
  assert (ix = slot d (length (d_log d))) as ->.
  { replace (a - length (d_log d))%nat with (S (a - S (length (d_log d)))) in Ha by lia. by injection Ha. }
  split; [done|]. intros d' Eo. unfold at_. rewrite Eo. unfold dma_write. rewrite set_block_count, set_block_at; [|apply ring_slot_lt; lia].
  cbn. by rewrite take_app_length.
Qed.

Lemma interrupt_step_ok d r a ix rest data status now o assigned received :
  ring_ok d r a → reader_ok d r → d_isr d = Isr_idle → stream_active (d_open d) = true → d_addresses d = ix :: rest →
  length data = IRQ_STATUS_LENGTH status → IRQ_STATUS_DONE status = true ∨ rest ≠ [] →
  IRQ_STATUS_DONE status = true ∨ data ≠ [] ∨ empty_blocks = true → IRQ_STATUS_NEW_BUFFER status = true →
  stream_isr status now (dma_write (d_open d) ix data) = (o, assigned, Some received) →
  let d' := set_isr_pc d o (rest ++ option_list assigned) (Isr_received received.1 received.2 data) (d_log d) in
  ∃ r' a', ring_ok d' r' a' ∧ reader_ok d' r'.
Proof.
  intros Hr Hrd Ei Hact Eaddr Elen Hrest Hempty Hnew Ho d'.
  destruct (dma_write_at d r a ix rest data Hr Ei Hact Eaddr) as [-> Hmem].
  pose proof (dma_write_ok d r a data Hr Ei Hact) as Hr1. set (d1 := set_isr_pc _ (dma_write _ _ _) _ _ _) in *.
  apply (stream_isr_result status now (d_open d1)) in Ho; [|done..].
  pose proof (ir_reader _ _ _ _ _ Ho) as [Eri Ero]. 
  destruct (interrupt_ok d1 r a (slot d (length (d_log d))) rest data status o assigned received) as [a' Hr']; try done; [by apply Hmem|].
  exists r, a'. split; [exact Hr'|].
  assert (nblocks d' = nblocks d) as Ec.
  { transitivity (nblocks d1); [|apply (set_block_count (d_open d))]. destruct Ho as [_ _ _ Hnext]. unfold block_count in *. cbn in Hnext.
    change (d_open d') with o.
    destruct (IRQ_STATUS_DONE status); [by destruct Hnext as [-> _]|]. destruct Hnext as [_ Hnext].
    destruct (bool_decide _); destruct Hnext as [E _]; rewrite E; [apply length_insert|done]. }
  apply (reader_isr d _ r a); try done. left. split; [done|]. unfold ended, idle. cbn. by rewrite Hact, Ei, andb_false_r.
Qed.

(** ** Every step *)

Lemma start_event_same status now o o' :
  IRQ_STATUS_NEW_BUFFER status = false → stream_isr status now o = (o', None, None) →
  blocks o' = blocks o ∧ isr_block_index o' = isr_block_index o ∧ stream_active o' = stream_active o ∧
  read_block_index o' = read_block_index o ∧ read_offset o' = read_offset o.
Proof.
  intros Hn. unfold stream_isr. rewrite Hn. destruct (stream_active o) eqn:E; [destruct (IRQ_STATUS_START_EVENT status)|];
    intros [= <-]; by rewrite ?E.
Qed.

(** Arming starts the ring afresh. *)
Lemma arm_ok d d' :
  (2 ≤ nblocks d)%nat → d' = mk_driver (start_hardware (d_open d)) [0%nat] Isr_idle true [] None [] false false →
  ring_ok d' 0 1 ∧ reader_ok d' 0.
Proof.
  intros Hn ->. set (d' := mk_driver _ _ _ _ _ _ _ _ _).
  assert (nblocks d' = nblocks d) as Ec by (unfold block_count; cbn; by rewrite length_insert, length_fmap).
  assert (∀ k, (k < nblocks d)%nat → b_state (at_ d' k) = if bool_decide (k = 0)%nat then BLOCK_DMA else BLOCK_FREE) as Hst.
  { intros k Hk. unfold at_. rewrite Ec, Nat.mod_small by done. unfold block_count in Hk.
    cbn. unfold set_state, set_block. cbn. destruct (bool_decide (k = 0)%nat) eqn:E.
    - apply bool_decide_eq_true in E as ->. rewrite list_lookup_total_insert_eq by (rewrite length_fmap; done). done.
    - apply bool_decide_eq_false in E. rewrite list_lookup_total_insert_ne by done.
      rewrite list_lookup_total_alt, list_lookup_fmap.
      destruct (blocks (d_open d) !! k) eqn:El; [done|apply lookup_ge_None in El; lia]. }
  split; split; rewrite ?Ec; cbn -[at_ Nat.modulo]; rewrite ?Ec; try done; try lia.
  - intros k Hk. assert (k = 0)%nat as -> by lia. rewrite Hst by lia. done.
  - intros k _ Hk. rewrite Hst, bool_decide_false by lia. done.
  - intros _. by rewrite Nat.mod_small by lia.
  - intros _. by rewrite Nat.mod_small by lia.
  - by rewrite Nat.mod_small by lia.
Qed.

Lemma unarmed_step d d' : step d d' → unarmed d → unarmed d' ∨ ∃ r a, ring_ok d' r a ∧ reader_ok d' r.
Proof.
  intros Hs Hu. pose proof Hu as [Hn Hina Hisr Hhalf Hlog Hgot Hend Hfree Hrd].
  destruct Hs as [d _ _ _|d Eh|d status now o _ Hnew Ho|d ? ? ? ? ? ? ? ? _ Hact|d ? ? ? Ei|d ? ? Ei|d count Er _ Hc|d pc wait uncopied Er].
  - right. exists 0%nat, 1%nat. by apply (arm_ok d).
  - congruence.
  - left. unfold stream_isr in Ho. rewrite Hina in Ho. injection Ho as <-. by split.
  - congruence.
  - congruence.
  - congruence.
  - left. by split.
  - left. rewrite Er in Hrd. destruct pc as [count| | | | |]; try done. cbn [read_step]. rewrite Hfree.
    destruct wait; cbn; split; cbn; rewrite ?app_nil_r, ?orb_false_r; done.
Qed.

Lemma ring_step d d' r a : step d d' → ring_ok d r a → reader_ok d r → ∃ r' a', ring_ok d' r' a' ∧ reader_ok d' r'.
Proof.
  intros Hs Hr Hrd.
  destruct Hs as [d _ _ _|d Eh|d status now o Ei Hnew Ho|d ix rest data status now o assigned received Ei Hact Eaddr Elen Hfit Hrest
    Hempty Hnew Ho|d ix len data Ei|d ix data Ei|d count Er He Hc|d pc wait uncopied Er].
  - exists 0%nat, 1%nat. apply (arm_ok d); [apply Hr|done].
  - exists r, 2%nat. pose proof (arm_second_ok _ _ _ Hr Eh) as Hr'. split; [done|].
    apply (reader_isr d _ r a); try done; [apply (set_block_count (d_open d))|left; done].
  - destruct (start_event_same _ _ _ _ Hnew Ho) as (Eb & Ex & Ea & Eri & Ero). exists r, a. split; [by apply (ring_same d)|].
    apply (reader_isr d _ r a); try done; [unfold block_count; cbn; by rewrite Eb|].
    left. split; [done|]. unfold ended, idle. cbn. by rewrite Ea, Ei.
  - by apply (interrupt_step_ok d r a ix rest data status now o assigned received).
  - exists r, a. split; [by apply isr_length_ok|]. apply (reader_isr d _ r a); try done; [apply (set_block_count (d_open d))|].
    left. split; [done|]. unfold ended, idle. cbn. by rewrite Ei.
  - exists r, a. split; [by apply isr_state_ok|]. apply (reader_isr d _ r a); try done; [apply (set_block_count (d_open d))|].
    right. exists data. split; [done|]. unfold ended, idle. by rewrite Ei, andb_false_r.
  - exists r, a. by apply read_begins.
  - destruct (reader_step_ok d r a Hr Hrd pc wait uncopied Er) as (r' & ? & ?). by exists r', a.
Qed.

Theorem stream_inv d : reachable d → inv d.
Proof.
  intros (d0 & Hi & Hsteps). assert (inv d0) as H0.
  { left. destruct Hi as [memory Hm]. split; cbn; try done; [unfold block_count; cbn; by rewrite length_fmap|].
    destruct memory; [simpl in Hm; lia|done]. }
  clear Hi. induction Hsteps as [|d0 d1 d2 Hs _ IH]; [done|]. apply IH. destruct H0 as [Hu|(r & a & Hr & Hrd)].
  - by apply (unarmed_step d0).
  - right. by apply (ring_step d0 d1 r a).
Qed.

(** ** What the reader gets *)

Lemma reader_prefix d r a :
  ring_ok d r a → reader_ok d r → d_failed d = false → (d_got d ++ copied_of (d_reader d)) `prefix_of` concat (d_log d).
Proof.
  intros Hr Hrd Hf. rewrite (rd_got _ _ Hrd Hf). rewrite <-(take_drop r (d_log d)) at 2. rewrite concat_app.
  apply prefix_app. unfold block_data. destruct (d_log d !! r) as [data|] eqn:El.
  - rewrite (drop_S _ _ _ El). cbn. apply prefix_app_r, prefix_take.
  - cbn. rewrite take_nil. apply prefix_nil.
Qed.

(** What the server has got, and the end. *)
Lemma stream_delivered d : reachable d → d_failed d = false →
  d_got d `prefix_of` concat (d_log d) ∧
  (empty_blocks = false → d_end d = true → stream_active (d_open d) = false ∧ d_got d = concat (d_log d)).
Proof.
  intros Hr Hf. destruct (stream_inv d Hr) as [Hu|(r & a & Hring & Hrd)].
  - destruct Hu as [_ Ha _ _ Hlog Hgot Hend _ _]. rewrite Hgot, Hend. split; [apply prefix_nil|done].
  - split; [etransitivity; [apply prefix_app_r; reflexivity|by apply (reader_prefix d r a)]|].
    intros Hne He. destruct (rd_end _ _ Hrd He Hne Hf) as [Hended Hgot]. split; [|done].
    apply andb_prop in Hended as [Ha _]. by apply negb_true_iff.
Qed.

(** C22: What the engine is given is never a block the reader has not done with: every
    block it has still to fill is marked as its own, and none of them holds data. *)
Theorem engine_owns_blocks d ix :
  reachable d → stream_active (d_open d) = true → ix ∈ d_addresses d → d_isr d = Isr_idle →
  b_state (blocks (d_open d) !!! ix) = BLOCK_DMA ∧ (ix < nblocks d)%nat ∧ NoDup (d_addresses d) ∧ (length (d_addresses d) ≤ 2)%nat.
Proof.
  intros Hr Ha Hin Ei. destruct (stream_inv d Hr) as [Hu|(r & a & Hring & _)]; [by rewrite (ua_inactive _ Hu) in Ha|].
  pose proof (ro_live _ _ _ Hring Ha) as Hl. pose proof (ro_assigned _ _ _ Hring) as Hass. pose proof (ro_count _ _ _ Hring).
  pose proof (ro_read _ _ _ Hring). rewrite (ro_addresses _ _ _ Hring Ha) in *.
  assert (length (d_log d) = received d)%nat as En by (unfold received, idle; by rewrite Ei).
  apply list_elem_of_fmap in Hin as (k & -> & Hk%elem_of_seq). split_and!.
  - apply (ro_dma _ _ _ Hring). lia.
  - apply ring_slot_lt. lia.
  - apply NoDup_fmap_2_strong; [|apply NoDup_seq]. intros i j Hi%elem_of_seq Hj%elem_of_seq E.
    destruct (decide (i = j)) as [|Hne]; [done|]. by destruct (ring_slot_ne' (nblocks d) r i j ltac:(lia) ltac:(lia) Hne).
  - rewrite length_fmap, length_seq. lia.
Qed.

(** ** The reader gets to the end *)

(** What is left to read. *)
Definition remaining (d : driver) (r : nat) : list Z := drop (read_offset (d_open d)) (block_data d r) ++ concat (drop (S r) (d_log d)).

(** After the last transfer, with the reader at block [r]. *)
Record draining (d : driver) (r a : nat) (pc : option read_pc) : Prop := {
  dr_ring : ring_ok d r a;
  dr_reader : reader_ok d r;
  dr_ended : ended d = true;
  dr_failed : d_failed d = false;
  dr_pc : d_reader d = pc;
}.
Definition all_read (d : driver) (r : nat) : Prop := S r = length (d_log d) ∧ read_offset (d_open d) = length (block_data d r).
Lemma draining_lt d r a pc : draining d r a pc → (r < length (d_log d))%nat.
Proof. intros H. apply (ro_ended _ _ _ (dr_ring _ _ _ _ H)), (dr_ended _ _ _ _ H). Qed.
Lemma draining_block d r a pc :
  draining d r a pc → holds (current (d_open d)) (block_data d r) ∧
  b_state (current (d_open d)) = if bool_decide (S r = length (d_log d)) then BLOCK_DATA_END else BLOCK_DATA.
Proof.
  intros H. destruct (reader_block d r a (dr_ring _ _ _ _ H) (dr_reader _ _ _ _ H)) as [Hh Hst]; [by apply (draining_lt _ _ a pc)|].
  by rewrite (dr_ended _ _ _ _ H) in Hst.
Qed.
Lemma remaining_all d r a pc : draining d r a pc → all_read d r → remaining d r = [].
Proof. intros H [Hl Ho]. unfold remaining. by rewrite Ho, drop_all, Hl, drop_all. Qed.

Lemma read_loop_step d r a count copied :
  draining d r a (Some (Read_loop count copied)) → (0 < count)%nat →
  let d' := set_reader_pc d (d_open d) (Read_copy count copied) in
  step d d' ∧ draining d' r a (Some (Read_copy count copied)) ∧ d_open d' = d_open d ∧ d_log d' = d_log d.
Proof.
  intros H Hc d'. pose proof (dr_pc _ _ _ _ H) as Epc.
  assert (read_step (d_open d) (Read_loop count copied) Wait_more 0 = (d_open d, Read_copy count copied)) as E.
  { destruct (draining_block _ _ _ _ H) as [_ Hst]. cbn [read_step].
    rewrite (bool_decide_true (0 < count)%nat), (bool_decide_true (_ ≠ BLOCK_DMA)) by (done || (rewrite Hst; by case_bool_decide)). done. }
  pose proof (step_reader d _ Wait_more 0%nat Epc) as Hs. rewrite E in Hs.
  destruct (loop_step_ok d r a (dr_ring _ _ _ _ H) (dr_reader _ _ _ _ H) count copied Wait_more 0%nat Epc) as [Hrd _]. rewrite E in Hrd.
  split_and!; [exact Hs| |done..]. split; [apply ring_reader; [done..|exact (dr_ring _ _ _ _ H)]|exact Hrd|exact (dr_ended _ _ _ _ H)|exact (dr_failed _ _ _ _ H)|done].
Qed.

Lemma read_copy_step d r a count copied :
  draining d r a (Some (Read_copy count copied)) → (length (remaining d r) < count)%nat →
  let data := drop (read_offset (d_open d)) (block_data d r) in
  let pc := Read_after (count - length data) (copied ++ data) in
  ∃ d', step d d' ∧ draining d' r a (Some pc) ∧ read_offset (d_open d') = length (block_data d r) ∧ d_log d' = d_log d.
Proof.
  intros H Hc data pc. pose proof (dr_pc _ _ _ _ H) as Epc. destruct (draining_block _ _ _ _ H) as [Hh _].
  pose proof (rd_offset _ _ (dr_reader _ _ _ _ H)) as Hoff. unfold remaining in Hc. rewrite length_app, length_drop in Hc.
  assert (∃ o, read_step (d_open d) (Read_copy count copied) Wait_more 0 = (o, pc) ∧ read_offset o = length (block_data d r)) as (o & E & Eo).
  { cbn [read_step]. unfold read_one_block. rewrite (h_length _ _ Hh). case_bool_decide as Hm.
    - rewrite (Nat.min_l _ count), Nat.sub_0_r by lia. rewrite bool_decide_false by lia. eexists. cbn [read_offset set_reader].
      rewrite (holds_read _ _ _ _ Hh) by lia. rewrite take_ge by (rewrite length_drop; lia). split; [reflexivity|cbn; lia].
    - assert (data = []) as Ed by (apply drop_ge; lia). unfold pc. rewrite Ed. eexists. split; [reflexivity|lia]. }
  pose proof (step_reader d _ Wait_more 0%nat Epc) as Hs. rewrite E in Hs. exists (set_reader_pc d o pc).
  destruct (copy_step_ok d r a (dr_ring _ _ _ _ H) (dr_reader _ _ _ _ H) count copied Wait_more 0%nat Epc) as (Hrd & E1 & E2 & E3).
  rewrite E in *. cbn [fst snd] in *. split_and!; [exact Hs| |done..].
  split; [apply ring_reader; [done..|exact (dr_ring _ _ _ _ H)]|exact Hrd| |exact (dr_failed _ _ _ _ H)|done].
  pose proof (dr_ended _ _ _ _ H) as He. unfold ended in *. cbn. by rewrite E3.
Qed.

Lemma read_after_step d r a count copied :
  draining d r a (Some (Read_after count copied)) → read_offset (d_open d) = length (block_data d r) →
  ∃ d', step d d' ∧ d_log d' = d_log d ∧
    if bool_decide (S r = length (d_log d)) then draining d' r a (Some (Read_exit copied)) ∧ all_read d' r
    else draining d' (S r) a (Some (Read_loop count copied)) ∧ read_offset (d_open d') = 0%nat.
Proof.
  intros H Ho. pose proof (dr_pc _ _ _ _ H) as Epc. pose proof (dr_ended _ _ _ _ H) as He.
  destruct (draining_block _ _ _ _ H) as [Hh Hst].
  pose proof (step_reader d _ Wait_more 0%nat Epc) as Hs. 
  pose proof (after_step_ok d r a (dr_ring _ _ _ _ H) (dr_reader _ _ _ _ H) count copied Wait_more 0%nat Epc) as Hok.
  cbv zeta in Hok. rewrite (bool_decide_true (_ ≤ read_offset _)%nat), He in Hok by lia. cbn [andb] in Hok.
  cbn [read_step] in *. rewrite (h_length _ _ Hh), bool_decide_true in Hs, Hok by lia. rewrite Hst in Hs, Hok.
  destruct (bool_decide (S r = length (d_log d))) eqn:El; cbn in Hs, Hok; eexists; (split; [exact Hs|]); (split; [done|]).
  - apply bool_decide_eq_true in El. split; [split; [apply Hok..|done|exact (dr_failed _ _ _ _ H)|done]|by split].
  - split; [split; [apply Hok..|done|exact (dr_failed _ _ _ _ H)|done]|done].
Qed.

Lemma remaining_next d d' r :
  d_log d' = d_log d → read_offset (d_open d') = 0%nat →
  remaining d r = drop (read_offset (d_open d)) (block_data d r) ++ remaining d' (S r).
Proof.
  intros El Eo. unfold remaining, block_data. rewrite El, Eo, drop_0. f_equal.
  destruct (d_log d !! S r) as [data|] eqn:E; [by rewrite (drop_S _ _ _ E)|].
  apply lookup_ge_None in E. by rewrite !drop_ge by lia.
Qed.

(** The loop takes all that is left, when there is room for more. *)
Lemma drain_loop d r a count copied :
  draining d r a (Some (Read_loop count copied)) → (length (remaining d r) < count)%nat →
  ∃ d' r', rtc step d d' ∧ draining d' r' a (Some (Read_exit (copied ++ remaining d r))) ∧ all_read d' r' ∧ d_log d' = d_log d.
Proof.
  remember (length (d_log d) - r)%nat as m eqn:Em. revert d r count copied Em.
  induction m as [|m IH]; intros d r count copied Em H Hc; pose proof (draining_lt _ _ _ _ H) as Hlt; [lia|].
  destruct (read_loop_step _ _ _ _ _ H ltac:(lia)) as (Hs1 & H1 & Eo1 & El1). set (d1 := set_reader_pc _ _ _) in *.
  destruct (read_copy_step d1 r a count copied H1) as (d2 & Hs2 & H2 & Ho2 & El2); [done|].
  destruct (read_after_step d2 r a _ _ H2) as (d3 & Hs3 & El3 & H3); [by rewrite Ho2; unfold block_data; rewrite El2|].
  assert (rtc step d d3) as Hs by (eapply rtc_l, rtc_l, rtc_once; eauto). rewrite El2, El1 in *.
  change (block_data d1 r) with (block_data d r) in *. change (d_open d1) with (d_open d) in *.
  destruct (bool_decide _) eqn:Elast in H3; destruct H3 as [H3 Ho3].
  - apply bool_decide_eq_true in Elast. exists d3, r. split_and!; [done| |done..].
    replace (remaining d r) with (drop (read_offset (d_open d)) (block_data d r)); [done|].
    unfold remaining. rewrite Elast, (drop_all (d_log d)). cbn. by rewrite app_nil_r.
  - rewrite (remaining_next d d3 r El3 Ho3) in Hc |- *. rewrite length_app in Hc.
    destruct (IH d3 (S r) _ _ ltac:(rewrite El3; lia) H3) as (d4 & r' & Hs4 & H4 & Hall & El4); [lia|].
    exists d4, r'. split_and!; [by etrans| |done|congruence]. by rewrite (assoc_L (++)).
Qed.

(** A call of [read] after the last transfer. *)
Lemma one_read d r a :
  draining d r a None → d_end d = false →
  ∃ d' r', rtc step d d' ∧ draining d' r' a None ∧ all_read d' r' ∧ d_log d' = d_log d ∧ d_end d' = bool_decide (remaining d r = []).
Proof.
  intros H He. set (count := S (length (remaining d r))). pose proof (dr_pc _ _ _ _ H) as Epc.
  destruct (read_begins d r a (dr_ring _ _ _ _ H) (dr_reader _ _ _ _ H) count Epc He ltac:(lia)) as [Hr1 Hrd1].
  pose proof (step_read d count Epc He ltac:(lia)) as Hs1. set (d1 := set_reader_pc _ _ _) in *.
  destruct (draining_block _ _ _ _ H) as [_ Hst].
  assert (block_ready (d_open d) = true) as Eready.
  { unfold block_ready. rewrite Hst. by case_bool_decide. }
  pose proof (step_reader d1 _ Wait_more 0%nat eq_refl) as Hs2.
  destruct (wait_step_ok d1 r a Hr1 Hrd1 count Wait_more 0%nat eq_refl) as [Hrd2 _].
  cbn [read_step] in *. change (d_open d1) with (d_open d) in *. rewrite Eready in *. cbn [fst snd] in *.
  set (d2 := set_reader_pc d1 (d_open d) (Read_loop count [])) in *.
  assert (draining d2 r a (Some (Read_loop count []))) as H2.
  { split; [apply ring_reader; done|done|exact (dr_ended _ _ _ _ H)|exact (dr_failed _ _ _ _ H)|done]. }
  destruct (drain_loop d2 r a count [] H2 (le_n _)) as (d3 & r3 & Hs3 & H3 & Hall & El3). change (remaining d2 r) with (remaining d r) in H3.
  cbn [app] in H3. pose proof (dr_pc _ _ _ _ H3) as Epc3. pose proof (step_reader d3 _ Wait_more 0%nat Epc3) as Hs4.
  destruct (exit_step_ok d3 r3 (dr_reader _ _ _ _ H3) _ Wait_more 0%nat Epc3) as [Hrd4 _].
  destruct (draining_block _ _ _ _ H3) as [_ Hst3]. rewrite (bool_decide_true _ (proj1 Hall)) in Hst3.
  pose proof (reading_not_ended d3 r3 (dr_reader _ _ _ _ H3) _ Epc3) as He3.
  cbn [read_step fst snd] in *. unfold read_return in *. rewrite Hst3, (bool_decide_true (BLOCK_DATA_END = _)) in * by done.
  set (res := if bool_decide (remaining d r ≠ []) then _ else _) in *.
  assert (is_error res = false ∧ is_end res = bool_decide (remaining d r = [])) as [Eerr Eend].
  { unfold res. by destruct (remaining d r). }
  eexists _, r3. split; [eapply rtc_l; [exact Hs1|]; eapply rtc_l; [exact Hs2|]; eapply rtc_r; [exact Hs3|exact Hs4]|].
  split_and!; [|exact Hall|done|cbn; by rewrite He3, Eend].
  split; [apply ring_reader; [done..|exact (dr_ring _ _ _ _ H3)]|exact Hrd4|exact (dr_ended _ _ _ _ H3)| |done].
  cbn. by rewrite (dr_failed _ _ _ _ H3), Eerr.
Qed.

(** C20: After the last transfer of the engine of a stream that was armed, and whether the
    transfer was completed or stopped by an overrun, the server reaches the end by calling
    [read] again, unless a call has failed before, by a signal or because the memory of the
    caller cannot be written: no call fails with an error, and the server gets all that was
    transferred.  (The comment of the driver announces EIO after an overrun; [read] does
    not return it, and only the completion code tells the two apart.) *)
Theorem driver_reaches_end d :
  reachable d → ended d = true → d_log d ≠ [] → d_reader d = None → d_end d = false → d_failed d = false →
  ∃ d', rtc step d d' ∧ d_end d' = true ∧ d_failed d' = false ∧ d_log d' = d_log d ∧ d_got d' = concat (d_log d).
Proof.
  intros Hr He Hne Epc Hend Hf. destruct (stream_inv d Hr) as [Hu|(r & a & Hring & Hrd)]; [by rewrite (ua_log _ Hu) in Hne|].
  destruct (one_read d r a) as (d1 & r1 & Hs1 & H1 & Hall1 & El1 & Ee1); [by split|done|].
  assert (∃ d2 r2, rtc step d d2 ∧ draining d2 r2 a None ∧ all_read d2 r2 ∧ d_log d2 = d_log d ∧ d_end d2 = true)
    as (d2 & r2 & Hs2 & H2 & [Hl2 Ho2] & El2 & Ee2).
  { destruct (decide (remaining d r = [])) as [Er|Er]; [rewrite bool_decide_true in Ee1 by done; by exists d1, r1|].
    rewrite bool_decide_false in Ee1 by done. destruct (one_read d1 r1 a H1 Ee1) as (d2 & r2 & Hs2 & H2 & Hall2 & El2 & Ee2).
    rewrite (remaining_all _ _ _ _ H1 Hall1) in Ee2. exists d2, r2. split_and!; [by etrans|done|done|congruence|done]. }
  exists d2. split_and!; [done|done|exact (dr_failed _ _ _ _ H2)|done|]. rewrite <-El2.
  pose proof (rd_got _ _ (dr_reader _ _ _ _ H2) (dr_failed _ _ _ _ H2)) as Eg. rewrite (dr_pc _ _ _ _ H2), Ho2 in Eg. cbn in Eg.
  rewrite app_nil_r, firstn_all in Eg. rewrite Eg. pose proof (draining_lt _ _ _ _ H2) as Hlt. unfold block_data.
  destruct (d_log d2 !! r2) as [data|] eqn:El; [|apply lookup_ge_None in El; lia]. cbn.
  rewrite <-(take_drop_middle _ _ _ El) at 2. rewrite (drop_ge (d_log d2)), concat_app by lia. cbn. by rewrite app_nil_r.
Qed.

(** ** Runs that are computed *)

Inductive action :=
  | A_arm | A_arm_second | A_interrupt (status : Z) (data : list Z) | A_length | A_state
  | A_read (count : nat) | A_reader.
Definition act (d : driver) (x : action) : option driver :=
  match x, d_isr d, d_reader d with
  | A_arm, Isr_idle, None =>
      if d_half d then None else Some (mk_driver (start_hardware (d_open d)) [0%nat] Isr_idle true [] None [] false false)
  | A_arm_second, _, _ =>
      if d_half d then Some (mk_driver (start_hardware_second (d_open d)) (d_addresses d ++ [1%nat]) (d_isr d) false (d_log d)
                               (d_reader d) (d_got d) (d_end d) (d_failed d)) else None
  | A_interrupt status data, Isr_idle, _ =>
      match d_addresses d with
      | ix :: rest =>
          if stream_active (d_open d) && bool_decide (length data = IRQ_STATUS_LENGTH status) &&
             bool_decide (length data ≤ length (b_memory (blocks (d_open d) !!! ix)))%nat &&
             (IRQ_STATUS_DONE status || bool_decide (rest ≠ [])) &&
             (IRQ_STATUS_DONE status || bool_decide (data ≠ []) || empty_blocks) && IRQ_STATUS_NEW_BUFFER status
          then match stream_isr status (0, 0) (dma_write (d_open d) ix data) with
               | (o, assigned, Some received) =>
                   Some (set_isr_pc d o (rest ++ option_list assigned) (Isr_received received.1 received.2 data) (d_log d))
               | _ => None
               end
          else None
      | [] => None
      end
  | A_length, Isr_received ix length_ data, _ =>
      Some (set_isr_pc d (receive_length (d_open d) ix length_) (d_addresses d) (Isr_length ix data) (d_log d))
  | A_state, Isr_length ix data, _ =>
      Some (set_isr_pc d (receive_state (d_open d) ix) (d_addresses d) Isr_idle (d_log d ++ [data]))
  | A_read count, _, None =>
      if negb (d_end d) && bool_decide (0 < count)%nat then Some (set_reader_pc d (d_open d) (Read_wait count)) else None
  | A_reader, _, Some pc =>
      Some (set_reader_pc d (read_step (d_open d) pc Wait_more 0).1 (read_step (d_open d) pc Wait_more 0).2)
  | _, _, _ => None
  end.
Fixpoint run (d : driver) (xs : list action) : option driver :=
  match xs with [] => Some d | x :: xs => d ← act d x; run d xs end.

Lemma act_step d x d' : act d x = Some d' → step d d'.
Proof.
  unfold act. intros E. destruct x as [| |status data| | |count|]; destruct (d_isr d) eqn:Ei, (d_reader d) as [pc|] eqn:Er; try done.
  all: try (destruct (d_half d) eqn:Eh; [|done]); try (destruct (d_half d) eqn:Eh; [done|]).
  all: try (injection E as <-).
  all: try (by constructor); try (rewrite <-Er, <-Ei; by constructor); try (eapply step_isr_length; eassumption); try (eapply step_isr_state; eassumption).
  all: try (apply (step_reader d pc Wait_more 0%nat Er)).
  3-5: destruct (d_end d) eqn:Ee; [done|]; case_bool_decide; [|done]; injection E as <-; by apply step_read.
  all: destruct (d_addresses d) as [|ix rest] eqn:Ea; [done|].
  all: destruct (_ && _) eqn:Eg in E; [|done]; repeat rewrite andb_true_iff in Eg.
  all: destruct Eg as [[[[[? ?%bool_decide_eq_true] ?%bool_decide_eq_true] Hrest] Hdata] ?].
  all: destruct (stream_isr _ _ _) as [[o assigned] [received|]] eqn:Eo; [|done]; injection E as <-.
  all: rewrite orb_true_iff, bool_decide_eq_true in Hrest; rewrite !orb_true_iff, bool_decide_eq_true in Hdata.
  all: eapply step_interrupt; eauto; tauto.
Qed.
Lemma run_steps xs : ∀ d d', run d xs = Some d' → rtc step d d'.
Proof.
  induction xs as [|x xs IH]; intros d d' E; cbn in E; [by injection E as <-|].
  destruct (act d x) as [d1|] eqn:E1; [|done]. eapply rtc_l; [by apply (act_step d x)|by apply IH].
Qed.

End steps.

(** Three blocks of eight bytes. *)
Definition example_driver : driver :=
  mk_driver (panda_stream_open [replicate 8 0; replicate 8 0; replicate 8 0]) [] Isr_idle false [] None [] false false.
Lemma example_reachable b xs d : run b example_driver xs = Some d → reachable b d.
Proof. intros E. exists example_driver. split; [constructor; simpl; lia|]. by apply (run_steps b xs). Qed.

Definition full_block : Z := Z.lor 32 (Z.shiftl 8 7).
Definition last_block : Z := Z.lor 1 (Z.shiftl 4 7).
Definition example_run : list action :=
  [A_arm; A_arm_second; A_interrupt full_block [1; 2; 3; 4; 5; 6; 7; 8]; A_read 4; A_length; A_state; A_reader; A_reader;
   A_interrupt last_block [9; 10; 11; 12]; A_reader; A_reader; A_reader; A_reader; A_length; A_state].

Lemma engine_owns_blocks_witness :
  ∃ d ix, reachable false d ∧ ix ∈ d_addresses d ∧ b_state (blocks (d_open d) !!! ix) = BLOCK_DMA.
Proof.
  destruct (run false example_driver (take 8 example_run)) as [d|] eqn:E; [|exfalso; vm_compute in E; discriminate].
  pose proof (example_reachable _ _ _ E) as Hr. vm_compute in E. injection E as <-.
  eexists _, 2%nat. split; [exact Hr|]. assert (2%nat ∈ [1%nat; 2%nat]) as Hin by (apply (bool_decide_unpack _); reflexivity).
  split; [exact Hin|]. exact (proj1 (engine_owns_blocks false _ 2 Hr eq_refl Hin eq_refl)).
Defined.

(** After the run above. *)
Lemma driver_reaches_end_witness :
  ∃ d d', reachable false d ∧ rtc (step false) d d' ∧ d_end d' = true ∧ d_got d' = [1; 2; 3; 4; 5; 6; 7; 8; 9; 10; 11; 12].
Proof.
  destruct (run false example_driver example_run) as [d|] eqn:E; [|exfalso; vm_compute in E; discriminate].
  pose proof (example_reachable _ _ _ E) as Hr. vm_compute in E. injection E as <-.
  match type of Hr with reachable _ ?x => destruct (driver_reaches_end false x Hr eq_refl ltac:(discriminate) eq_refl eq_refl eq_refl)
    as (d' & Hs & He & _ & _ & Hg) end.
  eexists _, d'. split; [exact Hr|]. split; [exact Hs|]. split; [exact He|]. exact Hg.
Defined.

(** With a block without data before the last one the end can come early: the reader is
    at the block of the engine when its call has nothing to return, and before it looks
    at the state of the block again the interrupt handler makes it the last. *)
Example end_before_data :
  ∃ d, reachable true d ∧ d_failed d = false ∧ d_end d = true ∧ d_got d = [] ∧ concat (d_log d) = [9; 10; 11; 12].
Proof.
  destruct (run true example_driver ([A_arm; A_arm_second; A_read 4; A_interrupt 32 []; A_length; A_state] ++ replicate 5 A_reader ++
    [A_interrupt last_block [9; 10; 11; 12]; A_length; A_state; A_reader])) as [d|] eqn:E; [|exfalso; vm_compute in E; discriminate].
  pose proof (example_reachable _ _ _ E) as Hr. vm_compute in E. injection E as <-. eexists. split; [exact Hr|].
  split_and!; reflexivity.
Qed.

(** C8: Whatever the interleaving of the interrupt handler and the reader, and as long as
    no call of [read] has failed, by a signal or because the memory of the caller cannot
    be written, the data the server gets is that the engine transferred, in order, with
    nothing lost or repeated.  When the end is reported and the engine only hands over a
    block without data as its last, the transfer has ended and the server has got all of
    it.  If other blocks can be empty too this does not hold: there is a run in which the
    end is reported before the last data. *)
Theorem driver_stream_exact empty_blocks d : reachable empty_blocks d → d_failed d = false →
  d_got d `prefix_of` concat (d_log d) ∧
  (if empty_blocks then ∃ d', reachable empty_blocks d' ∧ d_failed d' = false ∧ d_end d' = true ∧ d_got d' ≠ concat (d_log d')
   else d_end d = true → stream_active (d_open d) = false ∧ d_got d = concat (d_log d)).
Proof.
  intros Hr Hf. destruct (stream_delivered empty_blocks d Hr Hf) as [Hp He]. split; [done|].
  destruct empty_blocks; [|by apply He]. destruct end_before_data as (d' & Hr' & Hf' & He' & Hg & Hl).
  exists d'. split_and!; [done..|]. by rewrite Hg, Hl.
Qed.
Lemma driver_stream_exact_witness :
  ∃ d, reachable false d ∧ d_failed d = false ∧ d_got d = [1; 2; 3; 4] ∧ d_got d `prefix_of` concat (d_log d).
Proof.
  destruct (run false example_driver example_run) as [d|] eqn:E; [|exfalso; vm_compute in E; discriminate].
  exists d. pose proof (example_reachable _ _ _ E) as Hr. vm_compute in E. injection E as <-.
  split; [exact Hr|]. split; [reflexivity|]. split; [reflexivity|].
  exact (proj1 (driver_stream_exact false _ Hr eq_refl)).
Defined.

End PandaStreamSpec.
