(* ===== verification/SystemCommand.v ===== *)
(** * The system commands: panda-server/server/system_command.c

    The commands that begin with a star: identification, metadata, the list of blocks,
    reports of changes, descriptions, labels, and control of the capture.  Each handler
    is given the part of the command after its name; the table of commands is a hash
    table filled at start.  The parts of the server the handlers reach through other
    modules are the class [SystemParts]; the monitor thread of the state file and the
    list of connections are parameters. *)

From S2P Require Import Prelude Errors Parse Format HashTable HashTableSpec Enums StdDev Buffer Capture PosOut Changes Table Metadata Mux ExtOut Output Hardware Fields Entity DataServer.
From stdpp Require Import base numbers list list_numbers gmap option strings pretty.
Open Scope Z_scope.

(** What the system commands use of the state of the classes of fields. *)
Class SystemParts `{Fpga} (C TE : Type) := {
  sp_outputs : C → Output.outputs;
  sp_set_outputs : Output.outputs → C → C;
  sp_fpga : C → fpga;
  sp_set_fpga : fpga → C → C;
  (* [bit_mux_lookup] and [pos_out_capture_enum] *)
  sp_bit_mux_lookup : C → Enums.enumeration (T := TE);
  sp_pos_out_capture_enum : C → Enums.enumeration (T := TE);
  (* [get_enumeration] and [description] of the methods of an attribute, and
     [get_enumeration] of a class *)
  sp_attr_description : nat → option cstring;
  sp_attr_enumeration : C → nat → outcome (option (Enums.enumeration (T := TE)));
  sp_field_enumeration : C → nat → outcome (option (Enums.enumeration (T := TE)));
  (* a sub-field of the table at a field, by its index *)
  sp_subfield : C → nat → nat → outcome (Table.table_subfield (TE := TE));
  sp_bit_out_refresh : Z → Fields.state C → outcome (Fields.state C);
  sp_pos_out_refresh : Z → Fields.state C → outcome (Fields.state C);
  sp_get_set_outputs o c : sp_outputs (sp_set_outputs o c) = o;
  sp_fpga_keeps_outputs f c : sp_outputs (sp_set_fpga f c) = sp_outputs c;
}.

Module SystemCommand.
Import Parse Format Changes Fields Entity Capture Hardware.

(** The two statics of data_server.c a command sees, [NULL] for no buffer, and the
    statics of capture.c and prepare.c. *)
Record pcap := mk_pcap {
  pc_buffer : option Buffer.capture_buffer;
  pc_enabled : bool;            (* data_capture_enabled *)
  pc_completion : Z;
  pc_samples : Z;               (* experiment_sample_count *)
  pc_capture : data_capture;
  pc_fields : option captured_fields;
}.

Section system.
Context `{Platform} `{Fpga} {C T TE : Type} `{!StringTable nat T} `{!StringTable Z TE} `{!SystemParts C TE}.
Context (db : database (C := C) (T := T)).
Context (server_name server_version rootfs_version : cstring).
Abbreviation W := (state C).

(** The state of the server as a connection sees it: [sy_context] is the
    [change_set_context] of the connection, and [sy_writer] the lines of metadata it is
    sending. *)
Record system := mk_system {
  sy_world : W;
  sy_metadata : Metadata.metadata (T := T);
  sy_context : list Z;
  sy_verbose : bool;
  sy_pcap : pcap;
  sy_writer : option Metadata.multiline_writer;
}.
Definition set_world (s : system) (w : W) : system :=
  mk_system w (sy_metadata s) (sy_context s) (sy_verbose s) (sy_pcap s) (sy_writer s).
Definition set_class (s : system) (c : C) : system :=
  set_world s (mk_state (change_index (sy_world s)) (attrs (sy_world s)) c).
Definition set_context (s : system) (c : list Z) : system :=
  mk_system (sy_world s) (sy_metadata s) c (sy_verbose s) (sy_pcap s) (sy_writer s).
Definition set_pcap (s : system) (p : pcap) : system :=
  mk_system (sy_world s) (sy_metadata s) (sy_context s) (sy_verbose s) p (sy_writer s).
Definition set_metadata (s : system) (m : Metadata.metadata (T := T)) (g : Z) (writer : option Metadata.multiline_writer) : system :=
  mk_system (mk_state g (attrs (sy_world s)) (class_state (sy_world s))) m (sy_context s) (sy_verbose s) (sy_pcap s) writer.
Abbreviation the_class s := (class_state (sy_world s)).

(** The thread that writes the state file and the list of connections. *)
Context (save_persistent_state : system → outcome (error__t * system)).
Context (generate_connection_list : system → list cstring).

Definition format_one_result (text : cstring) : reply :=
  ([], x ← format_string MAX_RESULT_LENGTH text; mret (RESPONSE_ONE x)).
Definition many_result (lines : list cstring) : reply := (lines, OK RESPONSE_MANY).
Definition error_reply (e : error) : reply := ([], Err e).

(** A handler whose arguments are parsed first. *)
Definition with_args {A B : Type} (args : res A) (s : system) (failed : error → B) (f : A → outcome (B * system)) : outcome (B * system) :=
  match args with OK a => f a | Err e => Ret (failed e, s) end.

(** ** Identification *)

Definition lower_hex_digit (d : Z) : Z := if decide (d < 10) then 48 + d else 87 + d.
Definition fmt_08x (n : Z) : cstring :=
  (λ i, lower_hex_digit (Z.land (Z.shiftr n (4 * (7 - i))) 15)) <$> seqZ 0 8.
Definition fpga_string (fpga_version : Z) : cstring :=
  fmt_u (Z.land (Z.shiftr fpga_version 16) 0xff) ++ [46] ++ fmt_u (Z.land (Z.shiftr fpga_version 8) 0xff) ++ [46] ++
  fmt_u (Z.land fpga_version 0xff) ++
  (if bool_decide (Z.shiftr fpga_version 24 ≠ 0) then [67] ++ fmt_u (Z.shiftr fpga_version 24) else []).
Definition get_idn (s : system) (command : cstring) : outcome (reply * system) :=
  let '(fpga_version, fpga_build, user_version, f) := hw_read_versions (sp_fpga (the_class s)) in
  Ret (format_one_result (server_name ++ bytes_of " SW: " ++ server_version ++ bytes_of " FPGA: " ++ fpga_string fpga_version ++
         [32] ++ fmt_08x fpga_build ++ [32] ++ fmt_08x user_version ++ bytes_of " rootfs: " ++ rootfs_version),
       set_class s (sp_set_fpga f (the_class s))).

(** ** Metadata *)

Definition metadata_key : parser cstring :=
  key ← parse_alphanum_name PosOut.MAX_NAME_LENGTH; _ ← parse_eos; mret key.
Definition get_metadata (s : system) (command : cstring) : outcome (reply * system) :=
  with_args (parse_char (Ascii.ascii_of_nat 46) command).1 s error_reply (λ _,
    let '(star, rest) := read_char 42 (parse_char (Ascii.ascii_of_nat 46) command).2 in
    if star : bool then
      with_args (parse_eos rest).1 s error_reply (λ _, Ret (many_result (Metadata.get_metadata_keys (sy_metadata s)), s))
    else
      with_args (metadata_key rest).1 s error_reply (λ key,
        value ← Metadata.get_metadata_value (sy_metadata s) key MAX_RESULT_LENGTH;
        Ret (match value with
             | inl r => ([], x ← r; mret (RESPONSE_ONE x))
             | inr lines => many_result lines
             end, s))).
Definition put_metadata (s : system) (command value : cstring) : outcome (error__t * system) :=
  with_args (_ ← (parse_char (Ascii.ascii_of_nat 46) command).1;
             key ← (metadata_key (parse_char (Ascii.ascii_of_nat 46) command).2).1;
             string ← (parse_utf8_string value).1; mret (key, string)) s Some
    (λ '(key, string),
       '(error, m, g) ← Metadata.put_metadata_value (sy_metadata s) (change_index (sy_world s)) key string;
       Ret (error, set_metadata s m g (sy_writer s))).

(** The writer of a table of metadata, on the state of the server. *)
Definition put_state (s : system) : Metadata.put_state (T := T) := (sy_metadata s, change_index (sy_world s), sy_writer s).
Definition set_put_state (s : system) (p : Metadata.put_state (T := T)) : system := set_metadata s p.1.1 p.1.2 p.2.
Definition metadata_table_writer : Table.put_table_writer system :=
  Table.mk_writer
    (λ s line, '(error, p) ← Metadata.write_multiline_put (put_state s) line; Ret (error, set_put_state s p))
    (λ s ok, '(error, p) ← Metadata.close_multiline_put (put_state s) ok; Ret (error, set_put_state s p)).
Definition put_table_metadata (s : system) (command : cstring) : outcome (error__t * system * Table.put_table_writer system) :=
  match (_ ← parse_char (Ascii.ascii_of_nat 46); metadata_key) command with
  | (Err e, _) => Ret (Some e, s, Table.dummy_table_writer)
  | (OK key, _) =>
      '(error, p) ← Metadata.put_metadata_table (sy_metadata s) (change_index (sy_world s)) key;
      Ret (error, set_put_state s p, metadata_table_writer)
  end.

(** ** Lists *)

Definition get_blocks (s : system) (command : cstring) : outcome (reply * system) :=
  lines ← block_list_get db; Ret (many_result lines, s).
Definition get_echo (s : system) (command : cstring) : outcome (reply * system) :=
  with_args (parse_char (Ascii.ascii_of_nat 32) command).1 s error_reply
    (λ _, Ret (format_one_result (parse_char (Ascii.ascii_of_nat 32) command).2, s)).
Definition get_who (s : system) (command : cstring) : outcome (reply * system) :=
  Ret (many_result (generate_connection_list s), s).
Definition get_positions (s : system) (command : cstring) : outcome (reply * system) :=
  Ret (many_result (Output.report_capture_positions (sp_outputs (the_class s))), s).
Definition get_bits (s : system) (command : cstring) : outcome (reply * system) :=
  lines ← Mux.report_capture_bits (sp_bit_mux_lookup (the_class s)); Ret (many_result lines, s).

(** ** Changes *)

Definition CHANGES_CONFIG : Z := Z.shiftl 1 (Z.of_nat CHANGE_IX_CONFIG).
Definition CHANGES_READ : Z := Z.shiftl 1 (Z.of_nat CHANGE_IX_READ).
Definition CHANGES_ALL : Z :=
  Z.lor (Z.lor (Z.lor (Z.lor (Z.lor (Z.lor CHANGES_CONFIG CHANGES_BITS) CHANGES_POSITION) CHANGES_READ) CHANGES_ATTR) CHANGES_TABLE) CHANGES_METADATA.
Definition lookup_change_set (action : cstring) : res Z :=
  if bool_decide (action = bytes_of "CONFIG") then OK CHANGES_CONFIG
  else if bool_decide (action = bytes_of "BITS") then OK CHANGES_BITS
  else if bool_decide (action = bytes_of "POSN") then OK CHANGES_POSITION
  else if bool_decide (action = bytes_of "READ") then OK CHANGES_READ
  else if bool_decide (action = bytes_of "ATTR") then OK CHANGES_ATTR
  else if bool_decide (action = bytes_of "TABLE") then OK CHANGES_TABLE
  else if bool_decide (action = bytes_of "METADATA") then OK CHANGES_METADATA
  else fail "Unknown changes selection".
Definition parse_change_set : parser Z := λ command,
  let '(dot, rest) := read_char 46 command in
  (change_set ← (if dot then action ← parse_name PosOut.MAX_NAME_LENGTH; lift (lookup_change_set action)
                 else mret CHANGES_ALL);
   _ ← parse_eos; mret change_set) rest.
Definition get_changes (s : system) (command : cstring) : outcome (reply * system) :=
  with_args (parse_change_set command).1 s error_reply (λ change_set,
    '(c, report_index, w) ← refresh_change_index sp_bit_out_refresh sp_pos_out_refresh (sy_context s) (sy_world s) change_set;
    '(lines, w) ← generate_change_sets db (sy_metadata s) change_set report_index false w;
    Ret (many_result lines, set_context (set_world s w) c)).
Definition parse_change_set_reset : parser reset_change_set_action := λ string,
  let '(e, rest) := read_char 69 string in
  if e then (OK RESET_END, rest)
  else
    let '(st, rest) := read_char 83 string in
    if st then (OK RESET_START, rest)
    else ((_ ← test_ok (bool_decide (cur string = 0)) "Invalid reset option"; mret RESET_END), string).
Definition put_changes (s : system) (command value : cstring) : outcome (error__t * system) :=
  with_args (change_set ← (parse_change_set command).1;
             action ← ((action ← parse_change_set_reset; _ ← parse_eos; mret action) value).1;
             mret (change_set, action)) s Some
    (λ '(change_set, action),
       '(c, w) ← reset_change_set sp_bit_out_refresh sp_pos_out_refresh (sy_context s) (sy_world s) change_set action;
       Ret (None, set_context (set_world s w) c)).

(** ** Descriptions and labels *)

(** What [get_desc] and [get_enums] parse: the entity, and the sub-field of a table. *)
Definition parse_described (s : system) (command : cstring) : outcome (res (entity_context * option nat)) :=
  match parse_char (Ascii.ascii_of_nat 46) command with
  | (Err e, _) => Ret (Err e)
  | (OK _, command) =>
      '(parse, command) ← parse_block_entity db false false command;
      match parse with
      | Err e => Ret (Err e)
      | OK (c, _, _) =>
          '(subfield, command) ← parse_table_subfield db (sy_world s) c command;
          Ret (subfield ← subfield; _ ← (parse_eos command).1; mret (c, subfield))
      end
  end.
Definition or_fail {A : Type} (x : option A) (message : string) : res A :=
  match x with Some x => OK x | None => fail message end.
Definition description_of (s : system) (c : entity_context) (subfield : option nat) : outcome (res cstring) :=
  match ec_attr c, subfield, ec_field c return outcome (res cstring) with
  | Some attr, _, _ => Ret (or_fail (sp_attr_description attr) "No description for attribute")
  | None, Some i, _ =>
      fix_ ← Enums.call (ec_field c); f ← sp_subfield (the_class s) fix_ i;
      Ret (or_fail (Table.description f) "No description for table sub-field")
  | None, None, Some fix_ => f ← at_index (all_fields db) fix_; Ret (or_fail (fd_description f) "No description set for field")
  | None, None, None => b ← context_block db c; Ret (or_fail (b_description b) "No description set for block")
  end.
Definition get_desc (s : system) (command : cstring) : outcome (reply * system) :=
  parse ← parse_described s command;
  with_args parse s error_reply (λ '(c, subfield),
    string ← description_of s c subfield;
    with_args string s error_reply (λ string, Ret (format_one_result string, s))).

Definition enumeration_of (s : system) (c : entity_context) (fix_ : nat) (subfield : option nat)
    : outcome (res (Enums.enumeration (T := TE))) :=
  match ec_attr c, subfield return outcome (res (Enums.enumeration (T := TE))) with
  | Some attr, _ => e ← sp_attr_enumeration (the_class s) attr; Ret (or_fail e "Attribute is not an enumeration")
  | None, Some i =>
      f ← sp_subfield (the_class s) fix_ i; Ret (or_fail (Table.sf_enums f) "Table sub-field is not an enumeration")
  | None, None => e ← sp_field_enumeration (the_class s) fix_; Ret (or_fail e "Field is not an enumeration")
  end.
(** A label that is not set would be printed through a null pointer. *)
Definition write_enum_labels (e : Enums.enumeration (T := TE)) : outcome (list cstring) :=
  mapM (λ n : option cstring, match n with Some n => Ret n | None => Undef end) (Enums.write_enum_labels e).
Definition get_enums (s : system) (command : cstring) : outcome (reply * system) :=
  parse ← parse_described s command;
  with_args (p ← parse; fix_ ← or_fail (ec_field p.1) "Missing field name"; mret (p, fix_)) s error_reply (λ '((c, subfield), fix_),
    e ← enumeration_of s c fix_ subfield;
    with_args e s error_reply (λ e, lines ← write_enum_labels e; Ret (many_result lines, s))).

(** ** The selection of what is captured *)

Definition get_capture (s : system) (command : cstring) : outcome (reply * system) :=
  let o := sp_outputs (the_class s) in
  let '(dot, rest) := read_char 46 command in
  if dot then
    let '(star, rest) := read_char 42 rest in
    if star then with_args (parse_eos rest).1 s error_reply (λ _, Ret (many_result (Output.report_capture_labels o), s))
    else
      with_args ((name ← parse_name PosOut.MAX_NAME_LENGTH; _ ← parse_eos; mret name) rest).1 s error_reply (λ name,
        if bool_decide (name = bytes_of "OPTIONS") then
          let '(capabilities, f) := hw_read_fpga_capabilities (sp_fpga (the_class s)) in
          Ret (many_result (bytes_of <$> PosOut.get_capture_options capabilities), set_class s (sp_set_fpga f (the_class s)))
        else if bool_decide (name = bytes_of "ENUMS") then
          lines ← write_enum_labels (sp_pos_out_capture_enum (the_class s)); Ret (many_result lines, s)
        else Ret (error_reply (error_create None "Invalid *CAPTURE option"), s))
  else
    with_args (parse_eos rest).1 s error_reply (λ _,
      lines ← Output.report_capture_list o MAX_RESULT_LENGTH; Ret (many_result lines, s)).
Definition put_capture (s : system) (command value : cstring) : outcome (error__t * system) :=
  with_args (_ ← (parse_eos command).1; (parse_eos value).1) s Some (λ _,
    o ← Output.reset_capture_list (sp_outputs (the_class s)); Ret (None, set_class s (sp_set_outputs o (the_class s)))).

(** ** Control *)

Definition put_verbose (s : system) (command value : cstring) : outcome (error__t * system) :=
  with_args ((verbose ← parse_uint; _ ← parse_eos; mret verbose) value).1 s Some (λ verbose,
    Ret (None, mk_system (sy_world s) (sy_metadata s) (sy_context s) (bool_decide (verbose ≠ 0)) (sy_pcap s) (sy_writer s))).

(** [start_data_capture]; the clock of the FPGA is read once here. *)
Definition start_data_capture (s : system) : outcome (error__t * system) :=
  let '(clock, f) := hw_read_nominal_clock (sp_fpga (the_class s)) in
  fields ← Output.prepare_fields clock (sp_outputs (the_class s));
  '(error, capture, words) ← prepare_data_capture (pc_capture (sy_pcap s)) fields;
  let p := sy_pcap s in
  match error with
  | Some _ =>
      Ret (error, set_pcap (set_class s (sp_set_fpga f (the_class s)))
                    (mk_pcap (pc_buffer p) (pc_enabled p) (pc_completion p) (pc_samples p) capture (Some fields)))
  | None =>
      f ← hw_write_capture_set f words;
      Ret (None, set_pcap (set_class s (sp_set_fpga (hw_write_arm f true) (the_class s)))
                   (mk_pcap (pc_buffer p) true (pc_completion p) (pc_samples p) capture (Some fields)))
  end.
(** [arm_capture]: the tests of DataServer.arm_capture, then the start. *)
Definition arm_capture (place : string) (b : Buffer.capture_buffer) (s : system) : outcome (error__t * system) :=
  let o := sp_outputs (the_class s) in
  let valid := ExtOut.check_pcap_valid (Output.samples_ext_out o ≫= (Output.ext_outs o !!.)) in
  match DataServer.arm_capture place valid (pc_enabled (sy_pcap s)) b None with
  | (Some e, _) => Ret (Some e, s)
  | (None, _) => start_data_capture s
  end.
Definition disarm_capture (s : system) : outcome (error__t * system) :=
  Ret (None, set_class s (sp_set_fpga (hw_write_arm (sp_fpga (the_class s)) false) (the_class s))).
Definition lookup_pcap_put_action (place : string) (b : Buffer.capture_buffer) (name : cstring) (s : system) : outcome (error__t * system) :=
  if bool_decide (name = bytes_of "ARM") then arm_capture place b s
  else if bool_decide (name = bytes_of "DISARM") then disarm_capture s
  else Ret (TEST_OK_ false "Invalid *PCAP field", s).
Definition no_capture : string := "Data capture disabled (server started with -N)".
(** The name is read up to the first character it cannot have; what follows it is not
    looked at. *)
Definition put_pcap (place : string) (s : system) (command value : cstring) : outcome (error__t * system) :=
  match pc_buffer (sy_pcap s) with
  | None => Ret (TEST_OK_ false no_capture, s)
  | Some b =>
      with_args (name ← ((_ ← parse_char (Ascii.ascii_of_nat 46); parse_name PosOut.MAX_NAME_LENGTH) command).1;
                 _ ← (parse_eos value).1; mret name) s Some (λ name, lookup_pcap_put_action place b name s)
  end.
Definition lookup_pcap_get_action (b : Buffer.capture_buffer) (name : cstring) (s : system) : reply :=
  if bool_decide (name = bytes_of "STATUS") then
    let '(status, readers, active) := DataServer.get_capture_status b in
    format_one_result (bytes_of status ++ [32] ++ fmt_u readers ++ [32] ++ fmt_u active)
  else if bool_decide (name = bytes_of "CAPTURED") then format_one_result (fmt_u (pc_samples (sy_pcap s)))
  else if bool_decide (name = bytes_of "COMPLETION") then
    format_one_result (bytes_of (DataServer.get_capture_completion (pc_enabled (sy_pcap s)) (pc_completion (sy_pcap s))))
  else error_reply (error_create None "Invalid *PCAP field").
Definition get_pcap (s : system) (command : cstring) : outcome (reply * system) :=
  match pc_buffer (sy_pcap s) with
  | None => Ret (error_reply (error_create None no_capture), s)
  | Some b =>
      with_args ((_ ← parse_char (Ascii.ascii_of_nat 46); parse_name PosOut.MAX_NAME_LENGTH) command).1 s error_reply
        (λ name, Ret (lookup_pcap_get_action b name s, s))
  end.
Definition put_savestate (s : system) (command value : cstring) : outcome (error__t * system) :=
  with_args (parse_eos value).1 s Some (λ _, save_persistent_state s).
Definition get_clock_freq (s : system) (command : cstring) : outcome (reply * system) :=
  let '(clock, f) := hw_read_nominal_clock (sp_fpga (the_class s)) in
  Ret (format_one_result (fmt_d (to_signed 32 clock)), set_class s (sp_set_fpga f (the_class s))).

(** ** Dispatch *)

Record command_table_entry := mk_entry {
  ce_name : string;
  ce_allow_arg : bool;
  ce_get : option (system → cstring → outcome (reply * system));
  ce_put : option (system → cstring → cstring → outcome (error__t * system));
  ce_put_table : option (system → cstring → outcome (error__t * system * Table.put_table_writer system));
}.
Definition command_table_list (place : string) : list command_table_entry := [
  mk_entry "IDN" false (Some get_idn) None None;
  mk_entry "METADATA" true (Some get_metadata) (Some put_metadata) (Some put_table_metadata);
  mk_entry "BLOCKS" false (Some get_blocks) None None;
  mk_entry "ECHO" true (Some get_echo) None None;
  mk_entry "WHO" false (Some get_who) None None;
  mk_entry "CHANGES" true (Some get_changes) (Some put_changes) None;
  mk_entry "DESC" true (Some get_desc) None None;
  mk_entry "CAPTURE" true (Some get_capture) (Some put_capture) None;
  mk_entry "POSITIONS" false (Some get_positions) None None;
  mk_entry "BITS" false (Some get_bits) None None;
  mk_entry "VERBOSE" false None (Some put_verbose) None;
  mk_entry "ENUMS" true (Some get_enums) None None;
  mk_entry "PCAP" true (Some get_pcap) (Some (put_pcap place)) None;
  mk_entry "SAVESTATE" false None (Some put_savestate) None;
  mk_entry "CLOCK_FREQ" false (Some get_clock_freq) None None
].

(** [initialise_system_command]; the table refers to positions in the list. *)
Fixpoint insert_commands (table : T) (ix : nat) (l : list command_table_entry) : outcome T :=
  match l with
  | [] => Ret table
  | entry :: l => '(_, table) ← Enums.call (st_insert table (bytes_of (ce_name entry)) (Some ix)); insert_commands table (S ix) l
  end.
Definition initialise_system_command (place : string) : outcome T := insert_commands st_create 0 (command_table_list place).

Section dispatch.
Context (place : string) (command_table : T).

Definition parse_system_command (command : cstring) : outcome (res command_table_entry * cstring) :=
  match parse_name PosOut.MAX_NAME_LENGTH command with
  | (Err e, rest) => Ret (Err e, rest)
  | (OK name, rest) =>
      '(_, ix) ← Enums.call (st_lookup_bool command_table name);
      match ix with
      | None => Ret (fail "Unknown command", rest)
      | Some ix =>
          entry ← at_index (command_table_list place) ix;
          Ret (_ ← (if ce_allow_arg entry then OK tt else (parse_eos rest).1); mret entry, rest)
      end
  end.
Definition process_system_get (s : system) (command : cstring) : outcome (reply * system) :=
  '(entry, rest) ← parse_system_command command;
  with_args (entry ← entry; or_fail (ce_get entry) "Command not readable") s error_reply (λ get, get s rest).
Definition process_system_put (s : system) (command value : cstring) : outcome (error__t * system) :=
  '(entry, rest) ← parse_system_command command;
  with_args (entry ← entry; or_fail (ce_put entry) "Command not writeable") s Some (λ put, put s rest value).
Definition process_system_put_table (s : system) (command : cstring) (streaming_mode last_table binary : bool)
    : outcome (error__t * system * Table.put_table_writer system) :=
  '(entry, rest) ← parse_system_command command;
  match (entry ← entry; put ← or_fail (ce_put_table entry) "Not a table";
         _ ← test_ok (negb streaming_mode) "Streaming mode not supported";
         _ ← test_ok (negb binary) "Binary writes not supported"; mret put) with
  | Err e => Ret (Some e, s, Table.dummy_table_writer)
  | OK put => put s rest
  end.
Definition system_commands : config_command_set (S := system) :=
  mk_command_set process_system_get process_system_put process_system_put_table.
End dispatch.

End system.
End SystemCommand.
