(* ===== verification/SystemCommandSpec.v ===== *)
(** * What the system commands do

    The table of commands leads every name to its handler; a string of metadata is read
    back through the commands as it was written; reading leaves the values of the server
    alone; a capture is armed at most once and with its selection written to the FPGA. *)

From S2P Require Import Prelude Errors Parse Format HashTable HashTableSpec Enums StdDev Buffer Capture CaptureSpec PosOut Changes Table Metadata Mux ExtOut Output OutputSpec Hardware Fields FieldsSpec Entity DataServer SystemCommand.
From stdpp Require Import base numbers list list_numbers gmap option strings pretty.
Open Scope Z_scope.

Module SystemCommandSpec.
Import Parse Format Double Changes Fields Entity Capture Hardware SystemCommand.

Section system.
Context `{Platform} `{Fpga} {C T TE : Type} `{!StringTable nat T} `{!StringTable Z TE} `{!SystemParts C TE}.
Context (db : database (C := C) (T := T)).
Context (server_name server_version rootfs_version : cstring).
Abbreviation system := (system (C := C) (T := T)).
Context (save_persistent_state : system → outcome (error__t * system)).
Context (generate_connection_list : system → list cstring).
Abbreviation entry := (command_table_entry (C := C) (T := T)).
Abbreviation commands := (command_table_list db server_name server_version rootfs_version save_persistent_state generate_connection_list).
Abbreviation initialise := (initialise_system_command db server_name server_version rootfs_version save_persistent_state generate_connection_list).
Abbreviation parse_command := (parse_system_command db server_name server_version rootfs_version save_persistent_state generate_connection_list).

(** ** The table *)

(** The first entry of a name, with its position. *)
Fixpoint find_command (name : cstring) (ix : nat) (l : list entry) : option (nat * entry) :=
  match l with
  | [] => None
  | e :: l => if bool_decide (bytes_of (ce_name e) = name) then Some (ix, e) else find_command name (S ix) l
  end.
Lemma find_command_lookup name ix l i e : find_command name ix l = Some (i, e) → l !! (i - ix)%nat = Some e ∧ (ix ≤ i)%nat.
Proof.
  revert ix. induction l as [|x l IH]; intros ix; [done|]. cbn. case_bool_decide.
  - intros [= <- <-]. by rewrite Nat.sub_diag.
  - intros E. apply IH in E as [E Hi]. split; [|lia]. replace (i - ix)%nat with (S (i - S ix)) by lia. done.
Qed.

(** The keys of the table are the names of the commands. *)
Lemma insert_commands_ok l : ∀ table ix,
  st_wf table → Z.of_nat (size (st_map table) + length l) < HashTableSpec.MAX_COUNT →
  NoDup (bytes_of ∘ ce_name <$> l) → (∀ e, e ∈ l → st_map table !! bytes_of (ce_name e) = None) →
  ∃ table', insert_commands table ix l = Ret table' ∧ st_wf table' ∧
    ∀ name, st_map table' !! name = match find_command name ix l with Some (i, _) => Some (Some i) | None => st_map table !! name end.
Proof.
  induction l as [|e l IH]; intros table ix Hwf Hsize Hnd Hnew; [by exists table|].
  cbn [fmap list_fmap length] in *. apply NoDup_cons in Hnd as [Hni Hnd].
  destruct (st_insert_ok table (bytes_of (ce_name e)) (Some ix) Hwf) as (t1 & E1 & Hwf1 & Hm1); [lia|].
  cbn [insert_commands]. rewrite E1. cbn [Enums.call mbind outcome_bind].
  assert (st_map table !! bytes_of (ce_name e) = None) as Hn0 by (apply Hnew; left).
  destruct (IH t1 (S ix)) as (t2 & E2 & Hwf2 & Hm2); [done| |done| |].
  - rewrite Hm1, map_size_insert_None by done. lia.
  - intros x Hx. rewrite Hm1, lookup_insert_ne; [apply Hnew; by right|].
    intros E. apply Hni. apply list_elem_of_fmap. by exists x.
  - exists t2. split; [done|]. split; [done|]. intros name. rewrite Hm2, Hm1. cbn [find_command]. case_bool_decide as Hname.
    + destruct (find_command name (S ix) l) as [[i x]|] eqn:Ef; [|by rewrite Hname, lookup_insert_eq].
      exfalso. apply Hni. rewrite <-Hname in Ef. clear -Ef. revert Ef. generalize (S ix). induction l as [|y l IHl]; intros k Ek; [done|].
      cbn in Ek. case_bool_decide as Hy; cbn; [rewrite <-Hy; left|right; by apply (IHl (S k))].
    + destruct (find_command name (S ix) l) as [[i x]|]; [done|by rewrite lookup_insert_ne].
Qed.

Lemma command_names place : NoDup (bytes_of ∘ ce_name <$> commands place).
Proof. apply (bool_decide_unpack _). vm_compute. exact I. Qed.

Lemma few_commands place : Z.of_nat (0 + length (commands place)) < HashTableSpec.MAX_COUNT.
Proof. unfold HashTableSpec.MAX_COUNT. by destruct long_bits_cases as [-> | ->]. Qed.

(** What the dispatcher is meant to find: the command of that name, without argument
    unless it takes one. *)
Definition find_entry (place : string) (command : cstring) : res entry * cstring :=
  match parse_name PosOut.MAX_NAME_LENGTH command with
  | (Err e, rest) => (Err e, rest)
  | (OK name, rest) =>
      match find_command name 0 (commands place) with
      | None => (fail "Unknown command", rest)
      | Some (_, entry) => (_ ← (if ce_allow_arg entry then OK tt else (parse_eos rest).1); mret entry, rest)
      end
  end.

Lemma system_table place :
  ∃ table, initialise place = Ret table ∧ ∀ command, parse_command place table command = Ret (find_entry place command).
Proof.
  destruct (st_create_ok (T := T)) as [Hwf Hm].
  destruct (insert_commands_ok (commands place) st_create 0 Hwf) as (table & E & Hwf' & Htable);
    [rewrite Hm, map_size_empty; apply few_commands|apply command_names|intros; by rewrite Hm|].
  exists table. split; [exact E|]. intros command. unfold parse_system_command, find_entry.
  destruct (parse_name PosOut.MAX_NAME_LENGTH command) as [[name|e] rest]; [|done].
  rewrite (st_lookup_ok table name Hwf'), Htable, Hm, lookup_empty. cbn [Enums.call mbind outcome_bind].
  destruct (find_command name 0 (commands place)) as [[i entry]|] eqn:Ef; cbn [default from_option id]; [|done].
  apply find_command_lookup in Ef as [Ef _]. rewrite Nat.sub_0_r in Ef. by rewrite (at_index_some _ _ _ Ef).
Qed.

(** The table of system commands is always built, and the dispatcher finds in it the
    entry of each command of the list and no other: a command that takes no argument is
    refused with one. *)
Theorem system_command_dispatch place :
  ∃ table, initialise place = Ret table ∧ ∀ command, parse_command place table command = Ret (find_entry place command).
Proof. apply system_table. Qed.

(** ** A command and its text *)

Section run.
Context (place : string) (table : T) (entity_commands : config_command_set (S := system)).
Hypothesis Htable : ∀ command, parse_command place table command = Ret (find_entry place command).
Abbreviation star_commands :=
  (system_commands db server_name server_version rootfs_version save_persistent_state generate_connection_list place table).
Abbreviation run s command lines := (process_config_command entity_commands star_commands s command lines).

Lemma split_command_at name c rest :
  Forall (λ c, is_separator c = false) name → is_separator c = true → split_command (name ++ c :: rest) = (name, c :: rest).
Proof. intros Hn Hc. induction Hn as [|x name Hx _ IH]; cbn; [by rewrite Hc|by rewrite Hx, IH]. Qed.

Lemma command_found name ix entry rest :
  Forall (λ c, valid_name_char c = true) name → (0 < length name < PosOut.MAX_NAME_LENGTH)%nat →
  (∀ c t, rest = c :: t → valid_name_char c = false) → find_command name 0 (commands place) = Some (ix, entry) →
  ce_allow_arg entry = true ∨ cur rest = 0 → parse_command place table (name ++ rest) = Ret (OK entry, rest).
Proof.
  intros Hname Hlen Hrest Hf Harg. rewrite Htable. unfold find_entry.
  rewrite (proj2 (parse_name_iff PosOut.MAX_NAME_LENGTH (name ++ rest) name rest)) by done. rewrite Hf.
  destruct (ce_allow_arg entry) eqn:Ea; [done|]. destruct Harg as [|Harg]; [done|].
  unfold parse_eos. rewrite Harg. done.
Qed.

(** The name of a key of metadata. *)
Record key_ok (key : cstring) : Prop := {
  key_chars : Forall (λ c, valid_alphanum_char c = true) key;
  key_head : valid_name_char (cur key) = true;
  key_length : (0 < length key < PosOut.MAX_NAME_LENGTH)%nat;
}.
Lemma metadata_key_ok key : key_ok key → metadata_key key = (OK key, []).
Proof.
  intros [Hc Hh Hl]. unfold metadata_key, mbind, parser_bind.
  rewrite (proj2 (parse_alphanum_name_iff PosOut.MAX_NAME_LENGTH key key [])); [done|].
  split; [|done]. split; [by rewrite app_nil_r|done..].
Qed.
Lemma alphanum_not_separator c : valid_alphanum_char c = true → is_separator c = false ∧ c ≠ 42.
Proof.
  unfold valid_alphanum_char, valid_name_char, isalpha, isdigit, underscore, is_separator.
  intros Hc. repeat case_bool_decide; subst; cbn in *; try lia; done.
Qed.
Lemma key_no_separator key : key_ok key → Forall (λ c, is_separator c = false) key.
Proof. intros [Hc _ _]. eapply Forall_impl; [exact Hc|]. intros c Hx. by apply alphanum_not_separator. Qed.
Lemma key_no_star key : key_ok key → read_char 42 key = (false, key).
Proof.
  intros [Hc _ Hl]. destruct key as [|c key]; [done|]. apply list.Forall_cons in Hc as [Hc _].
  cbn. by rewrite decide_False by (apply (alphanum_not_separator c Hc)).
Qed.

(** The two halves of a command of metadata, up to the handlers. *)
Abbreviation metadata_name := (bytes_of "METADATA").
Lemma metadata_found key : parse_command place table (metadata_name ++ 46 :: key) =
  Ret (OK (mk_entry "METADATA" true (Some get_metadata) (Some put_metadata) (Some put_table_metadata)), 46 :: key).
Proof.
  apply (command_found metadata_name 1); [by repeat constructor|cbn; unfold PosOut.MAX_NAME_LENGTH; lia| | |by left]; last first.
  { unfold command_table_list. cbn [find_command ce_name]. by rewrite bool_decide_false, bool_decide_true. }
  intros c t [= <- <-]. done.
Qed.

Lemma metadata_put s key text lines error s' :
  key_ok key → put_metadata s (46 :: key) text = Ret (error, s') →
  run s (bytes_of "*METADATA." ++ key ++ [61] ++ text) lines = Ret (report_status error, s', lines).
Proof.
  intros Hk E. unfold process_config_command.
  change (read_char 42 (bytes_of "*METADATA." ++ key ++ [61] ++ text)) with (true, metadata_name ++ 46 :: key ++ 61 :: text).
  cbv iota beta. change (metadata_name ++ 46 :: key ++ 61 :: text) with ((metadata_name ++ [46]) ++ (key ++ 61 :: text)).
  rewrite (assoc_L (++)), split_command_at; [|apply Forall_app; split; [by repeat constructor|by apply key_no_separator]|done].
  cbv beta iota. rewrite bool_decide_false, bool_decide_true by done. unfold do_write_command. cbn [cs_put system_commands].
  unfold process_system_put. rewrite <-(assoc_L (++)). cbn [app]. rewrite metadata_found. cbn. by rewrite E.
Qed.
Lemma metadata_get s key lines r s' :
  key_ok key → get_metadata s (46 :: key) = Ret (r, s') →
  run s (bytes_of "*METADATA." ++ key ++ [63]) lines = Ret (reply_bytes r, s', lines).
Proof.
  intros Hk E. unfold process_config_command.
  change (read_char 42 (bytes_of "*METADATA." ++ key ++ [63])) with (true, metadata_name ++ 46 :: key ++ [63]).
  cbv iota beta. change (metadata_name ++ 46 :: key ++ [63]) with ((metadata_name ++ [46]) ++ (key ++ [63])).
  rewrite (assoc_L (++)), split_command_at; [|apply Forall_app; split; [by repeat constructor|by apply key_no_separator]|done].
  cbv beta iota. rewrite bool_decide_true by done. unfold do_read_command. cbn [cs_get system_commands cur].
  rewrite bool_decide_true by done.
  unfold process_system_get. rewrite <-(assoc_L (++)). cbn [app]. rewrite metadata_found. cbn. by rewrite E.
Qed.

(** C29: A string of metadata sent with a command is answered with OK and kept, whatever
    its length, and the change is reported.  A later read of the key through a command
    answers with the same text, byte for byte, if it is shorter than MAX_RESULT_LENGTH,
    256; a longer text, though accepted, can no longer be read in this way: the answer is
    the error that the result is too long. *)
Theorem metadata_commands_roundtrip s key text ix v lines lines' :
  key_ok key → st_wf (Metadata.metadata_map (sy_metadata s)) →
  st_map (Metadata.metadata_map (sy_metadata s)) !! key = Some (Some ix) → Metadata.md_values (sy_metadata s) !! ix = Some v →
  Metadata.md_type v = Metadata.METADATA_STRING → cstring_wf text → is_ok (parse_utf8_string text).1 = true →
  0 ≤ change_index (sy_world s) < 2 ^ 64 - 1 →
  ∃ s', run s (bytes_of "*METADATA." ++ key ++ [61] ++ text) lines = Ret (bytes_of "OK" ++ [10], s', lines) ∧
    run s' (bytes_of "*METADATA." ++ key ++ [63]) lines' =
      Ret (if bool_decide (length text < MAX_RESULT_LENGTH)%nat then bytes_of "OK =" ++ text ++ [10]
           else bytes_of "ERR Result too long" ++ [10], s', lines') ∧
    Metadata.check_metadata_change_set (sy_metadata s') (change_index (sy_world s)) = true.
Proof.
  intros Hk Hwf Hkey Hv Htype Htext Hutf Hg.
  destruct (Metadata.put_metadata_value_ok (sy_metadata s) (change_index (sy_world s)) key ix v text) as (m' & Eput & Echeck & Eget); [done..|].
  assert (parse_char (Ascii.ascii_of_nat 46) (46 :: key) = (OK tt, key)) as Edot by done.
  set (s' := set_metadata s m' (change_index (sy_world s) + 1) (sy_writer s)). exists s'. split_and!.
  - rewrite (metadata_put s key text lines None s'); [done|done|]. unfold put_metadata. rewrite Edot, metadata_key_ok by done.
    destruct (parse_utf8_string text) as [r rest] eqn:E. assert (r = OK text) as ->.
    { unfold parse_utf8_string in *. injection E as <- <-. unfold test_ok, TEST_OK_ in *. by destruct (bool_decide _). }
    cbn. by rewrite Eput.
  - rewrite (metadata_get s' key lines' ([], match format_string MAX_RESULT_LENGTH text with OK t => OK (RESPONSE_ONE t) | Err e => Err e end) s').
    + unfold format_string, test_ok, TEST_OK_. by case_bool_decide.
    + done.
    + unfold get_metadata. rewrite Edot. cbn [fst snd with_args].
      rewrite key_no_star, metadata_key_ok by done. cbn [fst with_args]. cbn [s' set_metadata sy_metadata]. by rewrite Eget.
  - exact Echeck.
Qed.

(** ** Clearing the capture *)

Lemma capture_found rest :
  (∀ c t, rest = c :: t → valid_name_char c = false) →
  parse_command place table (bytes_of "CAPTURE" ++ rest) = Ret (OK (mk_entry "CAPTURE" true (Some get_capture) (Some put_capture) None), rest).
Proof.
  intros Hrest.
  apply (command_found (bytes_of "CAPTURE") 7); [by repeat constructor|cbn; unfold PosOut.MAX_NAME_LENGTH; lia|done| |by left].
  unfold command_table_list. cbn [find_command ce_name]. rewrite !bool_decide_false by done. by rewrite bool_decide_true.
Qed.

(** After *CAPTURE= nothing is captured: the command is answered with OK, the list
    of what is captured is empty, and so are the values the next capture would take. *)
Theorem capture_reset_command s clock lines lines' :
  Forall (OutputSpec.valid (sp_outputs (class_state (sy_world s)))) (Output.output_fields (sp_outputs (class_state (sy_world s)))) →
  ∃ s', run s (bytes_of "*CAPTURE=") lines = Ret (bytes_of "OK" ++ [10], s', lines) ∧
    run s' (bytes_of "*CAPTURE?") lines' = Ret ([46; 10], s', lines') ∧
    Output.iterate_captured_values clock (sp_outputs (class_state (sy_world s'))) = Ret [].
Proof.
  intros Hv. destruct (OutputSpec.reset_capture_list_clears clock MAX_RESULT_LENGTH _ Hv) as (o' & E & _ & _ & Hi & Hr).
  assert (parse_command place table (bytes_of "CAPTURE") = _) as Hfound by (apply (capture_found []); done).
  exists (set_class s (sp_set_outputs o' (class_state (sy_world s)))). split_and!.
  - unfold process_config_command. change (read_char 42 (bytes_of "*CAPTURE=")) with (true, bytes_of "CAPTURE" ++ [61]).
    cbv beta iota. rewrite split_command_at by (done || by repeat constructor). cbv beta iota.
    rewrite bool_decide_false, bool_decide_true by done. unfold do_write_command. cbn [cs_put system_commands]. unfold process_system_put.
    rewrite Hfound. cbn -[Output.reset_capture_list]. unfold put_capture. cbn -[Output.reset_capture_list]. by rewrite E.
  - unfold process_config_command. change (read_char 42 (bytes_of "*CAPTURE?")) with (true, bytes_of "CAPTURE" ++ [63]).
    cbv beta iota. rewrite split_command_at by (done || by repeat constructor). cbv beta iota.
    rewrite bool_decide_true by done. unfold do_read_command. cbn [cs_get system_commands cur].
    rewrite bool_decide_true by done. unfold process_system_get.
    rewrite Hfound. cbn -[Output.report_capture_list]. unfold get_capture. cbn -[Output.report_capture_list].
    by rewrite sp_get_set_outputs, Hr.
  - cbn. by rewrite sp_get_set_outputs.
Qed.

(** ** Reading *)

Lemma with_args_ret {A B} (args : res A) (s : system) (failed : error → B) f x :
  with_args args s failed f = Ret x → (∃ e, args = Err e ∧ x = (failed e, s)) ∨ ∃ a, args = OK a ∧ f a = Ret x.
Proof. destruct args as [a|e]; cbn; [right; eauto|intros [= <-]; left; eauto]. Qed.

(** A read that at most reads registers of the FPGA. *)
Definition only_reads (s s' : system) : Prop :=
  s' = s ∨ ∃ f, s' = set_class s (sp_set_fpga f (class_state (sy_world s))).
Definition reading (get : system → cstring → outcome (reply * system)) : Prop :=
  ∀ s command r s', get s command = Ret (r, s') → only_reads s s'.

Ltac read_args :=
  repeat match goal with
  | E : with_args _ _ _ _ = Ret _ |- _ => apply with_args_ret in E as [(? & ? & [= -> ->])|(? & ? & E)]; [by left|]
  | E : (let '(_, _) := ?x in _) = Ret _ |- _ => let Ex := fresh "Ex" in destruct x eqn:Ex
  | E : (if ?b then _ else _) = Ret _ |- _ => destruct b
  | E : _ ≫= _ = Ret _ |- _ => apply FieldsSpec.bind_ret in E as (? & ? & E)
  | E : Ret _ = Ret _ |- _ => injection E as <- <-
  | x : _ * _ |- _ => destruct x
  end; try (by left); try (by right; eexists).

Lemma entry_reads place' e get :
  e ∈ commands place' → ce_get e = Some get → bytes_of (ce_name e) = bytes_of "CHANGES" ∨ reading get.
Proof.
  intros Hin. unfold command_table_list in Hin.
  repeat (apply elem_of_cons in Hin as [->|Hin]; [cbn [ce_get ce_name]; intros [= <-]|]).
  all: try (by left); try (by apply not_elem_of_nil in Hin); right; intros s command r s' E.
  - unfold get_idn in E. read_args.
  - unfold get_metadata in E. read_args.
  - unfold get_blocks in E. read_args.
  - unfold get_echo in E. read_args.
  - unfold get_who in E. read_args.
  - unfold get_desc in E. read_args.
  - unfold get_capture in E. read_args.
  - unfold get_positions in E. read_args.
  - unfold get_bits in E. read_args.
  - unfold get_enums in E. read_args.
  - unfold get_pcap in E. destruct (pc_buffer _); read_args.
  - unfold get_clock_freq in E. read_args.
Qed.

Lemma find_command_name name ix l i e : find_command name ix l = Some (i, e) → bytes_of (ce_name e) = name ∧ e ∈ l.
Proof.
  revert ix. induction l as [|x l IH]; intros ix; [done|]. cbn. case_bool_decide as Hn.
  - intros [= <- <-]. split; [done|left].
  - intros E. apply IH in E as [? ?]. split; [done|by right].
Qed.
Lemma changes_entry place' e get :
  e ∈ commands place' → bytes_of (ce_name e) = bytes_of "CHANGES" → ce_get e = Some get → get = get_changes db.
Proof.
  intros Hin. unfold command_table_list in Hin.
  repeat (apply elem_of_cons in Hin as [->|Hin]; [cbn [ce_get ce_name]; intros Hname; [try done|..]; by intros [= <-]|]).
  by apply not_elem_of_nil in Hin.
Qed.
Lemma get_changes_only s command r s' : get_changes db s command = Ret (r, s') → ∃ w c, s' = set_context (set_world s w) c.
Proof.
  unfold get_changes. intros E. apply with_args_ret in E as [(e & _ & [= _ ->])|(cs & _ & E)].
  { exists (sy_world s), (sy_context s). by destruct s. }
  apply FieldsSpec.bind_ret in E as ([[c report] w] & _ & E). apply FieldsSpec.bind_ret in E as ([lines w'] & _ & E).
  injection E as _ <-. by eexists _, _.
Qed.

(** A system command that reads does no more than read registers of the FPGA: all
    else the server keeps is as before, but for *CHANGES, which moves the context of
    the connection and the values polled for the report. *)
Theorem system_get_reads_only s command r s' :
  process_system_get db server_name server_version rootfs_version save_persistent_state generate_connection_list place table s command =
    Ret (r, s') →
  only_reads s s' ∨
  ((parse_name PosOut.MAX_NAME_LENGTH command).1 = OK (bytes_of "CHANGES") ∧ ∃ w c, s' = set_context (set_world s w) c).
Proof.
  unfold process_system_get. rewrite Htable. cbn [mbind outcome_bind]. unfold find_entry.
  destruct (parse_name PosOut.MAX_NAME_LENGTH command) as [[name|e] rest]; [|cbn; intros [= _ <-]; left; by left].
  destruct (find_command name 0 (commands place)) as [[i e]|] eqn:Ef; [|cbn; intros [= _ <-]; left; by left].
  apply find_command_name in Ef as [Hname Hin]. intros E. apply with_args_ret in E as [(e' & _ & [= _ ->])|(get & Hget & E)]; [left; by left|].
  assert (ce_get e = Some get) as Hg.
  { destruct (if ce_allow_arg e then OK tt else (parse_eos rest).1); [|done]. cbn in Hget. destruct (ce_get e); [|done]. by injection Hget as <-. }
  destruct (entry_reads place e get Hin Hg) as [Hc|Hr]; [|left; by apply (Hr s rest r)].
  right. rewrite <-Hname, Hc. split; [done|]. rewrite (changes_entry place e get Hin Hc Hg) in E. by apply (get_changes_only s rest r).
Qed.

(** ** Arming *)

(** C30: *PCAP.ARM= answers OK only when no capture is in progress and no client still
    takes data: then the selection of what is captured has been written to the FPGA, and
    after it the order to arm, and the capture is enabled.  Otherwise nothing is
    armed. *)
Theorem pcap_arm_exact (s s' : system) b error :
  pc_buffer (sy_pcap s) = Some b → put_pcap place s (bytes_of ".ARM") [] = Ret (error, s') →
  match error with
  | Some _ =>
      pc_enabled (sy_pcap s') = pc_enabled (sy_pcap s) ∧
      (s' = s ∨ class_state (sy_world s') = sp_set_fpga (hw_read_nominal_clock (sp_fpga (class_state (sy_world s)))).2 (class_state (sy_world s)))
  | None =>
      pc_enabled (sy_pcap s) = false ∧ pc_enabled (sy_pcap s') = true ∧ (∃ readers, Buffer.read_buffer_status b = (false, readers, 0)) ∧
      ∃ clock f fields words f',
        hw_read_nominal_clock (sp_fpga (class_state (sy_world s))) = (clock, f) ∧
        Output.prepare_fields clock (sp_outputs (class_state (sy_world s))) = Ret fields ∧
        prepare_data_capture (pc_capture (sy_pcap s)) fields = Ret (None, pc_capture (sy_pcap s'), words) ∧
        hw_write_capture_set f words = Ret f' ∧
        class_state (sy_world s') = sp_set_fpga (hw_write_arm f' true) (class_state (sy_world s))
  end.
Proof.
  intros Hb E. unfold put_pcap in E. rewrite Hb in E.
  change ((name ← _; _) : res cstring) with (OK (bytes_of "ARM") : res cstring) in E. cbn [with_args] in E.
  unfold lookup_pcap_put_action in E. rewrite bool_decide_true in E by done. unfold arm_capture in E.
  destruct (DataServer.arm_capture _ _ _ _ _) as [[e|] en] eqn:Ea; [injection E as <- <-; split; [done|by left]|].
  unfold start_data_capture in E. destruct (hw_read_nominal_clock _) as [clock f] eqn:Ec.
  apply FieldsSpec.bind_ret in E as (fields & Ef & E). apply FieldsSpec.bind_ret in E as ([[e capture] words] & Ep & E).
  destruct e as [e|]; [injection E as <- <-; split; [done|by right]|].
  apply FieldsSpec.bind_ret in E as (f' & Ew & E). injection E as <- <-.
  unfold DataServer.arm_capture in Ea. destruct (Buffer.read_buffer_status b) as [[busy readers] active].
  unfold test_ok, TEST_OK_ in Ea. destruct (ExtOut.check_pcap_valid _); [|done].
  destruct (pc_enabled (sy_pcap s)); [done|]. destruct busy; [done|]. cbn in Ea. case_bool_decide as Hact; [|done].
  split_and!; [done|done|by exists readers; rewrite Hact|]. by exists clock, f, fields, words, f'.
Qed.

(** What follows the name is not looked at: this arms the capture too. *)
Example pcap_trailing_text (s : system) b :
  pc_buffer (sy_pcap s) = Some b → put_pcap place s (bytes_of ".ARM.and more") [] = put_pcap place s (bytes_of ".ARM") [].
Proof. intros Hb. unfold put_pcap. by rewrite Hb. Qed.

End run.

End system.
(** ** A small server: one position output, a memory as FPGA *)

#[local] Existing Instance AARCH64.
#[local] Existing Instance register_file.
Abbreviation table_of V := (HashTable.hash_table (K := cstring) (V := V)).
#[local] Instance example_names : StringTable nat (table_of nat) := keep_string_table.
#[local] Instance example_labels : StringTable Z (table_of Z) := keep_string_table.
Abbreviation example_class := (Output.outputs * gmap Z Z)%type.
Abbreviation labels := (Enums.create_dynamic_enumeration (T := table_of Z)).

#[local] Program Instance example_parts : SystemParts example_class (table_of Z) := {|
  sp_outputs := fst;
  sp_set_outputs o c := (o, c.2);
  sp_fpga := snd;
  sp_set_fpga f c := (c.1, f);
  sp_bit_mux_lookup _ := labels;
  sp_pos_out_capture_enum _ := labels;
  sp_attr_description _ := None;
  sp_attr_enumeration _ _ := Ret None;
  sp_field_enumeration _ _ := Ret None;
  sp_subfield _ _ _ := Undef;
  sp_bit_out_refresh _ w := Ret w;
  sp_pos_out_refresh _ w := Ret w;
|}.
Solve All Obligations with done.

Definition example_outputs : Output.outputs :=
  Output.mk_outputs [[PosOut.mk_pos_field (of_Z 1) (of_Z 0) (Some (bytes_of "mm")) 3 1]] [ExtOut.mk_ext ExtOut.EXT_OUT_SAMPLES 0 9 0 false]
    [Output.mk_output (Output.OUTPUT_POS 0) 0 (bytes_of "COUNTER.OUT")] (replicate POS_BUS_COUNT true) (replicate EXT_BUS_COUNT false)
    (Some 0%nat) (bytes_of "PCAP.SAMPLES") (replicate 4 None).
Definition example_metadata : Metadata.metadata (T := table_of nat) :=
  match Metadata.add_metadata_key Metadata.initialise_metadata (bytes_of "LABEL") (bytes_of "string") with
  | Ret (_, m, _) => m
  | _ => Metadata.initialise_metadata
  end.
Definition example_capture_buffer : Buffer.capture_buffer := Buffer.create_buffer 16 3 [[]; []; []] [0; 0; 0].
Definition example_system : SystemCommand.system (C := example_class) (T := table_of nat) :=
  mk_system (mk_state 9 [] (example_outputs, ∅)) example_metadata (replicate 7 0) false
    (mk_pcap (Some example_capture_buffer) false 0 0 CaptureSpec.initial_capture None) None.
Definition no_database : database (C := example_class) (T := table_of nat) := mk_database st_create [] [] [].
Abbreviation fixed f := (f no_database (bytes_of "PandA") (bytes_of "3.0") (bytes_of "1") (λ s, Ret (None, s)) (λ _, [])).
Definition no_commands : config_command_set (S := SystemCommand.system (C := example_class) (T := table_of nat)) :=
  mk_command_set (λ s _, Ret (([], fail "None"), s)) (λ s _ _, Ret (None, s)) (λ s _ _ _ _, Ret (None, s, Table.dummy_table_writer)).

Lemma example_metadata_wf : st_wf (Metadata.metadata_map example_metadata).
Proof.
  destruct (st_create_ok (V := nat) (T := table_of nat)) as [Hwf Hmap].
  destruct (st_insert_ok (V := nat) (T := table_of nat) _ (bytes_of "LABEL") (Some 0%nat) Hwf) as (t & E & Ht & _); [rewrite Hmap; by vm_compute|].
  assert (Metadata.metadata_map example_metadata = t) as -> by (vm_compute in E; injection E as <-; by vm_compute). exact Ht.
Qed.
Lemma metadata_commands_roundtrip_witness :
  ∃ table s', (∀ command, fixed parse_system_command "here" table command = Ret (fixed find_entry "here" command)) ∧
  process_config_command no_commands (fixed system_commands "here" table) s' (bytes_of "*METADATA.LABEL?") [] =
    Ret (bytes_of "OK =a=b" ++ [10], s', []).
Proof.
  destruct (fixed system_table "here") as (table & _ & Ht). exists table.
  destruct (fixed metadata_commands_roundtrip "here" table no_commands Ht example_system (bytes_of "LABEL") (bytes_of "a=b") 0
    (Metadata.mk_value Metadata.METADATA_STRING None 1) [] []) as (s' & _ & Hget & _).
  - split; [by repeat constructor|done|cbn; unfold PosOut.MAX_NAME_LENGTH; lia].
  - exact example_metadata_wf.
  - vm_compute. reflexivity.
  - reflexivity.
  - reflexivity.
  - repeat constructor.
  - vm_compute. reflexivity.
  - cbn. lia.
  - exists s'. exact (conj Ht Hget).
Defined.

Lemma capture_reset_command_witness :
  ∃ table s', process_config_command no_commands (fixed system_commands "here" table) example_system (bytes_of "*CAPTURE=") [] =
      Ret (bytes_of "OK" ++ [10], s', []) ∧
    process_config_command no_commands (fixed system_commands "here" table) s' (bytes_of "*CAPTURE?") [] = Ret ([46; 10], s', []).
Proof.
  destruct (fixed system_table "here") as (table & _ & Ht). exists table.
  destruct (fixed capture_reset_command "here" table no_commands Ht example_system 125000000 [] []) as (s' & E1 & E2 & _).
  - repeat constructor. eexists. split; [reflexivity|]. eexists. reflexivity.
  - exists s'. exact (conj E1 E2).
Defined.

Lemma system_get_reads_only_witness :
  ∃ table r s', fixed process_system_get "here" table example_system (bytes_of "CLOCK_FREQ") = Ret (r, s') ∧ only_reads example_system s'.
Proof.
  destruct (fixed system_table "here") as (table & _ & Ht). exists table.
  assert (∃ r s', fixed process_system_get "here" table example_system (bytes_of "CLOCK_FREQ") = Ret (r, s')) as (r & s' & E).
  { unfold process_system_get. rewrite Ht. do 2 eexists. vm_compute. reflexivity. }
  exists r, s'. split; [exact E|].
  destruct (fixed system_get_reads_only "here" table Ht example_system (bytes_of "CLOCK_FREQ") r s' E) as [Hr|[Hn _]]; [exact Hr|].
  vm_compute in Hn. discriminate.
Defined.

Lemma pcap_arm_exact_witness :
  ∃ s', put_pcap "here" example_system (bytes_of ".ARM") [] = Ret (None, s') ∧ pc_enabled (sy_pcap s') = true.
Proof.
  assert (∃ s', put_pcap "here" example_system (bytes_of ".ARM") [] = Ret (None, s')) as [s' E] by (eexists; vm_compute; reflexivity).
  exists s'. split; [exact E|].
  destruct (pcap_arm_exact "here" example_system s' example_capture_buffer None eq_refl E) as (_ & He & _). exact He.
Defined.

End SystemCommandSpec.
