(* ===== verification/Persistence.v ===== *)
(** * The state file: panda-server/server/persistence.c

    The settings of the server are kept in a file of commands, written when they change
    and carried out when the server starts.  The file is the list of its bytes; what the
    calls that open, close and rename it answer is given.  Messages for the log are not
    modelled, only counted; the waits of the thread are given by what they answer. *)

From S2P Require Import Prelude Errors Parse HashTable HashTableSpec Enums Changes Table Metadata Fields Entity Indent Hardware SystemCommand.
From stdpp Require Import base numbers list list_numbers gmap option strings.
Open Scope Z_scope.

Module Persistence.
Import Parse Changes Fields Entity.

Definition MAX_LINE_LENGTH : nat := 1024.

(** [struct read_line_context]. *)
Record read_line_context := mk_read { line_no : Z; file : list Z }.

(** [do_read_line]: the line, without its end; there is none at the end of the file, nor
    when the line is too long, of which what was read is lost. *)
Definition do_read_line (max_length : nat) (r : read_line_context) : option cstring * read_line_context :=
  match file r with
  | [] => (None, r)
  | _ :: _ =>
      let '(bytes, rest) := Indent.fgets max_length (file r) in
      let r := mk_read (line_no r + 1) rest in
      let line := c_str bytes in
      match (_ ← test_ok (bool_decide (0 < length line)%nat) "Unexpected empty line";
             test_ok (bool_decide (last line = Some 10)) "Line too long") with
      | Err _ => (None, r)
      | OK _ => (Some (take (length line - 1) line), r)
      end
  end.

Section load.
Context {S : Type} (entity_commands system_commands : config_command_set (S := S)).

(** [strcspn(line, "=<")]. *)
Definition is_action (c : Z) : bool := bool_decide (c = 61) || bool_decide (c = 60).
Fixpoint split_line (line : cstring) : cstring * cstring :=
  match line with
  | [] => ([], [])
  | c :: rest => if is_action c then ([], line) else let '(name, tail) := split_line rest in (c :: name, tail)
  end.

Definition load_one_value (s : S) (r : read_line_context) (line : cstring) : outcome (error__t * S * read_line_context) :=
  let '(name, tail) := split_line line in
  let '(star, name) := read_char 42 name in
  let set := if star then system_commands else entity_commands in
  match tail with
  | action :: value =>
      if bool_decide (action = 61) then '(e, s) ← cs_put set s name value; Ret (e, s, r)
      else process_put_table_command (do_read_line MAX_LINE_LENGTH) (Datatypes.S (length (file r))) set s name value r
  | [] => Ret (TEST_OK_ false "Malformed line", s, r)
  end.

(** The loop of [load_persistent_state]: the state, and the number of lines that
    could not be loaded. *)
Fixpoint load_loop (fuel : nat) (s : S) (r : read_line_context) (error_count : Z) : outcome (S * Z) :=
  match fuel with
  | O => Undef
  | Datatypes.S fuel' =>
      match do_read_line MAX_LINE_LENGTH r with
      | (None, _) => Ret (s, error_count)
      | (Some line, r) =>
          '(error, s, r) ← load_one_value s r line;
          load_loop fuel' s r (match error with Some _ => u32 (error_count + 1) | None => error_count end)
      end
  end.
Definition load_file (s : S) (text : list Z) : outcome (S * Z) :=
  load_loop (Datatypes.S (length text)) s (mk_read 0 text) 0.
End load.

(** ** Saving *)

Section save.
Context `{Platform} `{Fpga} {C T TE : Type} `{!StringTable nat T} `{!StringTable Z TE} `{!SystemParts C TE}.
Context (db : database (C := C) (T := T)).
Import SystemCommand.
Abbreviation system := (SystemCommand.system (C := C) (T := T)).

Definition PERSIST_CHANGES : Z := Z.lor (Z.lor (Z.lor CHANGES_CONFIG CHANGES_ATTR) CHANGES_TABLE) CHANGES_METADATA.

(** [generate_change_sets] for a context: the lines and the context. *)
Definition report_changes (context : list Z) (change_set : Z) (print_tables : bool) (s : system)
    : outcome (list cstring * list Z * system) :=
  '(c, report_index, w) ← refresh_change_index sp_bit_out_refresh sp_pos_out_refresh context (sy_world s) change_set;
  '(lines, w) ← generate_change_sets db (sy_metadata s) change_set report_index print_tables w;
  Ret (lines, c, set_world s w).

(** The text of [write_changed_state]; the context of the server is brought up to date
    first. *)
Definition file_text (lines : list cstring) : list Z := concat ((λ line, line ++ [10]) <$> lines).
Fixpoint report_sets (zero : list Z) (sets : list Z) (s : system) : outcome (list cstring * system) :=
  match sets with
  | [] => Ret ([], s)
  | x :: sets =>
      '(lines, zero, s) ← report_changes zero x true s;
      '(rest, s) ← report_sets zero sets s; Ret (lines ++ rest, s)
  end.
Definition saved_sets : list Z := [CHANGES_ATTR; CHANGES_CONFIG; CHANGES_TABLE; CHANGES_METADATA].
Definition saved_text (context : list Z) (s : system) : outcome (list Z * list Z * system) :=
  let '(g, context, _) := update_change_index (change_index (sy_world s)) context PERSIST_CHANGES in
  let s := set_world s (mk_state g (attrs (sy_world s)) (class_state (sy_world s))) in
  '(lines, s) ← report_sets (replicate CHANGE_SET_SIZE 0) saved_sets s;
  Ret (file_text lines, context, s).

(** The state file and its backup, by whether they exist, and the context of this
    module. *)
Record persistence := mk_persistence {
  ps_file : option (list Z);
  ps_backup : option (list Z);
  ps_context : list Z;
  ps_running : bool;            (* thread_running *)
}.

(** [write_changed_state], from what [fopen], [fclose] and [rename] answer. *)
Record file_answers := mk_answers { open_ok : bool; close_ok : bool; rename_ok : bool }.
Definition write_changed_state (a : file_answers) (p : persistence) (s : system) : outcome (error__t * persistence * system) :=
  if open_ok a then
    '(text, context, s) ← saved_text (ps_context p) s;
    if close_ok a && rename_ok a then Ret (None, mk_persistence (Some text) None context (ps_running p), s)
    else Ret (TEST_OK_ false "Writing persistent state", mk_persistence (ps_file p) (Some text) context (ps_running p), s)
  else Ret (TEST_OK_ false "Writing persistent state", p, s).

(** [save_persistent_state]: an error of the write is only reported to the log. *)
Definition save_persistent_state (a : file_answers) (p : persistence) (s : system) : outcome (error__t * persistence * system) :=
  if ps_running p then '(_, p, s) ← write_changed_state a p s; Ret (None, p, s)
  else Ret (TEST_OK_ false "No persistence state configured", p, s).

Definition set_ps_context (p : persistence) (c : list Z) : persistence := mk_persistence (ps_file p) (ps_backup p) c (ps_running p).
Definition check_state_changed (p : persistence) (s : system) : outcome (bool * persistence * system) :=
  '(c, report_index, w) ← refresh_change_index sp_bit_out_refresh sp_pos_out_refresh (ps_context p) (sy_world s) PERSIST_CHANGES;
  '(changed, w) ← check_change_set db (sy_metadata s) PERSIST_CHANGES report_index w;
  Ret (changed, set_ps_context p c, set_world s w).

(** One turn of [persistence_thread], after the first wait; the second and third waits
    change nothing here. *)
Definition persistence_turn (a : file_answers) (p : persistence) (s : system) : outcome (persistence * system) :=
  '(changed, p, s) ← check_state_changed p s;
  if changed : bool then '(_, p, s) ← write_changed_state a p s; Ret (p, s) else Ret (p, s).

(** [load_persistent_state]: the commands are run with the context of this module, which
    is then set to the present. *)
Definition load_persistent_state (entity_commands system_commands : config_command_set (S := system)) (p : persistence) (s : system)
    : outcome (persistence * system * Z) :=
  match ps_file p return outcome (persistence * system * Z) with
  | None => Ret (p, s, 0)
  | Some text =>
      let connection := sy_context s in
      '(s, errors) ← load_file entity_commands system_commands (set_context s (ps_context p)) text;
      let g := get_change_index (change_index (sy_world s)) in
      Ret (mk_persistence (ps_file p) (ps_backup p) (replicate CHANGE_SET_SIZE g) (ps_running p),
           set_context (set_world s (mk_state g (attrs (sy_world s)) (class_state (sy_world s)))) connection, errors)
  end.
End save.
End Persistence.
