(* ===== verification/PersistenceSpec.v ===== *)
(** * What is saved is what is loaded

    The state file is a list of commands; loading the text of such a list carries out
    exactly these commands, in order, and what is written when the state is saved is
    such a text: the commands that stand for the values in memory. *)

From S2P Require Import Prelude Errors Parse Format HashTable HashTableSpec Enums Capture PosOut Mux Changes Table Metadata Fields FieldsSpec Entity Indent IndentSpec Hardware SystemCommand SystemCommandSpec Persistence.
From stdpp Require Import base numbers list list_numbers gmap option strings.
Open Scope Z_scope.

Module PersistenceSpec.
Import Parse Changes Fields Entity Persistence.

(** ** Lines *)

Definition plain_char (c : Z) : Prop := c ≠ 0 ∧ c ≠ 10.
Record line_ok (l : cstring) : Prop := {
  lk_plain : Forall plain_char l;
  lk_short : (length l + 2 ≤ Persistence.MAX_LINE_LENGTH)%nat;
}.
Definition no_action (l : cstring) : Prop := Forall (λ c, is_action c = false) l.

(** The commands of a state file, and the lines each takes. *)
Inductive item :=
  | Item_value (name value : cstring)
  | Item_table (name format : cstring) (lines : list cstring)
  | Item_other (line : cstring).
Definition item_lines (i : item) : list cstring :=
  match i with
  | Item_value name value => [name ++ 61 :: value]
  | Item_table name format lines => (name ++ 60 :: format) :: lines ++ [[]]
  | Item_other line => [line]
  end.
Definition item_ok (i : item) : Prop :=
  Forall line_ok (item_lines i) ∧
  match i with
  | Item_value name _ => no_action name
  | Item_table name _ lines => no_action name ∧ Forall (λ l, l ≠ []) lines
  | Item_other line => no_action line
  end.

Section load.
Context {S : Type} (entity_commands system_commands : config_command_set (S := S)).

(** What each command means: the set of commands is chosen by the star. *)
Definition run_item (s : S) (i : item) : outcome (error__t * S) :=
  let pick name := let '(star, name) := read_char 42 name in (if star then system_commands else entity_commands, name) in
  match i with
  | Item_value name value => let '(set, name) := pick name in cs_put set s name value
  | Item_table name format lines =>
      let '(set, name) := pick name in
      '(e, s, _) ← process_table_command set s name format (lines ++ [[]]); Ret (e, s)
  | Item_other _ => Ret (TEST_OK_ false "Malformed line", s)
  end.
Definition count_error (n : Z) (e : error__t) : Z := match e with Some _ => u32 (n + 1) | None => n end.
Fixpoint run_items (s : S) (items : list item) (errors : Z) : outcome (S * Z) :=
  match items with
  | [] => Ret (s, errors)
  | i :: items => '(e, s) ← run_item s i; run_items s items (count_error errors e)
  end.

Lemma file_text_cons l lines : file_text (l :: lines) = l ++ 10 :: file_text lines.
Proof. unfold file_text. cbn. by rewrite <-(assoc_L (++)). Qed.
Lemma file_text_app l1 l2 : file_text (l1 ++ l2) = file_text l1 ++ file_text l2.
Proof. unfold file_text. by rewrite fmap_app, concat_app. Qed.

Lemma c_str_plain l : Forall plain_char l → c_str (l ++ [10]) = l ++ [10].
Proof. induction 1 as [|c l [Hc _] _ IH]; [done|]. cbn. rewrite decide_False by done. by f_equal. Qed.
Lemma read_line_ok n l rest :
  line_ok l → do_read_line Persistence.MAX_LINE_LENGTH (mk_read n (l ++ 10 :: rest)) = (Some l, mk_read (n + 1) rest).
Proof.
  intros [Hp Hs]. unfold do_read_line. cbn [file line_no].
  rewrite (IndentSpec.fgets_line Persistence.MAX_LINE_LENGTH l rest Hp Hs). destruct (l ++ 10 :: rest) eqn:E; [by destruct l|]. clear E.
  rewrite c_str_plain by done. rewrite length_app. cbn [length]. rewrite (bool_decide_true (0 < _)%nat) by lia.
  rewrite last_snoc, bool_decide_true by done. cbn. by rewrite Nat.add_sub, take_app_length.
Qed.
Lemma empty_line_ok : line_ok [].
Proof. split; [done|cbn; unfold Persistence.MAX_LINE_LENGTH; lia]. Qed.
Lemma read_line_end n : do_read_line Persistence.MAX_LINE_LENGTH (mk_read n []) = (None, mk_read n []).
Proof. done. Qed.

(** The text of lines is a source of them. *)
Definition text_source (r : read_line_context) (lines : list cstring) : Prop := Forall line_ok lines ∧ file r = file_text lines.
Lemma text_line_source : line_source (do_read_line Persistence.MAX_LINE_LENGTH) text_source.
Proof.
  intros [n text] lines [Hok E]. cbn [file] in E. subst text. destruct lines as [|line lines]; [by exists (mk_read n [])|].
  apply list.Forall_cons in Hok as [Hl Hok]. rewrite file_text_cons. exists (mk_read (n + 1) (file_text lines)).
  by rewrite read_line_ok.
Qed.
Lemma file_text_length lines : (length lines ≤ length (file_text lines))%nat.
Proof. induction lines as [|l lines IH]; cbn [length]; [lia|]. rewrite file_text_cons, length_app. cbn [length]. lia. Qed.

(** A table takes the lines up to the blank one. *)
Lemma do_put_table_rest writer lines rest : ∀ (s : S) error, Forall (λ l, cur l ≠ 0) lines →
  Table.do_put_table writer s error (lines ++ [] :: rest) = ('(e, s, _) ← Table.do_put_table writer s error (lines ++ [[]]); Ret (e, s, rest)).
Proof.
  induction lines as [|l lines IH]; intros s error Hne; cbn [app Table.do_put_table]; [done|].
  apply list.Forall_cons in Hne as [Hl Hne]. rewrite bool_decide_false by done. destruct error as [e|]; [by apply IH|].
  destruct (Table.w_write writer s l) as [[e s']| |]; [by apply IH|done..].
Qed.
Lemma table_rest set (s : S) name format lines rest : Forall (λ l, cur l ≠ 0) lines →
  process_table_command set s name format (lines ++ [] :: rest) =
    ('(e, s, _) ← process_table_command set s name format (lines ++ [[]]); Ret (e, s, rest)).
Proof.
  intros Hne. unfold process_table_command. destruct (Table.parse_table_format format) as [[[eos streaming] lst] binary].
  destruct (match eos with OK _ => _ | Err e => _ end) as [[[error s1] writer]| |]; cbn [mbind outcome_bind]; [|done..].
  rewrite do_put_table_rest by done. destruct (Table.do_put_table _ s1 None (lines ++ [[]])) as [[[e s2] r]| |]; cbn [mbind outcome_bind]; [|done..].
  by destruct (Table.w_close _ s2 _) as [[ce s3]| |].
Qed.
Lemma line_cur l : line_ok l → l ≠ [] → cur l ≠ 0.
Proof. intros [Hp _] Hne. destruct l as [|c l]; [done|]. apply list.Forall_cons in Hp as [[? _] _]. done. Qed.

Lemma split_line_at name c rest : no_action name → is_action c = true → split_line (name ++ c :: rest) = (name, c :: rest).
Proof. intros Hn Hc. induction Hn as [|x name Hx _ IH]; cbn; [by rewrite Hc|by rewrite Hx, IH]. Qed.
Lemma split_line_none l : no_action l → split_line l = (l, []).
Proof. induction 1 as [|x name Hx _ IH]; cbn; [done|by rewrite Hx, IH]. Qed.

Lemma table_file set (s : S) name format r lines rest :
  Forall line_ok (lines ++ [] :: rest) → Forall (λ l, l ≠ []) lines → file r = file_text (lines ++ [] :: rest) →
  match process_table_command set s name format (lines ++ [[]]) with
  | Ret (e, s', _) => ∃ r', process_put_table_command (do_read_line Persistence.MAX_LINE_LENGTH) (Datatypes.S (length (file r))) set s name format r =
      Ret (e, s', r') ∧ text_source r' rest
  | Panic => process_put_table_command (do_read_line Persistence.MAX_LINE_LENGTH) (Datatypes.S (length (file r))) set s name format r = Panic
  | Undef => process_put_table_command (do_read_line Persistence.MAX_LINE_LENGTH) (Datatypes.S (length (file r))) set s name format r = Undef
  end.
Proof.
  intros Hl Hne Ef. pose proof (file_text_length (lines ++ [] :: rest)) as Hlen. rewrite <-Ef in Hlen.
  pose proof (process_put_table_source _ _ set (lines ++ [] :: rest) (Datatypes.S (length (file r))) s name format r text_line_source
    (conj Hl Ef) ltac:(lia)) as Hput.
  rewrite table_rest in Hput; [by destruct (process_table_command set s name format (lines ++ [[]])) as [[[e s'] r0]| |]|].
  apply Forall_app in Hl as [Hl _]. rewrite Forall_forall in *. intros l Hin. apply line_cur; [by apply Hl|by apply Hne].
Qed.

(** One command of the file. *)
Lemma load_item s i r rest :
  Forall line_ok rest → item_ok i → file r = file_text (item_lines i ++ rest) →
  ∃ line r1, do_read_line Persistence.MAX_LINE_LENGTH r = (Some line, r1) ∧
    match run_item s i with
    | Ret (e, s') => ∃ r', load_one_value entity_commands system_commands s r1 line = Ret (e, s', r') ∧ text_source r' rest
    | Panic => load_one_value entity_commands system_commands s r1 line = Panic
    | Undef => load_one_value entity_commands system_commands s r1 line = Undef
    end.
Proof.
  intros Hrest [Hl Hi] Ef. assert (∃ line lines, item_lines i = line :: lines) as (line & lines & Ei) by (destruct i; by do 2 eexists).
  rewrite Ei in *. cbn [app] in Ef. apply list.Forall_cons in Hl as [Hl Hls].
  destruct (text_line_source r (line :: lines ++ rest)) as (r1 & E & Hok1 & Ef1); [split; [by constructor; [|apply Forall_app]|done]|].
  exists line, r1. split; [done|]. unfold load_one_value. destruct i as [name value|name format ls|l]; cbn [item_lines run_item] in *; injection Ei as <- <-.
  - rewrite split_line_at by done. destruct (read_char 42 name) as [star name']. rewrite bool_decide_true by done.
    destruct (cs_put _ _ _ _) as [[e s']| |]; [|done..]. by exists r1.
  - destruct Hi as [Hname Hne]. rewrite split_line_at by done. destruct (read_char 42 name) as [star name']. rewrite bool_decide_false by done.
    rewrite <-(assoc_L (++)) in Hok1, Ef1. cbn [app] in Hok1, Ef1.
    pose proof (table_file (if star then system_commands else entity_commands) s name' format r1 ls rest Hok1 Hne Ef1) as Ht.
    destruct (process_table_command _ s name' format (ls ++ [[]])) as [[[e s'] r0]| |]; exact Ht.
  - rewrite split_line_none by done. destruct (read_char 42 l) as [star l']. by exists r1.
Qed.

Lemma load_items items : ∀ s fuel r errors,
  Forall item_ok items → (length items < fuel)%nat → file r = file_text (concat (item_lines <$> items)) →
  load_loop entity_commands system_commands fuel s r errors = run_items s items errors.
Proof.
  induction items as [|i items IH]; intros s fuel r errors Hok Hf Ef; destruct fuel as [|fuel]; cbn [length] in Hf; try lia.
  - destruct r as [n text]. cbn in Ef. by subst text.
  - apply list.Forall_cons in Hok as [Hi Hok]. cbn [fmap list_fmap concat] in Ef.
    assert (Forall line_ok (concat (item_lines <$> items))) as Hrest.
    { apply Forall_concat, Forall_fmap. eapply Forall_impl; [exact Hok|by intros x []]. }
    destruct (load_item s i r _ Hrest Hi Ef) as (line & r1 & E & Hload). cbn [load_loop run_items]. rewrite E.
    destruct (run_item s i) as [[e s']| |]; cbn [mbind outcome_bind]; [|by rewrite Hload..].
    destruct Hload as (r' & -> & _ & Ef'). cbn [mbind outcome_bind]. apply IH; [done|lia|done].
Qed.
Lemma load_text s items :
  Forall item_ok items → load_file entity_commands system_commands s (file_text (concat (item_lines <$> items))) = run_items s items 0.
Proof.
  intros Hok. apply load_items; [done| |done]. pose proof (file_text_length (concat (item_lines <$> items))).
  assert (length items ≤ length (concat (item_lines <$> items)))%nat; [|lia]. clear.
  induction items as [|i items IH]; cbn; [lia|]. rewrite length_app. destruct i; cbn [item_lines length]; lia.
Qed.

(** C31: Loading the text of a list of commands carries out exactly these commands in
    their order, each by the set of commands that its star selects, with the lines of
    a table going to its writer, and counts those that fail. *)
Theorem load_file_exact s items :
  Forall item_ok items →
  load_file entity_commands system_commands s (file_text (concat (item_lines <$> items))) = run_items s items 0.
Proof. apply load_text. Qed.
End load.

(** ** What is written *)

(** Lines that are those of the commands that [o] gives. *)
Definition carries (o : outcome (list item)) (lines : list cstring) : Prop :=
  ∃ items, o = Ret items ∧ Forall item_ok items ∧ lines = concat (item_lines <$> items).
Lemma carries_nil : carries (Ret []) [].
Proof. by exists []. Qed.
Lemma carries_one o i : o = Ret i → item_ok i → carries ((λ i, [i]) <$> o) (item_lines i).
Proof. intros -> Hi. exists [i]. split; [done|]. split; [by constructor|]. cbn. by rewrite app_nil_r. Qed.
Lemma carries_app o1 o2 l1 l2 : carries o1 l1 → carries o2 l2 → carries (i1 ← o1; i2 ← o2; Ret (i1 ++ i2)) (l1 ++ l2).
Proof.
  intros (i1 & -> & H1 & ->) (i2 & -> & H2 & ->). exists (i1 ++ i2). split; [done|]. split; [by apply Forall_app|]. by rewrite fmap_app, concat_app.
Qed.

(** The commands of all elements, in order. *)
Fixpoint each {A} (g : A → outcome (list item)) (l : list A) : outcome (list item) :=
  match l with [] => Ret [] | x :: l => i1 ← g x; i2 ← each g l; Ret (i1 ++ i2) end.
Lemma concat_carries {A} (g : A → outcome (list item)) (h : A → outcome (list cstring)) l : ∀ ls,
  (∀ x lines, x ∈ l → h x = Ret lines → carries (g x) lines) → mapM h l = Ret ls → carries (each g l) (concat ls).
Proof.
  induction l as [|x l IH]; intros ls Hg E; cbn in E; [injection E as <-; apply carries_nil|].
  apply FieldsSpec.bind_ret in E as (y & Ey & E). apply FieldsSpec.bind_ret in E as (ys & Eys & E). injection E as <-.
  cbn [each concat]. apply carries_app; [apply (Hg x); [left|done]|]. apply IH; [|done]. intros z lines Hz. apply Hg. by right.
Qed.

(** A character of a name. *)
Definition name_char (c : Z) : Prop := plain_char c ∧ is_action c = false.
Lemma name_plain l : Forall name_char l → Forall plain_char l.
Proof. intros Hl. eapply Forall_impl; [exact Hl|by intros c []]. Qed.
Lemma name_no_action l : Forall name_char l → no_action l.
Proof. intros Hl. eapply Forall_impl; [exact Hl|by intros c []]. Qed.
Lemma digit_name_char d : 0 ≤ d < 10 → name_char (Format.Format.digit_char d).
Proof.
  intros Hd. unfold name_char, plain_char, is_action, Format.Format.digit_char. rewrite decide_True by lia.
  split; [lia|]. rewrite !bool_decide_false by lia. done.
Qed.
Lemma print_loop_chars fuel n acc : 0 ≤ n → Forall name_char acc → Forall name_char (Format.Format.print_loop fuel 10 n acc).
Proof.
  revert n acc. induction fuel as [|fuel IH]; intros n acc Hn Hacc; [done|]. cbn [Format.Format.print_loop].
  assert (name_char (Format.Format.digit_char (n mod 10))) as Hd by (apply digit_name_char, Z.mod_pos_bound; lia).
  repeat case_decide; try case_bool_decide; try (by constructor); apply IH; try (by constructor); by apply Z.div_pos.
Qed.
Lemma fmt_d_chars n : Forall name_char (Format.Format.fmt_d n).
Proof.
  unfold Format.Format.fmt_d, Format.Format.fmt_u, Format.Format.print_uint. assert (name_char 45) by (repeat split; done).
  repeat case_decide; try case_bool_decide; try constructor; try done; apply print_loop_chars; done || lia.
Qed.

Section reports.
Context `{Platform} {C T : Type} `{!StringTable nat T}.
Context (db : database (C := C) (T := T)) (w0 : state C).

(** *** The values in memory, as commands *)

(** A value, or the mark of one that cannot be read. *)
Definition value_of (name : cstring) (r : res cstring) : item :=
  match r with
  | OK text => Item_value name text
  | Err _ => Item_other (name ++ take (MAX_RESULT_LENGTH - length name - 1) (bytes_of " (error)"))
  end.
(** The name of an instance of a field or of an attribute of it, for a text that ends with
    [c], and the room that is left. *)
Definition named (b : Fields.block T) (f : Fields.field (C := C) T) (attr : option cstring) (number : nat) (c : Z) (k : cstring → nat → outcome item) : outcome item :=
  prefix ← Mux.format_field_name MAX_RESULT_LENGTH (field_label b f) attr (Z.of_nat number) c;
  k (take (length prefix - 1) prefix) (MAX_RESULT_LENGTH - length prefix)%nat.
Definition value_item (b : Fields.block T) (f : Fields.field (C := C) T) (number : nat) : outcome item :=
  named b f None number 61 (λ name room,
    r ← match cm_get (fd_methods f) return outcome (res cstring) with
        | None => Ret (fail "Field not readable")
        | Some get => fst <$> get w0 (fd_class_data f) number room
        end;
    Ret (value_of name r)).
Definition attr_item (b : Fields.block T) (f : Fields.field (C := C) T) (a : attr_methods (C := C)) (number : nat) : outcome item :=
  named b f (Some (am_name a)) number 61 (λ name room,
    r ← fst <$> attr_get w0 a number room;
    Ret (value_of name (x ← r.2; match x with RESPONSE_ONE text => OK text | RESPONSE_MANY => fail EmptyString end))).
Definition table_item (b : Fields.block T) (f : Fields.field (C := C) T) (number : nat) : outcome item :=
  named b f None number 60 (λ name _, rows ← fst <$> table_lines db f w0 number; Ret (Item_table name (bytes_of "B") rows)).
(** A string of metadata is cut off after 255 characters, its name included. *)
Definition metadata_items (p : cstring * Metadata.metadata_value) : outcome (list item) :=
  let name := bytes_of "*METADATA." ++ p.1 in
  match Metadata.md_type p.2 return outcome (list item) with
  | Metadata.METADATA_STRING => text ← Metadata.value_text p.2; Ret [Item_value name (take (MAX_RESULT_LENGTH - 2 - length name) text)]
  | Metadata.METADATA_MULTILINE =>
      rows ← match Metadata.md_value p.2 with None => Ret [] | Some buffer => Metadata.stored_lines (length buffer) buffer end;
      Ret [Item_table name [] rows]
  | Metadata.METADATA_CONSTANT => Ret []
  end.

(** What has ever changed, of a field of one of the change sets and of an attribute. *)
Definition field_flags (f : Fields.field (C := C) T) (count : nat) (change_set : Z) : outcome (list bool) :=
  match cm_change_set (fd_methods f) return outcome (list bool) with
  | Some cs => if includes change_set (Z.shiftl 1 (Z.of_nat (cm_change_set_index (fd_methods f)))) then fst <$> cs w0 (fd_class_data f) 0
               else Ret (replicate count false)
  | None => Ret (replicate count false)
  end.
Definition one (o : outcome item) : outcome (list item) := (λ i, [i]) <$> o.
Definition attr_items (b : Fields.block T) (f : Fields.field (C := C) T) (ix : nat) : outcome (list item) :=
  a ← Capture.at_index (all_attrs db) ix;
  flags ← fst <$> attr_changes db w0 ix 0;
  each (one ∘ attr_item b f a) (changed_numbers (Z.to_nat (b_count b)) flags).
Definition field_items (change_set : Z) (b : Fields.block T) (fix_ : nat) : outcome (list item) :=
  f ← Capture.at_index (all_fields db) fix_;
  let count := Z.to_nat (b_count b) in
  flags ← field_flags f count (Z.land change_set (Z.lnot CHANGES_TABLE));
  values ← each (one ∘ value_item b f) (changed_numbers count flags);
  flags ← field_flags f count (Z.land change_set CHANGES_TABLE);
  tables ← each (one ∘ table_item b f) (changed_numbers count flags);
  texts ← (if includes change_set CHANGES_ATTR then each (attr_items b f) (walk (fd_attrs f)) else Ret []);
  Ret (values ++ tables ++ texts).
Definition block_items (change_set : Z) (bix : nat) : outcome (list item) :=
  b ← Capture.at_index (blocks db) bix; each (field_items change_set b) (walk (b_fields b)).
Definition set_items (m : Metadata.metadata (T := T)) (change_set : Z) : outcome (list item) :=
  values ← each (block_items change_set) (walk (block_map db));
  meta ← (if includes change_set CHANGES_METADATA
          then each metadata_items (filter (λ p, changed_since 0 (Metadata.md_update_index p.2) = true) (Metadata.entries m)) else Ret []);
  Ret (values ++ meta).
(** All that is to be saved: the attributes, the settings, the tables and the metadata. *)
Definition saved_items (m : Metadata.metadata (T := T)) : outcome (list item) := each (set_items m) saved_sets.

(** Nothing but the report itself changes the state while it is saved: with [now] for the
    states in which the values are those of [w0], the reads stay in it and answer as in
    [w0]. *)
Record settled (now : state C → Prop) : Prop := {
  se_start : now w0;
  se_index w g : now w → now (mk_state g (attrs w) (class_state w));
  se_get f get w number room r w' : f ∈ all_fields db → cm_get (fd_methods f) = Some get → now w →
    get w (fd_class_data f) number room = Ret (r, w') → now w' ∧ fst <$> get w0 (fd_class_data f) number room = Ret r;
  se_attr a w number room r w' : a ∈ all_attrs db → now w →
    attr_get w a number room = Ret (r, w') → now w' ∧ fst <$> attr_get w0 a number room = Ret r;
  se_changes f cs w flags w' : f ∈ all_fields db → cm_change_set (fd_methods f) = Some cs → now w →
    cs w (fd_class_data f) 0 = Ret (flags, w') → now w' ∧ fst <$> cs w0 (fd_class_data f) 0 = Ret flags;
  se_attr_changes ix w flags w' : now w → attr_changes db w ix 0 = Ret (flags, w') → now w' ∧ fst <$> attr_changes db w0 ix 0 = Ret flags;
}.

(** *** Their texts *)

(** What the classes promise of their texts: they fit the room they are given and hold
    no end of line; names are names. *)
Definition text_line (l : cstring) : Prop := line_ok l ∧ l ≠ [].
Record texts_ok : Prop := {
  tx_block b : b ∈ blocks db → Forall name_char (b_name b);
  tx_field f : f ∈ all_fields db → Forall name_char (fd_name f);
  tx_attr a : a ∈ all_attrs db → Forall name_char (am_name a);
  tx_get f get w data number room text w' : f ∈ all_fields db → cm_get (fd_methods f) = Some get →
    get w data number room = Ret (OK text, w') → Forall plain_char text ∧ (length text < room)%nat;
  tx_format a format w number room text w' : a ∈ all_attrs db → am_format a = Some format →
    format w number room = Ret (OK text, w') → Forall plain_char text ∧ (length text < room)%nat;
  tx_many a get_many w number e lines w' : a ∈ all_attrs db → am_get_many a = Some get_many →
    get_many w number = Ret (e, lines, w') → Forall text_line lines;
}.
Context (Htexts : texts_ok) (now : state C → Prop) (Hnow : settled now).

Lemma at_index_elem {A} (l : list A) i x : Capture.at_index l i = Ret x → x ∈ l.
Proof. unfold Capture.at_index. destruct (l !! i) eqn:E; [intros [= <-]; by eapply list_elem_of_lookup_2|done]. Qed.

(** The name of a value, and the line made of it. *)
Definition prefix_of_line (prefix : cstring) (c : Z) : Prop :=
  ∃ name, prefix = name ++ [c] ∧ Forall name_char name ∧ (length prefix < MAX_RESULT_LENGTH)%nat.
Lemma format_name_prefix f attr number c prefix :
  Forall name_char (Mux.block_name f) → Forall name_char (Mux.f_name f) → (∀ a, attr = Some a → Forall name_char a) → c ≠ 0 →
  Mux.format_field_name MAX_RESULT_LENGTH f attr number c = Ret prefix → prefix_of_line prefix c.
Proof.
  intros Hb Hf Ha Hc E. unfold Mux.format_field_name in E.
  apply FieldsSpec.bind_ret in E as (? & _ & E). apply FieldsSpec.bind_ret in E as (? & _ & E). apply FieldsSpec.bind_ret in E as (? & Hl & E).
  injection E as <-. set (name := Mux.field_text f number ++ _) in *.
  assert (Forall name_char name) as Hname.
  { assert (name_char 46) by (repeat split; done). unfold name, Mux.field_text. rewrite !Forall_app. split_and!; [done| |by constructor|done|].
    - destruct (bool_decide (Mux.block_count f = 1)); [constructor|apply fmt_d_chars].
    - destruct attr as [a|]; [constructor; [done|by apply Ha]|constructor]. }
  exists name. replace (name ++ [c; 0]) with ((name ++ [c]) ++ 0 :: []) by (by rewrite <-(assoc_L (++))).
  rewrite c_str_terminated.
  - split; [done|]. split; [done|]. unfold in_range in Hl. destruct (bool_decide _) eqn:El; [|done].
    apply bool_decide_eq_true in El. rewrite length_app. cbn [length]. lia.
  - apply Forall_app. split; [|by constructor]. eapply Forall_impl; [exact Hname|]. by intros y [[? _] _].
Qed.

Lemma line_short l : Forall plain_char l → (length l < MAX_RESULT_LENGTH)%nat → line_ok l.
Proof. intros Hp Hl. split; [done|]. unfold Persistence.MAX_LINE_LENGTH, MAX_RESULT_LENGTH in *. lia. Qed.

Lemma prefix_name prefix c : prefix_of_line prefix c →
  ∃ name, prefix = name ++ [c] ∧ take (length prefix - 1) prefix = name ∧ Forall name_char name ∧ (length name + 1 < MAX_RESULT_LENGTH)%nat.
Proof.
  intros (name & -> & Hname & Hlen). rewrite length_app in *. cbn [length] in *. exists name. by rewrite Nat.add_sub, take_app_length.
Qed.
Lemma report_line_item prefix r :
  prefix_of_line prefix 61 → (∀ text, r = OK text → Forall plain_char text ∧ (length text < MAX_RESULT_LENGTH - length prefix)%nat) →
  let i := value_of (take (length prefix - 1) prefix) r in item_ok i ∧ [report_line prefix r] = item_lines i.
Proof.
  intros (name & -> & -> & Hname & Hlen)%prefix_name Hr. unfold report_line, value_of. rewrite length_app in *. cbn [length] in *.
  destruct r as [text|e].
  - destruct (Hr text eq_refl) as [Hp Hl]. rewrite <-(assoc_L (++)). cbn [app].
    split; [|done]. split; [|by apply name_no_action]. constructor; [|constructor].
    apply line_short; [|rewrite length_app; cbn [length]; lia].
    apply Forall_app. split; [by apply name_plain|]. by constructor.
  - rewrite Nat.add_sub, take_app_length.
    set (tail := take _ (bytes_of " (error)")). assert (Forall name_char tail) as Ht.
    { apply Forall_take. apply (bool_decide_unpack (Forall name_char (bytes_of " (error)"))). vm_compute. exact I. }
    assert (length tail ≤ MAX_RESULT_LENGTH - length name - 1)%nat by (unfold tail; rewrite length_take; lia).
    split; [|done]. split; [|apply Forall_app; split; by apply name_no_action].
    constructor; [|constructor]. apply line_short; [apply Forall_app; split; by apply name_plain|]. rewrite length_app. lia.
Qed.
Lemma ret_inj {A} (a a' : A) : Ret a = Ret a' → a = a'.
Proof. by intros [= ->]. Qed.
Lemma ret_pair {A B} (a a' : A) (b b' : B) : Ret (a, b) = Ret (a', b') → a = a' ∧ b = b'.
Proof. by intros [= -> ->]. Qed.
Lemma label_prefix b f attr number c prefix :
  b ∈ blocks db → f ∈ all_fields db → (∀ a, attr = Some a → Forall name_char a) → c ≠ 0 →
  Mux.format_field_name MAX_RESULT_LENGTH (field_label b f) attr number c = Ret prefix → prefix_of_line prefix c.
Proof. intros Hb Hf Ha Hc. apply format_name_prefix; [by apply (tx_block Htexts)|by apply (tx_field Htexts)|done..]. Qed.

(** Reading in a state that is now gives the command of the value. *)
Definition reads_item (o : outcome item) (line : cstring) (w' : state C) : Prop := carries (one o) [line] ∧ now w'.
Lemma reads_value o prefix r w' : o = Ret (value_of (take (length prefix - 1) prefix) r) → prefix_of_line prefix 61 → now w' →
  (∀ text, r = OK text → Forall plain_char text ∧ (length text < MAX_RESULT_LENGTH - length prefix)%nat) → reads_item o (report_line prefix r) w'.
Proof. intros -> Hp Hw Hr. destruct (report_line_item prefix r Hp Hr) as [Hok E]. split; [|done]. rewrite E. by apply carries_one. Qed.

Lemma value_carried b f w number line w' :
  b ∈ blocks db → f ∈ all_fields db → now w → report_changed_value b f w number = Ret (line, w') → reads_item (value_item b f number) line w'.
Proof.
  intros Hb Hf Hw E. unfold report_changed_value in E. apply FieldsSpec.bind_ret in E as (prefix & Ep & E).
  unfold value_item, named. rewrite Ep. cbn [mbind outcome_bind]. apply label_prefix in Ep; [|done..].
  destruct (cm_get (fd_methods f)) as [get|] eqn:Eg; [|apply ret_pair in E as [<- <-]; by apply reads_value].
  apply FieldsSpec.bind_ret in E as ([r w1] & Er & E). apply ret_pair in E as [<- <-]. destruct (se_get _ Hnow f get _ _ _ _ _ Hf Eg Hw Er) as [Hw1 E0].
  apply reads_value; [by rewrite E0|done|done|]. intros text ->. by apply (tx_get Htexts f get _ _ _ _ text w1 Hf Eg Er).
Qed.

Lemma attr_get_text a w number room lines r w' :
  a ∈ all_attrs db → attr_get w a number room = Ret ((lines, r), w') →
  Forall text_line lines ∧ ∀ text, r = OK (RESPONSE_ONE text) → Forall plain_char text ∧ (length text < room)%nat.
Proof.
  intros Ha E. unfold attr_get in E. destruct (am_format a) as [format|] eqn:Ef; [|destruct (am_get_many a) as [many|] eqn:Em].
  - destruct (format w number room) as [[x w1]| |] eqn:Ex; [|done..]. injection E as <- <- <-. split; [constructor|].
    intros text E2. destruct x as [t|e]; [|done]. injection E2 as ->. by apply (tx_format Htexts a format w number room text w1 Ha Ef).
  - destruct (many w number) as [[[e ls] w1]| |] eqn:Ex; [|done..]. injection E as <- <- <-. cbn.
    split; [by apply (tx_many Htexts a many w number e ls w1 Ha Em)|]. by destruct e.
  - injection E as <- <- <-. split; [constructor|done].
Qed.

Lemma attr_carried b f a w number line w' :
  b ∈ blocks db → f ∈ all_fields db → a ∈ all_attrs db → now w → report_changed_attr b f a w number = Ret (line, w') →
  reads_item (attr_item b f a number) line w'.
Proof.
  intros Hb Hf Ha Hw E. unfold report_changed_attr in E. apply FieldsSpec.bind_ret in E as (prefix & Ep & E).
  unfold attr_item, named. rewrite Ep. cbn [mbind outcome_bind].
  apply label_prefix in Ep; [|done|done|intros x [= <-]; by apply (tx_attr Htexts)|done].
  apply FieldsSpec.bind_ret in E as ([[lines r] w1] & Er & E). apply ret_pair in E as [<- <-]. destruct (se_attr _ Hnow _ _ _ _ _ _ Ha Hw Er) as [Hw1 E0].
  unfold reply in *. rewrite E0. cbn [mbind outcome_bind snd]. apply reads_value; [done..|]. intros text Ht.
  destruct (attr_get_text _ _ _ _ _ _ _ Ha Er) as [_ Hr]. apply Hr. destruct r as [[t|]|e]; cbn in Ht; try discriminate; by injection Ht as ->.
Qed.

Lemma table_item_ok name format lines :
  Forall name_char name → Forall plain_char format → (length name + length format < MAX_RESULT_LENGTH)%nat → Forall text_line lines →
  item_ok (Item_table name format lines).
Proof.
  intros Hn Hf Hl Hlines. split.
  - constructor.
    + split; [apply Forall_app; split; [by apply name_plain|by constructor]|].
      rewrite length_app. cbn [length]. unfold Persistence.MAX_LINE_LENGTH, MAX_RESULT_LENGTH in *. lia.
    + apply Forall_app. split; [eapply Forall_impl; [exact Hlines|by intros x []]|]. constructor; [apply empty_line_ok|constructor].
  - split; [by apply name_no_action|]. eapply Forall_impl; [exact Hlines|by intros x []].
Qed.

Lemma table_lines_now f w number lines w' : now w → table_lines db f w number = Ret (lines, w') →
  Forall text_line lines ∧ now w' ∧ fst <$> table_lines db f w0 number = Ret lines.
Proof.
  intros Hw E. unfold table_lines in *. apply FieldsSpec.bind_ret in E as (ix & -> & E). cbn [mbind outcome_bind].
  destruct ix as [ix|e]; [|injection E as <- <-; by split_and!].
  apply FieldsSpec.bind_ret in E as (a & Ea & E). rewrite Ea. cbn [mbind outcome_bind]. apply at_index_elem in Ea.
  apply FieldsSpec.bind_ret in E as ([[ls r] w1] & Er & E). apply ret_pair in E as [<- <-]. destruct (se_attr _ Hnow _ _ _ _ _ _ Ea Hw Er) as [Hw1 E0].
  split; [by apply (attr_get_text _ _ _ _ _ _ _ Ea Er)|]. split; [done|].
  destruct (attr_get w0 a number MAX_RESULT_LENGTH) as [[r0 w2]| |]; [|done..]. injection E0 as ->. done.
Qed.
Lemma table_carried b f w number lines w' :
  b ∈ blocks db → f ∈ all_fields db → now w → report_changed_table db true b f w number = Ret (lines, w') →
  carries (one (table_item b f number)) lines ∧ now w'.
Proof.
  intros Hb Hf Hw E. unfold report_changed_table in E. apply FieldsSpec.bind_ret in E as (prefix & Ep & E).
  unfold table_item, named. rewrite Ep. cbn [mbind outcome_bind]. apply label_prefix in Ep; [|done..].
  apply prefix_name in Ep as (name & -> & -> & Hname & Hlen).
  apply FieldsSpec.bind_ret in E as ([ls w1] & Els & E). apply ret_pair in E as [<- <-]. destruct (table_lines_now _ _ _ _ _ Hw Els) as (Hls & Hw1 & ->).
  split; [|done]. rewrite <-(assoc_L (++)). cbn [app].
  apply (carries_one (Ret _) (Item_table name (bytes_of "B") ls)); [done|].
  change (bytes_of "B") with [66]. apply table_item_ok; [done|by repeat constructor|cbn [length]; lia|done].
Qed.

Lemma report_loop_carries {A} (step : state C → A → outcome (list cstring * state C)) (g : A → outcome (list item)) l : ∀ w lines w',
  (∀ w x lines w', x ∈ l → now w → step w x = Ret (lines, w') → carries (g x) lines ∧ now w') →
  now w → report_loop step w l = Ret (lines, w') → carries (each g l) lines ∧ now w'.
Proof.
  induction l as [|x l IH]; intros w lines w' Hstep Hw E; cbn in E; [injection E as <- <-; split; [apply carries_nil|done]|].
  apply FieldsSpec.bind_ret in E as ([l1 w1] & E1 & E). apply FieldsSpec.bind_ret in E as ([l2 w2] & E2 & E). injection E as <- <-.
  destruct (Hstep w x l1 w1) as [H1 Hw1]; [left|done..|]. destruct (IH w1 l2 w2) as [H2 Hw2]; [|done..|].
  - intros ? y ?? Hy. apply Hstep. by right.
  - split; [by apply carries_app|done].
Qed.
Lemma one_line_carries {A} (step : state C → A → outcome (cstring * state C)) (g : A → outcome item) l w lines w' :
  (∀ w x line w', x ∈ l → now w → step w x = Ret (line, w') → reads_item (g x) line w') →
  now w → report_loop (λ w x, one_line <$> step w x) w l = Ret (lines, w') → carries (each (one ∘ g) l) lines ∧ now w'.
Proof.
  intros Hg. apply report_loop_carries. clear w lines w'. intros w x lines w' Hx Hw E. destruct (step w x) as [[line w1]| |] eqn:Eg; [|done..].
  injection E as <- <-. by apply (Hg w x line w1).
Qed.

(** The report is of everything since the beginning. *)
Definition from_start (change_set : Z) (report_index : list Z) : Prop :=
  ∀ i r, includes change_set (Z.shiftl 1 (Z.of_nat i)) = true → Capture.at_index report_index i = Ret r → r = 0.
Lemma includes_part x m b : includes (Z.land x m) b = true → includes x b = true.
Proof.
  unfold includes. rewrite !bool_decide_eq_true. intros Hne E. apply Hne.
  by rewrite <-Z.land_assoc, (Z.land_comm m), Z.land_assoc, E.
Qed.

Lemma field_flags_now x m report_index f count w flags w' : from_start x report_index → f ∈ all_fields db → now w →
  get_field_change_set w f count (Z.land x m) report_index = Ret (flags, w') → field_flags f count (Z.land x m) = Ret flags ∧ now w'.
Proof.
  intros Hz Hf Hw E. unfold get_field_change_set, field_flags in *. destruct (cm_change_set (fd_methods f)) as [cs|] eqn:Ec; [|by injection E as <- <-].
  destruct (includes _ _) eqn:Ei; [|by injection E as <- <-]. apply FieldsSpec.bind_ret in E as (r & Er & E).
  apply Hz in Er as ->; [|by eapply includes_part]. destruct (se_changes _ Hnow f cs _ _ _ Hf Ec Hw E) as [? ->]. done.
Qed.
Lemma attr_report_carries b f w ix lines w' :
  b ∈ blocks db → f ∈ all_fields db → now w → report_attr db b f 0 w ix = Ret (lines, w') → carries (attr_items b f ix) lines ∧ now w'.
Proof.
  intros Hb Hf Hw E. unfold report_attr, attr_items in *. apply FieldsSpec.bind_ret in E as (a & Ea & E). rewrite Ea. cbn [mbind outcome_bind].
  apply at_index_elem in Ea. apply FieldsSpec.bind_ret in E as ([flags w1] & Ef & E).
  destruct (se_attr_changes _ Hnow _ _ _ _ Hw Ef) as [Hw1 ->]. cbn [mbind outcome_bind].
  eapply one_line_carries; [|exact Hw1|exact E]. intros w2 n line w3 _ Hw2. by apply attr_carried.
Qed.
Lemma field_report_carries x report_index b w ix lines w' :
  from_start x report_index → b ∈ blocks db → now w → report_field db x report_index true b w ix = Ret (lines, w') →
  carries (field_items x b ix) lines ∧ now w'.
Proof.
  intros Hz Hb Hw E. unfold report_field, field_items in *. apply FieldsSpec.bind_ret in E as (f & Ef & E). rewrite Ef. cbn [mbind outcome_bind].
  apply at_index_elem in Ef. apply FieldsSpec.bind_ret in E as ([c1 w1] & E1 & E). apply FieldsSpec.bind_ret in E as ([values w2] & Ev & E).
  apply FieldsSpec.bind_ret in E as ([c2 w3] & E3 & E). apply FieldsSpec.bind_ret in E as ([tables w4] & Et & E).
  apply FieldsSpec.bind_ret in E as ([texts w5] & Ex & E). injection E as <- <-.
  destruct (field_flags_now _ _ _ _ _ _ _ _ Hz Ef Hw E1) as [-> Hw1]. cbn [mbind outcome_bind].
  destruct (one_line_carries _ (value_item b f) _ _ _ _ (λ w x line w' _ Hw, value_carried b f w x line w' Hb Ef Hw) Hw1 Ev) as [Hv Hw2].
  destruct (field_flags_now _ _ _ _ _ _ _ _ Hz Ef Hw2 E3) as [-> Hw3]. cbn [mbind outcome_bind].
  destruct (report_loop_carries _ (one ∘ table_item b f) _ _ _ _ (λ w x lines w' _ Hw, table_carried b f w x lines w' Hb Ef Hw) Hw3 Et) as [Ht Hw4].
  assert (carries (if includes x CHANGES_ATTR then each (attr_items b f) (walk (fd_attrs f)) else Ret []) texts ∧ now w5) as [Hx Hw5].
  { destruct (includes x CHANGES_ATTR) eqn:Ea; [|injection Ex as <- <-; split; [apply carries_nil|done]].
    apply FieldsSpec.bind_ret in Ex as (report & Er & Ex). apply Hz in Er as ->; [|exact Ea].
    eapply report_loop_carries; [|exact Hw4|exact Ex]. intros w6 n ls w7 _ Hw6. by apply attr_report_carries. }
  split; [|done]. destruct Hv as (i1 & -> & ? & ->), Ht as (i2 & -> & ? & ->), Hx as (i3 & -> & ? & ->). cbn [mbind outcome_bind].
  exists (i1 ++ i2 ++ i3). split; [done|]. rewrite !fmap_app, !concat_app. split; [|done]. by rewrite !Forall_app.
Qed.
Lemma block_report_carries x report_index w bix lines w' :
  from_start x report_index → now w → report_block db x report_index true w bix = Ret (lines, w') → carries (block_items x bix) lines ∧ now w'.
Proof.
  intros Hz Hw E. unfold report_block, block_items in *. apply FieldsSpec.bind_ret in E as (b & Hb & E). rewrite Hb. cbn [mbind outcome_bind].
  apply at_index_elem in Hb. eapply report_loop_carries; [|exact Hw|exact E]. intros w4 n ls2 w5 _ Hw4. by apply field_report_carries.
Qed.

(** The values of metadata are names, lines and texts. *)
Definition metadata_ok (m : Metadata.metadata (T := T)) : Prop :=
  ∀ key v, (key, v) ∈ Metadata.entries m →
    Forall name_char key ∧ (length key < PosOut.MAX_NAME_LENGTH)%nat ∧
    (∀ t, Metadata.md_type v = Metadata.METADATA_STRING → Metadata.value_text v = Ret t → Forall plain_char t) ∧
    (∀ buffer lines, Metadata.md_type v = Metadata.METADATA_MULTILINE → Metadata.md_value v = Some buffer →
       Metadata.stored_lines (length buffer) buffer = Ret lines → Forall text_line lines).
Lemma metadata_carried m p lines :
  metadata_ok m → p ∈ Metadata.entries m → Metadata.report_entry true p = Ret lines → carries (metadata_items p) lines.
Proof.
  intros Hm Hp E. destruct p as [key v]. destruct (Hm key v Hp) as (Hkey & Hlen & Htext & Hlines). unfold PosOut.MAX_NAME_LENGTH in Hlen.
  unfold metadata_items. cbn [fst snd]. set (name := bytes_of "*METADATA." ++ key). assert (Forall name_char name) as Hname.
  { apply Forall_app. split; [|done]. apply (bool_decide_unpack (Forall name_char (bytes_of "*METADATA."))). vm_compute. exact I. }
  assert (length name < 10 + 64)%nat as Hl by (unfold name; rewrite length_app; cbn; lia).
  unfold Metadata.report_entry in E. cbn [fst snd] in E. fold name in E. destruct (Metadata.md_type v) eqn:Et.
  - apply FieldsSpec.bind_ret in E as (t & Ev & E). apply ret_inj in E as <-. rewrite Ev. cbn [mbind outcome_bind].
    change (name ++ [61] ++ t) with (name ++ 61 :: t). rewrite take_app_ge by (unfold Metadata.MAX_RESULT_LENGTH; lia).
    replace (Metadata.MAX_RESULT_LENGTH - 1 - length name)%nat with (S (MAX_RESULT_LENGTH - 2 - length name))
      by (unfold Metadata.MAX_RESULT_LENGTH, MAX_RESULT_LENGTH; lia). cbn [take].
    apply (carries_one (Ret _) (Item_value name _)); [done|]. split; [|by apply name_no_action]. constructor; [|constructor]. apply line_short.
    + apply Forall_app. split; [by apply name_plain|]. constructor; [done|]. apply Forall_take. by apply Htext.
    + rewrite length_app. cbn [length]. rewrite length_take. unfold MAX_RESULT_LENGTH. lia.
  - apply FieldsSpec.bind_ret in E as (ls & El & E). apply ret_inj in E as <-. rewrite El. cbn [mbind outcome_bind].
    apply (carries_one (Ret _) (Item_table name [] ls)); [done|].
    apply table_item_ok; [done|constructor|cbn [length]; unfold MAX_RESULT_LENGTH; lia|].
    destruct (Metadata.md_value v) as [buffer|] eqn:Eb; [by apply (Hlines buffer)|injection El as <-; constructor].
  - apply ret_inj in E as <-. apply carries_nil.
Qed.
Lemma generated_carries m x report_index w lines w' :
  metadata_ok m → from_start x report_index → now w → generate_change_sets db m x report_index true w = Ret (lines, w') →
  carries (set_items m x) lines ∧ now w'.
Proof.
  intros Hm Hz Hw E. unfold generate_change_sets, set_items in *. apply FieldsSpec.bind_ret in E as ([ls w1] & El & E).
  apply FieldsSpec.bind_ret in E as (meta & Em & E). injection E as <- <-.
  destruct (report_loop_carries _ (block_items x) _ _ _ _ (λ w bix lines w' _ Hw, block_report_carries x _ w bix lines w' Hz Hw) Hw El) as [Hv Hw1].
  split; [|done]. apply carries_app; [done|].
  destruct (includes x CHANGES_METADATA) eqn:Ei; [|injection Em as <-; apply carries_nil].
  apply FieldsSpec.bind_ret in Em as (report & Er & Em). apply Hz in Er as ->; [|exact Ei]. unfold Metadata.generate_metadata_change_set in Em.
  destruct (mapM _ _) as [groups| |] eqn:Eg; [|done..]. injection Em as <-.
  eapply concat_carries; [|exact Eg]. intros p lines' Hp. apply (metadata_carried m); [done|]. by apply list_elem_of_filter in Hp as [_ Hp].
Qed.

End reports.

(** ** Save, then load *)

Section save.
Context `{Platform} `{Fpga} {C T TE : Type} `{!StringTable nat T} `{!StringTable Z TE} `{!SystemParts C TE}.
Context (db : database (C := C) (T := T)).
Implicit Types s : SystemCommand.system (C := C) (T := T).

Context (w0 : Fields.state C) (now : Fields.state C → Prop) (Hnow : settled db w0 now).

Lemma includes_in_set x i : includes x (Z.shiftl 1 (Z.of_nat i)) = true → in_set x i = true.
Proof. done. Qed.
Lemma in_set_bit x i : in_set x i = true ↔ Z.testbit x (Z.of_nat i) = true.
Proof. unfold in_set, PosOut.bits_set. by rewrite FieldsSpec.land_bit by lia. Qed.
(** The index of a change set is untouched by the report of another one. *)
Definition unreported (context : list Z) (change_set : Z) : Prop :=
  ∀ i, includes change_set (Z.shiftl 1 (Z.of_nat i)) = true → context !! i = Some 0 ∨ context !! i = None.
Lemma updated_from_start g context x : unreported context x → from_start x (update_change_index g context x).2.
Proof.
  intros Hu i r Hi Hr. unfold update_change_index, Capture.at_index in Hr. cbn [snd] in Hr. rewrite list_lookup_imap in Hr.
  destruct (Hu i Hi) as [E|E]; rewrite E in Hr; [|done]. cbn [fmap option_fmap option_map] in Hr. rewrite (includes_in_set _ _ Hi) in Hr. by injection Hr as <-.
Qed.
Lemma updated_unreported g context x y : Z.land x y = 0 → unreported context y → unreported (update_change_index g context x).1.2 y.
Proof.
  intros Hxy Hu i Hi. unfold update_change_index. cbn [fst snd]. rewrite list_lookup_imap.
  destruct (Hu i Hi) as [-> | ->]; [|by right]. left. cbn [fmap option_fmap option_map]. destruct (in_set x i) eqn:Ex; [|done].
  apply in_set_bit in Ex. apply includes_in_set, in_set_bit in Hi. apply (f_equal (λ z, Z.testbit z (Z.of_nat i))) in Hxy.
  rewrite Z.land_spec, Ex, Hi, Z.bits_0 in Hxy. done.
Qed.

Lemma report_changes_items context x s lines context' s' :
  texts_ok db → metadata_ok (SystemCommand.sy_metadata s) → now (SystemCommand.sy_world s) →
  unreported context x → includes x CHANGES_BITS = false → includes x CHANGES_POSITION = false →
  report_changes db context x true s = Ret (lines, context', s') →
  carries (set_items db w0 (SystemCommand.sy_metadata s) x) lines ∧ SystemCommand.sy_metadata s' = SystemCommand.sy_metadata s ∧
  now (SystemCommand.sy_world s') ∧ ∀ y, Z.land x y = 0 → unreported context y → unreported context' y.
Proof.
  intros Hdb Hm Hw Hz Hbits Hpos E. unfold report_changes, refresh_change_index in E. rewrite Hbits, Hpos in E.
  destruct (update_change_index _ context x) as [[g c] report] eqn:Eu. cbn [mbind outcome_bind] in E.
  apply FieldsSpec.bind_ret in E as ([ls w'] & El & E). injection E as <- <- <-.
  eapply (generated_carries db w0 Hdb now Hnow) in El as [Hc Hw']; [|done|by pose proof (updated_from_start (change_index (SystemCommand.sy_world s)) context x Hz) as H1; rewrite Eu in H1|by apply (se_index _ _ _ Hnow)].
  split_and!; [done..|]. intros y Hxy Hy. pose proof (updated_unreported (change_index (SystemCommand.sy_world s)) context x y Hxy Hy) as H1. by rewrite Eu in H1.
Qed.
(** The sets that are saved are different ones. *)
Fixpoint separate (sets : list Z) : Prop :=
  match sets with
  | [] => True
  | x :: sets => includes x CHANGES_BITS = false ∧ includes x CHANGES_POSITION = false ∧ Forall (λ y, Z.land x y = 0) sets ∧ separate sets
  end.
Lemma report_sets_items sets : ∀ zero s lines s',
  texts_ok db → metadata_ok (SystemCommand.sy_metadata s) → now (SystemCommand.sy_world s) →
  separate sets → Forall (unreported zero) sets → report_sets db zero sets s = Ret (lines, s') →
  carries (each (set_items db w0 (SystemCommand.sy_metadata s)) sets) lines.
Proof.
  induction sets as [|x sets IH]; intros zero s lines s' Hdb Hm Hw Hsep Hz E; cbn in E; [injection E as <- _; apply carries_nil|].
  destruct Hsep as (Hb & Hp & Hd & Hsep). apply list.Forall_cons in Hz as [Hx Hz].
  apply FieldsSpec.bind_ret in E as ([[l1 c1] s1] & E1 & E). apply FieldsSpec.bind_ret in E as ([l2 s2] & E2 & E). injection E as <- _.
  destruct (report_changes_items _ _ _ _ _ _ Hdb Hm Hw Hx Hb Hp E1) as (H1 & Em & Hw1 & Hu). cbn [each]. apply carries_app; [done|].
  rewrite <-Em. apply (IH c1 s1 l2 s2 Hdb); [by rewrite Em|done|done| |done].
  rewrite Forall_forall in *. intros y Hy. apply Hu; [by apply Hd|by apply Hz].
Qed.
Lemma saved_separate : separate saved_sets ∧ Forall (unreported (replicate CHANGE_SET_SIZE 0)) saved_sets.
Proof.
  split; [repeat split; repeat constructor|]. apply Forall_forall. intros y _ i _. destruct (decide (i < CHANGE_SET_SIZE)%nat).
  - left. by apply lookup_replicate_2.
  - right. apply lookup_ge_None_2. rewrite length_replicate. lia.
Qed.

(** C10: What is written when the state is saved is the list of commands that stands for
    the values in memory ([saved_items]): first the attributes, then the settings, the
    tables and the metadata, in the order of the tables of names, each that has ever
    changed exactly once with the text it reads as (or a mark when it cannot be read), a
    table with all its lines, and a string of metadata up to where its line has 255
    characters.  Loading the file carries out exactly these commands,
    in order, for any state of the server and any sets of commands; nothing in the file
    is split, joined or left over. *)
Theorem saved_state_loads context s text context' s' :
  texts_ok db → metadata_ok (SystemCommand.sy_metadata s) → w0 = SystemCommand.sy_world s →
  saved_text db context s = Ret (text, context', s') →
  ∃ items, saved_items db w0 (SystemCommand.sy_metadata s) = Ret items ∧ Forall item_ok items ∧
    text = file_text (concat (item_lines <$> items)) ∧
    ∀ (S : Type) (entity_commands system_commands : config_command_set (S := S)) (start : S),
      load_file entity_commands system_commands start text = run_items entity_commands system_commands start items 0.
Proof.
  intros Hdb Hm Ew E. unfold saved_text in E. destruct (update_change_index _ _ _) as [[g c] r].
  apply FieldsSpec.bind_ret in E as ([lines s1] & El & E). injection E as <- _ _. destruct saved_separate as [Hsep Hz].
  apply report_sets_items in El as (items & Ei & Hok & ->); [|done|done| |done|done].
  - exists items. split_and!; [exact Ei|done|done|]. intros S ec sc start. by apply load_text.
  - apply (se_index _ _ _ Hnow). rewrite <-Ew. apply Hnow.
Qed.
End save.

(** ** Examples *)

(** A set of commands that records what it is given. *)
Definition recorder (star : bool) : config_command_set (S := list (bool * cstring * cstring)) :=
  mk_command_set (λ s _, Ret (([], fail "None"), s)) (λ s name value, Ret (None, s ++ [(star, name, value)]))
    (λ s name _ _ _, Ret (None, s ++ [(star, name, [])],
       Table.mk_writer (λ s line, Ret (None, s ++ [(star, [], line)])) (λ s _, Ret (None, s)))).
Definition example_items : list item :=
  [Item_value (bytes_of "PULSE1.DELAY") (bytes_of "5"); Item_table (bytes_of "SEQ.TABLE") (bytes_of "B") [bytes_of "AAAA"];
   Item_other (bytes_of "PULSE2.DELAY (error)"); Item_value (bytes_of "*METADATA.LABEL") (bytes_of "a=b")].
Lemma load_file_exact_witness :
  load_file (recorder false) (recorder true) [] (file_text (concat (item_lines <$> example_items))) =
    Ret ([(false, bytes_of "PULSE1.DELAY", bytes_of "5"); (false, bytes_of "SEQ.TABLE", []); (false, [], bytes_of "AAAA");
          (true, bytes_of "METADATA.LABEL", bytes_of "a=b")], 1).
Proof.
  rewrite (load_file_exact (recorder false) (recorder true) [] example_items); [vm_compute; reflexivity|].
  repeat (apply List.Forall_cons; [split; [repeat (apply List.Forall_cons || apply List.Forall_nil); try (split; [repeat constructor; done|])|]|]).
  all: try (cbn; unfold Persistence.MAX_LINE_LENGTH; lia); try (split; repeat constructor; done); try (repeat constructor).
Defined.

#[local] Existing Instance AARCH64.
#[local] Existing Instance register_file.
#[local] Existing Instance SystemCommandSpec.example_names.
#[local] Existing Instance SystemCommandSpec.example_labels.
#[local] Existing Instance SystemCommandSpec.example_parts.
Import SystemCommandSpec.

(** A block with a setting and its units, and one with a table. *)
Definition name_table (l : list (string * nat)) : table_of nat :=
  foldl (λ t x, match st_insert t (bytes_of x.1) (Some x.2) with Some (_, t) => t | None => t end) st_create l.
Definition stored_value (w : Fields.state example_class) (number : nat) : cstring :=
  Format.Format.fmt_d (default 0 (snd (class_state w) !! Z.of_nat number)).
Definition setting : class_methods (C := example_class) :=
  mk_class (bytes_of "param") None (λ _ _, None) (Some (λ w _ number room, Ret (Format.Format.format_string room (stored_value w number), w)))
    None None None None None (Some (λ w _ report, Ret (replicate 2 (changed_since report 7), w))) CHANGE_IX_CONFIG.
Definition rows : class_methods (C := example_class) :=
  mk_class (bytes_of "table") None (λ _ _, None) None None None None None None
    (Some (λ w _ report, Ret (replicate 1 (changed_since report 7), w))) CHANGE_IX_TABLE.
Definition units : attr_methods (C := example_class) :=
  mk_attr_methods (bytes_of "UNITS") (Some (λ w _ room, Ret (Format.Format.format_string room (bytes_of "ms"), w))) None None.
Definition rows_text : attr_methods (C := example_class) :=
  mk_attr_methods (bytes_of "B") None (Some (λ w _, Ret (None, [bytes_of "AAAA"; bytes_of "BBBB"], w))) None.
Definition example_database : database (C := example_class) (T := table_of nat) :=
  mk_database (name_table [("PULSE", 0%nat); ("SEQ", 1%nat)])
    [mk_block (bytes_of "PULSE") 2 4 (name_table [("DELAY", 0%nat)]) None; mk_block (bytes_of "SEQ") 1 5 (name_table [("TABLE", 1%nat)]) None]
    [mk_field 0 (bytes_of "DELAY") setting 0 None (name_table [("UNITS", 0%nat)]) 0 true;
     mk_field 1 (bytes_of "TABLE") rows 0 None (name_table [("B", 1%nat)]) 0 true]
    [units; rows_text].
Definition example_attrs : list attr := [mk_attr true false [5; 5] [[]; []]; mk_attr false false [1] [[]]].
Definition loaded_system : SystemCommand.system (C := example_class) (T := table_of nat) :=
  SystemCommand.set_world example_system (Fields.mk_state 9 example_attrs (example_outputs, {[0 := 42; 1 := -7]})).
Definition loaded_now (w : Fields.state example_class) : Prop :=
  attrs w = example_attrs ∧ class_state w = class_state (SystemCommand.sy_world loaded_system).

Lemma format_string_short n text text' : Forall name_char text → Format.Format.format_string n text = OK text' →
  Forall plain_char text' ∧ (length text' < n)%nat.
Proof.
  intros Hp. unfold Format.Format.format_string, test_ok, TEST_OK_. case_bool_decide; cbn; [|done]. intros [= <-]. split; [by apply name_plain|done].
Qed.
Ltac by_cases H := repeat (apply elem_of_cons in H as [-> |H]); [..|by apply not_elem_of_nil in H].
Lemma names_chars l : bool_decide (Forall name_char l) = true → Forall name_char l.
Proof. apply bool_decide_eq_true. Qed.
Lemma example_texts : texts_ok example_database.
Proof.
  split.
  - intros b Hb. by_cases Hb; by apply names_chars.
  - intros b Hb. by_cases Hb; by apply names_chars.
  - intros b Hb. by_cases Hb; by apply names_chars.
  - intros f get w data number room text w' Hf. by_cases Hf; intros [= <-]. intros [= E _]. eapply format_string_short; [|exact E]. apply fmt_d_chars.
  - intros a format w number room text w' Ha. by_cases Ha; intros [= <-]. intros [= E _]. eapply format_string_short; [|exact E]. by apply names_chars.
  - intros a many w number e lines w' Ha. by_cases Ha; intros [= <-]. intros [= _ <- _].
    repeat (constructor; [split; [split; [by apply name_plain, names_chars|cbn; unfold Persistence.MAX_LINE_LENGTH; lia]|done]|]). constructor.
Qed.
Lemma loaded_settled : settled example_database (SystemCommand.sy_world loaded_system) loaded_now.
Proof.
  split.
  - done.
  - intros w g Hw. exact Hw.
  - intros f get w number room r w' Hf. by_cases Hf; intros [= <-] Hw [= <- <-]. split; [done|]. unfold stored_value. by rewrite (proj2 Hw).
  - intros a w number room r w' Ha Hw. by_cases Ha; intros [= <- <-]; by split.
  - intros f cs w flags w' Hf. by_cases Hf; intros [= <-] Hw [= <- <-]; by split.
  - intros ix w flags w' [Ea Ec]. destruct w as [g a c]. cbn in Ea, Ec. subst a c.
    destruct ix as [|[|ix]]; [intros [= <- <-]; by split..|done].
Qed.
Lemma example_metadata_ok : metadata_ok example_metadata.
Proof.
  intros key v Hin. assert (Metadata.entries example_metadata = [(bytes_of "LABEL", Metadata.mk_value Metadata.METADATA_STRING None 1)]) as E
    by (vm_compute; reflexivity).
  rewrite E in Hin. apply list_elem_of_singleton in Hin as [= -> ->]. split_and!.
  - apply (bool_decide_unpack (Forall name_char (bytes_of "LABEL"))). vm_compute. exact I.
  - cbn. unfold PosOut.MAX_NAME_LENGTH. lia.
  - intros t _ [= <-]. constructor.
  - done.
Qed.
Definition loaded_items : list item :=
  [Item_value (bytes_of "PULSE1.DELAY.UNITS") (bytes_of "ms"); Item_value (bytes_of "PULSE2.DELAY.UNITS") (bytes_of "ms");
   Item_value (bytes_of "PULSE1.DELAY") (bytes_of "42"); Item_value (bytes_of "PULSE2.DELAY") (bytes_of "-7");
   Item_table (bytes_of "SEQ.TABLE") (bytes_of "B") [bytes_of "AAAA"; bytes_of "BBBB"]; Item_value (bytes_of "*METADATA.LABEL") []].
Lemma saved_state_loads_witness :
  ∃ text c s', saved_text example_database (replicate 7 0) loaded_system = Ret (text, c, s') ∧
    text = file_text (concat (item_lines <$> loaded_items)) ∧
    load_file (recorder false) (recorder true) [] text = run_items (recorder false) (recorder true) [] loaded_items 0.
Proof.
  assert (∃ r, saved_text example_database (replicate 7 0) loaded_system = Ret r) as [[[text c] s'] E] by (eexists; vm_compute; reflexivity).
  destruct (saved_state_loads example_database (SystemCommand.sy_world loaded_system) loaded_now loaded_settled (replicate 7 0) loaded_system _ _ _
    example_texts example_metadata_ok eq_refl E) as (items & Ei & _ & Et & Hl).
  assert (saved_items example_database (SystemCommand.sy_world loaded_system) (SystemCommand.sy_metadata loaded_system) = Ret loaded_items) as E2
    by (vm_compute; reflexivity).
  pose proof (eq_trans (eq_sym E2) Ei) as Eq. apply ret_inj in Eq as <-.
  exists text, c, s'. split; [exact E|]. split; [exact Et|]. apply Hl.
Defined.
(** A string of metadata that is too long is not what is loaded again: its end is lost. *)
Example long_metadata_cut :
  let v := Metadata.mk_value Metadata.METADATA_STRING (Some (replicate 300 97 ++ [0])) 1 in
  (λ l, length <$> (l ≫= item_lines)) <$> metadata_items (bytes_of "LABEL", v) = Ret [255%nat].
Proof. vm_compute. reflexivity. Qed.

(** When the file cannot be opened the change it was for is forgotten: the next turn
    writes nothing.  And the command to save answers that it did. *)
Definition idle_persistence : persistence := mk_persistence None None (replicate 7 0) true.
Definition turn (a : file_answers) (x : persistence * SystemCommand.system (C := example_class) (T := table_of nat)) :=
  persistence_turn no_database a x.1 x.2.
Example failed_write_forgotten :
  (ps_file ∘ fst <$> turn (mk_answers true true true) (idle_persistence, example_system)) = Ret (Some (bytes_of "*METADATA.LABEL=" ++ [10])) ∧
  (ps_file ∘ fst <$> (x ← turn (mk_answers false true true) (idle_persistence, example_system); turn (mk_answers true true true) x)) = Ret None.
Proof. split; vm_compute; reflexivity. Qed.
Example save_reports_success :
  (λ x, (x.1.1, ps_file x.1.2)) <$> save_persistent_state no_database (mk_answers false true true) idle_persistence example_system = Ret (None, None).
Proof. vm_compute. reflexivity. Qed.

End PersistenceSpec.
