(* ===== verification/BufferedFile.v ===== *)
(** * Buffered sockets: panda-server/server/buffered_file.c

    A socket is the bytes that will come in and those sent, with what its coming calls
    answer: how many bytes at most they take, or that they fail.  Without such an answer
    a call takes all it can. *)

From S2P Require Import Prelude Errors.
From stdpp Require Import base numbers list list_numbers option strings.
Open Scope Z_scope.

Module BufferedFile.

(** ** The socket *)

Record socket := mk_socket {
  sk_in : list Z;
  sk_reads : list (option nat);
  sk_writes : list (option nat);
  sk_out : list Z;
}.
(** A call takes at least one byte, and no more than there is room for. *)
Definition taken (answer limit : nat) : nat := Nat.max 1 (Nat.min answer limit).
Definition read_socket (size : nat) (sk : socket) : option (list Z) * socket :=
  match sk_reads sk with
  | None :: reads => (None, mk_socket (sk_in sk) reads (sk_writes sk) (sk_out sk))
  | Some n :: reads => (Some (take (taken n size) (sk_in sk)), mk_socket (drop (taken n size) (sk_in sk)) reads (sk_writes sk) (sk_out sk))
  | [] => (Some (take size (sk_in sk)), mk_socket (drop size (sk_in sk)) [] (sk_writes sk) (sk_out sk))
  end.
Definition write_socket (buffer : list Z) (sk : socket) : option nat * socket :=
  match sk_writes sk with
  | None :: writes => (None, mk_socket (sk_in sk) (sk_reads sk) writes (sk_out sk))
  | Some n :: writes =>
      let n := taken n (length buffer) in (Some n, mk_socket (sk_in sk) (sk_reads sk) writes (sk_out sk ++ take n buffer))
  | [] => (Some (length buffer), mk_socket (sk_in sk) (sk_reads sk) [] (sk_out sk ++ buffer))
  end.

(** ** The file *)

(** [struct buffered_file]: [in_buf] and [out_buf] have [in_length] and [out_length]
    bytes. *)
Record buffered_file := mk_file {
  eof : bool;
  error : error__t;
  in_buf : list Z;
  read_ptr : nat;
  out_buf : list Z;
}.
Definition set_error (f : buffered_file) (e : error__t) : buffered_file := mk_file (eof f) e (in_buf f) (read_ptr f) (out_buf f).
Definition set_out (f : buffered_file) (out : list Z) : buffered_file := mk_file (eof f) (error f) (in_buf f) (read_ptr f) out.
Definition set_read_ptr (f : buffered_file) (n : nat) : buffered_file := mk_file (eof f) (error f) (in_buf f) n (out_buf f).
Definition has_error (f : buffered_file) : bool := bool_decide (error f ≠ None).

(** What can still be read, from the buffer or from the socket. *)
Definition input (f : buffered_file) (sk : socket) : list Z := drop (read_ptr f) (in_buf f) ++ sk_in sk.

Section file.
Context (in_buf_size out_buf_size : nat).

Definition create_buffered_file : buffered_file := mk_file false None [] 0 [].

Definition io_error (message : string) : error__t := TEST_OK_ false message.
Fixpoint send_loop (fuel : nat) (f : buffered_file) (sk : socket) (buffer : list Z) : buffered_file * socket :=
  match fuel with
  | O => (f, sk)
  | S fuel' =>
      if has_error f || bool_decide (buffer = []) then (f, sk)
      else
        match write_socket buffer sk with
        | (None, sk) => send_loop fuel' (set_error f (io_error "Error writing to socket")) sk buffer
        | (Some written, sk) => send_loop fuel' f sk (drop written buffer)
        end
  end.
Definition send_entire_buffer (f : buffered_file) (sk : socket) (buffer : list Z) : buffered_file * socket :=
  send_loop (length buffer) f sk buffer.

Definition flush_out_buf (f : buffered_file) (sk : socket) : bool * buffered_file * socket :=
  let '(f, sk) := send_entire_buffer f sk (out_buf f) in
  let f := set_out f [] in (negb (has_error f), f, sk).

(** When the read fails [in_length] is meaningless, and not used again. *)
Definition fill_in_buf (f : buffered_file) (sk : socket) : buffered_file * socket :=
  if eof f || has_error f then (f, sk)
  else
    match read_socket in_buf_size sk with
    | (None, sk) => (mk_file false (io_error "Error reading from socket") [] 0 (out_buf f), sk)
    | (Some data, sk) => (mk_file (bool_decide (data = [])) None data 0 (out_buf f), sk)
    end.

(** [memchr] for the end of the line: what is before and after it. *)
Fixpoint find_newline (data : list Z) : option (list Z * list Z) :=
  match data with
  | [] => None
  | c :: data => if bool_decide (c = 10) then Some ([], data) else '(line, rest) ← find_newline data; Some (c :: line, rest)
  end.

(** [read_line]: [line] is what is in the line already. *)
Fixpoint read_line_loop (fuel : nat) (f : buffered_file) (sk : socket) (line : list Z) (line_size : nat) (flush : bool)
    : option (list Z) * buffered_file * socket :=
  match fuel with
  | O => (None, f, sk)
  | S fuel' =>
      if eof f || has_error f then (None, f, sk)
      else
        let data := drop (read_ptr f) (in_buf f) in
        match find_newline data with
        | Some (start, _) =>
            if bool_decide (length start + 1 < line_size)%nat
            then (Some (line ++ start), set_read_ptr f (read_ptr f + length start + 1), sk)
            else (None, set_error f (TEST_OK_ false "Line overrun"), sk)
        | None =>
            if bool_decide (length data + 1 < line_size)%nat then
              let '(f, sk) := if flush then let '(_, f, sk) := flush_out_buf f sk in (f, sk) else (f, sk) in
              let '(f, sk) := fill_in_buf f sk in
              read_line_loop fuel' f sk (line ++ data) (line_size - length data) false
            else (None, set_error f (TEST_OK_ false "Line overrun"), sk)
        end
  end.
(** Every turn but the last two takes a byte from the socket. *)
Definition read_line (line_size : nat) (flush : bool) (f : buffered_file) (sk : socket) : option (list Z) * buffered_file * socket :=
  read_line_loop (3 + length (sk_in sk)) f sk [] line_size flush.

Fixpoint read_block_loop (fuel : nat) (f : buffered_file) (sk : socket) (data : list Z) (length_ : nat)
    : list Z * nat * buffered_file * socket :=
  match fuel with
  | O => (data, length_, f, sk)
  | S fuel' =>
      if eof f || has_error f || bool_decide (length_ = 0)%nat then (data, length_, f, sk)
      else
        let avail := drop (read_ptr f) (in_buf f) in
        let to_copy := Nat.min (length avail) length_ in
        let f := set_read_ptr f (read_ptr f + to_copy) in
        let length_ := (length_ - to_copy)%nat in
        let '(f, sk) := if bool_decide (0 < length_)%nat then fill_in_buf f sk else (f, sk) in
        read_block_loop fuel' f sk (data ++ take to_copy avail) length_
  end.
(** [read_block]: the data, when all of it could be read. *)
Definition read_block (length_ : nat) (f : buffered_file) (sk : socket) : option (list Z) * buffered_file * socket :=
  let '(data, missing, f, sk) := read_block_loop (3 + length (sk_in sk)) f sk [] length_ in
  (if negb (eof f) && negb (has_error f) && bool_decide (missing = 0)%nat then Some data else None, f, sk).

(** ** Writing *)

Fixpoint write_loop (fuel : nat) (f : buffered_file) (sk : socket) (string : list Z) : buffered_file * socket :=
  match fuel with
  | O => (f, sk)
  | S fuel' =>
      if has_error f || bool_decide (string = []) then (f, sk)
      else
        let to_write := Nat.min (out_buf_size - length (out_buf f)) (length string) in
        let f := set_out f (out_buf f ++ take to_write string) in
        let '(f, sk) :=
          if bool_decide (out_buf_size ≤ length (out_buf f))%nat then let '(_, f, sk) := flush_out_buf f sk in (f, sk) else (f, sk) in
        write_loop fuel' f sk (drop to_write string)
  end.
Definition write_string (f : buffered_file) (sk : socket) (string : list Z) : buffered_file * socket :=
  write_loop (length string) f sk string.

(** [write_formatted_string], of the text that the format makes; a text too long leaves
    the buffer with part of it, and the error keeps it there. *)
Definition write_formatted_string (f : buffered_file) (sk : socket) (text : list Z) : buffered_file * socket :=
  if has_error f then (f, sk)
  else if bool_decide (length text < out_buf_size - length (out_buf f))%nat then (set_out f (out_buf f ++ text), sk)
  else
    match flush_out_buf f sk with
    | (true, f, sk) =>
        (set_error (set_out f (take (out_buf_size - 1) text))
           (TEST_OK_ (bool_decide (length text < out_buf_size)%nat) "Formatted string too long for buffered output"), sk)
    | (false, f, sk) => (f, sk)
    end.

Definition write_block (f : buffered_file) (sk : socket) (buffer : list Z) : buffered_file * socket :=
  let '(_, f, sk) := flush_out_buf f sk in send_entire_buffer f sk buffer.

Definition write_char (f : buffered_file) (sk : socket) (ch : Z) : buffered_file * socket :=
  if has_error f then (f, sk)
  else
    let f := set_out f (out_buf f ++ [ch]) in
    if bool_decide (out_buf_size ≤ length (out_buf f))%nat then let '(_, f, sk) := flush_out_buf f sk in (f, sk) else (f, sk).

End file.
End BufferedFile.
