(* ===== verification/BufferedFileSpec.v ===== *)
(** * What a buffered socket guarantees

    Whatever pieces the socket takes and gives: what is written arrives in order, and the
    lines read are those of the bytes that come in. *)

From S2P Require Import Prelude Errors BufferedFile.
From stdpp Require Import base numbers list list_numbers option strings.
Open Scope Z_scope.

Module BufferedFileSpec.
Import BufferedFile.

Section file.
Context (out_size : nat) (Hout : (0 < out_size)%nat).

(** ** Writing *)

(** There is always room for one more byte. *)
Definition room (f : buffered_file) : Prop := (length (out_buf f) < out_size)%nat.

(** What has been written to [f]: sent, or in the buffer. *)
Definition output (f : buffered_file) (sk : socket) : list Z := sk_out sk ++ out_buf f.

(** The text [text] has been written: the file has room again; without an error the
    output is longer by this text; in any case what has been sent is the beginning of
    that; after an error nothing more is sent; the input is not touched. *)
Record wrote (f : buffered_file) (sk : socket) (f' : buffered_file) (sk' : socket) (text : list Z) : Prop := {
  wr_room : room f → room f';
  wr_exact : error f' = None → error f = None ∧ output f' sk' = output f sk ++ text;
  wr_prefix : error f = None → sk_out sk' `prefix_of` output f sk ++ text;
  wr_stopped : error f ≠ None → error f' = error f ∧ sk_out sk' = sk_out sk;
  wr_in : eof f' = eof f ∧ in_buf f' = in_buf f ∧ read_ptr f' = read_ptr f ∧ sk_in sk' = sk_in sk ∧ sk_reads sk' = sk_reads sk;
  wr_clean : Forall is_Some (sk_writes sk) → Forall is_Some (sk_writes sk') ∧ (error f = None → error f' = None);
}.

Lemma wrote_refl f sk : wrote f sk f sk [].
Proof. split; rewrite ?app_nil_r; try done. intros _. by apply prefix_app_r. Qed.
Lemma wrote_trans f sk f1 sk1 f2 sk2 a b : wrote f sk f1 sk1 a → wrote f1 sk1 f2 sk2 b → wrote f sk f2 sk2 (a ++ b).
Proof.
  intros [R1 E1 P1 S1 (I1 & I2 & I3 & I4 & I5) C1] [R2 E2 P2 S2 (J1 & J2 & J3 & J4 & J5) C2]. split.
  - auto.
  - intros He. destruct (E2 He) as [He1 Eo]. destruct (E1 He1) as [? Eo1]. split; [done|]. by rewrite Eo, Eo1, (assoc_L (++)).
  - intros He. destruct (decide (error f1 = None)) as [He1|He1].
    + destruct (E1 He1) as [_ Eo1]. rewrite (assoc_L (++)), <-Eo1. by apply P2.
    + destruct (S2 He1) as [_ ->]. rewrite (assoc_L (++)). apply prefix_app_r. by apply P1.
  - intros He. destruct (S1 He) as [Ee Es]. destruct (S2 ltac:(by rewrite Ee)) as [Ee2 Es2]. split; congruence.
  - split_and!; congruence.
  - intros Hc. destruct (C1 Hc) as [Hc1 ?]. destruct (C2 Hc1) as [? ?]. auto.
Qed.
Lemma wrote_stopped f sk text : error f ≠ None → wrote f sk f sk text.
Proof. intros He. by split; try done; intros. Qed.
Lemma has_error_false f : has_error f = false ↔ error f = None.
Proof. unfold has_error. rewrite bool_decide_eq_false. destruct (error f); naive_solver. Qed.
Lemma has_error_true f : has_error f = true ↔ error f ≠ None.
Proof. unfold has_error. by rewrite bool_decide_eq_true. Qed.

Lemma send_stopped fuel f sk buffer : error f ≠ None → send_loop fuel f sk buffer = (f, sk).
Proof. intros He. destruct fuel; [done|]. cbn. by rewrite (proj2 (has_error_true f) He). Qed.

(** [send_entire_buffer] sends all of the buffer, or the beginning of it. *)
Lemma send_loop_spec fuel : ∀ f sk buffer f' sk',
  (length buffer ≤ fuel)%nat → send_loop fuel f sk buffer = (f', sk') →
  (error f' = None → error f = None ∧ sk_out sk' = sk_out sk ++ buffer) ∧
  (error f = None → sk_out sk' `prefix_of` sk_out sk ++ buffer) ∧ (error f ≠ None → error f' = error f ∧ sk_out sk' = sk_out sk) ∧
  (eof f' = eof f ∧ in_buf f' = in_buf f ∧ read_ptr f' = read_ptr f ∧ out_buf f' = out_buf f ∧ sk_in sk' = sk_in sk ∧ sk_reads sk' = sk_reads sk) ∧
  (Forall is_Some (sk_writes sk) → Forall is_Some (sk_writes sk') ∧ (error f = None → error f' = None)).
Proof.
  induction fuel as [|fuel IH]; intros f sk buffer f' sk' Hl E.
  { destruct buffer; [|simpl in Hl; lia]. injection E as <- <-. rewrite app_nil_r. split_and!; done. }
  cbn [send_loop] in E. destruct (has_error f) eqn:He.
  { apply has_error_true in He. cbn [orb] in E. injection E as <- <-. split_and!; done. }
  apply has_error_false in He. cbn [orb] in E. case_bool_decide as Hb.
  { injection E as <- <-. subst buffer. rewrite app_nil_r. split_and!; done. }
  unfold write_socket in E. destruct (sk_writes sk) as [|[n|] writes] eqn:Ew.
  - apply IH in E as (E1 & E2 & E3 & E4 & E5); [|rewrite length_drop; lia]. rewrite drop_all, app_nil_r in *. cbn in *.
    split_and!; try done; try apply E4.
  - assert (1 ≤ taken n (length buffer))%nat by (unfold taken; lia).
    apply IH in E as (E1 & E2 & E3 & E4 & E5); [|rewrite length_drop; destruct buffer; simpl in *; [done|lia]].
    cbn [sk_out sk_in sk_reads sk_writes] in *. rewrite <-(assoc_L (++)), take_drop in *. split_and!; try done; try apply E4.
    intros Hc. apply list.Forall_cons in Hc as [_ Hc]. by apply E5.
  - rewrite send_stopped in E by done. injection E as <- <-. cbn. split_and!; try done.
    + intros _. by apply prefix_app_r.
    + intros Hc. apply list.Forall_cons in Hc as [[? ?] _]. done.
Qed.

Lemma flush_wrote f sk b f' sk' :
  flush_out_buf f sk = (b, f', sk') →
  wrote f sk f' sk' [] ∧ out_buf f' = [] ∧ b = negb (has_error f').
Proof.
  unfold flush_out_buf, send_entire_buffer. destruct (send_loop _ _ _ _) as [f1 sk1] eqn:E. intros [= <- <- <-].
  apply send_loop_spec in E as (E1 & E2 & E3 & (J1 & J2 & J3 & J4 & J5 & J6) & E5); [|done]. split; [|done].
  split; cbn; unfold output; cbn; rewrite ?app_nil_r; done.
Qed.

(** Bytes added to the buffer, which is flushed when it is full. *)
Definition flush_full (f : buffered_file) (sk : socket) : buffered_file * socket :=
  if bool_decide (out_size ≤ length (out_buf f))%nat then let '(_, f, sk) := flush_out_buf f sk in (f, sk) else (f, sk).
Lemma append_wrote f sk data f2 sk2 :
  error f = None → (length (out_buf f) + length data ≤ out_size)%nat → flush_full (set_out f (out_buf f ++ data)) sk = (f2, sk2) →
  wrote f sk f2 sk2 data ∧ room f2.
Proof.
  intros He Hl E. unfold flush_full in E. cbn [out_buf set_out] in E. rewrite length_app in E. case_bool_decide as Hf.
  - destruct (flush_out_buf _ sk) as [[b f3] sk3] eqn:Efl. injection E as <- <-.
    apply flush_wrote in Efl as (Hw & Eo & _). assert (room f3) as Hr by (unfold room; rewrite Eo; simpl; lia).
    destruct Hw as [_ E1 P1 S1 I1 C1]. split; [|done].
    unfold output in *. cbn in *. rewrite app_nil_r, !(assoc_L (++)) in *. split; done.
  - injection E as <- <-. assert (room (set_out f (out_buf f ++ data))) as Hr by (unfold room; cbn; rewrite length_app; lia).
    split; [|done]. split; cbn; unfold output; cbn; rewrite ?(assoc_L (++)); try done.
    intros _. rewrite <-(assoc_L (++)). by apply prefix_app_r.
Qed.

Lemma write_loop_wrote fuel : ∀ f sk string f' sk',
  room f → (length string ≤ fuel)%nat → write_loop out_size fuel f sk string = (f', sk') → wrote f sk f' sk' string.
Proof.
  induction fuel as [|fuel IH]; intros f sk string f' sk' Hr Hl E.
  { destruct string; [|simpl in Hl; lia]. injection E as <- <-. apply wrote_refl. }
  cbn [write_loop] in E. destruct (has_error f) eqn:He.
  { apply has_error_true in He. injection E as <- <-. by apply wrote_stopped. }
  apply has_error_false in He. cbn [orb] in E. case_bool_decide as Hb; [injection E as <- <-; subst; apply wrote_refl|].
  set (n := Nat.min _ _) in E. assert (1 ≤ n ≤ length string ∧ length (out_buf f) + n ≤ out_size)%nat as [Hn Hn2].
  { unfold n, room in *. destruct string; [done|]. cbn [length]. lia. }
  change (if bool_decide _ then _ else _) with (flush_full (set_out f (out_buf f ++ take n string)) sk) in E.
  destruct (flush_full _ sk) as [f2 sk2] eqn:E2. destruct (append_wrote f sk (take n string) f2 sk2 He ltac:(rewrite length_take; lia) E2) as [Hw Hr2].
  rewrite <-(take_drop n string). eapply wrote_trans; [exact Hw|]. apply IH; [done|rewrite length_drop; lia|done].
Qed.
Lemma write_string_wrote f sk string f' sk' :
  room f → write_string out_size f sk string = (f', sk') → wrote f sk f' sk' string.
Proof. intros Hr. by apply write_loop_wrote. Qed.
Lemma write_char_wrote f sk ch f' sk' : room f → write_char out_size f sk ch = (f', sk') → wrote f sk f' sk' [ch].
Proof.
  intros Hr E. unfold write_char in E. destruct (has_error f) eqn:He.
  { apply has_error_true in He. injection E as <- <-. by apply wrote_stopped. }
  apply has_error_false in He. apply (append_wrote f sk [ch] f' sk' He); [unfold room in Hr; simpl; lia|exact E].
Qed.
Lemma write_block_wrote f sk buffer f' sk' : room f → write_block f sk buffer = (f', sk') → wrote f sk f' sk' buffer.
Proof.
  intros Hr E. unfold write_block in E. destruct (flush_out_buf f sk) as [[b f1] sk1] eqn:Ef. apply flush_wrote in Ef as (Hw & Eo & _).
  rewrite <-(app_nil_l buffer). eapply wrote_trans; [exact Hw|]. unfold send_entire_buffer in E.
  apply send_loop_spec in E as (E1 & E2 & E3 & (J1 & J2 & J3 & J4 & J5 & J6) & E5); [|done].
  split; unfold output, room; rewrite ?J4, ?Eo, ?app_nil_r; try done.
Qed.
Lemma write_formatted_wrote f sk text f' sk' :
  room f → write_formatted_string out_size f sk text = (f', sk') → wrote f sk f' sk' text ∨ (error f' ≠ None ∧ (out_size ≤ length text)%nat).
Proof.
  intros Hr E. unfold write_formatted_string in E. destruct (has_error f) eqn:He.
  { apply has_error_true in He. injection E as <- <-. left. by apply wrote_stopped. }
  apply has_error_false in He. case_bool_decide as Hfit.
  - injection E as <- <-. left. apply (append_wrote f sk text _ _ He); [unfold room in Hr; lia|].
    unfold flush_full. cbn. rewrite length_app, bool_decide_false by lia. done.
  - destruct (flush_out_buf f sk) as [[b f1] sk1] eqn:Ef. apply flush_wrote in Ef as (Hw & Eo & ->).
    destruct (has_error f1) eqn:He1; cbn [negb] in E; injection E as <- <-.
    + left. apply has_error_true in He1. rewrite <-(app_nil_l text). eapply wrote_trans; [exact Hw|by apply wrote_stopped].
    + apply has_error_false in He1. destruct (decide (length text < out_size)%nat) as [Hs|]; [left|right].
      * rewrite bool_decide_true by done. rewrite <-(app_nil_l text). eapply wrote_trans; [exact Hw|].
        cbn [app]. rewrite take_ge by lia. destruct (append_wrote f1 sk1 text (set_out f1 text) sk1 He1) as [Hw2 _]; [rewrite Eo; simpl; lia| |].
        { unfold flush_full. cbn. rewrite Eo. simpl. by rewrite bool_decide_false by lia. }
        unfold set_error. cbn in *. unfold set_out in Hw2. by rewrite He1 in Hw2.
      * rewrite bool_decide_false by done. split; [done|lia].
Qed.

(** Writing to a buffered socket: the text is put in the buffer or sent, after what
    was written before, in as many pieces as the socket takes; there is room again in
    the buffer; and if the socket fails, what it has taken is the beginning of what was
    to be sent, and nothing follows. *)
Theorem write_string_exact f sk string :
  room f → let '(f', sk') := write_string out_size f sk string in
  room f' ∧
  (error f' = None → error f = None ∧ sk_out sk' ++ out_buf f' = sk_out sk ++ out_buf f ++ string) ∧
  (error f = None → sk_out sk' `prefix_of` sk_out sk ++ out_buf f ++ string) ∧ (error f ≠ None → sk_out sk' = sk_out sk).
Proof.
  intros Hr. destruct (write_string out_size f sk string) as [f' sk'] eqn:E. apply write_string_wrote in E as [R E1 P1 S1 _ _]; [|done].
  unfold output in *. rewrite <-!(assoc_L (++)) in *. split_and!; [by apply R|done|done|intros He; by apply S1].
Qed.

(** ** Reading *)

Context (in_size : nat) (Hin : (0 < in_size)%nat).

(** The next line of a stream of bytes, for a buffer of [size] bytes. *)
Inductive line_result := Line (line rest : list Z) | Overrun | End_of_input.
Definition next_line (size : nat) (stream : list Z) : line_result :=
  match find_newline stream with
  | Some (line, rest) => if bool_decide (length line + 1 < size)%nat then Line line rest else Overrun
  | None => if bool_decide (length stream + 1 < size)%nat then End_of_input else Overrun
  end.
Lemma find_newline_app data more :
  find_newline (data ++ more) =
    match find_newline data with
    | Some (line, rest) => Some (line, rest ++ more)
    | None => '(line, rest) ← find_newline more; Some (data ++ line, rest)
    end.
Proof.
  induction data as [|c data IH]; cbn; [destruct (find_newline more) as [[]|]; done|]. case_bool_decide; [done|].
  rewrite IH. destruct (find_newline data) as [[]|]; [done|]. by destruct (find_newline more) as [[]|].
Qed.
Lemma next_line_app size data more :
  find_newline data = None →
  next_line size (data ++ more) =
    if bool_decide (length data + 1 < size)%nat
    then match next_line (size - length data) more with Line line rest => Line (data ++ line) rest | r => r end
    else Overrun.
Proof.
  intros Hd. unfold next_line. rewrite find_newline_app, Hd. destruct (find_newline more) as [[line rest]|]; cbn; rewrite length_app.
  - destruct (bool_decide (length data + 1 < size)%nat) eqn:E1; [apply bool_decide_eq_true in E1|apply bool_decide_eq_false in E1].
    + destruct (bool_decide (length line + 1 < size - length data)%nat) eqn:E2; [apply bool_decide_eq_true in E2|apply bool_decide_eq_false in E2].
      * by rewrite bool_decide_true by lia.
      * by rewrite bool_decide_false by lia.
    + by rewrite bool_decide_false by lia.
  - destruct (bool_decide (length data + 1 < size)%nat) eqn:E1; [apply bool_decide_eq_true in E1|apply bool_decide_eq_false in E1].
    + destruct (bool_decide (length more + 1 < size - length data)%nat) eqn:E2; [apply bool_decide_eq_true in E2|apply bool_decide_eq_false in E2].
      * by rewrite bool_decide_true by lia.
      * by rewrite bool_decide_false by lia.
    + by rewrite bool_decide_false by lia.
Qed.

(** A socket without failures, and a file that can be read. *)
Record live (f : buffered_file) (sk : socket) : Prop := {
  lv_eof : eof f = false;
  lv_error : error f = None;
  lv_room : room f;
  lv_reads : Forall is_Some (sk_reads sk);
  lv_writes : Forall is_Some (sk_writes sk);
}.
(** A file that has been read to its end, and can still be written. *)
Record ended (f : buffered_file) (sk : socket) : Prop := {
  en_eof : eof f = true;
  en_error : error f = None;
  en_room : room f;
  en_writes : Forall is_Some (sk_writes sk);
}.

Lemma flush_live f sk b f' sk' :
  live f sk → flush_out_buf f sk = (b, f', sk') → live f' sk' ∧ input f' sk' = input f sk ∧ output f' sk' = output f sk ∧ sk_in sk' = sk_in sk.
Proof.
  intros [He Herr Hr Hrd Hwr] E. apply flush_wrote in E as ([R E1 _ _ (J1 & J2 & J3 & J4 & J5) C1] & _ & _).
  destruct (C1 Hwr) as [Hwr' Hok]. specialize (Hok Herr). destruct (E1 Hok) as [_ Eo]. rewrite app_nil_r in Eo.
  split_and!; [|by unfold input; rewrite J2, J3, J4|done|done]. split; [congruence|done|by apply R|by rewrite J5|done].
Qed.

Lemma read_socket_live size sk : (0 < size)%nat → Forall is_Some (sk_reads sk) →
  ∃ data sk', read_socket size sk = (Some data, sk') ∧ sk_in sk = data ++ sk_in sk' ∧ (data = [] → sk_in sk = []) ∧
    sk_out sk' = sk_out sk ∧ sk_writes sk' = sk_writes sk ∧ Forall is_Some (sk_reads sk').
Proof.
  intros Hs Hr. unfold read_socket. destruct (sk_reads sk) as [|[n|] reads] eqn:E.
  - do 2 eexists. split; [done|]. cbn. rewrite take_drop. split_and!; try done. intros Ed. destruct (sk_in sk); [done|]. by destruct size; [lia|].
  - apply list.Forall_cons in Hr as [_ Hr]. do 2 eexists. split; [done|]. cbn. rewrite take_drop. split_and!; try done.
    intros Ed. destruct (sk_in sk); [done|]. unfold taken in Ed. by destruct (Nat.min n size).
  - by apply list.Forall_cons in Hr as [[? ?] _].
Qed.

(** Filling the buffer, once it has been used up. *)
Lemma fill_live f sk : live f sk →
  ∃ f' sk', fill_in_buf in_size f sk = (f', sk') ∧ output f' sk' = output f sk ∧ out_buf f' = out_buf f ∧ input f' sk' = sk_in sk ∧
    (sk_in sk = [] ∧ ended f' sk' ∨ live f' sk' ∧ (length (sk_in sk') < length (sk_in sk))%nat).
Proof.
  intros [He Herr Hr Hrd Hwr]. destruct (read_socket_live in_size sk Hin Hrd) as (data & sk' & E & Ein & Hnil & Eout & Ew & Hrd').
  unfold fill_in_buf. rewrite He, (proj2 (has_error_false f) Herr), E. cbn [orb]. do 2 eexists. split; [done|].
  unfold output, input, room in *. cbn [out_buf in_buf read_ptr drop]. rewrite Eout. split_and!; [done|done|done|].
  destruct data as [|c data].
  - left. split; [by apply Hnil|]. by split; rewrite ?Ew.
  - right. split; [by split; rewrite ?Ew|]. rewrite Ein. simpl. rewrite length_app. lia.
Qed.

Lemma find_newline_drop data line rest : find_newline data = Some (line, rest) → drop (length line + 1) data = rest.
Proof.
  revert line. induction data as [|c data IH]; intros line; cbn; [done|]. case_bool_decide; [by intros [= <- <-]|].
  destruct (find_newline data) as [[l r]|]; [|done]. intros [= <- <-]. by apply IH.
Qed.
Lemma find_newline_length data line rest : find_newline data = Some (line, rest) → length data = (length line + 1 + length rest)%nat.
Proof.
  revert line. induction data as [|c data IH]; intros line; cbn; [done|]. case_bool_decide; [by intros [= <- <-]|].
  destruct (find_newline data) as [[l r]|]; [|done]. intros [= <- <-]. cbn. rewrite (IH l); done.
Qed.
Lemma read_line_ended fuel f sk line size flush : eof f = true → read_line_loop in_size fuel f sk line size flush = (None, f, sk).
Proof. intros Hs. destruct fuel; [done|]. cbn. by rewrite Hs. Qed.

(** There is no line in the buffer, nor too much data: more has to be read. *)
Definition waits (size : nat) (f : buffered_file) : bool :=
  let data := drop (read_ptr f) (in_buf f) in bool_decide (find_newline data = None) && bool_decide (length data + 1 < size)%nat.

(** Reading gives [result], the next line of the input, or stops. *)
Definition line_read (line : list Z) (result : line_result) (sent : bool) (f : buffered_file) (sk : socket)
    (r : option (list Z) * buffered_file * socket) : Prop :=
  let '(answer, f', sk') := r in
  output f' sk' = output f sk ∧ out_buf f' = (if sent then [] else out_buf f) ∧
  match result with
  | Line l rest => answer = Some (line ++ l) ∧ live f' sk' ∧ input f' sk' = rest
  | End_of_input => answer = None ∧ ended f' sk'
  | Overrun => answer = None ∧ error f' ≠ None
  end.

Lemma read_line_loop_spec fuel : ∀ f sk line size flush,
  live f sk → (length (sk_in sk) + 1 < fuel)%nat →
  line_read line (next_line size (input f sk)) (waits size f && flush) f sk (read_line_loop in_size fuel f sk line size flush).
Proof.
  induction fuel as [|fuel IH]; intros f sk line size flush Hlive Hf; [lia|]. pose proof Hlive as [He Herr Hr Hrd Hwr].
  cbn [read_line_loop]. rewrite He, (proj2 (has_error_false f) Herr). cbn [orb]. unfold input, waits. set (data := drop (read_ptr f) (in_buf f)).
  destruct (find_newline data) as [[l rest]|] eqn:En.
  - rewrite (bool_decide_false (Some _ = None)) by done. cbn [andb].
    unfold next_line. rewrite find_newline_app, En. case_bool_decide as Hsize; (split; [done|split; [done|]]); [|done].
    split_and!; [done|by split|]. unfold input. cbn. rewrite <-Nat.add_assoc, (Nat.add_comm (read_ptr f)), <-skipn_skipn. fold data.
    by rewrite (find_newline_drop _ _ _ En).
  - rewrite next_line_app, (bool_decide_true (None = None)) by done. cbn [andb].
    destruct (bool_decide (length data + 1 < size)%nat) eqn:Hsize; [apply bool_decide_eq_true in Hsize|done]. cbn [andb].
    assert (∃ f1 sk1, (if flush then let '(_, f, sk) := flush_out_buf f sk in (f, sk) else (f, sk)) = (f1, sk1) ∧
      live f1 sk1 ∧ output f1 sk1 = output f sk ∧ sk_in sk1 = sk_in sk ∧ out_buf f1 = if flush then [] else out_buf f)
      as (f1 & sk1 & -> & Hl1 & Eo1 & Ei1 & Eb1).
    { destruct flush; [|by exists f, sk]. destruct (flush_out_buf f sk) as [[b f1] sk1] eqn:Ef. exists f1, sk1.
      destruct (flush_wrote _ _ _ _ _ Ef) as (_ & Eb & _). apply flush_live in Ef as (? & _ & ? & ?); done. }
    destruct (fill_live f1 sk1 Hl1) as (f2 & sk2 & -> & Eo2 & Eb2 & Ei2 & [(Enil & Hs)|[Hl2 Hlt]]).
    + rewrite read_line_ended by apply Hs. split; [congruence|]. split; [congruence|].
      rewrite <-Ei1, Enil. unfold next_line. cbn. by rewrite bool_decide_true by lia.
    + specialize (IH f2 sk2 (line ++ data) (size - length data)%nat false Hl2 ltac:(rewrite Ei1 in Hlt; lia)).
      rewrite Ei2, Ei1, andb_false_r in IH. destruct (read_line_loop in_size fuel f2 sk2 _ _ _) as [[answer f'] sk'].
      destruct IH as (Eo & Eb & IH). split; [congruence|]. split; [congruence|].
      destruct (next_line _ (sk_in sk)); [|done|done]. by rewrite (assoc_L (++)).
Qed.
Lemma read_line_spec size flush f sk :
  live f sk → line_read [] (next_line size (input f sk)) (waits size f && flush) f sk (read_line in_size size flush f sk).
Proof. intros Hl. apply read_line_loop_spec; [done|lia]. Qed.

(** Reading a line from a buffered socket: whatever the pieces in which the bytes
    come in, the line is the bytes up to the next newline, and the newline is used up;
    at the end of the input there is none, and a line that does not fit is an error;
    nothing written is lost or sent out of turn, and if asked for it is sent before the
    socket is read. *)
Theorem read_line_exact size flush f sk :
  live f sk →
  let '(answer, f', sk') := read_line in_size size flush f sk in
  output f' sk' = output f sk ∧ out_buf f' = (if waits size f && flush then [] else out_buf f) ∧
  match next_line size (input f sk) with
  | Line line rest => answer = Some line ∧ live f' sk' ∧ input f' sk' = rest
  | End_of_input => answer = None ∧ ended f' sk'
  | Overrun => answer = None ∧ error f' ≠ None
  end.
Proof. apply read_line_spec. Qed.
End file.

Lemma write_string_exact_witness :
  let f := mk_file false None [] 0 [7] in let sk := mk_socket [] [] [Some 2%nat; Some 1%nat] [] in
  room 4 f ∧ ∃ f' sk', write_string 4 f sk [1; 2; 3; 4; 5] = (f', sk') ∧ room 4 f' ∧ sk_out sk' ++ out_buf f' = [7; 1; 2; 3; 4; 5].
Proof.
  intros f sk. assert (room 4 f) as Hr by (unfold room, f; simpl; lia). split; [exact Hr|].
  pose proof (write_string_exact 4 ltac:(lia) f sk [1; 2; 3; 4; 5] Hr) as H.
  destruct (write_string 4 f sk _) as [f' sk'] eqn:E. exists f', sk'. split; [done|]. destruct H as (H & H2 & _). split; [exact H|].
  vm_compute in E. injection E as <- <-. by apply H2.
Defined.

Lemma read_line_exact_witness :
  let f := create_buffered_file in let sk := mk_socket [65; 66; 67; 10; 68; 10] [Some 2%nat; Some 3%nat] [] [] in
  live 4 f sk ∧ ∃ f' sk', read_line 4 8 true f sk = (Some [65; 66; 67], f', sk') ∧ input f' sk' = [68; 10].
Proof.
  intros f sk. assert (live 4 f sk) as Hl by (split; unfold room, f, sk; simpl; try done; [lia|repeat constructor; done]). split; [exact Hl|].
  pose proof (read_line_exact 4 ltac:(lia) 4 ltac:(lia) 8 true f sk Hl) as H.
  destruct (read_line 4 8 true f sk) as [[answer f'] sk'] eqn:E. exists f', sk'. destruct H as [_ H].
  change (next_line 8 (input f sk)) with (Line [65; 66; 67] [68; 10]) in H. destruct H as (_ & -> & _ & ?). done.
Defined.
End BufferedFileSpec.
