(* ===== verification/ConfigSocket.v ===== *)
(** * Connections for configuration commands: config_server.c over buffered_file.c

    A connection reads lines from its socket, carries them out, and writes the replies.
    The sets of commands are those of the server ([Entity], [SystemCommand]); the
    messages written when the server is verbose are not modelled. *)

From S2P Require Import Prelude Errors Parse Changes Table Fields Entity BufferedFile.
From stdpp Require Import base numbers list list_numbers option strings.
Open Scope Z_scope.

Module ConfigSocket.
Import Parse Fields Entity BufferedFile.

(** ** Writing replies *)

Section reply.
Context (out_buf_size : nat).

(** The connection: its file and its socket.  (The context of its changes is in the
    state of the server.) *)
Definition connection : Type := buffered_file * socket.
Definition put_string (string : list Z) (c : connection) : connection := write_string out_buf_size c.1 c.2 string.
Definition put_char (ch : Z) (c : connection) : connection := write_char out_buf_size c.1 c.2 ch.

Definition report_error (e : Error.error) (c : connection) : connection :=
  put_char 10 (put_string (bytes_of (error_format (Some e)).1) (put_string (bytes_of "ERR ") c)).
Definition report_status (e : error__t) (c : connection) : connection :=
  match e with Some e => report_error e c | None => put_string (bytes_of "OK" ++ [10]) c end.
Definition write_many_result (result : cstring) (c : connection) : connection := put_char 10 (put_string result (put_char 33 c)).
Definition write_lines (lines : list cstring) (c : connection) : connection := fold_left (λ c line, write_many_result line c) lines c.
(** The rest of [do_read_command], from what [command_set->get] writes and answers. *)
Definition write_reply (r : reply) (c : connection) : connection :=
  let c := write_lines r.1 c in
  match r.2 with
  | Err e => report_error e c
  | OK (RESPONSE_ONE string) => put_char 10 (put_string string (put_string (bytes_of "OK =") c))
  | OK RESPONSE_MANY => put_string [46; 10] c
  end.
End reply.

(** ** Carrying out commands *)

Section connection.
Context {S : Type} (entity_commands system_commands : config_command_set (S := S)).
Context (in_buf_size out_buf_size line_size : nat).

Definition do_read_command (set : config_command_set (S := S)) (s : S) (command value : cstring) (c : connection) : outcome (S * connection) :=
  if bool_decide (cur value = 0) then '(r, s) ← cs_get set s command; Ret (s, write_reply out_buf_size r c)
  else Ret (s, report_status out_buf_size (TEST_OK_ false "Unexpected text after command") c).
Definition do_write_command (set : config_command_set (S := S)) (s : S) (command value : cstring) (c : connection) : outcome (S * connection) :=
  '(e, s) ← cs_put set s command value; Ret (s, report_status out_buf_size e c).

(** [read_line] leaves a C string in the buffer. *)
Definition next_string (flush : bool) (c : connection) : option cstring * connection :=
  let '(line, f, sk) := read_line in_buf_size line_size flush c.1 c.2 in (c_str <$> line, (f, sk)).
Definition wrap_read_line : connection → option cstring * connection := next_string false.

Definition do_table_command (set : config_command_set (S := S)) (s : S) (command format : cstring) (c : connection) : outcome (S * connection) :=
  '(e, s, c) ← process_put_table_command wrap_read_line (Datatypes.S (length (input c.1 c.2))) set s command format c;
  Ret (s, report_status out_buf_size e c).

Definition process_config_command (s : S) (command : cstring) (c : connection) : outcome (S * connection) :=
  let '(star, command) := read_char 42 command in
  let set := if star then system_commands else entity_commands in
  match split_command command with
  | (name, ch :: value) =>
      if bool_decide (ch = 63) then do_read_command set s name value c
      else if bool_decide (ch = 61) then do_write_command set s name value c
      else do_table_command set s name value c
  | (_, []) => Ret (s, report_status out_buf_size (TEST_OK_ false "Unknown command") c)
  end.

(** The loop of [process_config_socket]; it ends when there are no more lines, or after
    an error of the socket. *)
Fixpoint command_loop (fuel : nat) (s : S) (c : connection) : outcome (S * connection) :=
  match fuel with
  | O => Undef
  | Datatypes.S fuel' =>
      match next_string true c with
      | (None, c) => Ret (s, c)
      | (Some line, c) => '(s, c) ← process_config_command s line c; command_loop fuel' s c
      end
  end.
Definition process_config_socket (s : S) (sk : socket) : outcome (S * connection) :=
  let c := (create_buffered_file, sk) in command_loop (Datatypes.S (length (input c.1 c.2))) s c.

(** The error that the thread of the connection reports. *)
Definition destroy_buffered_file (c : connection) : error__t := error c.1.
End connection.

End ConfigSocket.
