(* ===== verification/ConfigSocketSpec.v ===== *)
(** * Connections carry out the commands that come in

    However the bytes of a conversation are cut into pieces, the lines are carried out
    in order, and the replies are those of the commands. *)

From S2P Require Import Prelude Errors Parse Changes Table Fields FieldsSpec Entity BufferedFile BufferedFileSpec ConfigSocket.
From stdpp Require Import base numbers list list_numbers option strings.
Open Scope Z_scope.

Module ConfigSocketSpec.
Import Parse Fields BufferedFile BufferedFileSpec ConfigSocket.

Section connection.
Context {S : Type} (entity_commands system_commands : Entity.config_command_set (S := S)).
Context (in_size out_size line_size : nat) (Hout : (0 < out_size)%nat) (Hin : (0 < in_size)%nat).

(** ** Replies *)

(** [wrote] for connections. *)
Definition conn_wrote (c c' : connection) (text : list Z) : Prop := wrote out_size c.1 c.2 c'.1 c'.2 text.

(** Text is written in pieces, as long as there is room. *)
Lemma conn_app c c1 c2 a b : conn_wrote c c1 a → conn_wrote c1 c2 b → conn_wrote c c2 (a ++ b).
Proof. apply wrote_trans. Qed.
Lemma put_string_wrote string c : room out_size c.1 → conn_wrote c (put_string out_size string c) string.
Proof.
  intros Hr. unfold conn_wrote, put_string. destruct (write_string _ _ _ _) as [f sk] eqn:E. by apply write_string_wrote in E.
Qed.
Lemma put_char_wrote ch c : room out_size c.1 → conn_wrote c (put_char out_size ch c) [ch].
Proof.
  intros Hr. unfold conn_wrote, put_char. destruct (write_char _ _ _ _) as [f sk] eqn:E. by apply write_char_wrote in E.
Qed.
Lemma conn_room c c' text : conn_wrote c c' text → room out_size c.1 → room out_size c'.1.
Proof. intros Hw. apply (wr_room _ _ _ _ _ _ Hw). Qed.

(** A step of writing: [put] writes [text] on every connection with room. *)
Definition writes (put : connection → connection) (text : list Z) : Prop := ∀ c, room out_size c.1 → conn_wrote c (put c) text.
Lemma writes_comp p q a b : writes p a → writes q b → writes (λ c, q (p c)) (a ++ b).
Proof. intros Hp Hq c Hr. eapply conn_app; [by apply Hp|]. apply Hq. eapply conn_room; [by apply Hp|done]. Qed.
Lemma writes_string string : writes (put_string out_size string) string.
Proof. intros c. apply put_string_wrote. Qed.
Lemma writes_char ch : writes (put_char out_size ch) [ch].
Proof. intros c. apply put_char_wrote. Qed.
Lemma writes_none : writes (λ c, c) [].
Proof. intros c _. apply wrote_refl. Qed.

(** A reply of three pieces. *)
Lemma writes_three a b ch : writes (λ c, put_char out_size ch (put_string out_size b (put_string out_size a c))) (a ++ b ++ [ch]).
Proof.
  apply (writes_comp (put_string out_size a) (λ c, put_char out_size ch (put_string out_size b c))); [apply writes_string|].
  apply (writes_comp (put_string out_size b)); [apply writes_string|apply writes_char].
Qed.
Lemma writes_error e : writes (report_error out_size e) (Entity.error_line e).
Proof. apply writes_three. Qed.
Lemma writes_status e : writes (report_status out_size e) (Entity.report_status e).
Proof. destruct e; [apply writes_error|apply writes_string]. Qed.
Lemma writes_many line : writes (write_many_result out_size line) (Entity.many_line line).
Proof.
  apply (writes_comp (put_char out_size 33) (λ c, put_char out_size 10 (put_string out_size line c))); [apply writes_char|].
  apply (writes_comp (put_string out_size line)); [apply writes_string|apply writes_char].
Qed.
Lemma writes_lines lines : writes (write_lines out_size lines) (concat (Entity.many_line <$> lines)).
Proof.
  induction lines as [|line lines IH]; [apply writes_none|].
  apply (writes_comp (write_many_result out_size line) (write_lines out_size lines)); [apply writes_many|done].
Qed.
Lemma writes_reply r : writes (write_reply out_size r) (Entity.reply_bytes r).
Proof.
  destruct r as [lines [[string|]|e]]; unfold write_reply, Entity.reply_bytes; cbn [fst snd].
  - apply (writes_comp (write_lines out_size lines) (λ c, put_char out_size 10 (put_string out_size string (put_string out_size _ c)))); [apply writes_lines|apply writes_three].
  - apply (writes_comp (write_lines out_size lines)); [apply writes_lines|apply writes_string].
  - apply (writes_comp (write_lines out_size lines)); [apply writes_lines|apply writes_error].
Qed.

(** ** Lines *)

(** The lines of a stream of bytes, as the commands see them; all of them fit, and what
    follows the last newline fits too. *)
Inductive lines_in : list Z → list cstring → Prop :=
  | lines_end stream : next_line line_size stream = End_of_input → lines_in stream []
  | lines_cons stream line rest lines :
      next_line line_size stream = Line line rest → lines_in rest lines → lines_in stream (c_str line :: lines).

(** The same by computation. *)
Fixpoint lines_of (fuel : nat) (stream : list Z) : option (list cstring) :=
  match fuel with
  | O => None
  | Datatypes.S fuel' =>
      match next_line line_size stream with
      | Line line rest => lines ← lines_of fuel' rest; Some (c_str line :: lines)
      | End_of_input => Some []
      | Overrun => None
      end
  end.
Lemma lines_of_in fuel : ∀ stream lines, lines_of fuel stream = Some lines → lines_in stream lines.
Proof.
  induction fuel as [|fuel IH]; [done|]. intros stream lines. cbn. destruct (next_line line_size stream) as [line rest| |] eqn:E; [|done|].
  - destruct (lines_of fuel rest) as [l|] eqn:El; [|done]. intros [= <-]. by eapply lines_cons, IH.
  - intros [= <-]. by apply lines_end.
Qed.

(** A connection that has written [out] and will read [lines]. *)
Definition conversation (out : list Z) (c : connection) (lines : list cstring) : Prop :=
  output c.1 c.2 = out ∧ (live out_size c.1 c.2 ∧ lines_in (input c.1 c.2) lines ∨ ended out_size c.1 c.2 ∧ lines = []).

Lemma end_waits size f sk : next_line size (input f sk) = End_of_input → waits size f = true.
Proof.
  unfold next_line, input, waits. rewrite find_newline_app, length_app. destruct (find_newline (drop _ _)) as [[l r]|]; [by case_bool_decide|].
  destruct (find_newline (sk_in sk)) as [[l r]|]; cbn [mbind option_bind]; case_bool_decide; try done. intros _.
  apply andb_true_intro; split; apply bool_decide_eq_true; [done|lia].
Qed.
Lemma next_string_spec flush out c lines :
  conversation out c lines →
  match lines with
  | [] => ∃ c', next_string in_size line_size flush c = (None, c') ∧ conversation out c' [] ∧ ended out_size c'.1 c'.2 ∧ (flush = true → live out_size c.1 c.2 → out_buf c'.1 = [])
  | line :: lines => ∃ c', next_string in_size line_size flush c = (Some line, c') ∧ conversation out c' lines ∧ live out_size c'.1 c'.2
  end.
Proof.
  unfold next_string. intros [Hout' [[Hl Hin']|[He ->]]].
  - pose proof (read_line_spec out_size Hout in_size Hin line_size flush c.1 c.2 Hl) as Hr.
    destruct (read_line _ _ _ _ _) as [[answer f'] sk']. destruct Hr as (Eo & Eb & Hr).
    inversion Hin' as [stream E|stream line rest lines' E Hrest]; subst; rewrite E in Hr.
    + destruct Hr as [-> He]. exists (f', sk'). split; [done|]. split; [split; [done|by right]|]. split; [done|].
      intros -> _. cbn [fst]. by rewrite Eb, (end_waits _ _ _ E).
    + destruct Hr as (-> & Hl' & Ei). exists (f', sk'). split; [done|]. split; [|done]. split; [done|]. left. split; [done|]. cbn. by rewrite Ei.
  - unfold read_line. rewrite read_line_ended by apply He. exists (c.1, c.2). split; [done|]. split; [split; [done|by right]|]. split; [done|].
    intros _ [Hl _]. destruct He as [He _]. congruence.
Qed.
Lemma wrap_read_line_source out : Entity.line_source (wrap_read_line in_size line_size) (conversation out).
Proof.
  intros c lines Hc. pose proof (next_string_spec false out c lines Hc) as H.
  destruct lines; destruct H as (c' & E & Hc' & _); by exists c'.
Qed.

(** Writing continues a conversation. *)
Lemma live_writes put text c : writes put text → live out_size c.1 c.2 → live out_size (put c).1 (put c).2.
Proof.
  intros Hp [He Herr Hr Hrd Hw]. destruct (Hp c Hr) as [R1 _ _ _ (I1 & I2 & I3 & I4 & I5) C1]. destruct (C1 Hw) as [Hw' He'].
  split; [congruence|by apply He'|by apply R1|by rewrite I5|done].
Qed.
Lemma conversation_writes put text out c lines :
  writes put text → conversation out c lines → conversation (out ++ text) (put c) lines.
Proof.
  intros Hp [<- Hc]. assert (room out_size c.1 ∧ error c.1 = None ∧ Forall is_Some (sk_writes c.2)) as (Hr & Herr & Hw) by (by destruct Hc as [[[] _]|[[] _]]).
  destruct (Hp c Hr) as [R1 E1 _ _ (I1 & I2 & I3 & I4 & I5) C1]. destruct (C1 Hw) as [Hw' He]. specialize (He Herr).
  split; [by apply E1|]. destruct Hc as [[[] Hin']|[[] ->]]; [left|right].
  - split; [split; [congruence|done|by apply R1|by rewrite I5|done]|]. unfold input. by rewrite I2, I3, I4.
  - split; [split; [congruence|done|by apply R1|done]|done].
Qed.

Lemma lines_in_length stream lines : lines_in stream lines → (length lines ≤ length stream)%nat.
Proof.
  induction 1 as [|stream line rest lines E _ IH]; [simpl; lia|]. unfold next_line in E.
  destruct (find_newline stream) as [[l r]|] eqn:En; [|by case_bool_decide]. case_bool_decide; [|done]. injection E as -> ->.
  apply find_newline_length in En. simpl. lia.
Qed.
Lemma conversation_length out c lines : conversation out c lines → (length lines ≤ length (input c.1 c.2))%nat.
Proof. intros [_ [[_ Hl]|[_ ->]]]; [by apply lines_in_length|simpl; lia]. Qed.

(** ** Commands *)

(** What a command on a connection should do, from what it does with a list of lines. *)
Definition carries_out (out : list Z) (expected : outcome (list Z * S * list cstring)) (actual : outcome (S * connection)) : Prop :=
  match expected with
  | Ret (reply, s, rest) => ∃ c, actual = Ret (s, c) ∧ conversation (out ++ reply) c rest
  | Panic => actual = Panic
  | Undef => actual = Undef
  end.

Lemma carries_status out e s c lines :
  conversation out c lines → carries_out out (Ret (Entity.report_status e, s, lines)) (Ret (s, report_status out_size e c)).
Proof. intros Hc. eexists. split; [done|]. by apply conversation_writes; [apply writes_status|]. Qed.
Lemma carries_table out set s command format c lines :
  conversation out c lines →
  carries_out out (Entity.do_table_command set s command format lines) (do_table_command in_size out_size line_size set s command format c).
Proof.
  intros Hc. unfold Entity.do_table_command, do_table_command.
  pose proof (Entity.process_put_table_source _ _ set lines (Datatypes.S (length (input c.1 c.2))) s command format c
    (wrap_read_line_source out) Hc ltac:(apply conversation_length in Hc; lia)) as Ht.
  destruct (Entity.process_table_command set s command format lines) as [[[e s'] rest]| |]; cbn [mbind outcome_bind].
  - destruct Ht as (c' & -> & Hc'). by apply carries_status.
  - by rewrite Ht.
  - by rewrite Ht.
Qed.
Lemma carries_command out s command c lines :
  conversation out c lines →
  carries_out out (Entity.process_config_command entity_commands system_commands s command lines)
    (process_config_command entity_commands system_commands in_size out_size line_size s command c).
Proof.
  intros Hc. unfold Entity.process_config_command, process_config_command. destruct (read_char 42 command) as [star text].
  set (set := if star then _ else _). destruct (Entity.split_command text) as [name [|ch value]]; [by apply carries_status|].
  destruct (bool_decide (ch = 63)); [|destruct (bool_decide (ch = 61)); [|by apply carries_table]].
  - unfold Entity.do_read_command, do_read_command. destruct (bool_decide (cur value = 0)); [|by apply carries_status].
    destruct (Entity.cs_get set s name) as [[r s']| |]; cbn [mbind outcome_bind]; [|done..].
    eexists. split; [done|]. by apply conversation_writes; [apply writes_reply|].
  - unfold Entity.do_write_command, do_write_command.
    destruct (Entity.cs_put set s name value) as [[e s']| |]; cbn [mbind outcome_bind]; [|done..]. by apply carries_status.
Qed.

Lemma split_separator text name ch value : Entity.split_command text = (name, ch :: value) → ch = 63 ∨ ch = 61 ∨ ch = 60.
Proof.
  revert name. induction text as [|c text IH]; intros name; cbn; [done|]. destruct (Entity.is_separator c) eqn:E.
  - intros [= _ <- _]. unfold Entity.is_separator in E. rewrite !orb_true_iff, !bool_decide_eq_true in E. tauto.
  - destruct (Entity.split_command text) as [n t]. intros [= _ ->]. by eapply IH.
Qed.
(** A table command reads the lines of the table, the others none. *)
Definition is_table (command : cstring) : bool :=
  match Entity.split_command (read_char 42 command).2 with (_, ch :: _) => bool_decide (ch = 60) | _ => false end.
Lemma put_table_rest writer lines : ∀ (s : S) error e s' rest,
  Table.do_put_table writer s error lines = Ret (e, s', rest) → rest `suffix_of` lines.
Proof.
  induction lines as [|line lines IH]; intros s error e s' rest E; cbn [Table.do_put_table] in E; [by injection E as _ _ <-|].
  destruct (bool_decide (cur line = 0)); [injection E as _ _ <-; by exists [line]|].
  destruct error; [|destruct (Table.w_write writer s line) as [[e1 s1]| |]; [|done..]]; cbn [mbind outcome_bind] in E; apply IH in E; by apply suffix_cons_r.
Qed.
Lemma command_rest s command lines out s' rest :
  Entity.process_config_command entity_commands system_commands s command lines = Ret (out, s', rest) →
  rest `suffix_of` lines ∧ (is_table command = false → rest = lines).
Proof.
  unfold Entity.process_config_command, is_table. destruct (read_char 42 command) as [star text]. cbn [snd].
  set (set := if star then _ else _). destruct (Entity.split_command text) as [name [|ch value]] eqn:Es; [by intros [= _ _ <-]|].
  apply split_separator in Es.
  destruct (bool_decide (ch = 63)) eqn:E1; [|destruct (bool_decide (ch = 61)) eqn:E2].
  - intros ([o s1] & _ & [= _ _ <-])%FieldsSpec.bind_ret. done.
  - intros ([o s1] & _ & [= _ _ <-])%FieldsSpec.bind_ret. done.
  - intros ([[e s1] r1] & E & [= _ _ <-])%FieldsSpec.bind_ret. unfold Entity.process_table_command in E.
    destruct (Table.parse_table_format value) as [[[eos streaming] lst] binary].
    apply FieldsSpec.bind_ret in E as ([[error s2] w] & _ & E). apply FieldsSpec.bind_ret in E as ([[pe s3] r2] & Ep & E).
    apply FieldsSpec.bind_ret in E as ([ce s4] & _ & [= _ _ <-]). split; [by eapply put_table_rest|].
    intros Ht. apply bool_decide_eq_false in E1, E2, Ht. naive_solver.
Qed.

Lemma ret_connection (s s' : S) (c c' : connection) : Ret (s, c) = Ret (s', c') → c' = c.
Proof. by intros [= _ ->]. Qed.
(** Other commands leave the connection as it is for reading. *)
Lemma command_live s command c s' c' :
  is_table command = false → live out_size c.1 c.2 →
  process_config_command entity_commands system_commands in_size out_size line_size s command c = Ret (s', c') →
  live out_size c'.1 c'.2.
Proof.
  unfold process_config_command, is_table. intros Ht Hl. destruct (read_char 42 command) as [star text]. cbn [snd] in Ht.
  set (set := if star then _ else _). destruct (Entity.split_command text) as [name [|ch value]] eqn:Es.
  { intros ->%ret_connection. eapply live_writes; [apply writes_status|done]. }
  apply split_separator in Es. destruct (bool_decide (ch = 63)) eqn:E1; [|destruct (bool_decide (ch = 61)) eqn:E2].
  - unfold do_read_command. destruct (bool_decide (cur value = 0)); [|intros ->%ret_connection; eapply live_writes; [apply writes_status|done]].
    intros ([r s1] & _ & ->%ret_connection)%FieldsSpec.bind_ret. eapply live_writes; [apply writes_reply|done].
  - intros ([r s1] & _ & ->%ret_connection)%FieldsSpec.bind_ret. eapply live_writes; [apply writes_status|done].
  - intros _. apply bool_decide_eq_false in E1, E2, Ht. naive_solver.
Qed.

(** ** Conversations *)

(** The replies to a list of lines, and the state they leave. *)
Fixpoint serve (fuel : nat) (s : S) (lines : list cstring) : outcome (list Z * S) :=
  match fuel, lines with
  | Datatypes.S fuel', line :: lines =>
      '(reply, s, rest) ← Entity.process_config_command entity_commands system_commands s line lines;
      '(replies, s) ← serve fuel' s rest; Ret (reply ++ replies, s)
  | _, _ => Ret ([], s)
  end.
Definition answers (s : S) (lines : list cstring) : outcome (list Z * S) := serve (length lines) s lines.

(** The end of a conversation of which the replies are [replies]: they have been written;
    without tables they have been sent. *)
Definition finished (out : list Z) (c0 : connection) (lines : list cstring) (expected : outcome (list Z * S)) (actual : outcome (S * connection)) : Prop :=
  match expected with
  | Ret (replies, s) =>
      ∃ c, actual = Ret (s, c) ∧ output c.1 c.2 = out ++ replies ∧ ended out_size c.1 c.2 ∧
        (live out_size c0.1 c0.2 → Forall (λ line, is_table line = false) lines → out_buf c.1 = [])
  | Panic => actual = Panic
  | Undef => actual = Undef
  end.
Lemma command_loop_spec fuel : ∀ n out s c lines,
  conversation out c lines → (length lines ≤ n)%nat → (length lines < fuel)%nat →
  finished out c lines (serve n s lines) (command_loop entity_commands system_commands in_size out_size line_size fuel s c).
Proof.
  induction fuel as [|fuel IH]; intros n out s c lines Hc Hn Hf; [lia|]. cbn [command_loop].
  pose proof (next_string_spec true out c lines Hc) as Hs. destruct lines as [|line lines].
  { destruct Hs as (c' & -> & [Eo _] & He & Hsent). assert (serve n s [] = Ret ([], s)) as -> by by destruct n.
    exists c'. rewrite app_nil_r. split_and!; auto. }
  destruct Hs as (c' & -> & Hc' & Hl'). destruct n as [|n]; cbn [length] in *; [lia|]. cbn [serve].
  pose proof (carries_command out s line c' lines Hc') as Hcmd.
  destruct (Entity.process_config_command _ _ s line lines) as [[[reply s'] rest]| |] eqn:E; cbn [mbind outcome_bind]; [|by rewrite Hcmd..].
  destruct Hcmd as (c2 & E2 & Hc2). rewrite E2. cbn [mbind outcome_bind]. apply command_rest in E as [Hrest Hsame].
  apply suffix_length in Hrest. specialize (IH n _ s' c2 rest Hc2 ltac:(lia) ltac:(lia)). unfold finished in *.
  destruct (serve n s' rest) as [[replies s2]| |]; cbn [mbind outcome_bind]; [|done..]. rewrite <-(assoc_L (++)) in IH.
  destruct IH as (c3 & E3 & Eo3 & He3 & Hsent). exists c3. split_and!; [done..|]. intros _ [Hnt Hall]%list.Forall_cons.
  apply Hsent; [by eapply command_live|by rewrite Hsame].
Qed.

(** C9: A conversation on a configuration socket: however the bytes of the commands are
    cut into pieces, if none of the lines is too long and the socket does not fail, the
    server carries out the lines in order, each on the state that the one before has
    left, a table command taking the lines up to a blank one; it ends without an error
    when the input does; the replies are written in the order of the commands, and when
    there was no table all of them have been sent. *)
Theorem process_config_socket_exact s sk lines :
  Forall is_Some (sk_reads sk) → Forall is_Some (sk_writes sk) → lines_in (sk_in sk) lines →
  match answers s lines with
  | Ret (replies, s') =>
      ∃ f' sk', process_config_socket entity_commands system_commands in_size out_size line_size s sk = Ret (s', (f', sk')) ∧
        error f' = None ∧ sk_out sk' ++ out_buf f' = sk_out sk ++ replies ∧
        (Forall (λ line, is_table line = false) lines → sk_out sk' = sk_out sk ++ replies)
  | Panic => process_config_socket entity_commands system_commands in_size out_size line_size s sk = Panic
  | Undef => process_config_socket entity_commands system_commands in_size out_size line_size s sk = Undef
  end.
Proof.
  intros Hr Hw Hl. unfold process_config_socket. set (c := (create_buffered_file, sk)).
  assert (live out_size c.1 c.2) as Hlive by (split; unfold room; simpl; done).
  assert (conversation (sk_out sk) c lines) as Hc by (split; [apply app_nil_r|by left]).
  pose proof (command_loop_spec (Datatypes.S (length (input c.1 c.2))) (length lines) _ s c lines Hc ltac:(lia)
    ltac:(apply conversation_length in Hc; lia)) as H.
  unfold finished, answers in *. destruct (serve _ s lines) as [[replies s']| |]; [|done..].
  destruct H as ([f' sk'] & E & Eo & He & Hsent). exists f', sk'. split_and!; [done|apply He|done|].
  intros Hnt. specialize (Hsent Hlive Hnt). cbn [fst snd] in *. unfold output in Eo. by rewrite Hsent, app_nil_r in Eo.
Qed.
End connection.

(** A set of commands for examples: a state of one number, which is read, written and
    takes the lines of a table. *)
Definition toy_commands : Entity.config_command_set (S := Z) :=
  Entity.mk_command_set (λ s _, Ret (([], OK (RESPONSE_ONE [48 + s])), s)) (λ s _ value, Ret (None, cur value - 48))
    (λ s _ _ _ _, Ret (None, s, Table.mk_writer (λ s _, Ret (None, s + 1)) (λ s _, Ret (None, s)))).
Definition toy_text : list Z := bytes_of "A=3" ++ [10] ++ bytes_of "A<" ++ [10] ++ bytes_of "7" ++ [10; 10] ++ bytes_of "A?" ++ [10].

Lemma process_config_socket_exact_witness :
  let sk := mk_socket toy_text [Some 2%nat; Some 3%nat; Some 1%nat] [Some 1%nat] [] in
  lines_in 8 (sk_in sk) [bytes_of "A=3"; bytes_of "A<"; bytes_of "7"; []; bytes_of "A?"] ∧
  ∃ f' sk', process_config_socket toy_commands toy_commands 4 4 8 1 sk = Ret (4, (f', sk')) ∧
    sk_out sk' ++ out_buf f' = bytes_of "OK" ++ [10] ++ bytes_of "OK" ++ [10] ++ bytes_of "OK =4" ++ [10].
Proof.
  intros sk. assert (lines_in 8 (sk_in sk) [bytes_of "A=3"; bytes_of "A<"; bytes_of "7"; []; bytes_of "A?"]) as Hl.
  { apply (lines_of_in 8 7). vm_compute. reflexivity. }
  split; [exact Hl|].
  pose proof (process_config_socket_exact toy_commands toy_commands 4 4 8 ltac:(lia) ltac:(lia) 1 sk _
    ltac:(repeat constructor; done) ltac:(repeat constructor; done) Hl) as H.
  destruct H as (f' & sk' & E & _ & Ho & _). exists f', sk'. split; [exact E|exact Ho].
Defined.

(** The replies in the buffer are not sent when the input ends inside a table, nor when
    a line is too long. *)
Definition sent_and_left (r : outcome (Z * connection)) : option (list Z * list Z) :=
  match r with Ret (_, (f, sk)) => Some (sk_out sk, out_buf f) | _ => None end.
Lemma table_cut_short_not_sent :
  sent_and_left (process_config_socket toy_commands toy_commands 16 64 8 1 (mk_socket (bytes_of "A<" ++ [10] ++ bytes_of "7" ++ [10]) [] [] [])) =
    Some ([], bytes_of "ERR Unexpected EOF" ++ [10]).
Proof. vm_compute. reflexivity. Qed.
Lemma overrun_not_sent :
  sent_and_left (process_config_socket toy_commands toy_commands 16 64 8 1 (mk_socket (bytes_of "A=3" ++ [10] ++ bytes_of "longer than 8" ++ [10]) [] [] [])) =
    Some ([], bytes_of "OK" ++ [10]).
Proof. vm_compute. reflexivity. Qed.
End ConfigSocketSpec.
