(* ===== verification/LinkedList.v ===== *)
(** * Double linked lists: panda-server/server/list.h

    A list goes in a circle through its head, which holds no value.  The nodes are in a
    memory; an access to a node that is not there is [None].  The predicate [list_rep]
    relates the memory to the list of the nodes, and each operation is proved against
    it. *)

From S2P Require Import Prelude.
From stdpp Require Import base gmap option list.

Module LinkedList.

Section list.
Context `{Countable K}.

(** [struct list_head]. *)
Record list_head := mk_head { next : K; prev : K }.
Abbreviation memory := (gmap K list_head).

Definition set_next (node value : K) (m : memory) : option memory :=
  h ← m !! node; Some (<[node := mk_head value (prev h)]> m).
Definition set_prev (node value : K) (m : memory) : option memory :=
  h ← m !! node; Some (<[node := mk_head (next h) value]> m).
Definition next_of (m : memory) (node : K) : option K := next <$> m !! node.
Definition prev_of (m : memory) (node : K) : option K := prev <$> m !! node.

Definition init_list_head (node : K) (m : memory) : option memory := m ← set_next node node m; set_prev node node m.

(** [__list_add] and [__list_del]. *)
Definition list_insert (new prev next : K) (m : memory) : option memory :=
  m ← set_prev next new m; m ← set_next new next m; m ← set_prev new prev m; set_next prev new m.
Definition list_remove (prev next : K) (m : memory) : option memory := m ← set_prev next prev m; set_next prev next m.

Definition list_add (new head : K) (m : memory) : option memory := next ← next_of m head; list_insert new head next m.
Definition list_add_tail (new head : K) (m : memory) : option memory := prev ← prev_of m head; list_insert new prev head m.
Definition list_del (entry : K) (m : memory) : option memory :=
  prev ← prev_of m entry; next ← next_of m entry; list_remove prev next m.
Definition list_is_empty (head : K) (m : memory) : option bool := next ← next_of m head; Some (bool_decide (next = head)).

(** [list_for_each]: the entries from [pos] on. *)
Fixpoint entries_from (fuel : nat) (m : memory) (head pos : K) : option (list K) :=
  match fuel with
  | O => None
  | S fuel =>
      if bool_decide (pos = head) then Some []
      else next ← next_of m pos; rest ← entries_from fuel m head next; Some (pos :: rest)
  end.
Definition list_for_each (m : memory) (head : K) : option (list K) :=
  first ← next_of m head; entries_from (S (size m)) m head first.

(** ** The list in the memory *)

Definition linked (m : memory) (a b : K) : Prop := next_of m a = Some b ∧ prev_of m b = Some a.
(** From [a] through the nodes of [l] to [b]. *)
Fixpoint chain (m : memory) (a : K) (l : list K) (b : K) : Prop :=
  match l with
  | [] => linked m a b
  | x :: l => linked m a x ∧ chain m x l b
  end.
Definition list_rep (m : memory) (head : K) (l : list K) : Prop := NoDup (head :: l) ∧ chain m head l head.

Lemma chain_app m a l x l' b : chain m a (l ++ x :: l') b ↔ chain m a l x ∧ chain m x l' b.
Proof. revert a. induction l as [|y l IH]; intros a; cbn; [done|]. rewrite IH. tauto. Qed.

(** The node before [b]. *)
Definition last_of (a : K) (l : list K) : K := default a (last l).
Lemma last_of_cons a x l : last_of a (x :: l) = last_of x l.
Proof. unfold last_of. rewrite last_cons. by destruct (last l). Qed.
Lemma last_of_in a l : last_of a l ∈ a :: l.
Proof. revert a. induction l as [|x l IH]; intros a; [by left|]. rewrite last_of_cons. right. apply IH. Qed.
Lemma chain_prev m a l b : chain m a l b → prev_of m b = Some (last_of a l).
Proof. revert a. induction l as [|x l IH]; intros a; cbn; [by intros []|]. rewrite last_of_cons. intros [_ Hc]. by apply IH. Qed.
Lemma chain_next m a l b : chain m a l b → next_of m a = Some (default b (head l)).
Proof. destruct l; cbn; [by intros []|by intros [[] _]]. Qed.

(** A chain is kept, or led to another node, when the links inside it are. *)
Lemma chain_retarget m m' a l b b' :
  NoDup (a :: l) → chain m a l b → (∀ x, x ∈ a :: l → x ≠ last_of a l → next_of m' x = next_of m x) →
  (∀ y, y ∈ l → prev_of m' y = prev_of m y) → linked m' (last_of a l) b' → chain m' a l b'.
Proof.
  revert a. induction l as [|x l IH]; intros a Hnd Hc Hn Hp Hl; [done|]. cbn in *. rewrite last_of_cons in *.
  destruct Hc as [[? ?] Hc]. apply NoDup_cons in Hnd as [Ha Hnd]. split.
  - split; [rewrite Hn; [done|by left|]|rewrite Hp; [done|by left]]. intros ->. apply Ha. apply last_of_in.
  - apply IH; [done|done| |naive_solver set_solver|done]. intros y Hy. apply Hn. by right.
Qed.
Lemma chain_frame m m' a l b :
  chain m a l b → (∀ x, x ∈ a :: l → next_of m' x = next_of m x) → (∀ y, y ∈ l ++ [b] → prev_of m' y = prev_of m y) → chain m' a l b.
Proof.
  revert a. induction l as [|x l IH]; intros a Hc Hn Hp; cbn in *.
  - destruct Hc. split; [rewrite Hn by set_solver|rewrite Hp by set_solver]; done.
  - destruct Hc as [[? ?] Hc]. split; [split; [rewrite Hn by set_solver|rewrite Hp by set_solver]; done|]. apply IH; set_solver.
Qed.
Lemma list_rep_frame m m' head l : list_rep m head l → (∀ x, x ∈ head :: l → m' !! x = m !! x) → list_rep m' head l.
Proof.
  intros [Hnd Hc] Hf. split; [done|]. eapply chain_frame; [done| |]; intros x Hx; unfold next_of, prev_of; rewrite Hf; set_solver.
Qed.
Lemma chain_allocated m a l b : chain m a l b → ∀ x, x ∈ a :: l ++ [b] → is_Some (m !! x).
Proof.
  assert (∀ c d, linked m c d → is_Some (m !! c) ∧ is_Some (m !! d)) as Hl.
  { intros c d [Hn Hp]. unfold next_of, prev_of in *. by destruct (m !! c), (m !! d). }
  revert a. induction l as [|y l IH]; intros a Hc x Hx; cbn in *.
  - apply Hl in Hc. set_solver.
  - destruct Hc as [Hay Hc]. apply Hl in Hay. apply elem_of_cons in Hx as [->|Hx]; [apply Hay|by eapply IH].
Qed.
Lemma list_rep_allocated m head l x : list_rep m head l → x ∈ head :: l → is_Some (m !! x).
Proof. intros [_ Hc] Hx. eapply chain_allocated; [done|set_solver]. Qed.

(** ** Single stores *)

Lemma set_next_ok m node value : is_Some (m !! node) →
  ∃ m', set_next node value m = Some m' ∧ next_of m' node = Some value ∧ (∀ x, x ≠ node → m' !! x = m !! x) ∧
    (∀ x, x ≠ node → next_of m' x = next_of m x) ∧ (∀ x, prev_of m' x = prev_of m x) ∧ (∀ x, is_Some (m !! x) → is_Some (m' !! x)).
Proof.
  intros [h E]. unfold set_next. rewrite E. cbn. eexists. split; [done|]. unfold next_of, prev_of. split_and!.
  - by rewrite lookup_insert_eq.
  - intros. by rewrite lookup_insert_ne.
  - intros. by rewrite lookup_insert_ne.
  - intros x. destruct (decide (x = node)) as [->|]; [by rewrite lookup_insert_eq, E|by rewrite lookup_insert_ne].
  - intros x ?. destruct (decide (x = node)) as [->|]; [by rewrite lookup_insert_eq|by rewrite lookup_insert_ne].
Qed.
Lemma set_prev_ok m node value : is_Some (m !! node) →
  ∃ m', set_prev node value m = Some m' ∧ prev_of m' node = Some value ∧ (∀ x, x ≠ node → m' !! x = m !! x) ∧
    (∀ x, x ≠ node → prev_of m' x = prev_of m x) ∧ (∀ x, next_of m' x = next_of m x) ∧ (∀ x, is_Some (m !! x) → is_Some (m' !! x)).
Proof.
  intros [h E]. unfold set_prev. rewrite E. cbn. eexists. split; [done|]. unfold next_of, prev_of. split_and!.
  - by rewrite lookup_insert_eq.
  - intros. by rewrite lookup_insert_ne.
  - intros. by rewrite lookup_insert_ne.
  - intros x. destruct (decide (x = node)) as [->|]; [by rewrite lookup_insert_eq, E|by rewrite lookup_insert_ne].
  - intros x ?. destruct (decide (x = node)) as [->|]; [by rewrite lookup_insert_eq|by rewrite lookup_insert_ne].
Qed.

(** What [__list_del] does: [a] and [b] become neighbours, and nothing else changes. *)
Record joined (m m' : memory) (a b : K) : Prop := {
  jo_linked : linked m' a b;
  jo_next x : x ≠ a → next_of m' x = next_of m x;
  jo_prev x : x ≠ b → prev_of m' x = prev_of m x;
  jo_other x : x ≠ a → x ≠ b → m' !! x = m !! x;
  jo_allocated x : is_Some (m !! x) → is_Some (m' !! x);
}.
Lemma list_remove_joined m a b : is_Some (m !! a) → is_Some (m !! b) → ∃ m', list_remove a b m = Some m' ∧ joined m m' a b.
Proof.
  intros Ha Hb. unfold list_remove. destruct (set_prev_ok m b a Hb) as (m1 & -> & Hp & Ho1 & Hp1 & Hn1 & Hd1). cbn.
  destruct (set_next_ok m1 a b (Hd1 a Ha)) as (m2 & -> & Hn & Ho2 & Hn2 & Hp2 & Hd2). eexists. split; [done|]. split.
  - split; [done|by rewrite Hp2].
  - intros. by rewrite Hn2, Hn1.
  - intros. by rewrite Hp2, Hp1.
  - intros. by rewrite Ho2, Ho1.
  - auto.
Qed.
Lemma list_insert_joined m new a b :
  is_Some (m !! new) → is_Some (m !! a) → is_Some (m !! b) →
  ∃ m1 m', list_insert new a b m = Some m' ∧ joined m m1 new b ∧ joined m1 m' a new.
Proof.
  intros Hnew Ha Hb. destruct (list_remove_joined m new b Hnew Hb) as (m1 & E1 & J1).
  destruct (list_remove_joined m1 a new) as (m2 & E2 & J2); [by apply J1..|]. exists m1, m2. split; [|done].
  unfold list_insert. unfold list_remove in E1, E2. destruct (set_prev b new m) as [m'|]; [|done]. cbn in *. rewrite E1. cbn. exact E2.
Qed.

(** A chain that [joined] does not cut. *)
Lemma joined_chain m m' a b c l d : joined m m' a b → chain m c l d → a ∉ c :: l → b ∉ l ++ [d] → chain m' c l d.
Proof.
  intros J Hc Ha Hb. eapply chain_frame; [done| |].
  - intros x Hx. apply (jo_next _ _ _ _ J). by intros ->.
  - intros y Hy. apply (jo_prev _ _ _ _ J). by intros ->.
Qed.
Lemma joined_tail m m' c l d b : joined m m' (last_of c l) b → NoDup (c :: l) → b ∉ l → chain m c l d → chain m' c l b.
Proof.
  intros J Hnd Hb Hc. eapply chain_retarget; [done..| | |by apply J].
  - intros x _. apply (jo_next _ _ _ _ J).
  - intros y Hy. apply (jo_prev _ _ _ _ J). by intros ->.
Qed.

(** ** The operations *)

(** What an operation leaves alone. *)
Definition keeps_others (m m' : memory) (nodes : list K) : Prop :=
  (∀ x, x ∉ nodes → m' !! x = m !! x) ∧ ∀ x, is_Some (m !! x) → is_Some (m' !! x).
Lemma joined_keeps m m' a b nodes : joined m m' a b → a ∈ nodes → b ∈ nodes → keeps_others m m' nodes.
Proof. intros J Ha Hb. split; [|apply (jo_allocated _ _ _ _ J)]. intros x Hx. apply (jo_other _ _ _ _ J); by intros ->. Qed.
Lemma keeps_trans m m1 m2 nodes : keeps_others m m1 nodes → keeps_others m1 m2 nodes → keeps_others m m2 nodes.
Proof. intros [H1 D1] [H2 D2]. split; [|auto]. intros x Hx. by rewrite H2, H1. Qed.
Lemma keeps_rep m m' nodes head l : keeps_others m m' nodes → list_rep m head l → (∀ x, x ∈ head :: l → x ∉ nodes) → list_rep m' head l.
Proof. intros [Hk _] Hr Hd. eapply list_rep_frame; [done|]. intros x Hx. by apply Hk, Hd. Qed.

Lemma list_is_empty_spec m head l : list_rep m head l → list_is_empty head m = Some (bool_decide (l = [])).
Proof.
  intros [Hnd Hc]. unfold list_is_empty. rewrite (chain_next _ _ _ _ Hc). cbn. f_equal. destruct l as [|x l]; cbn; [by rewrite !bool_decide_true|].
  rewrite !bool_decide_false; [done..|]. intros ->. apply NoDup_cons in Hnd as [Hn _]. apply Hn. by left.
Qed.

Lemma insert_keeps m m1 m' new a b nodes :
  joined m m1 new b → joined m1 m' a new → a ∈ nodes → b ∈ nodes → new ∈ nodes → keeps_others m m' nodes.
Proof. intros J1 J2 ? ? ?. eapply keeps_trans; eapply joined_keeps; [exact J1| | |exact J2| |]; done. Qed.
(** A node put in a link: the chains on both sides are as before. *)
Lemma insert_chain m m1 m' new a b c l d :
  joined m m1 new b → joined m1 m' a new → chain m c l d → a ∉ c :: l → b ∉ l ++ [d] → new ∉ c :: l ++ [d] → chain m' c l d.
Proof.
  intros J1 J2 Hc Ha Hb Hn. eapply (joined_chain m1); [exact J2| |set_solver|set_solver].
  eapply (joined_chain m); [exact J1|done|set_solver|set_solver].
Qed.
Lemma insert_linked m m1 m' new a b : joined m m1 new b → joined m1 m' a new → new ≠ a → new ≠ b → linked m' a new ∧ linked m' new b.
Proof.
  intros J1 J2 Ha Hb. split; [apply (jo_linked _ _ _ _ J2)|]. apply (joined_chain m1 m' a new new [] b J2 (jo_linked _ _ _ _ J1)); set_solver.
Qed.

Lemma list_add_spec m new h l :
  list_rep m h l → is_Some (m !! new) → new ∉ h :: l →
  ∃ m', list_add new h m = Some m' ∧ list_rep m' h (new :: l) ∧ keeps_others m m' (new :: h :: l).
Proof.
  intros Hr Hnew Hfresh. pose proof Hr as [Hnd Hc]. unfold list_add. rewrite (chain_next _ _ _ _ Hc). cbn. set (n := default h (head l)).
  assert (n ∈ h :: l) as Hn by (destruct l; cbn; [by left|by right; left]).
  destruct (list_insert_joined m new h n Hnew ltac:(apply (list_rep_allocated _ _ _ _ Hr); by left) ltac:(by apply (list_rep_allocated _ _ _ _ Hr)))
    as (m1 & m' & -> & J1 & J2).
  exists m'. split; [done|]. split; [|eapply insert_keeps; [exact J1|exact J2|set_solver..]]. apply NoDup_cons in Hnd as [Hh Hnd].
  split; [apply NoDup_cons; split; [set_solver|apply NoDup_cons; set_solver]|]. cbn.
  destruct (insert_linked _ _ _ _ _ _ J1 J2) as [Ha Hb]; [set_solver|set_solver|]. split; [done|].
  destruct l as [|x l]; [done|]. cbn in *. split; [done|]. apply NoDup_cons in Hnd as [Hx _].
  eapply insert_chain; [exact J1|exact J2|apply Hc|set_solver|set_solver|set_solver].
Qed.

Lemma list_add_tail_spec m new h l :
  list_rep m h l → is_Some (m !! new) → new ∉ h :: l →
  ∃ m', list_add_tail new h m = Some m' ∧ list_rep m' h (l ++ [new]) ∧ keeps_others m m' (new :: h :: l).
Proof.
  intros Hr Hnew Hfresh. pose proof Hr as [Hnd Hc]. unfold list_add_tail. rewrite (chain_prev _ _ _ _ Hc). cbn.
  pose proof (last_of_in h l) as Hlast.
  destruct (list_insert_joined m new (last_of h l) h Hnew ltac:(by apply (list_rep_allocated _ _ _ _ Hr)) ltac:(apply (list_rep_allocated _ _ _ _ Hr); by left))
    as (m1 & m' & -> & J1 & J2).
  exists m'. split; [done|]. split; [|eapply insert_keeps; [exact J1|exact J2|set_solver..]].
  split; [rewrite app_comm_cons; apply NoDup_app; split_and!; [done|set_solver|apply NoDup_singleton]|].
  apply chain_app. destruct (insert_linked _ _ _ _ _ _ J1 J2) as [Ha Hb]; [set_solver|set_solver|]. split; [|done].
  eapply chain_retarget; [done|exact Hc| | |done].
  - intros x Hx ?. rewrite (jo_next _ _ _ _ J2) by done. apply (jo_next _ _ _ _ J1). set_solver.
  - intros y Hy. rewrite (jo_prev _ _ _ _ J2) by set_solver. apply (jo_prev _ _ _ _ J1). apply NoDup_cons in Hnd. set_solver.
Qed.

Lemma list_del_spec m h l1 e l2 :
  list_rep m h (l1 ++ e :: l2) →
  ∃ m', list_del e m = Some m' ∧ list_rep m' h (l1 ++ l2) ∧ keeps_others m m' (h :: l1 ++ l2).
Proof.
  intros Hr. pose proof Hr as [Hnd Hc]. apply chain_app in Hc as [Hc1 Hc2]. unfold list_del.
  rewrite (chain_prev _ _ _ _ Hc1), (chain_next _ _ _ _ Hc2). cbn. set (b := default h (head l2)).
  pose proof (last_of_in h l1) as Ha. assert (b ∈ h :: l2) as Hb by (destruct l2; cbn; [by left|by right; left]).
  destruct (list_remove_joined m (last_of h l1) b) as (m' & -> & J); [apply (list_rep_allocated _ _ _ _ Hr); set_solver..|].
  exists m'. split; [done|]. split; [|eapply joined_keeps; [exact J|set_solver..]].
  rewrite app_comm_cons in Hnd. apply NoDup_app in Hnd as (Hnd1 & Hd & Hnd2). apply NoDup_cons in Hnd2 as [He Hnd2].
  split; [rewrite app_comm_cons; apply NoDup_app; split_and!; [done|set_solver|done]|].
  apply NoDup_cons in Hnd1 as Hh. destruct l2 as [|y l2]; cbn in b.
  - rewrite app_nil_r. eapply joined_tail; [exact J|done|set_solver|exact Hc1].
  - apply chain_app. split; [eapply joined_tail; [exact J|done|set_solver|exact Hc1]|]. destruct Hc2 as [_ Hc2].
    apply NoDup_cons in Hnd2 as [Hy _]. eapply joined_chain; [exact J|exact Hc2|set_solver|set_solver].
Qed.

(** Another head put between the last and the first entry takes the whole list over. *)
Lemma list_steal_spec m new h x l :
  list_rep m h (x :: l) → is_Some (m !! new) → new ∉ h :: x :: l →
  ∃ m1 m', list_insert new (last_of x l) x m = Some m1 ∧ init_list_head h m1 = Some m' ∧
    list_rep m' h [] ∧ list_rep m' new (x :: l) ∧ keeps_others m m' (new :: h :: x :: l).
Proof.
  intros Hr Hnew Hfresh. pose proof Hr as [Hnd [Hhx Hc]]. pose proof (last_of_in x l) as Hlast.
  destruct (list_insert_joined m new (last_of x l) x Hnew ltac:(apply (list_rep_allocated _ _ _ _ Hr); by right) ltac:(apply (list_rep_allocated _ _ _ _ Hr); by right; left))
    as (m1 & m2 & E & J1 & J2).
  assert (keeps_others m m2 (new :: x :: l)) as K2 by (eapply insert_keeps; [exact J1|exact J2|set_solver..]).
  apply NoDup_cons in Hnd as [Hh Hnd]. destruct (insert_linked _ _ _ _ _ _ J1 J2) as [Ha Hb]; [set_solver|set_solver|].
  destruct (set_next_ok m2 h h) as (m3 & E3 & N3 & O3 & N3' & P3 & D3); [apply K2, (list_rep_allocated _ _ _ _ Hr); by left|].
  destruct (set_prev_ok m3 h h) as (m4 & E4 & P4 & O4 & P4' & N4 & D4); [apply D3, K2, (list_rep_allocated _ _ _ _ Hr); by left|].
  exists m2, m4. unfold init_list_head. rewrite E3. cbn. split_and!; [done|done| | |].
  - split; [by apply NoDup_singleton|]. split; [by rewrite N4|done].
  - assert (list_rep m2 new (x :: l)) as Hr2.
    { split; [apply NoDup_cons; split; [set_solver|done]|]. split; [done|]. eapply chain_retarget; [done|exact Hc| | |done].
      - intros y Hy ?. rewrite (jo_next _ _ _ _ J2) by done. apply (jo_next _ _ _ _ J1). set_solver.
      - intros y Hy. rewrite (jo_prev _ _ _ _ J2) by set_solver. apply (jo_prev _ _ _ _ J1). apply NoDup_cons in Hnd. set_solver. }
    eapply list_rep_frame; [exact Hr2|]. intros y Hy. rewrite O4, O3 by set_solver. done.
  - split; [|intros y Hy; by apply D4, D3, K2]. intros y Hy. rewrite O4, O3 by set_solver. apply K2. set_solver.
Qed.

Lemma entries_from_spec m h l : ∀ a fuel, chain m a l h → NoDup (h :: l) → (length l < fuel)%nat →
  ∃ pos, next_of m a = Some pos ∧ entries_from fuel m h pos = Some l.
Proof.
  induction l as [|x l IH]; intros a fuel Hc Hnd Hf; destruct fuel as [|fuel]; cbn in *; try lia.
  - destruct Hc as [? _]. exists h. split; [done|]. by rewrite bool_decide_true.
  - destruct Hc as [[? _] Hc]. exists x. split; [done|]. rewrite bool_decide_false by (intros ->; apply NoDup_cons in Hnd; set_solver).
    destruct (IH x fuel Hc) as (pos & -> & E); [apply NoDup_cons in Hnd as [? [? ?]%NoDup_cons]; apply NoDup_cons; split; [set_solver|done]|lia|].
    cbn. by rewrite E.
Qed.
Lemma list_for_each_spec m h l : list_rep m h l → list_for_each m h = Some l.
Proof.
  intros Hr. pose proof Hr as [Hnd Hc]. unfold list_for_each.
  assert (length l < S (size m))%nat as Hs.
  { apply Nat.lt_succ_r. rewrite <-size_dom. rewrite <-(size_list_to_set (C := gset K) l) by (by apply NoDup_cons in Hnd as [_ ?]).
    apply subseteq_size. intros y Hy%elem_of_list_to_set. apply elem_of_dom. apply (list_rep_allocated _ _ _ _ Hr). by right. }
  destruct (entries_from_spec m h l h _ Hc Hnd Hs) as (pos & -> & E). exact E.
Qed.
End list.
#[global] Arguments list_head : clear implicits.
End LinkedList.
