(* ===== verification/Sessions.v ===== *)
(** * The sessions of the server: panda-server/server/socket_server.c

    The server listens on two sockets and runs a thread for each client.  Sessions are
    kept in two lists, of those that are active and of those that wait to be joined, and
    are counted references to, since *WHO? goes through them without the lock.  A step is
    what a thread does while it holds the mutex, or between two such sections (but see
    [close_session]); the answers
    of the calls of the system are part of the event.  A step that uses a session after
    it was freed, a pointer that is not set, or the head of a list as a session ends in a
    [Fault].  Sockets are only known to be open or not. *)

From S2P Require Import Prelude Parse Format LinkedList.
From stdpp Require Import base numbers gmap option strings list.
Open Scope Z_scope.

Module Sessions.
Import Parse Format LinkedList.

(** ** Data *)

Inductive listen_socket := Config_socket | Data_socket.
Definition socket_name (k : listen_socket) : cstring := bytes_of (match k with Config_socket => "config" | Data_socket => "data" end).

(** [struct session]; [thread] is the number of the session. *)
Record session := mk_session {
  ts : Z * Z;                   (* seconds and nanoseconds *)
  parent : option listen_socket;
  sock : bool;                  (* open *)
  name : cstring;
  ref_count : Z;
}.

(** The nodes of lists: the two heads, that of [join_sessions], and the sessions. *)
Inductive node := Active_sessions | Closed_sessions | Work_list | Session (i : nat).
#[global] Instance node_eq_dec : EqDecision node.
Proof. solve_decision. Defined.
#[global] Program Instance node_countable : Countable node :=
  inj_countable' (λ n, match n with Active_sessions => 0 | Closed_sessions => 1 | Work_list => 2 | Session i => 3 + i end%nat)
    (λ k, match k with 0 => Active_sessions | 1 => Closed_sessions | 2 => Work_list | S (S (S i)) => Session i end%nat) _.
Next Obligation. by intros []. Qed.

(** Where a thread is: those that make a list of connections have a copy of the list of
    sessions, first to write and then to release. *)
Inductive thread_pc :=
  | Not_started | Processing
  | Formatting (todo copies : list nat) (lines : list cstring) | Releasing (copies : list nat)
  | Closing | Moving | Done | Joined.

(** What the main thread does when its call of [join_sessions] returns. *)
Inductive continuation := To_accept (ready : list listen_socket) | To_fail | To_closed | To_end.
Inductive main_pc :=
  | Running
  | Joining (k : continuation) (entry : node)
  | Destroying (k : continuation) (i : nat) (next : node)
  | Accepting (ready : list listen_socket)
  | Created (i : nat) (k : listen_socket) (ready : list listen_socket)
  | Connecting (i : nat) (ready : list listen_socket)
  | Failing (i : nat)
  | Stopped
  | Walking (entry : node)
  | Stealing (k : continuation)
  | Ended.

Record server := mk_server {
  links : gmap node (list_head node);
  sessions : gmap nat session;
  threads : list thread_pc;
  running : bool;
  main : main_pc;
}.
Definition set_links (s : server) (l : gmap node (list_head node)) : server := mk_server l (sessions s) (threads s) (running s) (main s).
Definition set_sessions (s : server) (m : gmap nat session) : server := mk_server (links s) m (threads s) (running s) (main s).
Definition set_threads (s : server) (t : list thread_pc) : server := mk_server (links s) (sessions s) t (running s) (main s).
Definition set_thread (s : server) (i : nat) (pc : thread_pc) : server := set_threads s (<[i := pc]> (threads s)).
Definition set_main (s : server) (pc : main_pc) : server := mk_server (links s) (sessions s) (threads s) (running s) pc.

(** ** Faults *)

Inductive fault := Freed | Null_pointer | Wild.
Inductive result (A : Type) := Next (a : A) | Fault (f : fault).
#[global] Arguments Next {A}.
#[global] Arguments Fault {A}.
#[global] Instance result_ret : MRet result := @Next.
#[global] Instance result_bind : MBind result := λ A B f r, match r with Next a => f a | Fault e => Fault e end.
Definition access {A} (x : option A) : result A := match x with Some x => Next x | None => Fault Freed end.
Definition is_set {A} (x : option A) : result A := match x with Some x => Next x | None => Fault Null_pointer end.
(** [container_of] *)
Definition session_of (n : node) : result nat := match n with Session i => Next i | _ => Fault Wild end.
Definition get_session (s : server) (i : nat) : result session := access (sessions s !! i).
Definition put_session (s : server) (i : nat) (x : session) : server := set_sessions s (<[i := x]> (sessions s)).
Definition with_links (s : server) (op : gmap node (list_head node) → option (gmap node (list_head node))) : result server :=
  l ← access (op (links s)); Next (set_links s l).
Definition free_session (s : server) (i : nat) : server :=
  set_links (set_sessions s (delete i (sessions s))) (delete (Session i) (links s)).

(** ** Sessions *)

Definition set_ref_count (x : session) (n : Z) : session := mk_session (ts x) (parent x) (sock x) (name x) n.
Definition set_sock (x : session) (b : bool) : session := mk_session (ts x) (parent x) b (name x) (ref_count x).

(** [create_session]: numbers are not used twice.  The links of a new node are null;
    [list_add] sets both. *)
Definition create_session (s : server) (now : Z * Z) : result (nat * server) :=
  let i := length (threads s) in
  let s := put_session (set_threads s (threads s ++ [Not_started])) i (mk_session now None false [] 1) in
  s ← with_links (set_links s (<[Session i := mk_head (Session i) (Session i)]> (links s))) (list_add (Session i) Active_sessions);
  Next (i, s).

(** [close_session], in two steps under one lock: [running] is set by a signal handler that
    does not take it, so it can change after the test. *)
Definition close_session (s : server) (i : nat) : result (bool * server) :=
  x ← get_session s i;
  Next (running s, put_session s i (set_sock x false)).
Definition move_session (s : server) (i : nat) : result server :=
  s ← with_links s (list_del (Session i)); with_links s (list_add (Session i) Closed_sessions).

(** [ref_count -= 1], and [free] when there is no reference any more. *)
Definition release_session (s : server) (i : nat) : result server :=
  x ← get_session s i;
  let s := put_session s i (set_ref_count x (ref_count x - 1)) in
  Next (if bool_decide (ref_count x - 1 = 0) then free_session s i else s).
Definition destroy_session (s : server) (i : nat) : result server :=
  s ← with_links s (list_del (Session i)); release_session s i.

(** [join_sessions]: the list is taken over, then its entries are joined one by one. *)
Definition steal_sessions (s : server) (list : node) : result server :=
  empty ← access (list_is_empty list (links s));
  let s := set_links s (<[Work_list := mk_head Work_list Work_list]> (links s)) in
  if empty : bool then with_links s (init_list_head Work_list)
  else
    last ← access (prev_of (links s) list);
    first ← access (next_of (links s) list);
    s ← with_links s (list_insert Work_list last first); with_links s (init_list_head list).
Definition joined_list (k : continuation) : node := match k with To_closed => Active_sessions | _ => Closed_sessions end.
Definition start_join (s : server) (k : continuation) : result server :=
  s ← steal_sessions s (joined_list k);
  first ← access (next_of (links s) Work_list);
  Next (set_main s (Joining k first)).
Definition after_join (k : continuation) : main_pc :=
  match k with To_accept ready => Accepting ready | To_fail => Stopped | To_closed => Stealing To_end | To_end => Ended end.

(** ** The list of connections *)

Section who.
Context (gmtime : Z → Z * Z * Z * (Z * Z * Z)).

Definition MAX_RESULT_LENGTH : nat := 256.
(** [format_session_item]; [snprintf] cuts the text to the size of the buffer. *)
Definition format_session_item (x : session) : result cstring :=
  k ← is_set (parent x);
  let '(year, mon, mday, (hour, min, sec)) := gmtime (ts x).1 in
  Next (take (MAX_RESULT_LENGTH - 1)
    (fmt_pad 32 4 (year + 1900) ++ [45] ++ fmt_pad 48 2 (mon + 1) ++ [45] ++ fmt_pad 48 2 mday ++ [84] ++
     fmt_pad 48 2 hour ++ [58] ++ fmt_pad 48 2 min ++ [58] ++ fmt_pad 48 2 sec ++ [46] ++ fmt_pad 48 3 ((ts x).2 / 1000000) ++ [90; 32] ++
     socket_name k ++ [32] ++ name x ++ [32])).

(** The copy that [generate_connection_list] makes: each is put at the front. *)
Fixpoint take_references (s : server) (l : list node) (copies : list nat) : result (list nat * server) :=
  match l with
  | [] => Next (copies, s)
  | n :: l =>
      i ← session_of n; x ← get_session s i;
      take_references (put_session s i (set_ref_count x (ref_count x + 1))) l (i :: copies)
  end.
Definition copy_sessions (s : server) : result (list nat * server) :=
  l ← access (list_for_each (links s) Active_sessions); take_references s l [].

(** ** The thread of a session *)

(** What the client does next: ask for the list of connections, or close. *)
Inductive client := Asks_who | Closes.
Definition thread_step (s : server) (i : nat) (c : client) : result server :=
  match threads s !! i with
  | Some Processing =>
      match c with
      | Asks_who => '(copies, s) ← copy_sessions s; Next (set_thread s i (Formatting copies copies []))
      | Closes => x ← get_session s i; _ ← is_set (parent x); Next (set_thread s i Closing)
      end
  | Some (Formatting (j :: todo) copies lines) =>
      x ← get_session s j; line ← format_session_item x; Next (set_thread s i (Formatting todo copies (lines ++ [line])))
  | Some (Formatting [] copies _) => Next (set_thread s i (Releasing copies))
  | Some (Releasing (j :: copies)) => s ← release_session s j; Next (set_thread s i (Releasing copies))
  | Some (Releasing []) => Next (set_thread s i Processing)
  | Some Closing => '(move, s) ← close_session s i; Next (set_thread s i (if move : bool then Moving else Done))
  | Some Moving => s ← move_session s i; Next (set_thread s i Done)
  | _ => Next s
  end.

(** ** The main thread *)

Definition get_client_name (ip : Z * Z * Z * Z) (port : Z) : cstring :=
  let '(a, b, c, d) := ip in
  fmt_u a ++ [46] ++ fmt_u b ++ [46] ++ fmt_u c ++ [46] ++ fmt_u d ++ [58] ++ fmt_u port.

(** What the calls of the system answer to the main thread. *)
Inductive connected := Accept_fails | Setup_fails | Starts (ip : Z * Z * Z * Z) (port : Z) | Affinity_fails (ip : Z * Z * Z * Z) (port : Z).
Record answers := mk_answers {
  an_select : option (list listen_socket);      (* [None]: an error *)
  an_now : Z * Z;
  an_connected : connected;
}.
Definition start_thread (s : server) (i : nat) (x : session) (ip : Z * Z * Z * Z) (port : Z) : server :=
  set_thread (put_session s i (mk_session (ts x) (parent x) true (get_client_name ip port) (ref_count x))) i Processing.

(** An entry of the list that [join_sessions] works on: the thread is joined, and the
    session is destroyed in the step that follows. *)
Definition join_entry (s : server) (k : continuation) (entry : node) : result server :=
  match entry with
  | Work_list => Next (set_main s (after_join k))
  | _ =>
      i ← session_of entry;
      _ ← get_session s i;
      match threads s !! i with
      | Some Done => next ← access (next_of (links s) entry); Next (set_main (set_thread s i Joined) (Destroying k i next))
      | Some (Not_started | Joined) | None => Fault Wild
      | Some _ => Next s                        (* [pthread_join] waits *)
      end
  end.

(** [process_session], in three steps. *)
Definition process_session (s : server) (now : Z * Z) (k : listen_socket) (ready : list listen_socket) : result server :=
  '(i, s) ← create_session s now; Next (set_main s (Created i k ready)).
Definition set_parent (s : server) (i : nat) (k : listen_socket) (ready : list listen_socket) : result server :=
  x ← get_session s i;
  Next (set_main (put_session s i (mk_session (ts x) (Some k) (sock x) (name x) (ref_count x))) (Connecting i ready)).
Definition connect_session (s : server) (c : connected) (i : nat) (ready : list listen_socket) : result server :=
  x ← get_session s i;
  match c with
  | Accept_fails | Setup_fails => Next (set_main s (Failing i))
  | Starts ip port => Next (set_main (start_thread s i x ip port) (Accepting ready))
  | Affinity_fails ip port => Next (set_main (start_thread s i x ip port) (Failing i))
  end.

(** [terminate_socket_server] shuts the sockets of the active sessions. *)
Definition shutdown_entry (s : server) (entry : node) : result server :=
  match entry with
  | Active_sessions => Next (set_main s (Stealing To_closed))
  | _ => i ← session_of entry; _ ← get_session s i; next ← access (next_of (links s) entry); Next (set_main s (Walking next))
  end.
Definition main_step (s : server) (a : answers) : result server :=
  match main s with
  | Running =>
      if running s then start_join s (match an_select a with Some ready => To_accept ready | None => To_fail end)
      else Next (set_main s Stopped)
  | Joining k entry => join_entry s k entry
  | Destroying k i next => s ← destroy_session s i; Next (set_main s (Joining k next))
  | Accepting [] => Next (set_main s Running)
  | Accepting (k :: ready) => process_session s (an_now a) k ready
  | Created i k ready => set_parent s i k ready
  | Connecting i ready => connect_session s (an_connected a) i ready
  | Failing i => s ← destroy_session s i; Next (set_main s Stopped)
  | Stopped => first ← access (next_of (links s) Active_sessions); Next (set_main s (Walking first))
  | Walking entry => shutdown_entry s entry
  | Stealing k => start_join s k
  | Ended => Next s
  end.

(** ** Runs *)

Inductive event := Main (a : answers) | Thread (i : nat) (c : client) | Kill.
Definition kill_socket_server (s : server) : server := mk_server (links s) (sessions s) (threads s) false (main s).
(** The mutex: only a thread that moves its session keeps it from one step to the next, and
    the steps that take it wait.  [kill_socket_server], a thread that is formatting, and
    the main thread where it reads the next entry of a list do not take it. *)
Definition is_moving (pc : thread_pc) : bool := match pc with Moving => true | _ => false end.
Definition locked (s : server) : bool := existsb is_moving (threads s).
Definition takes_lock (s : server) (e : event) : bool :=
  match e with
  | Main _ =>
      match main s with
      | Running => running s
      | Accepting (_ :: _) | Destroying _ _ _ | Failing _ | Walking (Session _) | Stealing _ => true
      | _ => false
      end
  | Thread i c =>
      match threads s !! i with
      | Some Processing => match c with Asks_who => true | Closes => false end
      | Some (Releasing (_ :: _)) | Some Closing => true
      | _ => false
      end
  | Kill => false
  end.
Definition step (s : server) (e : event) : result server :=
  if locked s && takes_lock s e then Next s
  else
    match e with
    | Main a => main_step s a
    | Thread i c => thread_step s i c
    | Kill => Next (kill_socket_server s)
    end.
Fixpoint run (s : server) (events : list event) : result server :=
  match events with
  | [] => Next s
  | e :: events => s ← step s e; run s events
  end.

Definition initial : server :=
  mk_server {[Active_sessions := mk_head Active_sessions Active_sessions; Closed_sessions := mk_head Closed_sessions Closed_sessions]}
    ∅ [] true Running.
End who.
End Sessions.
