(* ===== verification/SessionsSpec.v ===== *)
(** * Sessions are never used after they are freed

    The invariant of the sessions: each is on one list at most, its references are
    counted, and those in use are there.  It holds in every interleaving of the threads,
    as long as the server ends in the orderly way. *)

From S2P Require Import Prelude Parse Format LinkedList Sessions.
From stdpp Require Import base numbers gmap option strings list.
Open Scope Z_scope.

Module SessionsSpec.
Import LinkedList Sessions.

(** ** Counting *)

Definition count (i : nat) (l : list nat) : nat := length (filter (λ j, j = i) l).
#[local] Arguments count : simpl never.
Lemma count_app i l l' : count i (l ++ l') = (count i l + count i l')%nat.
Proof. unfold count. by rewrite filter_app, length_app. Qed.
Lemma count_cons i j l : count i (j :: l) = ((if decide (j = i) then 1 else 0) + count i l)%nat.
Proof. unfold count. rewrite filter_cons. by case_decide. Qed.
Lemma count_in i l : i ∈ l → (0 < count i l)%nat.
Proof. intros (l1 & l2 & ->)%list_elem_of_split. rewrite count_app, count_cons, decide_True by done. lia. Qed.
Lemma count_not_in i l : i ∉ l → count i l = 0%nat.
Proof. induction l as [|j l IH]; [done|]. intros Hi. rewrite count_cons, decide_False by set_solver. rewrite IH; set_solver. Qed.
Lemma count_pos i l : (0 < count i l)%nat → i ∈ l.
Proof. intros H. destruct (decide (i ∈ l)); [done|]. rewrite count_not_in in H by done. lia. Qed.
Lemma count_perm i l l' : l ≡ₚ l' → count i l = count i l'.
Proof. intros H. unfold count. by rewrite H. Qed.

(** The sessions that a thread holds references to. *)
Definition copies_of (pc : thread_pc) : list nat :=
  match pc with Formatting _ copies _ => copies | Releasing copies => copies | _ => [] end.
#[local] Arguments copies_of : simpl never.
Definition references (t : list thread_pc) (i : nat) : nat := sum_list_with (λ pc, count i (copies_of pc)) t.
#[local] Arguments references : simpl never.
Definition holds (t : list thread_pc) (l : list nat) (i : nat) : nat := (count i l + references t i)%nat.
Lemma references_insert t i pc pc' j :
  t !! i = Some pc → (references (<[i := pc']> t) j + count j (copies_of pc) = references t j + count j (copies_of pc'))%nat.
Proof.
  unfold references. revert i. induction t as [|p t IH]; intros [|i]; simpl; try done.
  - intros [= ->]. lia.
  - intros E. specialize (IH i E). lia.
Qed.
Lemma references_app t pc j : references (t ++ [pc]) j = (references t j + count j (copies_of pc))%nat.
Proof. unfold references. rewrite sum_list_with_app. cbn. lia. Qed.
Lemma references_ge t i pc j : t !! i = Some pc → j ∈ copies_of pc → (0 < references t j)%nat.
Proof.
  intros E Hj%count_in. unfold references. revert i E. induction t as [|p t IH]; intros [|i]; simpl; try done.
  - intros [= ->]. lia.
  - intros E. specialize (IH i E). lia.
Qed.

(** ** References *)

Definition sessions_ok (hold : nat → nat) (m : gmap nat session) : Prop :=
  ∀ i, match m !! i with Some x => ref_count x = Z.of_nat (hold i) ∧ (0 < hold i)%nat | None => hold i = 0%nat end.
Lemma sessions_there hold m i : sessions_ok hold m → (0 < hold i)%nat → ∃ x, m !! i = Some x.
Proof. intros H Hi. specialize (H i). destruct (m !! i) as [x|]; [by exists x|lia]. Qed.
Lemma sessions_ok_ext hold hold' m : (∀ i, hold' i = hold i) → sessions_ok hold m → sessions_ok hold' m.
Proof. intros He H i. specialize (H i). by destruct (m !! i); rewrite He. Qed.
(** A session changed but for its count. *)
Lemma sessions_ok_update hold m i x y :
  m !! i = Some x → ref_count y = ref_count x → sessions_ok hold m → sessions_ok hold (<[i := y]> m).
Proof.
  intros E Er H j. specialize (H j). destruct (decide (j = i)) as [->|].
  - rewrite lookup_insert_eq. rewrite E in H. by rewrite Er.
  - by rewrite lookup_insert_ne.
Qed.
Lemma sessions_ok_count hold hold' m i x n :
  m !! i = Some x → n = Z.of_nat (hold' i) → (0 < hold' i)%nat → (∀ j, j ≠ i → hold' j = hold j) → sessions_ok hold m →
  sessions_ok hold' (<[i := set_ref_count x n]> m).
Proof.
  intros E En Hp Ho H j. destruct (decide (j = i)) as [->|].
  - rewrite lookup_insert_eq. done.
  - rewrite lookup_insert_ne by done. specialize (H j). by destruct (m !! j); rewrite Ho.
Qed.
Lemma sessions_ok_delete hold hold' m i :
  hold' i = 0%nat → (∀ j, j ≠ i → hold' j = hold j) → sessions_ok hold m → sessions_ok hold' (delete i m).
Proof.
  intros Hi Ho H j. destruct (decide (j = i)) as [->|]; [by rewrite lookup_delete_eq|].
  rewrite lookup_delete_ne by done. specialize (H j). by destruct (m !! j); rewrite Ho.
Qed.
(** What a step leaves alone. *)
Definition same_control (s s' : server) : Prop := threads s' = threads s ∧ running s' = running s ∧ main s' = main s.
Lemma release_session_spec s hold hold' i :
  sessions_ok hold (sessions s) → hold i = S (hold' i) → (∀ j, j ≠ i → hold' j = hold j) →
  ∃ s', release_session s i = Next s' ∧ sessions_ok hold' (sessions s') ∧ same_control s s' ∧
    (∀ j x', sessions s' !! j = Some x' → ∃ x, sessions s !! j = Some x ∧ parent x' = parent x) ∧
    (∀ n, n ≠ Session i ∨ (0 < hold' i)%nat → links s' !! n = links s !! n).
Proof.
  intros Hok Hi Ho. destruct (sessions_there _ _ i Hok) as [x E]; [lia|]. pose proof (Hok i) as Hx. rewrite E in Hx. destruct Hx as [Hx _].
  unfold release_session, get_session. rewrite E. cbn [access mbind result_bind]. eexists. split; [done|].
  assert (∀ j x', <[i := set_ref_count x (ref_count x - 1)]> (sessions s) !! j = Some x' →
    ∃ x0, sessions s !! j = Some x0 ∧ parent x' = parent x0) as Hp.
  { intros j x'. destruct (decide (j = i)) as [->|]; [rewrite lookup_insert_eq; intros [= <-]; by exists x|].
    rewrite lookup_insert_ne by done. intros ?. by exists x'. }
  case_bool_decide as H0.
  - assert (hold' i = 0%nat) by lia. split_and!; [|done| |].
    + cbn. rewrite delete_insert_eq. by apply (sessions_ok_delete hold).
    + intros j x'. cbn. intros [_ E']%lookup_delete_Some. by apply Hp.
    + intros n [Hn|?]; [|lia]. cbn. by rewrite lookup_delete_ne.
  - split_and!; [|done|exact Hp|done]. cbn. apply (sessions_ok_count hold); [done|lia|lia|done|done].
Qed.

(** The copy of the list for *WHO?: one more reference to each. *)
Lemma take_references_spec l : ∀ s hold copies,
  sessions_ok hold (sessions s) → (∀ i, i ∈ l → (0 < hold i)%nat) →
  ∃ s', take_references s (Session <$> l) copies = Next (rev l ++ copies, s') ∧
    sessions_ok (λ i, (hold i + count i l)%nat) (sessions s') ∧ same_control s s' ∧ links s' = links s ∧
    (∀ j x', sessions s' !! j = Some x' → ∃ x, sessions s !! j = Some x ∧ parent x' = parent x).
Proof.
  induction l as [|i l IH]; intros s hold copies Hok Hin.
  - exists s. split_and!; [done| |done|done|by intros j x' ?; exists x'].
    eapply sessions_ok_ext; [|exact Hok]. intros j. cbn. unfold count. cbn. lia.
  - destruct (sessions_there _ _ i Hok) as [x E]; [apply Hin; by left|]. pose proof (Hok i) as Hx. rewrite E in Hx. destruct Hx as [Hx _].
    change (Session <$> i :: l) with (Session i :: (Session <$> l)). cbn [take_references session_of mbind result_bind].
    unfold get_session at 1. rewrite E. cbn [access mbind result_bind].
    set (s1 := put_session s i _).
    destruct (IH s1 (λ j, (hold j + (if decide (j = i) then 1 else 0))%nat) (i :: copies)) as (s' & E' & Hok' & Hc & Hl & Hp).
    { apply (sessions_ok_count hold); [done|cbn; rewrite decide_True by done; lia|cbn; rewrite decide_True by done; lia| |done]. intros j ?. cbn. rewrite decide_False by done. lia. }
    { intros j Hj. specialize (Hin j ltac:(by right)). lia. }
    exists s'. split_and!; [by rewrite E'; cbn; rewrite <-(assoc_L (++))| |done|done|].
    + eapply sessions_ok_ext; [|exact Hok']. intros j. cbn. rewrite count_cons. repeat case_decide; naive_solver lia.
    + intros j x' (y & E1 & ->)%Hp. subst s1. unfold put_session in E1. cbn in E1. destruct (decide (j = i)) as [->|].
      * rewrite lookup_insert_eq in E1. injection E1 as <-. by exists x.
      * rewrite lookup_insert_ne in E1 by done. by exists y.
Qed.

(** ** The invariant *)

Definition first_of (h : node) (l : list nat) : node := match l with i :: _ => Session i | [] => h end.
Definition all (act cl wk : list nat) : list nat := act ++ cl ++ wk.

(** No thread is between the test of [running] and the move of its session. *)
Definition idle (s : server) : Prop := ∀ i, threads s !! i ≠ Some Moving.

Lemma idle_insert s i pc : pc ≠ Moving → idle s → idle (set_thread s i pc).
Proof. intros Hpc Hs j. cbn. intros [(_ & -> & _)|[_ Ej]]%list_lookup_insert_Some; [done|by apply (Hs j)]. Qed.

(** What the main thread is about, and what it relies on. *)
Definition join_ok (s : server) (k : continuation) (act cl : list nat) : Prop :=
  match k with
  | To_accept _ | To_fail => True
  | To_closed => (running s = false ∧ idle s) ∧ act = []
  | To_end => (running s = false ∧ idle s) ∧ act = [] ∧ cl = []
  end.
Definition main_ok (s : server) (act cl wk : list nat) : Prop :=
  match main s with
  | Running | Accepting _ | Stopped => wk = []
  | Joining k e => join_ok s k act cl ∧ list_rep (links s) Work_list (Session <$> wk) ∧ e = first_of Work_list wk
  | Destroying k i next =>
      join_ok s k act cl ∧ list_rep (links s) Work_list (Session <$> wk) ∧ threads s !! i = Some Joined ∧
      ∃ rest, wk = i :: rest ∧ next = first_of Work_list rest
  | Created i _ _ | Connecting i _ | Failing i => wk = [] ∧ i ∈ act ∧ threads s !! i = Some Not_started
  | Walking e => wk = [] ∧ (running s = false ∧ idle s) ∧ ∃ pre suf, act = pre ++ suf ∧ e = first_of Active_sessions suf
  | Stealing k => wk = [] ∧ (running s = false ∧ idle s) ∧ (k = To_closed ∨ k = To_end ∧ act = [])
  | Ended => wk = [] ∧ act = [] ∧ cl = [] ∧ running s = false ∧ idle s
  end.
(** The session the main thread is setting up, and the one it has joined. *)
Definition about (m : main_pc) (i : nat) : Prop :=
  match m with Created j _ _ | Connecting j _ | Failing j => j = i | _ => False end.
Definition being_created (m : main_pc) (i : nat) : Prop := match m with Created j _ _ => j = i | _ => False end.
Definition destroying (m : main_pc) (i : nat) : Prop := match m with Destroying _ j _ => j = i | _ => False end.

(** Where the session of a thread is. *)
Definition in_use (s : server) (act wk : list nat) (i : nat) : Prop := i ∈ act ∨ i ∈ wk ∧ running s = false.
Definition thread_ok (s : server) (act cl wk : list nat) (i : nat) (pc : thread_pc) : Prop :=
  match pc with
  | Not_started => i ∈ all act cl wk → about (main s) i
  | Joined => i ∈ all act cl wk → destroying (main s) i
  | Done => i ∈ all act cl wk
  | Formatting todo copies _ => in_use s act wk i ∧ todo ⊆ copies
  | Moving => i ∈ act
  | _ => in_use s act wk i
  end.

Record inv (s : server) (act cl wk : list nat) : Prop := {
  iv_active : list_rep (links s) Active_sessions (Session <$> act);
  iv_closed : list_rep (links s) Closed_sessions (Session <$> cl);
  iv_nodup : NoDup (all act cl wk);
  iv_sessions : sessions_ok (holds (threads s) (all act cl wk)) (sessions s);
  iv_bound i : (0 < holds (threads s) (all act cl wk) i)%nat → (i < length (threads s))%nat;
  iv_parent i x : sessions s !! i = Some x → parent x = None → being_created (main s) i;
  iv_threads i pc : threads s !! i = Some pc → thread_ok s act cl wk i pc;
  iv_main : main_ok s act cl wk;
}.

Lemma holds_in t l i : i ∈ l → (0 < holds t l i)%nat.
Proof. intros H%count_in. unfold holds. lia. Qed.
Lemma holds_copies t l i pc j : t !! i = Some pc → j ∈ copies_of pc → (0 < holds t l j)%nat.
Proof. intros E Hj. pose proof (references_ge _ _ _ _ E Hj). unfold holds. lia. Qed.

(** The lists do not change when the links of their nodes do not. *)
Definition listed (act cl wk : list nat) (n : node) : Prop := ∀ j, n = Session j → j ∈ all act cl wk.
Lemma rep_listed l l' h lst act cl wk :
  (∀ n, listed act cl wk n → l' !! n = l !! n) → (∀ j, h ≠ Session j) → lst ⊆ all act cl wk →
  list_rep l h (Session <$> lst) → list_rep l' h (Session <$> lst).
Proof.
  intros Hl Hh Hsub Hr. eapply list_rep_frame; [exact Hr|]. intros n [->|(j & -> & Hj)%list_elem_of_fmap]%elem_of_cons; apply Hl; intros j' E.
  - by destruct (Hh j').
  - injection E as <-. by apply Hsub.
Qed.
Lemma all_act act cl wk : act ⊆ all act cl wk.
Proof. unfold all. set_solver. Qed.
Lemma all_cl act cl wk : cl ⊆ all act cl wk.
Proof. unfold all. set_solver. Qed.
Lemma all_wk act cl wk : wk ⊆ all act cl wk.
Proof. unfold all. set_solver. Qed.
#[local] Hint Resolve all_act all_cl all_wk : core.

(** A session changed, or its links, without effect on where the main thread is. *)
Lemma main_ok_keep s s' act cl wk :
  main s' = main s → running s' = running s → (∀ n, listed act cl wk n → links s' !! n = links s !! n) →
  (running s = false → idle s → idle s') →
  (∀ i, destroying (main s) i ∨ about (main s) i → threads s' !! i = threads s !! i) → main_ok s act cl wk → main_ok s' act cl wk.
Proof.
  intros Hm Hr Hl Hidle Ht.
  assert (∀ k, join_ok s k act cl → join_ok s' k act cl) as Hj.
  { intros [r| | |]; cbn; rewrite ?Hr; [done|done|intros [[? ?] ?]|intros [[? ?] [? ?]]]; split_and?; auto. }
  unfold main_ok. rewrite Hm, Hr. destruct (main s) as [|k e|k i next| |i k r|i r|i| |e|k|]; try done.
  - intros (? & ? & ?). split_and!; [by apply Hj|by eapply rep_listed|done].
  - intros (? & ? & ? & ?). rewrite Ht by (by left). split_and!; [by apply Hj|by eapply rep_listed|done|done].
  - rewrite Ht by (by right). done.
  - rewrite Ht by (by right). done.
  - rewrite Ht by (by right). done.
  - intros (? & [? ?] & ?). split_and!; auto.
  - intros (? & [? ?] & ?). split_and!; auto.
  - intros (? & ? & ? & ? & ?). split_and!; auto.
Qed.

(** Threads that run. *)
Definition live (pc : thread_pc) : Prop :=
  match pc with Not_started | Done | Joined => False | _ => True end.
Lemma live_not_main s act cl wk i pc : inv s act cl wk → threads s !! i = Some pc → live pc → ¬ destroying (main s) i ∧ ¬ about (main s) i.
Proof.
  intros Hi E Hl. pose proof (iv_main _ _ _ _ Hi) as Hm. unfold main_ok in Hm.
  split; intros Hx; destruct (main s); cbn in Hx; try done; subst; destruct_and?; simplify_eq; done.
Qed.
Lemma live_in_use s act cl wk i pc : thread_ok s act cl wk i pc → live pc → in_use s act wk i.
Proof. destruct pc; cbn; unfold in_use; tauto. Qed.
Lemma in_use_all s act cl wk i : in_use s act wk i → i ∈ all act cl wk.
Proof. intros [?|[? _]]; [by apply all_act|by apply all_wk]. Qed.

(** A step of a running thread that moves no session. *)
Lemma inv_thread s s' act cl wk i pc pc' :
  inv s act cl wk → threads s !! i = Some pc → live pc →
  main s' = main s → running s' = running s → (pc' = Moving → running s = true) → (∀ n, listed act cl wk n → links s' !! n = links s !! n) →
  threads s' = <[i := pc']> (threads s) → sessions_ok (holds (threads s') (all act cl wk)) (sessions s') →
  (∀ j x', sessions s' !! j = Some x' → ∃ x, sessions s !! j = Some x ∧ parent x' = parent x) →
  (∀ j, j ∈ copies_of pc' → (0 < holds (threads s) (all act cl wk) j)%nat) → thread_ok s act cl wk i pc' →
  inv s' act cl wk.
Proof.
  intros Hi E Hlive Hm Hr Hmv Hl Ht Hs Hp Hc Hok. destruct (live_not_main _ _ _ _ _ _ Hi E Hlive) as [Hd Ha]. split.
  - eapply rep_listed; [exact Hl|done|auto|apply Hi].
  - eapply rep_listed; [exact Hl|done|auto|apply Hi].
  - apply Hi.
  - exact Hs.
  - intros j Hj. rewrite Ht, length_insert. apply (iv_bound _ _ _ _ Hi).
    destruct (decide (j ∈ copies_of pc')) as [?|Hn]; [by apply Hc|]. unfold holds in *. rewrite Ht in Hj.
    pose proof (references_insert _ _ _ pc' j E) as Hri. rewrite (count_not_in j (copies_of pc')) in Hri by done. lia.
  - intros j x' (x & Ex & ->)%Hp Hx. rewrite Hm. by eapply (iv_parent _ _ _ _ Hi).
  - intros j pcj. rewrite Ht. intros [(<- & <- & _)|[? Ej]]%list_lookup_insert_Some; [|apply (iv_threads _ _ _ _ Hi) in Ej].
    + revert Hok. unfold thread_ok, in_use. rewrite Hm, Hr. done.
    + revert Ej. unfold thread_ok, in_use. rewrite Hm, Hr. done.
  - eapply main_ok_keep; [done..| | |apply Hi].
    + intros Hf Hid j. rewrite Ht. intros [(_ & -> & _)|[_ Ej]]%list_lookup_insert_Some; [by rewrite Hmv in Hf|by apply (Hid j)].
    + intros j Hj. rewrite Ht, list_lookup_insert_ne; [done|]. intros ->. naive_solver.
Qed.

(** ** Steps of the threads *)

(** The invariant holds after a step; the only fault is that of *WHO? for a session that
    is being created. *)
Definition kept (s : server) (r : result server) : Prop :=
  match r with
  | Next s' => ∃ act cl wk, inv s' act cl wk
  | Fault f => f = Null_pointer ∧ ∃ i, being_created (main s) i
  end.

Lemma session_there s act cl wk i : inv s act cl wk → (0 < holds (threads s) (all act cl wk) i)%nat → ∃ x, sessions s !! i = Some x.
Proof. intros Hi. apply sessions_there, Hi. Qed.
Lemma in_use_there s act cl wk i : inv s act cl wk → in_use s act wk i → ∃ x, sessions s !! i = Some x.
Proof. intros Hi Hu. eapply session_there; [exact Hi|]. apply holds_in. by eapply in_use_all. Qed.

(** Only the place of the thread changes, and the references it holds do not. *)
Lemma inv_thread_moves s act cl wk i pc pc' :
  inv s act cl wk → threads s !! i = Some pc → live pc → pc' ≠ Moving → copies_of pc' = copies_of pc →
  thread_ok s act cl wk i pc' → inv (set_thread s i pc') act cl wk.
Proof.
  intros Hi E Hl Hmv Hc Hok. eapply inv_thread; [exact Hi|exact E|exact Hl|done|done|by intros ?|done|done| |by intros j x ?; exists x| |exact Hok].
  - eapply sessions_ok_ext; [|apply Hi]. intros j. unfold holds. cbn. pose proof (references_insert _ _ _ pc' j E) as Hr. rewrite Hc in Hr. lia.
  - intros j. rewrite Hc. by eapply holds_copies.
Qed.

Lemma asks_who_kept gmtime s act cl wk i : inv s act cl wk → threads s !! i = Some Processing → kept s (thread_step gmtime s i Asks_who).
Proof.
  intros Hi E. unfold thread_step. rewrite E. pose proof (iv_threads _ _ _ _ Hi _ _ E) as Hu. cbn in Hu.
  unfold copy_sessions. rewrite (list_for_each_spec _ _ _ (iv_active _ _ _ _ Hi)). cbn [access mbind result_bind].
  destruct (take_references_spec act s _ [] (iv_sessions _ _ _ _ Hi)) as (s' & -> & Hok & (Ht & Hr & Hm) & Hl & Hp).
  { intros j Hj. apply holds_in. by apply all_act. }
  cbn [mbind result_bind kept]. exists act, cl, wk. rewrite app_nil_r.
  eapply inv_thread; [exact Hi|exact E|done|done|done| | |cbn; by rewrite Ht| |exact Hp| |].
  - done.
  - intros n _. cbn. by rewrite Hl.
  - cbn. eapply sessions_ok_ext; [|exact Hok]. intros j. unfold holds. rewrite Ht.
    pose proof (references_insert _ _ _ (Formatting (rev act) (rev act) []) j E) as Hri. cbn in Hri. unfold copies_of in Hri at 2.
    rewrite (count_perm j (rev act) act) in Hri by (symmetry; apply Permutation_rev). unfold copies_of in Hri. cbn in Hri.
    rewrite (count_not_in j []) in Hri by set_solver. lia.
  - intros j Hj. apply holds_in, all_act. unfold copies_of in Hj. by rewrite (Permutation_rev act).
  - done.
Qed.

Lemma closes_kept gmtime s act cl wk i : inv s act cl wk → threads s !! i = Some Processing → kept s (thread_step gmtime s i Closes).
Proof.
  intros Hi E. unfold thread_step. rewrite E. pose proof (iv_threads _ _ _ _ Hi _ _ E) as Hu. cbn in Hu.
  destruct (in_use_there _ _ _ _ _ Hi Hu) as [x Ex]. unfold get_session. rewrite Ex. cbn [access mbind result_bind].
  destruct (parent x) eqn:Ep; cbn [is_set mbind result_bind kept].
  - exists act, cl, wk. by eapply inv_thread_moves.
  - split; [done|]. exists i. by eapply (iv_parent _ _ _ _ Hi).
Qed.

Lemma formats_kept gmtime s act cl wk i j todo copies lines c :
  inv s act cl wk → threads s !! i = Some (Formatting (j :: todo) copies lines) → kept s (thread_step gmtime s i c).
Proof.
  intros Hi E. unfold thread_step. rewrite E. pose proof (iv_threads _ _ _ _ Hi _ _ E) as [Hu Hsub].
  destruct (session_there _ _ _ _ j Hi) as [x Ex]; [eapply holds_copies; [exact E|]; apply Hsub; by left|].
  unfold get_session. rewrite Ex. cbn [access mbind result_bind]. unfold format_session_item.
  destruct (parent x) eqn:Ep; cbn [is_set mbind result_bind kept].
  - destruct (gmtime _) as [[[year mon] mday] [[hour min] sec]]. cbn [mbind result_bind kept]. exists act, cl, wk.
    eapply inv_thread_moves; [done..|]. split; [done|]. set_solver.
  - split; [done|]. exists j. by eapply (iv_parent _ _ _ _ Hi).
Qed.

Lemma releases_kept gmtime s act cl wk i j copies c :
  inv s act cl wk → threads s !! i = Some (Releasing (j :: copies)) → kept s (thread_step gmtime s i c).
Proof.
  intros Hi E. unfold thread_step. rewrite E. pose proof (iv_threads _ _ _ _ Hi _ _ E) as Hu. cbn in Hu.
  set (t := <[i := Releasing copies]> (threads s)).
  assert (∀ k, holds (threads s) (all act cl wk) k = ((if decide (j = k) then 1 else 0) + holds t (all act cl wk) k)%nat) as Hh.
  { intros k. unfold holds. pose proof (references_insert _ _ _ (Releasing copies) k E) as Hr. unfold copies_of in Hr. rewrite count_cons in Hr.
    fold t in Hr. lia. }
  destruct (release_session_spec s _ (holds t (all act cl wk)) j (iv_sessions _ _ _ _ Hi)) as (s' & -> & Hok & (Ht & Hr & Hm) & Hp & Hl).
  { rewrite Hh, decide_True by done. done. }
  { intros k ?. rewrite Hh, decide_False by done. done. }
  cbn [mbind result_bind kept]. exists act, cl, wk.
  eapply inv_thread; [exact Hi|exact E|done|done|done| | |cbn; by rewrite Ht| |exact Hp| |exact Hu].
  - done.
  - intros n Hn. cbn. apply Hl. destruct (decide (n = Session j)) as [->|]; [right|by left]. apply holds_in. by apply Hn.
  - cbn. rewrite Ht. exact Hok.
  - intros k Hk. eapply holds_copies; [exact E|]. by right.
Qed.

(** Lists of sessions, apart from each other and from the heads. *)
Lemma heads_apart (l l' : list nat) (h : node) j : (∀ k, h ≠ Session k) → j ∈ l' → (∀ k, k ∈ l → k ∉ l') → Session j ∉ h :: (Session <$> l).
Proof. intros Hh Hj Hd [E|(k & [= ->] & Hk)%list_elem_of_fmap]%elem_of_cons; [by destruct (Hh j)|by destruct (Hd k)]. Qed.
Lemma nodes_apart (l l' : list nat) (h h' : node) n :
  (∀ k, h ≠ Session k) → (∀ k, h' ≠ Session k) → h ≠ h' → (∀ k, k ∈ l → k ∉ l') → n ∈ h :: (Session <$> l) → n ∉ h' :: (Session <$> l').
Proof.
  intros Hh Hh' Hne Hd [->|(k & -> & Hk)%list_elem_of_fmap]%elem_of_cons.
  - intros [?|(k & ? & _)%list_elem_of_fmap]%elem_of_cons; [done|by destruct (Hh k)].
  - apply (heads_apart l' l); [done|exact Hk|]. intros k' Hk' ?. by destruct (Hd k').
Qed.

(** The session of a closing thread goes from one list to the other. *)
Lemma move_to_closed l act1 i act2 cl wk :
  list_rep l Active_sessions (Session <$> act1 ++ i :: act2) → list_rep l Closed_sessions (Session <$> cl) → NoDup (all (act1 ++ i :: act2) cl wk) →
  ∃ l1 l2, list_del (Session i) l = Some l1 ∧ list_add (Session i) Closed_sessions l1 = Some l2 ∧
    list_rep l2 Active_sessions (Session <$> act1 ++ act2) ∧ list_rep l2 Closed_sessions (Session <$> i :: cl) ∧
    (list_rep l Work_list (Session <$> wk) → list_rep l2 Work_list (Session <$> wk)).
Proof.
  intros Ha Hc Hnd. unfold all in Hnd. apply NoDup_app in Hnd as (Hnd & Hd & [Hcl [Hcw Hwk]]%NoDup_app).
  assert (NoDup (i :: act1 ++ act2)) as Hnd' by by rewrite Permutation_middle. apply NoDup_cons in Hnd' as [Hi _].
  rewrite fmap_app, fmap_cons in Ha. pose proof (list_rep_allocated _ _ _ (Session i) Ha ltac:(set_solver)) as Hai.
  destruct (list_del_spec _ _ _ _ _ Ha) as (l1 & E1 & Ha1 & K1). rewrite <-fmap_app in Ha1, K1.
  assert (list_rep l1 Closed_sessions (Session <$> cl)) as Hc1.
  { eapply keeps_rep; [exact K1|exact Hc|]. intros n Hn. apply (nodes_apart cl (act1 ++ act2) Closed_sessions Active_sessions); [done..| |exact Hn]. intros k Hk ?. apply (Hd k); set_solver. }
  destruct (list_add_spec l1 (Session i) Closed_sessions (Session <$> cl) Hc1) as (l2 & E2 & Hc2 & K2); [by apply K1| |].
  { eapply (heads_apart cl (act1 ++ i :: act2)); [done|set_solver|]. intros k Hk ?. apply (Hd k); set_solver. }
  exists l1, l2. split_and!; [done|done| |done|].
  - eapply keeps_rep; [exact K2|exact Ha1|]. intros n Hn. rewrite not_elem_of_cons. split.
    + intros ->. revert Hn. eapply (heads_apart (act1 ++ act2) [i]); [done|by left|]. intros k Hk ->%list_elem_of_singleton. done.
    + apply (nodes_apart (act1 ++ act2) cl Active_sessions Closed_sessions); [done..| |exact Hn]. intros k Hk ?. apply (Hd k); set_solver.
  - intros Hw. eapply keeps_rep; [exact K2| |].
    + eapply keeps_rep; [exact K1|exact Hw|]. intros n Hn. apply (nodes_apart wk (act1 ++ act2) Work_list Active_sessions); [done..| |exact Hn]. intros k Hk ?. apply (Hd k); set_solver.
    + intros n Hn. rewrite not_elem_of_cons. split.
      * intros ->. revert Hn. eapply (heads_apart wk (act1 ++ i :: act2)); [done|set_solver|]. intros k Hk ?. apply (Hd k); set_solver.
      * apply (nodes_apart wk cl Work_list Closed_sessions); [done..| |exact Hn]. intros k Hk ?. by apply (Hcw k).
Qed.

Lemma holds_perm t l l' i : l ≡ₚ l' → holds t l i = holds t l' i.
Proof. intros H. unfold holds. by rewrite (count_perm i l l' H). Qed.
(** The session of a thread that found the server running is moved. *)
Lemma inv_moved s act1 i act2 cl wk l :
  inv s (act1 ++ i :: act2) cl wk → threads s !! i = Some Moving →
  list_rep l Active_sessions (Session <$> act1 ++ act2) → list_rep l Closed_sessions (Session <$> i :: cl) →
  (list_rep (links s) Work_list (Session <$> wk) → list_rep l Work_list (Session <$> wk)) →
  inv (set_thread (set_links s l) i Done) (act1 ++ act2) (i :: cl) wk.
Proof.
  intros Hi E Ha Hc Hw. set (s' := set_thread _ i Done).
  assert (all (act1 ++ act2) (i :: cl) wk ≡ₚ all (act1 ++ i :: act2) cl wk) as Hall by (unfold all; solve_Permutation).
  assert (∀ j, references (threads s') j = references (threads s) j) as Href.
  { intros j. pose proof (references_insert _ _ _ Done j E) as Hr'. unfold copies_of in Hr'. cbn. lia. }
  destruct (live_not_main _ _ _ _ _ _ Hi E I) as [Hnd Hna]. split.
  - exact Ha.
  - exact Hc.
  - rewrite Hall. apply Hi.
  - cbn. eapply sessions_ok_ext; [|apply Hi]. intros j. unfold holds. rewrite (count_perm _ _ _ Hall). by rewrite <-Href.
  - intros j Hj. cbn. rewrite length_insert. apply (iv_bound _ _ _ _ Hi). unfold holds in *. by rewrite (count_perm _ _ _ Hall), Href in Hj.
  - apply (iv_parent _ _ _ _ Hi).
  - intros j pc. cbn. intros [(<- & <- & _)|[Hne Ej]]%list_lookup_insert_Some; [cbn; rewrite Hall; by apply all_act; set_solver|].
    apply (iv_threads _ _ _ _ Hi) in Ej. revert Ej. unfold thread_ok, in_use. cbn. destruct pc; rewrite ?Hall; try done; set_solver.
  - pose proof (iv_main _ _ _ _ Hi) as Hm. revert Hm Hnd Hna. unfold main_ok, join_ok, idle. subst s'. cbn.
    destruct (main s) as [|k e|k j next| |j k r|j r|j| | | |]; cbn; try (naive_solver done).
    + intros (? & ? & ?) _ _. split_and!; [destruct k; naive_solver|by apply Hw|done].
    + intros (? & ? & ? & ?) ? _. rewrite list_lookup_insert_ne by done. split_and!; [destruct k; naive_solver|by apply Hw|done|done].
    + intros (? & ? & ?) _ ?. rewrite list_lookup_insert_ne by done. split_and!; [done|set_solver|done].
    + intros (? & ? & ?) _ ?. rewrite list_lookup_insert_ne by done. split_and!; [done|set_solver|done].
    + intros (? & ? & ?) _ ?. rewrite list_lookup_insert_ne by done. split_and!; [done|set_solver|done].
Qed.
Lemma moving_kept gmtime s act cl wk i c : inv s act cl wk → threads s !! i = Some Moving → kept s (thread_step gmtime s i c).
Proof.
  intros Hi E. unfold thread_step. rewrite E. pose proof (iv_threads _ _ _ _ Hi _ _ E) as Hu. cbn in Hu.
  apply list_elem_of_split in Hu as (act1 & act2 & ->).
  destruct (move_to_closed (links s) act1 i act2 cl wk) as (l1 & l2 & E1 & E2 & Ha & Hc & Hw); [apply Hi..|].
  unfold move_session, with_links. rewrite E1. cbn [access mbind result_bind set_links links]. rewrite E2.
  cbn [access mbind result_bind kept]. exists (act1 ++ act2), (i :: cl), wk. by apply (inv_moved s act1 i act2 cl wk l2).
Qed.

Lemma closing_kept gmtime s act cl wk i c : inv s act cl wk → threads s !! i = Some Closing → kept s (thread_step gmtime s i c).
Proof.
  intros Hi E. unfold thread_step. rewrite E. pose proof (iv_threads _ _ _ _ Hi _ _ E) as Hu. cbn in Hu.
  destruct (in_use_there _ _ _ _ _ Hi Hu) as [x Ex]. unfold close_session, get_session. rewrite Ex. cbn [access mbind result_bind kept].
  exists act, cl, wk. eapply inv_thread; [exact Hi|exact E|done|done|done| |done|done| | | |].
  - by destruct (running s).
  - cbn. apply (sessions_ok_update _ _ i x); [done|done|]. eapply sessions_ok_ext; [|apply Hi]. intros j. unfold holds.
    pose proof (references_insert _ _ _ (if running s then Moving else Done) j E) as Hr. unfold copies_of in Hr. destruct (running s); cbn in *; lia.
  - intros j y. cbn. destruct (decide (j = i)) as [->|]; [rewrite lookup_insert_eq; intros [= <-]; by exists x|].
    rewrite lookup_insert_ne by done. intros ?. by exists y.
  - intros j Hj. unfold copies_of in Hj. destruct (running s); set_solver.
  - destruct (running s) eqn:Er; cbn; [|by eapply in_use_all]. destruct Hu as [?|[_ ?]]; [done|congruence].
Qed.

Lemma thread_step_kept gmtime s act cl wk i c : inv s act cl wk → kept s (thread_step gmtime s i c).
Proof.
  intros Hi. destruct (threads s !! i) as [pc|] eqn:E; [|unfold thread_step; rewrite E; by exists act, cl, wk].
  pose proof (iv_threads _ _ _ _ Hi _ _ E) as Hok.
  destruct pc as [| |[|j todo] copies lines|[|j copies]| | | |]; try (unfold thread_step; rewrite E; by exists act, cl, wk).
  - destruct c; [by eapply asks_who_kept|by eapply closes_kept].
  - unfold thread_step. rewrite E. exists act, cl, wk. eapply inv_thread_moves; [done..|apply Hok].
  - by eapply formats_kept.
  - unfold thread_step. rewrite E. exists act, cl, wk. by eapply inv_thread_moves.
  - by eapply releases_kept.
  - by eapply closing_kept.
  - by eapply moving_kept.
Qed.

(** ** Steps of the main thread *)

(** Only the place of the main thread changes. *)
Lemma inv_main s act cl wk m :
  inv s act cl wk → (∀ i, about (main s) i → about m i) → (∀ i, destroying (main s) i → destroying m i) →
  (∀ i, being_created (main s) i → being_created m i) → main_ok (set_main s m) act cl wk → inv (set_main s m) act cl wk.
Proof.
  intros [] Ha Hd Hb Hm. split; try done.
  - intros i x ??. cbn. eauto.
  - intros i pc E. specialize (iv_threads0 i pc E). destruct pc; cbn in *; auto.
Qed.

Lemma steal_spec s h other l l' :
  h = Active_sessions ∧ other = Closed_sessions ∨ h = Closed_sessions ∧ other = Active_sessions →
  list_rep (links s) h (Session <$> l) → list_rep (links s) other (Session <$> l') → (∀ k, k ∈ l → k ∉ l') →
  ∃ ls, steal_sessions s h = Next (set_links s ls) ∧ list_rep ls h [] ∧ list_rep ls other (Session <$> l') ∧ list_rep ls Work_list (Session <$> l).
Proof.
  intros Hh Hr Hr' Hd. assert (∀ k, h ≠ Session k) as Hns by (intros k; naive_solver). assert (∀ k, other ≠ Session k) as Hno by (intros k; naive_solver).
  assert (h ≠ Work_list ∧ other ≠ Work_list ∧ h ≠ other) as (Hw & How & Hne) by naive_solver.
  unfold steal_sessions. rewrite (list_is_empty_spec _ _ _ Hr). cbn [access mbind result_bind].
  set (l0 := <[Work_list := _]> (links s)).
  assert (∀ g lst, g ≠ Work_list → list_rep (links s) g (Session <$> lst) → list_rep l0 g (Session <$> lst)) as Hf.
  { intros g lst Hg Hrep. eapply list_rep_frame; [exact Hrep|]. intros n Hn. subst l0. rewrite lookup_insert_ne; [done|].
    intros <-. apply elem_of_cons in Hn as [?|(? & ? & _)%list_elem_of_fmap]; done. }
  pose proof (Hf h l Hw Hr) as Hr0. pose proof (Hf other l' How Hr') as Hr0'. assert (is_Some (l0 !! Work_list)) as Hl0 by (subst l0; rewrite lookup_insert_eq; done).
  destruct l as [|i l].
  - rewrite bool_decide_true by done. unfold with_links, init_list_head. cbn [links set_links]. fold l0.
    destruct (set_next_ok l0 Work_list Work_list Hl0) as (l1 & E1 & N1 & O1 & N1' & P1 & D1). rewrite E1. cbn [mbind option_bind].
    destruct (set_prev_ok l1 Work_list Work_list (D1 _ Hl0)) as (l2 & E2 & P2 & O2 & P2' & N2 & D2). rewrite E2. cbn [access mbind result_bind].
    exists l2. split; [done|]. assert (∀ n, n ≠ Work_list → l2 !! n = l0 !! n) as Ho by (intros n ?; by rewrite O2, O1).
    split_and!.
    + eapply list_rep_frame; [exact Hr0|]. intros n ->%list_elem_of_singleton. by apply Ho.
    + eapply list_rep_frame; [exact Hr0'|]. intros n Hn. apply Ho. intros ->. apply elem_of_cons in Hn as [?|(? & ? & _)%list_elem_of_fmap]; done.
    + split; [apply NoDup_singleton|]. split; [by rewrite N2|done].
  - rewrite bool_decide_false by done. pose proof Hr0 as [_ Hc]. cbn [links set_links]. fold l0. rewrite (chain_prev _ _ _ _ Hc), (chain_next _ _ _ _ Hc). cbn [access mbind result_bind].
    destruct (list_steal_spec l0 Work_list h (Session i) (fmap (M := list) Session l) Hr0 Hl0) as (l1 & l2 & E1 & E2 & Hh2 & Hw2 & K2).
    { intros [?|(? & ? & _)%(list_elem_of_fmap Session (i :: l))]%elem_of_cons; done. }
    unfold with_links. cbn [links set_links]. fold l0. rewrite fmap_cons, last_of_cons. cbn [head from_option id]. unfold id. rewrite E1. cbn [access mbind result_bind links set_links].
    rewrite E2. exists l2. split_and!; [done|done| |done].
    eapply keeps_rep; [exact K2|exact Hr0'|]. intros n Hn. rewrite not_elem_of_cons. split.
    + intros ->. apply elem_of_cons in Hn as [?|(? & ? & _)%list_elem_of_fmap]; done.
    + apply (nodes_apart l' (i :: l) other h); [done..| |exact Hn]. intros k Hk ?. by apply (Hd k).
Qed.

(** [join_sessions] begins; nothing else is joined at the time. *)
Lemma join_main_ok s act cl wk k ls :
  join_ok s k act cl → list_rep ls Work_list (Session <$> wk) → main_ok (set_main (set_links s ls) (Joining k (first_of Work_list wk))) act cl wk.
Proof. intros Hj Hr. split; [exact Hj|done]. Qed.
Lemma first_work ls wk : list_rep ls Work_list (Session <$> wk) → next_of ls Work_list = Some (first_of Work_list wk).
Proof. intros [_ Hc]. rewrite (chain_next _ _ _ _ Hc). by destruct wk. Qed.
Lemma start_join_kept s act cl k :
  inv s act cl [] → (∀ i, ¬ about (main s) i) → (∀ i, ¬ being_created (main s) i) → (∀ i, ¬ destroying (main s) i) →
  (match k with To_closed => running s = false ∧ idle s | To_end => (running s = false ∧ idle s) ∧ act = [] | _ => True end) → kept s (start_join s k).
Proof.
  intros Hi Ha Hb Hd Hk. unfold start_join.
  assert (NoDup (act ++ cl)) as (_ & Hdis & _)%NoDup_app by (pose proof (iv_nodup _ _ _ _ Hi) as Hn; unfold all in Hn; by rewrite app_nil_r in Hn).
  assert (∀ ls act' cl' wk', all act' cl' wk' ≡ₚ all act cl [] → list_rep ls Active_sessions (Session <$> act') →
    list_rep ls Closed_sessions (Session <$> cl') → list_rep ls Work_list (Session <$> wk') → join_ok s k act' cl' →
    (∀ i, i ∈ act → i ∈ act' ∨ i ∈ wk' ∧ running s = false ∧ idle s) →
    inv (set_main (set_links s ls) (Joining k (first_of Work_list wk'))) act' cl' wk') as Hnew.
  { intros ls act' cl' wk' Hp Hra Hrc Hrw Hj Hu. split; [done|done|by rewrite Hp; apply Hi| | | | |by apply join_main_ok].
    - eapply sessions_ok_ext; [|apply Hi]. intros i. by apply holds_perm.
    - intros i. cbn. rewrite (holds_perm _ _ _ _ Hp). apply (iv_bound _ _ _ _ Hi).
    - intros i x Ex Hx. cbn in *. destruct (Hb i). by apply (iv_parent _ _ _ _ Hi i x).
    - assert (∀ i, i ∈ act → i ∈ act' ∨ i ∈ wk' ∧ running s = false) as Hu' by (intros i Hx; destruct (Hu i Hx) as [?|(? & ? & _)]; auto).
      intros i pc Ei. pose proof Ei as Em. apply (iv_threads _ _ _ _ Hi) in Ei. revert Ei. unfold thread_ok, in_use. cbn.
      destruct pc; rewrite ?Hp; [clear Hu; naive_solver|clear Hu; set_solver..| |clear Hu; naive_solver|clear Hu; naive_solver].
      intros Hx. destruct (Hu i Hx) as [?|(_ & _ & Hid)]; [done|]. by destruct (Hid i). }
  destruct k as [ready| | |]; cbn [joined_list].
  1,2,4: destruct (steal_spec s Closed_sessions Active_sessions cl act) as (ls & -> & Hh & Ho & Hw);
    [by right|apply Hi|apply Hi|intros k Hk' ?; by apply (Hdis k)|]; cbn [mbind result_bind links set_links];
    rewrite (first_work _ _ Hw); cbn [access mbind result_bind kept]; exists act, [], cl; apply Hnew; try done; try (unfold all; solve_Permutation); naive_solver.
  destruct (steal_spec s Active_sessions Closed_sessions act cl) as (ls & -> & Hh & Ho & Hw); [by left|apply Hi|apply Hi|done|].
  cbn [mbind result_bind links set_links]. rewrite (first_work _ _ Hw). cbn [access mbind result_bind kept].
  exists [], cl, act. apply Hnew; try done; [unfold all; solve_Permutation|naive_solver].
Qed.

(** [destroy_session]: the session leaves its list, and is freed if no copy refers to it. *)
Definition is_head (n : node) : Prop := ∀ i, n ≠ Session i.
Lemma destroy_spec s h l1 i l2 hold hold' :
  list_rep (links s) h (Session <$> l1 ++ i :: l2) → is_head h → NoDup (l1 ++ i :: l2) →
  sessions_ok hold (sessions s) → hold i = Datatypes.S (hold' i) → (∀ j, j ≠ i → hold' j = hold j) →
  ∃ s', destroy_session s i = Next s' ∧ sessions_ok hold' (sessions s') ∧ same_control s s' ∧
    (∀ j x', sessions s' !! j = Some x' → ∃ x, sessions s !! j = Some x ∧ parent x' = parent x) ∧
    list_rep (links s') h (Session <$> l1 ++ l2) ∧
    (∀ h' l, is_head h' → h' ≠ h → (∀ k, k ∈ l → k ∉ l1 ++ i :: l2) → list_rep (links s) h' (Session <$> l) → list_rep (links s') h' (Session <$> l)).
Proof.
  intros Hr Hh Hnd Hok Hi Ho. rewrite fmap_app, fmap_cons in Hr. destruct (list_del_spec _ _ _ _ _ Hr) as (ls & E & Hr1 & K1).
  rewrite <-fmap_app in Hr1, K1. unfold destroy_session, with_links. rewrite E. cbn [access mbind result_bind].
  destruct (release_session_spec (set_links s ls) hold hold' i Hok Hi Ho) as (s' & E' & Hok' & (Ht & Hrun & Hm) & Hp & Hl). rewrite E'.
  assert (NoDup (i :: l1 ++ l2)) as [Hni _]%NoDup_cons by by rewrite Permutation_middle.
  exists s'. split_and!; [done|done|split_and!; done|done| |].
  - eapply list_rep_frame; [exact Hr1|]. intros n Hn. apply Hl. left. intros ->. revert Hn.
    apply (heads_apart (l1 ++ l2) [i]); [exact Hh|by left|]. intros k Hk ->%list_elem_of_singleton. done.
  - intros h' l Hh' Hne Hd Hrl. eapply list_rep_frame; [eapply (keeps_rep (links s) ls); [exact K1|exact Hrl|]|].
    + intros n Hn. apply (nodes_apart l (l1 ++ l2) h' h); [done..| |exact Hn]. intros k Hk ?. apply (Hd k); set_solver.
    + intros n Hn. apply Hl. left. intros ->. revert Hn. apply (heads_apart l (l1 ++ i :: l2)); [done|set_solver|done].
Qed.

Lemma joining_kept s act cl wk a k e : inv s act cl wk → main s = Joining k e → kept s (main_step s a).
Proof.
  intros Hi Em. pose proof (iv_main _ _ _ _ Hi) as Hm. unfold main_ok in Hm. rewrite Em in Hm. destruct Hm as (Hj & Hw & ->).
  unfold main_step. rewrite Em. unfold join_entry. destruct wk as [|i rest]; cbn [first_of].
  { exists act, cl, []. apply inv_main; [done|rewrite Em; done..|]. unfold main_ok. cbn. destruct k; cbn in *; naive_solver. }
  cbn [session_of mbind result_bind]. assert (i ∈ all act cl (i :: rest)) as Hin by (apply all_wk; by left).
  destruct (session_there _ _ _ _ i Hi) as [x Ex]; [by apply holds_in|]. unfold get_session. rewrite Ex. cbn [access mbind result_bind].
  destruct (lookup_lt_is_Some_2 (threads s) i) as [pc E]; [by apply (iv_bound _ _ _ _ Hi), holds_in|]. rewrite E.
  pose proof (iv_threads _ _ _ _ Hi _ _ E) as Hok. destruct pc; cbn in Hok; rewrite ?Em in Hok; try (by exists act, cl, (i :: rest)); try (by destruct (Hok Hin)).
  pose proof Hw as [_ [_ Hc]]. rewrite (chain_next _ _ _ _ Hc). cbn [access mbind result_bind kept]. exists act, cl, (i :: rest).
  assert (∀ j, references (<[i := Joined]> (threads s)) j = references (threads s) j) as Href.
  { intros j. pose proof (references_insert _ _ _ Joined j E) as Hr. unfold copies_of in Hr. lia. }
  split; try apply Hi.
  - eapply sessions_ok_ext; [|apply Hi]. intros j. unfold holds. cbn. by rewrite Href.
  - intros j. cbn. unfold holds. rewrite Href, length_insert. apply (iv_bound _ _ _ _ Hi).
  - intros j y E1 E2. apply (iv_parent _ _ _ _ Hi _ _ E1) in E2. rewrite Em in E2. done.
  - intros j pc. cbn. intros [(<- & <- & _)|[Hne Ej]]%list_lookup_insert_Some; [done|].
    apply (iv_threads _ _ _ _ Hi) in Ej. revert Ej. unfold thread_ok, in_use. cbn. rewrite Em. destruct pc; cbn; naive_solver.
  - unfold main_ok. cbn. rewrite list_lookup_insert_eq by (by eapply lookup_lt_Some). split_and!; [|done|done|]; [|exists rest; split; [done|]; by destruct rest].
    destruct k; cbn in Hj |- *; destruct_and?; split_and?; try done; by apply (idle_insert s).
Qed.

Lemma holds_drop t l l' i : l ≡ₚ i :: l' → i ∉ l' → ∀ j, holds t l j = ((if decide (i = j) then 1 else 0) + holds t l' j)%nat.
Proof. intros Hp Hi j. unfold holds. rewrite (count_perm j _ _ Hp), count_cons. lia. Qed.

(** A session that was on a list is destroyed, and the main thread goes on. *)
Lemma inv_destroyed s s' act cl wk act' wk' i m pc :
  inv s act cl wk → all act cl wk ≡ₚ i :: all act' cl wk' → act' ⊆ act → wk' ⊆ wk →
  (∀ j, j ∈ act → j = i ∨ j ∈ act') → (∀ j, j ∈ wk → j = i ∨ j ∈ wk') →
  threads s !! i = Some pc → pc = Not_started ∨ pc = Joined → (∀ j, about (main s) j ∨ destroying (main s) j → j = i) →
  (∀ j, ¬ being_created (main s) j) → same_control s s' → sessions_ok (holds (threads s) (all act' cl wk')) (sessions s') →
  (∀ j x', sessions s' !! j = Some x' → ∃ x, sessions s !! j = Some x ∧ parent x' = parent x) →
  list_rep (links s') Active_sessions (Session <$> act') → list_rep (links s') Closed_sessions (Session <$> cl) →
  main_ok (set_main s' m) act' cl wk' → inv (set_main s' m) act' cl wk'.
Proof.
  intros Hi Hp Hsa Hsw Ha Hw E Hpc Habout Hb (Ht & Hr & Hm) Hok Hpar Hra Hrc Hmain.
  assert (NoDup (i :: all act' cl wk')) as [Hni Hnd]%NoDup_cons by (rewrite <-Hp; apply Hi). split; [done..| | | | |done].
  - cbn. by rewrite Ht.
  - intros j Hj. cbn in *. rewrite Ht in *. apply (iv_bound _ _ _ _ Hi). rewrite (holds_drop _ _ _ _ Hp Hni). lia.
  - intros j x' (x & Ex & ->)%Hpar Hx. destruct (Hb j). by apply (iv_parent _ _ _ _ Hi j x).
  - intros j pcj. cbn. rewrite Ht. intros Ej. destruct (decide (j = i)) as [->|Hne].
    + rewrite E in Ej. injection Ej as <-. destruct Hpc as [->| ->]; cbn; done.
    + assert (j ∈ all act cl wk ↔ j ∈ all act' cl wk') as Hall by (rewrite Hp; set_solver).
      apply (iv_threads _ _ _ _ Hi) in Ej. revert Ej. unfold thread_ok, in_use. cbn. rewrite Hr. destruct pcj; rewrite <-?Hall; try naive_solver.
Qed.

Lemma destroying_kept s act cl wk a k i n : inv s act cl wk → main s = Destroying k i n → kept s (main_step s a).
Proof.
  intros Hi Em. pose proof (iv_main _ _ _ _ Hi) as Hm. unfold main_ok in Hm. rewrite Em in Hm. destruct Hm as (Hj & Hw & E & rest & -> & ->).
  unfold main_step. rewrite Em. pose proof (iv_nodup _ _ _ _ Hi) as Hnd. unfold all in Hnd.
  assert (all act cl (i :: rest) ≡ₚ i :: all act cl rest) as Hp by (unfold all; solve_Permutation).
  apply NoDup_app in Hnd as (_ & Hd1 & [_ [Hd2 Hnd]]%NoDup_app). pose proof (iv_nodup _ _ _ _ Hi) as Hn. rewrite Hp in Hn. apply NoDup_cons in Hn as [Hni _].
  destruct (destroy_spec s Work_list [] i rest (holds (threads s) (all act cl (i :: rest))) (holds (threads s) (all act cl rest)) Hw) as (s' & -> & Hok & Hc & Hpar & Hrw & Hother); [done|done|apply Hi| | |].
  { rewrite (holds_drop _ _ _ _ Hp Hni), decide_True by done. done. }
  { intros j ?. rewrite (holds_drop _ _ _ _ Hp Hni), decide_False by done. done. }
  cbn [mbind result_bind kept]. exists act, cl, rest. pose proof Hc as (Ht & Hr & Hm').
  eapply (inv_destroyed s s' act cl (i :: rest) act rest i); [done|done|done|set_solver|auto|set_solver|exact E|by right| | |done|done|done| | |].
  - intros j. rewrite Em. cbn. naive_solver.
  - intros j. rewrite Em. cbn. tauto.
  - apply Hother; [done..| |apply Hi]. intros j Hj' ?. apply (Hd1 j); [done|]. cbn in *. set_solver.
  - apply Hother; [done..| |apply Hi]. intros j Hj' ?. by apply (Hd2 j).
  - unfold main_ok. cbn. split_and!; [|done|done]. unfold join_ok, idle in *. destruct k; cbn in *; rewrite ?Ht, ?Hr; done.
Qed.

Lemma failing_kept s act cl wk a i : inv s act cl wk → main s = Failing i → kept s (main_step s a).
Proof.
  intros Hi Em. pose proof (iv_main _ _ _ _ Hi) as Hm. unfold main_ok in Hm. rewrite Em in Hm. destruct Hm as (-> & Hin & E).
  unfold main_step. rewrite Em. apply list_elem_of_split in Hin as (l1 & l2 & ->).
  assert (all (l1 ++ i :: l2) cl [] ≡ₚ i :: all (l1 ++ l2) cl []) as Hp by (unfold all; solve_Permutation).
  pose proof (iv_nodup _ _ _ _ Hi) as Hn. rewrite Hp in Hn. apply NoDup_cons in Hn as [Hni _].
  pose proof (iv_nodup _ _ _ _ Hi) as Hnd. unfold all in Hnd. rewrite app_nil_r in Hnd. apply NoDup_app in Hnd as (Hnd & Hd & _).
  destruct (destroy_spec s Active_sessions l1 i l2 (holds (threads s) (all (l1 ++ i :: l2) cl [])) (holds (threads s) (all (l1 ++ l2) cl [])) (iv_active _ _ _ _ Hi)) as (s' & -> & Hok & Hc & Hpar & Hrw & Hother);
    [done|done|apply Hi| | |].
  { rewrite (holds_drop _ _ _ _ Hp Hni), decide_True by done. done. }
  { intros j ?. rewrite (holds_drop _ _ _ _ Hp Hni), decide_False by done. done. }
  cbn [mbind result_bind kept]. exists (l1 ++ l2), cl, [].
  eapply (inv_destroyed s s' (l1 ++ i :: l2) cl [] (l1 ++ l2) [] i); [done|done|set_solver|done|set_solver|auto|exact E|by left| | |done|done|done|done| |done].
  - intros j. rewrite Em. cbn. naive_solver.
  - intros j. rewrite Em. cbn. tauto.
  - apply Hother; [done..| |apply Hi]. intros j Hj' ?. by apply (Hd j).
Qed.

Lemma accepting_kept s act cl wk a k ready : inv s act cl wk → main s = Accepting (k :: ready) → kept s (main_step s a).
Proof.
  intros Hi Em. pose proof (iv_main _ _ _ _ Hi) as Hm. unfold main_ok in Hm. rewrite Em in Hm. subst wk.
  unfold main_step. rewrite Em. unfold process_session. unfold create_session, with_links. set (i := length (threads s)). set (x := mk_session _ _ _ _ _).
  assert (holds (threads s) (all act cl []) i = 0%nat) as Hz by (destruct (decide (0 < holds (threads s) (all act cl []) i)%nat) as [H|]; [apply (iv_bound _ _ _ _ Hi) in H; unfold i in H; lia|lia]).
  assert (i ∉ all act cl []) as Hni by (intros H; apply (holds_in (threads s)) in H; lia).
  assert (∀ h l, is_head h → l ⊆ all act cl [] → list_rep (links s) h (Session <$> l) →
    list_rep (<[Session i := mk_head (Session i) (Session i)]> (links s)) h (Session <$> l)) as Hf.
  { intros h l Hh Hl Hr. eapply list_rep_frame; [exact Hr|]. intros n Hn. rewrite lookup_insert_ne; [done|]. intros <-. revert Hn.
    apply (heads_apart l [i]); [done|by left|]. intros j Hj ->%list_elem_of_singleton. by apply Hni, Hl. }
  cbn [links set_links put_session set_sessions set_threads].
  destruct (list_add_spec _ (Session i) _ _ (Hf Active_sessions act ltac:(done) (all_act act cl []) (iv_active _ _ _ _ Hi))) as (l1 & -> & Ha & K); [by rewrite lookup_insert_eq| |].
  { apply (heads_apart act [i]); [done|by left|]. intros j Hj ->%list_elem_of_singleton. by apply Hni, all_act. }
  cbn [access mbind result_bind kept]. exists (i :: act), cl, []. assert (all (i :: act) cl [] = i :: all act cl []) as Hall by done.
  assert (∀ j, holds (threads s ++ [Not_started]) (i :: all act cl []) j = ((if decide (i = j) then 1 else 0) + holds (threads s) (all act cl []) j)%nat) as Hh.
  { intros j. unfold holds. rewrite references_app, count_cons. unfold copies_of. rewrite (count_not_in j []) by set_solver. lia. }
  split; cbn; rewrite ?Hall.
  - exact Ha.
  - eapply keeps_rep; [exact K|apply Hf; [done|auto|apply Hi]|]. intros n Hn. rewrite not_elem_of_cons.
    pose proof (iv_nodup _ _ _ _ Hi) as Hnd. unfold all in Hnd. rewrite app_nil_r in Hnd. apply NoDup_app in Hnd as (_ & Hd & _). split.
    + intros ->. revert Hn. apply (heads_apart cl [i]); [done|by left|]. intros j Hj ->%list_elem_of_singleton. by apply Hni, all_cl.
    + apply (nodes_apart cl act Closed_sessions Active_sessions); [done..| |exact Hn]. intros j ? ?. by apply (Hd j).
  - apply NoDup_cons. split; [done|apply Hi].
  - intros j. rewrite Hh. pose proof (iv_sessions _ _ _ _ Hi j) as Hj. destruct (decide (i = j)) as [<-|Hne].
    + rewrite lookup_insert_eq. unfold i in *. cbn. rewrite Hz. split; lia.
    + rewrite lookup_insert_ne by done. exact Hj.
  - intros j. rewrite Hh, length_app. cbn. intros Hj. destruct (decide (i = j)) as [<-|Hne]; [unfold i; lia|]. apply (iv_bound _ _ _ _ Hi) in Hj. lia.
  - intros j y. destruct (decide (i = j)) as [<-|Hne]; [done|]. rewrite lookup_insert_ne by done. intros Ey Hy.
    apply (iv_parent _ _ _ _ Hi j y Ey) in Hy. by rewrite Em in Hy.
  - intros j pc. intros [Ej|(Hlen & E)]%lookup_app_Some.
    + assert (j ≠ i) as Hne by (intros ->; apply lookup_lt_Some in Ej; unfold i in Ej; lia). apply (iv_threads _ _ _ _ Hi) in Ej. revert Ej.
      unfold thread_ok, in_use. rewrite Hall. cbn. rewrite Em. destruct pc; cbn; set_solver.
    + apply list_lookup_singleton_Some in E as [Hj <-]. cbn. unfold i. lia.
  - unfold main_ok. cbn. split_and!; [done|by left|]. unfold i. rewrite lookup_app_r by lia. by rewrite Nat.sub_diag.
Qed.

(** A session whose fields are set while its thread does not run yet. *)
Lemma inv_set_session s act cl wk i x y m pc :
  inv s act cl wk → sessions s !! i = Some x → ref_count y = ref_count x → is_Some (parent y) →
  about (main s) i → threads s !! i = Some Not_started → copies_of pc = [] → thread_ok (set_main s m) act cl wk i pc →
  main_ok (set_main (set_thread (put_session s i y) i pc) m) act cl wk →
  (∀ j, about m j → j = i) → inv (set_main (set_thread (put_session s i y) i pc) m) act cl wk.
Proof.
  intros Hi Ex Er Hp Ha E Hc Hok Hm Hab.
  assert (∀ j, about (main s) j → j = i) as Hab' by (intros j; destruct (main s); cbn in *; naive_solver).
  assert (∀ j, ¬ destroying (main s) j) as Hd by (intros j; destruct (main s); cbn in *; naive_solver).
  assert (∀ j, references (<[i := pc]> (threads s)) j = references (threads s) j) as Href.
  { intros j. pose proof (references_insert _ _ _ pc j E) as Hr. rewrite Hc in Hr. unfold copies_of in Hr. lia. }
  split; try apply Hi; [| | | |exact Hm]; cbn.
  - apply (sessions_ok_update _ _ i x); [done|done|]. eapply sessions_ok_ext; [|apply Hi]. intros j. unfold holds. by rewrite Href.
  - intros j. unfold holds. rewrite Href, length_insert. apply (iv_bound _ _ _ _ Hi).
  - intros j z. destruct (decide (j = i)) as [->|Hne]; [rewrite lookup_insert_eq; intros [= <-] Hn; destruct Hp as [? Hp]; congruence|].
    rewrite lookup_insert_ne by done. intros Ez Hn. apply (iv_parent _ _ _ _ Hi j z Ez) in Hn. destruct Hne. apply Hab'. by destruct (main s).
  - intros j pcj. intros [(<- & <- & _)|[Hne Ej]]%list_lookup_insert_Some; [exact Hok|]. apply (iv_threads _ _ _ _ Hi) in Ej. revert Ej.
    unfold thread_ok, in_use. cbn. destruct pcj; try done; naive_solver.
Qed.

Lemma created_kept s act cl wk a i k ready : inv s act cl wk → main s = Created i k ready → kept s (main_step s a).
Proof.
  intros Hi Em. pose proof (iv_main _ _ _ _ Hi) as Hm. unfold main_ok in Hm. rewrite Em in Hm. destruct Hm as (-> & Hin & E).
  unfold main_step. rewrite Em. unfold set_parent. destruct (in_use_there _ _ _ _ i Hi) as [x Ex]; [by left|]. unfold get_session. rewrite Ex. cbn [access mbind result_bind kept].
  exists act, cl, []. set (y := mk_session _ _ _ _ _).
  assert (inv (set_main (set_thread (put_session s i y) i Not_started) (Connecting i ready)) act cl []) as H.
  { eapply inv_set_session; [exact Hi|exact Ex|done|done|by rewrite Em|exact E|done|done| |naive_solver].
    unfold main_ok. cbn. rewrite list_lookup_insert_eq by (by eapply lookup_lt_Some). done. }
  unfold set_thread, set_threads in H. cbn in H. rewrite list_insert_id in H by done. exact H.
Qed.

Lemma locked_idle s : locked s = false → idle s.
Proof.
  intros Hl i E. apply list_elem_of_lookup_2, list_elem_of_In in E. unfold locked in Hl. apply not_true_iff_false in Hl. apply Hl.
  apply existsb_exists. by exists Moving.
Qed.
(** The cases that cannot be undone: a thread that runs while its session is given up, an
    end of the server without [kill_socket_server], and the walk along the active sessions
    beginning while one of them is about to be moved away. *)
Definition orderly (s : server) (e : event) : Prop :=
  match e with
  | Main a =>
      match main s with
      | Connecting _ _ => ∀ ip port, an_connected a ≠ Affinity_fails ip port
      | Stopped => running s = false ∧ locked s = false
      | _ => True
      end
  | _ => True
  end.

Lemma connecting_kept s act cl wk a i ready :
  inv s act cl wk → main s = Connecting i ready → (∀ ip port, an_connected a ≠ Affinity_fails ip port) → kept s (main_step s a).
Proof.
  intros Hi Em Ho. pose proof (iv_main _ _ _ _ Hi) as Hm. unfold main_ok in Hm. rewrite Em in Hm. destruct Hm as (-> & Hin & E).
  unfold main_step. rewrite Em. unfold connect_session. destruct (in_use_there _ _ _ _ i Hi) as [x Ex]; [by left|]. unfold get_session. rewrite Ex. cbn [access mbind result_bind].
  assert (inv (set_main s (Failing i)) act cl []) as Hfail.
  { apply inv_main; [done|rewrite Em; cbn; tauto..|]. unfold main_ok. done. }
  destruct (an_connected a) as [| |ip port|ip port] eqn:Ea; cbn [kept]; [by exists act, cl, []..| |by destruct (Ho ip port)].
  exists act, cl, []. unfold start_thread. eapply inv_set_session; [exact Hi|exact Ex|done| |by rewrite Em|exact E|done|by left|done|done].
  cbn. destruct (parent x) eqn:Ep; [done|]. apply (iv_parent _ _ _ _ Hi i x Ex) in Ep. by rewrite Em in Ep.
Qed.

(** [terminate_socket_server] goes through the active sessions. *)
Lemma first_active ls l : list_rep ls Active_sessions (Session <$> l) → next_of ls Active_sessions = Some (first_of Active_sessions l).
Proof. intros [_ Hc]. rewrite (chain_next _ _ _ _ Hc). by destruct l. Qed.
Lemma stopped_kept s act cl wk a : inv s act cl wk → main s = Stopped → running s = false → idle s → kept s (main_step s a).
Proof.
  intros Hi Em Hr Hid. pose proof (iv_main _ _ _ _ Hi) as Hm. unfold main_ok in Hm. rewrite Em in Hm. subst wk.
  unfold main_step. rewrite Em, (first_active _ _ (iv_active _ _ _ _ Hi)). cbn [access mbind result_bind kept]. exists act, cl, [].
  apply inv_main; [done|rewrite Em; cbn; tauto..|]. unfold main_ok. cbn. split; [done|]. split; [done|]. by exists [], act.
Qed.
Lemma walking_kept s act cl wk a e : inv s act cl wk → main s = Walking e → kept s (main_step s a).
Proof.
  intros Hi Em. pose proof (iv_main _ _ _ _ Hi) as Hm. unfold main_ok in Hm. rewrite Em in Hm. destruct Hm as (-> & Hr & pre & suf & -> & ->).
  unfold main_step. rewrite Em. unfold shutdown_entry. destruct suf as [|i suf]; cbn [first_of].
  { cbn [kept]. exists (pre ++ []), cl, []. apply inv_main; [done|rewrite Em; cbn; tauto..|]. unfold main_ok. cbn. split; [done|]. split; [exact Hr|by left]. }
  cbn [session_of mbind result_bind]. destruct (in_use_there _ _ _ _ i Hi) as [x Ex]; [left; set_solver|]. unfold get_session. rewrite Ex. cbn [access mbind result_bind].
  pose proof (iv_active _ _ _ _ Hi) as [_ Hc]. rewrite fmap_app, fmap_cons in Hc. apply chain_app in Hc as [_ Hc].
  rewrite (chain_next _ _ _ _ Hc). cbn [access mbind result_bind kept]. exists (pre ++ i :: suf), cl, [].
  apply inv_main; [done|rewrite Em; cbn; tauto..|]. unfold main_ok. cbn. split; [done|]. split; [exact Hr|]. exists (pre ++ [i]), suf. split; [by rewrite <-(assoc_L (++))|].
  by destruct suf.
Qed.

Lemma main_step_kept s act cl wk a : inv s act cl wk → orderly s (Main a) → kept s (main_step s a).
Proof.
  intros Hi Ho. pose proof (iv_main _ _ _ _ Hi) as Hm. unfold main_ok in Hm. unfold orderly in Ho.
  destruct (main s) as [|k e|k i n|[|k ready]|i k ready|i ready|i| |e|k|] eqn:Em.
  - subst wk. unfold main_step. rewrite Em. destruct (running s) eqn:Er.
    + apply (start_join_kept s act cl); [done|rewrite Em; cbn; tauto..|]. by destruct (an_select a).
    + cbn [kept]. exists act, cl, []. apply inv_main; [done|rewrite Em; cbn; tauto..|done].
  - by eapply joining_kept.
  - by eapply destroying_kept.
  - unfold main_step. rewrite Em. cbn [kept]. exists act, cl, wk. apply inv_main; [done|rewrite Em; cbn; tauto..|done].
  - by eapply accepting_kept.
  - by eapply created_kept.
  - by eapply connecting_kept.
  - by eapply failing_kept.
  - destruct Ho as [? ?%locked_idle]. by eapply stopped_kept.
  - by eapply walking_kept.
  - destruct Hm as (-> & Hr & Hk). unfold main_step. rewrite Em. apply (start_join_kept s act cl); [done|rewrite Em; cbn; tauto..|]. naive_solver.
  - unfold main_step. rewrite Em. by exists act, cl, wk.
Qed.
Lemma kill_kept s act cl wk : inv s act cl wk → inv (kill_socket_server s) act cl wk.
Proof.
  intros Hi. split; try apply Hi.
  - intros i pc E. apply (iv_threads _ _ _ _ Hi) in E. revert E. unfold thread_ok, in_use. destruct pc; cbn; naive_solver.
  - pose proof (iv_main _ _ _ _ Hi) as Hm. revert Hm. unfold main_ok, join_ok. cbn. destruct (main s); try naive_solver; destruct k; naive_solver.
Qed.
Lemma step_kept gmtime s act cl wk e : inv s act cl wk → orderly s e → kept s (step gmtime s e).
Proof.
  intros Hi Ho. unfold step. destruct (locked s && takes_lock s e); [by exists act, cl, wk|]. destruct e as [a|i c|]; [by eapply main_step_kept|by eapply thread_step_kept|]. exists act, cl, wk. by apply kill_kept.
Qed.

Lemma initial_kept : inv initial [] [] [].
Proof.
  split; cbn; try done.
  - split; [apply NoDup_singleton|]. cbn. done.
  - split; [apply NoDup_singleton|]. cbn. done.
  - apply NoDup_nil_2.
  - intros i. unfold holds, references. cbn. rewrite (count_not_in i []) by set_solver. lia.
Qed.

(** A run in which every event is orderly where it happens. *)
Fixpoint orderly_run (gmtime : Z → Z * Z * Z * (Z * Z * Z)) (s : server) (events : list event) : Prop :=
  match events with
  | [] => True
  | e :: events => orderly s e ∧ match step gmtime s e with Next s' => orderly_run gmtime s' events | Fault _ => True end
  end.
Lemma run_kept gmtime events : ∀ s act cl wk, inv s act cl wk → orderly_run gmtime s events →
  match run gmtime s events with Next s' => ∃ act cl wk, inv s' act cl wk | Fault f => f = Null_pointer end.
Proof.
  induction events as [|e events IH]; intros s act cl wk Hi Hr; cbn [run]; [by exists act, cl, wk|]. destruct Hr as [Ho Hr].
  pose proof (step_kept gmtime s act cl wk e Hi Ho) as Hk. destruct (step gmtime s e) as [s'|f]; cbn [mbind result_bind]; [|apply Hk].
  destruct Hk as (act' & cl' & wk' & Hi'). by eapply IH.
Qed.

(** ** Safety *)

(** C14: The sessions of the server, for any interleaving of the main thread, the threads
    of the clients and their lists of connections, up to an end that [kill_socket_server]
    asked for, unless a thread has been started whose affinity cannot be set, or the walk
    of [terminate_socket_server] begins while a client holds the mutex to move its session
    (lemmas [affinity_failure_frees], [error_end_goes_wild] and [kill_while_closing] say
    what happens then): no session is used after it was freed, no list is broken, and no
    head of a list is taken for a session; the reference count of every session is the
    number of those that refer to it, the list it is on and the copies made for *WHO?; and
    a session is there as long as its thread runs or a copy refers to it.  (The one fault
    left is *WHO? for a session being created, of which the parent is not set yet.) *)
Theorem sessions_memory_safe gmtime events :
  orderly_run gmtime initial events →
  match run gmtime initial events with
  | Next s =>
      ∃ act cl wk,
        list_rep (links s) Active_sessions (Session <$> act) ∧ list_rep (links s) Closed_sessions (Session <$> cl) ∧ NoDup (act ++ cl ++ wk) ∧
        (∀ i x, sessions s !! i = Some x → ref_count x = Z.of_nat (count i (act ++ cl ++ wk) + references (threads s) i) ∧ 0 < ref_count x) ∧
        (∀ i pc, threads s !! i = Some pc → live pc → is_Some (sessions s !! i) ∧ ∀ j, j ∈ copies_of pc → is_Some (sessions s !! j))
  | Fault f => f = Null_pointer
  end.
Proof.
  intros Hr. pose proof (run_kept gmtime events initial [] [] [] initial_kept Hr) as H. destruct (run gmtime initial events) as [s|f]; [|done].
  destruct H as (act & cl & wk & Hi). exists act, cl, wk. split_and!; [apply Hi..| |].
  - intros i x E. pose proof (iv_sessions _ _ _ _ Hi i) as Hs. rewrite E in Hs. destruct Hs as [-> ?]. split; [done|lia].
  - intros i pc E Hl. split.
    + destruct (in_use_there s act cl wk i Hi) as [x Ex]; [|by exists x]. eapply live_in_use; [by apply (iv_threads _ _ _ _ Hi)|done].
    + intros j Hj. destruct (session_there s act cl wk j Hi) as [x Ex]; [by eapply holds_copies|by exists x].
Qed.

(** When the server has ended, every session has been freed, and every thread that was
    started has been joined. *)
Theorem sessions_all_freed gmtime events s :
  orderly_run gmtime initial events → run gmtime initial events = Next s → main s = Ended →
  sessions s = ∅ ∧ Forall (λ pc, pc = Not_started ∨ pc = Joined) (threads s).
Proof.
  intros Hr E Em. pose proof (run_kept gmtime events initial [] [] [] initial_kept Hr) as H. rewrite E in H. destruct H as (act & cl & wk & Hi).
  pose proof (iv_main _ _ _ _ Hi) as Hm. unfold main_ok in Hm. rewrite Em in Hm. destruct Hm as (-> & -> & -> & _).
  assert (∀ i pc, threads s !! i = Some pc → pc = Not_started ∨ pc = Joined) as Ht.
  { intros i pc Ei. apply (iv_threads _ _ _ _ Hi) in Ei. destruct pc; cbn in Ei; unfold in_use, all in Ei; try (by left); try (by right); exfalso; set_solver. }
  split; [|by apply Forall_lookup_2]. apply map_empty. intros i. pose proof (iv_sessions _ _ _ _ Hi i) as Hs.
  destruct (sessions s !! i) as [x|]; [|done]. exfalso. destruct Hs as [_ Hs]. unfold holds, all in Hs. cbn in Hs. rewrite (count_not_in i []) in Hs by set_solver.
  enough (references (threads s) i = 0)%nat by lia. clear -Ht. unfold references. induction (threads s) as [|pc t IH]; [done|]. simpl.
  rewrite IH by (intros j pc' Ej; by apply (Ht (Datatypes.S j))). destruct (Ht 0%nat pc) as [->| ->]; done.
Qed.

(** ** Runs *)

Definition no_time (_ : Z) : Z * Z * Z * (Z * Z * Z) := (70, 0, 1, (0, 0, 0)).
Definition localhost : Z * Z * Z * Z := (127, 0, 0, 1).
Definition main_event (ready : list listen_socket) (c : connected) : event := Main (mk_answers (Some ready) (0, 0) c).
Definition go_on : event := main_event [] (Starts localhost 5000).
(** A client connects: select, nothing to join, a session is made and its thread started. *)
Definition connects (k : listen_socket) : list event := [main_event [k] (Starts localhost 5000); go_on; go_on; go_on; go_on; go_on].
Definition outcome_of (r : result server) : option fault := match r with Next _ => None | Fault f => Some f end.

(** Two clients; the first asks who is there, and closes; the server ends. *)
Definition whole_life : list event :=
  connects Config_socket ++ connects Data_socket ++
  [Thread 0 Asks_who; Thread 0 Asks_who; Thread 1 Closes; Thread 1 Closes; Thread 1 Closes; Thread 0 Asks_who; Thread 0 Asks_who] ++
  replicate 5 go_on ++ replicate 4 (Thread 0 Closes) ++ [Kill; Thread 0 Closes] ++ replicate 12 go_on.

Lemma sessions_memory_safe_witness :
  orderly_run no_time initial whole_life ∧ ∃ s, run no_time initial whole_life = Next s ∧ ∃ act, list_rep (links s) Active_sessions (Session <$> act).
Proof.
  assert (orderly_run no_time initial whole_life) as Ho by (vm_compute; repeat split; intros; discriminate).
  split; [exact Ho|]. pose proof (sessions_memory_safe no_time whole_life Ho) as H.
  destruct (run no_time initial whole_life) as [s|f] eqn:E; [|vm_compute in E; discriminate].
  exists s. split; [done|]. destruct H as (act & cl & wk & H & _). by exists act.
Defined.
Lemma sessions_all_freed_witness :
  orderly_run no_time initial whole_life ∧ ∃ s, run no_time initial whole_life = Next s ∧ main s = Ended ∧ sessions s = ∅.
Proof.
  assert (orderly_run no_time initial whole_life) as Ho by (vm_compute; repeat split; intros; discriminate).
  split; [exact Ho|]. destruct (run no_time initial whole_life) as [s|f] eqn:E; [|vm_compute in E; discriminate].
  exists s. assert (main s = Ended) as Em by (vm_compute in E; injection E as <-; reflexivity).
  split; [done|]. split; [exact Em|]. apply (sessions_all_freed no_time whole_life s Ho E Em).
Defined.

(** *WHO? while a session is being created: its parent is a null pointer. *)
Lemma who_during_creation :
  outcome_of (run no_time initial (connects Config_socket ++ take 3 (connects Config_socket) ++ replicate 3 (Thread 0 Asks_who))) = Some Null_pointer.
Proof. vm_compute. reflexivity. Qed.
(** When the affinity cannot be set, the session is freed though its thread runs. *)
Lemma affinity_failure_frees :
  outcome_of (run no_time initial
    (take 4 (connects Config_socket) ++ [main_event [] (Affinity_fails localhost 5000); go_on; Thread 0 Closes])) = Some Freed.
Proof. vm_compute. reflexivity. Qed.
(** When the server ends after an error, a client that closes moves its session away from
    the list that is being joined. *)
Lemma error_end_goes_wild :
  outcome_of (run no_time initial
    (connects Config_socket ++ [Thread 0 Closes; Main (mk_answers None (0, 0) Accept_fails)] ++ replicate 5 go_on ++ replicate 2 (Thread 0 Closes) ++ replicate 3 go_on)) =
  Some Wild.
Proof. vm_compute. reflexivity. Qed.
(** Also when it is killed, if a client is between the test of [running] and the move: the
    walk does not take the lock to read the next entry, and goes on along the other list. *)
Lemma kill_while_closing :
  outcome_of (run no_time initial
    (connects Config_socket ++ replicate 2 (Thread 0 Closes) ++ [Kill; go_on; go_on; Thread 0 Closes; go_on; go_on])) = Some Wild.
Proof. vm_compute. reflexivity. Qed.
End SessionsSpec.
