(* ===== verification/DataHeader.v ===== *)
(** * The header of the data: panda-server/server/prepare.c, the rest

    Before the data of a capture a client is sent a description of it, as XML or as
    lines of text.  The text is the list of the pieces that are written, one for each
    call that writes to the file. *)

From S2P Require Import Prelude Errors Parse Format Enums StdDev Capture PosOut Output Floats Prepare BufferedFile.
From stdpp Require Import base numbers option strings list.
Open Scope Z_scope.

Module DataHeader.
Import Parse Format Capture PosOut Prepare.

Definition MAX_RESULT_LENGTH : nat := 256.

(** ** The fields, with their texts *)

(** A captured value and the name of its field; [captured_fields] with these. *)
Abbreviation described := (cstring * captured_value)%type.
Record described_fields := mk_described {
  df_sample_count : described;
  df_scaled32 : list described;
  df_averaged : list described;
  df_std_dev : list described;
  df_scaled64 : list described;
  df_unscaled : list described;
}.
Definition info (x : described) : capture_info := cv_info x.2.
Definition add_described (f : described_fields) (x : described) : described_fields :=
  let '(mk_described sc s32 avg sd s64 un) := f in
  match ci_mode (info x) with
  | CAPTURE_MODE_SCALED32 => mk_described sc (s32 ++ [x]) avg sd s64 un
  | CAPTURE_MODE_AVERAGE => mk_described sc s32 (avg ++ [x]) sd s64 un
  | CAPTURE_MODE_STDDEV => mk_described sc s32 avg (sd ++ [x]) s64 un
  | CAPTURE_MODE_SCALED64 => mk_described sc s32 avg sd (s64 ++ [x]) un
  | CAPTURE_MODE_UNSCALED => mk_described sc s32 avg sd s64 (un ++ [x])
  end.
Definition prepare_captured_fields (samples : described) (values : list described) : described_fields :=
  foldl add_described (mk_described samples [] [] [] [] []) values.

(** ** Pieces *)

(** A call of [write_formatted_string], of [write_string] or of [write_char]. *)
Inductive piece := Formatted (text : list Z) | Written (text : list Z) | Char (ch : Z).
Definition piece_text (p : piece) : list Z := match p with Formatted text => text | Written text => text | Char ch => [ch] end.
Definition text_of (l : list piece) : list Z := concat (piece_text <$> l).
Definition formatted (s : string) : piece := Formatted (bytes_of s).

Section write.
Context (out_buf_size : nat).
Import BufferedFile.
Definition write_piece (c : buffered_file * socket) (p : piece) : buffered_file * socket :=
  match p with
  | Formatted text => write_formatted_string out_buf_size c.1 c.2 text
  | Written text => write_string out_buf_size c.1 c.2 text
  | Char ch => write_char out_buf_size c.1 c.2 ch
  end.
Definition write_pieces (c : buffered_file * socket) (l : list piece) : buffered_file * socket := fold_left write_piece l c.
End write.

(** ** XML formatting support *)

(** [struct xml_element]; the file is where the pieces go. *)
Record xml_element := mk_element { name : string; xml : bool; nested : bool; hidden : bool }.

(** [vsnprintf] into [value] cuts the text. *)
Definition format_attribute_opt (e : xml_element) (use_name : bool) (attribute : string) (text : list Z) : list piece :=
  let value := take (MAX_RESULT_LENGTH - 1) text in
  if xml e then [Formatted ([32] ++ bytes_of attribute ++ [61; 34] ++ value ++ [34])]
  else
    (if hidden e then [] else [Char 32]) ++
    [Formatted (if use_name then bytes_of attribute ++ [58; 32] ++ value else value)] ++
    (if hidden e then [Char 10] else []).
Definition format_attribute (e : xml_element) : string → list Z → list piece := format_attribute_opt e true.
Definition format_attribute_string (e : xml_element) (attribute : string) (value : cstring) : outcome (list piece) :=
  if xml e then
    text ← match write_escaped_xml_string value with Some text => Ret text | None => Undef end;
    Ret [Formatted ([32] ++ bytes_of attribute ++ [61]); Written text]
  else Ret [Formatted ([32] ++ bytes_of attribute ++ [58; 32] ++ value)].

Definition start_element (element : string) (xml nested hidden : bool) : xml_element * list piece :=
  (mk_element element xml nested hidden,
   if xml then formatted ("<" +:+ element) :: (if nested then [Formatted [62; 10]] else [])
   else if negb hidden && nested then [Formatted (bytes_of element ++ [58; 10])] else []).
Definition end_element (e : xml_element) : list piece :=
  if xml e then
    if nested e then [Formatted (bytes_of "</" ++ bytes_of (name e) ++ [62; 10])] else [Formatted (bytes_of " />" ++ [10])]
  else if negb (hidden e) && negb (nested e) then [Char 10] else [].

(** ** Header formatting *)

Definition field_type_name (mode : capture_mode) (process : data_process) : string :=
  match process, mode with
  | DATA_PROCESS_RAW, CAPTURE_MODE_SCALED32 => "int32"
  | DATA_PROCESS_RAW, CAPTURE_MODE_AVERAGE => "int64"
  | DATA_PROCESS_RAW, CAPTURE_MODE_STDDEV => "int96"
  | DATA_PROCESS_RAW, CAPTURE_MODE_SCALED64 => "int64"
  | DATA_PROCESS_RAW, CAPTURE_MODE_UNSCALED => "uint32"
  | DATA_PROCESS_SCALED, CAPTURE_MODE_UNSCALED => "uint32"
  | DATA_PROCESS_SCALED, _ => "double"
  end.

Section header.
(** [gmtime_r]: the year, month and day, and the hour, minute and second. *)
Context (gmtime : Z → Z * Z * Z * (Z * Z * Z)).

Definition format_timestamp_message (max_len : nat) (ts : Z * Z) : cstring :=
  let '(year, mon, mday, (hour, min, sec)) := gmtime ts.1 in
  take (max_len - 1)
    (fmt_pad 32 4 (year + 1900) ++ [45] ++ fmt_pad 48 2 (mon + 1) ++ [45] ++ fmt_pad 48 2 mday ++ [84] ++
     fmt_pad 48 2 hour ++ [58] ++ fmt_pad 48 2 min ++ [58] ++ fmt_pad 48 2 sec ++ [46] ++ fmt_pad 48 9 ts.2 ++ [90]).

Definition data_format_strings (f : data_format) : string :=
  match f with
  | DATA_FORMAT_UNFRAMED => "Unframed"
  | DATA_FORMAT_FRAMED => "Framed"
  | DATA_FORMAT_BASE64 => "Base64"
  | DATA_FORMAT_ASCII => "ASCII"
  end.
Definition data_process_strings (p : data_process) : string :=
  match p with DATA_PROCESS_RAW => "Raw" | DATA_PROCESS_SCALED => "Scaled" end.

Definition is_ascii (f : data_format) : bool := match f with DATA_FORMAT_ASCII => true | _ => false end.

(** The times of a capture: when it was armed and started, and the offset of the
    hardware clock when it is valid. *)
Record capture_times := mk_times { arm_ts : Z * Z; start_ts : Z * Z; hw_ts_offset_ns : option Z }.

Definition send_capture_info (capture : data_capture) (options : data_options) (missed_samples : Z) (times : capture_times) : outcome (list piece) :=
  let '(element, start) := start_element "data" (xml_header options) false true in
  sample_bytes ← (if is_ascii (o_format options) then Ret []
                  else n ← get_binary_sample_length capture (o_process options);
                       Ret (format_attribute element "sample_bytes" (fmt_u (Z.of_nat n))));
  Ret (start ++
       format_attribute element "arm_time" (format_timestamp_message MAX_RESULT_LENGTH (arm_ts times)) ++
       format_attribute element "start_time" (format_timestamp_message MAX_RESULT_LENGTH (start_ts times)) ++
       match hw_ts_offset_ns times with Some n => format_attribute element "hw_time_offset_ns" (fmt_d n) | None => [] end ++
       format_attribute element "missed" (fmt_u missed_samples) ++
       format_attribute element "process" (bytes_of (data_process_strings (o_process options))) ++
       format_attribute element "format" (bytes_of (data_format_strings (o_format options))) ++
       sample_bytes ++ end_element element).

Definition is_unscaled (m : capture_mode) : bool := match m with CAPTURE_MODE_UNSCALED => true | _ => false end.
Definition send_field_info (options : data_options) (field : described) : outcome (list piece) :=
  let '(element, start) := start_element "field" (xml_header options) false false in
  scaling ← (if is_unscaled (ci_mode (info field)) then Ret []
             else
               units ← format_attribute_string element "units" (cv_units field.2);
               Ret (format_attribute element "scale" (Floats.fmt_g 12 (ci_scale (info field))) ++
                    format_attribute element "offset" (Floats.fmt_g 12 (ci_offset (info field))) ++ units));
  Ret (start ++
       format_attribute_opt element false "name" field.1 ++
       format_attribute_opt element false "type" (bytes_of (field_type_name (ci_mode (info field)) (o_process options))) ++
       format_attribute_opt element false "capture" (bytes_of (cv_string field.2)) ++
       scaling ++ end_element element).

(** The fields a group lists: for a standard deviation the mean comes first, when it is
    there; its description is a copy of the other. *)
Definition is_raw (p : data_process) : bool := match p with DATA_PROCESS_RAW => true | DATA_PROCESS_SCALED => false end.
Definition mean_info (field : described) : described :=
  let i := info field in
  (field.1, mk_captured (mk_info (ci_index i) CAPTURE_MODE_AVERAGE (ci_scale i) (ci_offset i) (ci_mean i)) "Mean" (cv_units field.2)).
Definition stddev_listed (process : data_process) (field : described) : list described :=
  (if is_raw process || ci_mean (info field) then [mean_info field] else []) ++ [field].

Definition send_group_info (options : data_options) (group : list described) : outcome (list piece) :=
  @concat piece <$> mapM (send_field_info options) group.
Definition send_stddev_group_info (options : data_options) (group : list described) : outcome (list piece) :=
  @concat piece <$> mapM (λ field, send_group_info options (stddev_listed (o_process options) field)) group.

(** What is written before the buffer is flushed. *)
Definition send_data_header (fields : described_fields) (capture : data_capture) (options : data_options) (missed_samples : Z) (times : capture_times)
    : outcome (list piece) :=
  let '(header, start) := start_element "header" (xml_header options) true true in
  capture_info ← send_capture_info capture options missed_samples times;
  let '(field_group, start_fields) := start_element "fields" (xml_header options) true false in
  samples ← (if is_raw (o_process options) && sample_count_is_anonymous capture then send_field_info options (df_sample_count fields) else Ret []);
  unscaled ← send_group_info options (df_unscaled fields);
  scaled32 ← send_group_info options (df_scaled32 fields);
  scaled64 ← send_group_info options (df_scaled64 fields);
  averaged ← send_group_info options (df_averaged fields);
  std_dev ← send_stddev_group_info options (df_std_dev fields);
  Ret (start ++ capture_info ++ start_fields ++ samples ++ unscaled ++ scaled32 ++ scaled64 ++ averaged ++ std_dev ++
       end_element field_group ++ end_element header ++ [Char 10]).
End header.
End DataHeader.
