(* ===== verification/DataHeaderSpec.v ===== *)
(** * The header describes the data that follow

    The types that the header names, in the order in which it names them, are those of
    the items of every sample, and their sizes add up to the size of a sample. *)

From S2P Require Import Prelude Errors Parse Format Enums StdDev Capture CaptureSpec PosOut Output Floats Prepare BufferedFile BufferedFileSpec FieldsSpec DataHeader.
From stdpp Require Import base numbers option strings list.
Open Scope Z_scope.

Module DataHeaderSpec.
Import Parse Format Capture CaptureSpec PosOut Prepare DataHeader.

(** ** The fields that are listed *)

Definition listed (d : described_fields) (c : data_capture) (process : data_process) : list described :=
  (if is_raw process && sample_count_is_anonymous c then [df_sample_count d] else []) ++
  df_unscaled d ++ df_scaled32 d ++ df_scaled64 d ++ df_averaged d ++ concat (stddev_listed process <$> df_std_dev d).
Definition type_of (process : data_process) (x : described) : string := field_type_name (ci_mode (info x)) process.

(** The fields without their texts. *)
Definition erase (d : described_fields) : captured_fields :=
  mk_fields (info (df_sample_count d)) (info <$> df_scaled32 d) (info <$> df_averaged d) (info <$> df_std_dev d)
    (info <$> df_scaled64 d) (info <$> df_unscaled d).
Lemma erase_prepared samples values :
  erase (prepare_captured_fields samples values) = Capture.prepare_captured_fields (info samples) (info <$> values).
Proof.
  unfold prepare_captured_fields, Capture.prepare_captured_fields.
  induction values as [|x values IH] using rev_ind; [done|]. rewrite foldl_app, fmap_app, foldl_app, <-IH. cbn [foldl fmap list_fmap].
  destruct (foldl _ _ values) as [sc s32 avg sd s64 un]. unfold add_described, add_captured, erase. cbn.
  destruct (ci_mode (info x)); cbn; by rewrite fmap_app.
Qed.

(** Each group holds the fields of its mode. *)
Definition has_mode (m : capture_mode) (x : described) : Prop := ci_mode (info x) = m.
Record grouped (d : described_fields) : Prop := {
  gr_scaled32 : Forall (has_mode CAPTURE_MODE_SCALED32) (df_scaled32 d);
  gr_averaged : Forall (has_mode CAPTURE_MODE_AVERAGE) (df_averaged d);
  gr_std_dev : Forall (has_mode CAPTURE_MODE_STDDEV) (df_std_dev d);
  gr_scaled64 : Forall (has_mode CAPTURE_MODE_SCALED64) (df_scaled64 d);
  gr_unscaled : Forall (has_mode CAPTURE_MODE_UNSCALED) (df_unscaled d);
}.
Lemma prepared_grouped samples values : grouped (prepare_captured_fields samples values).
Proof.
  unfold prepare_captured_fields. induction values as [|x values IH] using rev_ind; [by split|]. rewrite foldl_app. cbn [foldl].
  destruct (foldl _ _ values) as [sc s32 avg sd s64 un]. destruct IH as [H1 H2 H3 H4 H5]. unfold add_described. cbn in *.
  destruct (ci_mode (info x)) eqn:E; split; cbn; try done; apply Forall_app; split; try done; by repeat constructor.
Qed.

Lemma types_of_group process m l : Forall (has_mode m) l → type_of process <$> l = replicate (length l) (field_type_name m process).
Proof. induction 1 as [|x l Hx _ IH]; [done|]. rewrite fmap_cons, IH. unfold type_of. by rewrite Hx. Qed.

(** ** Scaled data *)

Definition item_type (x : item) : string := match x with Word _ => "uint32" | Real _ => "double" end.
Lemma types_of_words {A} (f : A → Z) (l : list A) : item_type <$> ((λ x, Word (f x)) <$> l) = replicate (length l) "uint32"%string.
Proof. induction l as [|x l IH]; [done|]. rewrite !fmap_cons, IH. done. Qed.
Lemma types_of_reals {A} f (l : list A) : item_type <$> ((λ x, Real (f x)) <$> l) = replicate (length l) "double"%string.
Proof. induction l as [|x l IH]; [done|]. rewrite !fmap_cons, IH. done. Qed.

Lemma std_dev_types (g : capture_info → outcome (list item)) l sd :
  Forall (has_mode CAPTURE_MODE_STDDEV) l →
  (∀ x o, g x = Ret o → item_type <$> o = replicate (if ci_mean x then 2 else 1) "double"%string) → mapM g (info <$> l) = Ret sd →
  type_of DATA_PROCESS_SCALED <$> concat (stddev_listed DATA_PROCESS_SCALED <$> l) = item_type <$> concat sd.
Proof.
  intros Hl Hg. revert sd. induction Hl as [|x l Hx Hl IH]; intros sd E; [by injection E as <-|]. rewrite fmap_cons in E. simpl in E.
  apply outcome_bind_ret in E as (o & E1%Hg & E). apply outcome_bind_ret in E as (os & E2 & E). injection E as <-.
  rewrite fmap_cons. cbn [concat]. rewrite !fmap_app, (IH os E2), E1. f_equal. unfold stddev_listed. cbn [is_raw orb].
  unfold type_of. destruct (ci_mean (info x)); cbn; by rewrite Hx.
Qed.

Lemma scaled_types d c bus o :
  grouped d → sample_meaning bus (erase d) = Ret o → type_of DATA_PROCESS_SCALED <$> listed d c DATA_PROCESS_SCALED = item_type <$> o.
Proof.
  intros [H1 H2 H3 H4 H5] Hm. unfold sample_meaning, meaning_with in Hm. apply outcome_bind_ret in Hm as (sd & Hsd & Hm). injection Hm as <-.
  apply std_dev_types in Hsd; [|done|].
  - unfold listed. cbn [is_raw andb app]. rewrite !fmap_app, Hsd. cbn [erase f_unscaled f_scaled32 f_scaled64 f_averaged].
    rewrite !types_of_reals, types_of_words, !length_fmap.
    rewrite (types_of_group _ _ _ H1), (types_of_group _ _ _ H2), (types_of_group _ _ _ H4), (types_of_group _ _ _ H5). done.
  - intros x o' (dev & _ & [= <-])%outcome_bind_ret. by destruct (ci_mean x).
Qed.

(** ** Raw data *)

(** The words of a raw type. *)
Definition type_words (t : string) : nat :=
  if bool_decide (t = "int96") then 3 else if bool_decide (t = "int64") then 2 else 1.
Definition raw_type_words (x : described) : nat := type_words (type_of DATA_PROCESS_RAW x).
Definition words_listed (l : list described) : nat := sum_list_with raw_type_words l.
Lemma words_listed_app l1 l2 : words_listed (l1 ++ l2) = (words_listed l1 + words_listed l2)%nat.
Proof. apply sum_list_with_app. Qed.
Lemma words_of_mode m x : has_mode m x → raw_type_words x = type_words (field_type_name m DATA_PROCESS_RAW).
Proof. intros Hx. unfold raw_type_words, type_of. by rewrite Hx. Qed.
Lemma words_of_group m l : Forall (has_mode m) l → words_listed l = (type_words (field_type_name m DATA_PROCESS_RAW) * length l)%nat.
Proof.
  induction 1 as [|x l Hx%words_of_mode _ IH]; [simpl; lia|].
  change (words_listed (x :: l)) with (raw_type_words x + words_listed l)%nat. rewrite IH, Hx. simpl length. lia.
Qed.
Lemma words_of_std_dev l : Forall (has_mode CAPTURE_MODE_STDDEV) l → words_listed (concat (stddev_listed DATA_PROCESS_RAW <$> l)) = (5 * length l)%nat.
Proof.
  induction 1 as [|x l Hx%words_of_mode _ IH]; [done|]. rewrite fmap_cons. cbn [concat]. rewrite words_listed_app, IH.
  unfold stddev_listed. cbn [is_raw orb app]. unfold words_listed. cbn [sum_list_with]. rewrite Hx.
  change (raw_type_words (mean_info x)) with 2%nat. simpl. lia.
Qed.

Lemma anonymous_count previous f c array :
  gather_data_capture previous f = Ret (c, array) → anonymous_words f = if sample_count_is_anonymous c then 1%nat else 0%nat.
Proof.
  unfold gather_data_capture. rewrite averaging_bool. intros ([[ix anon] g] & E0 & E)%outcome_bind_ret.
  do 5 (apply outcome_bind_ret in E as ([? ?] & _ & E)). injection E as <- _. unfold sample_count_is_anonymous. cbn.
  unfold anonymous_words. case_bool_decide as Ha; [|injection E0 as _ <- _; rewrite decide_False by naive_solver; done].
  unfold ensure_sample_count in E0. destruct (find_sample_count _ _ _) as [i|] eqn:Ef.
  - injection E0 as _ <- _. by rewrite decide_False by naive_solver.
  - apply outcome_bind_ret in E0 as ([? ?] & _ & E0). injection E0 as _ <- _. by rewrite decide_True by done.
Qed.

Lemma raw_words previous d c array :
  grouped d → fields_wf (erase d) → gather_data_capture previous (erase d) = Ret (c, array) →
  raw_type_words (df_sample_count d) = 1%nat → words_listed (listed d c DATA_PROCESS_RAW) = length array.
Proof.
  intros [H1 H2 H3 H4 H5] Hwf E Hs. pose proof (gather_room previous (erase d) Hwf) as Hr.
  assert (length array = word_count (erase d)) as ->.
  { destruct (decide (word_count (erase d) ≤ MAX_CAPTURE_COUNT)%nat); [destruct Hr as (c' & a' & E' & Hl); congruence|congruence]. }
  unfold word_count. rewrite (anonymous_count _ _ _ _ E). unfold listed. cbn [is_raw andb erase f_unscaled f_scaled32 f_scaled64 f_averaged f_std_dev].
  rewrite !words_listed_app, (words_of_std_dev _ H3), (words_of_group _ _ H1), (words_of_group _ _ H2), (words_of_group _ _ H4), (words_of_group _ _ H5), !length_fmap.
  assert (words_listed (if sample_count_is_anonymous c then [df_sample_count d] else []) = if sample_count_is_anonymous c then 1%nat else 0%nat) as ->.
  { destruct (sample_count_is_anonymous c); [|done]. unfold words_listed. cbn [sum_list_with]. by rewrite Hs. }
  change (type_words (field_type_name CAPTURE_MODE_SCALED32 DATA_PROCESS_RAW)) with 1%nat.
  change (type_words (field_type_name CAPTURE_MODE_AVERAGE DATA_PROCESS_RAW)) with 2%nat.
  change (type_words (field_type_name CAPTURE_MODE_SCALED64 DATA_PROCESS_RAW)) with 2%nat.
  change (type_words (field_type_name CAPTURE_MODE_UNSCALED DATA_PROCESS_RAW)) with 1%nat. lia.
Qed.

(** ** Sizes *)

(** The bytes of a value of a type. *)
Definition type_bytes (t : string) : nat :=
  if bool_decide (t = "int96") then 12 else if bool_decide (t = "int64" ∨ t = "double") then 8 else 4.
Definition bytes_listed (process : data_process) (l : list described) : nat := sum_list (type_bytes <$> (type_of process <$> l)).

Lemma items_bytes o : items_size o = sum_list (type_bytes <$> (item_type <$> o)).
Proof. induction o as [|x o IH]; [done|]. simpl. rewrite IH. by destruct x. Qed.
Lemma raw_bytes l : bytes_listed DATA_PROCESS_RAW l = (4 * words_listed l)%nat.
Proof.
  unfold bytes_listed. induction l as [|x l IH]; [done|].
  change (words_listed (x :: l)) with (raw_type_words x + words_listed l)%nat.
  assert (type_bytes (type_of DATA_PROCESS_RAW x) = 4 * raw_type_words x)%nat as Hx.
  { unfold raw_type_words, type_of. by destruct (ci_mode (info x)). }
  rewrite !fmap_cons. cbn [sum_list]. rewrite IH, Hx. unfold id. lia.
Qed.

(** The length announced is that of the types listed. *)
Lemma length_listed previous d c array bus o process :
  grouped d → fields_wf (erase d) → gather_data_capture previous (erase d) = Ret (c, array) →
  raw_type_words (df_sample_count d) = 1%nat → (0 < length array)%nat → sample_meaning bus (erase d) = Ret o → o ≠ [] →
  get_binary_sample_length c process = Ret (bytes_listed process (listed d c process)).
Proof.
  intros Hg Hwf E Hs Hpos Hm Ho. destruct (binary_sample_length_exact previous (erase d) c array bus o) as [H1 H2]; [done..|].
  destruct process.
  - rewrite H2, raw_bytes, (raw_words previous d c array) by done. f_equal. by rewrite (items_size_const _ 4).
  - rewrite H1. unfold bytes_listed. by rewrite (scaled_types d c bus o), items_bytes.
Qed.

(** ** The lines of the header *)

Definition fields_lines (options : data_options) (l : list described) (lines : list (list piece)) : Prop := mapM (send_field_info options) l = Ret lines.
Lemma mapM_app_ret {A B} (f : A → outcome B) l1 l2 o1 o2 : mapM f l1 = Ret o1 → mapM f l2 = Ret o2 → mapM f (l1 ++ l2) = Ret (o1 ++ o2).
Proof.
  revert o1. induction l1 as [|x l1 IH]; intros o1 E1 E2; simpl in E1 |- *; [by injection E1 as <-|].
  apply outcome_bind_ret in E1 as (b & -> & E1). apply outcome_bind_ret in E1 as (bs & E1 & [= <-]). cbn [mbind outcome_bind].
  by rewrite (IH bs).
Qed.
Lemma fields_lines_app options l1 l2 o1 o2 : fields_lines options l1 o1 → fields_lines options l2 o2 → fields_lines options (l1 ++ l2) (o1 ++ o2).
Proof. apply mapM_app_ret. Qed.
Lemma fmap_ret {A B} (f : A → B) (o : outcome A) b : f <$> o = Ret b → ∃ a, o = Ret a ∧ b = f a.
Proof. destruct o; try done. intros [= <-]. eauto. Qed.

Lemma group_lines options group text : send_group_info options group = Ret text → ∃ lines, fields_lines options group lines ∧ text = concat lines.
Proof. apply fmap_ret. Qed.
Lemma std_dev_lines options group text :
  send_stddev_group_info options group = Ret text →
  ∃ lines, fields_lines options (concat (stddev_listed (o_process options) <$> group)) lines ∧ text = concat lines.
Proof.
  intros (texts & E & ->)%fmap_ret. revert texts E. induction group as [|x group IH]; intros texts E; simpl in E.
  { injection E as <-. by exists []. }
  apply outcome_bind_ret in E as (text & (lines & Hl & ->)%group_lines & E). apply outcome_bind_ret in E as (rest & E & [= <-]).
  destruct (IH rest E) as (lines' & Hl' & Ht). exists (lines ++ lines'). rewrite fmap_cons. cbn [concat].
  split; [by apply fields_lines_app|]. by rewrite concat_app, Ht.
Qed.

Lemma header_lines gmtime d c options missed times pieces :
  send_data_header gmtime d c options missed times = Ret pieces →
  ∃ before lines after, fields_lines options (listed d c (o_process options)) lines ∧ pieces = before ++ concat lines ++ after.
Proof.
  unfold send_data_header. cbn [start_element]. intros (capture_info & _ & E)%outcome_bind_ret.
  apply outcome_bind_ret in E as (samples & Es & E).
  assert (∃ ls, fields_lines options (if is_raw (o_process options) && sample_count_is_anonymous c then [df_sample_count d] else []) ls ∧ samples = concat ls) as (ls & Hs & ->).
  { destruct (is_raw (o_process options) && _); [|injection Es as <-; by exists []]. exists [samples].
    split; [|cbn [concat]; by rewrite app_nil_r]. unfold fields_lines. simpl. by rewrite Es. }
  apply outcome_bind_ret in E as (? & (l1 & H1 & ->)%group_lines & E). apply outcome_bind_ret in E as (? & (l2 & H2 & ->)%group_lines & E).
  apply outcome_bind_ret in E as (? & (l3 & H3 & ->)%group_lines & E). apply outcome_bind_ret in E as (? & (l4 & H4 & ->)%group_lines & E).
  apply outcome_bind_ret in E as (? & (l5 & H5 & ->)%std_dev_lines & [= <-]).
  match goal with |- ∃ _ _ _, _ ∧ ?a ++ ?b ++ ?c ++ _ ++ _ ++ _ ++ _ ++ _ ++ _ ++ ?z = _ => generalize a, b, c, z end; intros a b k z.
  exists (a ++ b ++ k), (ls ++ l1 ++ l2 ++ l3 ++ l4 ++ l5), z. split; [by repeat apply fields_lines_app|].
  by rewrite !concat_app, <-!app_assoc.
Qed.

(** C15: The header that precedes the data of a capture describes it: it has one line for
    each of the listed fields, in their order, and for every content of the capture bus
    the types on these lines are those of the items of a converted sample, one by one, and
    their sizes add up to the length of a sample that the server announces, raw or
    scaled, with the sample count that was captured without being asked for and the means
    that come with the standard deviations. *)
Theorem header_describes_sample gmtime samples values previous c array options missed times pieces :
  let d := prepare_captured_fields samples values in
  info_wf (info samples) → Forall (λ x, info_wf (info x)) values → raw_type_words samples = 1%nat →
  gather_data_capture previous (erase d) = Ret (c, array) → (0 < length array)%nat →
  send_data_header gmtime d c options missed times = Ret pieces →
  (∃ before lines after,
     mapM (send_field_info options) (listed d c (o_process options)) = Ret lines ∧ pieces = before ++ concat lines ++ after) ∧
  ∀ bus o, sample_meaning bus (erase d) = Ret o → o ≠ [] →
    type_of DATA_PROCESS_SCALED <$> listed d c DATA_PROCESS_SCALED = item_type <$> o ∧
    get_binary_sample_length c (o_process options) = Ret (bytes_listed (o_process options) (listed d c (o_process options))).
Proof.
  intros d Hs Hv Hw E Hpos Ht. pose proof (prepared_grouped samples values) as Hg. split; [by eapply header_lines|].
  intros bus o Hm Ho.
  assert (fields_wf (erase d)) as Hwf.
  { unfold d. rewrite erase_prepared. apply prepared_wf; [done|]. by apply Forall_fmap. }
  assert (df_sample_count d = samples) as Hd.
  { clear. unfold d, prepare_captured_fields. induction values as [|x values IH] using rev_ind; [done|]. rewrite foldl_app. cbn [foldl].
    destruct (foldl _ _ values) as [sc ? ? ? ? ?]. unfold add_described. by destruct (ci_mode (info x)). }
  split; [by eapply scaled_types|]. eapply length_listed; [exact Hg|exact Hwf|exact E|by rewrite Hd|exact Hpos|exact Hm|exact Ho].
Qed.

(** ** One field of each kind *)

Definition example_value (name : string) (x : capture_info) : described := (bytes_of name, mk_captured x "Value" (bytes_of "mm")).
Definition example_count : described := example_value "PCAP.SAMPLES" example_samples.
Definition example_values : list described :=
  [example_value "INENC1.VAL" (example_info 0 CAPTURE_MODE_STDDEV true); example_value "INENC2.VAL" (example_info 10 CAPTURE_MODE_AVERAGE false);
   example_value "INENC3.VAL" (example_info 20 CAPTURE_MODE_SCALED64 false); example_value "INENC4.VAL" (example_info 30 CAPTURE_MODE_SCALED32 false);
   example_value "PCAP.BITS0" (example_info 40 CAPTURE_MODE_UNSCALED false)].
Definition example_gmtime (t : Z) : Z * Z * Z * (Z * Z * Z) := (70, 0, 1 + t / 86400, (t / 3600 mod 24, t / 60 mod 60, t mod 60)).
Definition example_options : data_options := mk_options DATA_FORMAT_FRAMED DATA_PROCESS_RAW false false false false.
Definition example_times : capture_times := mk_times (5, 6) (7, 8) None.

Definition example_described : described_fields := prepare_captured_fields example_count example_values.
Definition example_capture : data_capture :=
  match gather_data_capture initial_capture (erase example_described) with Ret (c, _) => c | _ => initial_capture end.
Lemma header_describes_sample_witness :
  ∃ pieces, send_data_header example_gmtime example_described example_capture example_options 0 example_times = Ret pieces ∧
  ∀ bus o, sample_meaning bus (erase example_described) = Ret o → o ≠ [] →
    type_of DATA_PROCESS_SCALED <$> listed example_described example_capture DATA_PROCESS_SCALED = item_type <$> o ∧
    get_binary_sample_length example_capture DATA_PROCESS_RAW = Ret (bytes_listed DATA_PROCESS_RAW (listed example_described example_capture DATA_PROCESS_RAW)).
Proof.
  eexists. split; [vm_compute; reflexivity|].
  refine (proj2 (header_describes_sample example_gmtime example_count example_values initial_capture example_capture example_array example_options 0 example_times _ _ _ _ _ _ _));
    [done|by repeat constructor|done|vm_compute; reflexivity|vm_compute; lia|vm_compute; reflexivity].
Defined.

(** The types of its lines, and the length of a sample in bytes. *)
Example example_types : type_of DATA_PROCESS_RAW <$> listed example_described example_capture DATA_PROCESS_RAW =
  ["int32"; "uint32"; "int32"; "int64"; "int64"; "int64"; "int96"]%string.
Proof. vm_compute. reflexivity. Qed.
Example example_length : get_binary_sample_length example_capture DATA_PROCESS_RAW = Ret 48%nat.
Proof. vm_compute. reflexivity. Qed.
End DataHeaderSpec.
