(* ===== verification/PandaBlock.v ===== *)
(** * The driver for the tables: panda-server/driver/panda_block.c

    A table is sent to the FPGA in blocks of memory, which the DMA engine reads.  Each
    channel knows two blocks at a time; the others wait in a queue until an interrupt
    says that a block is done.  A file is configured once for a channel and allocates
    its blocks; requests, interrupts and the ends of files come in any order, so each
    operation is given as the steps between which the others can happen: its locked
    sections.  The allocation of memory and the copying from the memory of a process are
    answers and lists of words; the log is not modelled. *)

From S2P Require Import Prelude Capture.
From stdpp Require Import base numbers gmap option list.
Open Scope Z_scope.

Module PandaBlock.
Import Capture.

Definition BLOCK_CHANNEL_COUNT : nat := 16.
Definition PAGE_SHIFT : Z := 12.
Definition EFAULT : Z := 14.
Definition ENOMEM : Z := 12.
Definition EBUSY : Z := 16.
Definition EINVAL : Z := 22.
Definition EFBIG : Z := 27.
Definition EPIPE : Z := 32.

(** [struct buffer_info], with the words of the memory at its address; a pointer to one
    is a number. *)
Record buffer_info := mk_buffer { bi_channel : nat; addr : list Z; dma : Z; bi_length : Z; more : bool }.
Abbreviation buffers_map := (gmap nat buffer_info).
Definition at_buffer (bufs : buffers_map) (b : nat) : outcome buffer_info := match bufs !! b with Some x => Ret x | None => Undef end.

(** [struct block_channel]; the registers are offsets.  The last field is what the FPGA
    sees: the writes made for the channel, the register and the value. *)
Record block_channel := mk_channel {
  queue : list nat;
  free : list nat;
  current_buffer : option nat;
  next_buffer : option nat;
  addr_reg : Z;
  length_reg : Z;
  nwords : Z;
  completed : bool;
  has_user : bool;
  written : list (Z * Z);
}.
Definition block_channel_init : block_channel := mk_channel [] [] None None 0 0 0 false false [].

(** The lists, in one. *)
Definition set_lists (c : block_channel) (queue free : list nat) (current next : option nat) : block_channel :=
  mk_channel queue free current next (addr_reg c) (length_reg c) (nwords c) (completed c) (has_user c) (written c).
Definition set_nwords (c : block_channel) (n : Z) : block_channel :=
  mk_channel (queue c) (free c) (current_buffer c) (next_buffer c) (addr_reg c) (length_reg c) n (completed c) (has_user c) (written c).
Definition set_completed (c : block_channel) (b : bool) : block_channel :=
  mk_channel (queue c) (free c) (current_buffer c) (next_buffer c) (addr_reg c) (length_reg c) (nwords c) b (has_user c) (written c).
Definition set_user (c : block_channel) (b : bool) : block_channel :=
  mk_channel (queue c) (free c) (current_buffer c) (next_buffer c) (addr_reg c) (length_reg c) (nwords c) (completed c) b (written c).
Definition set_registers (c : block_channel) (addr length_ : Z) : block_channel :=
  mk_channel (queue c) (free c) (current_buffer c) (next_buffer c) addr length_ (nwords c) (completed c) (has_user c) (written c).
Definition writel (c : block_channel) (value reg : Z) : block_channel :=
  mk_channel (queue c) (free c) (current_buffer c) (next_buffer c) (addr_reg c) (length_reg c) (nwords c) (completed c) (has_user c)
    (written c ++ [(reg, u32 value)]).

(** ** The lists of a channel *)

(** The buffers in the lists of a channel have it as their [channel]. *)
Definition free_buffer_locked (c : block_channel) (b : nat) : block_channel :=
  set_lists c (queue c) (b :: free c) (current_buffer c) (next_buffer c).
(** The queue from its first entry on, the current buffer, the next. *)
Fixpoint free_queue (q : list nat) (c : block_channel) : block_channel :=
  match q with [] => c | b :: q => free_queue q (free_buffer_locked (set_lists c q (free c) (current_buffer c) (next_buffer c)) b) end.
Definition block_channel_free_buffers_locked (c : block_channel) : block_channel :=
  let c := free_queue (queue c) c in
  let c := match current_buffer c with
           | Some b => let c := free_buffer_locked c b in set_lists c (queue c) (free c) None (next_buffer c)
           | None => c
           end in
  let c := match next_buffer c with
           | Some b => let c := free_buffer_locked c b in set_lists c (queue c) (free c) (current_buffer c) None
           | None => c
           end in
  set_nwords c 0.
Definition reset_dma_locked (c : block_channel) : block_channel :=
  set_completed (block_channel_free_buffers_locked (writel c 0 (length_reg c))) false.

Definition get_free_buffer (c : block_channel) : option nat * block_channel :=
  match free c with
  | b :: free => (Some b, set_lists c (queue c) free (current_buffer c) (next_buffer c))
  | [] => (None, c)
  end.

(** [push_buffer_locked]: [1<<31] is an [int], and negative. *)
Section platform.
Context `{Platform}.
Definition length_word (x : buffer_info) : Z := if more x then Z.lor (bi_length x) (ulong (- 2 ^ 31)) else bi_length x.
Definition push_buffer_locked (bufs : buffers_map) (c : block_channel) (b : nat) : outcome (bool * block_channel) :=
  let inform c := x ← at_buffer bufs b; Ret (true, writel (writel c (dma x) (addr_reg c)) (length_word x) (length_reg c)) in
  match current_buffer c, next_buffer c with
  | None, _ => inform (set_lists c (queue c) (free c) (Some b) (next_buffer c))
  | Some _, None => inform (set_lists c (queue c) (free c) (current_buffer c) (Some b))
  | Some _, Some _ => Ret (false, c)
  end.

(** ** Requests *)

(** [struct panda_block] and [struct panda_block_send_request], with the words that can
    be read at [data]. *)
Record panda_block := mk_block { order : Z; block_base : Z; block_length : Z; dma_channel : Z; nbuffers : Z }.
Record send_request := mk_request { rq_data : list Z; rq_length : Z; rq_more : bool }.

(** [struct block_open]. *)
Record block_open := mk_open { block_size : Z; block : panda_block; channel : option nat; configured : bool }.

(** What a call that has not returned is doing: [config_block], which holds the lock of
    the file, allocates; [send_block] has taken a free buffer for its request. *)
Inductive activity := Allocating (o : nat) | Sending (o : nat) (rq : send_request) (b : nat).
Definition activity_open (a : activity) : nat := match a with Allocating o => o | Sending o _ _ => o end.

Record driver := mk_driver {
  block_channels : list block_channel;
  opens : gmap nat block_open;
  calls : gmap nat activity;
  bufs : buffers_map;
}.
Definition set_channel (d : driver) (i : nat) (c : block_channel) : driver :=
  mk_driver (<[i := c]> (block_channels d)) (opens d) (calls d) (bufs d).
Definition set_open (d : driver) (o : nat) (x : block_open) : driver :=
  mk_driver (block_channels d) (<[o := x]> (opens d)) (calls d) (bufs d).
Definition set_calls (d : driver) (calls : gmap nat activity) : driver := mk_driver (block_channels d) (opens d) calls (bufs d).
Definition set_bufs (d : driver) (m : buffers_map) : driver := mk_driver (block_channels d) (opens d) (calls d) m.
Definition at_channel (d : driver) (i : nat) : outcome block_channel :=
  match block_channels d !! i with Some c => Ret c | None => Undef end.
(** [open->channel], where it is followed. *)
Definition channel_of (x : block_open) : outcome nat := match channel x with Some i => Ret i | None => Undef end.

(** [1U << (order + PAGE_SHIFT)]. *)
Definition size_of_order (order : Z) : outcome Z :=
  let shift := u32 (order + PAGE_SHIFT) in _ ← in_range (bool_decide (shift < 32)); Ret (2 ^ shift).

(** The result of a step: the driver, and what a call returned when it ended. *)
Abbreviation stepped := (outcome (driver * option Z)).

Section driver.
(** [pcap->length]. *)
Context (pcap_length : Z).

(** [config_block] up to the end of its locked section, with the call as [t]. *)
Definition config_block (d : driver) (t o : nat) (x : block_open) (arg : option panda_block) : stepped :=
  if configured x then Ret (d, Some (- EBUSY))
  else
    match arg with
    | None => Ret (d, Some (- EFAULT))
    | Some block =>
        let opened := mk_open (block_size x) block (channel x) false in
        let invalid := Ret (set_open d o opened, Some (- EINVAL)) in
        if negb (bool_decide (block_base block ≤ u32 (pcap_length - 4) ∧ block_length block ≤ u32 (pcap_length - 4))) then invalid
        else if negb (bool_decide (dma_channel block < Z.of_nat BLOCK_CHANNEL_COUNT)) then invalid
        else if negb (bool_decide (0 < nbuffers block)) then invalid
        else
          size ← size_of_order (order block);
          let i := Z.to_nat (dma_channel block) in
          c ← at_channel d i;
          let c := set_registers c (block_base block) (block_length block) in
          let had_user := has_user c in
          let c := if had_user then c else set_user (reset_dma_locked c) true in
          let d := set_channel (set_open d o (mk_open size block (Some i) false)) i c in
          if had_user then Ret (d, Some (- EBUSY)) else Ret (set_calls d (<[t := Allocating o]> (calls d)), None)
    end.

(** [allocate_channel_buffers]: what each round gets, the number of the buffer with its
    memory and its address; [None] when it gets nothing, and then what was allocated is
    given back. *)
Fixpoint allocate_loop (n : nat) (i : nat) (answers : list (option (nat * list Z * Z))) (free_list : list nat) (m : buffers_map)
    : option (list nat * buffers_map) :=
  match n, answers with
  | O, _ => Some (free_list, m)
  | S n, Some (b, memory, address) :: answers => allocate_loop n i answers (b :: free_list) (<[b := mk_buffer i memory address 0 false]> m)
  | S n, _ => None
  end.
(** The rest of [config_block]. *)
Definition config_allocated (d : driver) (t o : nat) (x : block_open) (answers : list (option (nat * list Z * Z))) : stepped :=
  i ← channel_of x;
  c ← at_channel d i;
  let d := set_calls d (delete t (calls d)) in
  match allocate_loop (Z.to_nat (nbuffers (block x))) i answers [] (bufs d) with
  | None => Ret (d, Some (- ENOMEM))
  | Some (free_list, m) =>
      let c := set_lists c (queue c) (free_list ++ free c) (current_buffer c) (next_buffer c) in
      Ret (set_open (set_bufs (set_channel d i c) m) o (mk_open (block_size x) (block x) (channel x) true), Some (block_size x))
  end.

(** [send_block] up to the end of its first locked section. *)
Definition send_block (d : driver) (t o : nat) (x : block_open) (arg : option send_request) : stepped :=
  if negb (configured x) then Ret (d, Some (- EINVAL))
  else
    match arg with
    | None => Ret (d, Some (- EFAULT))
    | Some rq =>
        if negb (bool_decide (ulong (rq_length rq * 4) ≤ block_size x)) then Ret (d, Some (- EFBIG))
        else
          i ← channel_of x;
          c ← at_channel d i;
          if bool_decide (rq_length rq = 0) then Ret (set_channel d i (reset_dma_locked c), Some 0)
          else
            match get_free_buffer c with
            | (None, _) => Ret (d, Some (- ENOMEM))
            | (Some b, c) => Ret (set_calls (set_channel d i c) (<[t := Sending o rq b]> (calls d)), None)
            end
    end.
(** [copy_from_user]: the words that could be copied, and whether all could; the memory
    must hold them. *)
Definition copy_from_user (memory data : list Z) (bytes : Z) : outcome (list Z * bool) :=
  let n := Z.to_nat (bytes / 4) in
  _ ← in_range (bool_decide (n ≤ length memory)%nat);
  Ret (take n data ++ drop (length (take n data)) memory, bool_decide (n ≤ length data)%nat).
(** The locked section with a filled buffer. *)
Definition queue_buffer_locked (m : buffers_map) (c : block_channel) (b : nat) : outcome (block_channel * Z) :=
  if completed c then Ret (free_buffer_locked c b, - EPIPE)
  else
    x ← at_buffer m b;
    let c := set_nwords c (ulong (nwords c + bi_length x)) in
    let c := if more x then c else set_completed c true in
    '(pushed, c) ← push_buffer_locked m c b;
    Ret (match pushed with true => c | false => set_lists c (b :: queue c) (free c) (current_buffer c) (next_buffer c) end, 0).
(** The rest of [send_block]. *)
Definition send_taken (d : driver) (t o : nat) (x : block_open) (rq : send_request) (b : nat) : stepped :=
  i ← channel_of x;
  c ← at_channel d i;
  old ← at_buffer (bufs d) b;
  '(memory, copied) ← copy_from_user (addr old) (rq_data rq) (ulong (rq_length rq * 4));
  let m := <[b := mk_buffer (bi_channel old) memory (dma old) (rq_length rq) (rq_more rq)]> (bufs d) in
  let d := set_bufs (set_calls d (delete t (calls d))) m in
  match copied with
  | false => Ret (d, Some (- EFAULT))
  | true =>
    '(c, rc) ← queue_buffer_locked m c b;
    Ret (set_channel d i c, Some rc)
  end.

(** [get_nwords]: the number, where there is one. *)
Definition get_nwords (d : driver) (x : block_open) : outcome (Z + Z) :=
  match channel x with None => Ret (inl (- EINVAL)) | Some i => c ← at_channel d i; Ret (inr (nwords c)) end.

(** ** The interrupt *)

Definition isr_ready (m : buffers_map) (c : block_channel) : outcome block_channel :=
  c ← match current_buffer c, next_buffer c with
      | Some b, Some next =>
          x ← at_buffer m b;
          Ret (free_buffer_locked (set_nwords (set_lists c (queue c) (free c) (Some next) None) (ulong (nwords c - bi_length x))) b)
      | _, _ => Ret c
      end;
  match last (queue c) with
  | None => Ret c
  | Some b =>
      let c := set_lists c (removelast (queue c)) (free c) (current_buffer c) (next_buffer c) in
      '(pushed, c) ← push_buffer_locked m c b;
      Ret match pushed with true => c | false => free_buffer_locked c b end
  end.
Definition isr_channel (m : buffers_map) (status : Z) (i : nat) (c : block_channel) : outcome block_channel :=
  if Z.testbit (Z.shiftr status 16) (Z.of_nat i) then Ret (block_channel_free_buffers_locked (set_completed c true))
  else if Z.testbit (Z.land status 65535) (Z.of_nat i) then isr_ready m c
  else Ret c.
Fixpoint isr_loop (m : buffers_map) (status : Z) (i : nat) (l : list block_channel) : outcome (list block_channel) :=
  match l with
  | [] => Ret []
  | c :: l => c ← isr_channel m status i c; l ← isr_loop m status (S i) l; Ret (c :: l)
  end.
Definition block_isr (d : driver) (status : Z) : outcome driver :=
  l ← isr_loop (bufs d) status 0 (block_channels d); Ret (mk_driver l (opens d) (calls d) (bufs d)).

(** ** Files *)

Definition panda_block_open (d : driver) (o : nat) : driver := set_open d o (mk_open 0 (mk_block 0 0 0 0 0) None false).
Definition panda_block_release (d : driver) (o : nat) (x : block_open) : stepped :=
  let d := mk_driver (block_channels d) (delete o (opens d)) (calls d) (bufs d) in
  if configured x then
    i ← channel_of x;
    c ← at_channel d i;
    let c := set_user (reset_dma_locked c) false in
    let free_list := free c in
    let c := set_lists c (queue c) [] (current_buffer c) (next_buffer c) in
    Ret (set_bufs (set_channel d i c) (foldl (λ m b, delete b m) (bufs d) free_list), Some (Z.of_nat (length free_list)))
  else Ret (d, None).

(** ** Everything together *)

Inductive event :=
| Open (o : nat)
| Config (t o : nat) (arg : option panda_block)
| Send (t o : nat) (arg : option send_request)
| Continue (t : nat) (answers : list (option (nat * list Z * Z)))
| Interrupt (status : Z)
| Release (o : nat).

Definition busy (d : driver) (o : nat) : bool := bool_decide (map_Exists (λ _ a, activity_open a = o) (calls d)).
Definition is_allocating (o : nat) (a : activity) : Prop := a = Allocating o.
#[export] Instance is_allocating_dec o a : Decision (is_allocating o a).
Proof. refine (match a with Allocating o' => if decide (o' = o) then left _ else right _ | Sending _ _ _ => right _ end); unfold is_allocating; congruence. Defined.
Definition locked (d : driver) (o : nat) : bool := bool_decide (map_Exists (λ _ a, is_allocating o a) (calls d)).
(** The numbers that [kmalloc] gives are not in use, and [__get_free_pages] gives memory
    of the size asked for. *)
Definition answer_numbers (answers : list (option (nat * list Z * Z))) : list nat := omap (λ a, (λ r : nat * list Z * Z, r.1.1) <$> a) answers.
Definition answer_sizes (answers : list (option (nat * list Z * Z))) : list Z := omap (λ a, (λ r : nat * list Z * Z, 4 * Z.of_nat (length r.1.2)) <$> a) answers.
Definition good_answers (m : buffers_map) (size : Z) (answers : list (option (nat * list Z * Z))) : bool :=
  bool_decide (NoDup (answer_numbers answers) ∧ Forall (λ b, m !! b = None) (answer_numbers answers) ∧ Forall (λ n, n = size) (answer_sizes answers)).

(** An event that cannot happen now changes nothing: the call or the file is already
    there, or is not, another call holds the lock, or a file in use is released. *)
Definition step (d : driver) (e : event) : stepped :=
  match e with
  | Open o => match opens d !! o with None => Ret (panda_block_open d o, Some 0) | Some _ => Ret (d, None) end
  | Config t o arg =>
      match opens d !! o, calls d !! t with
      | Some x, None => if locked d o then Ret (d, None) else config_block d t o x arg
      | _, _ => Ret (d, None)
      end
  | Send t o arg =>
      match opens d !! o, calls d !! t with Some x, None => send_block d t o x arg | _, _ => Ret (d, None) end
  | Continue t answers =>
      match calls d !! t with
      | Some (Allocating o) =>
          match opens d !! o with
          | Some x => if good_answers (bufs d) (block_size x) answers then config_allocated d t o x answers else Ret (d, None)
          | None => Undef
          end
      | Some (Sending o rq b) => match opens d !! o with Some x => send_taken d t o x rq b | None => Undef end
      | None => Ret (d, None)
      end
  | Interrupt status => d ← block_isr d status; Ret (d, None)
  | Release o =>
      match opens d !! o with
      | Some x => if busy d o then Ret (d, None) else panda_block_release d o x
      | None => Ret (d, None)
      end
  end.
Fixpoint run (d : driver) (events : list event) : outcome driver :=
  match events with [] => Ret d | e :: events => '(d, _) ← step d e; run d events end.
Definition initial : driver := mk_driver (replicate BLOCK_CHANNEL_COUNT block_channel_init) ∅ ∅ ∅.
End driver.
End platform.
End PandaBlock.
