(* ===== verification/PandaBlockSpec.v ===== *)
(** * The tables reach the FPGA in order

    A channel is a stream: the blocks accepted since it was last reset, and how many of
    them the FPGA has done with.  Whatever the interleaving of requests, interrupts and
    the ends of files, the FPGA has been told of the first two that it has not done with
    and of those before, in the order in which they were accepted, and the memory it
    reads holds what was sent. *)

From S2P Require Import Prelude Capture CaptureSpec PandaBlock.
From stdpp Require Import base numbers gmap option list.
Open Scope Z_scope.

Module PandaBlockSpec.
Import Capture CaptureSpec PandaBlock.
Section platform.
Context `{Platform}.

(** ** The stream of a channel *)

(** A block: where it is, its words and whether more follow. *)
Abbreviation block_sent := (Z * list Z * bool)%type.
Record stream := mk_stream { before : list (Z * Z); accepted : list block_sent; released : nat }.
Inductive action := Accept (x : block_sent) | Ready | Completed | Reset.

Section spec.
(** The registers of the channel. *)
Context (regs : Z * Z).

Definition block_writes (x : block_sent) : list (Z * Z) :=
  let '(address, data, more) := x in
  [(regs.1, u32 address); (regs.2, u32 (length_word (mk_buffer 0 data address (Z.of_nat (length data)) more)))].
(** What the FPGA has been told. *)
Definition told (s : stream) : list (Z * Z) := before s ++ concat (block_writes <$> take (released s + 2) (accepted s)).
Definition waiting (s : stream) : list block_sent := drop (released s) (accepted s).
Definition stream_step (s : stream) (a : action) : stream :=
  match a with
  | Accept x => mk_stream (before s) (accepted s ++ [x]) (released s)
  | Ready => if bool_decide (released s + 2 ≤ length (accepted s))%nat then mk_stream (before s) (accepted s) (S (released s)) else s
  | Completed => mk_stream (told s) [] 0
  | Reset => mk_stream (told s ++ [(regs.2, 0)]) [] 0
  end.

Lemma told_start l n : told (mk_stream l [] n) = l.
Proof. unfold told. cbn [before accepted released]. by rewrite take_nil, app_nil_r. Qed.
Lemma drop_one {A} n (l : list A) : drop (S n) l = drop 1 (drop n l).
Proof. rewrite drop_drop. f_equal. lia. Qed.
Lemma take_told n (l : list block_sent) x : drop n l = x → take (n + 3) l = take (n + 2) l ++ take 1 (drop 2 x).
Proof. intros <-. rewrite drop_drop. replace (n + 3)%nat with ((n + 2) + 1)%nat by lia. by rewrite take_take_drop. Qed.

Lemma told_accept s x :
  (released s ≤ length (accepted s))%nat →
  told (stream_step s (Accept x)) = told s ++ (if bool_decide (length (waiting s) < 2)%nat then block_writes x else []).
Proof.
  intros Hr. unfold told, waiting. cbn [stream_step before accepted released]. rewrite length_drop, <-app_assoc. f_equal.
  rewrite take_app, fmap_app, concat_app. f_equal. case_bool_decide.
  - rewrite (take_ge [x]) by (simpl; lia). cbn. by rewrite app_nil_r.
  - replace (released s + 2 - length (accepted s))%nat with 0%nat by lia. done.
Qed.
Lemma told_ready s :
  (2 ≤ length (waiting s))%nat →
  told (stream_step s Ready) = told s ++ concat (block_writes <$> take 1 (drop 2 (waiting s))) ∧ waiting (stream_step s Ready) = drop 1 (waiting s).
Proof.
  intros Hw. unfold told, waiting in *. rewrite length_drop in Hw. cbn [stream_step]. rewrite bool_decide_true by lia.
  cbn [before accepted released]. split; [|apply drop_one]. rewrite <-app_assoc. f_equal. replace (S (released s) + 2)%nat with (released s + 3)%nat by lia.
  by rewrite (take_told _ _ _ eq_refl), fmap_app, concat_app.
Qed.
Lemma ready_nothing s : ¬ (2 ≤ length (waiting s))%nat → (released s ≤ length (accepted s))%nat → stream_step s Ready = s.
Proof. unfold waiting. rewrite length_drop. intros. cbn. by rewrite bool_decide_false by lia. Qed.

(** ** A channel and its stream *)

Definition outstanding (c : block_channel) : list nat :=
  option_list (current_buffer c) ++ option_list (next_buffer c) ++ rev (queue c).
Definition places (c : block_channel) : list nat := outstanding c ++ free c.
Definition slots_ok (c : block_channel) : Prop :=
  (queue c ≠ [] → is_Some (next_buffer c)) ∧ (is_Some (next_buffer c) → is_Some (current_buffer c)).
(** What the memory of a buffer holds. *)
Definition block_in (m : buffers_map) (b : nat) : block_sent :=
  match m !! b with Some x => (dma x, take (Z.to_nat (bi_length x)) (addr x), more x) | None => (0, [], false) end.
Definition words_of (l : list block_sent) : Z := zsum ((λ x : block_sent, Z.of_nat (length x.1.2)) <$> l).

Record implements (m : buffers_map) (c : block_channel) (s : stream) : Prop := {
  im_slots : slots_ok c;
  im_buffers : Forall (λ b, ∃ x, m !! b = Some x ∧ 0 ≤ bi_length x ≤ Z.of_nat (length (addr x))) (outstanding c);
  im_blocks : block_in m <$> outstanding c = waiting s;
  im_released : (released s ≤ length (accepted s))%nat;
  im_written : written c = told s;
  im_nwords : nwords c = ulong (words_of (waiting s));
  im_regs : has_user c = true → (addr_reg c, length_reg c) = regs;
}.

Lemma words_of_app l1 l2 : words_of (l1 ++ l2) = words_of l1 + words_of l2.
Proof. unfold words_of. by rewrite fmap_app, zsum_app. Qed.
Lemma words_of_cons x l : words_of (x :: l) = words_of [x] + words_of l.
Proof. by rewrite <-words_of_app. Qed.
Lemma waiting_length m c s : implements m c s → length (outstanding c) = length (waiting s).
Proof. intros H1. by rewrite <-(im_blocks _ _ _ H1), length_fmap. Qed.

(** Nothing but the slots and the lists of the buffers decides. *)
Lemma outstanding_nil c : outstanding c = [] ↔ current_buffer c = None ∧ next_buffer c = None ∧ queue c = [].
Proof.
  unfold outstanding. destruct (current_buffer c), (next_buffer c), (queue c) as [|b q]; simpl; try naive_solver.
  split; [intros E|naive_solver]. by apply app_eq_nil in E as [_ ?].
Qed.

(** ** Freeing everything *)

Lemma free_queue_spec q c :
  free_queue q c = set_lists c (match q with [] => queue c | _ => [] end) (rev q ++ free c) (current_buffer c) (next_buffer c).
Proof.
  revert c. induction q as [|b q IH]; intros c; [by destruct c|]. cbn [free_queue]. rewrite IH. unfold free_buffer_locked, set_lists. cbn.
  rewrite <-app_assoc. destruct q; done.
Qed.
Lemma free_buffers_spec c :
  block_channel_free_buffers_locked c =
  set_nwords (set_lists c [] (option_list (next_buffer c) ++ option_list (current_buffer c) ++ rev (queue c) ++ free c) None None) 0.
Proof.
  unfold block_channel_free_buffers_locked. rewrite free_queue_spec. destruct c as [q f cu nx ? ? ? ? ? ?]. unfold set_lists, free_buffer_locked, set_nwords. cbn.
  destruct q, cu, nx; reflexivity.
Qed.
Lemma freed_places c : places (block_channel_free_buffers_locked c) ≡ₚ places c.
Proof.
  rewrite free_buffers_spec. unfold places, outstanding. cbn. rewrite <-!app_assoc.
  destruct (current_buffer c), (next_buffer c); cbn; first [done|constructor].
Qed.

(** Everything is freed when the stream is complete, or starts again. *)
Lemma free_implements m c s :
  implements m c s → implements m (block_channel_free_buffers_locked c) (mk_stream (told s) [] 0).
Proof.
  intros [Hs Hb Hbl Hr Hw Hn Hreg]. rewrite free_buffers_spec. split; rewrite ?told_start; done.
Qed.
Lemma set_completed_implements m c s b : implements m (set_completed c b) s ↔ implements m c s.
Proof. split; intros [? ? ? ? ? ? ?]; by split. Qed.
Lemma set_user_implements m c s b : implements m c s → (b = true → (addr_reg c, length_reg c) = regs) → implements m (set_user c b) s.
Proof. intros [? ? ? ? ? ? ?] ?; by split. Qed.
Lemma completed_implements m c s :
  implements m c s → implements m (block_channel_free_buffers_locked (set_completed c true)) (stream_step s Completed).
Proof. intros H1. apply free_implements. by apply set_completed_implements. Qed.
Lemma reset_implements m c s :
  implements m c s → (addr_reg c, length_reg c) = regs → implements m (reset_dma_locked c) (stream_step s Reset).
Proof.
  intros H1 Hreg. unfold reset_dma_locked. apply set_completed_implements. rewrite free_buffers_spec. destruct H1 as [? ? ? ? Hw ? ?].
  split; cbn [stream_step]; rewrite ?told_start; try done.
  cbn [written set_nwords set_lists writel]. by rewrite Hw, <-Hreg.
Qed.

(** ** Pushing and releasing *)

Lemma block_in_some m b x : m !! b = Some x → block_in m b = (dma x, take (Z.to_nat (bi_length x)) (addr x), more x).
Proof. intros E. unfold block_in. by rewrite E. Qed.
Lemma block_writes_in m b x ar lr :
  m !! b = Some x → 0 ≤ bi_length x ≤ Z.of_nat (length (addr x)) → (ar, lr) = regs →
  block_writes (block_in m b) = [(ar, u32 (dma x)); (lr, u32 (length_word x))].
Proof.
  intros E Hl Hreg. rewrite (block_in_some _ _ _ E). cbn. rewrite length_take, <-Hreg. unfold length_word. cbn.
  by replace (Z.of_nat (Nat.min (Z.to_nat (bi_length x)) (length (addr x)))) with (bi_length x) by lia.
Qed.
Lemma words_of_block m b x :
  m !! b = Some x → 0 ≤ bi_length x ≤ Z.of_nat (length (addr x)) → words_of [block_in m b] = bi_length x.
Proof. intros E Hl. rewrite (block_in_some _ _ _ E). unfold words_of. cbn. rewrite length_take. lia. Qed.

(** A block that is pushed while the queue is empty takes the first slot free. *)
Lemma push_spec m c b x :
  slots_ok c → m !! b = Some x → 0 ≤ bi_length x ≤ Z.of_nat (length (addr x)) → (addr_reg c, length_reg c) = regs →
  ∃ c', push_buffer_locked m c b = Ret (bool_decide (length (outstanding c) < 2)%nat, c') ∧
    (if bool_decide (length (outstanding c) < 2)%nat
     then slots_ok c' ∧ queue c' = queue c ∧ free c' = free c ∧ nwords c' = nwords c ∧ has_user c' = has_user c ∧ completed c' = completed c ∧
          (addr_reg c', length_reg c') = regs ∧ outstanding c' = outstanding c ++ [b] ∧ written c' = written c ++ block_writes (block_in m b)
     else c' = c).
Proof.
  intros [Hs1 Hs2] E Hl Hreg. unfold push_buffer_locked, at_buffer. rewrite E, (block_writes_in _ _ _ _ _ E Hl Hreg). cbn.
  destruct (current_buffer c) as [cu|] eqn:Ecu; [destruct (next_buffer c) as [nx|] eqn:Enx|].
  - rewrite bool_decide_false by (unfold outstanding; rewrite Ecu, Enx; simpl; lia). by eexists.
  - destruct (queue c) eqn:Eq; [|by destruct Hs1]. rewrite bool_decide_true by (unfold outstanding; rewrite Ecu, Enx, Eq; simpl; lia).
    eexists. split; [done|]. unfold slots_ok, outstanding. cbn. rewrite ?Ecu, Enx, Eq, <-!app_assoc. split_and!; done || (intros; by eexists).
  - destruct (next_buffer c) as [nx|] eqn:Enx; [by destruct Hs2|].
    destruct (queue c) eqn:Eq; [|by destruct Hs1]. rewrite bool_decide_true by (unfold outstanding; rewrite Ecu, Enx, Eq; simpl; lia).
    eexists. split; [done|]. unfold slots_ok, outstanding. cbn. rewrite ?Ecu, Enx, Eq, <-!app_assoc. split_and!; done || (intros; by eexists).
Qed.

Definition enqueue (c : block_channel) (b : nat) : block_channel := set_lists c (b :: queue c) (free c) (current_buffer c) (next_buffer c).
Lemma outstanding_enqueue c b : outstanding (enqueue c b) = outstanding c ++ [b].
Proof. unfold outstanding, enqueue. cbn. by rewrite <-!app_assoc. Qed.
Lemma enqueue_slots c b : slots_ok c → ¬ (length (outstanding c) < 2)%nat → slots_ok (enqueue c b).
Proof.
  intros [S1 S2] Hl. split; [|done]. intros _. cbn. destruct (next_buffer c) eqn:En; [done|]. destruct (queue c) eqn:Eq; [|by apply S1].
  destruct Hl. unfold outstanding. rewrite En, Eq. destruct (current_buffer c); simpl; lia.
Qed.

(** A filled buffer joins the stream at its end. *)
Lemma queue_buffer_spec m c s b x :
  implements m c s → completed c = false → (addr_reg c, length_reg c) = regs →
  m !! b = Some x → 0 ≤ bi_length x ≤ Z.of_nat (length (addr x)) →
  ∃ c', queue_buffer_locked m c b = Ret (c', 0) ∧ implements m c' (stream_step s (Accept (block_in m b))) ∧
    outstanding c' = outstanding c ++ [b] ∧ free c' = free c ∧ has_user c' = has_user c.
Proof.
  intros H1 Hc Hreg E Hl. pose proof (waiting_length _ _ _ H1) as Hwl. destruct H1 as [Hs Hb Hbl Hr Hw Hn _].
  unfold queue_buffer_locked, at_buffer. rewrite Hc, E. cbn [mbind outcome_bind].
  set (c1 := if more x then _ else _).
  assert (slots_ok c1 ∧ queue c1 = queue c ∧ free c1 = free c ∧ has_user c1 = has_user c ∧ (addr_reg c1, length_reg c1) = regs ∧ outstanding c1 = outstanding c ∧
    written c1 = written c ∧ current_buffer c1 = current_buffer c ∧ next_buffer c1 = next_buffer c ∧ nwords c1 = ulong (nwords c + bi_length x)) as (S1 & Q1 & F1 & U1 & R1 & O1 & W1 & C1 & N1 & L1).
  { unfold c1. destruct (more x); done. }
  clearbody c1. destruct (push_spec m c1 b x S1 E Hl R1) as (c2 & -> & H2). rewrite O1 in H2 |- *. rewrite Hwl in H2 |- *. cbn [mbind outcome_bind].
  set (c3 := match bool_decide _ with true => c2 | false => _ end).
  assert (slots_ok c3 ∧ outstanding c3 = outstanding c ++ [b] ∧ free c3 = free c ∧ has_user c3 = has_user c ∧ (addr_reg c3, length_reg c3) = regs ∧
    written c3 = written c ++ (if bool_decide (length (waiting s) < 2)%nat then block_writes (block_in m b) else []) ∧ nwords c3 = ulong (nwords c + bi_length x)) as (S3 & O3 & F3 & U3 & R3 & W3 & L3).
  { unfold c3. destruct (bool_decide (length (waiting s) < 2)%nat) eqn:Hlt.
    - destruct H2 as (? & ? & ? & ? & ? & ? & ? & O2 & W2). rewrite W2, W1. split_and!; congruence.
    - subst c2. cbn. fold (enqueue c1 b). rewrite outstanding_enqueue, O1, app_nil_r. split_and!; try done; try congruence.
      apply enqueue_slots; [done|]. rewrite O1, Hwl. exact (bool_decide_eq_false_1 _ Hlt). }
  clearbody c3. exists c3. split; [done|]. split; [|done]. split.
  - done.
  - rewrite O3. apply Forall_app. split; [done|]. constructor; [eauto|constructor].
  - rewrite O3, fmap_app, Hbl. unfold waiting. cbn. by rewrite drop_app_le by done.
  - cbn. rewrite length_app. lia.
  - rewrite W3, Hw. by rewrite told_accept.
  - rewrite L3, Hn. unfold waiting. cbn [stream_step released accepted]. rewrite drop_app_le by done. fold (waiting s).
    rewrite words_of_app, (words_of_block _ _ _ E Hl). unfold ulong. by rewrite wrap_add_l.
  - done.
Qed.

(** A block done with leaves, and the first of the queue takes its slot. *)
Lemma ready_moves m c s b n :
  implements m c s → current_buffer c = Some b → next_buffer c = Some n → (addr_reg c, length_reg c) = regs →
  ∃ c', isr_ready m c = Ret c' ∧ slots_ok c' ∧ outstanding c' = n :: rev (queue c) ∧ free c' = b :: free c ∧ has_user c' = has_user c ∧
    (addr_reg c', length_reg c') = regs ∧ nwords c' = ulong (nwords c - words_of [block_in m b]) ∧
    written c' = written c ++ concat (block_writes <$> (block_in m <$> take 1 (rev (queue c)))).
Proof.
  intros H1 Ecu Enx Hreg. destruct H1 as [Hs Hb Hbl _ _ _ _].
  assert (outstanding c = b :: n :: rev (queue c)) as Eo by (unfold outstanding; by rewrite Ecu, Enx).
  rewrite Eo in Hb. apply Forall_cons in Hb as [(xb & Eb & Hlb) Hb].
  unfold isr_ready, at_buffer. rewrite Ecu, Enx, Eb, (words_of_block _ _ _ Eb Hlb). cbn [mbind outcome_bind].
  cbn [queue set_lists set_nwords free_buffer_locked]. destruct (last (queue c)) as [b2|] eqn:El.
  - apply last_Some in El as [q Eq]. rewrite Eq in *. rewrite rev_unit in *. rewrite removelast_last.
    apply Forall_cons in Hb as [_ Hb]. apply Forall_cons in Hb as [(x2 & E2 & Hl2) _].
    unfold push_buffer_locked, at_buffer. cbn. rewrite E2. cbn. eexists. split; [done|]. unfold slots_ok, outstanding. cbn.
    rewrite (block_writes_in _ _ _ _ _ E2 Hl2 Hreg), <-!app_assoc. split_and!; done || by eexists.
  - apply last_None in El. rewrite El in *. eexists. split; [done|]. unfold slots_ok, outstanding. cbn. rewrite app_nil_r.
    split_and!; done || by eexists.
Qed.

Lemma two_slots c : slots_ok c → (2 ≤ length (outstanding c))%nat → current_buffer c ≠ None ∧ next_buffer c ≠ None.
Proof.
  intros [S1 S2] H2. unfold outstanding in H2. destruct (next_buffer c) as [n|].
  - destruct S2 as [b ->]; [by eexists|done].
  - destruct (queue c); [|by destruct S1]. destruct (current_buffer c); simpl in H2; lia.
Qed.
Lemma ready_implements m c s :
  implements m c s → (outstanding c ≠ [] → (addr_reg c, length_reg c) = regs) →
  ∃ c', isr_ready m c = Ret c' ∧ implements m c' (stream_step s Ready) ∧ places c' ≡ₚ places c ∧ has_user c' = has_user c.
Proof.
  intros H1 Hreg. pose proof (waiting_length _ _ _ H1) as Hwl.
  destruct (decide (2 ≤ length (waiting s))%nat) as [H2|H2].
  - destruct (current_buffer c) as [b|] eqn:Ecu, (next_buffer c) as [n|] eqn:Enx.
    2-4: by destruct (two_slots c (im_slots _ _ _ H1)); [lia|congruence].
    assert (outstanding c = b :: n :: rev (queue c)) as Eo by (unfold outstanding; by rewrite Ecu, Enx).
    destruct (ready_moves m c s b n) as (c' & -> & S' & O' & F' & U' & R' & N' & W'); [done..|by rewrite Eo in Hreg; apply Hreg|].
    exists c'. destruct (told_ready _ H2) as [Ht Hw]. destruct H1 as [Hs Hb Hbl Hr Hwr Hn _]. rewrite Eo in *. split_and!; try done.
    + split; try done.
      * rewrite O'. by apply Forall_cons in Hb as [_ ?].
      * rewrite O', Hw, <-Hbl. done.
      * cbn. case_bool_decide; cbn; lia.
      * rewrite W', Hwr, Ht, <-Hbl, fmap_take. done.
      * rewrite N', Hn, Hw, <-Hbl. rewrite fmap_cons. cbn [drop]. rewrite (words_of_cons (block_in m b)). unfold ulong.
        rewrite <-Z.add_opp_r, wrap_add_l. f_equal. rewrite drop_0. lia.
    + unfold places. rewrite O', F', Eo. by rewrite <-Permutation_middle.
  - rewrite (ready_nothing _ H2) by apply H1. exists c. split_and!; try done.
    unfold isr_ready. destruct (im_slots _ _ _ H1) as [S1 S2].
    assert (next_buffer c = None ∧ queue c = []) as [Enx Eq]; [|rewrite Enx; destruct (current_buffer c); cbn; by rewrite Eq].
    destruct (next_buffer c) eqn:Enx.
    + exfalso. destruct S2 as [? Ecu]; [done|]. apply H2. rewrite <-Hwl. unfold outstanding. rewrite Ecu, Enx. simpl. lia.
    + split; [done|]. destruct (queue c); [done|]. by destruct S1.
Qed.
End spec.

(** ** The whole driver *)

Section driver.
Context (pcap_length : Z) (regs : nat → Z * Z).

(** Each channel is always configured with the same registers, and no length of a
    request overflows. *)
Definition event_ok (e : event) : Prop :=
  match e with
  | Config _ _ (Some bk) => 0 ≤ order bk < 20 ∧ 0 ≤ dma_channel bk ∧ (block_base bk, block_length bk) = regs (Z.to_nat (dma_channel bk))
  | Send _ _ (Some rq) => 0 ≤ rq_length rq ∧ rq_length rq * 4 < 2 ^ long_bits
  | _ => True
  end.

(** What an event does to the stream of a channel: a block is accepted when its request
    returns, an interrupt says what the FPGA has done, and the channel starts again when
    it is reset and when it gets or loses its user. *)
Definition on_channel (d : driver) (o i : nat) : bool :=
  match opens d !! o with Some x => bool_decide (channel x = Some i) | None => false end.
Definition user_of (d : driver) (i : nat) : bool := match block_channels d !! i with Some c => has_user c | None => false end.
Definition action_of (d : driver) (e : event) (d' : driver) (rc : option Z) (i : nat) : option action :=
  match e with
  | Interrupt status =>
      if Z.testbit (Z.shiftr status 16) (Z.of_nat i) then Some Completed
      else if Z.testbit (Z.land status 65535) (Z.of_nat i) then Some Ready else None
  | Continue t _ =>
      match calls d !! t, rc with
      | Some (Sending o rq b), Some 0 =>
          if on_channel d o i then Some (Accept (default 0 (dma <$> bufs d !! b), take (Z.to_nat (rq_length rq)) (rq_data rq), rq_more rq)) else None
      | _, _ => None
      end
  | Send t o (Some rq) => if bool_decide (rc = Some 0) && on_channel d o i then Some Reset else None
  | Config _ _ _ | Release _ => if eqb (user_of d i) (user_of d' i) then None else Some Reset
  | _ => None
  end.
Definition stream_next (s : stream) (i : nat) (a : option action) : stream := match a with Some a => stream_step (regs i) s a | None => s end.
Fixpoint streams (st : nat → stream) (d : driver) (events : list event) : nat → stream :=
  match events with
  | [] => st
  | e :: events =>
      match step pcap_length d e with
      | Ret (d', rc) => streams (λ i, stream_next (st i) i (action_of d e d' rc i)) d' events
      | _ => st
      end
  end.
Definition no_stream : stream := mk_stream [] [] 0.

(** *** The invariant *)

Abbreviation opens_map := (gmap nat block_open).
Record channel_ok (m : buffers_map) (ops : opens_map) (i : nat) (c : block_channel) (s : stream) (owner : option nat) : Prop := {
  ok_stream : implements (regs i) m c s;
  ok_apart : NoDup (places c);
  ok_buffers b : b ∈ places c → ∃ x o op, m !! b = Some x ∧ bi_channel x = i ∧ owner = Some o ∧ ops !! o = Some op ∧ configured op = true ∧
    4 * Z.of_nat (length (addr x)) = block_size op;
  ok_user : is_Some owner → has_user c = true;
}.
Definition call_ok (d : driver) (owner : gmap nat nat) (a : activity) : Prop :=
  match a with
  | Allocating o => ∃ op i, opens d !! o = Some op ∧ configured op = false ∧ channel op = Some i ∧ owner !! i = Some o
  | Sending o rq b => ∃ op i x c, opens d !! o = Some op ∧ configured op = true ∧ channel op = Some i ∧ owner !! i = Some o ∧
      bufs d !! b = Some x ∧ bi_channel x = i ∧ 4 * Z.of_nat (length (addr x)) = block_size op ∧
      block_channels d !! i = Some c ∧ b ∉ places c ∧ 0 ≤ rq_length rq ∧ rq_length rq * 4 ≤ block_size op ∧ rq_length rq * 4 < 2 ^ long_bits
  end.
Record inv (d : driver) (st : nat → stream) (owner : gmap nat nat) : Prop := {
  inv_count : length (block_channels d) = BLOCK_CHANNEL_COUNT;
  inv_channels i c : block_channels d !! i = Some c → channel_ok (bufs d) (opens d) i c (st i) (owner !! i);
  inv_owner i o : owner !! i = Some o → ∃ x, opens d !! o = Some x ∧ channel x = Some i ∧ (configured x = true ∨ ∃ t, calls d !! t = Some (Allocating o));
  inv_configured o x : opens d !! o = Some x → configured x = true → ∃ i, channel x = Some i ∧ owner !! i = Some o ∧ is_Some (block_channels d !! i);
  inv_range o x i : opens d !! o = Some x → channel x = Some i → is_Some (block_channels d !! i);
  inv_calls t a : calls d !! t = Some a → call_ok d owner a;
  inv_lock t t' o : calls d !! t = Some (Allocating o) → calls d !! t' = Some (Allocating o) → t = t';
  inv_taken t t' o o' rq rq' b : calls d !! t = Some (Sending o rq b) → calls d !! t' = Some (Sending o' rq' b) → t = t';
}.

Lemma implements_frame r m m' c s : (∀ b, b ∈ outstanding c → m' !! b = m !! b) → implements r m c s → implements r m' c s.
Proof.
  intros Hm [Hs Hb Hbl Hr Hw Hn Hreg]. split; try done.
  - rewrite Forall_forall in Hb |- *. intros b Hin. rewrite (Hm b Hin). by apply Hb.
  - rewrite <-Hbl. apply list_fmap_ext. intros k b Hk. unfold block_in. rewrite Hm; [done|]. by eapply list_elem_of_lookup_2.
Qed.
Lemma outstanding_place c b : b ∈ outstanding c → b ∈ places c.
Proof. unfold places. intros. apply elem_of_app. by left. Qed.
Lemma channel_ok_frame m m' ops ops' i c s own :
  (∀ b, b ∈ places c → m' !! b = m !! b) → (∀ o op, own = Some o → ops !! o = Some op → configured op = true → ops' !! o = Some op) →
  channel_ok m ops i c s own → channel_ok m' ops' i c s own.
Proof.
  intros Hm Ho [Hs Ha Hb Hu]. split; try done.
  - eapply implements_frame; [|done]. intros b Hin. by apply Hm, outstanding_place.
  - intros b Hin. destruct (Hb b Hin) as (x & o & op & E & ? & -> & Eo & ? & ?). exists x, o, op. rewrite (Hm b Hin). split_and!; try done. by eapply Ho.
Qed.
(** The user of a channel that holds buffers. *)
Lemma holding_regs m ops i c s own : channel_ok m ops i c s own → outstanding c ≠ [] → (addr_reg c, length_reg c) = regs i.
Proof.
  intros [Hs _ Hb Hu] Ho. destruct (outstanding c) as [|b l] eqn:E; [done|]. apply (im_regs _ _ _ _ Hs), Hu.
  destruct (Hb b) as (x & o & op & _ & _ & -> & _); [|by eexists]. apply outstanding_place. rewrite E. by left.
Qed.
Lemma channel_moved m ops i c c' s s' own :
  channel_ok m ops i c s own → implements (regs i) m c' s' → places c' ≡ₚ places c → has_user c' = has_user c → channel_ok m ops i c' s' own.
Proof.
  intros [Hs Ha Hb Hu] Hs' Hp Hu'. split; [done|by rewrite Hp| |by rewrite Hu'].
  intros b Hin. apply Hb. by rewrite <-Hp.
Qed.

(** *** Interrupts *)

Lemma isr_loop_spec m status l (P : nat → block_channel → block_channel → Prop) i :
  (∀ k c, l !! k = Some c → ∃ c', isr_channel m status (i + k) c = Ret c' ∧ P (i + k)%nat c c') →
  ∃ l', isr_loop m status i l = Ret l' ∧ length l' = length l ∧ ∀ k c', l' !! k = Some c' → ∃ c, l !! k = Some c ∧ P (i + k)%nat c c'.
Proof.
  revert i. induction l as [|c l IH]; intros i Hl; [by exists []|]. cbn [isr_loop].
  destruct (Hl 0%nat c eq_refl) as (c' & E & Hp). rewrite Nat.add_0_r in *. rewrite E. cbn [mbind outcome_bind].
  destruct (IH (S i)) as (l' & -> & Hlen & Hl').
  { intros k x Hk. replace (S i + k)%nat with (i + S k)%nat by lia. by apply Hl. }
  exists (c' :: l'). split; [done|]. split; [simpl; lia|]. intros [|k] x Hk.
  - injection Hk as <-. exists c. by rewrite Nat.add_0_r.
  - replace (i + S k)%nat with (S i + k)%nat by lia. by apply Hl'.
Qed.
Lemma isr_channel_spec m ops status i c s own :
  channel_ok m ops i c s own →
  ∃ c', isr_channel m status i c = Ret c' ∧ places c' ≡ₚ places c ∧
    channel_ok m ops i c' (stream_next s i (if Z.testbit (Z.shiftr status 16) (Z.of_nat i) then Some Completed
                                            else if Z.testbit (Z.land status 65535) (Z.of_nat i) then Some Ready else None)) own.
Proof.
  intros Hc. unfold isr_channel. destruct (Z.testbit (Z.shiftr status 16) _); [|destruct (Z.testbit (Z.land status 65535) _)].
  - eexists. split; [done|]. assert (places (block_channel_free_buffers_locked (set_completed c true)) ≡ₚ places c) as Hp by (exact (freed_places (set_completed c true))).
    split; [done|]. eapply channel_moved; [done| |done|by rewrite free_buffers_spec]. apply completed_implements, Hc.
  - destruct (ready_implements (regs i) m c s) as (c' & E & Hs & Hp & Hu); [apply Hc|by eapply holding_regs|].
    exists c'. split_and!; try done. by eapply channel_moved.
  - by exists c.
Qed.

Lemma call_ok_channels d d' owner a :
  opens d' = opens d → bufs d' = bufs d →
  (∀ i c, block_channels d !! i = Some c →
    ∃ c', block_channels d' !! i = Some c' ∧ ∀ o rq b, a = Sending o rq b → b ∈ places c' → b ∈ places c) →
  call_ok d owner a → call_ok d' owner a.
Proof.
  intros Eo Eb Hc. destruct a as [o|o rq b]; cbn; rewrite ?Eo, ?Eb; [done|].
  intros (op & i & x & c & ? & ? & ? & ? & ? & ? & ? & Ec & Hb & ? & ? & ?). destruct (Hc i c Ec) as (c' & Ec' & Hp).
  exists op, i, x, c'. split_and!; try done. intros Hb'. by apply Hb, (Hp o rq b).
Qed.

Lemma interrupt_kept d st owner status :
  inv d st owner → ∃ d', block_isr d status = Ret d' ∧ inv d' (λ i, stream_next (st i) i (action_of d (Interrupt status) d' None i)) owner.
Proof.
  intros [Hn Hc Ho Hf Hr Hk Hl Ht]. unfold block_isr.
  destruct (isr_loop_spec (bufs d) status (block_channels d) (λ i c c', places c' ≡ₚ places c ∧
    channel_ok (bufs d) (opens d) i c' (stream_next (st i) i (action_of d (Interrupt status) d None i)) (owner !! i)) 0) as (l' & -> & Hlen & Hl').
  { intros k c Ek. destruct (isr_channel_spec (bufs d) (opens d) status k c (st k) (owner !! k) (Hc _ _ Ek)) as (c' & E & Hp & Hc'). by exists c'. }
  cbn [mbind outcome_bind Nat.add] in *. eexists. split; [done|].
  assert (∀ i, is_Some (block_channels d !! i) → is_Some (l' !! i)) as Hi.
  { intros i. rewrite !lookup_lt_is_Some. lia. }
  split; cbn; try done.
  - lia.
  - intros i c' E. by destruct (Hl' i c' E) as (c & _ & _ & ?).
  - intros o x Hx Hcf. destruct (Hf o x Hx Hcf) as (i & ? & ? & ?). eauto.
  - eauto.
  - intros t a Ha. eapply call_ok_channels; [| | |by eapply Hk]; [done..|]. cbn. intros i c E.
    destruct (Hi i) as [c' E']; [by eexists|]. exists c'. split; [done|]. destruct (Hl' i c' E') as (c2 & E2 & Hp & _). simplify_eq. intros ? ? b _. by rewrite Hp.
Qed.

(** *** Files and their configuration *)

Lemma inv_ext d st st' owner : inv d st owner → (∀ i, st' i = st i) → inv d st' owner.
Proof. intros [Hn Hc Ho Hf Hr Hk Hl Ht] E. split; try done. intros i c Hi. rewrite E. by apply Hc. Qed.
Lemma inv_set_channel d st st' owner i c c' :
  inv d st owner → block_channels d !! i = Some c → channel_ok (bufs d) (opens d) i c' (st' i) (owner !! i) → (∀ j, j ≠ i → st' j = st j) →
  (∀ t o rq b, calls d !! t = Some (Sending o rq b) → b ∈ places c' → b ∈ places c) → inv (set_channel d i c') st' owner.
Proof.
  intros [Hn Hc Ho Hf Hr Hk Hl Ht] Ei Hc' Hst Hp.
  assert (∀ j, is_Some (block_channels d !! j) → is_Some (<[i := c']> (block_channels d) !! j)) as Hi.
  { intros j. rewrite !lookup_lt_is_Some, length_insert. done. }
  split; cbn; try done.
  - by rewrite length_insert.
  - intros j cj [(<- & -> & _)|[Hj E]]%list_lookup_insert_Some; [done|]. rewrite Hst by done. by apply Hc.
  - intros o x Hx Hcf. destruct (Hf o x Hx Hcf) as (j & ? & ? & ?). eauto.
  - eauto.
  - intros t a Ha. refine (call_ok_channels d (set_channel d i c') _ _ eq_refl eq_refl _ (Hk _ _ Ha)). cbn. intros j cj Ej. destruct (decide (i = j)) as [<-|Hj].
    + exists c'. rewrite list_lookup_insert_eq by (by eapply lookup_lt_Some). split; [done|]. replace cj with c by congruence. intros o rq b ->. by eapply Hp.
    + exists cj. by rewrite list_lookup_insert_ne.
Qed.
Lemma call_ok_set_open d o x owner a :
  (∀ i, owner !! i ≠ Some o) → call_ok d owner a → call_ok (set_open d o x) owner a.
Proof.
  intros Hno. destruct a as [o'|o' rq b]; cbn.
  - intros (op & i & ? & ? & ? & Eo). exists op, i. rewrite lookup_insert_ne by (intros <-; by eapply Hno). done.
  - intros (op & i & y & c & ? & ? & ? & Eo & ?). exists op, i, y, c. rewrite lookup_insert_ne by (intros <-; by eapply Hno). done.
Qed.
Lemma inv_set_open d st owner o x :
  inv d st owner → (∀ i, owner !! i ≠ Some o) → configured x = false → (∀ i, channel x = Some i → is_Some (block_channels d !! i)) →
  inv (set_open d o x) st owner.
Proof.
  intros [Hn Hc Ho Hf Hr Hk Hl Ht] Hno Hx Hi. split; cbn; try done.
  - intros i c E. eapply channel_ok_frame; [done| |by apply Hc]. intros o' op E' Eo _. by rewrite lookup_insert_ne by (intros <-; by eapply Hno).
  - intros i o' E. destruct (Ho i o' E) as (y & ? & ?). exists y. by rewrite lookup_insert_ne by (intros <-; by eapply Hno).
  - intros o' y [[<- <-]|[? E]]%lookup_insert_Some Hcf; [congruence|eauto].
  - intros o' y i [[<- <-]|[? E]]%lookup_insert_Some Hy; eauto.
  - intros t a Ha. apply call_ok_set_open; [done|by eapply Hk].
Qed.
Lemma new_file_not_owner d st owner o : inv d st owner → opens d !! o = None → ∀ i, owner !! i ≠ Some o.
Proof. intros Hi E i Ei. destruct (inv_owner _ _ _ Hi i o Ei) as (x & ? & _). congruence. Qed.
Lemma unconfigured_not_owner d st owner o x :
  inv d st owner → opens d !! o = Some x → configured x = false → locked d o = false → ∀ i, owner !! i ≠ Some o.
Proof.
  intros Hi E Hx Hl i Ei. destruct (inv_owner _ _ _ Hi i o Ei) as (y & ? & _ & [?|[t Et]]); [congruence|].
  apply (bool_decide_eq_false_1 _ Hl). exists t, (Allocating o). done.
Qed.

Lemma unused_empty m ops i c s : channel_ok m ops i c s None → places c = [].
Proof. intros [_ _ Hb _]. destruct (places c) as [|b l]; [done|]. destruct (Hb b) as (x & o & op & _ & _ & ? & _); [by left|done]. Qed.
Lemma size_of_order_ok order : 0 ≤ order < 20 → size_of_order order = Ret (2 ^ (order + PAGE_SHIFT)).
Proof.
  intros Ho. unfold size_of_order, in_range, PAGE_SHIFT. rewrite wrap_small by lia. by rewrite bool_decide_true by lia.
Qed.
Lemma set_registers_same c a l : (addr_reg c, length_reg c) = (a, l) → set_registers c a l = c.
Proof. intros [= <- <-]. by destruct c. Qed.
Lemma set_channel_same d i c : block_channels d !! i = Some c → set_channel d i c = d.
Proof. intros E. unfold set_channel. rewrite list_insert_id by done. by destruct d. Qed.
Lemma user_of_at d i c : block_channels d !! i = Some c → user_of d i = has_user c.
Proof. intros E. unfold user_of. by rewrite E. Qed.

Lemma outstanding_reset c : outstanding (reset_dma_locked c) = [].
Proof. unfold reset_dma_locked. by rewrite free_buffers_spec. Qed.
Lemma reset_places c : places (reset_dma_locked c) ≡ₚ places c.
Proof. exact (freed_places (writel c 0 (length_reg c))). Qed.
Lemma reset_user c : has_user (reset_dma_locked c) = has_user c.
Proof. unfold reset_dma_locked. by rewrite free_buffers_spec. Qed.

(** The channel of a file that has just taken it. *)
Lemma taken_channel_ok m ops ops' i c s o :
  channel_ok m ops i c s None → 
  channel_ok m ops' i (set_user (reset_dma_locked (set_registers c (regs i).1 (regs i).2)) true) (stream_step (regs i) s Reset) (Some o) ∧
  places (set_user (reset_dma_locked (set_registers c (regs i).1 (regs i).2)) true) = [].
Proof.
  intros Hc. pose proof (unused_empty _ _ _ _ _ Hc) as Hp. set (c1 := set_registers c _ _).
  assert (places (set_user (reset_dma_locked c1) true) = []) as Hp1.
  { pose proof (reset_places c1) as Hr. change (places c1) with (places c) in Hr. rewrite Hp in Hr. by apply Permutation_nil_r in Hr. }
  split; [|done]. split; [|by rewrite Hp1; constructor|rewrite Hp1; by intros b ?%elem_of_nil|done].
  apply set_user_implements.
  - apply reset_implements; [|cbn; by destruct (regs i)]. destruct Hc as [[] _ _ _]. split; try done. by destruct (regs i).
  - intros _. unfold reset_dma_locked. rewrite free_buffers_spec. cbn. by destruct (regs i).
Qed.

Definition next_streams (st : nat → stream) (d : driver) (e : event) (d' : driver) (rc : option Z) (i : nat) : stream :=
  stream_next (st i) i (action_of d e d' rc i).
Definition kept (d : driver) (st : nat → stream) (e : event) (o : outcome (driver * option Z)) : Prop :=
  ∃ d' rc owner', o = Ret (d', rc) ∧ inv d' (next_streams st d e d' rc) owner'.
Lemma kept_ret d st e d' rc owner' st' : inv d' st' owner' → (∀ i, next_streams st d e d' rc i = st' i) → kept d st e (Ret (d', rc)).
Proof. intros Hi E. exists d', rc, owner'. split; [done|]. by eapply inv_ext. Qed.
(** The channel does not start again. *)
Definition changes_user (e : event) : Prop := match e with Config _ _ _ | Release _ => True | _ => False end.
Lemma same_users st d e d' rc i : changes_user e → user_of d' i = user_of d i → next_streams st d e d' rc i = st i.
Proof. intros He E. unfold next_streams. destruct e; try done; cbn; by rewrite E, eqb_reflx. Qed.
Lemma new_user st d e d' rc i : changes_user e → user_of d' i ≠ user_of d i → next_streams st d e d' rc i = stream_step (regs i) (st i) Reset.
Proof. intros He E. unfold next_streams. destruct e; try done; cbn; destruct (user_of d i), (user_of d' i); done. Qed.
Lemma user_of_set d i j c : i ≠ j → user_of (set_channel d i c) j = user_of d j.
Proof. intros. unfold user_of. cbn. by rewrite list_lookup_insert_ne. Qed.
Lemma user_of_set_eq d i c c0 : block_channels d !! i = Some c0 → user_of (set_channel d i c) i = has_user c.
Proof. intros E. unfold user_of. cbn. by rewrite list_lookup_insert_eq by (by eapply lookup_lt_Some). Qed.

(** A file takes a channel that nothing uses, as the call [t]. *)
Lemma inv_takes d st st' owner o x i c t :
  inv d st owner → (∀ j, owner !! j ≠ Some o) → configured x = false → channel x = Some i → block_channels d !! i = Some c → has_user c = false →
  calls d !! t = None → locked d o = false →
  st' i = stream_step (regs i) (st i) Reset → (∀ j, j ≠ i → st' j = st j) →
  inv (set_calls (set_channel (set_open d o x) i (set_user (reset_dma_locked (set_registers c (regs i).1 (regs i).2)) true)) (<[t := Allocating o]> (calls d)))
    st' (<[i := o]> owner).
Proof.
  intros Hi Hno Hx Hxi Ei Hu Ht0 Hl0 Hsi Hst.
  assert (owner !! i = None) as Hoi.
  { destruct (owner !! i) eqn:E; [|done]. pose proof (inv_channels _ _ _ Hi i c Ei) as Hc. rewrite E in Hc. by rewrite (ok_user _ _ _ _ _ _ Hc) in Hu by (by eexists). }
  pose proof (inv_channels _ _ _ Hi i c Ei) as Hci. rewrite Hoi in Hci.
  destruct (taken_channel_ok _ _ (<[o := x]> (opens d)) _ _ _ o Hci) as [Hc' Hp'].
  pose proof (inv_set_open d st owner o x Hi Hno Hx ltac:(intros j Ej; simplify_eq; by eexists)) as Hi1.
  set (c' := set_user _ true) in *. destruct Hi1 as [Hn Hc Ho Hf Hr Hk Hl Ht]. cbn in *.
  split; cbn.
  - by rewrite length_insert.
  - intros j cj [(<- & -> & _)|[Hj E]]%list_lookup_insert_Some; [by rewrite lookup_insert_eq, Hsi|].
    rewrite lookup_insert_ne, Hst by done. by apply Hc.
  - intros j o' [[<- <-]|[Hj E]]%lookup_insert_Some.
    + exists x. rewrite lookup_insert_eq. split_and!; [done..|]. right. exists t. by rewrite lookup_insert_eq.
    + destruct (Ho j o' E) as (y & ? & ? & Hy). exists y. split_and!; [done..|]. destruct Hy as [?|[t' Et]]; [by left|]. right. exists t'.
      rewrite lookup_insert_ne; [done|]. intros <-. congruence.
  - intros o' y Ey Hcf. destruct (Hf o' y Ey Hcf) as (j & Hj & Ej & Hs). assert (i ≠ j) by (intros <-; congruence). exists j.
    rewrite lookup_insert_ne, list_lookup_insert_ne by done. done.
  - intros o' y j Ey Hj. rewrite lookup_lt_is_Some, length_insert, <-lookup_lt_is_Some. by eapply Hr.
  - intros t' a [[<- <-]|[Ht' Ea]]%lookup_insert_Some.
    + exists x, i. cbn. by rewrite !lookup_insert_eq.
    + specialize (Hk t' a Ea). destruct a as [o'|o' rq b]; cbn in Hk |- *.
      * destruct Hk as (op & j & ? & ? & ? & Ej). assert (i ≠ j) by (intros <-; congruence). exists op, j. by rewrite (lookup_insert_ne owner).
      * destruct Hk as (op & j & y & cj & ? & ? & ? & Ej & ? & ? & ? & ? & ?). assert (i ≠ j) by (intros <-; congruence). exists op, j, y, cj.
        by rewrite (lookup_insert_ne owner), list_lookup_insert_ne.
  - assert (∀ t', calls d !! t' ≠ Some (Allocating o)) as Hno'.
    { intros t' Et'. apply (bool_decide_eq_false_1 _ Hl0). by exists t', (Allocating o). }
    intros t1 t2 o' [[<- E1]|[? E1]]%lookup_insert_Some [[<- E2]|[? E2]]%lookup_insert_Some; try done; [| |by eapply Hl]; exfalso; simplify_eq; by eapply Hno'.
  - intros t1 t2 o1 o2 rq rq' b [[<- E1]|[? E1]]%lookup_insert_Some [[<- E2]|[? E2]]%lookup_insert_Some; try done. by eapply Ht.
Qed.

Lemma config_kept d st owner t o x arg :
  inv d st owner → opens d !! o = Some x → calls d !! t = None → locked d o = false → event_ok (Config t o arg) →
  kept d st (Config t o arg) (config_block pcap_length d t o x arg).
Proof.
  intros Hi Ex Et Hl He. unfold config_block.
  assert (∀ d' rc, user_of d' = user_of d → ∀ i, next_streams st d (Config t o arg) d' rc i = st i) as Hsame.
  { intros d' rc E i. apply same_users; [done|by rewrite E]. }
  destruct (configured x) eqn:Hx; [by eapply kept_ret; [exact Hi|apply Hsame]|].
  destruct arg as [bk|]; [|by eapply kept_ret; [exact Hi|apply Hsame]].
  pose proof (unconfigured_not_owner _ _ _ _ _ Hi Ex Hx Hl) as Hno.
  assert (inv (set_open d o (mk_open (block_size x) bk (channel x) false)) st owner) as Hopen.
  { apply inv_set_open; [done..|]. cbn. intros i Ei. by eapply inv_range. }
  destruct (negb _); [by eapply kept_ret; [exact Hopen|apply Hsame]|].
  destruct (bool_decide (dma_channel bk < _)) eqn:Hch; cbn [negb]; [|by eapply kept_ret; [exact Hopen|apply Hsame]].
  apply bool_decide_eq_true in Hch. destruct (negb _); [by eapply kept_ret; [exact Hopen|apply Hsame]|].
  destruct He as (Hor & Hdma & Hregs). rewrite (size_of_order_ok _ Hor). cbn [mbind outcome_bind].
  set (i := Z.to_nat (dma_channel bk)) in *.
  destruct (lookup_lt_is_Some_2 (block_channels d) i) as [c Ec]; [rewrite (inv_count _ _ _ Hi); unfold i; lia|].
  unfold at_channel. rewrite Ec. cbn [mbind outcome_bind]. pose proof (inv_channels _ _ _ Hi i c Ec) as Hc.
  replace (block_base bk) with (regs i).1 by (by rewrite <-Hregs). replace (block_length bk) with (regs i).2 by (by rewrite <-Hregs).
  set (x' := mk_open _ bk (Some i) false). assert (inv (set_open d o x') st owner) as Hopen'.
  { apply inv_set_open; [done..|]. cbn. intros j [= <-]. by eexists. }
  cbn [has_user set_registers]. destruct (has_user c) eqn:Hu.
  - assert (set_registers c (regs i).1 (regs i).2 = c) as ->.
    { apply set_registers_same. rewrite (im_regs _ _ _ _ (ok_stream _ _ _ _ _ _ Hc) Hu). by destruct (regs i). }
    rewrite (set_channel_same (set_open d o x') i c Ec). by eapply kept_ret; [exact Hopen'|apply Hsame].
  - eapply kept_ret; [|done]. apply (inv_takes d st _ owner o x' i c t); try done.
    + apply new_user; [done|]. rewrite (user_of_at d i c Ec), Hu. unfold set_calls, user_of. cbn.
      by rewrite list_lookup_insert_eq by (by eapply lookup_lt_Some).
    + intros j Hj. apply same_users; [done|]. unfold user_of. cbn. by rewrite list_lookup_insert_ne.
Qed.

(** *** The allocation of the buffers *)

Lemma allocate_loop_spec size n i answers fl m fl' m' :
  allocate_loop n i answers fl m = Some (fl', m') → NoDup (answer_numbers answers) → Forall (λ k, k = size) (answer_sizes answers) →
  ∃ new, fl' = new ++ fl ∧ NoDup new ∧
    (∀ b, b ∈ new → b ∈ answer_numbers answers ∧ ∃ memory address, m' !! b = Some (mk_buffer i memory address 0 false) ∧ 4 * Z.of_nat (length memory) = size) ∧
    ∀ b, b ∉ new → m' !! b = m !! b.
Proof.
  revert answers fl m. induction n as [|n IH]; intros answers fl m E Hnd Hsz.
  { injection E as <- <-. exists []. split_and!; [done|constructor|by intros b ?%elem_of_nil|done]. }
  destruct answers as [|[[[b memory] address]|] answers]; try done. cbn [allocate_loop] in E.
  unfold answer_numbers, answer_sizes in Hnd, Hsz. cbn in Hnd, Hsz. apply NoDup_cons in Hnd as [Hb Hnd]. apply Forall_cons in Hsz as [Hsb Hsz].
  destruct (IH _ _ _ E Hnd Hsz) as (new & -> & Hnew & Hin & Hout). exists (new ++ [b]).
  assert (b ∉ new) as Hbn by (intros Hbn; by apply Hb, Hin). split_and!.
  - by rewrite <-app_assoc.
  - apply NoDup_app. split_and!; [done| |apply NoDup_singleton]. intros b' Hb' ->%list_elem_of_singleton. done.
  - intros b' [Hb'| ->%list_elem_of_singleton]%elem_of_app.
    + destruct (Hin b' Hb') as [? ?]. split; [by right|done].
    + split; [by left|]. exists memory, address. by rewrite Hout, lookup_insert_eq.
  - intros b' [Hb' Hb2]%not_elem_of_app. rewrite Hout by done. apply lookup_insert_ne. intros <-. apply Hb2. by left.
Qed.

Lemma unconfigured_empty m ops i c s o x : channel_ok m ops i c s (Some o) → ops !! o = Some x → configured x = false → places c = [].
Proof.
  intros [_ _ Hb _] Ex Hx. destruct (places c) as [|b l]; [done|]. destruct (Hb b) as (y & o' & op & _ & _ & ? & ? & ? & _); [by left|]. simplify_eq. congruence.
Qed.
Lemma empty_stream r m c s : implements r m c s → places c = [] → queue c = [] ∧ free c = [] ∧ current_buffer c = None ∧ next_buffer c = None.
Proof. intros _ [Ho Hf]%app_eq_nil. apply outstanding_nil in Ho as (? & ? & ?). done. Qed.

(** The call that allocated ends: [d'] without it. *)
Lemma owner_unique d st owner i j o x : inv d st owner → opens d !! o = Some x → channel x = Some i → owner !! j = Some o → j = i.
Proof. intros Hi Ex Hx Ej. destruct (inv_owner _ _ _ Hi j o Ej) as (y & ? & ? & _). congruence. Qed.

(** Without memory the channel keeps its user, which nobody is. *)
Lemma inv_abandoned d st owner t o x i :
  inv d st owner → calls d !! t = Some (Allocating o) → opens d !! o = Some x → configured x = false → channel x = Some i → owner !! i = Some o →
  inv (set_calls d (delete t (calls d))) st (delete i owner).
Proof.
  intros Hi Et Ex Hx Hxi Hoi. pose proof (λ j, owner_unique d st owner i j o x Hi Ex Hxi) as Hj. destruct Hi as [Hn Hc Ho Hf Hr Hk Hl Ht]. split; cbn; try done.
  - intros j c E. pose proof (Hc j c E) as Hcj. destruct (decide (i = j)) as [<-|Hne]; [|by rewrite lookup_delete_ne].
    rewrite lookup_delete_eq. rewrite Hoi in Hcj. pose proof (unconfigured_empty _ _ _ _ _ _ _ Hcj Ex Hx) as Hp. destruct Hcj as [Hs Ha _ _].
    split; [done|done|rewrite Hp; by intros b ?%elem_of_nil|by intros []].
  - intros j o' [Hne E]%lookup_delete_Some. destruct (Ho j o' E) as (y & ? & ? & Hy). exists y. split_and!; try done.
    destruct Hy as [?|[t' Et']]; [by left|right]. exists t'. rewrite lookup_delete_ne; [done|]. intros <-. apply Hne. symmetry. apply Hj. congruence.
  - intros o' y Ey Hcf. destruct (Hf o' y Ey Hcf) as (j & Hyj & Ej & ?). exists j. rewrite lookup_delete_ne; [done|]. intros <-. congruence.
  - intros t' a [Hne Ea]%lookup_delete_Some. specialize (Hk t' a Ea). destruct a as [o'|o' rq b]; cbn in Hk |- *.
    + destruct Hk as (op & j & ? & ? & ? & Ej). exists op, j. rewrite lookup_delete_ne; [done|]. intros <-. apply Hne. eapply Hl; [done|]. congruence.
    + destruct Hk as (op & j & y & c & Eop & Hop & ? & Ej & ?). exists op, j, y, c. rewrite lookup_delete_ne; [done|]. intros <-. simplify_eq. congruence.
  - intros t1 t2 o' [_ E1]%lookup_delete_Some [_ E2]%lookup_delete_Some. by eapply Hl.
  - intros t1 t2 o1 o2 rq rq' b [_ E1]%lookup_delete_Some [_ E2]%lookup_delete_Some. by eapply Ht.
Qed.

(** With memory all of it is free. *)
Lemma inv_allocated d st owner t o x x' i c c' m' new :
  inv d st owner → calls d !! t = Some (Allocating o) → opens d !! o = Some x → configured x = false → channel x = Some i → owner !! i = Some o →
  block_channels d !! i = Some c → configured x' = true → channel x' = Some i → c' = set_lists c (queue c) (new ++ free c) (current_buffer c) (next_buffer c) →
  NoDup new → (∀ b, b ∈ new → bufs d !! b = None ∧ ∃ y, m' !! b = Some y ∧ bi_channel y = i ∧ 4 * Z.of_nat (length (addr y)) = block_size x') →
  (∀ b, b ∉ new → m' !! b = bufs d !! b) →
  inv (set_open (set_bufs (set_channel (set_calls d (delete t (calls d))) i c') m') o x') st owner.
Proof.
  intros Hi Et Ex Hx Hxi Hoi Ec Hx' Hxi' -> Hnew Hin Hout. pose proof (λ j, owner_unique d st owner i j o x Hi Ex Hxi) as Hj.
  destruct Hi as [Hn Hc Ho Hf Hr Hk Hl Ht].
  assert (∀ b y, bufs d !! b = Some y → m' !! b = Some y) as Hold.
  { intros b y E. rewrite Hout; [done|]. intros Hb%Hin. destruct Hb. congruence. }
  pose proof (Hc i c Ec) as Hci. rewrite Hoi in Hci. pose proof (unconfigured_empty _ _ _ _ _ _ _ Hci Ex Hx) as Hp.
  set (c' := set_lists _ _ _ _ _). assert (places c' = new) as Hp'.
  { unfold places in Hp |- *. apply app_eq_nil in Hp as [Hp1 Hp2]. change (outstanding c') with (outstanding c). rewrite Hp1. cbn. by rewrite Hp2, app_nil_r. }
  split; cbn.
  - by rewrite length_insert.
  - intros j cj [(<- & <- & _)|[Hne E]]%list_lookup_insert_Some.
    + rewrite Hoi. destruct Hci as [Hs _ _ Hu]. split; [|by rewrite Hp'| |done].
      * apply (implements_frame _ (bufs d)); [|destruct Hs; by split].
        change (outstanding c') with (outstanding c). apply app_eq_nil in Hp as [-> _]. by intros b ?%elem_of_nil.
      * rewrite Hp'. intros b Hb. destruct (Hin b Hb) as (_ & y & ? & ? & ?). exists y, o, x'. by rewrite lookup_insert_eq.
    + eapply channel_ok_frame; [| |by apply Hc].
      * intros b Hb. destruct (ok_buffers _ _ _ _ _ _ (Hc j cj E) b Hb) as (y & _ & _ & Eb & _). rewrite Eb. by apply Hold.
      * intros o' op Eo Eop Hop. rewrite lookup_insert_ne; [done|]. intros <-. congruence.
  - intros j o' Ej. destruct (decide (o' = o)) as [->|Hne].
    + exists x'. rewrite lookup_insert_eq. rewrite (Hj j Ej). auto.
    + destruct (Ho j o' Ej) as (y & ? & ? & Hy). exists y. rewrite lookup_insert_ne by done. split_and!; [done..|].
      destruct Hy as [?|[t' Et']]; [by left|right]. exists t'. rewrite lookup_delete_ne; [done|]. intros <-. congruence.
  - intros o' y [[<- <-]|[Hne E]]%lookup_insert_Some Hcf.
    + exists i. split_and!; [done..|]. rewrite lookup_lt_is_Some, length_insert. by eapply lookup_lt_Some.
    + destruct (Hf o' y E Hcf) as (j & ? & ? & ?). exists j. by rewrite lookup_lt_is_Some, length_insert, <-lookup_lt_is_Some.
  - intros o' y j [[<- <-]|[Hne E]]%lookup_insert_Some Hy; rewrite lookup_lt_is_Some, length_insert, <-lookup_lt_is_Some; [|by eapply Hr].
    assert (j = i) as -> by congruence. by eexists.
  - intros t' a [Hne Ea]%lookup_delete_Some. specialize (Hk t' a Ea). destruct a as [o'|o' rq b]; cbn in Hk |- *.
    + destruct Hk as (op & j & ? & ? & ? & Ej). exists op, j. rewrite lookup_insert_ne; [done|]. intros <-. apply Hne. by eapply Hl.
    + destruct Hk as (op & j & y & cj & Eop & Hop & ? & Ej & Eb & ?). exists op, j, y, cj. rewrite lookup_insert_ne by (intros <-; congruence).
      rewrite list_lookup_insert_ne by (intros <-; congruence). rewrite (Hold _ _ Eb). done.
  - intros t1 t2 o' [_ E1]%lookup_delete_Some [_ E2]%lookup_delete_Some. by eapply Hl.
  - intros t1 t2 o1 o2 rq rq' b [_ E1]%lookup_delete_Some [_ E2]%lookup_delete_Some. by eapply Ht.
Qed.

Lemma allocated_kept d st owner t o answers x :
  inv d st owner → calls d !! t = Some (Allocating o) → opens d !! o = Some x → good_answers (bufs d) (block_size x) answers = true →
  kept d st (Continue t answers) (config_allocated d t o x answers).
Proof.
  intros Hi Et Ex Hg. destruct (inv_calls _ _ _ Hi t _ Et) as (op & i & Eop & Hop & Hch & Hoi). assert (x = op) as -> by congruence.
  destruct (inv_range _ _ _ Hi o op i Eop Hch) as [c Ec]. unfold config_allocated, channel_of. rewrite Hch. cbn [mbind outcome_bind].
  unfold at_channel. rewrite Ec. cbn [mbind outcome_bind].
  assert (∀ d' rc j, next_streams st d (Continue t answers) d' rc j = st j) as Hst by (intros; unfold next_streams; cbn; by rewrite Et).
  destruct (allocate_loop _ _ _ _ _) as [[fl m']|] eqn:Ea.
  2:{ eapply kept_ret; [by eapply inv_abandoned|intros; apply Hst]. }
  apply bool_decide_eq_true in Hg as (Hnd & Hfr & Hsz). rewrite Forall_forall in Hfr.
  destruct (allocate_loop_spec _ _ _ _ _ _ _ _ Ea Hnd Hsz) as (new & -> & Hnew & Hin & Hout). rewrite app_nil_r.
  eapply kept_ret; [|intros; apply Hst].
  refine (inv_allocated d st owner t o op (mk_open (block_size op) (block op) (Some i) true) i c _ m' new Hi Et Eop Hop Hch Hoi Ec eq_refl eq_refl eq_refl Hnew _ Hout).
  intros b Hb. destruct (Hin b Hb) as (Hb' & memory & address & ? & ?). split; [by apply Hfr|]. by eexists.
Qed.

(** *** Requests *)

Lemma send_actions st d t o x i arg d' rc :
  opens d !! o = Some x → channel x = Some i → rc ≠ Some 0 ∨ arg = None → ∀ j, next_streams st d (Send t o arg) d' rc j = st j.
Proof. intros Ex Hx Hrc j. unfold next_streams. cbn. destruct arg; [|done]. destruct Hrc; [|done]. by rewrite bool_decide_false. Qed.
Lemma on_channel_iff d o x i j : opens d !! o = Some x → channel x = Some i → on_channel d o j = bool_decide (i = j).
Proof. intros Ex Hx. unfold on_channel. rewrite Ex, Hx. apply bool_decide_ext. naive_solver. Qed.

(** A call takes a buffer. *)
Lemma inv_take d st owner t o x i c b l rq :
  inv d st owner → calls d !! t = None → opens d !! o = Some x → configured x = true → channel x = Some i → block_channels d !! i = Some c →
  free c = b :: l → 0 ≤ rq_length rq → rq_length rq * 4 ≤ block_size x → rq_length rq * 4 < 2 ^ long_bits →
  inv (set_calls (set_channel d i (set_lists c (queue c) l (current_buffer c) (next_buffer c))) (<[t := Sending o rq b]> (calls d))) st owner.
Proof.
  intros Hi Et Ex Hx Hch Ec Hfree Hl0 Hl Hlw. destruct (inv_configured _ _ _ Hi o x Ex Hx) as (j & Hj & Hoi & _). assert (j = i) as -> by congruence.
  set (c' := set_lists _ _ _ _ _). pose proof (inv_channels _ _ _ Hi i c Ec) as Hc.
  assert (places c = outstanding c' ++ b :: l) as Hp by (unfold places; by rewrite Hfree).
  assert (∀ b', b' ∈ places c' → b' ∈ places c) as Hsub.
  { intros b'. rewrite Hp. unfold places. rewrite !elem_of_app, elem_of_cons. tauto. }
  assert (b ∉ places c') as Hb.
  { pose proof (ok_apart _ _ _ _ _ _ Hc) as Hnd. rewrite Hp, <-Permutation_middle in Hnd. by apply NoDup_cons in Hnd as [? _]. }
  assert (inv (set_channel d i c') st owner) as [Hn Hcs Ho Hf Hr Hk Hlk Ht].
  { eapply inv_set_channel; [done|done| |done|by intros; apply Hsub]. destruct Hc as [Hs Ha Hb' Hu]. split.
    - destruct Hs. by split.
    - rewrite Hp, <-Permutation_middle in Ha. by apply NoDup_cons in Ha as [_ ?].
    - intros b' Hb2. by apply Hb', Hsub.
    - done. }
  destruct (ok_buffers _ _ _ _ _ _ Hc b) as (y & o' & op & Ey & Hy & Eo' & Eop & _ & Hsz); [rewrite Hp; apply elem_of_app; right; by left|].
  assert (o' = o) as -> by congruence. assert (op = x) as -> by congruence.
  split; cbn in *; try done.
  - intros j o' E. destruct (Ho j o' E) as (z & ? & ? & Hz). exists z. split_and!; [done..|]. destruct Hz as [?|[t' ?]]; [by left|].
    right. exists t'. rewrite lookup_insert_ne; [done|]. intros <-. congruence.
  - intros t' a [[<- <-]|[Ht' Ea]]%lookup_insert_Some.
    + exists x, i, y, c'. cbn. rewrite list_lookup_insert_eq by (by eapply lookup_lt_Some). split_and!; done || congruence.
    + apply (Hk t' a Ea).
  - intros t1 t2 o' [[<- E1]|[? E1]]%lookup_insert_Some [[<- E2]|[? E2]]%lookup_insert_Some; try done. by eapply Hlk.
  - assert (∀ t' o' rq', calls d !! t' ≠ Some (Sending o' rq' b)) as Hno.
    { intros t' o' rq' E. destruct (inv_calls _ _ _ Hi t' _ E) as (op' & i' & z & cz & Eop' & _ & ? & ? & Ez & ? & _ & Ecz & Hbz & _).
      assert (i' = i) as -> by congruence. assert (cz = c) as -> by congruence. apply Hbz. rewrite Hp. apply elem_of_app. right. by left. }
    intros t1 t2 o1 o2 rq1 rq2 b' [[<- E1]|[? E1]]%lookup_insert_Some [[<- E2]|[? E2]]%lookup_insert_Some; try done.
    + exfalso. simplify_eq. by eapply Hno.
    + exfalso. simplify_eq. by eapply Hno.
    + by eapply Ht.
Qed.

Lemma configured_regs d st owner o x i c :
  inv d st owner → opens d !! o = Some x → configured x = true → channel x = Some i → block_channels d !! i = Some c → (addr_reg c, length_reg c) = regs i.
Proof.
  intros Hi Ex Hx Hch Ec. destruct (inv_configured _ _ _ Hi o x Ex Hx) as (j & Hj & Hoj & _). assert (j = i) as -> by congruence.
  pose proof (inv_channels _ _ _ Hi i c Ec) as Hc. apply (im_regs _ _ _ _ (ok_stream _ _ _ _ _ _ Hc)), (ok_user _ _ _ _ _ _ Hc). by rewrite Hoj.
Qed.

Lemma send_kept d st owner t o x arg :
  inv d st owner → calls d !! t = None → opens d !! o = Some x → event_ok (Send t o arg) → kept d st (Send t o arg) (send_block d t o x arg).
Proof.
  intros Hi Et Ex He. unfold send_block.
  assert (∀ d' rc, rc ≠ Some 0 → ∀ j, next_streams st d (Send t o arg) d' rc j = st j) as Hsame.
  { intros d' rc Hrc j. unfold next_streams. cbn. destruct arg; [|done]. by rewrite bool_decide_false. }
  destruct (configured x) eqn:Hx; cbn [negb]; [|by eapply kept_ret; [exact Hi|apply Hsame]].
  destruct arg as [rq|]; [|by eapply kept_ret; [exact Hi|apply Hsame]]. destruct He as [Hl0 Hlw].
  unfold ulong. rewrite wrap_small by lia. destruct (bool_decide _) eqn:Hsz; cbn [negb]; [|by eapply kept_ret; [exact Hi|apply Hsame]].
  apply bool_decide_eq_true in Hsz. destruct (inv_configured _ _ _ Hi o x Ex Hx) as (i & Hch & Hoi & [c Ec]).
  unfold channel_of, at_channel. rewrite Hch. cbn [mbind outcome_bind]. rewrite Ec. cbn [mbind outcome_bind].
  pose proof (inv_channels _ _ _ Hi i c Ec) as Hc. pose proof (configured_regs _ _ _ _ _ _ _ Hi Ex Hx Hch Ec) as Hregs.
  case_bool_decide as Hz.
  - assert (∀ d' j, next_streams st d (Send t o (Some rq)) d' (Some 0) j = if bool_decide (i = j) then stream_step (regs j) (st j) Reset else st j) as Hnext.
    { intros d' j. unfold next_streams. cbn [action_of]. rewrite (bool_decide_true (Some 0 = Some 0)) by done. cbn [andb].
      rewrite (on_channel_iff _ _ _ _ _ Ex Hch). by destruct (bool_decide (i = j)). }
    eapply kept_ret; [|done]. apply (inv_set_channel d st _ owner i c); try done.
    + rewrite Hnext, bool_decide_true by done. eapply channel_moved; [done| |apply reset_places|apply reset_user].
      apply reset_implements; [apply Hc|done].
    + intros j Hj. rewrite Hnext, bool_decide_false by congruence. done.
    + intros ? ? ? b _. by rewrite reset_places.
  - unfold get_free_buffer. destruct (free c) as [|b l] eqn:Ef; [by eapply kept_ret; [exact Hi|apply Hsame]|].
    eapply kept_ret; [by eapply inv_take|apply Hsame; done].
Qed.

(** A call that has its buffer ends, and the buffer is filled. *)
Lemma inv_filled d st owner t o rq b y y' :
  inv d st owner → calls d !! t = Some (Sending o rq b) → bufs d !! b = Some y → bi_channel y' = bi_channel y → length (addr y') = length (addr y) →
  inv (set_bufs (set_calls d (delete t (calls d))) (<[b := y']> (bufs d))) st owner.
Proof.
  intros Hi Et Ey Hch Hlen. destruct (inv_calls _ _ _ Hi t _ Et) as (op & i & z & c & Eop & Hop & Hopi & Hoi & Ez & Hzi & Hzs & Ec & Hb & _).
  assert (z = y) as -> by congruence. destruct Hi as [Hn Hcs Ho Hf Hr Hk Hlk Ht]. split; cbn; try done.
  - intros j cj Ej. eapply channel_ok_frame; [|by intros; eassumption|by apply Hcs]. intros b' Hb'. rewrite lookup_insert_ne; [done|].
    intros <-. destruct (ok_buffers _ _ _ _ _ _ (Hcs j cj Ej) b Hb') as (y2 & _ & _ & E2 & Hy2 & _). assert (j = i) as -> by congruence. by replace cj with c in Hb' by congruence.
  - intros j o' E. destruct (Ho j o' E) as (z & ? & ? & Hz). exists z. split_and!; [done..|]. destruct Hz as [?|[t' ?]]; [by left|].
    right. exists t'. rewrite lookup_delete_ne; [done|]. intros <-. congruence.
  - intros t' a [Hne Ea]%lookup_delete_Some. pose proof (Hk t' a Ea) as Ha. destruct a as [o'|o' rq' b']; cbn in Ha |- *; [done|].
    rewrite lookup_insert_ne; [done|]. intros <-. apply Hne. by eapply Ht.
  - intros t1 t2 o' [_ E1]%lookup_delete_Some [_ E2]%lookup_delete_Some. by eapply Hlk.
  - intros t1 t2 o1 o2 rq1 rq2 b' [_ E1]%lookup_delete_Some [_ E2]%lookup_delete_Some. by eapply Ht.
Qed.

(** What was copied. *)
Lemma copy_spec memory data n :
  0 ≤ n → n ≤ Z.of_nat (length memory) →
  ∃ memory' copied, copy_from_user memory data (n * 4) = Ret (memory', copied) ∧ length memory' = length memory ∧
    (copied = true → take (Z.to_nat n) memory' = take (Z.to_nat n) data ∧ (Z.to_nat n ≤ length data)%nat).
Proof.
  intros H0 Hn. unfold copy_from_user, in_range. rewrite Z.div_mul by lia. rewrite (bool_decide_true (Z.to_nat n ≤ length memory)%nat) by lia. cbn [mbind outcome_bind].
  eexists _, _. split; [done|]. split.
  - rewrite length_app, length_drop, !length_take. lia.
  - intros Hc%bool_decide_eq_true. split; [|done]. rewrite take_app_le by (rewrite length_take; lia). rewrite take_take. f_equal. lia.
Qed.

Lemma sent_kept d st owner t o rq b answers x :
  inv d st owner → calls d !! t = Some (Sending o rq b) → opens d !! o = Some x → kept d st (Continue t answers) (send_taken d t o x rq b).
Proof.
  intros Hi Et Ex. destruct (inv_calls _ _ _ Hi t _ Et) as (op & i & y & c & Eop & Hop & Hch & Hoi & Ey & Hyi & Hys & Ec & Hb & Hl0 & Hl & Hlw).
  assert (op = x) as -> by congruence. unfold send_taken, channel_of. rewrite Hch. cbn [mbind outcome_bind].
  unfold at_channel. rewrite Ec. cbn [mbind outcome_bind]. unfold at_buffer at 1. rewrite Ey. cbn [mbind outcome_bind].
  unfold ulong at 1. rewrite wrap_small by lia. destruct (copy_spec (addr y) (rq_data rq) (rq_length rq)) as (memory & copied & -> & Hlen & Hcopied); [lia..|].
  cbn [mbind outcome_bind]. set (y' := mk_buffer _ memory _ _ _). set (m := <[b := y']> (bufs d)).
  pose proof (inv_filled d st owner t o rq b y y' Hi Et Ey eq_refl Hlen) as Hi'.
  assert (∀ d' rc, rc ≠ Some 0 → ∀ j, next_streams st d (Continue t answers) d' rc j = st j) as Hsame.
  { intros d' rc Hrc j. unfold next_streams. cbn. rewrite Et. destruct rc as [[| |]|]; done. }
  destruct copied; [|by eapply kept_ret; [exact Hi'|apply Hsame]]. destruct Hcopied as [Htake Hdata]; [done|].
  pose proof (inv_channels _ _ _ Hi' i c Ec) as Hc. pose proof (configured_regs _ _ _ _ _ _ _ Hi Ex Hop Hch Ec) as Hregs. cbn in Hc. fold m in Hc, Hi'.
  assert (m !! b = Some y') as Em by apply lookup_insert_eq.
  assert (∀ t' o' rq', delete t (calls d) !! t' = Some (Sending o' rq' b) → False) as Hnot.
  { intros t' o' rq' [Hne E]%lookup_delete_Some. apply Hne. by eapply (inv_taken _ _ _ Hi). }
  assert (∃ x0 o0 op0, m !! b = Some x0 ∧ bi_channel x0 = i ∧ owner !! i = Some o0 ∧ opens d !! o0 = Some op0 ∧ configured op0 = true ∧
    4 * Z.of_nat (length (addr x0)) = block_size op0) as Hbok by (exists y', o, x; cbn; rewrite Hlen; split_and!; congruence || done).
  destruct (completed c) eqn:Hcm.
  - unfold queue_buffer_locked. rewrite Hcm. cbn [mbind outcome_bind]. eapply kept_ret; [|apply Hsame; done].
    eapply inv_set_channel; [exact Hi'|exact Ec| |done|].
    + destruct Hc as [Hs Ha Hbs Hu]. assert (places (free_buffer_locked c b) ≡ₚ b :: places c) as Hp.
      { unfold places. change (outstanding (free_buffer_locked c b)) with (outstanding c). cbn. by rewrite Permutation_middle. }
      split; [destruct Hs; by split| |  |done].
      * rewrite Hp. by constructor.
      * intros b'. rewrite Hp. intros [->|Hb']%elem_of_cons; [done|by apply Hbs].
    + cbn. intros t' o' rq' b' E. unfold places. change (outstanding (free_buffer_locked c b)) with (outstanding c). cbn.
      rewrite !elem_of_app, elem_of_cons. intros [?|[->|?]]; [by left|by destruct (Hnot _ _ _ E)|by right].
  - destruct (queue_buffer_spec (regs i) m c (st i) b y') as (c' & -> & Hs' & Ho' & Hf' & Hu'); [apply Hc|done|done|done|cbn; rewrite Hlen; lia|].
    cbn [mbind outcome_bind]. assert (places c' ≡ₚ b :: places c) as Hp.
    { unfold places. rewrite Ho', Hf', <-app_assoc. cbn. by rewrite Permutation_middle. }
    assert (∀ d' j, next_streams st d (Continue t answers) d' (Some 0) j = if bool_decide (i = j) then stream_step (regs j) (st j) (Accept (block_in m b)) else st j) as Hnext.
    { intros d' j. unfold next_streams. cbn [action_of]. rewrite Et, (on_channel_iff _ _ _ _ _ Ex Hch), Ey. rewrite (block_in_some _ _ _ Em). cbn.
      rewrite Htake. by destruct (bool_decide (i = j)). }
    eapply kept_ret; [|done]. eapply inv_set_channel; [exact Hi'|exact Ec| | |].
    + rewrite Hnext, bool_decide_true by done. destruct Hc as [_ Ha Hbs Hu]. split; [done| | |by rewrite Hu'].
      * rewrite Hp. by constructor.
      * intros b'. rewrite Hp. intros [->|Hb']%elem_of_cons; [done|by apply Hbs].
    + intros j Hj. by rewrite Hnext, bool_decide_false by congruence.
    + cbn. intros t' o' rq' b' E. rewrite Hp, elem_of_cons. intros [->|?]; [by destruct (Hnot _ _ _ E)|done].
Qed.

(** *** The end of a file *)

Lemma not_busy d o t a : busy d o = false → calls d !! t = Some a → activity_open a ≠ o.
Proof. intros Hb Ea Ho. apply (bool_decide_eq_false_1 _ Hb). by exists t, a. Qed.
Lemma freed_others (m : buffers_map) l b : b ∉ l → foldl (λ m b, delete b m) m l !! b = m !! b.
Proof.
  revert m. induction l as [|x l IH]; intros m Hb; [done|]. apply not_elem_of_cons in Hb as [Hx Hb]. cbn [foldl]. rewrite IH by done.
  by rewrite lookup_delete_ne.
Qed.
Lemma inv_delete_open d st owner o :
  inv d st owner → (∀ i, owner !! i ≠ Some o) → busy d o = false → inv (mk_driver (block_channels d) (delete o (opens d)) (calls d) (bufs d)) st owner.
Proof.
  intros [Hn Hc Ho Hf Hr Hk Hl Ht] Hno Hb. split; cbn; try done.
  - intros i c E. eapply channel_ok_frame; [done| |by apply Hc]. intros o' op E' Eo _. by rewrite lookup_delete_ne by (intros <-; by eapply Hno).
  - intros i o' E. destruct (Ho i o' E) as (y & ? & ?). exists y. by rewrite lookup_delete_ne by (intros <-; by eapply Hno).
  - intros o' y [? E]%lookup_delete_Some. eauto.
  - intros o' y i [? E]%lookup_delete_Some. eauto.
  - intros t a Ha. specialize (Hk t a Ha). pose proof (not_busy _ _ _ _ Hb Ha) as Hne.
    destruct a as [o'|o' rq b]; cbn in Hk, Hne |- *; by rewrite lookup_delete_ne.
Qed.

(** The channel of a file gives everything back. *)
Definition given_back (c : block_channel) : block_channel :=
  let c := set_user (reset_dma_locked c) false in set_lists c (queue c) [] (current_buffer c) (next_buffer c).
Lemma given_back_places c : places (given_back c) = [].
Proof. unfold places. change (outstanding (given_back c)) with (outstanding (reset_dma_locked c)). by rewrite outstanding_reset. Qed.
Lemma given_back_ok m m' ops ops' i c s own :
  channel_ok m ops i c s own → (addr_reg c, length_reg c) = regs i → channel_ok m' ops' i (given_back c) (stream_step (regs i) s Reset) None.
Proof.
  intros [Hs _ _ _] Hregs. pose proof (given_back_places c) as Hp.
  split; [|by rewrite Hp; constructor|rewrite Hp; by intros b ?%elem_of_nil|by intros []].
  apply (implements_frame _ m).
  { intros b Hb%outstanding_place. rewrite Hp in Hb. by apply elem_of_nil in Hb. }
  destruct (reset_implements _ _ _ _ Hs Hregs). split; try done. 
Qed.

Lemma release_kept d st owner o x :
  inv d st owner → opens d !! o = Some x → busy d o = false → kept d st (Release o) (panda_block_release d o x).
Proof.
  intros Hi Ex Hb. unfold panda_block_release. destruct (configured x) eqn:Hx.
  2:{ eapply kept_ret; [eapply inv_delete_open; [exact Hi| |done]|by intros; apply same_users].
      intros i Ei. destruct (inv_owner _ _ _ Hi i o Ei) as (y & ? & _ & [?|[t Et]]); [congruence|]. by apply (not_busy _ _ _ _ Hb Et). }
  destruct (inv_configured _ _ _ Hi o x Ex Hx) as (i & Hch & Hoi & [c Ec]). unfold channel_of. rewrite Hch. cbn [mbind outcome_bind].
  unfold at_channel. cbn [block_channels]. rewrite Ec. cbn [mbind outcome_bind]. fold (given_back c).
  pose proof (configured_regs _ _ _ _ _ _ _ Hi Ex Hx Hch Ec) as Hregs. pose proof (λ j, owner_unique d st owner i j o x Hi Ex Hch) as Hj.
  assert (user_of d i = true) as Hui.
  { rewrite (user_of_at _ _ _ Ec). apply (ok_user _ _ _ _ _ _ (inv_channels _ _ _ Hi i c Ec)). by rewrite Hoi. }
  assert (∀ b, b ∈ free (set_user (reset_dma_locked c) false) → b ∈ places c) as Hfree.
  { intros b Hin. rewrite <-reset_places. unfold places. rewrite outstanding_reset. exact Hin. }
  set (m' := foldl _ _ _). assert (∀ b y, bufs d !! b = Some y → bi_channel y ≠ i → m' !! b = Some y) as Hm.
  { intros b y E Hy. unfold m'. cbn [bufs]. rewrite freed_others; [done|]. intros Hin%Hfree.
    destruct (ok_buffers _ _ _ _ _ _ (inv_channels _ _ _ Hi i c Ec) b Hin) as (z & _ & _ & Ez & Hz & _). congruence. }
  set (st' := λ j, if decide (i = j) then stream_step (regs j) (st j) Reset else st j).
  apply (kept_ret _ _ _ _ _ (delete i owner) st').
  2:{ intros j. unfold st'. destruct (decide (i = j)) as [<-|Hne].
      - apply new_user; [done|]. rewrite Hui. unfold user_of. cbn. by rewrite list_lookup_insert_eq by (by eapply lookup_lt_Some).
      - apply same_users; [done|]. unfold user_of. cbn. by rewrite list_lookup_insert_ne. }
  destruct Hi as [Hn Hc Ho Hf Hr Hk Hl Ht]. split; cbn; try done.
  - by rewrite length_insert.
  - intros j cj [(<- & <- & _)|[Hne E]]%list_lookup_insert_Some.
    + rewrite lookup_delete_eq. unfold st'. rewrite decide_True by done. by eapply given_back_ok; [apply Hc|].
    + rewrite lookup_delete_ne by done. unfold st'. rewrite decide_False by done. eapply channel_ok_frame; [| |by apply Hc].
      * intros b Hin. destruct (ok_buffers _ _ _ _ _ _ (Hc j cj E) b Hin) as (y & _ & _ & Ey & Hy & _). rewrite Ey. apply Hm; congruence.
      * intros o' op Eo Eop _. rewrite lookup_delete_ne; [done|]. intros <-. by apply Hne; symmetry; apply Hj.
  - intros j o' [Hne E]%lookup_delete_Some. destruct (Ho j o' E) as (y & ? & ?). exists y.
    rewrite lookup_delete_ne; [done|]. intros <-. by apply Hne; symmetry; apply Hj.
  - intros o' y [Hne E]%lookup_delete_Some Hcf. destruct (Hf o' y E Hcf) as (j & ? & ? & ?). exists j.
    rewrite lookup_lt_is_Some, length_insert, <-lookup_lt_is_Some, lookup_delete_ne; [done|]. intros <-. congruence.
  - intros o' y j [Hne E]%lookup_delete_Some Hy. rewrite lookup_lt_is_Some, length_insert, <-lookup_lt_is_Some. by eapply Hr.
  - intros t a Ha. specialize (Hk t a Ha). pose proof (not_busy _ _ _ _ Hb Ha) as Hne. destruct a as [o'|o' rq b]; cbn in Hk, Hne |- *.
    + destruct Hk as (op & j & ? & ? & ? & Ej). exists op, j. rewrite !lookup_delete_ne; [done|congruence|congruence].
    + destruct Hk as (op & j & y & cj & ? & ? & ? & Ej & Ey & Hyj & ?). assert (i ≠ j) by congruence. exists op, j, y, cj.
      rewrite !lookup_delete_ne by congruence. rewrite list_lookup_insert_ne by done.
      pose proof (Hm b y Ey ltac:(congruence)). done.
Qed.

(** *** Every run *)

Lemma nothing_happens d st owner e : inv d st owner → (∀ i, action_of d e d None i = None) → kept d st e (Ret (d, None)).
Proof. intros Hi Ha. eapply kept_ret; [exact Hi|]. intros i. unfold next_streams. by rewrite Ha. Qed.
Lemma unchanged_user d i : (if eqb (user_of d i) (user_of d i) then @None action else Some Reset) = None.
Proof. by rewrite eqb_reflx. Qed.

Lemma event_kept d st owner e : inv d st owner → event_ok e → kept d st e (step pcap_length d e).
Proof.
  intros Hi He. destruct e as [o|t o arg|t o arg|t answers|status|o]; cbn [step].
  - destruct (opens d !! o) eqn:Eo; [by eapply nothing_happens|]. eapply kept_ret; [|done]. apply inv_set_open; [done| |done|done]. by eapply new_file_not_owner.
  - destruct (opens d !! o) as [x|] eqn:Eo; [|eapply nothing_happens; [done|intros; apply unchanged_user]].
    destruct (calls d !! t) eqn:Et; [eapply nothing_happens; [done|intros; apply unchanged_user]|].
    destruct (locked d o) eqn:El; [eapply nothing_happens; [done|intros; apply unchanged_user]|]. by eapply config_kept.
  - assert (∀ i, action_of d (Send t o arg) d None i = None) as Hn by (intros i; cbn; destruct arg; [by rewrite bool_decide_false|done]).
    destruct (opens d !! o) as [x|] eqn:Eo; [|by eapply nothing_happens]. destruct (calls d !! t) eqn:Et; [by eapply nothing_happens|].
    by eapply send_kept.
  - destruct (calls d !! t) as [[o|o rq b]|] eqn:Et; [| |eapply nothing_happens; [done|intros i; cbn; by rewrite Et]].
    + destruct (inv_calls _ _ _ Hi t _ Et) as (x & i & Ex & _). rewrite Ex. destruct (good_answers _ _ _) eqn:Hg; [by eapply allocated_kept|].
      eapply nothing_happens; [done|intros j; cbn; by rewrite Et].
    + destruct (inv_calls _ _ _ Hi t _ Et) as (x & i & y & c & Ex & _). rewrite Ex. by eapply sent_kept.
  - destruct (interrupt_kept d st owner status Hi) as (d' & E & Hi'). rewrite E. eapply kept_ret; [exact Hi'|done].
  - destruct (opens d !! o) as [x|] eqn:Eo; [|eapply nothing_happens; [done|intros; apply unchanged_user]].
    destruct (busy d o) eqn:Eb; [eapply nothing_happens; [done|intros; apply unchanged_user]|]. by eapply release_kept.
Qed.

Lemma initial_ok : inv initial (λ _, no_stream) ∅.
Proof.
  split; try done.
  intros i c [-> _]%lookup_replicate. rewrite lookup_empty. split; [|constructor|by intros b ?%elem_of_nil|by intros []].
  split; done || by split; intros [].
Qed.
Lemma events_kept d st owner events :
  inv d st owner → Forall event_ok events → ∃ d' owner', run pcap_length d events = Ret d' ∧ inv d' (streams st d events) owner'.
Proof.
  intros Hi Hev. revert d st owner Hi. induction Hev as [|e events He _ IH]; intros d st owner Hi; [by exists d, owner|].
  destruct (event_kept d st owner e Hi He) as (d' & rc & owner' & E & Hi'). cbn [run streams]. rewrite E. cbn [mbind outcome_bind].
  by apply (IH d' _ owner').
Qed.

Lemma run_app d d' events events' :
  run pcap_length d events = Ret d' → run pcap_length d (events ++ events') = run pcap_length d' events'.
Proof.
  revert d. induction events as [|e events IH]; intros d E; cbn [run app] in *; [by injection E as ->|].
  apply outcome_bind_ret in E as ([d1 rc] & -> & E). cbn [mbind outcome_bind]. by apply IH.
Qed.
Lemma streams_app st d d' events events' :
  run pcap_length d events = Ret d' → streams st d (events ++ events') = streams (streams st d events) d' events'.
Proof.
  revert st d. induction events as [|e events IH]; intros st d E; cbn [run streams app] in *; [by injection E as ->|].
  apply outcome_bind_ret in E as ([d1 rc] & -> & E). by apply IH.
Qed.
Lemma streams_ready i n st d owner d' :
  (i < 16)%nat → inv d st owner → run pcap_length d (replicate n (Interrupt (2 ^ Z.of_nat i))) = Ret d' →
  streams st d (replicate n (Interrupt (2 ^ Z.of_nat i))) i = Nat.iter n (λ s, stream_step (regs i) s Ready) (st i).
Proof.
  intros Hi. revert st d owner. induction n as [|n IH]; intros st d owner Hinv E; [done|]. cbn [replicate run streams] in *.
  destruct (interrupt_kept d st owner (2 ^ Z.of_nat i) Hinv) as (d1 & E1 & Hinv1). cbn [step] in *. rewrite E1 in *. cbn [mbind outcome_bind] in *.
  rewrite (IH _ _ _ Hinv1 E), Nat.iter_succ_r. f_equal. unfold stream_next, action_of.
  assert (Z.testbit (Z.shiftr (2 ^ Z.of_nat i) 16) (Z.of_nat i) = false) as ->.
  { rewrite Z.shiftr_spec by lia. apply Z.pow2_bits_false. lia. }
  rewrite Z.land_spec, Z.pow2_bits_true by lia. change 65535 with (Z.ones 16). by rewrite Z.ones_spec_low by lia.
Qed.
Lemma all_ready r s n :
  (length (accepted s) ≤ n + 2)%nat → (released s ≤ length (accepted s))%nat →
  told r (Nat.iter n (λ s, stream_step r s Ready) s) = before s ++ concat (block_writes r <$> accepted s) ∧
  (length (waiting (Nat.iter n (λ s, stream_step r s Ready) s)) ≤ 2)%nat.
Proof.
  intros Hn Hr.
  assert (∀ n, let s' := Nat.iter n (λ s, stream_step r s Ready) s in before s' = before s ∧ accepted s' = accepted s ∧
    released s' = Nat.max (released s) (Nat.min (released s + n) (length (accepted s) - 1))) as Hiter.
  { clear n Hn. induction n as [|n IH]; [cbn; split_and!; done || lia|]. cbv zeta in IH |- *.
    set (f := λ s, stream_step r s Ready) in *. rewrite Nat.iter_succ. set (s1 := Nat.iter n f s) in *. clearbody s1. destruct IH as (E1 & E2 & E3). unfold f. cbn [stream_step].
    rewrite E2, E3. case_bool_decide; cbn; rewrite ?E1, ?E2, ?E3; split_and!; done || lia. }
  destruct (Hiter n) as (E1 & E2 & E3). split.
  - unfold told. rewrite E1, E2, take_ge; [done|]. lia.
  - unfold waiting. rewrite length_drop, E2. lia.
Qed.

(** C13: Whatever the order in which files are opened, configured and released, requests
    are made and continued and interrupts come, the driver never follows a pointer to
    nothing, nor copies beyond a block; for each channel the FPGA has been told of the
    blocks accepted since the channel was reset, in that order, up to the second that it
    has not done with; the memory of the blocks it has not done with holds the words that
    were sent; and the number of words reported is theirs. *)
Theorem blocks_reach_fpga events :
  Forall event_ok events →
  ∃ d, run pcap_length initial events = Ret d ∧ ∀ i c, block_channels d !! i = Some c →
    let s := streams (λ _, no_stream) initial events i in
    written c = told (regs i) s ∧ block_in (bufs d) <$> outstanding c = waiting s ∧ nwords c = ulong (words_of (waiting s)) ∧ NoDup (places c).
Proof.
  intros Hev. destruct (events_kept initial _ ∅ events initial_ok Hev) as (d & owner & E & Hi). exists d. split; [done|].
  intros i c Ec. pose proof (inv_channels _ _ _ Hi i c Ec) as [[] ? _ _]. done.
Qed.

(** C21: Once the FPGA has asked for blocks often enough it has been told of every block
    that was accepted, and no block waits: [n] interrupts are enough for [n + 2] blocks. *)
Theorem blocks_all_told events i n :
  Forall event_ok events → (i < BLOCK_CHANNEL_COUNT)%nat → (length (accepted (streams (λ _, no_stream) initial events i)) ≤ n + 2)%nat →
  let s := streams (λ _, no_stream) initial events i in
  ∃ d c, run pcap_length initial (events ++ replicate n (Interrupt (2 ^ Z.of_nat i))) = Ret d ∧ block_channels d !! i = Some c ∧
    written c = before s ++ concat (block_writes (regs i) <$> accepted s) ∧ queue c = [].
Proof.
  intros Hev Hin Hn s. destruct (events_kept initial _ ∅ events initial_ok Hev) as (d & owner & E & Hi).
  destruct (events_kept d _ owner (replicate n (Interrupt (2 ^ Z.of_nat i))) Hi) as (d' & owner' & E' & Hi').
  { apply Forall_replicate. done. }
  destruct (lookup_lt_is_Some_2 (block_channels d') i) as [c Ec]; [by rewrite (inv_count _ _ _ Hi')|].
  exists d', c. rewrite (run_app _ _ _ _ E). split; [done|]. split; [done|].
  pose proof (inv_channels _ _ _ Hi' i c Ec) as Hc. rewrite (streams_ready i n _ d owner d' Hin Hi E') in Hc. fold s in Hc.
  assert (released s ≤ length (accepted s))%nat as Hr.
  { destruct (lookup_lt_is_Some_2 (block_channels d) i) as [c0 Ec0]; [by rewrite (inv_count _ _ _ Hi)|].
    apply (ok_stream _ _ _ _ _ _ (inv_channels _ _ _ Hi i c0 Ec0)). }
  destruct (all_ready (regs i) s n Hn Hr) as [Ht Hw]. pose proof (waiting_length _ _ _ _ (ok_stream _ _ _ _ _ _ Hc)) as Hl.
  destruct (ok_stream _ _ _ _ _ _ Hc) as [[S1 S2] _ _ _ Hwr _ _]. split; [by rewrite Hwr|].
  destruct (queue c) as [|b q] eqn:Eq; [done|]. exfalso. destruct S1 as [nx Enx]; [done|]. destruct S2 as [cu Ecu]; [by eexists|].
  assert (length (outstanding c) ≤ 2)%nat as H2 by lia. unfold outstanding in H2. rewrite Enx, Ecu, Eq in H2. simpl in H2. rewrite length_app in H2. simpl in H2. lia.
Qed.
End driver.
End platform.

(** ** A table in three blocks *)

Definition example_regs (i : nat) : Z * Z := (16, 20).
Definition example_config : panda_block := mk_block 0 16 20 3 3.
Definition example_memory : list Z := replicate 1024 0.
Definition example_answers : list (option (nat * list Z * Z)) :=
  [Some (7%nat, example_memory, 4096); Some (8%nat, example_memory, 8192); Some (9%nat, example_memory, 12288)].
Definition example_open : list event := [Open 1; Config 5 1 (Some example_config); Continue 5 example_answers].
Definition example_sends : list event :=
  [Send 5 1 (Some (mk_request [1; 2; 3] 3 true)); Continue 5 []; Send 5 1 (Some (mk_request [4; 5] 2 true)); Continue 5 [];
   Send 6 1 (Some (mk_request [6] 1 false)); Continue 6 []].
Definition example_events : list event := example_open ++ example_sends.
#[local] Instance example_platform : Platform := ARM32.
Lemma example_events_ok : Forall (event_ok example_regs) example_events.
Proof. unfold example_events. repeat constructor; vm_compute; done. Qed.
Definition told_of (o : outcome driver) (i : nat) : list (Z * Z) :=
  match o with Ret d => default [] (written <$> block_channels d !! i) | _ => [] end.

Lemma blocks_reach_fpga_witness :
  ∃ d, run 65536 initial example_events = Ret d ∧ ∀ i c, block_channels d !! i = Some c →
    let s := streams 65536 example_regs (λ _, no_stream) initial example_events i in
    written c = told (example_regs i) s ∧ block_in (bufs d) <$> outstanding c = waiting s ∧ nwords c = ulong (words_of (waiting s)) ∧ NoDup (places c).
Proof. apply (blocks_reach_fpga 65536 example_regs example_events). apply example_events_ok. Defined.
Example example_told : told_of (run 65536 initial example_events) 3 =
  [(20, 0); (16, 12288); (20, 2147483651); (16, 8192); (20, 2147483650)].
Proof. vm_compute. reflexivity. Qed.

Lemma blocks_all_told_witness :
  let s := streams 65536 example_regs (λ _, no_stream) initial example_events 3 in
  ∃ d c, run 65536 initial (example_events ++ replicate 1 (Interrupt (2 ^ 3))) = Ret d ∧ block_channels d !! 3%nat = Some c ∧
    written c = before s ++ concat (block_writes (example_regs 3) <$> accepted s) ∧ queue c = [].
Proof. apply (blocks_all_told 65536 example_regs example_events 3 1); [apply example_events_ok|vm_compute; lia|vm_compute; lia]. Defined.
Example example_all_told : told_of (run 65536 initial (example_events ++ [Interrupt 8])) 3 =
  [(20, 0); (16, 12288); (20, 2147483651); (16, 8192); (20, 2147483650); (16, 4096); (20, 1)].
Proof. vm_compute. reflexivity. Qed.

(** ** What the driver does not prevent *)

Definition channel_after (events : list event) (i : nat) : option block_channel :=
  match run 65536 initial events with Ret d => block_channels d !! i | _ => None end.

(** A second file is told that the channel is in use, but it has already replaced the
    registers of the channel by its own. *)
Lemma busy_channel_redirected :
  (c ← channel_after example_open 3; Some (addr_reg c, length_reg c)) = Some (16, 20) ∧
  (c ← channel_after (example_open ++ [Open 2; Config 5 2 (Some (mk_block 0 32 36 3 1))]) 3; Some (addr_reg c, length_reg c)) = Some (32, 36).
Proof. split; vm_compute; reflexivity. Qed.

(** When the buffers cannot be allocated the channel stays in use, also after the file
    is released. *)
Lemma failed_allocation_keeps_user :
  (c ← channel_after [Open 1; Config 5 1 (Some example_config); Continue 5 [None]; Release 1] 3; Some (has_user c)) = Some true.
Proof. vm_compute. reflexivity. Qed.

(** A request whose data cannot be read loses its buffer: the release of the file does
    not find it. *)
Lemma failed_copy_loses_buffer :
  match run 65536 initial (example_open ++ [Send 5 1 (Some (mk_request [] 3 true)); Continue 5 []; Release 1]) with
  | Ret d => (λ kv, kv.1) <$> map_to_list (bufs d)
  | _ => []
  end = [9%nat].
Proof. vm_compute. reflexivity. Qed.

(** The length in bytes wraps: a request of 2^30 words passes for an empty one, and the
    FPGA is told to read 2^30 words. *)
Lemma wrapped_length_told :
  told_of (run 65536 initial (example_open ++ [Send 5 1 (Some (mk_request [] (2 ^ 30) false)); Continue 5 []])) 3 =
  [(20, 0); (16, 12288); (20, 2 ^ 30)].
Proof. vm_compute. reflexivity. Qed.
End PandaBlockSpec.
