(* ===== verification/MacAddress.v ===== *)
(** * The MAC addresses: panda-server/server/mac_address.c

    When the server starts it reads the MAC addresses of the Ethernet ports from a file
    and writes them to registers of the FPGA.  A line is read with the zero byte at its
    end, which the parser of a digit steps over. *)

From S2P Require Import Prelude Errors Parse Format Capture CaptureSpec Hardware Indent IndentSpec.
From stdpp Require Import base numbers gmap option strings pretty list.
Open Scope Z_scope.

Module MacAddress.
Import Parse Format Capture Hardware Indent.

(** ** Load MAC addresses *)

Definition parse_nibble : parser Z := λ s,
  let ch := cur s in
  (if decide (48 ≤ ch ≤ 57) then OK (u8 (ch - 48))
   else if decide (65 ≤ ch ≤ 70) then OK (u8 (ch - 65 + 10))
   else if decide (97 ≤ ch ≤ 102) then OK (u8 (ch - 97 + 10))
   else fail "Invalid character in octet", tail s).
Definition parse_octet : parser Z :=
  high_nibble ← parse_nibble;
  low_nibble ← parse_nibble;
  mret (u8 (Z.lor (Z.shiftl high_nibble 4) low_nibble)).

(** The loop of [parse_mac_address], with [i] octets read and [n] to come. *)
Fixpoint parse_octets (n i : nat) (mac_address : Z) : parser Z :=
  match n with
  | O => mret mac_address
  | S n =>
      _ ← (if bool_decide (0 < i)%nat then parse_char (Ascii.ascii_of_nat 58) else mret ());
      octet ← parse_octet;
      parse_octets n (S i) (u64 (Z.lor (Z.shiftl mac_address 8) octet))
  end.

Definition parse_mac_address : parser Z :=
  mac_address ← parse_octets 6 0 0;
  _ ← parse_char (Ascii.ascii_of_nat 10);
  mret mac_address.

(** [sizeof(line_buffer)]. *)
Definition LINE_BUFFER : nat := 82.

Section load.
Context `{Fpga}.

(** What a line does: the error, the FPGA, the offset, and where the parser stopped. *)
Definition load_line (f : fpga) (offset : Z) (line : list Z) : outcome (error__t * fpga * Z * list Z) :=
  if decide (cur line = 35) then
    Ret (TEST_OK_ (bool_decide (10 ∈ c_str line)) "Comment line too long or missing newline", f, offset, line)
  else if decide (cur line = 10) then Ret (None, f, u32 (offset + 1), line)
  else
    match TEST_OK_ (bool_decide (offset < MAC_ADDRESS_COUNT)) "Too many MAC address entries" with
    | Some e => Ret (Some e, f, offset, line)
    | None =>
        match parse_mac_address line with
        | (Err e, rest) => Ret (Some e, f, offset, rest)
        | (OK mac_address, rest) => f ← hw_write_mac_address f offset mac_address; Ret (None, f, u32 (offset + 1), rest)
        end
    end.

(** The loop of [load_mac_address_file], for a file that can be opened. *)
Fixpoint load_loop (fuel : nat) (f : fpga) (offset line_no : Z) (file : list Z) : outcome (error__t * fpga) :=
  match file, fuel with
  | [], _ => Ret (None, f)
  | _ :: _, O => Undef
  | _ :: _, S fuel =>
      let '(bytes, file) := fgets LINE_BUFFER file in
      let line := c_str bytes ++ [0] in
      let line_no := u32 (line_no + 1) in
      '(error, f, offset, rest) ← load_line f offset line;
      match error with
      | None => load_loop fuel f offset line_no file
      | Some _ =>
          e ← error_extend error ("Error on line " +:+ pretty line_no +:+ " offset " +:+ pretty (Z.of_nat (length line - length rest)));
          Ret (e, f)
      end
  end.
Definition load_mac_address_file (f : fpga) (file : list Z) : outcome (error__t * fpga) := load_loop (length file) f 0 0 file.
End load.
End MacAddress.

(** ** The MAC addresses that are written

    A file of comments, blank lines and addresses writes each address, digit by digit as
    it stands there, to the registers of its place among the blank lines and addresses. *)

Module MacAddressSpec.
Import Parse Format Capture CaptureSpec Hardware Indent IndentSpec MacAddress.

(** ** The text of an address *)

(** A digit, in upper or lower case. *)
Definition hex_digit (lower : bool) (d : Z) : Z := if decide (d < 10) then 48 + d else if lower then 87 + d else 55 + d.
(** An octet, with the case of its digits. *)
Abbreviation octet_text := (bool * bool * Z)%type.
Definition octet_digits (x : octet_text) : list Z :=
  let '(high, low, o) := x in [hex_digit high (o / 16); hex_digit low (o mod 16)].
Definition octet_ok (x : octet_text) : Prop := 0 ≤ x.2 < 256.
Fixpoint octets_text (first : bool) (l : list octet_text) : list Z :=
  match l with [] => [] | x :: l => (if first then [] else [58]) ++ octet_digits x ++ octets_text false l end.
Definition octets_value (mac : Z) (l : list octet_text) : Z := foldl (λ m x, m * 256 + x.2) mac l.

Lemma lor_digits k x y : 0 ≤ k → 0 ≤ y < 2 ^ k → Z.lor (Z.shiftl x k) y = x * 2 ^ k + y.
Proof.
  intros Hk Hy. assert (Z.land (Z.shiftl x k) y = 0) as Hl.
  { apply Z.bits_inj'. intros n Hn. rewrite Z.land_spec, Z.bits_0. destruct (decide (n < k)).
    - by rewrite Z.shiftl_spec_low.
    - rewrite <-(Z.mod_small y (2 ^ k)), Z.mod_pow2_bits_high by lia. apply andb_false_r. }
  rewrite <-Z.lxor_lor, <-Z.add_nocarry_lxor, Z.shiftl_mul_pow2 by done. done.
Qed.
Lemma nibble_read lower d rest : 0 ≤ d < 16 → parse_nibble (hex_digit lower d :: rest) = (OK d, rest).
Proof.
  intros Hd. unfold parse_nibble, hex_digit. cbn [cur tail].
  assert (∃ n, d = Z.of_nat n ∧ (n < 16)%nat) as (n & -> & Hn) by (exists (Z.to_nat d); lia).
  destruct lower; do 16 (destruct n as [|n]; [done|]); lia.
Qed.
Lemma octet_read x rest : octet_ok x → parse_octet (octet_digits x ++ rest) = (OK x.2, rest).
Proof.
  destruct x as [[high low] o]. unfold octet_ok, octet_digits. cbn [snd]. intros Ho. unfold parse_octet. cbn [app].
  pose proof (Z.mod_pos_bound o 16 ltac:(lia)). pose proof (Z.div_mod o 16 ltac:(lia)).
  unfold mbind, parser_bind. rewrite nibble_read by lia. rewrite nibble_read by lia. unfold mret, parser_ret. do 2 f_equal.
  rewrite lor_digits by lia. change (2 ^ 4) with 16. rewrite wrap_small; lia.
Qed.

Lemma octets_read l i mac rest :
  Forall octet_ok l → (i + length l ≤ 6)%nat → 0 ≤ mac < 256 ^ Z.of_nat i →
  parse_octets (length l) i mac (octets_text (bool_decide (i = 0%nat)) l ++ rest) = (OK (octets_value mac l), rest) ∧
  0 ≤ octets_value mac l < 256 ^ Z.of_nat (i + length l).
Proof.
  intros Hl. revert i mac. induction Hl as [|x l Hx Hl IH]; intros i mac Hi Hm; [by rewrite Nat.add_0_r|]. cbn [length] in *.
  assert (0 ≤ mac * 256 + x.2 < 256 ^ Z.of_nat (S i)) as Hm'.
  { unfold octet_ok in Hx. replace (Z.of_nat (S i)) with (Z.of_nat i + 1) by lia. rewrite Z.pow_add_r by lia. lia. }
  assert (256 ^ Z.of_nat (S i) ≤ 256 ^ 6) as Hp by (apply Z.pow_le_mono_r; lia).
  destruct (IH (S i) (mac * 256 + x.2) ltac:(lia) Hm') as [IH1 IH2]. replace (i + S (length l))%nat with (S i + length l)%nat by lia.
  split; [|done]. cbn [parse_octets octets_text octets_value foldl]. unfold octet_ok in Hx.
  assert (u64 (Z.lor (Z.shiftl mac 8) x.2) = mac * 256 + x.2) as Hv by (rewrite lor_digits by lia; apply wrap_small; lia).
  rewrite (bool_decide_false (S i = 0%nat)) in IH1 by lia. unfold mbind, parser_bind. destruct i as [|i].
  - rewrite bool_decide_false by lia. rewrite bool_decide_true by done. cbn [app mret parser_ret]. unfold mret, parser_ret.
    rewrite <-app_assoc, octet_read by done. by rewrite Hv.
  - rewrite bool_decide_true by lia. rewrite bool_decide_false by lia. cbn [app]. unfold parse_char, read_char. rewrite decide_True by done. cbn [test_ok TEST_OK_].
    rewrite <-app_assoc. cbn. rewrite octet_read by done. by rewrite Hv.
Qed.
Lemma address_read l rest :
  Forall octet_ok l → length l = 6%nat →
  parse_mac_address (octets_text true l ++ 10 :: rest) = (OK (octets_value 0 l), rest) ∧ 0 ≤ octets_value 0 l < 2 ^ 48.
Proof.
  intros Hl Hn. destruct (octets_read l 0 0 (10 :: rest) Hl) as [E Hv]; [lia|done|]. rewrite Hn in *. split; [|done].
  unfold parse_mac_address, mbind, parser_bind. rewrite bool_decide_true in E by done. by rewrite E.
Qed.

(** ** The lines of a file *)

Inductive mac_line := Comment (text : list Z) | Blank | Address (octets : list octet_text).
Definition line_text (x : mac_line) : list Z :=
  match x with Comment text => 35 :: text ++ [10] | Blank => [10] | Address l => octets_text true l ++ [10] end.
Definition line_ok (x : mac_line) : Prop :=
  match x with
  | Comment text => Forall (λ c, c ≠ 0 ∧ c ≠ 10) text ∧ (length text ≤ 79)%nat
  | Blank => True
  | Address l => Forall octet_ok l ∧ length l = 6%nat
  end.
(** Each address with its place. *)
Fixpoint places (offset : Z) (lines : list mac_line) : list (Z * Z) :=
  match lines with
  | [] => []
  | Comment _ :: lines => places offset lines
  | Blank :: lines => places (offset + 1) lines
  | Address l :: lines => (offset, octets_value 0 l) :: places (offset + 1) lines
  end.

Section load.
Context `{Fpga}.
(** The low and the high half of an address. *)
Definition write_address (f : fpga) (x : Z * Z) : fpga :=
  let '(offset, mac) := x in
  write_named_register (write_named_register f (MAC_ADDRESS_BASE + 2 * offset) (mac mod 2 ^ 24)) (MAC_ADDRESS_BASE + 2 * offset + 1) (mac / 2 ^ 24).
Lemma write_address_spec f offset mac :
  offset < MAC_ADDRESS_COUNT → 0 ≤ mac < 2 ^ 48 → hw_write_mac_address f offset mac = Ret (write_address f (offset, mac)).
Proof.
  intros Ho Hm. unfold hw_write_mac_address, assert_ok, write_address, mac_words. rewrite bool_decide_true by done. cbn [mbind outcome_bind fst snd].
  change 0xffffff with (Z.ones 24). rewrite !Z.land_ones, Z.shiftr_div_pow2 by lia. rewrite (Z.mod_small (mac / 2 ^ 24)); [done|].
  split; [apply Z.div_pos; lia|]. apply Z.div_lt_upper_bound; lia.
Qed.

Lemma octet_chars x : octet_ok x → Forall (λ c, c ≠ 0 ∧ c ≠ 10 ∧ c ≠ 35) (octet_digits x).
Proof.
  destruct x as [[h l] o]. unfold octet_ok, octet_digits, hex_digit. cbn [snd]. intros Ho.
  pose proof (Z.mod_pos_bound o 16 ltac:(lia)). pose proof (Z.div_pos o 16 ltac:(lia) ltac:(lia)).
  repeat constructor; case_decide; try lia; destruct h, l; lia.
Qed.
Lemma octets_chars l first : Forall octet_ok l → Forall (λ c, c ≠ 0 ∧ c ≠ 10 ∧ c ≠ 35) (octets_text first l).
Proof.
  intros Hl. revert first. induction Hl as [|x l Hx _ IH]; intros first; [constructor|]. cbn [octets_text].
  repeat apply Forall_app_2; [by destruct first; repeat constructor|by apply octet_chars|done].
Qed.
Lemma octets_length l first : (length (octets_text first l) ≤ 3 * length l)%nat.
Proof. revert first. induction l as [|[[h o] x] l IH]; intros first; [simpl; lia|]. cbn. specialize (IH false). destruct first; simpl; lia. Qed.

Definition line_body (x : mac_line) : list Z := match x with Comment text => 35 :: text | Blank => [] | Address l => octets_text true l end.
Lemma line_text_body x : line_text x = line_body x ++ [10].
Proof. by destruct x. Qed.
Lemma body_plain x : line_ok x → Forall (λ c, c ≠ 0 ∧ c ≠ 10) (line_body x) ∧ (length (line_body x) ≤ 80)%nat.
Proof.
  destruct x as [text| |l]; cbn [line_ok line_body].
  - intros [Ht Hl]. split; [by constructor|simpl; lia].
  - split; [constructor|simpl; lia].
  - intros [Hl Hn]. split; [|pose proof (octets_length l true); lia]. eapply Forall_impl; [by apply octets_chars|]. naive_solver.
Qed.
Lemma c_str_whole l : Forall (λ c, c ≠ 0) l → c_str l = l.
Proof. induction 1 as [|c l Hc _ IH]; [done|]. cbn. by rewrite decide_False, IH. Qed.
Lemma line_read x file : line_ok x → fgets LINE_BUFFER (line_text x ++ file) = (line_text x, file) ∧ c_str (line_text x) = line_text x.
Proof.
  intros [Hb Hl]%body_plain. rewrite line_text_body, <-app_assoc. split; [apply IndentSpec.fgets_line; [done|unfold LINE_BUFFER; lia]|].
  apply c_str_whole, Forall_app_2; [|by repeat constructor]. eapply Forall_impl; [exact Hb|]. naive_solver.
Qed.

(** A line writes what it has to at its place. *)
Definition next_offset (offset : Z) (x : mac_line) : Z := match x with Comment _ => offset | _ => offset + 1 end.
Lemma load_line_spec f offset x :
  line_ok x → Forall (λ p, p.1 < MAC_ADDRESS_COUNT) (places offset [x]) → 0 ≤ offset < 2 ^ 32 - 1 →
  ∃ rest, load_line f offset (line_text x ++ [0]) = Ret (None, foldl write_address f (places offset [x]), next_offset offset x, rest).
Proof.
  intros Hx Hp Ho. unfold load_line. destruct x as [text| |l]; cbn [line_text cur app].
  - rewrite decide_True by done. eexists. destruct (line_read (Comment text) [] Hx) as [_ E]. cbn [line_text] in E.
    assert (10 ∈ c_str (35 :: (text ++ [10]) ++ [0])) as Hin.
    { change (35 :: (text ++ [10]) ++ [0]) with ((35 :: text ++ [10]) ++ [0]). rewrite (c_str_terminated _ []).
      - right. apply elem_of_app. right. by left.
      - destruct Hx as [Ht _]. constructor; [done|]. apply Forall_app_2; [|by repeat constructor]. eapply Forall_impl; [exact Ht|]. naive_solver. }
    by rewrite bool_decide_true.
  - rewrite decide_False, decide_True by done. eexists. by rewrite wrap_small by lia.
  - destruct Hx as [Hl Hn]. pose proof (octets_chars l true Hl) as Hc. cbn [places] in Hp. apply Forall_cons in Hp as [Hp _]. cbn [fst] in Hp.
    rewrite <-app_assoc. cbn [app]. destruct (address_read l [0] Hl Hn) as [E Hv].
    assert (∃ c t, octets_text true l = c :: t ∧ c ≠ 35 ∧ c ≠ 10) as (c & t & Et & Hc1 & Hc2).
    { destruct l as [|[[h o] v] l]; [done|]. cbn in Hc |- *. inversion Hc as [|? ? (? & ? & ?)]; subst. eauto. }
    rewrite Et in *. cbn [cur app] in *. rewrite !decide_False by done. rewrite bool_decide_true by (exact Hp). cbn [TEST_OK_]. rewrite E, write_address_spec by (exact Hp || done).
    cbn [mbind outcome_bind]. eexists. rewrite wrap_small by lia. done.
Qed.
Lemma places_cons offset x lines : places offset (x :: lines) = places offset [x] ++ places (next_offset offset x) lines.
Proof. by destruct x. Qed.

Lemma load_loop_spec fuel f offset line_no lines :
  Forall line_ok lines → Forall (λ p, p.1 < MAC_ADDRESS_COUNT) (places offset lines) → 0 ≤ offset → offset + Z.of_nat (length lines) < 2 ^ 32 →
  (length (concat (line_text <$> lines)) ≤ fuel)%nat →
  load_loop fuel f offset line_no (concat (line_text <$> lines)) = Ret (None, foldl write_address f (places offset lines)).
Proof.
  intros Hl. revert fuel f offset line_no. induction Hl as [|x lines Hx Hl IH]; intros fuel f offset line_no Hp H0 Ho Hf; [by destruct fuel|].
  rewrite places_cons in *. apply Forall_app in Hp as [Hp1 Hp2]. rewrite fmap_cons in *. cbn [concat length] in *.
  destruct (line_read x (concat (line_text <$> lines)) Hx) as [Er Ec].
  destruct (line_text x ++ concat (line_text <$> lines)) as [|c t] eqn:Et.
  { apply app_eq_nil in Et as [Et _]. rewrite line_text_body in Et. by destruct (line_body x). }
  destruct fuel as [|fuel]; [simpl in Hf; lia|]. cbn [load_loop]. rewrite Er, Ec.
  destruct (load_line_spec f offset x Hx Hp1) as [rest ->]; [lia|]. cbn [mbind outcome_bind]. rewrite foldl_app. apply IH.
  - done.
  - destruct x; cbn; lia.
  - destruct x; cbn; lia.
  - apply (f_equal length) in Et. rewrite length_app, line_text_body, length_app in Et. simpl in Et, Hf. lia.
Qed.

(** A file of comments, blank lines and MAC addresses is loaded without error, and
    writes each address, in the digits and the case in which it stands, to the pair of
    registers of its place among the blank lines and addresses, its low half first. *)
Theorem mac_addresses_loaded f lines :
  Forall line_ok lines → Forall (λ p, p.1 < MAC_ADDRESS_COUNT) (places 0 lines) → Z.of_nat (length lines) < 2 ^ 32 →
  load_mac_address_file f (concat (line_text <$> lines)) = Ret (None, foldl write_address f (places 0 lines)).
Proof. intros Hl Hp Ho. by apply load_loop_spec. Qed.

(** ** Every file *)

(** The errors of the parsers have one message. *)
Definition one_message {A} (r : res A) : Prop := match r with Err e => length (messages e) = 1%nat | OK _ => True end.
Lemma one_message_bind {A B} (p : parser A) (k : A → parser B) s :
  one_message (p s).1 → (∀ a s', one_message (k a s').1) → one_message ((p ≫= k) s).1.
Proof. intros Hp Hk. unfold mbind, parser_bind. destruct (p s) as [[a|e] s']; [apply Hk|exact Hp]. Qed.
Lemma nibble_errors s : one_message (parse_nibble s).1.
Proof. unfold parse_nibble. by repeat case_decide. Qed.
Lemma char_errors c s : one_message (parse_char c s).1.
Proof. unfold parse_char. by destruct (read_char _ s) as [[] ?]. Qed.
Lemma octets_errors n i mac s : one_message (parse_octets n i mac s).1.
Proof.
  revert i mac s. induction n as [|n IH]; intros i mac s; [done|]. cbn [parse_octets]. apply one_message_bind.
  - destruct (bool_decide _); [apply char_errors|done].
  - intros _ s1. apply one_message_bind; [|intros; apply IH]. apply one_message_bind; [apply nibble_errors|]. intros h s2.
    by apply one_message_bind; [apply nibble_errors|].
Qed.
Lemma load_line_total f offset line :
  ∃ e f' o rest, load_line f offset line = Ret (e, f', o, rest) ∧ ∀ e', e = Some e' → length (messages e') = 1%nat.
Proof.
  unfold load_line. case_decide; [|case_decide].
  - eexists _, _, _, _. split; [done|]. destruct (bool_decide _); cbn; by intros e' [= <-].
  - by eexists _, _, _, _.
  - destruct (bool_decide (offset < MAC_ADDRESS_COUNT)) eqn:Ho; cbn [TEST_OK_].
    2:{ eexists _, _, _, _. split; [done|]. by intros e' [= <-]. }
    assert (one_message (parse_mac_address line).1) as He.
    { apply one_message_bind; [apply octets_errors|]. intros mac s1. by apply one_message_bind; [apply char_errors|]. }
    destruct (parse_mac_address line) as [[mac|e] rest]; cbn [fst one_message] in He.
    + unfold hw_write_mac_address, assert_ok. rewrite Ho. cbn [mbind outcome_bind]. by eexists _, _, _, _.
    + eexists _, _, _, _. split; [done|]. by intros e' [= <-].
Qed.

(** Whatever the file, it is read to its end or to an error. *)
Lemma load_total f file : ∃ e f', load_mac_address_file f file = Ret (e, f').
Proof.
  unfold load_mac_address_file. assert (∀ fuel f offset line_no file, (length file ≤ fuel)%nat → ∃ e f', load_loop fuel f offset line_no file = Ret (e, f')) as Hl; [|by apply Hl].
  clear. induction fuel as [|fuel IH]; intros f offset line_no file Hf.
  - destruct file; [by eexists _, _|simpl in Hf; lia].
  - destruct file as [|c file]; [by eexists _, _|]. cbn [load_loop]. pose proof (fgets_progress LINE_BUFFER c file ltac:(unfold LINE_BUFFER; lia)) as Hp.
    destruct (fgets LINE_BUFFER (c :: file)) as [bytes file']. cbn [snd] in Hp. simpl in Hf.
    destruct (load_line_total f offset (c_str bytes ++ [0])) as (e & f1 & o1 & rest & -> & He). cbn [mbind outcome_bind].
    destruct e as [e|]; [|apply IH; lia]. unfold error_extend. rewrite (He e eq_refl). cbn. by eexists _, _.
Qed.
End load.

(** ** Examples *)

#[local] Existing Instance register_file.
Definition no_registers : fpga := gmap_empty.
Definition example_octets : list octet_text :=
  [(true, true, 0); (true, true, 31); (true, true, 41); (true, false, 171); (false, false, 205); (true, true, 255)].
Definition example_file : list mac_line := [Comment (bytes_of " Ethernet"); Blank; Address example_octets].
Example example_text : concat (line_text <$> example_file) = bytes_of "# Ethernet" ++ [10; 10] ++ bytes_of "00:1f:29:aB:CD:ff" ++ [10].
Proof. vm_compute. reflexivity. Qed.
Lemma mac_addresses_loaded_witness :
  load_mac_address_file no_registers (concat (line_text <$> example_file)) = Ret (None, foldl write_address no_registers [(1, 0x1f29abcdff)]).
Proof.
  apply (mac_addresses_loaded no_registers example_file); [|by repeat constructor|done].
  repeat constructor; cbn; try lia; by vm_compute.
Defined.

(** There may be more blank lines than there are places, although the comment on the
    format allows at most four blank or address lines. *)
Lemma blank_lines_unlimited : load_mac_address_file no_registers (replicate 5 10) = Ret (None, no_registers).
Proof. vm_compute. reflexivity. Qed.
End MacAddressSpec.
