(* ===== verification/SlowLoad.v ===== *)
(** * Programming the slow FPGA: panda-server/server/slow_load.c

    A small program that clocks a bit stream from its standard input into a second FPGA
    over pins of the first, one bit at a time.  The pins that are read, and the blocks
    that [read] gives, are answers of the environment; the delays and the messages to the
    user are not modelled, nor the ends by [ASSERT] when a file of the kernel cannot be
    opened or written. *)

From S2P Require Import Prelude.
From stdpp Require Import base numbers option strings pretty list.
Open Scope Z_scope.

Module SlowLoad.

(** ** The pins *)

Inductive gpio := GPIO_CCLK | GPIO_D0 | GPIO_PROGB | GPIO_DONE | GPIO_INIT | GPIO_M0.
#[export] Instance gpio_eq_dec : EqDecision gpio.
Proof. solve_decision. Defined.

(** A text written to a file, and a value to the file of a pin. *)
Inductive effect := Wrote (path text : string) | Set_pin (pin : gpio) (value : bool).

(** The last values written, [gpio_info[].value]; what was done; and the values that the
    pins will have when they are read, false when there are none left. *)
Record loader := mk_loader { pin_value : gpio → bool; effects : list effect; reads : list bool }.

Section zynq.
(** Whether the processor is 64 bit ARM, and which pins are exported at the start. *)
Context (aarch64 : bool) (exported : Z → bool).

Definition GPIO_OFFSET : Z := if aarch64 then 338 else 906.
Definition gpio_number (g : gpio) : Z :=
  GPIO_OFFSET +
  match g with GPIO_CCLK => 9 | GPIO_D0 => 10 | GPIO_PROGB => 13 | GPIO_DONE => 11 | GPIO_INIT => 12 | GPIO_M0 => 0 end.

Definition read_gpio (l : loader) (g : gpio) : bool * loader :=
  (default false (head (reads l)), mk_loader (pin_value l) (effects l) (tail (reads l))).
Definition write_gpio_value (l : loader) (g : gpio) (value : bool) : loader :=
  mk_loader (λ g', if decide (g' = g) then value else pin_value l g') (effects l ++ [Set_pin g value]) (reads l).
Definition write_gpio (l : loader) (g : gpio) (value : bool) : loader :=
  if eqb (pin_value l g) value then l else write_gpio_value l g value.
Definition write_to_file (l : loader) (path text : string) : loader :=
  mk_loader (pin_value l) (effects l ++ [Wrote path text]) (reads l).

Definition format_gpio_name (number : Z) (suffix : option string) : string :=
  "/sys/class/gpio/gpio" +:+ pretty number +:+ match suffix with Some s => "/" +:+ s | None => EmptyString end.
Definition configure_gpio (l : loader) (g : gpio) (direction : string) : loader :=
  let l := if exported (gpio_number g) then write_to_file l "/sys/class/gpio/unexport" (pretty (gpio_number g)) else l in
  let l := write_to_file l "/sys/class/gpio/export" (pretty (gpio_number g)) in
  write_to_file l (format_gpio_name (gpio_number g) (Some "direction"%string)) direction.
Definition configure_gpio_out (l : loader) (g : gpio) (value : bool) : loader :=
  write_gpio_value (configure_gpio l g "out") g value.
Definition configure_gpio_in (l : loader) (g : gpio) : loader := configure_gpio l g "in".
Definition unconfigure_gpio (l : loader) (g : gpio) : loader := write_to_file l "/sys/class/gpio/unexport" (pretty (gpio_number g)).

Definition init_GPIOs (l : loader) : loader :=
  let l := configure_gpio_out l GPIO_M0 true in
  let l := configure_gpio_out l GPIO_CCLK false in
  let l := configure_gpio_out l GPIO_D0 false in
  let l := configure_gpio_out l GPIO_PROGB true in
  let l := configure_gpio_in l GPIO_DONE in
  configure_gpio_in l GPIO_INIT.
Definition close_gpios (l : loader) : loader :=
  fold_left unconfigure_gpio [GPIO_CCLK; GPIO_D0; GPIO_PROGB; GPIO_DONE; GPIO_INIT; GPIO_M0] l.

(** ** Clocking bits *)

Definition cclk (l : loader) : loader := write_gpio (write_gpio l GPIO_CCLK true) GPIO_CCLK false.
(** [||] reads the second pin only when the first is low. *)
Definition check_status_ok (l : loader) : bool * loader :=
  let '(done, l) := read_gpio l GPIO_DONE in if done then (true, l) else read_gpio l GPIO_INIT.
Definition shift_byte_out (l : loader) (data : Z) : loader :=
  fold_left (λ l bit, cclk (write_gpio l GPIO_D0 (Z.testbit data bit))) (seqZ 0 8) l.

(** ** The program *)

(** Waiting for a pin, with a bound on the failures allowed after the first, and what is
    done for each. *)
Fixpoint wait_high (count : nat) (step : loader → loader) (g : gpio) (l : loader) : bool * loader :=
  let '(high, l) := read_gpio l g in
  if high then (true, l) else match count with O => (false, l) | S count => wait_high count step g (step l) end.

(** The loop that reads; each block of the file has at least one byte. *)
Fixpoint shift_blocks (l : loader) (blocks : list (list Z)) : bool * loader :=
  match blocks with
  | [] => (true, l)
  | block :: blocks =>
      let '(ok, l) := check_status_ok l in
      if ok then shift_blocks (fold_left shift_byte_out block l) blocks else (false, l)
  end.
Definition program_FPGA (l : loader) (blocks : list (list Z)) : bool * loader :=
  let l := write_gpio l GPIO_PROGB false in
  let '(init, l) := read_gpio l GPIO_INIT in
  if init then (false, l)
  else
    let l := write_gpio l GPIO_PROGB true in
    let '(ok, l) := wait_high 10001 id GPIO_INIT l in
    if negb ok then (false, l)
    else
      let '(ok, l) := shift_blocks l blocks in
      if negb ok then (false, l) else wait_high 1001 cclk GPIO_DONE l.
(** [main]: the exit code. *)
Definition main (reads : list bool) (blocks : list (list Z)) : Z * loader :=
  let l := init_GPIOs (mk_loader (λ _, false) [] reads) in
  let '(ok, l) := program_FPGA l blocks in
  (if ok then 0 else 1, close_gpios l).
End zynq.
End SlowLoad.

(** ** What the slow FPGA receives

    An FPGA that is cleared by a low PROG_B and takes D0 at each rising edge of CCLK
    receives the bits of the file, the lowest of each byte first, although values that do
    not change are not written. *)

Module SlowLoadSpec.
Import SlowLoad.

(** ** The receiver *)

Record receiver := mk_receiver { r_progb : bool; r_cclk : bool; r_d0 : bool; received : list bool }.
Definition receive (r : receiver) (e : effect) : receiver :=
  match e with
  | Set_pin GPIO_CCLK v => mk_receiver (r_progb r) v (r_d0 r) (received r ++ (if negb (r_cclk r) && v && r_progb r then [r_d0 r] else []))
  | Set_pin GPIO_D0 v => mk_receiver (r_progb r) (r_cclk r) v (received r)
  | Set_pin GPIO_PROGB v => mk_receiver v (r_cclk r) (r_d0 r) (if v then received r else [])
  | _ => r
  end.
Definition receiver_of (l : loader) : receiver := fold_left receive (effects l) (mk_receiver false false false []).

(** The pins have the values that the program remembers. *)
Record follows (l : loader) (r : receiver) : Prop := {
  fo_receiver : receiver_of l = r;
  fo_progb : pin_value l GPIO_PROGB = r_progb r;
  fo_cclk : pin_value l GPIO_CCLK = r_cclk r;
  fo_d0 : pin_value l GPIO_D0 = r_d0 r;
}.

Lemma receiver_write l g v : receiver_of (write_gpio_value l g v) = receive (receiver_of l) (Set_pin g v).
Proof. unfold receiver_of. cbn. by rewrite fold_left_app. Qed.
Lemma receiver_file l path text : receiver_of (write_to_file l path text) = receiver_of l.
Proof. unfold receiver_of. cbn. by rewrite fold_left_app. Qed.

Lemma write_progb l r v : follows l r → follows (write_gpio l GPIO_PROGB v) (mk_receiver v (r_cclk r) (r_d0 r) (if v then received r else (if r_progb r then [] else received r))).
Proof.
  intros [Hr Hp Hc Hd]. unfold write_gpio. destruct (eqb _ _) eqn:E.
  - apply eqb_prop in E. rewrite Hp in E. subst v. destruct r as [[] c d bits]; by split.
  - apply eqb_false_iff in E. split; [rewrite receiver_write, Hr|done..]. cbn. rewrite Hp in E. by destruct v, (r_progb r).
Qed.
Lemma write_d0 l r v : follows l r → follows (write_gpio l GPIO_D0 v) (mk_receiver (r_progb r) (r_cclk r) v (received r)).
Proof.
  intros [Hr Hp Hc Hd]. unfold write_gpio. destruct (eqb _ _) eqn:E.
  - apply eqb_prop in E. rewrite Hd in E. subst v. destruct r; by split.
  - split; [by rewrite receiver_write, Hr|done..].
Qed.
Lemma clock l p d bits : follows l (mk_receiver p false d bits) → follows (cclk l) (mk_receiver p false d (bits ++ if p then [d] else [])).
Proof.
  intros [Hr Hp Hc Hd]. unfold cclk. assert (write_gpio l GPIO_CCLK true = write_gpio_value l GPIO_CCLK true) as -> by (unfold write_gpio; by rewrite Hc).
  assert (∀ l', write_gpio (write_gpio_value l' GPIO_CCLK true) GPIO_CCLK false = write_gpio_value (write_gpio_value l' GPIO_CCLK true) GPIO_CCLK false) as -> by done.
  split; [rewrite !receiver_write, Hr|done..]. cbn. by rewrite app_nil_r.
Qed.
Lemma read_follows l r g : follows l r → follows (read_gpio l g).2 r.
Proof. intros [? ? ? ?]. by split. Qed.

(** ** Bytes and blocks *)

Definition bits_of (byte : Z) : list bool := Z.testbit byte <$> seqZ 0 8.
Definition bits_of_bytes (bytes : list Z) : list bool := concat (bits_of <$> bytes).

Lemma fold_left_cons {A B} (f : A → B → A) x l a : fold_left f (x :: l) a = fold_left f l (f a x).
Proof. done. Qed.
Lemma bits_of_bytes_cons byte bytes : bits_of_bytes (byte :: bytes) = bits_of byte ++ bits_of_bytes bytes.
Proof. unfold bits_of_bytes. by rewrite fmap_cons. Qed.
Lemma shift_bits l d bits byte ns :
  follows l (mk_receiver true false d bits) →
  ∃ d', follows (fold_left (λ l bit, cclk (write_gpio l GPIO_D0 (Z.testbit byte bit))) ns l) (mk_receiver true false d' (bits ++ (Z.testbit byte <$> ns))).
Proof.
  revert l d bits. induction ns as [|n ns IH]; intros l d bits Hf; [exists d; by rewrite app_nil_r|]. cbn [fold_left fmap list_fmap].
  destruct (IH (cclk (write_gpio l GPIO_D0 (Z.testbit byte n))) (Z.testbit byte n) (bits ++ [Z.testbit byte n])) as [d' H].
  - apply (clock _ true). exact (write_d0 _ _ _ Hf).
  - exists d'. by rewrite <-app_assoc in H.
Qed.
Lemma shift_one l d bits byte :
  follows l (mk_receiver true false d bits) → ∃ d', follows (shift_byte_out l byte) (mk_receiver true false d' (bits ++ bits_of byte)).
Proof. apply shift_bits. Qed.
Lemma shift_bytes l d bits bytes :
  follows l (mk_receiver true false d bits) → ∃ d', follows (fold_left shift_byte_out bytes l) (mk_receiver true false d' (bits ++ bits_of_bytes bytes)).
Proof.
  revert l d bits. induction bytes as [|byte bytes IH]; intros l d bits Hf; [exists d; by rewrite app_nil_r|]. rewrite fold_left_cons.
  destruct (shift_one l d bits byte Hf) as [d1 H1]. destruct (IH _ _ _ H1) as [d2 H2]. exists d2.
  by rewrite bits_of_bytes_cons, app_assoc.
Qed.
Lemma check_follows l r : follows l r → follows (check_status_ok l).2 r.
Proof.
  intros Hf. unfold check_status_ok. pose proof (read_follows l r GPIO_DONE Hf) as H1. destruct (read_gpio l GPIO_DONE) as [[] l1]; [done|].
  by apply read_follows.
Qed.
(** As far as the status allows. *)
Lemma blocks_shifted l d bits blocks :
  follows l (mk_receiver true false d bits) →
  let '(ok, l') := shift_blocks l blocks in
  ∃ d' n, follows l' (mk_receiver true false d' (bits ++ bits_of_bytes (concat (take n blocks)))) ∧ (ok = true → n = length blocks).
Proof.
  revert l d bits. induction blocks as [|block blocks IH]; intros l d bits Hf; cbn [shift_blocks].
  { exists d, 0%nat. by rewrite app_nil_r. }
  pose proof (check_follows l _ Hf) as Hc. destruct (check_status_ok l) as [[] l1]; cbn [snd] in Hc.
  - destruct (shift_bytes _ _ _ block Hc) as [d1 H1]. specialize (IH _ _ _ H1). destruct (shift_blocks _ blocks) as [ok l2].
    destruct IH as (d2 & n & H2 & Hn). exists d2, (S n). split; [|intros E; simpl; by rewrite (Hn E)].
    cbn [take concat]. unfold bits_of_bytes in *. by rewrite fmap_app, concat_app, app_assoc.
  - exists d, 0%nat. by rewrite app_nil_r.
Qed.
Lemma waited_init n l r g : follows l r → follows (wait_high n id g l).2 r.
Proof.
  revert l. induction n as [|n IH]; intros l Hf; cbn [wait_high]; pose proof (read_follows l r g Hf) as H1; destruct (read_gpio l g) as [[] l1]; try done.
  by apply IH.
Qed.
Lemma waited_done n l d bits g :
  follows l (mk_receiver true false d bits) → ∃ k, (k ≤ n)%nat ∧ follows (wait_high n cclk g l).2 (mk_receiver true false d (bits ++ replicate k d)).
Proof.
  revert l bits. induction n as [|n IH]; intros l bits Hf; cbn [wait_high]; pose proof (read_follows l _ g Hf) as H1;
    destruct (read_gpio l g) as [[] l1]; cbn [snd] in H1 |- *; try (exists 0%nat; split; [lia|by rewrite app_nil_r]).
  destruct (IH (cclk l1) (bits ++ [d]) (clock _ true _ _ H1)) as (k & Hk & H2). exists (S k). split; [lia|]. by rewrite <-app_assoc in H2.
Qed.

(** ** The whole program *)

Section zynq.
Context (aarch64 : bool) (exported : Z → bool).

Lemma file_follows l r path text : follows l r → follows (write_to_file l path text) r.
Proof. intros [? ? ? ?]. split; [by rewrite receiver_file|done..]. Qed.
Lemma configure_receiver l g direction :
  receiver_of (configure_gpio aarch64 exported l g direction) = receiver_of l ∧ pin_value (configure_gpio aarch64 exported l g direction) = pin_value l ∧
  reads (configure_gpio aarch64 exported l g direction) = reads l.
Proof. unfold configure_gpio. destruct (exported _); by rewrite !receiver_file. Qed.
Lemma configure_follows l r g direction : follows l r → follows (configure_gpio aarch64 exported l g direction) r.
Proof. intros [? ? ? ?]. destruct (configure_receiver l g direction) as (E1 & E2 & _). split; rewrite ?E1, ?E2; done. Qed.
Lemma value_follows l r g v : follows l r → follows (write_gpio_value l g v) (receive r (Set_pin g v)).
Proof. intros [Hr Hp Hc Hd]. split; [by rewrite receiver_write, Hr|by destruct g..]. Qed.
Lemma init_follows reads : follows (init_GPIOs aarch64 exported (mk_loader (λ _, false) [] reads)) (mk_receiver true false false []).
Proof.
  assert (follows (mk_loader (λ _, false) [] reads) (mk_receiver false false false [])) as H0 by by split.
  unfold init_GPIOs, configure_gpio_in, configure_gpio_out. do 2 apply configure_follows.
  exact (value_follows _ _ _ _ (configure_follows _ _ _ _ (value_follows _ _ _ _ (configure_follows _ _ _ _
    (value_follows _ _ _ _ (configure_follows _ _ _ _ (value_follows _ _ GPIO_M0 true (configure_follows _ _ GPIO_M0 "out" H0)))))))).
Qed.
Lemma close_follows l r : follows l r → follows (close_gpios aarch64 l) r.
Proof. intros Hf. unfold close_gpios, unconfigure_gpio. cbn [fold_left]. by do 6 apply file_follows. Qed.

(** C38: When the program ends the slow FPGA has received the bits of a first part of the
    file, and when it reports success it has received all of the file, followed by no more
    than 1001 copies of one bit while it started.  Each byte comes from its lowest bit on:
    this is what the code does, against its own comment, which says MSB first, LSB last;
    and the eight clocks that the comment of the last step promises are not among those
    that follow, which all come before DONE is seen. *)
Theorem program_clocks_file reads blocks :
  let '(code, l) := main aarch64 exported reads blocks in
  ∃ n k d, (k ≤ 1001)%nat ∧ received (receiver_of l) = bits_of_bytes (concat (take n blocks)) ++ replicate k d ∧ (code = 0 → n = length blocks).
Proof.
  unfold main, program_FPGA. pose proof (init_follows reads) as H0. set (l0 := init_GPIOs _ _ _) in *. clearbody l0.
  assert (∀ l p c d bits, follows l (mk_receiver p c d bits) → received (receiver_of (close_gpios aarch64 l)) = bits) as Hend.
  { intros l p c d bits Hf%close_follows. by rewrite (fo_receiver _ _ Hf). }
  assert (follows (write_gpio l0 GPIO_PROGB false) (mk_receiver false false false [])) as H1 by exact (write_progb _ _ false H0).
  pose proof (read_follows _ _ GPIO_INIT H1) as H2. destruct (read_gpio _ GPIO_INIT) as [[] l2]; cbn [snd] in H2.
  { exists 0%nat, 0%nat, false. split; [lia|]. split; [by eapply Hend|done]. }
  assert (follows (write_gpio l2 GPIO_PROGB true) (mk_receiver true false false [])) as H3 by exact (write_progb _ _ true H2).
  pose proof (waited_init 10001 _ _ GPIO_INIT H3) as H4. destruct (wait_high 10001 id _ _) as [[] l4]; cbn [snd negb] in H4 |- *.
  2:{ exists 0%nat, 0%nat, false. split; [lia|]. split; [by eapply Hend|done]. }
  pose proof (blocks_shifted l4 false [] blocks H4) as H5. destruct (shift_blocks l4 blocks) as [[] l5]; destruct H5 as (d & n & H5 & Hn); cbn [negb].
  2:{ exists n, 0%nat, false. split; [lia|]. split; [|done]. cbn [replicate]. rewrite app_nil_r. by eapply Hend. }
  destruct (waited_done 1001 l5 d _ GPIO_DONE H5) as (k & Hk & H6). destruct (wait_high 1001 cclk _ _) as [ok l6]. cbn [snd] in H6.
  exists n, k, d. split; [done|]. split; [by eapply Hend|]. intros _. by apply Hn.
Qed.
End zynq.

(** The comment on the transfer says that the most significant bit of a byte comes
    first; the least significant does. *)
Lemma lowest_bit_first :
  received (receiver_of (main true (λ _, false) [false; true; true; true] [[1]]).2) = [true; false; false; false; false; false; false; false].
Proof. vm_compute. reflexivity. Qed.
(** When the FPGA is done with the last bit no clock follows, although the last step is
    to be eight more. *)
Lemma no_clocks_after_done : (main true (λ _, false) [false; true; true; true] [[1]]).1 = 0.
Proof. vm_compute. reflexivity. Qed.
End SlowLoadSpec.
