(* ===== verification/DataConnection.v ===== *)
(** * Connections for captured data: data_server.c over buffered_file.c, and the ASCII
    output of capture.c

    A connection reads one line with what the client wants, and then sends every capture:
    a header, the stream of samples and a line at the end.  What the reader of the buffer
    gives while the connection lives is a list of captures. *)

From S2P Require Import Prelude Errors Parse Format Floats StdDev Buffer Capture Hardware Prepare DataHeader BufferedFile DataServer.
From Stdlib Require Import SpecFloat.
From stdpp Require Import base numbers option strings list list_numbers.
Open Scope Z_scope.

Module DataConnection.
Import Double StdDev Buffer Format Floats Prepare Capture DataHeader BufferedFile DataServer.

Definition IN_BUF_SIZE : nat := 4096.
Definition OUT_BUF_SIZE : nat := Z.to_nat 16384.
Definition MAX_LINE_LENGTH : nat := 1024.

(** ** Output in ASCII *)

(** The double with these bits: a NaN is one whatever its other bits. *)
Definition double_of_bits (bits : Z) : double :=
  let sign := bool_decide (2 ^ 63 ≤ bits) in
  let exponent := Z.shiftr bits 52 mod 2 ^ 11 in
  let fraction := bits mod 2 ^ 52 in
  if bool_decide (exponent = 2047) then if bool_decide (fraction = 0) then S754_infinity sign else S754_nan
  else if bool_decide (exponent = 0) then
    if bool_decide (fraction = 0) then S754_zero sign else S754_finite sign (Z.to_pos fraction) (-1074)
  else S754_finite sign (Z.to_pos (fraction + 2 ^ 52)) (exponent - 1075).

(** The next word and the next double of the data, which is bytes, on a machine with the
    lowest byte first. *)
Definition read_uint32 (data : list Z) : outcome (Z * list Z) :=
  match data with
  | b0 :: b1 :: b2 :: b3 :: data => Ret (u8 b0 + Z.shiftl (u8 b1) 8 + Z.shiftl (u8 b2) 16 + Z.shiftl (u8 b3) 24, data)
  | _ => Undef
  end.
Definition read_double (data : list Z) : outcome (double * list Z) :=
  '(low, data) ← read_uint32 data;
  '(high, data) ← read_uint32 data;
  Ret (double_of_bits (low + Z.shiftl high 32), data).

(** FORMAT_ASCII: the pieces for [count] values, and the data after them. *)
Fixpoint FORMAT_ASCII {A} (read : list Z → outcome (A * list Z)) (format : A → list Z) (count : nat) (data : list Z)
    : outcome (list piece * list Z) :=
  match count with
  | O => Ret ([], data)
  | S count =>
      '(value, data) ← read data;
      '(pieces, data) ← FORMAT_ASCII read format count data;
      Ret (Formatted (format value) :: pieces, data)
  end.

(** The formats " 0x%08x", " %u" and " %.10g". *)
Definition raw_text (w : Z) : list Z := 32 :: (lower <$> fmt_0x08X w).
Definition unscaled_text (w : Z) : list Z := 32 :: fmt_u w.
Definition double_text (d : double) : list Z := 32 :: fmt_10g d.

Definition send_raw_as_ascii (c : data_capture) (data : list Z) : outcome (list piece * list Z) :=
  FORMAT_ASCII read_uint32 raw_text (raw_sample_words c) data.
Definition send_scaled_as_ascii (c : data_capture) (data : list Z) : outcome (list piece * list Z) :=
  let double_count := (g_count (d_scaled32 c) + g_count (d_scaled64 c) + g_count (d_averaged c) +
                       g_count (d_std_dev c) + std_dev_mean_count c)%nat in
  '(words, data) ← FORMAT_ASCII read_uint32 unscaled_text (g_count (d_unscaled c)) data;
  '(doubles, data) ← FORMAT_ASCII read_double double_text double_count data;
  Ret (words ++ doubles, data).

Fixpoint send_binary_as_ascii (c : data_capture) (process : data_process) (sample_count : nat) (data : list Z) : outcome (list piece) :=
  match sample_count with
  | O => Ret []
  | S n =>
      '(row, data) ← (match process with
                      | DATA_PROCESS_RAW => send_raw_as_ascii c data
                      | DATA_PROCESS_SCALED => send_scaled_as_ascii c data
                      end);
      rows ← send_binary_as_ascii c process n data;
      Ret (row ++ [Char 10] ++ rows)
  end.

(** ** The connection *)

(** [struct data_connection]: the file and its socket, and what [check_read_block] will
    answer, true when nothing is left. *)
Record data_connection := mk_data_connection { dt_file : buffered_file; dt_socket : socket; dt_checks : list bool }.
Definition set_file (c : data_connection) (f : buffered_file * socket) : data_connection := mk_data_connection f.1 f.2 (dt_checks c).
Definition set_checks (c : data_connection) (checks : list bool) : data_connection := mk_data_connection (dt_file c) (dt_socket c) checks.
Definition check_buffered_file (c : data_connection) : bool := negb (has_error (dt_file c)).

Definition put_pieces (l : list piece) (c : data_connection) : data_connection :=
  set_file c (write_pieces OUT_BUF_SIZE (dt_file c, dt_socket c) l).
Definition put_string (text : list Z) (c : data_connection) : data_connection :=
  set_file c (write_string OUT_BUF_SIZE (dt_file c) (dt_socket c) text).
Definition put_block (data : list Z) (c : data_connection) : data_connection :=
  set_file c (write_block (dt_file c) (dt_socket c) data).
Definition flush (c : data_connection) : bool * data_connection :=
  let '(ok, f, sk) := flush_out_buf (dt_file c) (dt_socket c) in (ok, set_file c (f, sk)).
(** The lines of [write_block_base64], up to an error. *)
Fixpoint put_lines (lines : list (list Z)) (c : data_connection) : data_connection :=
  match lines with
  | [] => c
  | line :: lines => let c := put_string line c in if check_buffered_file c then put_lines lines c else c
  end.

(** Outputs as they go to a socket: the end of [send_output_buffer]. *)
Definition write_output (capture : data_capture) (options : data_options) (c : data_connection) (samples : nat) (output : list Z)
    : outcome (bool * data_connection) :=
  c ← match o_format options with
      | DATA_FORMAT_ASCII => pieces ← send_binary_as_ascii capture (o_process options) samples output; Ret (put_pieces pieces c)
      | DATA_FORMAT_BASE64 => Ret (put_lines (write_block_base64 (length output) output) c)
      | _ => Ret (put_block output c)
      end;
  Ret (check_buffered_file c, c).
Definition to_socket (capture : data_capture) (options : data_options) : Sender := {|
  sender := data_connection;
  check_block c := (default true (head (dt_checks c)), set_checks c (tail (dt_checks c)));
  write_out := write_output capture options;
  flush_out := flush;
|}.

(** ** A conversation *)

(** [process_data_request]: the options, when the connection goes on.  The text is made
    in the buffer of the line. *)
Definition write_status (text : list Z) (c : data_connection) : outcome (bool * data_connection) :=
  _ ← in_range (bool_decide (length text ≤ MAX_LINE_LENGTH)%nat);
  Ret (flush (put_string (take (length text) (take (MAX_LINE_LENGTH - 1) text ++ [0])) c)).
Definition process_data_request (c : data_connection) : outcome (option data_options * data_connection) :=
  match read_line IN_BUF_SIZE MAX_LINE_LENGTH false (dt_file c) (dt_socket c) with
  | (None, f, sk) => Ret (None, set_file c (f, sk))
  | (Some line, f, sk) =>
      let c := set_file c (f, sk) in
      match parse_data_options (c_str line) with
      | None => Undef
      | Some (OK options, _) =>
          if omit_status options then Ret (Some options, c)
          else '(ok, c) ← write_status (bytes_of "OK" ++ [10]) c; Ret (if ok : bool then Some options else None, c)
      | Some (Err e, _) => '(_, c) ← write_status (bytes_of "ERR " ++ bytes_of (error_format (Some e)).1 ++ [10]) c; Ret (None, c)
      end
  end.

(** A capture that is opened while the connection lives: what is lost of it, the blocks
    that the reader gives until it has no more or the client is gone, whether they are
    still good when they have been converted, how the reader and the capture end, and the
    description of the capture that has been prepared. *)
Record experiment := mk_experiment {
  ex_lost_bytes : Z;
  ex_blocks : list (list Z);
  ex_checks : list bool;
  ex_status : reader_status;
  ex_completion : Z;
  ex_fields : described_fields;
  ex_capture : data_capture;
  ex_times : capture_times;
  ex_conversion : SampleConversion;
}.

Section conversation.
Context `{Platform} (gmtime : Z → Z * Z * Z * (Z * Z * Z)).

Definition send_header (options : data_options) (x : experiment) (missed : Z) (c : data_connection) : outcome (bool * data_connection) :=
  if omit_header options then Ret (true, c)
  else
    pieces ← send_data_header gmtime (ex_fields x) (ex_capture x) options missed (ex_times x);
    Ret (flush (put_pieces pieces c)).
Definition completion_line (sent_samples : Z) (x : experiment) : list Z :=
  bytes_of "END " ++ fmt_u sent_samples ++ [32] ++ bytes_of (completion_message (ex_status x) (ex_completion x)) ++ [10].
Definition send_data_completion (options : data_options) (x : experiment) (sent_samples : Z) (c : data_connection) : bool * data_connection :=
  flush (if omit_status options then c else put_pieces [Formatted (completion_line sent_samples x)] c).
(** The stream of the capture [x], from an empty state. *)
Definition send_experiment (options : data_options) (x : experiment) (skip : Z) (c : data_connection) : outcome (data_connection * Z) :=
  '(_, c, sent_samples) ← @send_data_stream _ (ex_conversion x) (to_socket (ex_capture x) options) (o_format options) (o_process options)
    (mk_state [] []) (Z.to_nat skip) (ex_blocks x) (set_checks c (ex_checks x)) 0;
  Ret (c, sent_samples).

(** The body of the loop of [process_data_socket], after [wait_for_capture]. *)
Definition process_experiment (options : data_options) (x : experiment) (c : data_connection) : outcome (bool * data_connection) :=
  sample_size ← get_raw_sample_length (ex_capture x);
  let missed := lost_samples (Z.of_nat sample_size) (ex_lost_bytes x) in
  let skip := skip_bytes (Z.of_nat sample_size) (ex_lost_bytes x) in
  '(ok, c) ← send_header options x missed c;
  '(c, sent_samples) ← match ok with true => send_experiment options x skip c | false => Ret (c, 0) end;
  Ret (send_data_completion options x sent_samples c).
Fixpoint experiment_loop (options : data_options) (captures : list experiment) (c : data_connection) : outcome data_connection :=
  match captures with
  | [] => Ret c
  | x :: captures =>
      '(ok, c) ← process_experiment options x c;
      if one_shot options then Ret c else match ok with true => experiment_loop options captures c | false => Ret c end
  end.

(** [process_data_socket]: the connection at its end, whose error is reported. *)
Definition process_data_socket (available : bool) (captures : list experiment) (sk : socket) : outcome (error__t * socket) :=
  match available with
  | false => Ret (TEST_OK_ false "Data capture disabled (server started with -N)", sk)
  | true =>
      '(options, c) ← process_data_request (mk_data_connection create_buffered_file sk []);
      c ← match options with Some options => experiment_loop options captures c | None => Ret c end;
      Ret (error (dt_file c), dt_socket c)
  end.
End conversation.
End DataConnection.
