(* ===== verification/DataConnectionSpec.v ===== *)
(** * What a client of the data server is sent, byte by byte

    Whatever pieces the socket takes, a client that asks for captured data receives the
    answer to its request and then, for every capture, the header, the outputs of the
    converted samples in the format it has asked for, and the line at the end. *)

From S2P Require Import Prelude Errors Parse Format Floats StdDev Buffer Capture CaptureSpec Hardware Prepare DataHeader BufferedFile BufferedFileSpec DataServer DataStreamSpec DataClientSpec DataHeaderSpec DataConnection.
From Stdlib Require Import SpecFloat.
From stdpp Require Import base numbers option strings list list_numbers.
Open Scope Z_scope.

Module DataConnectionSpec.
Import Double StdDev Buffer Format Floats Prepare Capture CaptureSpec DataHeader BufferedFile BufferedFileSpec DataServer DataStreamSpec DataConnection.

(** ** The length of the text of a double *)

Lemma print_loop_length fuel base n acc : (length (print_loop fuel base n acc) ≤ fuel + length acc)%nat.
Proof.
  revert n acc. induction fuel as [|fuel IH]; intros n acc; [done|]. cbn [print_loop]. case_decide; [cbn; lia|].
  etransitivity; [apply IH|]. cbn. lia.
Qed.
Lemma print_uint_length base n k : n < 2 ^ Z.of_nat k → (length (print_uint base n) ≤ S k)%nat.
Proof.
  intros Hn. etransitivity; [apply print_loop_length|]. cbn [length]. rewrite Nat.add_0_r. apply le_n_S.
  destruct (decide (0 < n)); [|rewrite Z.log2_nonpos by lia; lia]. apply Z.log2_lt_pow2 in Hn; lia.
Qed.

Lemma strip_zeros_length ds : (length (strip_zeros ds) ≤ length ds)%nat.
Proof.
  unfold strip_zeros. rewrite length_rev, <-(length_rev ds). induction (rev ds) as [|c t IH]; [done|]. cbn [drop_zeros].
  case_decide; cbn [length]; lia.
Qed.
Lemma with_fraction_length whole frac : (length (with_fraction whole frac) ≤ length whole + 1 + length frac)%nat.
Proof.
  unfold with_fraction. pose proof (strip_zeros_length frac) as Hl. destruct (strip_zeros frac) as [|c l] eqn:E; [lia|].
  rewrite !length_app. cbn [length] in *. lia.
Qed.
Lemma print_exponent_length x k : Z.abs x < 2 ^ Z.of_nat k → (length (print_exponent x) ≤ 5 + k)%nat.
Proof.
  intros Hx%(print_uint_length 10). unfold print_exponent. rewrite !length_app, length_replicate. cbn [length]. lia.
Qed.

Lemma pow10_bits k : 0 ≤ k → 10 ^ k ≤ 2 ^ (4 * k).
Proof. intros. rewrite Z.pow_mul_r by lia. apply Z.pow_le_mono_l. lia. Qed.

Lemma decimal_exponent_bound num den a b : 0 < num < 2 ^ Z.of_nat a → 0 < den < 2 ^ Z.of_nat b →
  - Z.of_nat (S b) ≤ decimal_exponent num den ≤ Z.of_nat a.
Proof.
  intros Hn Hd. unfold decimal_exponent. case_decide.
  - assert (num / den < 2 ^ Z.of_nat a) as Hq%(print_uint_length 10) by (apply Z.div_lt_upper_bound; nia). lia.
  - assert ((den + num - 1) / num - 1 < 2 ^ Z.of_nat b) as Hq%(print_uint_length 10); [|lia].
    assert ((den + num - 1) / num ≤ den); [|lia]. apply Z.div_le_upper_bound; nia.
Qed.

Lemma decimal_digits_bound num den a b n x : 0 < num < 2 ^ Z.of_nat a → 0 < den < 2 ^ Z.of_nat b →
  decimal_digits 10 num den = (n, x) →
  (length (print_uint 10 n) ≤ a + 4 * (b + 10) + 36)%nat ∧ - Z.of_nat (S b) ≤ x ≤ Z.of_nat (S a).
Proof.
  intros Hn Hd. pose proof (decimal_exponent_bound num den a b Hn Hd) as Hx. unfold decimal_digits.
  set (e := decimal_exponent num den) in *. case_decide as H10; intros [= <- <-].
  { split; [|lia]. transitivity 35%nat; [|lia]. apply (print_uint_length 10 _ 34). vm_compute. reflexivity. }
  split; [|lia]. clear H10. set (p := 10 ^ Z.max (10 - 1 - e) 0). set (q := 10 ^ Z.max (e - (10 - 1)) 0).
  assert (0 < q) by (apply Z.pow_pos_nonneg; lia). assert (0 < p) by (apply Z.pow_pos_nonneg; lia).
  assert (p ≤ 2 ^ (4 * (10 + Z.of_nat b))) as Hp.
  { etransitivity; [apply pow10_bits; lia|]. apply Z.pow_le_mono_r; lia. }
  assert (round_even (num * p) (den * q) ≤ num * p + 1) as Hr.
  { assert (0 < num * p ∧ 0 < den * q) as [Hnp Hdq] by (split; apply Z.mul_pos_pos; lia).
    assert (num * p / (den * q) ≤ num * p) as Hq by (apply Z.div_le_upper_bound; [lia|]; generalize dependent (num * p); generalize dependent (den * q); nia).
    unfold round_even. destruct (_ ?= _); [|lia..]. destruct (Z.even _); lia. }
  etransitivity; [apply (print_uint_length 10 _ (a + 4 * (b + 10) + 1))|lia].
  eapply Z.le_lt_trans; [exact Hr|]. rewrite !Nat2Z.inj_add, Nat2Z.inj_mul, Z.pow_add_r, Z.pow_add_r by lia.
  change (2 ^ Z.of_nat 1) with 2. replace (Z.of_nat 4 * Z.of_nat (b + 10)) with (4 * (10 + Z.of_nat b)) by lia.
  set (A := 2 ^ Z.of_nat a) in *. set (P := 2 ^ (4 * (10 + Z.of_nat b))) in *. nia.
Qed.

(** Doubles as they are stored. *)
Definition stored_range (d : double) : Prop :=
  match d with S754_finite _ m e => Zpos m < 2 ^ 53 ∧ -1074 ≤ e ≤ 972 | _ => True end.
Lemma fmt_10g_length d : stored_range d → Z.of_nat (length (fmt_10g d)) < 8000.
Proof.
  intros Hd. destruct d as [s|s| |s m e]; [destruct s; cbn; lia..|cbn; lia|]. destruct Hd as [Hm He].
  unfold fmt_10g, fmt_g. cbn [fraction]. destruct (decimal_digits _ _ _) as [n x] eqn:E.
  apply (decimal_digits_bound _ _ 1025 1075) in E as [Hl Hx].
  2:{ change (Z.of_nat 1025) with (53 + 972). rewrite Z.pow_add_r by lia.
      assert (2 ^ Z.max e 0 ≤ 2 ^ 972) by (apply Z.pow_le_mono_r; lia).
      assert (0 < 2 ^ Z.max e 0) by (apply Z.pow_pos_nonneg; lia). generalize dependent (2 ^ 972). generalize dependent (2 ^ 53). nia. }
  2:{ split; [apply Z.pow_pos_nonneg; lia|]. apply Z.pow_lt_mono_r; lia. }
  assert (length (print_exponent x) ≤ 5 + 11)%nat as Hpe by (apply print_exponent_length; change (2 ^ Z.of_nat 11) with 2048; lia).
  rewrite length_app. assert (length (if s then [45%Z] else []) ≤ 1)%nat by (destruct s; cbn; lia).
  repeat case_decide.
  - rewrite length_app. pose proof (with_fraction_length (take 1 (print_uint 10 n)) (drop 1 (print_uint 10 n))) as Hw.
    rewrite length_take, length_drop in Hw. lia.
  - pose proof (with_fraction_length (take (Z.to_nat (x + 1)) (print_uint 10 n)) (drop (Z.to_nat (x + 1)) (print_uint 10 n))) as Hw.
    rewrite length_take, length_drop in Hw. lia.
  - pose proof (with_fraction_length [48] (replicate (Z.to_nat (- x - 1)) 48 ++ print_uint 10 n)) as Hw.
    rewrite length_app, length_replicate in Hw. cbn [length] in Hw. lia.
Qed.

(** A double is what it was when it has been stored. *)
Lemma double_of_bits_range bits : stored_range (double_of_bits bits).
Proof.
  unfold double_of_bits. pose proof (Z.mod_pos_bound bits (2 ^ 52)) as Hf. pose proof (Z.mod_pos_bound (Z.shiftr bits 52) (2 ^ 11)) as He.
  change (2 ^ 11) with 2048 in *. change (2 ^ 53) with (2 * 2 ^ 52). assert (0 < 2 ^ 52) by reflexivity.
  unfold stored_range. repeat case_bool_decide; try done; rewrite Z2Pos.id by lia; lia.
Qed.

(** ** The text of a row *)

Definition short (p : piece) : Prop := match p with Formatted text => (length text < OUT_BUF_SIZE)%nat | _ => True end.

(** A reader takes [size] bytes off the data, and its values have short texts. *)
Definition reads_text {A} (read : list Z → outcome (A * list Z)) (format : A → list Z) (size : nat) : Prop :=
  ∀ data, (size ≤ length data)%nat → ∃ v, short (Formatted (format v)) ∧ ∀ more, read (data ++ more) = Ret (v, drop size data ++ more).

Lemma uint32_text (format : Z → list Z) :
  (∀ w, 0 ≤ w < 2 ^ 32 → (length (format w) < 100)%nat) → reads_text read_uint32 format 4.
Proof.
  intros Hf data Hl. destruct data as [|b0 [|b1 [|b2 [|b3 data]]]]; try (cbn in Hl; lia). eexists. split; [|intros more; reflexivity].
  assert (∀ b, 0 ≤ u8 b < 2 ^ 8) as Hb by (intros b; apply Z.mod_pos_bound; lia).
  pose proof (Hb b0). pose proof (Hb b1). pose proof (Hb b2). pose proof (Hb b3).
  cbn [short]. eapply Nat.lt_trans; [apply Hf; rewrite !Z.shiftl_mul_pow2 by lia; lia|]. unfold OUT_BUF_SIZE. lia.
Qed.
Lemma raw_reads : reads_text read_uint32 raw_text 4.
Proof.
  apply uint32_text. intros w Hw. unfold raw_text, fmt_0x08X. cbn [length]. rewrite length_fmap, !length_app, length_replicate.
  pose proof (print_uint_length 16 w 32). cbn [length bytes_of]. lia.
Qed.
Lemma unscaled_reads : reads_text read_uint32 unscaled_text 4.
Proof.
  apply uint32_text. intros w Hw. unfold unscaled_text, fmt_u. cbn [length]. pose proof (print_uint_length 10 w 32). lia.
Qed.
Lemma double_reads : reads_text read_double double_text 8.
Proof.
  intros data Hl. destruct data as [|b0 [|b1 [|b2 [|b3 [|b4 [|b5 [|b6 [|b7 data]]]]]]]]; try (cbn in Hl; lia).
  eexists. split; [|intros more; reflexivity]. cbn [short]. unfold double_text. cbn [length].
  match goal with |- context [double_of_bits ?b] => pose proof (fmt_10g_length _ (double_of_bits_range b)) end.
  unfold OUT_BUF_SIZE. lia.
Qed.

Lemma format_reads {A} (read : list Z → outcome (A * list Z)) format size count data :
  reads_text read format size → (count * size ≤ length data)%nat →
  ∃ pieces, Forall short pieces ∧ ∀ more, FORMAT_ASCII read format count (data ++ more) = Ret (pieces, drop (count * size) data ++ more).
Proof.
  intros Hr. revert data. induction count as [|count IH]; intros data Hl; [by exists []|].
  destruct (Hr data) as (v & Hs & E); [lia|]. destruct (IH (drop size data)) as (pieces & Hp & E2); [rewrite length_drop; lia|].
  exists (Formatted (format v) :: pieces). split; [by constructor|]. intros more. cbn [FORMAT_ASCII]. rewrite E. cbn [mbind outcome_bind].
  rewrite E2, drop_drop. reflexivity.
Qed.

(** ** The text of an output *)

Section ascii.
Context (capture : data_capture) (process : data_process) (size : nat).
Context (Hsize : get_binary_sample_length capture process = Ret size).

Abbreviation row data := (match process with DATA_PROCESS_RAW => send_raw_as_ascii capture data | DATA_PROCESS_SCALED => send_scaled_as_ascii capture data end).
Lemma row_reads data : (size ≤ length data)%nat →
  ∃ pieces, Forall short pieces ∧ ∀ more, row (data ++ more) = Ret (pieces, drop size data ++ more).
Proof.
  intros Hl. revert Hsize. unfold get_binary_sample_length, get_raw_sample_length, assert_ok. destruct process; case_bool_decide; intros [= Es].
  - destruct (format_reads read_uint32 raw_text 4 (raw_sample_words capture) data raw_reads) as (l & Hs & E); [lia|].
    exists l. split; [done|]. intros more. unfold send_raw_as_ascii. rewrite E. do 4 f_equal. lia.
  - set (doubles := (g_count (d_scaled32 capture) + g_count (d_scaled64 capture) + g_count (d_averaged capture) +
      g_count (d_std_dev capture) + std_dev_mean_count capture)%nat) in *. set (words := g_count (d_unscaled capture)) in *.
    destruct (format_reads read_uint32 unscaled_text 4 words data unscaled_reads) as (l1 & Hs1 & E1); [lia|].
    destruct (format_reads read_double double_text 8 doubles (drop (words * 4) data) double_reads) as (l2 & Hs2 & E2); [rewrite length_drop; lia|].
    exists (l1 ++ l2). split; [by apply Forall_app|]. intros more. unfold send_scaled_as_ascii. fold words doubles.
    rewrite E1. cbn [mbind outcome_bind]. rewrite E2. cbn [mbind outcome_bind]. rewrite drop_drop. do 4 f_equal. lia.
Qed.

Lemma rows_read n data : (n * size ≤ length data)%nat →
  ∃ pieces, Forall short pieces ∧ ∀ more, send_binary_as_ascii capture process n (data ++ more) = Ret pieces.
Proof.
  revert data. induction n as [|n IH]; intros data Hl; [by exists []|].
  destruct (row_reads data) as (l1 & Hs1 & E1); [lia|]. destruct (IH (drop size data)) as (l2 & Hs2 & E2); [rewrite length_drop; lia|].
  exists (l1 ++ [Char 10] ++ l2). split; [apply Forall_app; split; [done|by constructor]|].
  intros more. cbn [send_binary_as_ascii]. rewrite E1. cbn [mbind outcome_bind]. by rewrite E2.
Qed.

(** The text of [n] samples. *)
Definition ascii_text (n : nat) (data : list Z) : list Z :=
  match send_binary_as_ascii capture process n data with Ret pieces => text_of pieces | _ => [] end.
Lemma text_of_app l1 l2 : text_of (l1 ++ l2) = text_of l1 ++ text_of l2.
Proof. unfold text_of. by rewrite fmap_app, concat_app. Qed.
Lemma ascii_text_app n m data more : length data = (n * size)%nat → (m * size ≤ length more)%nat →
  ascii_text (n + m) (data ++ more) = ascii_text n data ++ ascii_text m more.
Proof.
  intros Hl Hm. revert data Hl. induction n as [|n IH]; intros data Hl; [by rewrite (nil_length_inv data) by done|].
  destruct (row_reads data) as (l1 & Hs1 & E1); [lia|]. specialize (IH (drop size data)). unfold ascii_text in *.
  cbn [send_binary_as_ascii Nat.add]. pose proof (E1 []) as E0. rewrite !app_nil_r in E0. rewrite E1, E0. cbn [mbind outcome_bind].
  destruct (rows_read n (drop size data)) as (l2 & _ & E2); [rewrite length_drop; lia|]. pose proof (E2 []) as E3. rewrite app_nil_r in E3.
  destruct (rows_read (n + m) (drop size data ++ more)) as (l3 & _ & E4); [rewrite length_app, length_drop; lia|].
  pose proof (E4 []) as E5. rewrite app_nil_r in E5. rewrite E3, E5 in *. cbn [mbind outcome_bind]. rewrite !text_of_app, IH, <-!(assoc_L (++)); [done|].
  rewrite length_drop. lia.
Qed.
End ascii.

(** ** Writing to a connection *)

Lemma OUT_pos : (0 < OUT_BUF_SIZE)%nat.
Proof. unfold OUT_BUF_SIZE. lia. Qed.

(** From [c] to [c'] the text has been written. *)
Definition says (c c' : data_connection) (text : list Z) : Prop :=
  room OUT_BUF_SIZE (dt_file c) → wrote OUT_BUF_SIZE (dt_file c) (dt_socket c) (dt_file c') (dt_socket c') text.

Lemma says_refl c : says c c [].
Proof. intros _. apply wrote_refl. Qed.
Lemma says_trans c1 c2 c3 a b : says c1 c2 a → says c2 c3 b → says c1 c3 (a ++ b).
Proof. intros H1 H2 Hr. specialize (H1 Hr). eapply wrote_trans; [exact H1|]. apply H2. by eapply wr_room. Qed.
Lemma says_set_checks c checks : says c (set_checks c checks) [].
Proof. intros _. apply wrote_refl. Qed.
Lemma says_string text c : says c (put_string text c) text.
Proof. intros Hr. unfold put_string. destruct (write_string _ _ _ _) as [f sk] eqn:E. by apply (write_string_wrote _ OUT_pos) in E. Qed.
Lemma says_block data c : says c (put_block data c) data.
Proof. intros Hr. unfold put_block. destruct (write_block _ _ _) as [f sk] eqn:E. by apply (write_block_wrote _ OUT_pos) in E. Qed.
Lemma says_piece p c : short p → says c (put_pieces [p] c) (piece_text p).
Proof.
  intros Hs Hr. unfold put_pieces, write_pieces. cbn [fold_left]. destruct (write_piece _ _ _) as [f sk] eqn:E.
  destruct p as [text|text|ch]; cbn [write_piece fst snd] in E.
  - apply (write_formatted_wrote _ OUT_pos) in E as [?|[_ ?]]; [done| |done]. cbn in Hs. lia.
  - by apply (write_string_wrote _ OUT_pos) in E.
  - by apply (write_char_wrote _ OUT_pos) in E.
Qed.
Lemma put_pieces_cons p l c : put_pieces (p :: l) c = put_pieces l (put_pieces [p] c).
Proof. unfold put_pieces, write_pieces. cbn [fold_left set_file dt_file dt_socket dt_checks]. by destruct (write_piece _ _ p). Qed.
Lemma says_pieces l c : Forall short l → says c (put_pieces l c) (text_of l).
Proof.
  intros Hl. revert c. induction Hl as [|p l Hp _ IH]; intros c; [destruct c; apply says_refl|].
  rewrite put_pieces_cons. eapply (says_trans _ _ _ (piece_text p)); [by apply says_piece|apply IH].
Qed.
Lemma says_stopped c text : error (dt_file c) ≠ None → says c c text.
Proof. intros He _. by apply wrote_stopped. Qed.
Lemma check_file_true c : check_buffered_file c = true ↔ error (dt_file c) = None.
Proof. unfold check_buffered_file. rewrite negb_true_iff. apply has_error_false. Qed.
Lemma says_lines lines c : says c (put_lines lines c) (concat lines).
Proof.
  revert c. induction lines as [|line lines IH]; intros c; [apply says_refl|]. cbn [put_lines concat].
  eapply says_trans; [apply says_string|]. destruct (check_buffered_file _) eqn:E; [apply IH|].
  apply says_stopped. intros He%check_file_true. congruence.
Qed.
Lemma says_flush c b c' : flush c = (b, c') →
  says c c' [] ∧ out_buf (dt_file c') = [] ∧ b = check_buffered_file c' ∧ dt_checks c' = dt_checks c.
Proof.
  unfold flush. destruct (flush_out_buf _ _) as [[ok f] sk] eqn:E. intros [= <- <-].
  apply (flush_wrote _ OUT_pos) in E as (Hw & Eo & ->). split_and!; [by intros _|done..].
Qed.

(** A connection that works. *)
Definition works (c : data_connection) : Prop :=
  room OUT_BUF_SIZE (dt_file c) ∧ error (dt_file c) = None ∧ Forall is_Some (sk_writes (dt_socket c)).
Lemma says_works c c' text : says c c' text → works c → works c'.
Proof. intros Hs (Hr & He & Hw). destruct (Hs Hr) as [R E1 _ _ _ C1]. destruct (C1 Hw) as [? ?]. split_and!; auto. Qed.
Lemma works_check c : works c → check_buffered_file c = true.
Proof. intros (_ & He & _). by apply check_file_true. Qed.
Lemma flush_works c b c' : flush c = (b, c') → works c → b = true ∧ works c'.
Proof.
  intros (Hs & _ & -> & _)%says_flush Hw. pose proof (says_works _ _ _ Hs Hw) as Hw'. split; [by apply works_check|done].
Qed.

(** ** Outputs *)

(** The text of an output in the format that was asked for. *)
Definition output_text (capture : data_capture) (options : data_options) (f : nat * list Z) : list Z :=
  match o_format options with
  | DATA_FORMAT_ASCII => ascii_text capture (o_process options) f.1 f.2
  | DATA_FORMAT_BASE64 => concat (write_block_base64 (length f.2) f.2)
  | _ => f.2
  end.
Definition outputs_text (capture : data_capture) (options : data_options) (frames : list (nat * list Z)) : list Z :=
  concat (output_text capture options <$> frames).

Section sender.
Context (capture : data_capture) (options : data_options) `{SampleConversion}.
Context (Hsize : get_binary_sample_length capture (o_process options) = Ret binary_sample_length).

Lemma write_output_says c n f : o_format options = DATA_FORMAT_FRAMED ∨ frame_ok (o_format options) (n, f) →
  ∃ b c', write_output capture options c n f = Ret (b, c') ∧ says c c' (output_text capture options (n, f)) ∧
    b = check_buffered_file c' ∧ dt_checks c' = dt_checks c.
Proof.
  intros Hok. unfold write_output, output_text. cbn [fst snd] in *. destruct (o_format options) eqn:Ef.
  3, 4: destruct Hok as [|[_ Hl _]]; [done|]; cbn [fst snd] in Hl.
  1, 2: do 2 eexists; split; [reflexivity|]; split; [apply says_block|done].
  - do 2 eexists. split; [reflexivity|]. split; [apply says_lines|]. split; [done|].
    generalize (write_block_base64 (length f) f) as lines. intros lines. revert c. induction lines as [|line lines IH]; intros c; [done|].
    cbn [put_lines]. destruct (check_buffered_file _); [by rewrite IH|done].
  - cbn [header_length Nat.add] in Hl. destruct (rows_read _ _ _ Hsize n f) as (pieces & Hs & E); [lia|].
    specialize (E []). rewrite app_nil_r in E. unfold ascii_text. rewrite E. cbn [mbind outcome_bind].
    do 2 eexists. split; [reflexivity|]. split; [by apply says_pieces|done].
Qed.

Definition live_connection (c : data_connection) : Prop := works c ∧ Forall (λ b, b = true) (dt_checks c).
Definition socket_spec : @SenderSpec _ (to_socket capture options) (o_format options).
Proof.
  refine (@Build_SenderSpec _ (to_socket capture options) (o_format options)
    (λ c c' : data_connection, λ l, says c c' (outputs_text capture options l)) live_connection _ _ _ _ _).
  - apply says_refl.
  - intros c1 c2 c3 l1 l2 H1 H2. unfold outputs_text. rewrite fmap_app, concat_app. by eapply says_trans.
  - intros c b c' [= <- <-]. split; [apply says_set_checks|]. intros [Hw [E Hc]%head_true]. by split_and!.
  - intros c n f Hf. destruct (write_output_says c n f Hf) as (b & c' & E & Hs & -> & Ec). exists (check_buffered_file c'), c'.
    split; [exact E|]. unfold outputs_text. cbn [fmap list_fmap concat]. rewrite app_nil_r. split; [done|]. intros [Hw Hc].
    pose proof (says_works _ _ _ Hs Hw) as Hw'. split; [by apply works_check|]. split; [done|]. by rewrite Ec.
  - intros c b c' E. split; [by apply says_flush in E as [? _]|]. intros [Hw Hc].
    destruct (flush_works _ _ _ E Hw) as [-> Hw']. apply says_flush in E as (_ & _ & _ & Ec). split; [done|]. split; [done|]. by rewrite Ec.
Defined.
End sender.

(** ** What a client is sent of a capture *)

(** A piece of the data in the format that was asked for. *)
Definition enclosed (capture : data_capture) (options : data_options) (size : nat) (chunk : list Z) : list Z :=
  match o_format options with
  | DATA_FORMAT_UNFRAMED => chunk
  | DATA_FORMAT_FRAMED => frame_of chunk
  | DATA_FORMAT_BASE64 => concat (write_block_base64 (length chunk) chunk)
  | DATA_FORMAT_ASCII => ascii_text capture (o_process options) (length chunk `div` size) chunk
  end.
(** The text of the data [out], in pieces of whole samples. *)
Definition data_text (capture : data_capture) (options : data_options) (size : nat) (out text : list Z) : Prop :=
  ∃ chunks, concat chunks = out ∧ Forall (whole_samples size) chunks ∧ text = concat (enclosed capture options size <$> chunks).

(** Without frames the pieces cannot be seen; nor in ASCII. *)
Lemma unframed_text capture options size out text :
  o_format options = DATA_FORMAT_UNFRAMED → data_text capture options size out text → text = out.
Proof.
  intros Ef (chunks & <- & _ & ->). f_equal. unfold enclosed. rewrite Ef. apply list_fmap_id.
Qed.
Lemma whole_samples_concat size chunks : Forall (whole_samples size) chunks → ∃ n, length (concat chunks) = (n * size)%nat.
Proof.
  induction 1 as [|chunk chunks (k & _ & Hk) _ [n Hn]]; [by exists 0%nat|]. exists (k + n)%nat. cbn [concat]. rewrite length_app, Hk, Hn. lia.
Qed.
Lemma ascii_data_text capture options size out text :
  o_format options = DATA_FORMAT_ASCII → get_binary_sample_length capture (o_process options) = Ret size → (0 < size)%nat →
  data_text capture options size out text → text = ascii_text capture (o_process options) (length out `div` size) out.
Proof.
  intros Ef Hs Hpos (chunks & <- & Hc & ->). induction Hc as [|chunk chunks (k & Hk & Hl) Hc IH].
  { cbn [concat length]. by rewrite Nat.Div0.div_0_l. }
  destruct (whole_samples_concat _ _ Hc) as [n Hn]. rewrite fmap_cons. cbn [concat]. rewrite IH. unfold enclosed at 1. rewrite Ef.
  rewrite length_app, Hl, Hn, <-Nat.mul_add_distr_r, !Nat.div_mul by lia. by rewrite (ascii_text_app _ _ size Hs) by lia.
Qed.

Lemma frame_enclosed capture options `{SampleConversion} f : frame_ok (o_format options) f →
  output_text capture options f = enclosed capture options binary_sample_length (payload (o_format options) f) ∧
  whole_samples binary_sample_length (payload (o_format options) f).
Proof.
  intros [Hn Hl Hh]. pose proof binary_pos as HB. unfold output_text, enclosed, payload, whole_samples.
  assert (length (drop (header_length (o_format options)) f.2) = (f.1 * binary_sample_length)%nat) as Hp by (rewrite length_drop; lia).
  split; [|by exists f.1]. revert Hp Hl Hh. destruct (o_format options); cbn [header_length]; rewrite ?drop_0; try done; intros Hp Hl Hh.
  - rewrite <-(take_drop 8 f.2) at 1. rewrite Hh by done. unfold frame_of. rewrite <-(assoc_L (++)), Hp, Hl. done.
  - rewrite Hp, Nat.div_mul by lia. done.
Qed.
Lemma frames_text capture options `{SampleConversion} frames : Forall (frame_ok (o_format options)) frames →
  data_text capture options binary_sample_length (carried (o_format options) frames) (outputs_text capture options frames).
Proof.
  intros Hf. exists (payload (o_format options) <$> frames). split; [done|].
  unfold outputs_text. induction Hf as [|f frames Hf _ (IH1 & IH2)]; [done|]. destruct (frame_enclosed capture options f Hf) as [E Hw].
  rewrite !fmap_cons. cbn [concat]. split; [by constructor|]. by rewrite E, IH2.
Qed.

Section conversation.
Context `{Platform} (gmtime : Z → Z * Z * Z * (Z * Z * Z)) (options : data_options).

Definition skipped (x : experiment) : nat :=
  Z.to_nat (skip_bytes (Z.of_nat (@raw_sample_length (ex_conversion x))) (ex_lost_bytes x)).
Definition missed (x : experiment) : Z := lost_samples (Z.of_nat (@raw_sample_length (ex_conversion x))) (ex_lost_bytes x).
(** The captured samples that are left. *)
Definition stream_of (x : experiment) : list Z := drop (skipped x) (concat (ex_blocks x)).
Definition sample_count (x : experiment) : nat := (length (stream_of x) `div` @raw_sample_length (ex_conversion x))%nat.

(** The data of the capture as the client has asked for it: converted, but raw data in
    frames is passed on as it is. *)
Definition data_of (x : experiment) (out : list Z) : Prop :=
  if passthrough (o_format options) (o_process options) then
    Forall (@passes (ex_conversion x)) (after_skip (skipped x) (ex_blocks x)) ∧
    out = take (sample_count x * @raw_sample_length (ex_conversion x)) (stream_of x)
  else @convert_samples (ex_conversion x) (sample_count x) (stream_of x) = Ret out.

(** A capture that goes well: the lengths of its samples are those of the prepared
    capture, the header can be made and its texts are not too long, and nothing is
    overwritten before it has been read. *)
Record goes_well (x : experiment) (out header : list Z) : Prop := {
  gw_raw : get_raw_sample_length (ex_capture x) = Ret (@raw_sample_length (ex_conversion x));
  gw_binary : get_binary_sample_length (ex_capture x) (o_process options) = Ret (@binary_sample_length (ex_conversion x));
  gw_checks : Forall (λ b, b = true) (ex_checks x);
  gw_data : data_of x out;
  gw_header : if omit_header options then header = []
    else ∃ pieces, send_data_header gmtime (ex_fields x) (ex_capture x) options (missed x) (ex_times x) = Ret pieces ∧
      Forall short pieces ∧ header = text_of pieces;
}.
(** What the client is sent of it. *)
Definition experiment_text (x : experiment) (text : list Z) : Prop :=
  ∃ out header body, goes_well x out header ∧
    data_text (ex_capture x) options (@binary_sample_length (ex_conversion x)) out body ∧
    text = header ++ body ++ (if omit_status options then [] else completion_line (u64 (Z.of_nat (sample_count x))) x).

Lemma completion_short n x : 0 ≤ n < 2 ^ 64 → short (Formatted (completion_line n x)).
Proof.
  intros Hn. unfold completion_line. pose proof (print_uint_length 10 n 64 ltac:(lia)) as Hl. cbn [short]. unfold OUT_BUF_SIZE.
  rewrite !length_app. assert (length (bytes_of (completion_message (ex_status x) (ex_completion x))) ≤ 100)%nat as Hm.
  { unfold completion_message, Hardware.hw_decode_completion. destruct (ex_status x); [repeat case_match|..]; cbn; lia. }
  unfold fmt_u. cbn [length bytes_of]. lia.
Qed.

Lemma send_experiment_says x c out header : works c → goes_well x out header →
  ∃ c' body, send_experiment options x (skip_bytes (Z.of_nat (@raw_sample_length (ex_conversion x))) (ex_lost_bytes x)) c =
      Ret (c', u64 (Z.of_nat (sample_count x))) ∧
    says c c' body ∧ data_text (ex_capture x) options (@binary_sample_length (ex_conversion x)) out body.
Proof.
  intros Hw [Hraw Hbin Hch Hdata _]. unfold send_experiment. fold (skipped x).
  pose proof (@raw_pos (ex_conversion x)) as HR. assert (live_connection (set_checks c (ex_checks x))) as Hlive by by split.
  set (spec := @socket_spec (ex_capture x) options (ex_conversion x) Hbin). unfold data_of in Hdata.
  destruct (passthrough (o_format options) (o_process options)) eqn:Hpass.
  - destruct Hdata as [Hp Ho]. destruct (@passthrough_stream_sent _ (ex_conversion x) (to_socket (ex_capture x) options) (o_format options) (o_process options)
      spec (ex_blocks x) (mk_state [] []) (skipped x) (set_checks c (ex_checks x)) 0 Hpass Hlive HR Hp)
      as (st' & c' & frames & chunks & E & Hd & _ & Et & Ec & Hc).
    cbn [dc_output app] in E, Ec. rewrite concat_after_skip in E, Ec. fold (stream_of x) in E, Ec. fold (sample_count x) in E, Ec.
    change (u64 0) with 0 in E. rewrite E. cbn [mbind outcome_bind]. exists c', (outputs_text (ex_capture x) options frames).
    split; [done|]. split; [exact Hd|]. exists chunks. rewrite Ho.
    assert (o_format options = DATA_FORMAT_FRAMED ∧ o_process options = DATA_PROCESS_RAW) as [Ef Epr]
      by (clear -Hpass; unfold passthrough in Hpass; by destruct (o_format options), (o_process options)).
    pose proof Hbin as Hb. rewrite Epr in Hb. cbn [get_binary_sample_length] in Hb. rewrite Hraw in Hb. injection Hb as <-.
    unfold outputs_text, output_text, enclosed. rewrite Ef. split; [exact Ec|]. split; [exact Hc|exact Et].
  - destruct (@stream_sent _ (ex_conversion x) (to_socket (ex_capture x) options) (o_format options) (o_process options)
      spec (ex_blocks x) (mk_state [] []) (skipped x) (set_checks c (ex_checks x)) 0 out Hpass HR Hdata)
      as (result & st' & c' & frames & E & ((Hf & extra & Hd & He) & _ & Ht & Hdone) & _).
    destruct (Ht Hlive) as [-> _]. destruct He as [->|[? _]]; [|done]. destruct (Hdone eq_refl) as [<- Hn].
    cbn [dc_sample app] in Hn. fold (stream_of x) in Hn. fold (sample_count x) in Hn. rewrite Hn in E.
    change (u64 0) with 0 in E. rewrite E. cbn [mbind outcome_bind]. exists c', (outputs_text (ex_capture x) options frames).
    rewrite app_nil_r in Hd. split; [done|]. split; [exact Hd|]. by apply frames_text.
Qed.

Definition quiet (c : data_connection) : Prop := out_buf (dt_file c) = [].

Lemma send_header_says x c out header : works c → goes_well x out header →
  ∃ c', send_header gmtime options x (missed x) c = Ret (true, c') ∧ says c c' header ∧ works c'.
Proof.
  intros Hw [_ _ _ _ Hh]. unfold send_header. destruct (omit_header options); [exists c; subst; by split_and!; [|apply says_refl|]|].
  destruct Hh as (pieces & -> & Hs & ->). cbn [mbind outcome_bind]. pose proof (says_pieces pieces c Hs) as H1.
  destruct (flush (put_pieces pieces c)) as [b c'] eqn:E. destruct (flush_works _ _ _ E (says_works _ _ _ H1 Hw)) as [-> Hw'].
  apply says_flush in E as [H2 _]. exists c'. rewrite <-(app_nil_r (text_of pieces)). split_and!; [done|by eapply says_trans|done].
Qed.
Lemma completion_says x n c : 0 ≤ n < 2 ^ 64 → works c →
  ∃ c', send_data_completion options x n c = (true, c') ∧ says c c' (if omit_status options then [] else completion_line n x) ∧ works c' ∧ quiet c'.
Proof.
  intros Hn Hw. unfold send_data_completion. set (c1 := if omit_status options then c else _).
  assert (says c c1 (if omit_status options then [] else completion_line n x)) as H1.
  { subst c1. destruct (omit_status options); [apply says_refl|]. exact (says_piece (Formatted (completion_line n x)) c (completion_short n x Hn)). }
  destruct (flush c1) as [b c'] eqn:E. destruct (flush_works _ _ _ E (says_works _ _ _ H1 Hw)) as [-> Hw'].
  apply says_flush in E as (H2 & Hq & _). exists c'. split_and!; [done| |done|done]. rewrite <-(app_nil_r (if omit_status options then [] else completion_line n x)). by eapply says_trans.
Qed.

Lemma process_experiment_says x c out header : works c → goes_well x out header →
  ∃ c' text, process_experiment gmtime options x c = Ret (true, c') ∧ says c c' text ∧ works c' ∧ quiet c' ∧ experiment_text x text.
Proof.
  intros Hw Hx. unfold process_experiment. rewrite (gw_raw _ _ _ Hx). cbn [mbind outcome_bind]. cbv zeta. fold (missed x).
  destruct (send_header_says x c out header Hw Hx) as (c1 & -> & H1 & Hw1). cbn [mbind outcome_bind].
  destruct (send_experiment_says x c1 out header Hw1 Hx) as (c2 & body & -> & H2 & Hb). cbn [mbind outcome_bind].
  assert (0 ≤ u64 (Z.of_nat (sample_count x)) < 2 ^ 64) as Hn by (apply Z.mod_pos_bound; lia).
  destruct (completion_says x _ c2 Hn (says_works _ _ _ H2 Hw1)) as (c3 & -> & H3 & Hw3 & Hq).
  exists c3. eexists. split; [done|]. split; [exact (says_trans _ _ _ _ _ H1 (says_trans _ _ _ _ _ H2 H3))|].
  split_and!; [done..|]. by exists out, header, body.
Qed.

Definition serves (captures : list experiment) : list experiment := if one_shot options then take 1 captures else captures.
Lemma experiment_loop_says captures c : works c → quiet c → Forall (λ x, ∃ out header, goes_well x out header) captures →
  ∃ c' texts, experiment_loop gmtime options captures c = Ret c' ∧ says c c' (concat texts) ∧ works c' ∧ quiet c' ∧
    Forall2 experiment_text (serves captures) texts.
Proof.
  intros Hw Hq Hx. revert c Hw Hq. induction Hx as [|x captures (out & header & Hx) _ IH]; intros c Hw Hq.
  { exists c, []. unfold serves. split_and!; [done|apply says_refl|done..|]. by destruct (one_shot options). }
  cbn [experiment_loop]. destruct (process_experiment_says x c out header Hw Hx) as (c1 & text & -> & H1 & Hw1 & Hq1 & Ht).
  cbn [mbind outcome_bind]. unfold serves in *. destruct (one_shot options).
  { exists c1, [text]. cbn [concat take]. rewrite app_nil_r. split_and!; [done..|]. by repeat constructor. }
  destruct (IH c1 Hw1 Hq1) as (c2 & texts & -> & H2 & Hw2 & Hq2 & Hts). exists c2, (text :: texts).
  split; [done|]. split; [by eapply says_trans|]. split_and!; [done..|]. by constructor.
Qed.

(** ** The request *)

Lemma write_status_says text c : works c → (length text < MAX_LINE_LENGTH)%nat →
  ∃ c', write_status text c = Ret (true, c') ∧ says c c' text ∧ works c' ∧ quiet c'.
Proof.
  intros Hw Hl. unfold write_status, in_range. rewrite bool_decide_true by lia. cbn [mbind outcome_bind].
  rewrite (take_ge text) by lia. rewrite take_app_length.
  pose proof (says_string text c) as H1. destruct (flush (put_string text c)) as [b c'] eqn:E.
  destruct (flush_works _ _ _ E (says_works _ _ _ H1 Hw)) as [-> Hw']. apply says_flush in E as (H2 & Hq & _).
  exists c'. split; [done|]. rewrite <-(app_nil_r text) at 1. split_and!; [by eapply says_trans|done..].
Qed.

(** A socket that does not fail. *)
Definition good_socket (sk : socket) : Prop := Forall is_Some (sk_reads sk) ∧ Forall is_Some (sk_writes sk).
(** Reading the request writes nothing. *)
Lemma request_read sk line rest : good_socket sk → next_line MAX_LINE_LENGTH (sk_in sk) = Line line rest →
  ∃ f sk', read_line IN_BUF_SIZE MAX_LINE_LENGTH false create_buffered_file sk = (Some line, f, sk') ∧
    works (mk_data_connection f sk' []) ∧ out_buf f = [] ∧ sk_out sk' = sk_out sk.
Proof.
  intros [Hrd Hwr] Hl. assert (live OUT_BUF_SIZE create_buffered_file sk) as Hlive by (split; try done; apply OUT_pos).
  pose proof (read_line_spec OUT_BUF_SIZE OUT_pos IN_BUF_SIZE ltac:(unfold IN_BUF_SIZE; lia) MAX_LINE_LENGTH false create_buffered_file sk Hlive) as H1.
  destruct (read_line _ _ _ _ _) as [[answer f] sk'] eqn:E. exists f, sk'. unfold line_read in H1. rewrite andb_false_r in H1.
  change (input create_buffered_file sk) with (sk_in sk) in H1. rewrite Hl in H1.
  destruct H1 as (Eo & Eb & -> & [_ He Hr _ Hw] & _). split; [done|]. split; [done|]. split; [done|].
  unfold output in Eo. by rewrite Eb, !app_nil_r in Eo.
Qed.
End conversation.

(** From a connection without output to another one, what has been written is what the
    socket has been given. *)
Lemma says_sent c c' text : works c → quiet c → says c c' text → works c' → quiet c' →
  sk_out (dt_socket c') = sk_out (dt_socket c) ++ text.
Proof.
  intros (Hr & _) Hq Hs (_ & He & _) Hq'. destruct (wr_exact _ _ _ _ _ _ (Hs Hr) He) as [_ Eo].
  unfold output in Eo. unfold quiet in *. by rewrite Hq, Hq', !app_nil_r in Eo.
Qed.

(** C2: What a client of the data server is sent, if the socket does not fail and every
    capture goes well: no overrun, a header whose pieces of text fit the buffer of the
    connection, and, if the client has asked for raw data in frames, blocks that are empty
    or hold at least a sample ([goes_well]).  After a request that is understood, whatever
    pieces the socket takes, it gets the answer OK, and then for each capture in turn, or
    only for the first if it has asked for that, the header, the whole data of the capture
    in pieces of whole samples in the format and with the processing it has asked for, and
    the line at the end with the number of samples; and nothing else.  The answer and the
    lines at the end are left out if it has asked for NO_STATUS, and the header if for
    NO_HEADER. *)
Theorem data_conversation `{Platform} gmtime options captures sk line rest end_ :
  good_socket sk → next_line MAX_LINE_LENGTH (sk_in sk) = Line line rest →
  parse_data_options (c_str line) = Some (OK options, end_) →
  Forall (λ x, ∃ out header, goes_well gmtime options x out header) captures →
  ∃ sk' texts, process_data_socket gmtime true captures sk = Ret (None, sk') ∧
    Forall2 (experiment_text gmtime options) (serves options captures) texts ∧
    sk_out sk' = sk_out sk ++ (if omit_status options then [] else bytes_of "OK" ++ [10]) ++ concat texts.
Proof.
  intros Hsk Hl Hp Hx. destruct (request_read sk line rest Hsk Hl) as (f & sk1 & E & Hw & Hq & Eo).
  unfold process_data_socket, process_data_request. cbn [dt_file dt_socket]. rewrite E, Hp. unfold set_file. cbn [fst snd dt_checks].
  set (c := mk_data_connection f sk1 []) in *. rewrite <-Eo. change sk1 with (dt_socket c).
  assert (∃ c1, (if omit_status options then Ret (Some options, c) else '(ok, c) ← write_status (bytes_of "OK" ++ [10]) c;
      Ret (if ok : bool then Some options else None, c)) = Ret (Some options, c1) ∧
    says c c1 (if omit_status options then [] else bytes_of "OK" ++ [10]) ∧ works c1 ∧ quiet c1) as (c1 & -> & H1 & Hw1 & Hq1).
  { destruct (omit_status options); [exists c; by split_and!; [|apply says_refl|..]|].
    destruct (write_status_says (bytes_of "OK" ++ [10]) c Hw) as (c1 & -> & Hc); [unfold MAX_LINE_LENGTH; cbn; lia|]. exists c1. by split. }
  cbn [mbind outcome_bind]. destruct (experiment_loop_says gmtime options captures c1 Hw1 Hq1 Hx) as (c2 & texts & -> & H2 & Hw2 & Hq2 & Ht).
  cbn [mbind outcome_bind]. exists (dt_socket c2), texts. split; [by rewrite (proj1 (proj2 Hw2))|]. split; [done|].
  exact (says_sent c c2 _ Hw Hq (says_trans _ _ _ _ _ H1 H2) Hw2 Hq2).
Qed.

(** C28: A request that is not understood is answered, and that is all. *)
Theorem bad_request_refused `{Platform} gmtime captures sk line rest e end_ :
  good_socket sk → next_line MAX_LINE_LENGTH (sk_in sk) = Line line rest → parse_data_options (c_str line) = Some (Err e, end_) →
  let reply := bytes_of "ERR " ++ bytes_of (error_format (Some e)).1 ++ [10] in (length reply < MAX_LINE_LENGTH)%nat →
  ∃ sk', process_data_socket gmtime true captures sk = Ret (None, sk') ∧ sk_out sk' = sk_out sk ++ reply.
Proof.
  intros Hsk Hl Hp reply Hr. destruct (request_read sk line rest Hsk Hl) as (f & sk1 & E & Hw & Hq & Eo).
  unfold process_data_socket, process_data_request. cbn [dt_file dt_socket]. rewrite E, Hp. unfold set_file. cbn [fst snd dt_checks].
  fold reply. set (c := mk_data_connection f sk1 []) in *.
  destruct (write_status_says reply c Hw Hr) as (c1 & -> & H1 & Hw1 & Hq1). cbn [mbind outcome_bind].
  exists (dt_socket c1). split; [by rewrite (proj1 (proj2 Hw1))|]. rewrite <-Eo. exact (says_sent c c1 _ Hw Hq H1 Hw1 Hq1).
Qed.

(** ** From the sampled values to the socket *)

(** A capture of the fields [f], of which the reader was told that the first bytes are
    lost, goes well; its data are the items the client has asked for, of every sample
    after those counted as missed. *)
Lemma gathered_goes_well gmtime options previous f c array Hwf Hgather Hcount lost_ blocks checks status completion fields times header buses items :
  let x := mk_experiment lost_ blocks checks status completion fields c times
    (DataClientSpec.capture_conversion previous f c array (o_process options) Hwf Hgather Hcount) in
  let size := (4 * length array)%nat in let missed := Z.to_nat (lost_samples (Z.of_nat size) lost_) in
  passthrough (o_format options) (o_process options) = false → Forall (λ b, b = true) checks →
  o_process options = DATA_PROCESS_RAW ∨ averaging f ∨ (sample_count_index previous < length array)%nat →
  Forall (λ bus : Z → Z, Forall DataClientSpec.is_word (bus <$> array)) buses →
  0 ≤ lost_ ≤ Z.of_nat (length (DataClientSpec.capture_bytes array buses)) →
  Z.of_nat (length (DataClientSpec.capture_bytes array buses) + size) < 2 ^ 64 →
  concat blocks = drop (Z.to_nat lost_) (DataClientSpec.capture_bytes array buses) →
  mapM (DataClientSpec.sample_items f array (o_process options)) (drop missed buses) = Ret items →
  (if omit_header options then header = []
   else ∃ pieces, send_data_header gmtime fields c options (lost_samples (Z.of_nat size) lost_) times = Ret pieces ∧
     Forall short pieces ∧ header = text_of pieces) →
  goes_well gmtime options x (DataClientSpec.items_bytes (concat items)) header ∧ sample_count x = (length buses - missed)%nat.
Proof.
  intros x size missed Hpass Hch Hsc Hb Hl Hmax Eb Ei Hh.
  destruct (DataClientSpec.capture_sample_lengths previous f c array (o_process options) Hwf Hgather Hcount) as [Eraw Ebin].
  destruct (DataClientSpec.skip_realigns (Z.of_nat size) lost_) as [Hskip Hsk]; [lia..|].
  assert (stream_of x = DataClientSpec.capture_bytes array (drop missed buses)) as Es.
  { unfold stream_of, skipped. cbn [ex_blocks ex_conversion ex_lost_bytes raw_sample_length DataClientSpec.capture_conversion x].
    fold size. rewrite Eb, drop_drop, <-DataClientSpec.capture_bytes_drop. f_equal. subst missed. fold size. nia. }
  assert (sample_count x = length (drop missed buses)) as En.
  { unfold sample_count. rewrite Es. cbn [ex_conversion raw_sample_length DataClientSpec.capture_conversion x].
    rewrite DataClientSpec.capture_bytes_length by done. apply Nat.div_mul. lia. }
  split; [|by rewrite En, length_drop]. split; [exact Eraw|exact Ebin|exact Hch| |exact Hh].
  unfold data_of. rewrite Hpass, En, Es.
  apply (DataClientSpec.convert_capture_bytes previous f c array (o_process options) Hwf Hgather Hcount Hsc); [by apply Forall_drop|exact Ei].
Qed.

(** One sample that is whole and one that is not. *)
Definition example_request : list Z := bytes_of "UNFRAMED NO_HEADER ONE_SHOT" ++ [10].
Definition example_options : data_options := mk_options DATA_FORMAT_UNFRAMED DATA_PROCESS_SCALED true false true false.
Definition example_stream : list Z := DataClientSpec.capture_bytes example_array [example_bus; example_bus].
Lemma data_conversation_witness :
  ∃ x sk' items,
  process_data_socket (H := ARM32) DataHeaderSpec.example_gmtime true [x] (mk_socket example_request [Some 3%nat] [Some 1%nat] []) = Ret (None, sk') ∧
  ex_blocks x = [drop 5 (take 50 example_stream); drop 50 example_stream] ∧
  DataClientSpec.sample_items example_fields example_array DATA_PROCESS_SCALED example_bus = Ret items ∧
  sk_out sk' = bytes_of "OK" ++ [10] ++ DataClientSpec.items_bytes items ++ bytes_of "END 1 Ok" ++ [10].
Proof.
  assert (∃ c, gather_data_capture initial_capture example_fields = Ret (c, example_array)) as [c E]
    by (eexists; vm_compute; reflexivity).
  assert (∃ items, DataClientSpec.sample_items example_fields example_array DATA_PROCESS_SCALED example_bus = Ret items) as [items Ei]
    by (eexists; vm_compute; reflexivity).
  assert (0 < length example_array < MAX_PCAP_WRITE_COUNT)%nat as Hcount by (unfold MAX_PCAP_WRITE_COUNT; simpl; lia).
  set (x := mk_experiment 5 [drop 5 (take 50 example_stream); drop 50 example_stream] [] READER_STATUS_ALL_READ 0 DataHeaderSpec.example_described c
    DataHeaderSpec.example_times (DataClientSpec.capture_conversion initial_capture example_fields c example_array DATA_PROCESS_SCALED example_fields_wf E Hcount)).
  destruct (gathered_goes_well DataHeaderSpec.example_gmtime example_options initial_capture example_fields c example_array example_fields_wf E Hcount
    5 (ex_blocks x) [] READER_STATUS_ALL_READ 0 DataHeaderSpec.example_described DataHeaderSpec.example_times [] [example_bus; example_bus] [items])
    as [Hx Hn].
  - done.
  - done.
  - exact (or_intror (or_introl (or_introl (Nat.lt_0_1)))).
  - repeat (constructor; [repeat (constructor; [vm_compute; split; [discriminate|reflexivity]|]); constructor|]); constructor.
  - vm_compute. split; discriminate.
  - vm_compute. reflexivity.
  - vm_compute. reflexivity.
  - change (drop _ [example_bus; example_bus]) with [example_bus]. cbn [mapM]. change (o_process example_options) with DATA_PROCESS_SCALED. rewrite Ei. reflexivity.
  - done.
  - fold x in Hx, Hn.
    destruct (data_conversation (H := ARM32) DataHeaderSpec.example_gmtime example_options [x] (mk_socket example_request [Some 3%nat] [Some 1%nat] [])
      (bytes_of "UNFRAMED NO_HEADER ONE_SHOT") [] []) as (sk' & texts & Ep & Ht & Eo).
    + by repeat constructor.
    + vm_compute. reflexivity.
    + vm_compute. reflexivity.
    + constructor; [|done]. by eexists _, _.
    + exists x, sk', items. split; [exact Ep|]. split; [done|]. split; [exact Ei|]. rewrite Eo. clear Eo Ep.
      cbn [serves one_shot example_options take] in Ht. apply Forall2_cons_inv_l in Ht as (text & rest & (out & header & body & Hg & Hd & ->) & ->%Forall2_nil_inv_l & ->).
      apply unframed_text in Hd as ->; [|done]. destruct Hg as [_ _ _ Hdata Hh]. cbn in Hh. subst header.
      destruct Hx as [_ _ _ Hdata' _]. unfold data_of in *. cbn [passthrough o_format example_options] in *.
      pose proof (eq_trans (eq_sym Hdata) Hdata') as Eq. injection Eq as ->. cbn [omit_status example_options].
      change (sample_count x = 1%nat) in Hn. rewrite Hn. cbn [concat app]. rewrite !app_nil_r. reflexivity.
Defined.
Lemma bad_request_refused_witness :
  ∃ sk', process_data_socket (H := ARM32) DataHeaderSpec.example_gmtime true [] (mk_socket (bytes_of "HELLO" ++ [10]) [] [Some 2%nat] []) = Ret (None, sk') ∧
  sk_out sk' = bytes_of "ERR Invalid data capture option" ++ [10].
Proof.
  destruct (parse_data_options (c_str (bytes_of "HELLO"))) as [[[o|e] end_]|] eqn:E; [vm_compute in E; discriminate| |vm_compute in E; discriminate].
  destruct (bad_request_refused (H := ARM32) DataHeaderSpec.example_gmtime [] (mk_socket (bytes_of "HELLO" ++ [10]) [] [Some 2%nat] []) (bytes_of "HELLO") [] e end_)
    as (sk' & Ep & Eo); [by repeat constructor|vm_compute; reflexivity|exact E|vm_compute in E; injection E as <- _; vm_compute; lia|].
  exists sk'. split; [exact Ep|]. rewrite Eo. vm_compute in E. injection E as <- _. vm_compute. reflexivity.
Defined.
End DataConnectionSpec.
