(* ===== verification/L2Lockdown.v ===== *)
(** * Ways of the cache for the bridge: kernel/l2_lockdown/l2_lockdown.c

    The module gives each master of the PL310 cache its own ways.  The registers are a
    function of the offset, and a write may be dropped, as from a non-secure processor. *)

From S2P Require Import Prelude.
From stdpp Require Import base numbers list.
Open Scope Z_scope.

Module L2Lockdown.

Definition L2X0_LOCKDOWN_D (n : Z) : Z := 0x900 + 8 * n.
Definition L2X0_LOCKDOWN_I (n : Z) : Z := 0x904 + 8 * n.
Definition PL310_REGION_SIZE : Z := 0x1000.
Definition L2X0_NUM_MASTERS : Z := 8.
Definition L2X0_WAY_MASK : Z := 255.
Definition EINVAL : Z := 22.
Definition ENOMEM : Z := 12.
Definition EIO : Z := 5.

(** The parameters of the module; the indices of the CPUs are the [cpu_count] ones. *)
Record params := mk_params { acp_index : Z; cpu_indices : list Z; acp_mask : Z; cpu_mask : Z }.
Definition default_params : params := mk_params 1 [0] 127 128.

(** What the module logs. *)
Inductive message := Bad_acp_index | Bad_masks | Bad_cpu_index | Shared_ways (ways : Z) | No_acp_way | No_mapping | Not_taking_effect | Confined.
#[export] Instance message_eq_dec : EqDecision message.
Proof. solve_decision. Defined.

Section device.
(** The registers that take what is written. *)
Context (accepts : Z → bool).
Abbreviation registers := (Z → Z).

Definition writel_relaxed (value offset : Z) (r : registers) : registers :=
  λ o, if bool_decide (o = offset) && accepts o then value else r o.
Definition readl_relaxed (offset : Z) (r : registers) : Z := r offset.

Definition set_master (mask : Z) (r : registers) (idx : Z) : registers :=
  writel_relaxed mask (L2X0_LOCKDOWN_I idx) (writel_relaxed mask (L2X0_LOCKDOWN_D idx) r).

Definition in_masters (idx : Z) : bool := bool_decide (0 ≤ idx) && bool_decide (idx < L2X0_NUM_MASTERS).
(** A mask is an [unsigned int]. *)
Definition allowed (mask : Z) : Z := Z.land (Z.lxor (2 ^ 32 - 1) mask) L2X0_WAY_MASK.
Definition exceeds_ways (mask : Z) : bool := bool_decide (Z.land mask (Z.lxor (2 ^ 32 - 1) L2X0_WAY_MASK) ≠ 0).

(** The tests on the parameters, and the warnings. *)
Definition check_params (p : params) : option message :=
  if negb (in_masters (acp_index p)) then Some Bad_acp_index
  else if exceeds_ways (acp_mask p) || exceeds_ways (cpu_mask p) then Some Bad_masks
  else if negb (forallb in_masters (cpu_indices p)) then Some Bad_cpu_index
  else None.
Definition warnings (p : params) : list message :=
  let shared := Z.land (allowed (acp_mask p)) (allowed (cpu_mask p)) in
  (if bool_decide (shared = 0) then [] else [Shared_ways shared]) ++
  (if bool_decide (allowed (acp_mask p) = 0) then [No_acp_way] else []).
(** The masks set, and the test of those of the ACP. *)
Definition lock_masters (p : params) (r : registers) : registers :=
  set_master (acp_mask p) (foldl (set_master (cpu_mask p)) r (cpu_indices p)) (acp_index p).
Definition confined (p : params) (r : registers) : bool :=
  let d := Z.land (readl_relaxed (L2X0_LOCKDOWN_D (acp_index p)) r) L2X0_WAY_MASK in
  let i2 := Z.land (readl_relaxed (L2X0_LOCKDOWN_I (acp_index p)) r) L2X0_WAY_MASK in
  negb (bool_decide (d ≠ acp_mask p) || bool_decide (i2 ≠ acp_mask p)).

(** [l2_lockdown_init]: the answer, the registers, and the log; [mapped] is whether the
    registers can be mapped. *)
Definition l2_lockdown_init (p : params) (mapped : bool) (r : registers) : Z * registers * list message :=
  match check_params p with
  | Some m => (- EINVAL, r, [m])
  | None =>
      if negb mapped then (- ENOMEM, r, warnings p ++ [No_mapping])
      else
        let r := lock_masters p r in
        if confined p r then (0, r, warnings p ++ [Confined])
        else (- EIO, set_master 0 r (acp_index p), warnings p ++ [Not_taking_effect])
  end.

Definition l2_lockdown_exit (p : params) (r : registers) : registers :=
  foldl (set_master 0) (set_master 0 r (acp_index p)) (cpu_indices p).

End device.
End L2Lockdown.

(** ** What the lockdown of the cache guarantees *)

Module L2LockdownSpec.
Import L2Lockdown.

(** ** Registers *)

(** A register of the master [idx]. *)
Definition of_master (idx o : Z) : Prop := o = L2X0_LOCKDOWN_D idx ∨ o = L2X0_LOCKDOWN_I idx.
#[export] Instance of_master_dec idx o : Decision (of_master idx o).
Proof. unfold of_master. apply _. Defined.
Lemma of_master_inj i j o : of_master i o → of_master j o → i = j.
Proof. unfold of_master, L2X0_LOCKDOWN_D, L2X0_LOCKDOWN_I. lia. Qed.
Lemma of_master_bounds i o : in_masters i = true → of_master i o → 0 ≤ o ∧ o + 4 ≤ PL310_REGION_SIZE.
Proof.
  unfold in_masters, of_master, L2X0_LOCKDOWN_D, L2X0_LOCKDOWN_I, PL310_REGION_SIZE, L2X0_NUM_MASTERS.
  rewrite andb_true_iff, !bool_decide_eq_true. lia.
Qed.

Section device.
Context (accepts : Z → bool).
Abbreviation set := (set_master accepts).
Implicit Types (r : Z → Z) (p : params).

Lemma set_master_at mask r idx o :
  set mask r idx o = if decide (of_master idx o ∧ accepts o = true) then mask else r o.
Proof.
  unfold set_master, writel_relaxed, of_master. destruct (decide _) as [[Ho Ha]|Hn].
  - rewrite Ha, !andb_true_r. repeat case_bool_decide; tauto.
  - destruct (accepts o); rewrite ?andb_true_r, ?andb_false_r; [|done]. repeat case_bool_decide; tauto.
Qed.
Lemma set_masters_at mask l r o :
  foldl (set mask) r l o = if decide (Exists (λ i, of_master i o) l ∧ accepts o = true) then mask else r o.
Proof.
  revert r. induction l as [|i l IH]; intros r; cbn [foldl].
  { rewrite decide_False; [done|]. by intros [?%Exists_nil _]. }
  rewrite IH, set_master_at. repeat case_decide; try done; exfalso; rewrite Exists_cons in *; tauto.
Qed.

(** The ways a master may use, by its register [o]. *)
Definition may_use r (o w : Z) : Prop := Z.testbit (r o) w = false.
Definition master_of p (i : Z) : Prop := i = acp_index p ∨ i ∈ cpu_indices p.

Lemma check_params_ok p : check_params p = None →
  in_masters (acp_index p) = true ∧ Forall (λ i, in_masters i = true) (cpu_indices p) ∧
  exceeds_ways (acp_mask p) = false ∧ exceeds_ways (cpu_mask p) = false.
Proof.
  unfold check_params. destruct (in_masters _); [|done]. cbn [negb]. destruct (exceeds_ways (acp_mask p)), (exceeds_ways (cpu_mask p)); try done.
  cbn [orb]. destruct (forallb _ _) eqn:E; [|done]. intros _. split_and!; try done. apply Forall_forall. intros i Hi. by apply (proj1 (forallb_forall _ _) E), list_elem_of_In.
Qed.

Lemma allowed_bit mask w : 0 ≤ w < 8 → Z.testbit (allowed mask) w = negb (Z.testbit mask w).
Proof.
  intros Hw. unfold allowed, L2X0_WAY_MASK. rewrite Z.land_spec, Z.lxor_spec.
  change (2 ^ 32 - 1) with (Z.ones 32). change 255 with (Z.ones 8). rewrite !Z.ones_spec_low by lia.
  by rewrite andb_true_r, xorb_true_l.
Qed.
Lemma no_shared_way p w : ¬ (∃ ways, Shared_ways ways ∈ warnings p) → 0 ≤ w < 8 →
  Z.testbit (acp_mask p) w = false → Z.testbit (cpu_mask p) w = false → False.
Proof.
  intros Hno Hw Ha Hc. apply Hno. unfold warnings. case_bool_decide as Hs.
  - exfalso. assert (Z.testbit (Z.land (allowed (acp_mask p)) (allowed (cpu_mask p))) w = true) as Hb.
    { by rewrite Z.land_spec, !allowed_bit, Ha, Hc by done. }
    by rewrite Hs, Z.bits_0 in Hb.
  - eexists. apply elem_of_app. left. by apply list_elem_of_singleton.
Qed.

Lemma way_bit x mask w : Z.land x L2X0_WAY_MASK = mask → 0 ≤ w < 8 → Z.testbit x w = Z.testbit mask w.
Proof.
  intros <- Hw. rewrite Z.land_spec. change L2X0_WAY_MASK with (Z.ones 8). by rewrite Z.ones_spec_low, andb_true_r by lia.
Qed.
Lemma confined_acp p r o : confined p r = true → of_master (acp_index p) o → Z.land (r o) L2X0_WAY_MASK = acp_mask p.
Proof.
  unfold confined, readl_relaxed, of_master. rewrite negb_true_iff, orb_false_iff, !bool_decide_eq_false. intros [Hd Hi] [-> | ->].
  - by destruct (decide (Z.land (r (L2X0_LOCKDOWN_D (acp_index p))) L2X0_WAY_MASK = acp_mask p)).
  - by destruct (decide (Z.land (r (L2X0_LOCKDOWN_I (acp_index p))) L2X0_WAY_MASK = acp_mask p)).
Qed.

(** C32: When the module has been loaded the ACP has the ways that its mask leaves it, on
    the registers read back; the registers of masters that were not named are as before;
    and when the registers of the CPUs take what is written, none of them is that of the
    ACP, and there was no warning, no way can be used both by the ACP and by a CPU.
    Unloading the module gives every named master all ways again. *)
Theorem lockdown_partitions p mapped r r' log :
  l2_lockdown_init accepts p mapped r = (0, r', log) →
  (∀ o w, of_master (acp_index p) o → 0 ≤ w < 8 → (may_use r' o w ↔ Z.testbit (acp_mask p) w = false)) ∧
  (∀ o, (∀ i, master_of p i → ¬ of_master i o) → r' o = r o ∧ l2_lockdown_exit accepts p r' o = r o) ∧
  (∀ i o, master_of p i → of_master i o → 0 ≤ o ∧ o + 4 ≤ PL310_REGION_SIZE) ∧
  (acp_index p ∉ cpu_indices p → (∀ ways, Shared_ways ways ∉ log) →
   ∀ i o oa w, i ∈ cpu_indices p → of_master i o → of_master (acp_index p) oa → accepts o = true → 0 ≤ w < 8 →
     ¬ (may_use r' o w ∧ may_use r' oa w)) ∧
  (∀ i o, master_of p i → of_master i o → accepts o = true → l2_lockdown_exit accepts p r' o = 0).
Proof.
  unfold l2_lockdown_init. destruct (check_params p) eqn:Ep; [done|]. apply check_params_ok in Ep as (Hacp & Hcpus & _ & _).
  destruct mapped; [|done]. cbn [negb]. destruct (confined p (lock_masters accepts p r)) eqn:Ec; [|done]. intros [= <- <-].
  assert (∀ o, lock_masters accepts p r o = if decide (of_master (acp_index p) o ∧ accepts o = true) then acp_mask p
    else if decide (Exists (λ i, of_master i o) (cpu_indices p) ∧ accepts o = true) then cpu_mask p else r o) as Hat.
  { intros o. unfold lock_masters. by rewrite set_master_at, set_masters_at. }
  assert (∀ r0 o, l2_lockdown_exit accepts p r0 o = if decide (Exists (λ i, of_master i o) (cpu_indices p) ∧ accepts o = true) then 0
    else if decide (of_master (acp_index p) o ∧ accepts o = true) then 0 else r0 o) as Hexit.
  { intros r0 o. unfold l2_lockdown_exit. by rewrite set_masters_at, set_master_at. }
  split_and!.
  - intros o w Ho Hw. unfold may_use. by rewrite (way_bit _ _ _ (confined_acp p _ o Ec Ho) Hw).
  - intros o Hno. assert (¬ of_master (acp_index p) o) by (apply Hno; by left).
    assert (¬ Exists (λ i, of_master i o) (cpu_indices p)) by (intros (i & Hi & ?)%Exists_exists; apply (Hno i); [by right|done]).
    rewrite Hexit, Hat. repeat case_decide; naive_solver.
  - intros i o [-> |Hi]; [by apply of_master_bounds|]. apply of_master_bounds. by eapply (proj1 (Forall_forall _ _)) in Hcpus.
  - intros Hna Hnw i o oa w Hi Ho Hoa Hacc Hw [Hu Hua]. unfold may_use in *.
    rewrite (way_bit _ _ _ (confined_acp p _ oa Ec Hoa) Hw) in Hua. rewrite Hat in Hu.
    rewrite decide_False in Hu by (intros [Ha _]; apply Hna; by rewrite (of_master_inj _ _ _ Ha Ho)).
    rewrite decide_True in Hu by (split; [apply Exists_exists; eauto|done]).
    eapply no_shared_way; [|exact Hw|exact Hua|exact Hu]. intros [ways Hx]. apply (Hnw ways), elem_of_app. by left.
  - intros i o Hi Ho Hacc. rewrite Hexit. destruct Hi as [-> |Hi]; repeat case_decide; try done; exfalso;
      rewrite Exists_exists in *; naive_solver.
Qed.
End device.

Definition example_registers : Z → Z := λ _, 0.
Lemma lockdown_partitions_witness :
  l2_lockdown_init (λ _, true) default_params true example_registers = (0, (lock_masters (λ _, true) default_params example_registers), [Confined]) ∧
  ∀ w, 0 ≤ w < 8 → ¬ (may_use (lock_masters (λ _, true) default_params example_registers) 0x900 w ∧ may_use (lock_masters (λ _, true) default_params example_registers) 0x908 w).
Proof.
  set (r' := lock_masters (λ _, true) default_params example_registers). assert (l2_lockdown_init (λ _, true) default_params true example_registers = (0, r', [Confined])) as E by reflexivity.
  split; [exact E|]. intros w Hw.
  destruct (lockdown_partitions (λ _, true) default_params true example_registers r' [Confined] E) as (_ & _ & _ & Hd & _).
  apply (Hd ltac:(by intros ?%list_elem_of_singleton) ltac:(by intros ways ?%list_elem_of_singleton) 0 0x900 0x908 w);
    [by apply list_elem_of_singleton|by left|by left|done|done].
Defined.

(** ** What goes wrong *)

(** When the ACP is not confined, the CPUs stay locked out of its ways. *)
Lemma failed_readback_keeps_cpus :
  let accepts o := bool_decide (o < 0x908) in let '(rc, r, _) := l2_lockdown_init accepts default_params true example_registers in
  rc = - EIO ∧ r 0x900 = 128.
Proof. by split. Qed.
(** A CPU with the index of the ACP gets the mask of the ACP, without a warning. *)
Lemma shared_index_not_noticed :
  let '(rc, r, log) := l2_lockdown_init (λ _, true) (mk_params 1 [0; 1] 127 128) true example_registers in
  rc = 0 ∧ log = [Confined] ∧ r 0x908 = 127.
Proof. by split_and!. Qed.
End L2LockdownSpec.
