(* ===== verification/DriverCore.v ===== *)
(** * The rest of the driver: panda_core.c, panda_map.c and the opening of panda_stream.c

    What the module takes from the kernel and gives back, and the mapping of the
    registers.  What the kernel answers is an argument; giving back what is not held is
    undefined.  Resources that are managed (devm) are released by the kernel after a
    probe that fails and after the removal of the device. *)

From S2P Require Import Prelude.
From stdpp Require Import base numbers list gmap strings.
Open Scope Z_scope.

Module DriverCore.

Definition PAGE_SHIFT : Z := 12.
Definition EIO : Z := 5.
Definition ENOMEM : Z := 12.
Definition EBUSY : Z := 16.
Definition EINVAL : Z := 22.

(** ** The mapping of the registers *)

(** The parts of [struct panda_pcap] that the mapping uses. *)
Record panda_pcap := mk_pcap { base_page : Z; length_ : Z }.
(** What is mapped: where, the first page, and the size. *)
Record mapping := mk_mapping { m_start : Z; m_page : Z; m_size : Z }.

Definition panda_map_mmap `{Platform} (pcap : panda_pcap) (vm_start vm_end vm_pgoff : Z) : Z + mapping :=
  let size := ulong (vm_end - vm_start) in
  let end_ := ulong (ulong (Z.shiftl vm_pgoff PAGE_SHIFT) + size) in
  if bool_decide (length_ pcap < end_) then inl (- EINVAL)
  else inr (mk_mapping vm_start (ulong (base_page pcap + vm_pgoff)) size).

(** [panda_map_ioctl]: true for PANDA_MAP_SIZE. *)
Definition panda_map_ioctl (pcap : panda_pcap) (map_size : bool) : Z := if map_size then length_ pcap else - EINVAL.

(** [atomic_add_unless(&device_open, 1, 1)]. *)
Definition take_device (device_open : Z) : option Z := if bool_decide (device_open = 1) then None else Some (device_open + 1).
Definition panda_map_open (device_open : Z) : Z * Z :=
  match take_device device_open with None => (- EBUSY, device_open) | Some n => (0, n) end.
Definition panda_map_release (device_open : Z) : Z := device_open - 1.

(** ** The blocks of the stream *)

(** The blocks that have pages, and those that are mapped for the DMA engine. *)
Record memory := mk_memory { pages : gset nat; dma : gset nat }.
Definition add_pages (b : nat) (m : memory) : memory := mk_memory ({[b]} ∪ pages m) (dma m).
Definition add_dma (b : nat) (m : memory) : memory := mk_memory (pages m) ({[b]} ∪ dma m).
Definition free_pages (b : nat) (m : memory) : outcome memory :=
  _ ← in_range (bool_decide (b ∈ pages m ∧ b ∉ dma m)); Ret (mk_memory (pages m ∖ {[b]}) (dma m)).
Definition dma_unmap_single (b : nat) (m : memory) : outcome memory :=
  _ ← in_range (bool_decide (b ∈ dma m)); Ret (mk_memory (pages m) (dma m ∖ {[b]})).

(** The loop at the end of [allocate_blocks], from the label no_block. *)
Fixpoint release_loop (blk : nat) (m : memory) : outcome memory :=
  match blk with
  | O => Ret m
  | S blk =>
      m ← dma_unmap_single blk m;
      m ← free_pages blk m;
      release_loop blk m
  end.
(** [allocate_blocks], with [n] blocks to go; [answers] is whether there are pages for a
    block and whether it can be mapped. *)
Fixpoint allocate_loop (answers : nat → bool * bool) (n blk : nat) (m : memory) : outcome (Z * memory) :=
  match n with
  | O => Ret (0, m)
  | S n =>
      let '(has_pages, can_map) := answers blk in
      if negb has_pages then m ← release_loop blk m; Ret (- ENOMEM, m)
      else
        let m := add_pages blk m in
        if negb can_map then
          m ← free_pages blk m;
          m ← release_loop blk m;
          Ret (- EIO, m)
        else allocate_loop answers n (S blk) (add_dma blk m)
  end.
Definition allocate_blocks (answers : nat → bool * bool) (block_count : nat) (m : memory) : outcome (Z * memory) :=
  allocate_loop answers block_count 0 m.
Fixpoint free_blocks (n blk : nat) (m : memory) : outcome memory :=
  match n with
  | O => Ret m
  | S n =>
      m ← dma_unmap_single blk m;
      m ← free_pages blk m;
      free_blocks n (S blk) m
  end.

(** The driver of the stream: its counter, the open structure, the blocks and the
    interrupt. *)
Record stream := mk_stream { device_open : Z; open_structure : bool; buffers : memory; stream_irq : bool }.
(** [panda_stream_open]: whether the structure can be allocated, the answers for the
    blocks, and that of the request for the interrupt. *)
Definition panda_stream_open (kmalloc : bool) (answers : nat → bool * bool) (block_count : nat) (irq : Z) (s : stream) : outcome (Z * stream) :=
  match take_device (device_open s) with
  | None => Ret (- EBUSY, s)
  | Some count =>
      if negb kmalloc then Ret (- ENOMEM, mk_stream count false (buffers s) (stream_irq s))
      else
        '(rc, m) ← allocate_blocks answers block_count (buffers s);
        if bool_decide (rc ≠ 0) then Ret (rc, mk_stream count false m (stream_irq s))
        else if bool_decide (irq < 0) then m ← free_blocks block_count 0 m; Ret (irq, mk_stream count false m (stream_irq s))
        else Ret (0, mk_stream count true m true)
  end.
(** [panda_stream_release], without the reset of the DMA engine. *)
Definition panda_stream_release (block_count : nat) (s : stream) : outcome stream :=
  m ← free_blocks block_count 0 (buffers s);
  Ret (mk_stream (device_open s - 1) false m false).

(** ** The device *)

Definition PANDA_MINORS : list string := ["map"; "block"; "stream"].

(** What a device holds: the structure [pcap], the character device, which leads to it,
    the managed mapping and interrupt, and its nodes. *)
Record device := mk_device { d_pcap : option panda_pcap; d_cdev : bool; d_mapped : bool; d_irq : bool; d_nodes : list string }.
Definition no_device : device := mk_device None false false false [].
Definition release_managed (d : device) : device := mk_device (d_pcap d) (d_cdev d) false false (d_nodes d).
Definition kfree (d : device) : device := mk_device None (d_cdev d) (d_mapped d) (d_irq d) (d_nodes d).

(** The answers of the kernel to [panda_probe]: whether the structure can be allocated,
    the registers as start and end, the mapping or its error, which is 0 for a null
    pointer, the two interrupts, the version of the FPGA, and the last two calls. *)
Record probe_answers := mk_answers {
  a_kmalloc : bool;
  a_resource : option (Z * Z);
  a_reg_base : Z + Z;
  a_stream_irq : Z;
  a_block_irq : Z;
  a_version : Z;
  a_cdev_add : Z;
  a_request_irq : Z;
}.
(** [TEST_PTR]: the error of a pointer. *)
Definition ptr_error (e : Z) : Z := if bool_decide (e = 0) then - ENOMEM else e.

(** [panda_probe], of a driver for the version [DRIVER_COMPAT_VERSION]. *)
Definition panda_probe (DRIVER_COMPAT_VERSION : Z) (a : probe_answers) : outcome (Z * device) :=
  if negb (a_kmalloc a) then Ret (- ENOMEM, no_device)
  else
    '(start, end_) ← match a_resource a with Some res => Ret res | None => Undef end;
    let pcap := mk_pcap (Z.shiftr start PAGE_SHIFT) (u32 (end_ - start + 1)) in
    let d := mk_device (Some pcap) false false false [] in
    match a_reg_base a with
    | inl e => Ret (ptr_error e, kfree d)
    | inr _ =>
        let d := mk_device (Some pcap) false true false [] in
        if bool_decide (a_stream_irq a < 0) then Ret (a_stream_irq a, kfree d)
        else if bool_decide (a_block_irq a < 0) then Ret (a_block_irq a, kfree d)
        else if negb (bool_decide (a_version a = DRIVER_COMPAT_VERSION)) then Ret (- EINVAL, kfree d)
        else if bool_decide (a_cdev_add a < 0) then Ret (a_cdev_add a, kfree d)
        else
          let d := mk_device (Some pcap) true true false [] in
          if bool_decide (a_request_irq a < 0) then Ret (a_request_irq a, kfree d)
          else Ret (0, mk_device (Some pcap) true true true PANDA_MINORS)
    end.
Definition panda_remove (d : device) : device :=
  kfree (mk_device (d_pcap d) false (d_mapped d) (d_irq d) []).
(** What the kernel does with them. *)
Definition bind_device (version : Z) (a : probe_answers) : outcome (Z * device) :=
  '(rc, d) ← panda_probe version a; Ret (rc, if bool_decide (rc = 0) then d else release_managed d).
Definition unbind_device (d : device) : device := release_managed (panda_remove d).

(** ** The module *)

Record module_state := mk_module { chrdev_region : bool; panda_class : bool; platform_driver : bool }.
Definition not_loaded : module_state := mk_module false false false.
Definition unregister_chrdev_region (m : module_state) : module_state := mk_module false (panda_class m) (platform_driver m).
Definition class_destroy (m : module_state) : module_state := mk_module (chrdev_region m) false (platform_driver m).
Definition platform_driver_unregister (m : module_state) : module_state := mk_module (chrdev_region m) (panda_class m) false.
(** The labels at the end of [panda_init]. *)
Definition no_class (rc : Z) (m : module_state) : Z * module_state := (rc, unregister_chrdev_region m).
Definition no_platform (rc : Z) (m : module_state) : Z * module_state := no_class rc (class_destroy m).
Definition panda_init (region : Z) (class_ : Z + Z) (driver_ : Z) : Z * module_state :=
  if bool_decide (region < 0) then (region, not_loaded)
  else
    let m := mk_module true false false in
    match class_ with
    | inl e => no_class (ptr_error e) m
    | inr _ =>
        let m := mk_module true true false in
        if bool_decide (driver_ < 0) then no_platform driver_ m else (0, mk_module true true true)
    end.
Definition panda_exit (m : module_state) : module_state := unregister_chrdev_region (class_destroy (platform_driver_unregister m)).

(** [panda_open]: the file system operations of the minor device. *)
Definition panda_open (minor : nat) : option string := PANDA_MINORS !! minor.
End DriverCore.

(** ** What the driver takes and gives back *)

Module DriverCoreSpec.
Import DriverCore.

(** ** The mapping of the registers *)

Section map.
Context `{Platform}.

(** Pages that a mapping covers, the last perhaps in part. *)
Definition maps_page (m : mapping) (page : Z) : Prop := m_page m ≤ page < m_page m + (m_size m + 2 ^ PAGE_SHIFT - 1) / 2 ^ PAGE_SHIFT.
Definition device_page (pcap : panda_pcap) (page : Z) : Prop :=
  base_page pcap ≤ page < base_page pcap + (length_ pcap + 2 ^ PAGE_SHIFT - 1) / 2 ^ PAGE_SHIFT.

(** C33: A mapping of the registers that is granted stays within them, when the end of
    the mapping fits an unsigned long, as the kernel makes sure, and the pages of the
    registers are numbers of that size; and every such mapping that lies within the
    registers is granted. *)
Theorem mapping_inside pcap vm_start vm_end vm_pgoff :
  0 ≤ vm_start ≤ vm_end → vm_end < 2 ^ long_bits → 0 ≤ vm_pgoff → vm_pgoff * 2 ^ PAGE_SHIFT + (vm_end - vm_start) < 2 ^ long_bits →
  0 ≤ base_page pcap → base_page pcap * 2 ^ PAGE_SHIFT + length_ pcap < 2 ^ long_bits → 0 ≤ length_ pcap →
  match panda_map_mmap pcap vm_start vm_end vm_pgoff with
  | inr m => m_start m = vm_start ∧ m_size m = vm_end - vm_start ∧ m_page m = base_page pcap + vm_pgoff ∧
      ∀ page, maps_page m page → device_page pcap page
  | inl rc => rc = - EINVAL ∧ length_ pcap < vm_pgoff * 2 ^ PAGE_SHIFT + (vm_end - vm_start)
  end.
Proof.
  intros Hs He Hp Hend Hb Hl Hl0. unfold panda_map_mmap, ulong, maps_page, device_page, PAGE_SHIFT in *. rewrite Z.shiftl_mul_pow2 by lia.
  change (2 ^ 12) with 4096 in *. rewrite (wrap_small _ (vm_end - vm_start)) by lia.
  rewrite (wrap_small _ (vm_pgoff * 4096)) by lia. rewrite (wrap_small _ (_ + _)) by lia.
  case_bool_decide as Hd; [done|]. cbn [m_start m_page m_size]. rewrite wrap_small by lia. split_and!; try done.
  intros page Hpage. assert ((vm_end - vm_start + 4096 - 1) / 4096 + vm_pgoff ≤ (length_ pcap + 4096 - 1) / 4096) as Hle; [|lia].
  rewrite <-Z.div_add by lia. apply Z.div_le_mono; lia.
Qed.
End map.

Lemma mapping_inside_witness :
  @panda_map_mmap ARM32 (mk_pcap 262144 262144) 4096 8192 1 = inr (mk_mapping 4096 (262144 + 1) 4096) ∧
  ∀ page, @maps_page (mk_mapping 4096 (262144 + 1) 4096) page → device_page (mk_pcap 262144 262144) page.
Proof.
  pose proof (@mapping_inside ARM32 (mk_pcap 262144 262144) 4096 8192 1) as Hm.
  assert (@panda_map_mmap ARM32 (mk_pcap 262144 262144) 4096 8192 1 = inr (mk_mapping 4096 (262144 + 1) 4096)) as E by reflexivity.
  split; [exact E|]. rewrite E in Hm. apply Hm; vm_compute; try split; congruence.
Defined.

(** Where the kernel does not see to it, the end wraps around on a machine of 32 bits,
    and memory far from the registers is mapped. *)
Lemma wrapped_offset_mapped :
  let pcap := mk_pcap 262144 262144 in
  ∃ m, @panda_map_mmap ARM32 pcap 0 4096 (2 ^ 20) = inr m ∧ m_page m = 262144 + 2 ^ 20 ∧ ¬ device_page pcap (m_page m).
Proof. eexists. split; [reflexivity|]. split; [reflexivity|]. unfold device_page. vm_compute. intros [_ ?]. congruence. Qed.

(** One process at a time has the registers open. *)
Lemma map_single_user n : let '(rc, n1) := panda_map_open n in let '(rc2, n2) := panda_map_open n1 in
  n = 0 → rc = 0 ∧ rc2 = - EBUSY ∧ n2 = n1 ∧ panda_map_release n2 = 0.
Proof. unfold panda_map_open, take_device. repeat case_bool_decide; intros; subst; try done; lia. Qed.

(** ** The blocks of the stream *)

(** The blocks from [lo] up to [hi], and others as in [m]. *)
Definition holds (m : memory) (lo hi : nat) (m' : memory) : Prop :=
  pages m' = pages m ∪ set_seq lo (hi - lo) ∧ dma m' = dma m ∪ set_seq lo (hi - lo).
(** The blocks up to [n] are not held yet. *)
Definition none_of (m : memory) (n : nat) : Prop := ∀ b, (b < n)%nat → b ∉ pages m ∧ b ∉ dma m.

Lemma memory_eq m m' : pages m = pages m' → dma m = dma m' → m = m'.
Proof. destruct m, m'. cbn. by intros -> ->. Qed.
Lemma holds_none m lo : holds m lo lo m.
Proof. unfold holds. rewrite Nat.sub_diag. cbn. by rewrite !(right_id_L ∅ (∪)). Qed.
Lemma holds_nothing m lo m' : holds m lo lo m' → m' = m.
Proof. unfold holds. rewrite Nat.sub_diag. cbn. rewrite !(right_id_L ∅ (∪)). intros [? ?]. by apply memory_eq. Qed.

(** Releasing the block at an end of those held. *)
Lemma release_block m lo hi lo' hi' b m' :
  none_of m hi → holds m lo hi m' → (lo ≤ b < hi)%nat → (lo = lo' ∧ b = hi' ∧ hi = S hi' ∨ b = lo ∧ lo' = S lo ∧ hi' = hi)%nat →
  ∃ m'', (m1 ← dma_unmap_single b m'; free_pages b m1) = Ret m'' ∧ holds m lo' hi' m''.
Proof.
  intros Hn [Hp Hd] Hb Hend. assert (b ∈ dma m' ∧ b ∈ pages m') as [Hbd Hbp].
  { rewrite Hp, Hd. split; apply elem_of_union; right; apply elem_of_set_seq; lia. }
  destruct (Hn b) as [Hnp Hnd]; [lia|]. unfold dma_unmap_single, free_pages, in_range. rewrite bool_decide_true by done.
  cbn [mbind outcome_bind pages dma]. rewrite bool_decide_true by set_solver. cbn [mbind outcome_bind]. eexists. split; [reflexivity|].
  unfold holds. cbn [pages dma]. rewrite Hp, Hd.
  assert (∀ s : gset nat, b ∉ s → (s ∪ set_seq lo (hi - lo)) ∖ {[b]} = s ∪ set_seq lo' (hi' - lo')) as Hs; [|by rewrite !Hs].
  intros s Hbs. apply set_eq. intros x. rewrite elem_of_difference, !elem_of_union, elem_of_singleton, !elem_of_set_seq.
  destruct (decide (x = b)) as [->|Hx]; [|assert (lo ≤ x < lo + (hi - lo) ↔ lo' ≤ x < lo' + (hi' - lo'))%nat by lia; tauto].
  split; [tauto|]. intros [?|?]; [done|lia].
Qed.
Lemma release_loop_exact m blk m' : none_of m blk → holds m 0 blk m' → release_loop blk m' = Ret m.
Proof.
  revert m'. induction blk as [|blk IH]; intros m' Hn Hh; cbn [release_loop]; [by rewrite (holds_nothing _ _ _ Hh)|].
  destruct (release_block m 0 (S blk) 0 blk blk m') as (m2 & E & Hh2); [done|done|lia|lia|].
  destruct (dma_unmap_single blk m') as [m1| |]; [|done..]. cbn [mbind outcome_bind] in *. rewrite E. cbn [mbind outcome_bind].
  apply IH; [|done]. intros b ?. apply Hn. lia.
Qed.
Lemma free_blocks_exact m n blk m' : none_of m (blk + n) → holds m blk (blk + n) m' → free_blocks n blk m' = Ret m.
Proof.
  revert blk m'. induction n as [|n IH]; intros blk m' Hn Hh; cbn [free_blocks].
  { rewrite Nat.add_0_r in Hh. by rewrite (holds_nothing _ _ _ Hh). }
  destruct (release_block m blk (blk + S n) (S blk) (blk + S n) blk m') as (m2 & E & Hh2);
    [intros b ?; apply Hn; lia|done|lia|lia|].
  destruct (dma_unmap_single blk m') as [m1| |]; [|done..]. cbn [mbind outcome_bind] in *. rewrite E. cbn [mbind outcome_bind].
  apply IH; [|by replace (S blk + n)%nat with (blk + S n)%nat by lia]. intros b ?. apply Hn. lia.
Qed.

Lemma holds_step m lo blk m' : (lo ≤ blk)%nat → holds m lo blk m' → holds m lo (S blk) (add_dma blk (add_pages blk m')).
Proof.
  intros Hle [Hp Hd]. unfold holds. cbn [pages dma add_dma add_pages]. rewrite Hp, Hd.
  assert (∀ s : gset nat, {[blk]} ∪ (s ∪ set_seq lo (blk - lo)) = s ∪ set_seq lo (S blk - lo)) as Hs; [|by rewrite !Hs].
  intros s. apply set_eq. intros x. rewrite !elem_of_union, elem_of_singleton, !elem_of_set_seq.
  assert ((x = blk ∨ lo ≤ x < lo + (blk - lo)) ↔ lo ≤ x < lo + (S blk - lo))%nat by lia. tauto.
Qed.
Lemma allocate_loop_exact answers m n blk m' : none_of m (blk + n) → holds m 0 blk m' →
  ∃ rc m2, allocate_loop answers n blk m' = Ret (rc, m2) ∧
  (rc = 0 ∧ holds m 0 (blk + n) m2 ∨ rc < 0 ∧ m2 = m).
Proof.
  revert blk m'. induction n as [|n IH]; intros blk m' Hn Hh; cbn [allocate_loop].
  { exists 0, m'. rewrite Nat.add_0_r. auto. }
  assert (none_of m blk) as Hnb by (intros b ?; apply Hn; lia). destruct (Hn blk) as [Hbp Hbd]; [lia|].
  destruct (answers blk) as [[] can_map]; cbn [negb].
  2:{ rewrite (release_loop_exact m blk m' Hnb Hh). cbn [mbind outcome_bind]. exists (- ENOMEM), m. split; [done|]. right. split; [reflexivity|done]. }
  destruct can_map; cbn [negb].
  - destruct (IH (S blk) (add_dma blk (add_pages blk m'))) as (rc & m2 & E & Hres);
      [by replace (S blk + n)%nat with (blk + S n)%nat by lia|apply holds_step; [lia|done]|].
    exists rc, m2. replace (blk + S n)%nat with (S blk + n)%nat by lia. auto.
  - assert (free_pages blk (add_pages blk m') = Ret m') as ->.
    { destruct Hh as [Hp Hd]. unfold free_pages, in_range. rewrite bool_decide_true.
      - cbn [mbind outcome_bind]. f_equal. apply memory_eq; [|done]. cbn [pages add_pages].
        assert (blk ∉ pages m'); [|set_solver]. rewrite Hp, elem_of_union, elem_of_set_seq. intros [?|?]; [done|lia].
      - cbn [pages dma add_pages]. split; [set_solver|]. rewrite Hd, elem_of_union, elem_of_set_seq. intros [?|?]; [done|lia]. }
    cbn [mbind outcome_bind]. rewrite (release_loop_exact m blk m' Hnb Hh). cbn [mbind outcome_bind]. exists (- EIO), m. split; [done|]. right. split; [reflexivity|done].
Qed.

(** C34: Opening the stream of captured data when it is not open: whichever allocation
    fails, nothing is released that is not held, and the memory, the mappings and the
    interrupt that were taken are given back, but not the counter of users, so that from
    then on the stream is refused to everybody; when it succeeds every block has its pages
    and its mapping, and releasing the file gives all of it back, the counter too. *)
Theorem stream_open_exact kmalloc answers count irq s :
  device_open s = 0 → open_structure s = false → stream_irq s = false → none_of (buffers s) count →
  ∃ rc s', panda_stream_open kmalloc answers count irq s = Ret (rc, s') ∧
  (rc < 0 ∧ buffers s' = buffers s ∧ open_structure s' = false ∧ stream_irq s' = false ∧ device_open s' = 1 ∧
     (∀ kmalloc answers count irq, panda_stream_open kmalloc answers count irq s' = Ret (- EBUSY, s')) ∨
   rc = 0 ∧ holds (buffers s) 0 count (buffers s') ∧ open_structure s' = true ∧ stream_irq s' = true ∧
     device_open s' = 1 ∧ panda_stream_release count s' = Ret s).
Proof.
  intros Hopen Hs Hirq Hn. unfold panda_stream_open, take_device. rewrite Hopen, bool_decide_false by done.
  destruct kmalloc; cbn [negb]; [|do 2 eexists; split; [reflexivity|by left]].
  destruct (allocate_loop_exact answers (buffers s) count 0 (buffers s) Hn (holds_none _ _)) as (rc & m & E & Hres).
  unfold allocate_blocks. rewrite E. cbn [mbind outcome_bind Nat.add] in *.
  assert (holds (buffers s) 0 count m → free_blocks count 0 m = Ret (buffers s)) as Hfree.
  { intros Hh. apply free_blocks_exact; [|done]. intros b ?. apply Hn. lia. }
  destruct Hres as [[-> Hh]|[Hrc ->]].
  - rewrite bool_decide_false by (intros []; done). specialize (Hfree Hh). case_bool_decide.
    + rewrite Hfree. cbn [mbind outcome_bind]. do 2 eexists. split; [reflexivity|]. left. by rewrite Hirq.
    + do 2 eexists. split; [reflexivity|]. right. split_and!; try done. unfold panda_stream_release. cbn [buffers device_open].
      rewrite Hfree. cbn [mbind outcome_bind]. destruct s. cbn in *. by subst.
  - rewrite bool_decide_true by lia. do 2 eexists. split; [reflexivity|]. left. by rewrite Hirq.
Qed.

Definition closed_stream : stream := mk_stream 0 false (mk_memory ∅ ∅) false.
Lemma stream_open_exact_witness :
  ∃ rc s', panda_stream_open true (λ b, (true, bool_decide (b ≠ 2%nat))) 3 5 closed_stream = Ret (rc, s') ∧ rc = - EIO ∧ buffers s' = mk_memory ∅ ∅.
Proof.
  destruct (stream_open_exact true (λ b, (true, bool_decide (b ≠ 2%nat))) 3 5 closed_stream) as (rc & s' & E & Hres);
    [done|done|done|by intros b ?|].
  exists rc, s'. split; [exact E|]. assert (rc = - EIO) as -> by (vm_compute in E; by injection E as <- _).
  split; [done|]. destruct Hres as [(_ & Hb & _)|[? _]]; [exact Hb|done].
Defined.

(** The counter is not set back when opening fails: the stream can never be opened
    again. *)
Lemma failed_open_stays_busy answers count :
  ∃ s', panda_stream_open false answers count 0 closed_stream = Ret (- ENOMEM, s') ∧
  ∀ kmalloc irq, panda_stream_open kmalloc answers count irq s' = Ret (- EBUSY, s').
Proof. eexists. split; reflexivity. Qed.

(** ** The device and the module *)

(** A probe that succeeds has all it needs, and unbinding the device leaves nothing; one
    that fails leaves nothing, but for the last call. *)
Theorem probe_exact version a :
  is_Some (a_resource a) → (∀ e, a_reg_base a = inl e → e ≤ 0) →
  ∃ rc d, bind_device version a = Ret (rc, d) ∧
  (rc = 0 ∧ is_Some (d_pcap d) ∧ d_cdev d = true ∧ d_mapped d = true ∧ d_irq d = true ∧ d_nodes d = PANDA_MINORS ∧ unbind_device d = no_device ∨
   rc < 0 ∧ (0 ≤ a_request_irq a → d = no_device)).
Proof.
  intros [[start end_] Er] He. unfold bind_device, panda_probe. rewrite Er. cbn [mbind outcome_bind].
  destruct (a_kmalloc a); cbn [negb]; [|do 2 eexists; split; [reflexivity|right; split; [reflexivity|done]]].
  destruct (a_reg_base a) as [e|base] eqn:Eb.
  { do 2 eexists. split; [reflexivity|]. right. specialize (He e eq_refl). unfold ptr_error, ENOMEM.
    case_bool_decide; (split; [lia|intros _]); by rewrite bool_decide_false by lia. }
  repeat case_bool_decide; cbn [negb mbind outcome_bind] in *;
    (do 2 eexists; split; [reflexivity|]); try (by left; rewrite bool_decide_true by done; split_and!).
  all: right; unfold EINVAL; split; [first [lia|reflexivity]|intros ?; first [lia|by rewrite bool_decide_false by lia]].
Qed.

Definition example_answers (request : Z) : probe_answers :=
  mk_answers true (Some (0x43c00000, 0x43c3ffff)) (inr 0) 40 41 5 0 request.
(** When the interrupt is refused the character device is still there, and leads to the
    structure that has been freed. *)
Lemma refused_irq_keeps_cdev :
  bind_device 5 (example_answers (- EBUSY)) = Ret (- EBUSY, mk_device None true false false []).
Proof. reflexivity. Qed.
(** The structure is freed while its interrupt can still come. *)
Lemma removed_before_irq :
  ∃ d, bind_device 5 (example_answers 0) = Ret (0, d) ∧ d_pcap (panda_remove d) = None ∧ d_irq (panda_remove d) = true.
Proof. eexists. split; [reflexivity|]. by split. Qed.

(** Loading the module succeeds or leaves nothing, and unloading it leaves nothing. *)
Lemma init_exact region class_ driver_ : (∀ e, class_ = inl e → e ≤ 0) →
  let '(rc, m) := panda_init region class_ driver_ in
  (rc = 0 ∧ m = mk_module true true true ∨ rc < 0 ∧ m = not_loaded) ∧ panda_exit m = not_loaded.
Proof.
  intros He. unfold panda_init. case_bool_decide; [split; [by right|done]|]. destruct class_ as [e|].
  - specialize (He e eq_refl). split; [right|done]. split; [|done]. unfold ptr_error, ENOMEM. case_bool_decide; lia.
  - case_bool_decide; (split; [|done]); [by right|by left].
Qed.

(** Each minor device has its own operations. *)
Lemma minors_distinct i j : i ≠ j → is_Some (panda_open i) → panda_open i ≠ panda_open j.
Proof. intros Hij [name Hi] E. rewrite Hi in E. apply Hij. eapply (NoDup_lookup PANDA_MINORS); [|exact Hi|exact (eq_sym E)]. by apply (bool_decide_unpack _). Qed.
End DriverCoreSpec.
