(* ===== verification/TableSetup.v ===== *)
(** * Making and closing tables: hardware.c and table.c

    The registers of a table, the memory and the files of the driver that it takes, and
    giving them back.  What the kernel answers is an argument, and so are the contents of
    memory from malloc.  A pointer that has not been set is [None]; to free it is
    undefined. *)

From S2P Require Import Prelude Errors Parse Format Hardware Fields PandaBlock Table.
From stdpp Require Import base numbers list gmap option strings.
Open Scope Z_scope.

Module TableSetup.
Import Parse Hardware Fields Table.

(** [struct hw_table], with the state of the process that it uses: the files that are
    open, and the channel of the next long table. *)
Record process := mk_process { files : gset Z; dma_channel_base : Z }.
Record hw_table := mk_hw_table {
  hw_type : table_type;
  hw_block_base : Z;
  hw_registers : Z * Z * Z;
  hw_data : list (option (list Z));
  block_ids : list Z;
  hw_channels : Z;
}.
Definition hw_count (t : hw_table) : nat := length (hw_data t).

(** [create_hw_table]. *)
Definition create_hw_table (block_base : Z) (count : nat) (type : table_type) : hw_table :=
  mk_hw_table type block_base (0, 0, 0) (replicate count None) [] 0.

Section hardware.
(** What is in the memory for so many words. *)
Context `{Platform} (malloc : nat → list Z).

(** ** Short tables *)

Definition hw_open_short_table (block_base : Z) (block_count : nat) (registers : Z * Z * Z) (max_length : nat) : hw_table :=
  let t := create_hw_table block_base block_count SHORT_TABLE in
  mk_hw_table (hw_type t) (hw_block_base t) registers ((λ _, Some (malloc max_length)) <$> hw_data t) [] 0.

(** ** Long tables *)

(** The answers for a block: the file, or -1, what the driver answers to its
    configuration, and whether there is memory. *)
Record allocation := mk_allocation { al_open : Z; al_config : Z; al_memory : bool }.
(** [TEST_IO]: the value as an [intptr_t]. *)
Definition COND_IO (value : Z) : bool := negb (bool_decide (to_signed long_bits value = -1)).

(** The message of a test without one; the file is named as the compiler was given it. *)
Definition unexpected (line : string) : error__t := TEST_OK_ false ("Unexpected error at hardware.c:" +:+ line).

(** What [PANDA_BLOCK_CONFIG] asks for. *)
Definition long_table_request (block_base number base_reg length_reg order nbuffers dma_channel : Z) : PandaBlock.panda_block :=
  PandaBlock.mk_block order (u32 (4 * make_offset block_base number base_reg)) (u32 (4 * make_offset block_base number length_reg))
    dma_channel nbuffers.

(** [hw_long_table_allocate]: the error, the size of a block if it was set, the data, the
    file, and the process. *)
Definition hw_long_table_allocate (a : allocation) (p : process) : error__t * option Z * option (list Z) * Z * process :=
  if bool_decide (al_open a = -1) then (TEST_OK_ false "Unable to open PandA device /dev/panda.block", None, None, -1, p)
  else
    let p := mk_process ({[al_open a]} ∪ files p) (dma_channel_base p) in
    let block_size := u32 (al_config a) in
    if negb (COND_IO block_size) then (unexpected "487", Some block_size, None, al_open a, p)
    else if negb (al_memory a) then (unexpected "489", Some block_size, None, al_open a, p)
    else (None, Some block_size, Some (malloc (Z.to_nat (ulong (block_size * 4) / 4))), al_open a, p).

(** The loop of [create_long_table], from block [i]. *)
Fixpoint allocate_loop (answers : list allocation) (i : nat) (t : hw_table) (block_size : Z) (p : process) : error__t * hw_table * Z * process :=
  match answers with
  | [] => (None, t, block_size, p)
  | a :: answers =>
      let '(error, size, data, id, p) := hw_long_table_allocate a p in
      let t := mk_hw_table (hw_type t) (hw_block_base t) (hw_registers t) (<[i := data]> (hw_data t)) (<[i := id]> (block_ids t)) (hw_channels t) in
      let block_size := default block_size size in
      match error with
      | Some e => (Some e, t, block_size, p)
      | None => allocate_loop answers (S i) t block_size p
      end
  end.
(** [hw_open_long_table], with an answer for each block: the table, and the length of a
    block in words. *)
Definition hw_open_long_table (block_base : Z) (answers : list allocation) (p : process) : error__t * hw_table * Z * process :=
  let count := length answers in
  let t := create_hw_table block_base count LONG_TABLE in
  let t := mk_hw_table (hw_type t) (hw_block_base t) (hw_registers t) (hw_data t) (replicate count 0) (dma_channel_base p) in
  let p := mk_process (files p) (u32 (dma_channel_base p + Z.of_nat count)) in
  let '(error, t, block_size, p) := allocate_loop answers 0 t 0 p in
  (error, t, block_size / 4, p).
(** The requests of the loop, in order. *)
Definition long_table_requests (t : hw_table) (base_reg length_reg order nbuffers : Z) : list PandaBlock.panda_block :=
  (λ i : nat, long_table_request (hw_block_base t) (Z.of_nat i) base_reg length_reg order nbuffers (u32 (hw_channels t + Z.of_nat i))) <$> seq 0 (hw_count t).

(** ** Closing *)

(** [free] of each pointer, and [close] of each file. *)
Definition free_data (data : list (option (list Z))) : outcome unit := in_range (forallb (λ d, bool_decide (d ≠ None)) data).
Definition close_file (p : process) (id : Z) : process := mk_process (files p ∖ {[id]}) (dma_channel_base p).
Definition hw_close_table (t : hw_table) (p : process) : outcome process :=
  _ ← free_data (hw_data t);
  Ret (match hw_type t with SHORT_TABLE => p | LONG_TABLE => foldl close_file p (block_ids t) end).

(** [hw_get_queued_words], with the answer of the driver. *)
Definition hw_get_queued_words (t : hw_table) (answer : Z) : Z := match hw_type t with LONG_TABLE => answer | SHORT_TABLE => 0 end.

(** ** The registers of a table *)

(** What [table_parse_register] sets of [struct table_state]. *)
Record setup := mk_setup {
  su_max_length : Z;
  su_registers : option (Z * Z * Z);
  su_table : option hw_table;
  su_write_data : list (list Z);
}.
Definition no_setup : setup := mk_setup 0 None None [].

(** The state of the parsers: the registers in use, and the process. *)
Definition parsed : Type := error__t * setup * list block_type * process * cstring.
Definition or_fail {A} (types : list block_type) (p : process) (r : res A * cstring) (k : A → cstring → outcome parsed) : outcome parsed :=
  match r with
  | (Err e, rest) => Ret (Some e, no_setup, types, p, rest)
  | (OK x, rest) => k x rest
  end.
(** A blank and a register. *)
Definition next_register (p : process) (types : list block_type) (base : Z) (line : cstring) (k : Z → list block_type → cstring → outcome parsed)
    : outcome parsed :=
  '(reg, types, rest) ← check_parse_register types base line;
  or_fail types p (reg, rest) (λ reg rest, k reg types rest).

Definition short_table_parse_register (p : process) (types : list block_type) (block_base : Z) (block_count : nat) (line : cstring) : outcome parsed :=
  or_fail types p (parse_uint line) (λ max_length line,
  or_fail types p (parse_whitespace line) (λ _ line,
  next_register p types block_base line (λ init_reg types line,
  or_fail types p (parse_whitespace line) (λ _ line,
  next_register p types block_base line (λ fill_reg types line,
  or_fail types p (parse_whitespace line) (λ _ line,
  next_register p types block_base line (λ length_reg types line,
  let registers := (init_reg, fill_reg, length_reg) in
  Ret (None, mk_setup max_length (Some registers)
    (Some (hw_open_short_table block_base block_count registers (Z.to_nat max_length))) [], types, p, line)))))))).

Definition long_table_parse_register (answers : list allocation) (p : process) (types : list block_type) (block_base : Z) (line : cstring) : outcome parsed :=
  or_fail types p (parse_char (Ascii.ascii_of_nat 50) line) (λ _ line,
  or_fail types p (parse_char (Ascii.ascii_of_nat 94) line) (λ _ line,
  or_fail types p (parse_uint line) (λ table_order line,
  or_fail types p (parse_whitespace line) (λ _ line,
  or_fail types p (parse_uint line) (λ max_nbuffers line,
  or_fail types p (parse_whitespace line) (λ _ line,
  next_register p types block_base line (λ base_reg types line,
  or_fail types p (parse_whitespace line) (λ _ line,
  next_register p types block_base line (λ length_reg types line,
  let '(error, t, length_, p) := hw_open_long_table block_base answers p in
  Ret (error, mk_setup length_ None (Some t) [], types, p, line)))))))))).

(** [allocate_data_areas]. *)
Definition allocate_data_areas (s : setup) : setup :=
  match su_table s with
  | Some t => mk_setup (su_max_length s) (su_registers s) (su_table s) (replicate (hw_count t) (malloc (Z.to_nat (su_max_length s))))
  | None => s
  end.
Definition table_parse_register (answers : list allocation) (p : process) (types : list block_type) (block_base : Z) (line : cstring) : outcome parsed :=
  let '(short, line) := read_string (bytes_of "short") line in
  let '(long, line) := if short : bool then (false, line) else read_string (bytes_of "long") line in
  '(error, s, types, p, line) ←
    (if short then or_fail types p (parse_whitespace line) (λ _ line, short_table_parse_register p types block_base (length answers) line)
     else if long then or_fail types p (parse_whitespace line) (λ _ line, long_table_parse_register answers p types block_base line)
     else Ret (TEST_OK_ false "Table type not recognised", no_setup, types, p, line));
  Ret (error, match error with None => allocate_data_areas s | Some _ => s end, types, p, line).

(** [table_get_registers]. *)
Definition table_get_registers (s : setup) : res (list Z) :=
  match su_registers s with
  | Some (init_reg, fill_reg, length_reg) => OK [init_reg; fill_reg; length_reg]
  | None => fail "Table has no short-table registers"
  end.

(** [table_destroy], without the fields. *)
Definition table_destroy (s : setup) (p : process) : outcome process :=
  match su_table s with Some t => hw_close_table t p | None => Ret p end.
End hardware.
End TableSetup.
