(* ===== verification/TableSetupSpec.v ===== *)
(** * Tables as they are made

    Whatever the line of the configuration, a table that is made is one on which the
    operations of table.c are safe, its registers belonged to no other field, and closing
    it gives back what it took.  When the kernel refuses a file or memory for a block of a
    long table, what has been opened so far stays open and the table is left as it is:
    the lemmas at the end say what closing it then does. *)

From S2P Require Import Prelude Errors Parse Hardware HardwareSpec Fields FieldsSpec PandaBlock Changes Table TableSpec TableSetup.
From stdpp Require Import base numbers list gmap option strings.
Open Scope Z_scope.

Module TableSetupSpec.
Import Parse Hardware Fields FieldsSpec Changes Table TableSpec TableSetup.

(** Filling a list from the position [i] on. *)
Lemma take_insert_step {A} (l : list A) i x : (i < length l)%nat → take (S i) (<[i := x]> l) = take i l ++ [x].
Proof. intros Hi. rewrite (take_S_r _ i x); [by rewrite take_insert_ge by lia|by apply list_lookup_insert_eq]. Qed.
Lemma fill_from {A} (values : list A) : ∀ (l : list A) i, length l = (i + length values)%nat →
  foldl (λ l x, <[x.1 := x.2]> l) l (zip (seq i (length values)) values) = take i l ++ values.
Proof.
  induction values as [|x values IH]; intros l i Hl; cbn [length seq zip zip_with foldl fst snd] in *.
  { rewrite Nat.add_0_r in Hl. by rewrite take_ge, app_nil_r by lia. }
  rewrite IH by (rewrite length_insert; lia). rewrite take_insert_step by lia. by rewrite <-(assoc_L (++)).
Qed.
Lemma fill_same {A} (x : A) n : ∀ (l : list A) i, length l = (i + n)%nat →
  foldl (λ l k, <[k := x]> l) l (seq i n) = take i l ++ replicate n x.
Proof.
  induction n as [|n IH]; intros l i Hl; cbn [seq foldl replicate].
  { rewrite Nat.add_0_r in Hl. by rewrite take_ge, app_nil_r by lia. }
  rewrite IH by (rewrite length_insert; lia). rewrite take_insert_step by lia. by rewrite <-(assoc_L (++)).
Qed.
(** Files opened and closed again. *)
Lemma files_closed l : ∀ (s : gset Z) c, NoDup l → Forall (λ id, id ∉ s) l →
  foldl close_file (mk_process (foldl (λ s id, {[id]} ∪ s) s l) c) l = mk_process s c.
Proof.
  induction l as [|id l IH]; intros s c Hnd Hs; [done|]. apply list.NoDup_cons in Hnd as [Hid Hnd]. apply list.Forall_cons in Hs as [Hid2 Hs].
  cbn [foldl]. assert (∀ f, close_file (mk_process f c) id = mk_process (f ∖ {[id]}) c) as Ecl by done. rewrite Ecl.
  assert (∀ (l : list Z) (s : gset Z), id ∉ l → id ∉ s → foldl (λ s id, {[id]} ∪ s) ({[id]} ∪ s) l ∖ {[id]} = foldl (λ s id, {[id]} ∪ s) s l) as Hout.
  { clear. intros l. induction l as [|i l IH]; intros s Hl Hs; cbn [foldl]; [set_solver|].
    replace ({[i]} ∪ ({[id]} ∪ s)) with ({[id]} ∪ ({[i]} ∪ s)) by set_solver. apply IH; set_solver. }
  rewrite Hout by done. by apply IH.
Qed.

Section setup.
Context `{Platform} (malloc : nat → list Z) (Hmalloc : ∀ n, length (malloc n) = n ∧ Forall (λ w, 0 ≤ w < 2 ^ 32) (malloc n)).

(** ** Long tables *)

(** Answers for a table that can be made: new files, blocks of [size] bytes, memory. *)
Record granted (size : Z) (p : process) (answers : list allocation) : Prop := {
  gr_size : 0 ≤ size < 2 ^ 28;
  gr_config : Forall (λ a, al_config a = size ∧ al_memory a = true) answers;
  gr_new : Forall (λ a, 0 ≤ al_open a ∧ al_open a ∉ files p) answers;
  gr_distinct : NoDup (al_open <$> answers);
}.

Definition area_words (size : Z) : nat := Z.to_nat (ulong (size * 4) / 4).
Lemma area_fits size : 0 ≤ size < 2 ^ 28 → (Z.to_nat (size / 4) ≤ area_words size)%nat ∧ COND_IO (u32 size) = true.
Proof.
  intros Hs. unfold area_words, ulong, COND_IO. rewrite (wrap_small long_bits) by (destruct long_bits_ok as [-> | ->]; lia).
  rewrite Z.div_mul by done. split; [apply Z2Nat.inj_le; [apply Z.div_pos; lia|lia|apply Z.div_le_upper_bound; lia]|].
  rewrite (wrap_small 32) by lia. unfold to_signed.
  rewrite bool_decide_false; [done|]. destruct long_bits_ok as [-> | ->]; unfold wrap;
    rewrite Z.mod_small by lia; case_match; lia.
Qed.

Definition with_files (p : process) (l : list Z) : process := mk_process (foldl (λ s id, {[id]} ∪ s) (files p) l) (dma_channel_base p).
(** The files that have been opened up to the first answer that is refused, and whether
    none is. *)
Definition accepted (a : allocation) : bool := negb (bool_decide (al_open a = -1)) && COND_IO (u32 (al_config a)) && al_memory a.
Fixpoint opened (answers : list allocation) : list Z :=
  match answers with
  | [] => []
  | a :: answers => if bool_decide (al_open a = -1) then [] else al_open a :: (if accepted a then opened answers else [])
  end.
Lemma allocate_loop_any answers : ∀ i t block_size p, ∃ error t' block_size',
  allocate_loop malloc answers i t block_size p = (error, t', block_size', with_files p (opened answers)) ∧ hw_type t' = hw_type t ∧
  match error with None => forallb accepted answers = true | Some _ => forallb accepted answers = false end.
Proof.
  induction answers as [|a answers IH]; intros i t block_size p; cbn [allocate_loop opened forallb].
  { exists None, t, block_size. by destruct p. }
  unfold hw_long_table_allocate, accepted. case_bool_decide as Ho; cbn [negb andb].
  { unfold TEST_OK_. do 3 eexists. split; [by destruct p|]. done. }
  destruct (COND_IO (u32 (al_config a))); cbn [negb andb]; [|do 3 eexists; by split; [by destruct p|]].
  destruct (al_memory a); cbn [negb andb]; [|do 3 eexists; by split; [by destruct p|]].
  edestruct IH as (error & t' & bs & -> & Ht & He). exists error, t', bs. split; [by destruct p|]. done.
Qed.
Lemma open_long_any block_base answers p : ∃ error t length_,
  hw_open_long_table malloc block_base answers p =
    (error, t, length_, with_files (mk_process (files p) (u32 (dma_channel_base p + Z.of_nat (length answers)))) (opened answers)) ∧
  hw_type t = LONG_TABLE ∧ match error with None => forallb accepted answers = true | Some _ => forallb accepted answers = false end.
Proof.
  unfold hw_open_long_table. edestruct allocate_loop_any as (error & t' & bs & -> & Ht & He). by do 3 eexists.
Qed.

Lemma allocate_loop_ok size answers i t block_size p :
  0 ≤ size < 2 ^ 28 → Forall (λ a, al_config a = size ∧ al_memory a = true) answers → Forall (λ a, 0 ≤ al_open a) answers →
  allocate_loop malloc answers i t block_size p =
    (None, mk_hw_table (hw_type t) (hw_block_base t) (hw_registers t)
       (foldl (λ d k, <[k := Some (malloc (area_words size))]> d) (hw_data t) (seq i (length answers)))
       (foldl (λ ids x, <[x.1 := x.2]> ids) (block_ids t) (zip (seq i (length answers)) (al_open <$> answers))) (hw_channels t),
     (if answers then block_size else size), with_files p (al_open <$> answers)).
Proof.
  intros Hs Hc. revert i t block_size p. induction Hc as [|a answers [Ea Em] _ IH]; intros i t block_size p Ho.
  { by destruct t, p. }
  apply list.Forall_cons in Ho as [Hoa Ho]. cbn [allocate_loop]. unfold hw_long_table_allocate. rewrite bool_decide_false by lia.
  rewrite Ea, Em. destruct (area_fits size Hs) as [_ ->]. cbn [negb]. rewrite IH by done.
  rewrite (wrap_small 32) by lia. cbn [hw_type hw_block_base hw_registers hw_data block_ids hw_channels default length seq foldl zip zip_with fmap list_fmap fst snd].
  unfold with_files. cbn [files dma_channel_base foldl]. fold (area_words size). by destruct answers.
Qed.

(** Opening and closing a long table. *)
Lemma open_long_ok size block_base answers p : granted size p answers → answers ≠ [] →
  let ids := al_open <$> answers in let n := length answers in
  hw_open_long_table malloc block_base answers p =
    (None, mk_hw_table LONG_TABLE block_base (0, 0, 0) (replicate n (Some (malloc (area_words size)))) ids (dma_channel_base p), size / 4,
     mk_process (foldl (λ s id, {[id]} ∪ s) (files p) ids) (u32 (dma_channel_base p + Z.of_nat n))).
Proof.
  intros [Hs Hc Hn _] Hne ids n. unfold hw_open_long_table. cbn [create_hw_table hw_type hw_block_base hw_registers hw_data].
  rewrite (allocate_loop_ok size) by (done || (eapply Forall_impl; [exact Hn|by intros ? [? _]])).
  cbn [hw_type hw_block_base hw_registers hw_data block_ids hw_channels]. rewrite fill_same by (by rewrite length_replicate).
  pose proof (fill_from ids (replicate (length answers) 0) 0) as Hf. subst ids. rewrite length_fmap in Hf. rewrite Hf by (by rewrite length_replicate).
  cbn [take app]. unfold with_files. cbn [files dma_channel_base]. by destruct answers.
Qed.
Lemma close_long_ok size p answers t c : granted size p answers →
  hw_type t = LONG_TABLE → block_ids t = al_open <$> answers → Forall is_Some (hw_data t) →
  hw_close_table t (mk_process (foldl (λ s id, {[id]} ∪ s) (files p) (al_open <$> answers)) c) = Ret (mk_process (files p) c).
Proof.
  intros [_ _ Hn Hd] Ht Hi Hs. unfold hw_close_table, free_data, in_range.
  assert (forallb (λ d : option (list Z), bool_decide (d ≠ None)) (hw_data t) = true) as ->.
  { apply forallb_forall. intros d Hd'. apply bool_decide_eq_true. apply list_elem_of_In in Hd'.
    eapply (proj1 (Forall_forall _ _)) in Hs as [x ->]; [done|exact Hd']. }
  cbn [mbind outcome_bind]. rewrite Ht, Hi. f_equal. apply files_closed; [done|]. apply Forall_fmap. eapply Forall_impl; [exact Hn|by intros ? [_ ?]].
Qed.

(** ** The line of a table *)

Definition hw_state (t : hw_table) : Table.hw_table :=
  let '(a, b, c) := hw_registers t in Table.mk_hw (hw_type t) (hw_block_base t) a b c (default [] <$> hw_data t) [].
(** The state of a table whose rows have [row_words] words, when nothing has been written. *)
Definition initial_state (s : setup) (t : hw_table) (row_words : Z) (mode_attr : attr) (g : Z) : table_state :=
  mk_table_state row_words (Z.to_nat (su_max_length s)) (hw_state t) mode_attr false (replicate (hw_count t) initial_block) g.

(** A table for [count] blocks that has been made: where it begins its work nothing can
    go wrong, there is room for what is written to it, and closing it gives back its
    files. *)
Record made (p p' : process) (count : nat) (s : setup) : Prop := {
  md_table : ∃ t, su_table s = Some t ∧ hw_count t = count ∧
    ∀ row_words a g, 0 < row_words → table_ok (initial_state s t row_words a g);
  md_areas : su_write_data s = replicate count (malloc (Z.to_nat (su_max_length s)));
  md_close : ∃ c, table_destroy s p' = Ret (mk_process (files p) c);
}.
(** The registers given are all different, were free, and they are exactly those that are
    newly in use. *)
Record given (types types' : list block_type) (base : Z) (regs : list Z) : Prop := {
  gv_distinct : NoDup regs;
  gv_free : ∀ r, r ∈ regs → 0 ≤ r < 64 ∧ in_use types base r = false;
  gv_used : ∀ b r, 0 ≤ b → 0 ≤ r < 64 → in_use types' b r = in_use types b r || bool_decide (b = base ∧ r ∈ regs);
}.
Lemma given_none types base : given types types base [].
Proof. split; [constructor|set_solver|]. intros b r _ _. rewrite bool_decide_false by set_solver. by rewrite orb_false_r. Qed.
Lemma given_more types types1 types2 base regs reg : 0 ≤ base → given types types1 base regs → 0 ≤ reg < 64 →
  in_use types1 base reg = false → taken types1 base reg types2 → given types types2 base (regs ++ [reg]).
Proof.
  intros Hb [Hd Hf Hu] Hr Hfree [_ Ht]. rewrite (Hu base reg Hb Hr) in Hfree. apply orb_false_iff in Hfree as [Hfree Hnew%bool_decide_eq_false].
  split.
  - apply NoDup_app. split_and!; [done|set_solver|]. apply NoDup_singleton.
  - intros r [Hin| ->%list_elem_of_singleton]%elem_of_app; [by apply Hf|done].
  - intros b r Hb0 Hr0. rewrite (Ht b r Hb0 Hr0), (Hu b r Hb0 Hr0), <-orb_assoc. f_equal.
    destruct (decide (b = base)) as [-> |Hn]; [|by rewrite !bool_decide_false by naive_solver].
    destruct (decide (r = reg)) as [-> |Hn].
    + rewrite (bool_decide_true (_ ∧ reg = reg)), orb_true_r, bool_decide_true by set_solver. done.
    + rewrite (bool_decide_false (_ ∧ r = reg)), orb_false_r by naive_solver. apply bool_decide_ext. set_solver.
Qed.

Lemma initial_store_ok s t row_words a g : 0 < row_words → Forall (λ d, ∃ n, d = Some (malloc n) ∧ (Z.to_nat (su_max_length s) ≤ n)%nat) (hw_data t) →
  table_ok (initial_state s t row_words a g).
Proof.
  intros Hr Hd. unfold initial_state, hw_state, hw_count. destruct (hw_registers t) as [[r1 r2] r3]. split; cbn.
  - done.
  - by rewrite length_fmap, length_replicate.
  - apply Forall_fmap. eapply Forall_impl; [exact Hd|]. intros d (n & -> & Hn). cbn. destruct (Hmalloc n) as [Hl Hw]. split; [lia|done].
  - apply Forall_replicate. split; cbn; try done; [lia|lia|by destruct 1].
Qed.

(** A parser either refuses the line, and then nothing has been taken but registers, or its
    result has the property [P]. *)
Definition parses (p : process) (P : error__t → setup → list block_type → process → Prop) (o : outcome parsed) : Prop :=
  ∃ error s types' p' rest, o = Ret (error, s, types', p', rest) ∧ block_types_ok types' ∧
    ((error ≠ None ∧ su_table s = None ∧ p' = p) ∨ P error s types' p').

Lemma or_fail_parses {A} p P types (r : res A * cstring) k :
  block_types_ok types → (∀ x rest, r = (OK x, rest) → parses p P (k x rest)) → parses p P (or_fail types p r k).
Proof. intros Ht Hk. destruct r as [[x|e] rest]; [by apply Hk|]. exists (Some e), no_setup, types, p, rest. do 2 (split; [done|]). by left. Qed.
Lemma next_register_parses p P start types base regs line k : block_types_ok types → 0 ≤ base < 32 → given start types base regs →
  (∀ reg types' rest, block_types_ok types' → given start types' base (regs ++ [reg]) → parses p P (k reg types' rest)) →
  parses p P (next_register p types base line k).
Proof.
  intros Ht Hb Hg Hk. unfold next_register. destruct (check_register_spec types base line Ht Hb) as (r & types' & rest & -> & Hr).
  cbn [mbind outcome_bind]. destruct r as [reg|e]; [|subst; exists (Some e), no_setup, types, p, rest; do 2 (split; [done|]); by left].
  destruct Hr as (? & ? & Htaken). apply Hk; [apply Htaken|]. eapply given_more; [lia|done..].
Qed.

Lemma short_parses p types base count line : block_types_ok types → 0 ≤ base < 32 →
  parses p (λ error s types' p', error = None ∧ p' = p ∧ ∃ a b c, su_registers s = Some (a, b, c) ∧ given types types' base [a; b; c] ∧
    su_table s = Some (hw_open_short_table malloc base count (a, b, c) (Z.to_nat (su_max_length s))))
    (short_table_parse_register malloc p types base count line).
Proof.
  intros Ht Hb. unfold short_table_parse_register. do 2 (apply or_fail_parses; [done|intros ?? _]).
  eapply next_register_parses; [done|done|apply given_none|]. intros a types1 rest_a Ht1 Hg1.
  apply or_fail_parses; [done|intros ?? _]. eapply next_register_parses; [done..|]. intros b types2 rest_b Ht2 Hg2.
  apply or_fail_parses; [done|intros ?? _]. eapply next_register_parses; [done..|]. intros c types3 rest_c Ht3 Hg3.
  eexists _, _, _, _, _. split; [reflexivity|]. split; [done|]. right. do 2 (split; [done|]). by exists a, b, c.
Qed.

Lemma long_parses p types base answers line : block_types_ok types → 0 ≤ base < 32 →
  parses p (λ error s types' p', su_registers s = None ∧ su_write_data s = [] ∧ (∃ a b, given types types' base [a; b]) ∧
    ∃ t, su_table s = Some t ∧ hw_open_long_table malloc base answers p = (error, t, su_max_length s, p'))
    (long_table_parse_register malloc answers p types base line).
Proof.
  intros Ht Hb. unfold long_table_parse_register. do 6 (apply or_fail_parses; [done|intros ?? _]).
  eapply next_register_parses; [done|done|apply given_none|]. intros a types1 rest_a Ht1 Hg1. apply or_fail_parses; [done|intros ?? _].
  eapply next_register_parses; [done..|]. intros b types2 rest_b Ht2 Hg2.
  destruct (hw_open_long_table malloc base answers p) as [[[error t] length_] p'] eqn:E.
  eexists _, _, _, _, _. split; [reflexivity|]. split; [done|]. right. do 2 (split; [done|]). split; [by exists a, b|by exists t].
Qed.

Lemma data_freed {A} n (x : list A) : forallb (λ d : option (list A), bool_decide (d ≠ None)) (replicate n (Some x)) = true.
Proof. apply forallb_forall. intros d Hd. apply list_elem_of_In, elem_of_replicate in Hd as [-> _]. by apply bool_decide_eq_true. Qed.
Lemma short_made p s base count registers :
  su_table s = Some (hw_open_short_table malloc base count registers (Z.to_nat (su_max_length s))) →
  made p p count (allocate_data_areas malloc s).
Proof.
  intros Et. unfold allocate_data_areas. rewrite Et. unfold hw_count. cbn [hw_open_short_table hw_data create_hw_table].
  rewrite fmap_replicate, length_replicate. split.
  - eexists. split; [done|]. unfold hw_count. cbn [hw_open_short_table hw_data create_hw_table]. rewrite fmap_replicate, length_replicate. split; [done|].
    intros row_words a g Hr. apply initial_store_ok; [done|]. cbn [hw_open_short_table hw_data create_hw_table su_max_length]. rewrite fmap_replicate.
    apply Forall_replicate. by eexists.
  - done.
  - unfold table_destroy. cbn [su_table]. unfold hw_close_table, free_data, in_range. cbn [hw_open_short_table hw_data hw_type create_hw_table].
    rewrite fmap_replicate, data_freed. cbn [mbind outcome_bind]. destruct p. by eexists.
Qed.
Lemma long_made size p p' s t base answers : granted size p answers → answers ≠ [] → su_max_length s = size / 4 → su_table s = Some t →
  hw_open_long_table malloc base answers p = (None, t, size / 4, p') → made p p' (length answers) (allocate_data_areas malloc s).
Proof.
  intros Hg Hne Em Et E. pose proof (open_long_ok size base answers p Hg Hne) as E2. cbv zeta in E2. rewrite E2 in E. injection E as <- <-.
  unfold allocate_data_areas. rewrite Et. unfold hw_count. cbn [hw_data]. rewrite length_replicate. split.
  - eexists. split; [done|]. unfold hw_count. cbn [hw_data]. rewrite length_replicate. split; [done|].
    intros row_words a g Hr. apply initial_store_ok; [done|]. cbn [hw_data su_max_length]. apply Forall_replicate. eexists. split; [done|].
    rewrite Em. apply area_fits, Hg.
  - done.
  - unfold table_destroy. cbn [su_table]. eexists. eapply (close_long_ok size); [exact Hg|done|done|]. cbn [hw_data]. apply Forall_replicate. by eexists.
Qed.
Lemma areas_registers s : table_get_registers (allocate_data_areas malloc s) = table_get_registers s ∧
  su_max_length (allocate_data_areas malloc s) = su_max_length s.
Proof. unfold allocate_data_areas, table_get_registers. by destruct (su_table s). Qed.

(** C37: Making a table from its line of the configuration, whatever the kernel answers.
    A line that is refused by its text has taken nothing but registers.  A table that is
    made has registers that were free, are different and are all that has been taken: three
    for a short table, two for a long one.  A short table always, and a long one when
    its files are new and have blocks of one size, is a table on which all operations are
    safe, with room for every block, and destroying it gives back the files opened.
    A long table whose files or memory the kernel refuses is an error that keeps what has
    been opened up to there: the files are as after a success, for the blocks reached. *)
Theorem table_made types p base answers line :
  block_types_ok types → 0 ≤ base < BLOCK_TYPE_COUNT → answers ≠ [] →
  ∃ error s types' p' rest, table_parse_register malloc answers p types base line = Ret (error, s, types', p', rest) ∧ block_types_ok types' ∧
  match error with
  | Some _ =>
      (su_table s = None ∧ p' = p) ∨
      (forallb accepted answers = false ∧ su_write_data s = [] ∧ (∃ a b, given types types' base [a; b]) ∧
       (∃ t, su_table s = Some t ∧ hw_type t = LONG_TABLE) ∧ files p' = foldl (λ s id, {[id]} ∪ s) (files p) (opened answers))
  | None =>
      match table_get_registers s with
      | OK regs => given types types' base regs ∧ length regs = 3%nat ∧ files p' = files p ∧ made p p' (length answers) s
      | Err _ => (∃ a b, given types types' base [a; b]) ∧ forallb accepted answers = true ∧
          files p' = foldl (λ s id, {[id]} ∪ s) (files p) (opened answers) ∧
          ∀ size, granted size p answers → su_max_length s = size / 4 ∧ made p p' (length answers) s
      end
  end.
Proof.
  intros Ht Hb Hne. change BLOCK_TYPE_COUNT with 32 in Hb. unfold table_parse_register. destruct (read_string (bytes_of "short") line) as [[|] line1].
  - destruct (or_fail_parses p _ types (parse_whitespace line1)
      (λ _ line, short_table_parse_register malloc p types base (length answers) line) Ht (λ _ rest _, short_parses p types base (length answers) rest Ht Hb))
      as (error & s & types' & p' & rest & -> & Ht' & [(He & Hs & ->)|(-> & -> & a & b & c & Er & Hgiven & Et)]);
      cbn [mbind outcome_bind]; do 5 eexists; (split; [reflexivity|]); (split; [done|]); [destruct error; [by left|done]|].
    rewrite (proj1 (areas_registers s)). unfold table_get_registers. rewrite Er. do 3 (split; [done|]). by eapply short_made.
  - destruct (read_string (bytes_of "long") line1) as [[|] line2]; [|do 5 eexists; split; [reflexivity|]; split; [done|]; by left].
    destruct (or_fail_parses p _ types (parse_whitespace line2)
      (λ _ line, long_table_parse_register malloc answers p types base line) Ht (λ _ rest _, long_parses p types base answers rest Ht Hb))
      as (error & s & types' & p' & rest & -> & Ht' & [(He & Hs & ->)|(Er & Ew & Hgiven & t & Et & E)]);
      cbn [mbind outcome_bind]; do 5 eexists; (split; [reflexivity|]); (split; [done|]); [destruct error; [by left|done]|].
    destruct (open_long_any base answers p) as (error' & t' & len' & E' & Htype & He). rewrite E in E'. injection E' as <- <- <- ->.
    destruct error; [right; by eauto 8|].
    destruct (areas_registers s) as [-> ->]. unfold table_get_registers. rewrite Er. do 3 (split; [done|]). intros size Hg.
    assert (su_max_length s = size / 4) as El.
    { pose proof (open_long_ok size base answers p Hg Hne) as E2. cbv zeta in E2. rewrite E2 in E. by injection E. }
    split; [done|]. eapply (long_made size); [done..|]. by rewrite <-El.
Qed.
End setup.

(** ** Examples *)

Definition zeros (n : nat) : list Z := replicate n 0.
Lemma zeros_ok n : length (zeros n) = n ∧ Forall (λ w, 0 ≤ w < 2 ^ 32) (zeros n).
Proof. split; [apply length_replicate|by apply Forall_replicate]. Qed.
Definition example_process : process := mk_process {[0; 1; 2]} 3.
Definition example_answers : list allocation := [mk_allocation 7 4096 true; mk_allocation 8 4096 true].

Lemma table_made_witness :
  ∃ s types' p' rest,
  @table_parse_register ARM32 zeros example_answers example_process initial_block_types 4 (bytes_of "long 2^0 2 5 6") = Ret (None, s, types', p', rest) ∧
  su_max_length s = 1024 ∧ files p' = {[0; 1; 2; 7; 8]} ∧ ∃ c, table_destroy s p' = Ret (mk_process {[0; 1; 2]} c).
Proof.
  destruct (@table_made ARM32 zeros zeros_ok initial_block_types example_process 4 example_answers (bytes_of "long 2^0 2 5 6"))
    as (error & s & types' & p' & rest & E & _ & Hs).
  - apply initial_block_types_ok.
  - by vm_compute.
  - done.
  - assert (∃ s0, @table_parse_register ARM32 zeros example_answers example_process initial_block_types 4 (bytes_of "long 2^0 2 5 6") = s0) as [s0 E0] by eauto.
    pose proof E as E1. vm_compute in E1. injection E1 as <- <- <- <- <-. eexists _, _, _, _. split; [exact E|].
    destruct Hs as (_ & _ & _ & Hs). destruct (Hs 4096) as [_ [_ _ Hc]].
    + split; [lia|by repeat constructor|repeat constructor; vm_compute; intros; congruence|].
      apply (bool_decide_unpack _). by vm_compute.
    + split; [done|]. split; [by apply (bool_decide_unpack _)|exact Hc].
Defined.

(** When the second file cannot be opened, the table that is left has a pointer that was
    never set, and destroying it frees that. *)
Lemma failed_table_frees_garbage :
  let '(error, t, _, p) := @hw_open_long_table ARM32 zeros 4 [mk_allocation 7 4096 true; mk_allocation (-1) 0 true] example_process in
  error ≠ None ∧ hw_close_table t p = Undef.
Proof. split; [by vm_compute|reflexivity]. Qed.
(** With memory for the pointers as it may be, the files not yet opened are closed as
    number 0. *)
Lemma failed_table_closes_input :
  let '(error, t, _, p) := @hw_open_long_table ARM32 zeros 4 [mk_allocation (-1) 0 true; mk_allocation 7 4096 true] example_process in
  error ≠ None ∧ block_ids t = [-1; 0].
Proof. split; [by vm_compute|reflexivity]. Qed.
(** On a machine of 64 bits the driver's refusal is taken for a size. *)
Lemma refusal_not_noticed :
  let '(error, _, length_, _) := @hw_open_long_table AARCH64 (λ _, []) 4 [mk_allocation 7 (-1) true] example_process in
  error = None ∧ length_ = 2 ^ 30 - 1.
Proof. split; reflexivity. Qed.
End TableSetupSpec.
