(* ===== verification/Quantise.v ===== *)
(** * Gains as fixed-point words: include/lqrbridge/fixed_point

    The encoder of the gains: saturation and rounding are done on doubles, whose
    operations round as IEEE 754 says, and the conversion to an integer of a value
    outside its range is undefined.  The lanes of a vector are the elements of a list. *)

From S2P Require Import Prelude StdDev Floats.
From Stdlib Require Import SpecFloat.
From stdpp Require Import base numbers list option.
Open Scope Z_scope.

Module Quantise.
Import Double Floats.

(** ** format.hpp *)

Record QFormat := mk_QFormat { width : Z; frac : Z }.
Definition int_bits (q : QFormat) : Z := width q - frac q.
Definition max_code (q : QFormat) : Z := Z.shiftl 1 (width q - 1) - 1.
Definition min_code (q : QFormat) : Z := - Z.shiftl 1 (width q - 1).
Definition gain_q : QFormat := mk_QFormat 32 25.
Inductive Rounding := HalfAway | HalfEven.

(** ** The kernel *)

(** [std::bit_cast<Word>]. *)
Definition to_word (code : Z) : Z := u32 code.

Definition zero : double := S754_zero false.
Definition half : double := ldexp (of_Z 1) (-1).
(** [std::min] and [std::max]: the first unless the other is beyond it. *)
Definition min (a b : double) : double := if ltb b a then b else a.
Definition max (a b : double) : double := if ltb a b then b else a.
(** A NaN is not equal to itself. *)
Definition nan_to_zero (scaled clamp : double) : double := if SFeqb scaled scaled then clamp else zero.

(** The sign bit; NaN is not asked for it. *)
Definition sign_bit (d : double) : bool :=
  match d with S754_zero s | S754_infinity s | S754_finite s _ _ => s | S754_nan => false end.
Definition copysign (a b : double) : double := if sign_bit b then SFopp (SFabs a) else SFabs a.

(** An integer as a double that keeps the sign of what was rounded to it. *)
Definition integral (neg : bool) (n : Z) : double :=
  match n with Zpos p => binary_round 53 1024 neg p 0 | _ => S754_zero neg end.
(** [std::trunc], and [std::nearbyint] in the mode of rounding that programs start in. *)
Definition trunc (d : double) : double :=
  match d, fraction d with
  | S754_finite _ _ _, Some (neg, n, m) => integral neg (n / m)
  | _, _ => d
  end.
Definition nearbyint (d : double) : double :=
  match d, fraction d with
  | S754_finite _ _ _, Some (neg, n, m) => integral neg (round_even n m)
  | _, _ => d
  end.

(** [quantise_scaled]. *)
Definition quantise_scaled (mode : Rounding) (scaled lo hi : double) : double :=
  let clamped := min (max scaled lo) hi in
  let bounded := nan_to_zero scaled clamped in
  match mode with
  | HalfAway => trunc (add bounded (copysign half bounded))
  | HalfEven => nearbyint bounded
  end.

(** [static_cast<std::int32_t>]. *)
Definition to_int32 (d : double) : outcome Z :=
  match truncate d with
  | Some x => _ ← in_range (bool_decide (- 2 ^ 31 ≤ x < 2 ^ 31)); Ret x
  | None => Undef
  end.

Definition scale_of (q : QFormat) : double := ldexp (of_Z 1) (frac q).
Definition quantise (mode : Rounding) (x : double) (q : QFormat) : outcome Z :=
  to_int32 (quantise_scaled mode (mul x (scale_of q)) (of_Z (min_code q)) (of_Z (max_code q))).

(** [dequantise]. *)
Definition dequantise (code : Z) (q : QFormat) : double := ldexp (of_Z code) (- frac q).

(** ** A frame of gains *)

Section vectors.
(** The number of lanes of a vector, [vd::size()]. *)
Context (WIDTH : nat).

(** The turn for one vector: its elements are scaled, rounded and converted together. *)
Definition quantise_lanes (mode : Rounding) (scale lo hi : double) (x : list double) : outcome (list Z) :=
  let r := (λ x, quantise_scaled mode (mul x scale) lo hi) <$> x in
  ri ← mapM to_int32 r;
  Ret (to_word <$> ri).
(** The loop over the elements that remain. *)
Fixpoint scalar_loop (mode : Rounding) (scale lo hi : double) (gains : list double) : outcome (list Z) :=
  match gains with
  | [] => Ret []
  | x :: gains =>
      code ← to_int32 (quantise_scaled mode (mul x scale) lo hi);
      out ← scalar_loop mode scale lo hi gains;
      Ret (to_word code :: out)
  end.
(** The loop over whole vectors, with fuel for the gains. *)
Fixpoint vector_loop (fuel : nat) (mode : Rounding) (scale lo hi : double) (gains : list double) : outcome (list Z) :=
  match fuel with
  | S fuel =>
      if bool_decide (WIDTH ≤ length gains)%nat then
        words ← quantise_lanes mode scale lo hi (take WIDTH gains);
        out ← vector_loop fuel mode scale lo hi (drop WIDTH gains);
        Ret (words ++ out)
      else scalar_loop mode scale lo hi gains
  | O => scalar_loop mode scale lo hi gains
  end.
(** [quantise_into], for an output of the size of the gains. *)
Definition quantise_into (gains : list double) (q : QFormat) (mode : Rounding) : outcome (list Z) :=
  vector_loop (length gains) mode (scale_of q) (of_Z (min_code q)) (of_Z (max_code q)) gains.
End vectors.

(** ** The loops *)

Section loops.
Context (WIDTH : nat) (mode : Rounding) (scale lo hi : double).
(** The word of a gain. *)
Definition word_of (x : double) : outcome Z :=
  code ← to_int32 (quantise_scaled mode (mul x scale) lo hi); Ret (to_word code).

Lemma mapM_cons_outcome {A B} (f : A → outcome B) a l : mapM f (a :: l) = (y ← f a; k ← mapM f l; Ret (y :: k)).
Proof. done. Qed.
Lemma scalar_loop_map gains : scalar_loop mode scale lo hi gains = mapM word_of gains.
Proof.
  induction gains as [|x gains IH]; [done|]. rewrite mapM_cons_outcome, <-IH. cbn [scalar_loop]. unfold word_of.
  by destruct (to_int32 _).
Qed.
Lemma quantise_lanes_map x : quantise_lanes mode scale lo hi x = mapM word_of x.
Proof.
  induction x as [|y x IH]; [done|]. rewrite mapM_cons_outcome, <-IH. unfold quantise_lanes. rewrite fmap_cons, mapM_cons_outcome.
  unfold word_of. destruct (to_int32 _); [|done..]. cbn [mbind outcome_bind].
  by destruct (mapM to_int32 _).
Qed.
Lemma mapM_app_outcome {A B} (f : A → outcome B) l1 l2 :
  mapM f (l1 ++ l2) = (x ← mapM f l1; y ← mapM f l2; Ret (x ++ y)).
Proof.
  induction l1 as [|a l1 IH]; cbn; [by destruct (mapM f l2)|]. destruct (f a); [|done..]. cbn. rewrite IH.
  destruct (mapM f l1); [|done..]. cbn. by destruct (mapM f l2).
Qed.
Lemma mapM_length_outcome {A B} (f : A → outcome B) l : ∀ out, mapM f l = Ret out → length out = length l.
Proof.
  induction l as [|a l IH]; cbn; intros out E; [by injection E as <-|].
  destruct (f a); [|done..]. cbn in E. destruct (mapM f l); [|done..]. injection E as <-. cbn. by rewrite (IH _ eq_refl).
Qed.
(** Whatever the width of a vector, each gain gives its word. *)
Lemma vector_loop_map fuel : ∀ gains, vector_loop WIDTH fuel mode scale lo hi gains = mapM word_of gains.
Proof.
  induction fuel as [|fuel IH]; intros gains; cbn [vector_loop]; [apply scalar_loop_map|].
  case_bool_decide; [|apply scalar_loop_map]. rewrite quantise_lanes_map, IH.
  by rewrite <-mapM_app_outcome, take_drop.
Qed.
End loops.
Lemma quantise_into_length WIDTH gains q mode words : quantise_into WIDTH gains q mode = Ret words → length words = length gains.
Proof. unfold quantise_into. rewrite vector_loop_map. apply mapM_length_outcome. Qed.

(** The values of the tests. *)
Lemma quantise_one : quantise HalfAway (of_Z 1) gain_q = Ret (2 ^ 25).
Proof. by vm_compute. Qed.
Lemma quantise_minus_one : quantise HalfEven (of_Z (-1)) gain_q = Ret (- 2 ^ 25).
Proof. by vm_compute. Qed.
Lemma quantise_saturates : quantise HalfAway (of_Z 1000) gain_q = Ret (2 ^ 31 - 1).
Proof. by vm_compute. Qed.
Lemma quantise_nan : quantise HalfAway NAN gain_q = Ret 0.
Proof. by vm_compute. Qed.

End Quantise.

(** ** What the encoder guarantees

    The double nearest to a product or a sum is bracketed by what is representable; that
    is all the rounding of the encoder needs.  A value with a mantissa and an exponent
    is an integer in units of 2^-1200, below every exponent that is met. *)

Module QuantiseSpec.
Import Double Floats Quantise.

(** ** Digits and shifts *)

Definition units (m e : Z) : Z := m * 2 ^ (e + 1200).
Lemma units_shift m e n : 0 ≤ n → - 1200 ≤ e → units m (e + n) = units (m * 2 ^ n) e.
Proof. intros Hn He. unfold units. replace (e + n + 1200) with (n + (e + 1200)) by lia. rewrite Z.pow_add_r by lia. ring. Qed.
Lemma units_at m e e' : e' ≤ e → - 1200 ≤ e' → units m e = units (m * 2 ^ (e - e')) e'.
Proof. intros He He'. rewrite <-units_shift by lia. f_equal. lia. Qed.
Lemma units_le m1 m2 e : - 1200 ≤ e → units m1 e ≤ units m2 e ↔ m1 ≤ m2.
Proof. intros He. unfold units. pose proof (Z.pow_pos_nonneg 2 (e + 1200)). nia. Qed.

Definition digits (m : positive) : Z := Zpos (digits2_pos m).
Lemma digits_spec m : 2 ^ (digits m - 1) ≤ Zpos m < 2 ^ digits m.
Proof.
  unfold digits. induction m as [m IH|m IH|]; cbn [digits2_pos]; [..|done].
  all: rewrite Pos2Z.inj_succ; unfold Z.succ; rewrite Z.add_simpl_r, Z.pow_add_r by lia.
  all: replace (Zpos (digits2_pos m)) with ((Zpos (digits2_pos m) - 1) + 1) by lia; rewrite Z.pow_add_r by lia.
  all: replace (Zpos (digits2_pos m) - 1 + 1) with (Zpos (digits2_pos m)) by lia; rewrite Z.pow_1_r.
  all: replace (2 ^ Zpos (digits2_pos m)) with (2 ^ (Zpos (digits2_pos m) - 1) * 2) in IH
    by (rewrite <-(Z.pow_1_r 2) at 2; rewrite <-Z.pow_add_r by lia; f_equal; lia); lia.
Qed.
Lemma digits_unique m d : 0 < d → 2 ^ (d - 1) ≤ Zpos m < 2 ^ d → digits m = d.
Proof.
  intros Hd Hm. pose proof (digits_spec m) as Hs. assert (0 < digits m) by (unfold digits; lia).
  destruct (Z.lt_trichotomy (digits m) d) as [Hlt|[?|Hlt]]; [|done|].
  - pose proof (Z.pow_le_mono_r 2 (digits m) (d - 1)). lia.
  - pose proof (Z.pow_le_mono_r 2 d (digits m - 1)). lia.
Qed.
Lemma digits_mul m k : 0 ≤ k → digits (Z.to_pos (Zpos m * 2 ^ k)) = digits m + k.
Proof.
  intros Hk. pose proof (digits_spec m). assert (0 < digits m) by (unfold digits; lia). pose proof (Z.pow_pos_nonneg 2 k).
  apply digits_unique; [lia|]. rewrite Z2Pos.id by nia.
  replace (digits m + k - 1) with (digits m - 1 + k) by lia. rewrite !Z.pow_add_r by lia. nia.
Qed.

(** Shifting right keeps the quotient, and notes whether something was lost. *)
Definition inexact (r : shr_record) : bool := shr_r r || shr_s r.
Lemma shr_1_spec r : 0 ≤ shr_m r →
  shr_m (shr_1 r) = shr_m r / 2 ∧ inexact (shr_1 r) = Z.odd (shr_m r) || inexact r.
Proof. rewrite <-Z.div2_div. destruct r as [[|[p|p|]|p] r s]; cbn; intros Hm; split; done || by destruct r, s. Qed.
Lemma shr_iter_spec n : ∀ m, 0 ≤ m →
  let r := Nat.iter n shr_1 (Build_shr_record m false false) in
  shr_m r = m / 2 ^ Z.of_nat n ∧ inexact r = negb (bool_decide (m mod 2 ^ Z.of_nat n = 0)).
Proof.
  induction n as [|n IH]; intros m Hm r; unfold r; [by rewrite Z.div_1_r, Z.mod_1_r|].
  destruct (IH m Hm) as [Em Ei]. rewrite Nat.iter_succ. set (r0 := Nat.iter n shr_1 _) in *.
  destruct (shr_1_spec r0) as [-> ->]; [rewrite Em; apply Z.div_pos; [done|apply Z.pow_pos_nonneg; lia]|]. rewrite Em, Ei.
  rewrite Nat2Z.inj_succ, Z.pow_succ_r by lia. rewrite (Z.mul_comm 2). split.
  - rewrite Z.div_div; [done|apply Z.pow_nonzero|]; lia.
  - rewrite Z.rem_mul_r by (try apply Z.pow_nonzero; lia). pose proof (Z.pow_pos_nonneg 2 (Z.of_nat n)).
    pose proof (Z.mod_pos_bound m (2 ^ Z.of_nat n)). rewrite (Zmod_odd (m / _)). destruct (Z.odd (m / _)); cbn [orb].
    + rewrite bool_decide_false; [done|]. lia.
    + rewrite Z.mul_0_r, Z.add_0_r. done.
Qed.
Lemma iter_pos_nat {A} (f : A → A) p : ∀ x, SpecFloat.iter_pos f p x = Nat.iter (Pos.to_nat p) f x.
Proof.
  induction p as [p IH|p IH|]; intros x; cbn [SpecFloat.iter_pos]; [..|done]; rewrite !IH, <-?Nat.iter_add.
  - rewrite Pos2Nat.inj_xI. replace (S (2 * Pos.to_nat p)) with (Pos.to_nat p + Pos.to_nat p + 1)%nat by lia. by rewrite !Nat.iter_add.
  - rewrite Pos2Nat.inj_xO. replace (2 * Pos.to_nat p)%nat with (Pos.to_nat p + Pos.to_nat p)%nat by lia. by rewrite Nat.iter_add.
Qed.
Lemma shr_spec m e n : 0 ≤ m → 0 ≤ n →
  (shr (shr_record_of_loc m loc_Exact) e n).2 = e + n ∧
  shr_m (shr (shr_record_of_loc m loc_Exact) e n).1 = m / 2 ^ n ∧
  inexact (shr (shr_record_of_loc m loc_Exact) e n).1 = negb (bool_decide (m mod 2 ^ n = 0)).
Proof.
  intros Hm Hn. destruct n as [|p|p]; [|cbn [shr fst snd shr_record_of_loc]|lia].
  - cbn. by rewrite Z.add_0_r, Z.div_1_r, Z.mod_1_r.
  - rewrite iter_pos_nat. destruct (shr_iter_spec (Pos.to_nat p) m Hm) as [-> ->]. by rewrite positive_nat_Z.
Qed.

(** ** Rounding *)

Abbreviation fexp := (SpecFloat.fexp 53 1024).
Abbreviation canonical m e := (fexp (digits m + e) = e).
Lemma fexp_eq x : fexp x = Z.max (x - 53) (-1074).
Proof. done. Qed.
(** The bits that a mantissa has too many. *)
Definition excess (m e : Z) : Z := Z.max 0 (fexp (Zdigits2 m + e) - e).

Lemma shr_fexp_spec m e : 0 < m →
  (shr_fexp 53 1024 m e loc_Exact).2 = e + excess m e ∧
  shr_m (shr_fexp 53 1024 m e loc_Exact).1 = m / 2 ^ excess m e ∧
  inexact (shr_fexp 53 1024 m e loc_Exact).1 = negb (bool_decide (m mod 2 ^ excess m e = 0)).
Proof.
  intros Hm. unfold shr_fexp, excess. set (n := fexp _ - e).
  destruct (Z.le_gt_cases n 0) as [Hn|Hn]; [|rewrite Z.max_r by lia; apply shr_spec; lia].
  rewrite Z.max_l by lia. destruct (shr_spec m e 0) as (H1 & H2 & H3); [lia..|].
  destruct n as [|p|p]; [by rewrite <-H1, <-H2, <-H3|lia|by rewrite <-H1, <-H2, <-H3].
Qed.
Lemma nearest_even_bracket r : 0 ≤ shr_m r →
  let q := round_nearest_even (shr_m r) (loc_of_shr_record r) in
  shr_m r ≤ q ≤ shr_m r + 1 ∧ (inexact r = false → q = shr_m r).
Proof.
  destruct r as [m [|] [|]]; cbn; intros Hm; unfold inexact; cbn; try destruct (Z.even m); split; lia || done.
Qed.

(** A quotient that fits, or is one too large for it. *)
Lemma last_shift q e : 0 < q ≤ 2 ^ 53 → -1074 ≤ e →
  ∃ m' e', (shr_fexp 53 1024 q e loc_Exact).2 = e' ∧ shr_m (shr_fexp 53 1024 q e loc_Exact).1 = Zpos m' ∧
    units (Zpos m') e' = units q e ∧ e ≤ e' ≤ e + 1 ∧ (e = -1074 ∨ 2 ^ 52 ≤ q → canonical m' e').
Proof.
  intros Hq He. destruct (shr_fexp_spec q e) as (-> & -> & _); [lia|].
  destruct q as [|m|m]; [lia| |lia]. pose proof (digits_spec m) as Hd. assert (0 < digits m) by (unfold digits; lia).
  unfold excess. change (Zdigits2 (Zpos m)) with (digits m). rewrite fexp_eq.
  destruct (decide (Zpos m = 2 ^ 53)) as [E|Hne].
  - assert (digits m = 54) as -> by (apply digits_unique; [done|]; rewrite E; done).
    replace (Z.max 0 (Z.max (54 + e - 53) (-1074) - e)) with 1 by lia. exists (2 ^ 52)%positive, (e + 1). rewrite E.
    split_and!; [done|done| |lia|lia|intros _; rewrite fexp_eq; change (digits _) with 53; lia].
    rewrite units_shift by lia. by f_equal.
  - assert (digits m ≤ 53).
    { destruct (Z.le_gt_cases (digits m) 53) as [|Hgt]; [done|]. pose proof (Z.pow_le_mono_r 2 53 (digits m - 1)). lia. }
    rewrite Z.max_l by lia. exists m, e. rewrite Z.add_0_r, Z.div_1_r. split_and!; [done..|lia|lia|].
    rewrite fexp_eq. intros [->|Hge]; [lia|].
    assert (digits m = 53) as -> by (apply digits_unique; [done|]; split; [done|lia]). lia.
Qed.

(** What the nearest double is: the quotient or the next, or an infinity. *)
Lemma round_aux_spec s m e : 0 < m / 2 ^ excess m e → -1074 ≤ e + excess m e →
  ∃ q m' e', binary_round_aux 53 1024 s m e loc_Exact = (if e' <=? 971 then S754_finite s m' e' else S754_infinity s) ∧
    m / 2 ^ excess m e ≤ q ≤ m / 2 ^ excess m e + 1 ∧ (m mod 2 ^ excess m e = 0 → q = m / 2 ^ excess m e) ∧
    units (Zpos m') e' = units q (e + excess m e) ∧ e + excess m e ≤ e' ≤ e + excess m e + 1 ∧ (e ≤ fexp (Zdigits2 m + e) → canonical m' e').
Proof.
  intros Hq Hmin. assert (0 < m) as Hm.
  { destruct (Z.le_gt_cases m 0); [|done]. pose proof (Z.pow_pos_nonneg 2 (excess m e)).
    assert (m / 2 ^ excess m e ≤ 0) by (apply Z.div_le_upper_bound; [|nia]; unfold excess in *; lia). lia. }
  destruct (shr_fexp_spec m e Hm) as (Ee & Em & Ei). unfold binary_round_aux. destruct (shr_fexp 53 1024 m e loc_Exact) as [r e1]. cbn in Ee, Em, Ei.
  destruct (nearest_even_bracket r) as [Hb Hex]; [lia|]. set (q := round_nearest_even _ _) in *. rewrite Em in *.
  assert (m / 2 ^ excess m e < 2 ^ 53 ∧ (e ≤ fexp (Zdigits2 m + e) → e1 = -1074 ∨ 2 ^ 52 ≤ m / 2 ^ excess m e)) as [Hlt Hcan].
  { destruct m as [|p|p]; [lia| |lia]. pose proof (digits_spec p) as Hd. assert (0 < digits p) by (unfold digits; lia).
    unfold excess in *. change (Zdigits2 (Zpos p)) with (digits p) in *. rewrite fexp_eq in *. set (n := Z.max 0 _) in *.
    assert (0 ≤ n) by lia. pose proof (Z.pow_pos_nonneg 2 n). split.
    - apply Z.div_lt_upper_bound; [lia|]. rewrite <-Z.pow_add_r by lia.
      eapply Z.lt_le_trans; [apply Hd|]. apply Z.pow_le_mono_r; lia.
    - intros Hle. destruct (decide (e1 = -1074)); [by left|right]. apply Z.div_le_lower_bound; [lia|].
      rewrite <-Z.pow_add_r by lia. etrans; [|apply Hd]. apply Z.pow_le_mono_r; lia. }
  destruct (last_shift q e1) as (m' & e' & E1 & E2 & Eu & He' & Hc); [lia|lia|].
  destruct (shr_fexp 53 1024 q e1 loc_Exact) as [r2 e2]. cbn in E1, E2. rewrite E2. subst e2.
  exists q, m', e'. rewrite <-Ee. split_and!; try (done || lia).
  intros E0. apply Hex. rewrite Ei, bool_decide_true by done. done.
Qed.

(** ** Scaling *)

Definition valid (x : double) : Prop := valid_binary 53 1024 x = true.
Lemma valid_finite s m e : valid (S754_finite s m e) ↔ canonical m e ∧ e ≤ 971.
Proof. unfold valid. cbn. unfold bounded, canonical_mantissa. rewrite andb_true_iff, Z.eqb_eq, Z.leb_le. done. Qed.
Lemma canonical_bounds m e : canonical m e → -1074 ≤ e ∧ Zpos m < 2 ^ 53 ∧ (e ≠ -1074 → 2 ^ 52 ≤ Zpos m).
Proof.
  rewrite fexp_eq. pose proof (digits_spec m) as Hd. assert (0 < digits m) by (unfold digits; lia). intros E.
  split_and!; [lia| |].
  - eapply Z.lt_le_trans; [apply Hd|]. apply Z.pow_le_mono_r; lia.
  - intros Hne. etrans; [|apply Hd]. apply Z.pow_le_mono_r; lia.
Qed.

Lemma scale_gain : scale_of gain_q = S754_finite false (2 ^ 52)%positive (-27).
Proof. by vm_compute. Qed.
(** The product with 2^25 is exact, or too large. *)
Lemma scale_exact s m e : canonical m e →
  ∃ m' e', mul (S754_finite s m e) (scale_of gain_q) = (if e' <=? 971 then S754_finite s m' e' else S754_infinity s) ∧
    units (Zpos m') e' = units (Zpos m) (e + 25) ∧ canonical m' e' ∧ e ≤ e' ≤ e + 26.
Proof.
  intros Hc. destruct (canonical_bounds m e Hc) as (He & Hm & _). rewrite scale_gain. cbn [mul SFmul xorb].
  rewrite xorb_false_r. rewrite fexp_eq in Hc. assert (0 < digits m) by (unfold digits; lia).
  pose proof (digits_mul m 52 ltac:(lia)) as Hd. change (Z.to_pos (Zpos m * 2 ^ 52)) with (m * 2 ^ 52)%positive in Hd.
  assert (Zdigits2 (Zpos (m * 2 ^ 52)) = digits m + 52) as Hd' by done.
  assert (excess (Zpos (m * 2 ^ 52)) (e + -27) = Z.max (digits m - 1) (- 1047 - e)) as Hx.
  { unfold excess. rewrite Hd', fexp_eq. lia. }
  set (n := Z.max _ _) in Hx. assert (0 ≤ n ≤ 52) as Hn by lia.
  assert (Zpos (m * 2 ^ 52) = Zpos m * 2 ^ (52 - n) * 2 ^ n) as Hs.
  { rewrite <-Z.mul_assoc, <-Z.pow_add_r by lia. replace (52 - n + n) with 52 by lia. done. }
  pose proof (Z.pow_pos_nonneg 2 n ltac:(lia) ltac:(lia)). pose proof (Z.pow_pos_nonneg 2 (52 - n) ltac:(lia) ltac:(lia)).
  destruct (round_aux_spec s (Zpos (m * 2 ^ 52)) (e + -27)) as (q & m' & e' & E & _ & Hq & Hu & He' & Hcan); rewrite ?Hx in *.
  { rewrite Hs, Z.div_mul by lia. nia. }
  { lia. }
  exists m', e'. split_and!; [done| |apply Hcan; rewrite Hd', fexp_eq; lia|lia|lia].
  rewrite Hu, Hq by (rewrite Hs; apply Z.mod_mul; lia). rewrite Hs, Z.div_mul by lia.
  rewrite <-units_shift by lia. f_equal. lia.
Qed.

(** ** Comparing and clamping *)

Lemma units_pos m e : -1200 ≤ e → 0 < units (Zpos m) e.
Proof. intros He. unfold units. pose proof (Z.pow_pos_nonneg 2 (e + 1200)). nia. Qed.
Lemma canonical_lt m1 e1 m2 e2 : canonical m1 e1 → canonical m2 e2 → e1 < e2 → units (Zpos m1) e1 < units (Zpos m2) e2.
Proof.
  intros H1 H2 Hlt. destruct (canonical_bounds _ _ H1) as (He1 & Hm1 & _), (canonical_bounds _ _ H2) as (He2 & _ & Hm2).
  specialize (Hm2 ltac:(lia)). replace e2 with (e1 + (e2 - e1)) by lia. rewrite units_shift by lia.
  assert (2 ^ 1 ≤ 2 ^ (e2 - e1)) by (apply Z.pow_le_mono_r; lia). assert (2 ^ 52 * 2 ^ 1 ≤ Zpos m2 * 2 ^ (e2 - e1)) by (apply Z.mul_le_mono_nonneg; lia).
  unfold units. apply Z.mul_lt_mono_pos_r; [apply Z.pow_pos_nonneg; lia|lia].
Qed.
Lemma compare_canonical m1 e1 m2 e2 : canonical m1 e1 → canonical m2 e2 →
  match Z.compare e1 e2 with Lt => Lt | Gt => Gt | Eq => Pos.compare_cont Eq m1 m2 end = Z.compare (units (Zpos m1) e1) (units (Zpos m2) e2).
Proof.
  intros H1 H2. destruct (canonical_bounds _ _ H1) as (He1 & _), (canonical_bounds _ _ H2) as (He2 & _).
  destruct (Z.compare_spec e1 e2) as [->|Hlt|Hlt].
  - unfold units. rewrite <-Zmult_compare_compat_r by (apply Z.lt_gt, Z.pow_pos_nonneg; lia). done.
  - symmetry. apply Z.compare_lt_iff. by apply canonical_lt.
  - symmetry. apply Z.compare_gt_iff. by apply canonical_lt.
Qed.
Lemma ltb_finite s1 m1 e1 s2 m2 e2 : canonical m1 e1 → canonical m2 e2 →
  ltb (S754_finite s1 m1 e1) (S754_finite s2 m2 e2) = bool_decide (signed s1 (units (Zpos m1) e1) < signed s2 (units (Zpos m2) e2)).
Proof.
  intros H1 H2. pose proof (compare_canonical _ _ _ _ H1 H2) as Hc.
  destruct (canonical_bounds _ _ H1) as (He1 & _), (canonical_bounds _ _ H2) as (He2 & _).
  pose proof (units_pos m1 e1 ltac:(lia)). pose proof (units_pos m2 e2 ltac:(lia)).
  unfold ltb, SFltb, SFcompare, signed. destruct s1, s2; [|symmetry; rewrite ?bool_decide_eq_true, ?bool_decide_eq_false; lia..|].
  - replace (match (e1 ?= e2) with Eq => _ | Lt => Gt | Gt => Lt end)
      with (CompOpp (match e1 ?= e2 with Lt => Lt | Gt => Gt | Eq => Pos.compare_cont Eq m1 m2 end)) by by destruct (e1 ?= e2).
    rewrite Hc. destruct (Z.compare_spec (units (Zpos m1) e1) (units (Zpos m2) e2)); cbn; symmetry;
      rewrite ?bool_decide_eq_true, ?bool_decide_eq_false; lia.
  - rewrite Hc. destruct (Z.compare_spec (units (Zpos m1) e1) (units (Zpos m2) e2)); symmetry;
      rewrite ?bool_decide_eq_true, ?bool_decide_eq_false; lia.
Qed.

Definition code_lo : Z := - 2 ^ 31.
Definition code_hi : Z := 2 ^ 31 - 1.
Definition lo : double := of_Z (min_code gain_q).
Definition hi : double := of_Z (max_code gain_q).
Lemma lo_value : lo = S754_finite true (2 ^ 52)%positive (-21) ∧ canonical (2 ^ 52)%positive (-21) ∧
  signed true (units (Zpos (2 ^ 52)) (-21)) = units code_lo 0.
Proof. by vm_compute. Qed.
Lemma hi_value : hi = S754_finite false (2 ^ 53 - 2 ^ 22)%positive (-22) ∧ canonical (2 ^ 53 - 2 ^ 22)%positive (-22) ∧
  signed false (units (Zpos (2 ^ 53 - 2 ^ 22)) (-22)) = units code_hi 0.
Proof. by vm_compute. Qed.

Lemma clamp_finite s m e : canonical m e →
  min (max (S754_finite s m e) lo) hi =
    if decide (signed s (units (Zpos m) e) < units code_lo 0) then lo
    else if decide (units code_hi 0 < signed s (units (Zpos m) e)) then hi
    else S754_finite s m e.
Proof.
  intros Hc. destruct lo_value as (El & Cl & Ul), hi_value as (Eh & Ch & Uh). unfold max.
  assert (ltb (S754_finite s m e) lo = bool_decide (signed s (units (Zpos m) e) < units code_lo 0)) as ->
    by (rewrite El, ltb_finite by done; by rewrite Ul).
  unfold min. destruct (decide (_ < units code_lo 0)); [rewrite bool_decide_true by done; by vm_compute|rewrite bool_decide_false by done].
  assert (ltb hi (S754_finite s m e) = bool_decide (units code_hi 0 < signed s (units (Zpos m) e))) as ->
    by (rewrite Eh, ltb_finite by done; by rewrite Uh).
  destruct (decide _); [by rewrite bool_decide_true|by rewrite bool_decide_false].
Qed.
Lemma clamp_infinity s : min (max (S754_infinity s) lo) hi = if s then lo else hi.
Proof. by destruct s; vm_compute. Qed.

(** ** Rounding to integers *)

Definition one : Z := units 1 0.
(** The rounding meant of the fraction [n / d]. *)
Definition nearest (mode : Rounding) (n d : Z) : Z :=
  match mode with HalfAway => (2 * n + d) / (2 * d) | HalfEven => round_even n d end.
Lemma one_pos : 0 < one.
Proof. by apply units_pos. Qed.
Lemma units_int n : units n 0 = n * one.
Proof. unfold one, units. ring. Qed.

Lemma round_even_bracket n d : 0 < d → n / d ≤ round_even n d ≤ n / d + 1 ∧ (n mod d = 0 → round_even n d = n / d).
Proof.
  intros Hd. unfold round_even. destruct (Z.compare_spec (2 * (n mod d)) d) as [E|E|E]; [destruct (Z.even (n / d))|..]; split; lia.
Qed.
Lemma nearest_ge mode n d k : 0 < d → k * d ≤ n → k ≤ nearest mode n d.
Proof.
  intros Hd Hk. destruct mode; cbn; [apply Z.div_le_lower_bound; lia|].
  pose proof (round_even_bracket n d Hd) as [[Hq _] _]. etrans; [|exact Hq]. apply Z.div_le_lower_bound; lia.
Qed.
Lemma nearest_le mode n d k : 0 < d → n ≤ k * d → nearest mode n d ≤ k.
Proof.
  intros Hd Hk. destruct mode; cbn.
  - apply Z.lt_succ_r, Z.div_lt_upper_bound; lia.
  - pose proof (round_even_bracket n d Hd) as [[_ Hq] Hx]. pose proof (Z.div_mod n d). pose proof (Z.mod_pos_bound n d Hd).
    destruct (decide (n mod d = 0)) as [E0|E0]; [rewrite (Hx E0); apply Z.div_le_upper_bound; lia|].
    assert (n / d < k) by nia. lia.
Qed.
Lemma round_even_scale n d k : 0 < k → 0 < d → round_even (n * k) (d * k) = round_even n d.
Proof.
  intros Hk Hd. unfold round_even. rewrite Z.div_mul_cancel_r, Z.mul_mod_distr_r by lia.
  replace (2 * (n mod d * k)) with (2 * (n mod d) * k) by ring. by rewrite <-Zmult_compare_compat_r by lia.
Qed.

Lemma fraction_units s m e : -1200 ≤ e →
  ∃ n d k, fraction (S754_finite s m e) = Some (s, n, d) ∧ units (Zpos m) e = n * k ∧ one = d * k ∧ 0 < k ∧ 0 < d.
Proof.
  intros He. exists (Zpos m * 2 ^ Z.max e 0), (2 ^ Z.max (- e) 0), (2 ^ (1200 - Z.max (- e) 0)).
  split_and!; [done| | |apply Z.pow_pos_nonneg; lia|apply Z.pow_pos_nonneg; lia].
  - unfold units. rewrite <-Z.mul_assoc, <-Z.pow_add_r by lia. f_equal. f_equal. lia.
  - unfold one, units. rewrite Z.mul_1_l, <-Z.pow_add_r by lia. f_equal. lia.
Qed.
Lemma truncate_units s m e : -1200 ≤ e → truncate (S754_finite s m e) = Some (signed s (units (Zpos m) e / one)).
Proof.
  intros He. destruct (fraction_units s m e He) as (n & d & k & Ef & -> & -> & Hk & Hd). unfold truncate. rewrite Ef. cbn.
  by rewrite Z.div_mul_cancel_r by lia.
Qed.
Lemma trunc_units s m e : -1200 ≤ e → trunc (S754_finite s m e) = integral s (units (Zpos m) e / one).
Proof.
  intros He. destruct (fraction_units s m e He) as (n & d & k & Ef & -> & -> & Hk & Hd). unfold trunc. rewrite Ef.
  by rewrite Z.div_mul_cancel_r by lia.
Qed.
Lemma nearbyint_units s m e : -1200 ≤ e → nearbyint (S754_finite s m e) = integral s (nearest HalfEven (units (Zpos m) e) one).
Proof.
  intros He. destruct (fraction_units s m e He) as (n & d & k & Ef & -> & -> & Hk & Hd). unfold nearbyint. rewrite Ef.
  cbn [nearest]. by rewrite round_even_scale by lia.
Qed.

Lemma shl_align_spec m e e' : e' ≤ e → Zpos (shl_align m e e').1 = Zpos m * 2 ^ (e - e') ∧ (shl_align m e e').2 = e'.
Proof.
  intros He. unfold shl_align. destruct (e' - e) as [|p|p] eqn:E; [cbn|lia|cbn].
  - replace (e - e') with 0 by lia. lia.
  - replace (e - e') with (Zpos p) by lia. split; [|done]. clear. induction p using Pos.peano_ind; [cbn; lia|].
    rewrite Pos.iter_succ, Pos2Z.inj_succ, Z.pow_succ_r by lia. rewrite Pos2Z.inj_xO. lia.
Qed.
Lemma small_below g e : -1200 ≤ g → g < e → units (2 ^ 53) g ≤ units (2 ^ 52) e.
Proof.
  intros Hg He. rewrite (units_at _ e (g + 1)), units_shift by lia. apply units_le; [lia|].
  pose proof (Z.pow_pos_nonneg 2 (e - (g + 1)) ltac:(lia) ltac:(lia)). lia.
Qed.
(** A number that the mantissa has too many bits for: the quotient or the next is on the
    side of any [y] of 53 bits that the number is on. *)
Lemma bracket_le p e n q y g : -1074 ≤ e → 0 < n → 2 ^ (52 + n) ≤ p → p / 2 ^ n ≤ q ≤ p / 2 ^ n + 1 → (p mod 2 ^ n = 0 → q = p / 2 ^ n) →
  0 ≤ y < 2 ^ 53 → -1074 ≤ g → units p e ≤ units y g → units q (e + n) ≤ units y g.
Proof.
  intros He Hn Hp Hq Hx Hy Hg Hle. pose proof (Z.pow_pos_nonneg 2 n ltac:(lia) ltac:(lia)) as Hpn.
  pose proof (Z.div_mod p (2 ^ n)). pose proof (Z.mod_pos_bound p (2 ^ n) Hpn). destruct (Z.le_gt_cases (e + n) g) as [Hge|Hlt].
  - rewrite (units_at y g (e + n)) in Hle |- * by lia. apply units_le; [lia|].
    rewrite units_shift in Hle by lia. apply units_le in Hle; [|lia]. set (Y := y * _) in *.
    destruct (decide (p mod 2 ^ n = 0)) as [E|E]; [rewrite (Hx E); apply Z.div_le_upper_bound; lia|].
    assert (p / 2 ^ n < Y) by nia. lia.
  - exfalso. rewrite Z.pow_add_r in Hp by lia. assert (units y g < units p e); [|lia].
    apply Z.lt_le_trans with (units (2 ^ 53) g); [apply Z.mul_lt_mono_pos_r; [apply Z.pow_pos_nonneg|]; lia|].
    apply Z.le_trans with (units (2 ^ 52) (e + n)).
    + apply small_below; lia.
    + rewrite units_shift by lia. apply units_le; lia.
Qed.
Lemma bracket_ge p e n q y g : -1074 ≤ e → 0 < n → 2 ^ (52 + n) ≤ p → p / 2 ^ n ≤ q →
  0 ≤ y < 2 ^ 53 → -1074 ≤ g → units y g ≤ units p e → units y g ≤ units q (e + n).
Proof.
  intros He Hn Hp Hq Hy Hg Hle. pose proof (Z.pow_pos_nonneg 2 n ltac:(lia) ltac:(lia)) as Hpn.
  destruct (Z.le_gt_cases (e + n) g) as [Hge|Hlt].
  - rewrite (units_at y g (e + n)) in Hle |- * by lia. apply units_le; [lia|].
    rewrite units_shift in Hle by lia. apply units_le in Hle; [|lia]. etrans; [|exact Hq]. apply Z.div_le_lower_bound; lia.
  - apply Z.lt_le_incl, Z.lt_le_trans with (units (2 ^ 53) g); [apply Z.mul_lt_mono_pos_r; [apply Z.pow_pos_nonneg|]; lia|].
    apply Z.le_trans with (units (2 ^ 52) (e + n)); [apply small_below; lia|]. apply units_le; [lia|]. etrans; [|exact Hq].
    apply Z.div_le_lower_bound; [lia|]. rewrite Z.pow_add_r in Hp by lia. lia.
Qed.
(** The double nearest to a number is on the side of a double that the number is on. *)
Lemma round_spec s p e : -1074 ≤ e → units (Zpos p) e ≤ units 1 100 →
  ∃ m e', binary_round 53 1024 s p e = S754_finite s m e' ∧ (-1074 ≤ e' ≤ 971 ∧ canonical m e') ∧
    (∀ y g, 0 ≤ y < 2 ^ 53 → -1074 ≤ g → units (Zpos p) e ≤ units y g → units (Zpos m) e' ≤ units y g) ∧
    (∀ y g, 0 ≤ y < 2 ^ 53 → -1074 ≤ g → units y g ≤ units (Zpos p) e → units y g ≤ units (Zpos m) e').
Proof.
  intros He Hmax. pose proof (digits_spec p) as Hd. assert (0 < digits p) by (unfold digits; lia).
  assert (digits p - 1 + e ≤ 100) as Htop.
  { destruct (Z.le_gt_cases (digits p - 1 + e) 100) as [|Hgt]; [done|]. exfalso.
    assert (units 1 100 < units (Zpos p) e); [|lia]. apply Z.lt_le_trans with (units (2 ^ (digits p - 1)) e); [|apply units_le; lia].
    unfold units. rewrite Z.mul_1_l, <-Z.pow_add_r by lia. apply Z.pow_lt_mono_r; lia. }
  unfold binary_round. change (Zpos (digits2_pos p)) with (digits p). set (f := fexp (digits p + e)).
  assert (f = Z.max (digits p + e - 53) (-1074)) as Ef by done. destruct (Z.le_gt_cases f e) as [Hle|Hgt].
  - destruct (shl_align_spec p e f Hle) as [Em Ee]. destruct (shl_align p e f) as [mz ez]. cbn in Em, Ee. subst ez.
    assert (digits mz = digits p + (e - f)) as Hmz by (rewrite <-(digits_mul p (e - f)) by lia; by rewrite <-Em).
    assert (excess (Zpos mz) f = 0) as Hx by (unfold excess; change (Zdigits2 (Zpos mz)) with (digits mz); rewrite Hmz, fexp_eq; lia).
    destruct (round_aux_spec s (Zpos mz) f) as (q & m' & e' & E & _ & Hq & Hu & He' & Hcan); rewrite ?Hx in *; [by rewrite Z.div_1_r|lia|].
    assert (units (Zpos m') e' = units (Zpos p) e) as Hu'.
    { rewrite Hu, Z.add_0_r, Hq, Z.div_1_r, Em by apply Z.mod_1_r. replace e with (f + (e - f)) at 2 by lia. by rewrite units_shift by lia. }
    exists m', e'. rewrite E, (proj2 (Z.leb_le _ _)), Hu' by lia. split_and!; [done|lia|lia| |auto..].
    apply Hcan. change (Zdigits2 (Zpos mz)) with (digits mz). rewrite Hmz, fexp_eq. lia.
  - assert (shl_align p e f = (p, e)) as -> by (unfold shl_align; destruct (f - e) eqn:?; [done|done|lia]).
    assert (excess (Zpos p) e = digits p - 53) as Hx by (unfold excess; change (Zdigits2 (Zpos p)) with (digits p); rewrite fexp_eq; lia).
    set (n := digits p - 53) in *. assert (2 ^ (52 + n) ≤ Zpos p) as Hp by (replace (52 + n) with (digits p - 1) by lia; lia).
    pose proof (Z.pow_pos_nonneg 2 n ltac:(lia) ltac:(lia)).
    destruct (round_aux_spec s (Zpos p) e) as (q & m' & e' & E & Hb & Hq & Hu & He' & Hcan); rewrite ?Hx in *; [|lia|].
    { rewrite Z.pow_add_r in Hp by lia. apply Z.lt_le_trans with (2 ^ 52); [done|]. apply Z.div_le_lower_bound; lia. }
    exists m', e'. rewrite E, (proj2 (Z.leb_le _ _)), Hu by lia. split_and!; [done|lia|lia|apply Hcan; change (Zdigits2 (Zpos p)) with (digits p); fold f; lia| |]; intros y g Hy Hg Hle.
    + by apply (bracket_le (Zpos p)); try lia.
    + by apply (bracket_ge (Zpos p)); try lia.
Qed.

Lemma integral_value neg n : 0 ≤ n ≤ 2 ^ 31 → truncate (integral neg n) = Some (signed neg n).
Proof.
  intros Hn. destruct n as [|p|p]; [by destruct neg| |lia]. cbn [integral].
  destruct (round_spec neg p 0) as (m & e & -> & [He _] & Hle & Hge); [lia|by rewrite (units_at 1 100 0), units_le by lia; lia|].
  rewrite truncate_units by lia. do 2 f_equal. specialize (Hle (Zpos p) 0). specialize (Hge (Zpos p) 0).
  assert (units (Zpos m) e = units (Zpos p) 0) as -> by (apply Z.le_antisymm; [apply Hle|apply Hge]; lia).
  rewrite units_int. apply Z.div_mul. pose proof one_pos. lia.
Qed.
Lemma to_int32_integral neg n : 0 ≤ n ≤ 2 ^ 31 → (neg = false → n < 2 ^ 31) → to_int32 (integral neg n) = Ret (signed neg n).
Proof.
  intros Hn Hneg. unfold to_int32. rewrite integral_value by done. unfold in_range. rewrite bool_decide_true; [done|].
  destruct neg; cbn; [lia|]. specialize (Hneg eq_refl). lia.
Qed.

(** ** Half away from zero *)

Definition half_units : Z := units 1 (-1).
Lemma one_halves : one = 2 * half_units.
Proof. by vm_compute. Qed.
(** The sum of a double and a half of its sign, before it is rounded. *)
Lemma half_sum s m e : -1074 ≤ e → ∃ p e', add (S754_finite s m e) (copysign half (S754_finite s m e)) = binary_round 53 1024 s p e' ∧
  -1074 ≤ e' ∧ units (Zpos p) e' = units (Zpos m) e + half_units.
Proof.
  intros He. assert (copysign half (S754_finite s m e) = S754_finite s (2 ^ 52)%positive (-53)) as -> by by destruct s; vm_compute.
  set (ez := Z.min e (-53)). destruct (shl_align_spec m e ez) as [Ea _]; [lia|].
  destruct (shl_align_spec (2 ^ 52) (-53) ez) as [Eb _]; [lia|]. set (a := (shl_align m e ez).1) in *. set (b := (shl_align (2 ^ 52) (-53) ez).1) in *.
  exists (a + b)%positive, ez. split_and!; [|lia|].
  - unfold add, SFadd. fold ez a b. destruct s; cbn [cond_Zopp Z.opp Z.add binary_normalize]; done.
  - rewrite Pos2Z.inj_add. unfold units at 1. rewrite Z.mul_add_distr_r. fold (units (Zpos a) ez) (units (Zpos b) ez). rewrite Ea, Eb.
    rewrite <-!units_at by lia. done.
Qed.

(** Between the sum and the next integer there is a double, but for the greatest double
    below a half. *)
Lemma double_above m e : canonical m e → units (Zpos m) e ≤ units (2 ^ 31) 0 → ¬ (m = (2 ^ 53 - 1)%positive ∧ e = -54) →
  ∃ y g, 0 ≤ y < 2 ^ 53 ∧ -1074 ≤ g ∧ units (Zpos m) e + half_units ≤ units y g ∧
    units y g < (nearest HalfAway (units (Zpos m) e) one + 1) * one.
Proof.
  intros Hc Hmax Hne. destruct (canonical_bounds m e Hc) as (He & Hm & _). cbn [nearest]. set (t := units (Zpos m) e) in *.
  pose proof one_halves as Hh. pose proof one_pos as Ho.
  assert (t + half_units < ((2 * t + one) / (2 * one) + 1) * one) as Hfloor.
  { pose proof (Z.div_mod (2 * t + one) (2 * one)). pose proof (Z.mod_pos_bound (2 * t + one) (2 * one)). lia. }
  assert (0 ≤ (2 * t + one) / (2 * one)) as Hf0 by (apply Z.div_pos; pose proof (units_pos m e ltac:(lia)); lia).
  rewrite units_int in Hmax. destruct (Z.le_gt_cases 0 e) as [H0|H0]; [|destruct (Z.le_gt_cases (-53) e) as [H1|H1]].
  - exists (2 * (Zpos m * 2 ^ e) + 1), (-1).
    assert (t = Zpos m * 2 ^ e * one) as Et by (unfold t; rewrite (units_at _ e 0), units_int, Z.sub_0_r by lia; done).
    assert (units (2 * (Zpos m * 2 ^ e) + 1) (-1) = t + half_units) as -> by (rewrite Et, Hh; unfold half_units, units; ring).
    pose proof (Z.pow_pos_nonneg 2 e ltac:(lia) ltac:(lia)). assert (Zpos m * 2 ^ e ≤ 2 ^ 31) by nia. split_and!; lia.
  - assert (t + half_units = units (Zpos m + 2 ^ (-1 - e)) e) as Ev.
    { unfold units at 1. rewrite Z.mul_add_distr_r. fold (units (Zpos m) e) (units (2 ^ (-1 - e)) e). rewrite <-(Z.mul_1_l (2 ^ (-1 - e))).
      by rewrite <-(units_at 1 (-1) e) by lia. }
    destruct (Z.lt_ge_cases (Zpos m + 2 ^ (-1 - e)) (2 ^ 53)) as [Hy|Hy].
    + exists (Zpos m + 2 ^ (-1 - e)), e. pose proof (Z.pow_pos_nonneg 2 (-1 - e) ltac:(lia) ltac:(lia)). rewrite <-Ev. split_and!; lia.
    + set (P := 2 ^ (53 + e)). assert (units (2 ^ 53) e = P * one) as EP.
      { rewrite <-units_int. unfold P. rewrite <-(Z.mul_1_l (2 ^ 53)), <-(Z.mul_1_l (2 ^ (53 + e))), <-units_shift by lia.
        rewrite (units_at 1 (e + 53) 0) by lia. do 3 f_equal. lia. }
      assert (P * one ≤ t + half_units) by (rewrite Ev, <-EP; apply units_le; lia).
      assert (t < P * one) by (rewrite <-EP; apply Z.mul_lt_mono_pos_r; [apply Z.pow_pos_nonneg|]; lia).
      assert (0 < P) by (apply Z.pow_pos_nonneg; lia). assert (P ≤ 2 ^ 32) by nia.
      assert (P ≤ (2 * t + one) / (2 * one)) by (apply Z.div_le_lower_bound; lia).
      exists (2 * P + 1), (-1). assert (units (2 * P + 1) (-1) = P * one + half_units) as -> by (rewrite Hh; unfold half_units, units; ring).
      split_and!; [lia..|]. nia.
  - destruct (decide (e = -54)) as [->|H2].
    + exists (2 ^ 53 - 1), (-53). assert (Zpos m ≤ 2 ^ 53 - 2) by (destruct (decide (Zpos m = 2 ^ 53 - 1)) as [E|]; [|lia]; exfalso; apply Hne; split; [by injection E|done]).
      assert (units (2 ^ 53 - 1) (-53) = units (2 ^ 53 - 2) (-54) + half_units) as -> by by vm_compute.
      assert (t ≤ units (2 ^ 53 - 2) (-54)) by (apply units_le; lia).
      assert (units (2 ^ 53 - 2) (-54) + half_units < one) by by vm_compute. split_and!; [lia..|nia].
    + exists 3, (-2). assert (t < units 1 (-2)).
      { apply Z.lt_le_trans with (units (2 ^ 53) e); [apply Z.mul_lt_mono_pos_r; [apply Z.pow_pos_nonneg|]; lia|].
        unfold units. rewrite <-Z.pow_add_r, Z.mul_1_l by lia. apply Z.pow_le_mono_r; lia. }
      assert (units 3 (-2) = units 1 (-2) + half_units) as -> by by vm_compute.
      assert (units 1 (-2) + half_units < one) by by vm_compute. split_and!; [lia..|nia].
Qed.

Lemma half_away_value s m e : canonical m e → units (Zpos m) e ≤ units (2 ^ 31) 0 → ¬ (m = (2 ^ 53 - 1)%positive ∧ e = -54) →
  trunc (add (S754_finite s m e) (copysign half (S754_finite s m e))) = integral s (nearest HalfAway (units (Zpos m) e) one).
Proof.
  intros Hc Hmax Hne. destruct (canonical_bounds m e Hc) as (He & _). pose proof one_pos as Ho. pose proof one_halves as Hh.
  destruct (double_above m e Hc Hmax Hne) as (y & g & Hy & Hg & Habove & Hlt). destruct (half_sum s m e He) as (p & e1 & -> & He1 & Ev).
  set (F := nearest HalfAway (units (Zpos m) e) one) in *. rewrite units_int in Hmax.
  assert (0 ≤ F ≤ 2 ^ 31) as HF.
  { pose proof (units_pos m e ltac:(lia)). split; [apply nearest_ge|apply nearest_le]; lia. }
  assert (F * one ≤ units (Zpos m) e + half_units) as Hbelow.
  { subst F. cbn [nearest]. set (t := units (Zpos m) e) in *. pose proof (Z.mul_div_le (2 * t + one) (2 * one)). lia. }
  destruct (round_spec s p e1) as (m2 & e2 & -> & [He2 _] & Hle & Hge); [done|rewrite Ev|].
  { assert (2 ^ 31 * one + half_units ≤ units 1 100) by by vm_compute. lia. }
  rewrite Ev in Hle, Hge. specialize (Hle y g Hy Hg Habove). specialize (Hge F 0). rewrite units_int in Hge.
  rewrite trunc_units by lia. f_equal. symmetry. apply (Z.div_unique _ _ _ (units (Zpos m2) e2 - F * one)); [left|ring].
  specialize (Hge ltac:(lia) ltac:(lia) Hbelow). lia.
Qed.

(** ** The code of a gain *)

(** The code meant: the gain times 2^25, rounded, and kept within the codes. *)
Definition code_of (mode : Rounding) (x : double) : Z :=
  match x with
  | S754_nan | S754_zero _ => 0
  | S754_infinity s => if s then code_lo else code_hi
  | S754_finite s m e => Z.max code_lo (Z.min code_hi (signed s (nearest mode (units (Zpos m) (e + 25)) one)))
  end.
(** The greatest double below half of 2^-25, and its opposite. *)
Definition below_half (s : bool) : double := S754_finite s (2 ^ 53 - 1)%positive (-79).

Lemma nan_to_zero_finite s m e d : nan_to_zero (S754_finite s m e) d = d.
Proof.
  unfold nan_to_zero, SFeqb, SFcompare. rewrite Z.compare_refl. change (Pos.compare_cont Eq m m) with (Pos.compare m m).
  rewrite Pos.compare_refl. by destruct s.
Qed.
Lemma rounded_value mode s m e : canonical m e → units (Zpos m) e ≤ units (2 ^ 31) 0 →
  (mode = HalfAway → ¬ (m = (2 ^ 53 - 1)%positive ∧ e = -54)) →
  (match mode with
   | HalfAway => trunc (add (S754_finite s m e) (copysign half (S754_finite s m e)))
   | HalfEven => nearbyint (S754_finite s m e)
   end) = integral s (nearest mode (units (Zpos m) e) one).
Proof.
  intros Hc Hmax Hne. destruct (canonical_bounds m e Hc) as (He & _).
  destruct mode; [by apply half_away_value; auto|apply nearbyint_units; lia].
Qed.
(** The kernel on a value that is finite after scaling. *)
Lemma kernel_value mode s m e : canonical m e → (mode = HalfAway → ¬ (m = (2 ^ 53 - 1)%positive ∧ e = -54)) →
  to_int32 (quantise_scaled mode (S754_finite s m e) lo hi) =
    Ret (Z.max code_lo (Z.min code_hi (signed s (nearest mode (units (Zpos m) e) one)))).
Proof.
  intros Hc Hne. destruct (canonical_bounds m e Hc) as (He & _). pose proof one_pos as Ho. pose proof (units_pos m e ltac:(lia)) as Ht.
  unfold quantise_scaled. rewrite nan_to_zero_finite, clamp_finite, !units_int by done. unfold code_lo, code_hi in *.
  destruct (decide (_ < _)) as [Hlo|Hlo]; [|destruct (decide (_ < signed _ _)) as [Hhi|Hhi]].
  - destruct s; [|cbn in Hlo; lia]. cbn in Hlo. pose proof (nearest_ge mode (units (Zpos m) e) one (2 ^ 31) Ho). cbn [signed].
    rewrite Z.max_l by lia. by destruct mode; vm_compute.
  - destruct s; [cbn in Hhi; lia|]. cbn in Hhi. pose proof (nearest_ge mode (units (Zpos m) e) one (2 ^ 31 - 1) Ho). cbn [signed].
    rewrite Z.min_l, Z.max_r by lia. by destruct mode; vm_compute.
  - pose proof (nearest_ge mode (units (Zpos m) e) one 0 Ho). pose proof (nearest_le mode (units (Zpos m) e) one (if s then 2 ^ 31 else 2 ^ 31 - 1) Ho).
    rewrite rounded_value by (try done; rewrite units_int; destruct s; cbn in *; lia).
    rewrite to_int32_integral by (destruct s; cbn in *; intros; try done; lia). f_equal. destruct s; cbn in *; lia.
Qed.
Lemma canonical_inj m1 e1 m2 e2 : canonical m1 e1 → canonical m2 e2 → units (Zpos m1) e1 = units (Zpos m2) e2 → m1 = m2 ∧ e1 = e2.
Proof.
  intros H1 H2 E. destruct (Z.lt_trichotomy e1 e2) as [Hlt|[->|Hlt]].
  - pose proof (canonical_lt _ _ _ _ H1 H2 Hlt). lia.
  - destruct (canonical_bounds _ _ H2) as (He & _). unfold units in E. apply Z.mul_reg_r in E; [by injection E|].
    pose proof (Z.pow_pos_nonneg 2 (e2 + 1200) ltac:(lia) ltac:(lia)). lia.
  - pose proof (canonical_lt _ _ _ _ H2 H1 Hlt). lia.
Qed.
Lemma quantise_code mode x : valid x → (mode = HalfAway → ∀ s, x ≠ below_half s) → quantise mode x gain_q = Ret (code_of mode x).
Proof.
  intros Hv Hne. unfold quantise. fold lo hi. destruct x as [s|s| |s m e]; [by destruct s, mode; vm_compute|by destruct s, mode; vm_compute|by destruct mode; vm_compute|].
  apply valid_finite in Hv as [Hc _]. destruct (scale_exact s m e Hc) as (m' & e' & -> & Eu & Hc' & He').
  destruct (Z.leb_spec e' 971) as [_|Hbig].
  - rewrite kernel_value; [by rewrite Eu|done|]. intros Hm [-> ->]. apply (Hne Hm s). unfold below_half.
    destruct (canonical_inj m e (2 ^ 53 - 1) (-79)) as [-> ->]; [done|by vm_compute| |done].
    apply (Z.mul_reg_r _ _ (2 ^ 25)); [done|]. destruct (canonical_bounds m e Hc) as (He & _).
    assert (∀ p e, -1200 ≤ e → units p e * 2 ^ 25 = units p (e + 25)) as Hs by (intros; rewrite units_shift by lia; unfold units; ring).
    rewrite !Hs by lia. by rewrite <-Eu.
  - cbn [code_of]. rewrite <-Eu. pose proof one_pos. assert (2 ^ 31 * one ≤ units (Zpos m') e').
    { rewrite <-units_int. etrans; [|apply (units_le 1); lia]. rewrite <-(Z.mul_1_l (2 ^ 31)), <-units_shift by lia.
      unfold units. rewrite !Z.mul_1_l. apply Z.pow_le_mono_r; lia. }
    pose proof (nearest_ge mode (units (Zpos m') e') one (2 ^ 31)). set (k := nearest _ _ _) in *. unfold code_lo, code_hi in *.
    replace (Z.max _ _) with (if s then - 2 ^ 31 else 2 ^ 31 - 1) by (destruct s; cbn; lia). by destruct s, mode; vm_compute.
Qed.

(** C5: A frame of gains is encoded gain by gain, however many lanes a vector has: the
    word of each is that of the code nearest to the gain times 2^25, with halves away
    from zero or to even as asked, kept within the codes of 32 bits, and 0 for a NaN;
    no conversion is undefined.  Only the greatest double below half of 2^-25, and its
    opposite, must not be among the gains when halves go away from zero. *)
Theorem gains_encoded WIDTH mode gains :
  Forall valid gains → (mode = HalfAway → Forall (λ x, ∀ s, x ≠ below_half s) gains) →
  quantise_into WIDTH gains gain_q mode = Ret ((λ x, to_word (code_of mode x)) <$> gains).
Proof.
  intros Hv Hne. unfold quantise_into. rewrite vector_loop_map. induction gains as [|x gains IH]; [done|].
  apply Forall_cons_1 in Hv as [Hx Hv]. assert (mode = HalfAway → (∀ s, x ≠ below_half s) ∧ Forall (λ x, ∀ s, x ≠ below_half s) gains) as Hn
    by (intros Hm; specialize (Hne Hm); by apply Forall_cons_1 in Hne).
  rewrite mapM_cons_outcome, IH; [|done|by intros [_ ?]%Hn]. unfold word_of.
  pose proof (quantise_code mode x Hx ltac:(by intros [? _]%Hn)) as E. unfold quantise in E. by rewrite E.
Qed.

Lemma gains_encoded_witness :
  quantise_into 2 [of_Z 1; of_Z (-3); NAN; of_Z 64; half] gain_q HalfAway = Ret [2 ^ 25; 2 ^ 32 - 3 * 2 ^ 25; 0; 2 ^ 31 - 1; 2 ^ 24].
Proof.
  rewrite gains_encoded; [by vm_compute|by repeat constructor|]. intros _. repeat constructor; by intros [|].
Defined.

(** The double just below half of 2^-25 is nearer to 0 but is given the code 1: the sum
    with a half is rounded up to 1. *)
Lemma below_half_rounded_up :
  quantise HalfAway (below_half false) gain_q = Ret 1 ∧ code_of HalfAway (below_half false) = 0 ∧
  quantise HalfAway (below_half true) gain_q = Ret (-1).
Proof. by vm_compute. Qed.

(** ** Codes read back *)

(** A number of 53 bits is kept as it is. *)
Lemma round_exact s p e : -1074 ≤ e → Zpos p < 2 ^ 53 → units (Zpos p) e ≤ units 1 100 →
  ∃ m e', binary_round 53 1024 s p e = S754_finite s m e' ∧ (-1074 ≤ e' ≤ 971 ∧ canonical m e') ∧ units (Zpos m) e' = units (Zpos p) e.
Proof.
  intros He Hp Hmax. destruct (round_spec s p e He Hmax) as (m & e' & E & Hc & Hle & Hge). exists m, e'. split; [done|split; [done|]].
  apply Z.le_antisymm; [apply Hle|apply Hge]; lia.
Qed.
(** Encoding what a code stands for gives the code. *)
Lemma code_read_back mode code : code_lo ≤ code ≤ code_hi → quantise mode (dequantise code gain_q) gain_q = Ret code.
Proof.
  unfold code_lo, code_hi. intros Hcode. destruct (decide (code = 0)) as [->|H0]; [by destruct mode; vm_compute|].
  assert (∃ s p, of_Z code = binary_round 53 1024 s p 0 ∧ code = signed s (Zpos p)) as (s & p & E & ->)
    by (destruct code as [|p|p]; [done|by exists false, p|by exists true, p]).
  assert (Zpos p ≤ 2 ^ 31) as Hp by (destruct s; cbn in Hcode; lia). pose proof one_pos.
  destruct (round_exact s p 0) as (m & e & E1 & [He Hc] & Eu); [lia..|rewrite (units_at 1 100 0), units_le by lia; lia|].
  destruct (canonical_bounds m e Hc) as (He' & Hm & _).
  assert (units (Zpos m) (e + -25) ≤ units 1 100 ∧ e ≤ 31) as [Hmax Htop].
  { assert (units (Zpos m) e ≤ units 1 31) as Hu by (rewrite Eu, (units_at 1 31 0), units_le by lia; lia). split.
    - etrans; [|etrans; [exact Hu|]].
      + unfold units. apply Z.mul_le_mono_nonneg_l; [lia|]. apply Z.pow_le_mono_r; lia.
      + unfold units. rewrite !Z.mul_1_l. apply Z.pow_le_mono_r; lia.
    - destruct (Z.le_gt_cases e 31) as [|Hgt]; [done|]. exfalso. assert (units 1 32 ≤ units (Zpos m) e); [|assert (units 1 31 < units 1 32) by (by vm_compute); lia].
      etrans; [|apply (units_le 1); lia]. unfold units. rewrite !Z.mul_1_l. apply Z.pow_le_mono_r; lia. }
  assert (-53 ≤ e) as Hlow.
  { destruct (Z.le_gt_cases (-53) e) as [|Hlt]; [done|]. exfalso. assert (units (Zpos m) e < one); [|rewrite Eu, units_int in *; nia].
    apply Z.lt_le_trans with (units (2 ^ 53) e); [apply Z.mul_lt_mono_pos_r; [apply Z.pow_pos_nonneg|]; lia|].
    unfold one, units. rewrite Z.mul_1_l, <-Z.pow_add_r by lia. apply Z.pow_le_mono_r; lia. }
  destruct (round_exact s m (e + -25)) as (m2 & e2 & E2 & [He2 Hc2] & Eu2); [lia..|].
  assert (units (Zpos m2) (e2 + 25) = Zpos p * one) as Ep.
  { rewrite units_shift by lia. unfold units in *. rewrite <-Z.mul_assoc, (Z.mul_comm (2 ^ 25)), Z.mul_assoc, Eu2.
    rewrite <-Z.mul_assoc, <-Z.pow_add_r by lia. replace (e + -25 + 1200 + 25) with (e + 1200) by lia. rewrite Eu. by rewrite <-(units_int (Zpos p)). }
  assert (dequantise (signed s (Zpos p)) gain_q = S754_finite s m2 e2) as ->.
  { unfold dequantise. rewrite E, E1. exact E2. }
  assert (nearest mode (units (Zpos m2) (e2 + 25)) one = Zpos p) as En.
  { apply Z.le_antisymm; [apply nearest_le|apply nearest_ge]; lia. }
  rewrite quantise_code; [|apply valid_finite; split; [done|lia]|].
  - cbn [code_of]. rewrite En. unfold code_lo, code_hi. f_equal. lia.
  - intros _ s' [= -> -> ->]. assert (units (Zpos (2 ^ 53 - 1)) (-79 + 25) < one) by by vm_compute. rewrite Ep in *. nia.
Qed.

End QuantiseSpec.
