(* ===== verification/GainBridge.v ===== *)
(** * The bridge of the gains: include/lqrbridge (transport, publisher) and its FPGA side

    The program that streams gains into the inactive bank of the FPGA and asks for the
    swap, as a sequence of accesses to registers: [prog] is that sequence, where what
    is read decides how it goes on.  An access is a step of its own, since the FPGA runs
    on between two of them.  The other side is the double buffer of the controller,
    panda-fpga/modules/lqr/hdl, one function from clock to clock. *)

From S2P Require Import Prelude StdDev Hardware Quantise.
From stdpp Require Import base numbers list option.
Open Scope Z_scope.

Module GainBridge.
Import Double Quantise.

(** ** Accesses to registers *)

Inductive prog (A : Type) :=
  | Done (a : A)
  | Read (reg : Z) (k : Z → prog A)
  | Write (reg value : Z) (k : prog A)
  | Stop.
#[global] Arguments Done {A}.
#[global] Arguments Read {A}.
#[global] Arguments Write {A}.
#[global] Arguments Stop {A}.
#[export] Instance prog_ret : MRet prog := λ A a, Done a.
#[export] Instance prog_bind : MBind prog := fix bind A B f p :=
  match p with
  | Done a => f a
  | Read reg k => Read reg (λ v, bind A B f (k v))
  | Write reg value k => Write reg value (bind A B f k)
  | Stop => Stop
  end.
Definition read32 (reg : Z) : prog Z := Read reg (λ v, Done (u32 v)).
Definition write32 (reg value : Z) : prog unit := Write reg value (Done tt).

(** A bus, and a whole program on it. *)
Class Bus (B : Type) := {
  bus_read : B → Z → Z * B;
  bus_write : B → Z → Z → B;
}.
Fixpoint run_on {B A} `{!Bus B} (p : prog A) (b : B) : option A * B :=
  match p with
  | Done a => (Some a, b)
  | Read reg k => let '(v, b) := bus_read b reg in run_on (k v) b
  | Write reg value k => run_on k (bus_write b reg value)
  | Stop => (None, b)
  end.

(** hw_bus.hpp: the registers of one block of the FPGA. *)
Section hw_bus.
Context `{Platform} `{Fpga}.
Record HwBus := mk_HwBus { hb_fpga : fpga; block_base : Z; block_number : Z }.
#[export] Instance hw_bus : Bus HwBus := {|
  bus_read b reg :=
    let '(v, f) := Hardware.hw_read_register (hb_fpga b) (block_base b) (block_number b) (u32 reg) in
    (v, mk_HwBus f (block_base b) (block_number b));
  bus_write b reg v :=
    mk_HwBus (Hardware.hw_write_register (hb_fpga b) (block_base b) (block_number b) (u32 reg) v) (block_base b) (block_number b);
|}.
End hw_bus.

(** ** transport.hpp, mmio_transport.hpp *)

Definition kGenWidth : Z := 16.
Definition kGenMask : Z := Z.shiftl 1 kGenWidth - 1.
Record Reg := mk_Reg { start : Z; data : Z; commit_reg : Z; gen_reg : Z }.

Record MmioTransport := mk_transport { reg_ : Reg; expected_ : Z }.
Definition generation (t : MmioTransport) : prog Z := read32 (gen_reg (reg_ t)).
Definition resync (t : MmioTransport) : prog MmioTransport :=
  g ← read32 (gen_reg (reg_ t)); mret (mk_transport (reg_ t) (Z.land g kGenMask)).
(** The constructor. *)
Definition make_transport (reg : Reg) : prog MmioTransport := resync (mk_transport reg 0).

Fixpoint write_words (reg : Z) (f : list Z) : prog unit :=
  match f with [] => mret tt | w :: f => _ ← write32 reg w; write_words reg f end.
Definition stage (t : MmioTransport) (f : list Z) : prog unit :=
  _ ← write32 (start (reg_ t)) 0; write_words (data (reg_ t)) f.
(** The barriers order writes that the steps here order. *)
Definition commit (t : MmioTransport) : prog (Z * MmioTransport) :=
  _ ← write32 (commit_reg (reg_ t)) 0;
  let expected := Z.land (u32 (expected_ t + 1)) kGenMask in
  mret (expected, mk_transport (reg_ t) expected).

Inductive Swap := Confirmed | Pending | Reset.
Definition swap_of (g expected : Z) : Swap :=
  let d := to_signed 16 (Z.land (u32 (g - expected)) kGenMask) in
  if bool_decide (d = 0) then Confirmed else if bool_decide (d ≠ -1) then Reset else Pending.
(** [confirm], polling [max_polls] times more. *)
Fixpoint confirm (t : MmioTransport) (expected : Z) (max_polls : nat) : prog Swap :=
  g ← generation t;
  match swap_of g expected with
  | Pending => match max_polls with O => mret Pending | S n => confirm t expected n end
  | swap => mret swap
  end.

(** ** publisher.hpp *)

Definition kResyncAfter : Z := 16.
Record Publisher := mk_publisher {
  transport_ : MmioTransport;
  last_ : Z;
  pending_ : bool;
  dropped_ : Z;
  stalled_ : Z;
}.
Definition make_publisher (t : MmioTransport) : Publisher := mk_publisher t 0 false 0 0.

Section publish.
(** The size of a frame, and the lanes of a vector. *)
Context `{Platform} (N WIDTH : nat).

(** The part after the test: the bank is free, or taken to be. *)
Definition publish_frame (p : Publisher) (gains : list double) (q : QFormat) (mode : Rounding) : prog (option Z * Publisher) :=
  match quantise_into WIDTH gains q mode with
  | Ret scratch =>
      _ ← stage (transport_ p) scratch;
      '(last, t) ← commit (transport_ p);
      mret (Some last, mk_publisher t last true (dropped_ p) (stalled_ p))
  | _ => Stop
  end.
Definition set_stalled (p : Publisher) (t : MmioTransport) (stalled : Z) : Publisher :=
  mk_publisher t (last_ p) (pending_ p) (dropped_ p) stalled.
Definition resync_frame (p : Publisher) (gains : list double) (q : QFormat) (mode : Rounding) : prog (option Z * Publisher) :=
  t ← resync (transport_ p); publish_frame (set_stalled p t 0) gains q mode.

Definition publish (p : Publisher) (gains : list double) (q : QFormat) (mode : Rounding) : prog (option Z * Publisher) :=
  if bool_decide (length gains = N) then
    if pending_ p then
      swap ← confirm (transport_ p) (last_ p) 0;
      match swap with
      | Confirmed => publish_frame (set_stalled p (transport_ p) 0) gains q mode
      | Reset => resync_frame p gains q mode
      | Pending =>
          let stalled := ulong (stalled_ p + 1) in
          if bool_decide (stalled < kResyncAfter) then
            mret (None, mk_publisher (transport_ p) (last_ p) true (ulong (dropped_ p + 1)) stalled)
          else resync_frame p gains q mode
      end
    else publish_frame p gains q mode
  else Stop.
End publish.

(** The frame of this program: gain_abi.hpp. *)
Definition GainAbi_m : nat := 3.
Definition GainAbi_n_state : nat := 9.
Definition GainAbi_ref : nat := 6.
Definition GainAbi_phi : nat := 0.
Definition GainAbi_n_int : nat := (GainAbi_n_state + GainAbi_phi + GainAbi_m + GainAbi_ref + 1)%nat.
Definition kGainCount : nat := (GainAbi_m * GainAbi_n_int)%nat.

(** ** The FPGA: lqr_block.vhd, bram_buffer.vhd, bram_store.vhd *)

(** [ceil_log2(GAIN_CNT)] bits address a bank. *)
Definition GAIN_ADDR_W : Z := Z.log2_up (Z.of_nat kGainCount).
Definition BANK_WORDS : nat := Z.to_nat (2 ^ GAIN_ADDR_W).
Definition GEN_W : Z := 16.
Definition NUM_BUFFERS : nat := 2.

Record bank := mk_bank {
  cnt : Z;
  wr_addr : Z;
  wr_data : Z;
  wr_en : bool;
  active_buf : nat;
  swap_pending : bool;
  gen : Z;
  rams : list (list Z);
}.
(** What is on the strobes at a clock. *)
Inductive strobe := No_strobe | GAINS_START_WSTB | GAINS_DATA_WSTB (value : Z) | COMMIT_WSTB.
Definition write_buff (b : bank) : nat := (active_buf b + 1) mod NUM_BUFFERS.

(** The processes, at a rising edge: every signal from the values before it. *)
Definition fill_fsm (b : bank) (init : bool) (s : strobe) : Z * Z * Z * bool :=
  match init, s with
  | true, _ | _, GAINS_START_WSTB => (0, wr_addr b, wr_data b, false)
  | _, GAINS_DATA_WSTB v => ((cnt b + 1) mod 2 ^ GAIN_ADDR_W, cnt b, v, true)
  | _, _ => (cnt b, wr_addr b, wr_data b, false)
  end.
Definition store (b : bank) : list (list Z) :=
  if wr_en b then alter (λ ram, <[Z.to_nat (wr_addr b) := wr_data b]> ram) (write_buff b) (rams b) else rams b.
Definition swap_logic (b : bank) (init commit pass_start : bool) : nat * bool * Z :=
  if init then ((NUM_BUFFERS - 1)%nat, false, 0)
  else if pass_start && swap_pending b then (write_buff b, false, (gen b + 1) mod 2 ^ GEN_W)
  else (active_buf b, commit || swap_pending b, gen b).
Definition rising_edge (b : bank) (init pass_start : bool) (s : strobe) : bank :=
  let '(cnt, wr_addr, wr_data, wr_en) := fill_fsm b init s in
  let '(active, pending, gen) := swap_logic b init (match s with COMMIT_WSTB => true | _ => false end) pass_start in
  mk_bank cnt wr_addr wr_data wr_en active pending gen (store b).

(** The bank the controller computes with. *)
Definition active_ram (b : bank) : list Z := rams b !!! active_buf b.

(** ** The bridge: lqr_bridge.cpp *)

(** What a turn of [bridge_loop] keeps; what the window of the state holds at the turn is
    given: [peek_stamp], and the stamp of the snapshot if there is one. *)
Definition kReadFailReport : Z := 8.
Record loop_state := mk_loop {
  publisher : Publisher;
  last_stamp : Z;
  published : Z;
  dropped : Z;
  read_fail : Z;
}.
Section bridge_loop.
Context `{Platform} (N WIDTH : nat).
(** [solve] of the optimiser, for the snapshot. *)
Definition bridge_turn {S : Type} (solve : S → list double) (export_status : Z) (l : loop_state) (peek : Z) (snapshot : option (Z * S))
    : prog loop_state :=
  if bool_decide (peek = last_stamp l) then mret l
  else
    match snapshot with
    | None =>
        let fails := ulong (read_fail l + 1) in
        if bool_decide (kReadFailReport ≤ fails) then
          _ ← read32 export_status;
          mret (mk_loop (publisher l) (last_stamp l) (published l) (dropped l) 0)
        else mret (mk_loop (publisher l) (last_stamp l) (published l) (dropped l) fails)
    | Some (stamp, op) =>
        '(g, p) ← publish N WIDTH (publisher l) (solve op) gain_q HalfAway;
        mret (mk_loop p stamp (if g : option Z then ulong (published l + 1) else published l)
                (if g : option Z then dropped l else ulong (dropped l + 1)) 0)
    end.
End bridge_loop.

End GainBridge.
