(* ===== verification/GainBridgeSpec.v ===== *)
(** * What the bridge of the gains guarantees

    The bridge and the FPGA interleaved: each clock of the FPGA is a step, with an access
    of the bridge or without, and a pass of the controller may start at any of them.
    Ghost state keeps the frames that were committed and counts the swaps.  The numbers
    of a frame are those of this program, so are the widths of the FPGA. *)

From S2P Require Import Prelude StdDev Quantise GainBridge.
From Stdlib Require Import FunctionalExtensionality.
From stdpp Require Import base numbers list option relations.
Open Scope Z_scope.

Module GainBridgeSpec.
Import Double Quantise GainBridge.

Section bridge.
Context `{Platform} (WIDTH : nat) (reg : Reg).
Abbreviation N := kGainCount.

Record system := mk_system {
  hw : bank;
  pub : Publisher;
  running : option (prog (option Z * Publisher));
  current : list Z;            (* ghost: the frame being published *)
  frames : list (list Z);      (* ghost: those committed *)
  swaps : nat;                 (* ghost *)
  resynced : bool;             (* ghost: the bridge took the bank without a confirmation *)
}.

(** What a write to a register is to the block, and what a read gives. *)
Definition strobe_of (r value : Z) : strobe :=
  if bool_decide (r = start reg) then GAINS_START_WSTB
  else if bool_decide (r = data reg) then GAINS_DATA_WSTB value
  else if bool_decide (r = commit_reg reg) then COMMIT_WSTB
  else No_strobe.
Definition is_commit (s : strobe) : bool := match s with COMMIT_WSTB => true | _ => false end.
Definition read_of (b : bank) (r : Z) : Z := if bool_decide (r = gen_reg reg) then gen b else 0.
(** The answer to the first read of [publish] makes it take the bank. *)
Definition takes_bank (p : Publisher) (g : Z) : bool :=
  match swap_of (u32 g) (last_ p) with
  | Confirmed => false
  | Reset => true
  | Pending => bool_decide (kResyncAfter ≤ ulong (stalled_ p + 1))
  end.

(** A clock, with what it is to the ghost state. *)
Definition clocked (s : system) (pass_start : bool) (st : strobe) (r : option (prog (option Z * Publisher))) (taken : bool) : system :=
  mk_system (rising_edge (hw s) false pass_start st) (pub s) r (current s)
    (if is_commit st then frames s ++ [current s] else frames s)
    (if pass_start && swap_pending (hw s) then S (swaps s) else swaps s) (resynced s || taken).

Inductive step : system → system → Prop :=
  | step_clock s pass_start : step s (clocked s pass_start No_strobe (running s) false)
  | step_read s pass_start r k :
      running s = Some (Read r k) →
      step s (clocked s pass_start No_strobe (Some (k (read_of (hw s) r))) (takes_bank (pub s) (read_of (hw s) r)))
  | step_write s pass_start r v k :
      running s = Some (Write r v k) → step s (clocked s pass_start (strobe_of r v) (Some k) false)
  | step_publish s gains frame :
      running s = None → length gains = N → quantise_into WIDTH gains gain_q HalfAway = Ret frame →
      step s (mk_system (hw s) (pub s) (Some (publish N WIDTH (pub s) gains gain_q HalfAway)) frame (frames s) (swaps s) (resynced s))
  | step_return s r p :
      running s = Some (Done (r, p)) → step s (mk_system (hw s) p None (current s) (frames s) (swaps s) (resynced s)).

(** The FPGA when the bridge starts: no swap is due. *)
Record bank_ok (b : bank) : Prop := {
  ok_active : (active_buf b < NUM_BUFFERS)%nat;
  ok_rams : length (rams b) = NUM_BUFFERS;
  ok_words : Forall (λ ram, length ram = BANK_WORDS) (rams b);
  ok_gen : 0 ≤ gen b < 2 ^ GEN_W;
}.
Definition started (b : bank) : system :=
  mk_system b (make_publisher (mk_transport reg (Z.land (u32 (gen b)) kGenMask))) None [] [] 0 false.
Definition initial (b : bank) : Prop := bank_ok b ∧ swap_pending b = false ∧ wr_en b = false.
Definition reachable (b : bank) : system → Prop := rtc step (started b).

(** The frame in use after so many swaps. *)
Definition shown (b : bank) (s : system) (n : nat) : list Z := (take N (active_ram b) :: frames s) !!! n.

(** ** The double buffer *)

(** The bank that is filled, with the word on its way to it. *)
Definition inactive (b : bank) : list Z := store b !!! write_buff b.

Lemma write_buff_other b : (active_buf b < NUM_BUFFERS)%nat → write_buff b ≠ active_buf b ∧ (write_buff b < NUM_BUFFERS)%nat.
Proof. unfold write_buff, NUM_BUFFERS. destruct (active_buf b) as [|[|?]]; cbn; lia. Qed.
Lemma store_other b i : i ≠ write_buff b → store b !!! i = rams b !!! i.
Proof. intros Hi. unfold store. destruct (wr_en b); [|done]. by rewrite list_lookup_total_alter_ne. Qed.
Lemma store_length b : length (store b) = length (rams b).
Proof. unfold store. destruct (wr_en b); [|done]. apply length_alter. Qed.
Lemma store_words b : bank_ok b → Forall (λ ram, length ram = BANK_WORDS) (store b).
Proof.
  intros Hb. unfold store. destruct (wr_en b); [|by apply Hb]. apply Forall_alter; [by apply Hb|].
  intros ram _ Hr. by rewrite length_insert.
Qed.
Lemma ram_length b i : bank_ok b → (i < NUM_BUFFERS)%nat → length (store b !!! i) = BANK_WORDS.
Proof.
  intros Hb Hi. apply (Forall_lookup_total_1 (λ ram, length ram = BANK_WORDS)); [by apply store_words|].
  rewrite store_length, (ok_rams _ Hb). done.
Qed.

Lemma rams_edge b pass_start st : rams (rising_edge b false pass_start st) = store b.
Proof. unfold rising_edge. by destruct (fill_fsm b false st) as [[[??]?]?], (swap_logic b false _ pass_start) as [[??]?]. Qed.
Lemma active_edge b pass_start st :
  active_buf (rising_edge b false pass_start st) = if pass_start && swap_pending b then write_buff b else active_buf b.
Proof. unfold rising_edge, swap_logic. destruct (fill_fsm b false st) as [[[??]?]?], (pass_start && swap_pending b); done. Qed.
Lemma gen_edge b pass_start st :
  gen (rising_edge b false pass_start st) = if pass_start && swap_pending b then (gen b + 1) mod 2 ^ GEN_W else gen b.
Proof. unfold rising_edge, swap_logic. destruct (fill_fsm b false st) as [[[??]?]?], (pass_start && swap_pending b); done. Qed.
Lemma pending_edge b pass_start st :
  swap_pending (rising_edge b false pass_start st) = if pass_start && swap_pending b then false else is_commit st || swap_pending b.
Proof. unfold rising_edge, swap_logic. destruct (fill_fsm b false st) as [[[??]?]?], (pass_start && swap_pending b), st; done. Qed.
Lemma enable_edge b pass_start st :
  wr_en (rising_edge b false pass_start st) = match st with GAINS_DATA_WSTB _ => true | _ => false end.
Proof. unfold rising_edge, fill_fsm. destruct (swap_logic b false _ pass_start) as [[??]?]. by destruct st. Qed.
Lemma cnt_edge b pass_start st :
  cnt (rising_edge b false pass_start st) =
    match st with GAINS_START_WSTB => 0 | GAINS_DATA_WSTB _ => (cnt b + 1) mod 2 ^ GAIN_ADDR_W | _ => cnt b end.
Proof. unfold rising_edge, fill_fsm. destruct (swap_logic b false _ pass_start) as [[??]?]. by destruct st. Qed.
Lemma word_edge b pass_start v :
  let b' := rising_edge b false pass_start (GAINS_DATA_WSTB v) in wr_addr b' = cnt b ∧ wr_data b' = v.
Proof. intros b'. unfold b', rising_edge, fill_fsm. by destruct (swap_logic b false _ pass_start) as [[??]?]. Qed.

Lemma bank_edge b pass_start st : bank_ok b → bank_ok (rising_edge b false pass_start st).
Proof.
  intros Hb. destruct (write_buff_other b (ok_active _ Hb)) as [_ Hw]. split.
  - rewrite active_edge. destruct (_ && _); [done|apply Hb].
  - by rewrite rams_edge, store_length, (ok_rams _ Hb).
  - rewrite rams_edge. by apply store_words.
  - rewrite gen_edge. destruct (_ && _); [by apply Z.mod_pos_bound|apply Hb].
Qed.
Lemma inactive_length b : bank_ok b → length (inactive b) = BANK_WORDS.
Proof. intros Hb. apply ram_length; [done|]. by apply write_buff_other, Hb. Qed.
(** A swap puts the bank that was filled in the place of the other. *)
Lemma active_ram_edge b pass_start st : bank_ok b →
  active_ram (rising_edge b false pass_start st) = if pass_start && swap_pending b then inactive b else active_ram b.
Proof.
  intros Hb. unfold active_ram. rewrite rams_edge, active_edge. destruct (_ && _); [done|].
  apply store_other. by apply not_eq_sym, write_buff_other, Hb.
Qed.
(** Without one a word goes to where the counter is. *)
Lemma inactive_edge b pass_start st : bank_ok b → pass_start && swap_pending b = false →
  inactive (rising_edge b false pass_start st) =
    match st with GAINS_DATA_WSTB v => <[Z.to_nat (cnt b) := v]> (inactive b) | _ => inactive b end.
Proof.
  intros Hb Hp. assert (write_buff (rising_edge b false pass_start st) = write_buff b) as Hw.
  { unfold write_buff at 1. by rewrite active_edge, Hp. }
  unfold inactive. rewrite Hw. unfold store at 1. rewrite enable_edge, rams_edge, Hw. destruct st as [| |v|]; [done|done| |done].
  destruct (word_edge b pass_start v) as [-> ->]. apply list_lookup_total_alter_eq.
  rewrite store_length, (ok_rams _ Hb). by apply write_buff_other, Hb.
Qed.

(** ** The invariant *)

Section invariant.
Context (b0 : bank) (Hb0 : initial b0).
Hypothesis Hreg : NoDup [start reg; data reg; commit_reg reg; gen_reg reg].

Definition words_of (ram : list Z) : list Z := take N ram.
Definition tag (n : nat) : Z := (gen b0 + Z.of_nat n) mod 2 ^ GEN_W.

(** What the encoder makes of gains. *)
Definition is_frame (f : list Z) : Prop := ∃ gains, length gains = N ∧ quantise_into WIDTH gains gain_q HalfAway = Ret f.
Lemma frame_length f : is_frame f → length f = N.
Proof. intros (gains & <- & E). by eapply quantise_into_length. Qed.

Record common (s : system) : Prop := {
  c_bank : bank_ok (hw s);
  c_tag : gen (hw s) = tag (swaps s);
  c_frames : Forall is_frame (frames s);
  c_active : words_of (active_ram (hw s)) = shown b0 s (swaps s);
}.

(** No word is on its way, and the last frame is in use or waits for a pass. *)
Definition settled (s : system) : Prop :=
  wr_en (hw s) = false ∧
  if swap_pending (hw s) then length (frames s) = S (swaps s) ∧ words_of (inactive (hw s)) = shown b0 s (length (frames s))
  else length (frames s) = swaps s.
Record pub_ok (n : nat) (p : Publisher) : Prop := {
  p_reg : reg_ (transport_ p) = reg;
  p_expected : expected_ (transport_ p) = tag n;
  p_pending : pending_ p = bool_decide (0 < n)%nat;
  p_last : pending_ p = true → last_ p = tag n;
}.

(** What is left of [publish] once the words from [k] on have still to be written. *)
Definition finish (p : Publisher) : prog (option Z * Publisher) :=
  '(last, t) ← commit (transport_ p); mret (Some last, mk_publisher t last true (dropped_ p) (stalled_ p)).
Definition from_word (p : Publisher) (words : list Z) : prog (option Z * Publisher) :=
  _ ← write_words (data reg) words; finish p.

(** Where [publish] is. *)
Inductive progress (s : system) : prog (option Z * Publisher) → Prop :=
  | at_confirm gains :
      settled s → pub_ok (length (frames s)) (pub s) → pending_ (pub s) = true →
      length gains = N → quantise_into WIDTH gains gain_q HalfAway = Ret (current s) →
      progress s (publish N WIDTH (pub s) gains gain_q HalfAway)
  | at_start p :
      wr_en (hw s) = false → swap_pending (hw s) = false → length (frames s) = swaps s → pub_ok (length (frames s)) p →
      is_frame (current s) → progress s (Write (start reg) 0 (from_word p (current s)))
  | at_word p k :
      swap_pending (hw s) = false → length (frames s) = swaps s → pub_ok (length (frames s)) p → is_frame (current s) →
      (k ≤ N)%nat → cnt (hw s) = Z.of_nat k → take k (inactive (hw s)) = take k (current s) →
      progress s (from_word p (drop k (current s)))
  | at_end r p : settled s → pub_ok (length (frames s)) p → progress s (Done (r, p)).

Definition inv (s : system) : Prop :=
  resynced s = false →
  common s ∧
  match running s with
  | None => settled s ∧ pub_ok (length (frames s)) (pub s)
  | Some r => progress s r
  end.

Lemma tag_range n : 0 ≤ tag n < 2 ^ GEN_W.
Proof. apply Z.mod_pos_bound. done. Qed.
Lemma tag_next n : (tag n + 1) mod 2 ^ GEN_W = tag (S n).
Proof. unfold tag. rewrite Zplus_mod_idemp_l. f_equal. lia. Qed.
Lemma tag_differs n : tag n ≠ tag (S n).
Proof.
  rewrite <-tag_next. pose proof (tag_range n) as Hr. unfold GEN_W in *. intros E.
  destruct (decide (tag n = 2 ^ 16 - 1)) as [E1|]; [rewrite E1 in E; by vm_compute in E|].
  rewrite Z.mod_small in E; lia.
Qed.

(** The test of the publisher, on a tag that is the last one or the one before. *)
Lemma swap_same n : swap_of (u32 (tag n)) (tag n) = Confirmed.
Proof.
  pose proof (tag_range n). unfold GEN_W in *. unfold swap_of. rewrite (wrap_small 32 (tag n)) by lia. by rewrite Z.sub_diag.
Qed.
Lemma swap_before n : swap_of (u32 (tag n)) (tag (S n)) = Pending.
Proof.
  pose proof (tag_range n) as Hr. rewrite <-tag_next. unfold GEN_W in *. unfold swap_of. rewrite (wrap_small 32 (tag n)) by lia.
  destruct (decide (tag n = 2 ^ 16 - 1)) as [->|]; [reflexivity|].
  rewrite (Z.mod_small (tag n + 1)) by lia. by replace (tag n - (tag n + 1)) with (-1) by lia.
Qed.

(** A clock at which no frame is committed keeps what is common. *)
Lemma shown_app n f s s' : (n ≤ length (frames s))%nat → frames s' = frames s ++ f → shown b0 s' n = shown b0 s n.
Proof.
  intros Hn E. unfold shown. rewrite E, app_comm_cons. apply lookup_total_app_l. cbn. lia.
Qed.
Lemma common_clock s pass_start st r taken : common s → (swaps s ≤ length (frames s))%nat →
  (is_commit st = true → is_frame (current s)) →
  (swap_pending (hw s) = true → length (frames s) = S (swaps s) ∧ words_of (inactive (hw s)) = shown b0 s (length (frames s))) →
  common (clocked s pass_start st r taken).
Proof.
  intros [Hb Ht Hf Ha] Hle Hc Hp. set (s' := clocked _ _ _ _ _).
  assert (∃ f, frames s' = frames s ++ f) as [f Ef] by (cbn; destruct (is_commit st); [by eexists|exists []; by rewrite app_nil_r]).
  split; unfold s'; cbn [clocked hw frames swaps].
  - by apply bank_edge.
  - rewrite gen_edge. destruct (pass_start && swap_pending (hw s)); [by rewrite Ht, tag_next|done].
  - destruct (is_commit st); [|done]. apply Forall_app. auto.
  - rewrite active_ram_edge by done. fold s'. destruct (pass_start && swap_pending (hw s)) eqn:E.
    + apply andb_prop in E as [_ E]. destruct (Hp E) as [El Ew]. rewrite Ew, El. symmetry. apply (shown_app _ f); [lia|done].
    + rewrite Ha. symmetry. by apply (shown_app _ f).
Qed.

Lemma settled_pending s : settled s → swap_pending (hw s) = true →
  length (frames s) = S (swaps s) ∧ words_of (inactive (hw s)) = shown b0 s (length (frames s)).
Proof. intros [_ Hs] E. by rewrite E in Hs. Qed.
Lemma settled_swaps s : settled s → (swaps s ≤ length (frames s))%nat.
Proof. intros [_ Hs]. destruct (swap_pending (hw s)); [destruct Hs|]; lia. Qed.
Lemma settled_clock s pass_start r taken : common s → settled s → settled (clocked s pass_start No_strobe r taken).
Proof.
  intros Hc [He Hs]. unfold settled. cbn [clocked hw frames swaps is_commit].
  rewrite enable_edge, pending_edge. split; [done|].
  destruct (pass_start && swap_pending (hw s)) eqn:E.
  - apply andb_prop in E as [_ E]. rewrite E in Hs. apply Hs.
  - cbn [is_commit orb]. rewrite inactive_edge by (apply Hc || done). done.
Qed.

(** ** The steps of the bridge *)

Lemma mask_tag n : Z.land (u32 (tag n + 1)) kGenMask = tag (S n).
Proof.
  pose proof (tag_range n). unfold GEN_W in *. rewrite (wrap_small 32) by lia. rewrite <-tag_next. by apply (Z.land_ones _ 16).
Qed.
Lemma publish_confirm p gains : pending_ p = true → length gains = N →
  publish N WIDTH p gains gain_q HalfAway = Read (gen_reg (reg_ (transport_ p))) (λ v,
    match swap_of (u32 v) (last_ p) with
    | Confirmed => publish_frame WIDTH (set_stalled p (transport_ p) 0) gains gain_q HalfAway
    | Reset => resync_frame WIDTH p gains gain_q HalfAway
    | Pending =>
        if bool_decide (ulong (stalled_ p + 1) < kResyncAfter) then
          Done (None, mk_publisher (transport_ p) (last_ p) true (ulong (dropped_ p + 1)) (ulong (stalled_ p + 1)))
        else resync_frame WIDTH p gains gain_q HalfAway
    end).
Proof.
  intros Hp Hl. unfold publish. rewrite bool_decide_true, Hp by done. cbn.
  f_equal. apply functional_extensionality. intros v. by destruct (swap_of _ _).
Qed.
Lemma publish_frame_start p gains frame : reg_ (transport_ p) = reg → quantise_into WIDTH gains gain_q HalfAway = Ret frame →
  publish_frame WIDTH p gains gain_q HalfAway = Write (start reg) 0 (from_word p frame).
Proof. intros Hr E. unfold publish_frame. rewrite E. unfold stage, from_word. rewrite Hr. done. Qed.

Lemma from_word_cons p w words : from_word p (w :: words) = Write (data reg) w (from_word p words).
Proof. done. Qed.
(** The publisher after the commit. *)
Definition committed (n : nat) (p : Publisher) : Publisher :=
  mk_publisher (mk_transport reg (tag (S n))) (tag (S n)) true (dropped_ p) (stalled_ p).
Lemma from_word_nil p n : pub_ok n p → from_word p [] = Write (commit_reg reg) 0 (Done (Some (tag (S n)), committed n p)).
Proof.
  intros [Hr He _ _]. unfold from_word, finish, commit, committed. cbn. rewrite Hr, He, mask_tag. done.
Qed.
Lemma committed_ok n p : pub_ok (S n) (committed n p).
Proof. by split. Qed.
Lemma pub_ok_same n p q : transport_ q = transport_ p → pending_ q = pending_ p → last_ q = last_ p → pub_ok n p → pub_ok n q.
Proof. intros Et Ep El [????]. split; rewrite ?Et, ?Ep, ?El; done. Qed.

Lemma strobe_start v : strobe_of (start reg) v = GAINS_START_WSTB.
Proof. unfold strobe_of. by rewrite bool_decide_true. Qed.
Lemma strobe_data v : strobe_of (data reg) v = GAINS_DATA_WSTB v.
Proof.
  unfold strobe_of. assert (data reg ≠ start reg) by (intros E; rewrite E in Hreg; apply NoDup_cons_1_1 in Hreg; set_solver).
  by rewrite bool_decide_false, bool_decide_true.
Qed.
Lemma strobe_commit v : strobe_of (commit_reg reg) v = COMMIT_WSTB.
Proof.
  unfold strobe_of. apply NoDup_cons in Hreg as [H1 Hreg']. apply NoDup_cons in Hreg' as [H2 _].
  rewrite (bool_decide_false (_ = start reg)), (bool_decide_false (_ = data reg)), bool_decide_true by set_solver. done.
Qed.

(** The clock at which [publish] reads GEN. *)
Lemma read_step s pass_start gains k :
  common s → settled s → pub_ok (length (frames s)) (pub s) → pending_ (pub s) = true →
  length gains = N → quantise_into WIDTH gains gain_q HalfAway = Ret (current s) →
  publish N WIDTH (pub s) gains gain_q HalfAway = Read (gen_reg reg) k →
  takes_bank (pub s) (read_of (hw s) (gen_reg reg)) = false →
  progress (clocked s pass_start No_strobe (Some (k (read_of (hw s) (gen_reg reg)))) false) (k (read_of (hw s) (gen_reg reg))).
Proof.
  intros Hc Hs Hp Hpend Hg Hq E. rewrite publish_confirm, (p_reg _ _ Hp) in E by done. injection E as <-.
  unfold takes_bank, read_of. rewrite bool_decide_true, (c_tag _ Hc), (p_last _ _ Hp) by done.
  pose proof (λ r taken, settled_clock s pass_start r taken Hc Hs) as Hs'. destruct Hs as [Hen Hs]. destruct (swap_pending (hw s)) eqn:Ew.
  - destruct Hs as [El _]. rewrite El, swap_before. intros Ht. rewrite bool_decide_true.
    + apply at_end; [apply Hs'|]. cbn [clocked frames is_commit].
      eapply pub_ok_same; [| | |exact Hp]; cbn; [done|by rewrite Hpend|by rewrite (p_last _ _ Hp), El].
    + apply bool_decide_eq_false in Ht. lia.
  - rewrite Hs, swap_same. intros _. rewrite (publish_frame_start _ _ (current s)); [|apply Hp|done].
    apply (at_start (clocked s pass_start No_strobe _ false)); cbn [clocked hw frames swaps current is_commit]; rewrite ?enable_edge, ?pending_edge, ?Ew, ?andb_false_r; try done;
      [by eapply pub_ok_same; [..|exact Hp]|by exists gains].
Qed.

(** The clock of a write. *)
Lemma write_step s pass_start r v k p : common s → progress s p → p = Write r v k →
  common (clocked s pass_start (strobe_of r v) (Some k) false) ∧ progress (clocked s pass_start (strobe_of r v) (Some k) false) k.
Proof.
  intros Hc [gains Hs Hp Hpend Hg _|p' Hen Hw El Hp Hf|p' i Hw El Hp Hf Hi Hcnt Hin|? ? _ _] E; [|injection E as <- <- <-| |done];
    try pose proof (frame_length _ Hf) as Hcur.
  { by rewrite publish_confirm in E. }
  - rewrite strobe_start. split; [apply common_clock; [done|lia|done|congruence]|].
    apply (at_word (clocked s pass_start GAINS_START_WSTB _ false) p' 0); cbn [clocked hw frames swaps current is_commit];
      rewrite ?pending_edge, ?cnt_edge, ?Hw, ?andb_false_r; done || lia.
  - destruct (decide (i = N)) as [->|Hne].
    + rewrite drop_ge, (from_word_nil _ _ Hp) in E by lia. injection E as <- <- <-. rewrite strobe_commit.
      split; [apply common_clock; [done|lia|done|congruence]|]. apply at_end; cbn [clocked frames is_commit];
        [|rewrite length_app, Nat.add_1_r; apply committed_ok].
      unfold settled. cbn [clocked hw frames swaps is_commit]. rewrite enable_edge, pending_edge, Hw, andb_false_r, length_app, Nat.add_1_r.
      cbn [is_commit orb]. split_and!; [done|lia|]. rewrite inactive_edge by (apply Hc || by rewrite Hw, andb_false_r).
      unfold words_of, shown. cbn [clocked frames is_commit]. rewrite Hin, app_comm_cons, lookup_total_app_r by (cbn; lia).
      rewrite firstn_all2 by lia. cbn [length]. by rewrite Nat.sub_diag.
    + destruct (lookup_lt_is_Some_2 (current s) i) as [w Ew]; [lia|]. rewrite (drop_S _ _ _ Ew), from_word_cons in E.
      injection E as <- <- <-. rewrite strobe_data. split; [apply common_clock; [done|lia|done|congruence]|].
      apply (at_word (clocked s pass_start (GAINS_DATA_WSTB w) _ false) p' (S i)); cbn [clocked hw frames swaps current is_commit];
        rewrite ?pending_edge, ?cnt_edge, ?Hcnt, ?Hw, ?andb_false_r; try (done || lia).
      * rewrite Z.mod_small; [lia|]. split; [lia|]. change (2 ^ GAIN_ADDR_W) with 64. unfold N in *. cbn in *. lia.
      * rewrite inactive_edge by (apply Hc || by rewrite Hw, andb_false_r). rewrite Hcnt, Nat2Z.id.
        assert (i < length (inactive (hw s)))%nat by (rewrite inactive_length by apply Hc; vm_compute; vm_compute in Hi; lia).
        erewrite take_S_r; [|by apply list_lookup_insert_eq].
        rewrite take_insert_ge, Hin by lia. symmetry. by apply take_S_r.
Qed.

Lemma progress_swaps s p : progress s p → (swaps s ≤ length (frames s))%nat.
Proof. intros [gains Hs|? ? ?|? ? ?|? ? Hs]; [by apply settled_swaps|lia|lia|by apply settled_swaps]. Qed.
Lemma progress_pending s p : progress s p → swap_pending (hw s) = true →
  length (frames s) = S (swaps s) ∧ words_of (inactive (hw s)) = shown b0 s (length (frames s)).
Proof. intros [gains Hs|? ? ?|? ? ?|? ? Hs] E; [by apply settled_pending|congruence|congruence|by apply settled_pending]. Qed.

(** A clock without an access. *)
Lemma clock_progress s pass_start p taken : common s → progress s p → progress (clocked s pass_start No_strobe (Some p) taken) p.
Proof.
  intros Hc [gains Hs Hp Hpend Hg Hq|p' Hen Hw El Hp Hcur|p' i Hw El Hp Hcur Hi Hcnt Hin|r p' Hs Hp].
  - apply (at_confirm (clocked s pass_start No_strobe _ taken)); try done. by apply settled_clock.
  - apply (at_start (clocked s pass_start No_strobe _ taken)); cbn [clocked hw frames swaps is_commit];
      rewrite ?enable_edge, ?pending_edge, ?Hw, ?andb_false_r; done.
  - apply (at_word (clocked s pass_start No_strobe _ taken)); cbn [clocked hw frames swaps is_commit];
      rewrite ?pending_edge, ?cnt_edge, ?Hw, ?andb_false_r; try done.
    by rewrite inactive_edge by (apply Hc || by rewrite Hw, andb_false_r).
  - apply at_end; [by apply settled_clock|done].
Qed.

(** A call of [publish]. *)
Lemma publish_step s gains frame r : settled s → pub_ok (length (frames s)) (pub s) → length gains = N →
  quantise_into WIDTH gains gain_q HalfAway = Ret frame →
  progress (mk_system (hw s) (pub s) r frame (frames s) (swaps s) (resynced s)) (publish N WIDTH (pub s) gains gain_q HalfAway).
Proof.
  intros Hs Hp Hg Hq. set (s' := mk_system _ _ _ _ _ _ _). destruct (pending_ (pub s)) eqn:Ep; [by apply (at_confirm s' gains)|].
  assert (frames s = []) as Ef.
  { rewrite (p_pending _ _ Hp) in Ep. apply bool_decide_eq_false in Ep. apply nil_length_inv. lia. }
  destruct Hs as [Hen Hs]. rewrite Ef in *. destruct (swap_pending (hw s)) eqn:Ew; [destruct Hs; cbn in *; lia|].
  unfold publish. rewrite bool_decide_true, Ep, (publish_frame_start _ _ frame) by (done || apply Hp).
  apply (at_start s'); cbn [s' hw frames swaps pub current]; rewrite ?Ef; try done. by exists gains.
Qed.

Lemma bridge_step_inv s s' : step s s' → inv s → inv s'.
Proof.
  intros Hstep Hi Hr'. destruct Hstep as [s pass|s pass r k Er|s pass r v k Er|s gains frame Er Hg Hq|s r p Er].
  - cbn in Hr'. rewrite orb_false_r in Hr'. destruct (Hi Hr') as [Hc Hrun]. cbn [clocked running].
    destruct (running s) as [p|].
    + split; [|by apply clock_progress]. apply common_clock; [done|by eapply progress_swaps|done|by apply (progress_pending s p)].
    + destruct Hrun as [Hs Hp]. split; [apply common_clock; [done|by apply settled_swaps|done|by apply settled_pending]|].
      split; [by apply settled_clock|done].
  - cbn in Hr'. apply orb_false_iff in Hr' as [Hr Ht]. destruct (Hi Hr) as [Hc Hrun]. rewrite Er in Hrun. cbn [clocked running].
    pose proof (progress_swaps _ _ Hrun). pose proof (progress_pending _ _ Hrun).
    remember (Read r k) as q eqn:Eq. destruct Hrun as [gains Hs Hp Hpend Hg Hq|p' Hen Hw El Hp Hcur|p' i Hw El Hp Hcur Hi' Hcnt Hin|? ? _ _].
    + assert (r = gen_reg reg) as -> by (rewrite publish_confirm, (p_reg _ _ Hp) in Eq by done; by injection Eq).
      rewrite Ht. split; [by apply common_clock|by eapply read_step].
    + done.
    + destruct (drop i (current s)); [by rewrite (from_word_nil _ _ Hp) in Eq|by rewrite from_word_cons in Eq].
    + done.
  - cbn in Hr'. rewrite orb_false_r in Hr'. destruct (Hi Hr') as [Hc Hrun]. rewrite Er in Hrun.
    by eapply write_step.
  - destruct (Hi Hr') as [Hc Hrun]. rewrite Er in Hrun. destruct Hrun as [Hs Hp].
    split; [by destruct Hc|]. by apply publish_step.
  - destruct (Hi Hr') as [Hc Hrun]. rewrite Er in Hrun. split; [by destruct Hc|].
    remember (Done (r, p)) as q eqn:Eq. destruct Hrun as [gains Hs Hp Hpend Hg Hq|p' Hen Hw El Hp Hcur|p' i Hw El Hp Hcur Hi' Hcnt Hin|r' p' Hs Hp].
    + by rewrite publish_confirm in Eq.
    + done.
    + destruct (drop i (current s)); [by rewrite (from_word_nil _ _ Hp) in Eq|by rewrite from_word_cons in Eq].
    + injection Eq as -> ->. by split.
Qed.

Lemma started_inv : inv (started b0).
Proof.
  destruct Hb0 as (Hok & Hw & He). intros _. split; [split|split]; cbn [started hw frames swaps running]; try done.
  - unfold tag. rewrite Z.add_0_r, Z.mod_small; [done|apply Hok].
  - unfold settled. cbn. by rewrite Hw.
  - split; cbn; [done| |done|done]. unfold tag. rewrite Z.add_0_r. pose proof (ok_gen _ Hok). unfold GEN_W in *.
    rewrite wrap_small by lia. apply (Z.land_ones _ 16). done.
Qed.
Lemma bridge_inv s : reachable b0 s → inv s.
Proof.
  intros Hr. revert Hr. apply (rtc_ind_r (λ s, inv s)); [apply started_inv|]. intros ? ? _ Hs. by apply bridge_step_inv.
Qed.

Lemma progress_bound s p : progress s p → (length (frames s) ≤ S (swaps s))%nat.
Proof.
  assert (settled s → (length (frames s) ≤ S (swaps s))%nat) as Hs.
  { intros [_ Hs]. destruct (swap_pending (hw s)); [destruct Hs|]; lia. }
  intros [gains ?|? ? ?|? ? ?|? ? ?]; [auto|lia|lia|auto].
Qed.
Lemma confirm_answer s : common s → settled s → pub_ok (length (frames s)) (pub s) → pending_ (pub s) = true →
  swap_of (u32 (gen (hw s))) (last_ (pub s)) = if bool_decide (swaps s = length (frames s)) then Confirmed else Pending.
Proof.
  intros Hc [_ Hs] Hp Hpend. rewrite (c_tag _ Hc), (p_last _ _ Hp Hpend). destruct (swap_pending (hw s)).
  - destruct Hs as [-> _]. rewrite bool_decide_false by lia. apply swap_before.
  - rewrite Hs, bool_decide_true by done. apply swap_same.
Qed.

End invariant.

(** C3: As long as the bridge never took the bank without a confirmation, the controller
    always computes with the gains of one whole frame: that of the swap last made, which
    is the last one or the one before, at the clocks of a pass the same.  The generation
    read back counts the swaps, and the publisher that asks is told that its frame is in
    use exactly when it is. *)
Theorem frames_never_torn b s :
  initial b → NoDup [start reg; data reg; commit_reg reg; gen_reg reg] → reachable b s → resynced s = false →
  take N (active_ram (hw s)) = shown b s (swaps s) ∧ Forall is_frame (frames s) ∧
  (swaps s ≤ length (frames s) ≤ S (swaps s))%nat ∧
  gen (hw s) = (gen b + Z.of_nat (swaps s)) mod 2 ^ GEN_W ∧
  (∀ st, active_ram (rising_edge (hw s) false false st) = active_ram (hw s)) ∧
  (running s = None → pending_ (pub s) = true →
   swap_of (u32 (gen (hw s))) (last_ (pub s)) = if bool_decide (swaps s = length (frames s)) then Confirmed else Pending).
Proof.
  intros Hb Hreg Hr Hs. destruct (bridge_inv b Hb Hreg s Hr Hs) as [Hc Hrun].
  assert (swaps s ≤ length (frames s) ≤ S (swaps s))%nat as Hn.
  { destruct (running s) as [p|]; [split; [by eapply progress_swaps|by eapply progress_bound]|].
    destruct Hrun as [[_ Hw] _]. destruct (swap_pending (hw s)); [destruct Hw|]; lia. }
  split_and!; [apply Hc|apply Hc|apply Hn|apply Hn|apply Hc| |].
  - intros st. rewrite active_ram_edge by apply Hc. done.
  - intros En. rewrite En in Hrun. destruct Hrun. by eapply confirm_answer.
Qed.

(** ** Runs *)

Inductive action := Clock (pass_start : bool) | Access (pass_start : bool) | Publish (gains : list double).
Definition act (s : system) (a : action) : option system :=
  match a with
  | Clock pass => Some (clocked s pass No_strobe (running s) false)
  | Access pass =>
      match running s with
      | Some (Read r k) =>
          Some (clocked s pass No_strobe (Some (k (read_of (hw s) r))) (takes_bank (pub s) (read_of (hw s) r)))
      | Some (Write r v k) => Some (clocked s pass (strobe_of r v) (Some k) false)
      | Some (Done (r, p)) => Some (mk_system (hw s) p None (current s) (frames s) (swaps s) (resynced s))
      | _ => None
      end
  | Publish gains =>
      match running s, quantise_into WIDTH gains gain_q HalfAway with
      | None, Ret frame =>
          if bool_decide (length gains = N) then
            Some (mk_system (hw s) (pub s) (Some (publish N WIDTH (pub s) gains gain_q HalfAway)) frame (frames s) (swaps s) (resynced s))
          else None
      | _, _ => None
      end
  end.
Fixpoint acts (s : system) (l : list action) : option system :=
  match l with [] => Some s | a :: l => s ← act s a; acts s l end.
Lemma taken_step s a s' : act s a = Some s' → step s s'.
Proof.
  destruct a as [pass|pass|gains]; cbn.
  - intros [= <-]. apply step_clock.
  - destruct (running s) as [[[r p]|r k|r v k|]|] eqn:E; [|intros [= <-]|intros [= <-]|done|done].
    + intros [= <-]. by eapply step_return.
    + by apply step_read.
    + by apply step_write.
  - destruct (running s) eqn:E; [done|]. destruct (quantise_into _ _ _ _) as [frame| |] eqn:Eq; [|done..].
    case_bool_decide; [|done]. intros [= <-]. by apply step_publish.
Qed.
Lemma acts_reachable b l s : acts (started b) l = Some s → reachable b s.
Proof.
  unfold reachable. generalize (started b). induction l as [|a l IH]; intros s0; cbn; [intros [= ->]; done|].
  destruct (act s0 a) as [s1|] eqn:E; [|done]. cbn. intros Hl. eapply rtc_l; [by eapply taken_step|by apply IH].
Qed.

Lemma acts_reach b l (P : system → Prop) :
  match acts (started b) l with Some s => P s | None => False end → ∃ s, reachable b s ∧ P s.
Proof. destruct (acts _ l) as [s|] eqn:E; [|done]. intros HP. exists s. split; [by eapply acts_reachable|done]. Qed.

End bridge.

Definition example_reg : Reg := mk_Reg 0 1 2 3.
Definition example_bank : bank := mk_bank 0 0 0 false 1 false 0 (replicate 2 (replicate BANK_WORDS 0)).
(** The gain [i] of a frame is [i + n], which is that many times 2^25. *)
Definition example_gains (n : Z) : list double := of_Z <$> seqZ n (Z.of_nat kGainCount).
Definition example_frame (n : Z) : list Z := (λ i, 2 ^ 25 * i) <$> seqZ n (Z.of_nat kGainCount).
Definition accesses (n : nat) : list action := replicate n (Access false).
(** A frame is published in 57 words between the start and the commit. *)
Definition example_run : list action := [Publish (example_gains 1)] ++ accesses 60 ++ [Clock true; Clock false].

Lemma example_bank_initial : initial example_bank.
Proof. split; [|done]. split; [cbn; unfold NUM_BUFFERS; lia|done|by repeat constructor|done]. Qed.
Lemma frames_never_torn_witness :
  ∃ s, @reachable ARM32 2 example_reg example_bank s ∧ resynced s = false ∧ frames s = [example_frame 1] ∧ swaps s = 1%nat ∧
    take kGainCount (active_ram (hw s)) = example_frame 1.
Proof.
  destruct (@acts_reach ARM32 2 example_reg example_bank example_run
    (λ s, resynced s = false ∧ frames s = [example_frame 1] ∧ swaps s = 1%nat)) as (s & Hr & Hs & Hf & Hn); [vm_compute; repeat split|].
  exists s. split_and!; [done..|].
  destruct (@frames_never_torn ARM32 2 example_reg example_bank s example_bank_initial ltac:(vm_compute; repeat constructor; set_solver) Hr Hs)
    as (Ha & _). rewrite Ha, Hn. unfold shown. by rewrite Hf.
Defined.

(** ** What goes wrong *)

(** The sixteenth call that finds the swap pending takes the bank all the same; a pass
    that starts meanwhile computes with the beginning of one frame and the end of
    another. *)
Definition stalled_run : list action :=
  [Publish (example_gains 1)] ++ accesses 60 ++ concat (replicate 15 (Publish (example_gains 3) :: accesses 2)) ++
  [Publish (example_gains 3)] ++ accesses 23 ++ [Clock true].
Lemma resync_tears_frame :
  ∃ s, @reachable ARM32 2 example_reg example_bank s ∧ frames s = [example_frame 1] ∧ swaps s = 1%nat ∧
    take kGainCount (active_ram (hw s)) = take 20 (example_frame 3) ++ drop 20 (example_frame 1).
Proof. apply (acts_reach _ _ _ stalled_run). vm_compute. repeat split. Qed.

(** INIT while a frame is written: the counter starts again, the rest of the frame goes to
    the beginning of the bank and is committed, and the generation is that which the
    publisher, started at 0, waits for. *)
Definition edges (b : bank) (l : list (bool * bool * strobe)) : bank :=
  foldl (λ b '(init, pass_start, st), rising_edge b init pass_start st) b l.
Definition words_on (f : list Z) : list (bool * bool * strobe) := (λ w, (false, false, GAINS_DATA_WSTB w)) <$> f.
Lemma init_tears_frame :
  let f := example_frame 1 in
  let b := edges example_bank ([(false, false, GAINS_START_WSTB)] ++ words_on (take 20 f) ++ [(true, false, No_strobe)] ++
             words_on (drop 20 f) ++ [(false, false, COMMIT_WSTB); (false, true, No_strobe)]) in
  take 37 (active_ram b) = drop 20 f ∧ gen b = 1 ∧ swap_of (gen b) 1 = Confirmed.
Proof. vm_compute. repeat split. Qed.

End GainBridgeSpec.
