(* ===== verification/StateExport.v ===== *)
(** * The state of the controller, from the FPGA to the bridge

    The FPGA writes a snapshot of its state to a window of memory at each tick, between
    two writes of a sequence number that is odd meanwhile (panda-fpga/modules/lqr/hdl,
    state_export.vhd); the bridge reads the window without a lock and takes what it read
    only if the number was even and is the same afterwards (include/lqrbridge/control).
    A program of the bridge is a sequence of accesses to the words of the window, the
    [prog] of GainBridge.  A response of the memory means that the writes of the burst
    are there; until then they may be made in any order. *)

From S2P Require Import Prelude GainBridge.
From Stdlib Require Import SpecFloat.
From stdpp Require Import base numbers list option relations fin_maps gmap.
Open Scope Z_scope.

Module StateExport.
Import GainBridge.

(** ** The layout: state_abi.hpp, state_abi.vhd *)

Definition word_bytes : Z := 4.
Definition beat_bytes : Z := 8.
Definition line_bytes : Z := 32.
Definition export_frac : Z := 6.
Definition seq_off : Z := 0.
Definition payload_off : Z := line_bytes.
Definition stamp_off : Z := payload_off.
Definition axis0_off : Z := payload_off + beat_bytes.
Definition axis_stride : Z := 16.
Definition pos_off : Z := 0.
Definition vel_off : Z := 4.
Definition setp_off : Z := 8.
Definition setv_off : Z := 12.
Definition axis_off (k : nat) : Z := axis0_off + Z.of_nat k * axis_stride.
Definition buffer_bytes (n_ax : Z) : Z :=
  let used := axis0_off + n_ax * axis_stride in (used + line_bytes - 1) / line_bytes * line_bytes.
(** The axes of this program. *)
Definition AXES : nat := 3.

(** ** The reader: seqlock_state_source.hpp *)

(** Single precision. *)
Definition float : Type := spec_float.
Definition float_of_int (x : Z) : float := binary_normalize 24 128 x 0 false.
Definition export_scale : float := SFdiv 24 128 (float_of_int 1) (float_of_int (Z.shiftl 1 export_frac)).

Record OperatingPoint := mk_op { op_stamp : Z; op_pos : list float; op_vel : list float; op_set_p : list float; op_set_v : list float }.
Record axis := mk_axis { ax_pos : float; ax_vel : float; ax_setp : float; ax_setv : float }.

Definition seq_i : Z := seq_off / word_bytes.
Definition stamp_i : Z := stamp_off / word_bytes.
Definition word (i : Z) : prog Z := Read i Done.

Section reader.
Context (scale : float).
Definition scaled (w : Z) : float := SFmul 24 128 (float_of_int (to_signed 32 w)) scale.
Definition to_float (i : Z) : prog float := w ← word i; mret (scaled w).
(** [decode]: the axes from [k] on. *)
Fixpoint decode (k n : nat) : prog (list axis) :=
  match n with
  | O => mret []
  | S n =>
      let a := axis_off k / word_bytes in
      pos ← to_float (a + pos_off / word_bytes);
      vel ← to_float (a + vel_off / word_bytes);
      setp ← to_float (a + setp_off / word_bytes);
      setv ← to_float (a + setv_off / word_bytes);
      rest ← decode (S k) n;
      mret (mk_axis pos vel setp setv :: rest)
  end.
Definition kMaxReadAttempts : nat := 8.
Fixpoint read_attempts (attempts : nat) : prog (option OperatingPoint) :=
  match attempts with
  | O => mret None
  | S attempts =>
      s1 ← word seq_i;
      if Z.odd s1 then read_attempts attempts
      else
        stamp ← word stamp_i;
        axes ← decode 0 AXES;
        s2 ← word seq_i;
        if bool_decide (s2 = s1) then
          mret (Some (mk_op stamp (ax_pos <$> axes) (ax_vel <$> axes) (ax_setp <$> axes) (ax_setv <$> axes)))
        else read_attempts attempts
  end.
Definition read : prog (option OperatingPoint) := read_attempts kMaxReadAttempts.
End reader.
Definition peek_stamp : prog Z := word stamp_i.
(** [bridge_loop] marks the window before it reads. *)
Definition mark_window : prog unit := _ ← write32 seq_i 1; write32 stamp_i 0.

(** ** The writer: state_export.vhd *)

Definition CHUNK : nat := 8.
Definition SEQ_BEATS : nat := Z.to_nat (line_bytes / beat_bytes).
Definition payload_words (axes : nat) : nat := 1 + 4 * axes.
Definition payload_beats (axes : nat) : nat :=
  let raw := ((payload_words axes + 2 - 1) / 2)%nat in
  ((raw + SEQ_BEATS - 1) / SEQ_BEATS * SEQ_BEATS)%nat.
Definition PAY_BEATS : nat := payload_beats AXES.

(** What a tick freezes, a word for each axis. *)
Record snapshot := mk_snapshot { pos_l : list Z; vel_l : list Z; setp_l : list Z; setv_l : list Z }.
Inductive state_t := IDLE | WR_SEQ_ODD | WR_PAYLOAD | WR_SEQ_EVEN.
#[export] Instance state_t_dec : EqDecision state_t.
Proof. solve_decision. Defined.
Record exporter := mk_exporter {
  fsm : state_t;
  seq : Z;
  stamp : Z;
  latched : snapshot;
  pay_ptr : nat;
}.
(** [IDLE] at a tick; at others the tick is an overrun, and nothing happens. *)
Definition tick (e : exporter) (s : snapshot) : exporter :=
  match fsm e with
  | IDLE => mk_exporter WR_SEQ_ODD (u32 (seq e + 1)) (u32 (stamp e + 1)) s 0
  | _ => e
  end.
Definition overrun (e : exporter) : bool := bool_decide (fsm e ≠ IDLE).
Definition chunk_beats (e : exporter) : nat := Nat.min CHUNK (PAY_BEATS - pay_ptr e).
(** The response to the burst. *)
Definition mst_done (e : exporter) : exporter :=
  match fsm e with
  | IDLE => e
  | WR_SEQ_ODD => mk_exporter WR_PAYLOAD (seq e) (stamp e) (latched e) (pay_ptr e)
  | WR_PAYLOAD =>
      if bool_decide (PAY_BEATS ≤ pay_ptr e + chunk_beats e)%nat then
        mk_exporter WR_SEQ_EVEN (u32 (seq e + 1)) (stamp e) (latched e) (pay_ptr e)
      else mk_exporter WR_PAYLOAD (seq e) (stamp e) (latched e) (pay_ptr e + chunk_beats e)
  | WR_SEQ_EVEN => mk_exporter IDLE (seq e) (stamp e) (latched e) (pay_ptr e)
  end.
(** [ctrl]: the address in the window and the beats of a burst. *)
Definition mst_addr (e : exporter) : Z :=
  match fsm e with WR_PAYLOAD => payload_off + Z.of_nat (pay_ptr e) * beat_bytes | _ => 0 end.
Definition mst_blen (e : exporter) : nat :=
  match fsm e with IDLE => 0 | WR_PAYLOAD => chunk_beats e | _ => SEQ_BEATS end.
(** [beat_mux]: the low and the high word of a beat. *)
Definition mst_wdata (e : exporter) (burst_beat : nat) : Z * Z :=
  match fsm e with
  | IDLE => (0, 0)
  | WR_PAYLOAD =>
      let g := (pay_ptr e + burst_beat)%nat in
      if bool_decide (g = 0)%nat then (stamp e, 0)
      else
        let a := ((g - 1) / 2)%nat in
        if bool_decide (AXES ≤ a)%nat then (0, 0)
        else if bool_decide ((g - 1) mod 2 = 0)%nat then (pos_l (latched e) !!! a, vel_l (latched e) !!! a)
        else (setp_l (latched e) !!! a, setv_l (latched e) !!! a)
  | _ => if bool_decide (burst_beat = 0)%nat then (seq e, 0) else (0, 0)
  end.
(** The words that a burst writes. *)
Definition burst (e : exporter) : list (Z * Z) :=
  concat ((λ beat : nat,
    let i := (mst_addr e + Z.of_nat beat * beat_bytes) / word_bytes in
    [(i, (mst_wdata e beat).1); (i + 1, (mst_wdata e beat).2)]) <$> List.seq 0 (mst_blen e)).

End StateExport.

(** ** What the bridge reads

    The exporter, the memory and the reader interleaved, from the reset of the FPGA.  Ghost
    state keeps the snapshots, counts the sequence numbers that reached the memory, those
    of them since the reader last read one, and notes when the window was marked. *)

Module StateExportSpec.
Import GainBridge StateExport.

Section spec.
Context (scale : float).

Inductive bridge := Marking (p : prog unit) | Waiting | Reading (p : prog (option OperatingPoint)).
Record system := mk_system {
  mem : gmap Z Z;
  ex : exporter;
  landing : list (Z * Z);     (* writes of the burst that are not there yet *)
  br : bridge;
  log : list snapshot;        (* ghost: what the ticks froze *)
  seqs : nat;                 (* ghost *)
  since : nat;                (* ghost *)
  slow : bool;                (* ghost: 2^32 of them during an attempt *)
  fresh : bool;               (* ghost: the number in memory is from the FPGA *)
  marked_at : nat;            (* ghost: the snapshots when the stamp was marked *)
}.
Definition snapshot_ok (s : snapshot) : Prop :=
  length (pos_l s) = AXES ∧ length (vel_l s) = AXES ∧ length (setp_l s) = AXES ∧ length (setv_l s) = AXES.

(** A write that reaches the memory. *)
Definition landed (s : system) (i v : Z) (rest : list (Z * Z)) : system :=
  let n := if bool_decide (i = seq_i) then 1%nat else 0%nat in
  mk_system (<[i := v]> (mem s)) (ex s) rest (br s) (log s) (seqs s + n) (since s + n)
    (slow s || bool_decide (2 ^ 32 ≤ Z.of_nat (since s + n))) (fresh s || bool_decide (i = seq_i)) (marked_at s).
Definition set_br (s : system) (b : bridge) : system :=
  mk_system (mem s) (ex s) (landing s) b (log s) (seqs s) (since s) (slow s) (fresh s) (marked_at s).
(** A write of the bridge, and a load. *)
Definition marked (s : system) (i v : Z) (b : bridge) : system :=
  mk_system (<[i := v]> (mem s)) (ex s) (landing s) b (log s) (seqs s) (since s) (slow s)
    (fresh s && negb (bool_decide (i = seq_i))) (if bool_decide (i = stamp_i) then length (log s) else marked_at s).
Definition loaded (s : system) (i : Z) (b : bridge) : system :=
  mk_system (mem s) (ex s) (landing s) b (log s) (seqs s) (if bool_decide (i = seq_i) then 0 else since s) (slow s) (fresh s) (marked_at s).
Definition exported (s : system) (e : exporter) (log' : list snapshot) : system :=
  mk_system (mem s) e (burst e) (br s) log' (seqs s) (since s) (slow s) (fresh s) (marked_at s).

Inductive step : system → system → Prop :=
  | step_tick s sn : fsm (ex s) = IDLE → snapshot_ok sn → step s (exported s (tick (ex s) sn) (log s ++ [sn]))
  | step_land s l1 i v l2 : landing s = l1 ++ (i, v) :: l2 → step s (landed s i v (l1 ++ l2))
  | step_response s : fsm (ex s) ≠ IDLE → landing s = [] → step s (exported s (mst_done (ex s)) (log s))
  | step_mark s i v p : br s = Marking (Write i v p) → step s (marked s i v (Marking p))
  | step_marked s : br s = Marking (Done tt) → step s (set_br s Waiting)
  | step_call s : br s = Waiting → step s (set_br s (Reading (read scale)))
  | step_load s i k : br s = Reading (Read i k) → step s (loaded s i (Reading (k (mem s !!! i))))
  | step_return s r : br s = Reading (Done r) → step s (set_br s Waiting).

Definition reset_exporter : exporter := mk_exporter IDLE 0 0 (mk_snapshot [] [] [] []) 0.
Definition started (m : gmap Z Z) : system := mk_system m reset_exporter [] (Marking mark_window) [] 0 0 false false 0.
Definition reachable (m : gmap Z Z) : system → Prop := rtc step (started m).

(** ** The layout *)

(** The words of a snapshot but for the stamp, in the order in which they are read. *)
Definition axis_words (s : snapshot) (k : nat) : list (Z * Z) :=
  let a := axis_off k / word_bytes in
  [(a, pos_l s !!! k); (a + 1, vel_l s !!! k); (a + 2, setp_l s !!! k); (a + 3, setv_l s !!! k)].
Definition data_words (s : snapshot) : list (Z * Z) := concat (axis_words s <$> List.seq 0 AXES).
Definition data_indices : list Z := (data_words (mk_snapshot [] [] [] [])).*1.
Lemma data_words_indices s : (data_words s).*1 = data_indices.
Proof. done. Qed.
(** The point made of what is read. *)
Fixpoint axes_of (l : list Z) : list axis :=
  match l with
  | p :: v :: sp :: sv :: l => mk_axis (scaled scale p) (scaled scale v) (scaled scale sp) (scaled scale sv) :: axes_of l
  | _ => []
  end.
Definition point_of (l : list Z) : option OperatingPoint :=
  match l with
  | stamp :: l => let axes := axes_of l in Some (mk_op stamp (ax_pos <$> axes) (ax_vel <$> axes) (ax_setp <$> axes) (ax_setv <$> axes))
  | [] => None
  end.
(** A snapshot as a point. *)
Definition snapshot_point (st : Z) (s : snapshot) : OperatingPoint :=
  mk_op st (scaled scale <$> pos_l s) (scaled scale <$> vel_l s) (scaled scale <$> setp_l s) (scaled scale <$> setv_l s).
Lemma point_of_data st s : snapshot_ok s → point_of (st :: (data_words s).*2) = Some (snapshot_point st s).
Proof.
  destruct s as [p v sp sv]. intros (Hp & Hv & Hsp & Hsv). cbn in *.
  destruct p as [|? [|? [|? [|]]]], v as [|? [|? [|? [|]]]], sp as [|? [|? [|? [|]]]], sv as [|? [|? [|? [|]]]]; done.
Qed.

(** Loads one after the other. *)
Fixpoint loads {A} (l : list Z) (k : list Z → prog A) : prog A :=
  match l with [] => k [] | i :: l => Read i (λ v, loads l (λ vs, k (v :: vs))) end.
Definition check (a : nat) (s1 : Z) (vs : list Z) : prog (option OperatingPoint) :=
  Read seq_i (λ s2, if bool_decide (s2 = s1) then Done (point_of vs) else read_attempts scale a).
Lemma read_attempts_loads a : read_attempts scale (S a) =
  Read seq_i (λ s1, if Z.odd s1 then read_attempts scale a else loads (stamp_i :: data_indices) (check a s1)).
Proof. done. Qed.

(** ** The invariant of the writer *)

Abbreviation count s := (length (log s)).
(** The stamp of the snapshot [k], unless it was marked since. *)
Definition stamp_is (s : system) (k : nat) : Prop :=
  mem s !!! stamp_i = u32 (Z.of_nat k) ∨ mem s !!! stamp_i = 0 ∧ (k ≤ marked_at s)%nat.
(** The snapshot [k], counted from 1, is whole in the memory. *)
Definition complete (s : system) (k : nat) : Prop :=
  ∃ sn, log s !! (k - 1)%nat = Some sn ∧ snapshot_ok sn ∧ (∀ i v, (i, v) ∈ data_words sn → mem s !!! i = v) ∧ stamp_is s k.
(** A number still to be written. *)
Definition seq_due (s : system) : Prop := seq_i ∈ (landing s).*1.
Instance seq_due_dec s : Decision (seq_due s).
Proof. unfold seq_due. apply _. Defined.
Definition seq_value (s : system) : nat :=
  match fsm (ex s) with IDLE | WR_SEQ_EVEN => 2 * count s | _ => 2 * count s - 1 end.
(** The words of the payload that are there. *)
Definition payload_landed (s : system) : Prop :=
  ∀ i v, (i, v) ∈ burst (ex s) → (i, v) ∈ landing s ∨ if bool_decide (i = stamp_i) then stamp_is s (count s) else mem s !!! i = v.

Record writer_ok (s : system) : Prop := {
  w_seq : seq (ex s) = u32 (Z.of_nat (seq_value s));
  w_stamp : stamp (ex s) = u32 (Z.of_nat (count s));
  w_landing : NoDup (landing s).*1 ∧ ∀ w, w ∈ landing s → w ∈ burst (ex s);
  w_seqs : seqs s = if decide (seq_due s) then (seq_value s - 1)%nat else seq_value s;
  w_latched : fsm (ex s) ≠ IDLE → log s !! (count s - 1)%nat = Some (latched (ex s)) ∧ snapshot_ok (latched (ex s)) ∧ (1 ≤ count s)%nat ∧ pay_ptr (ex s) = 0%nat;
  w_memory :
    match fsm (ex s) with
    | IDLE | WR_SEQ_EVEN => (1 ≤ count s)%nat → complete s (count s)
    | WR_SEQ_ODD => seq_due s → (2 ≤ count s)%nat → complete s (count s - 1)
    | WR_PAYLOAD => payload_landed s
    end;
  w_fresh : fresh s = true → mem s !!! seq_i = u32 (Z.of_nat (seqs s)) ∧ (1 ≤ seqs s)%nat;
}.

(** The addresses of a burst are different; those of a number come before the payload. *)
Lemma burst_nodup e : pay_ptr e = 0%nat → NoDup (burst e).*1.
Proof. destruct e as [[] q t l p]; cbn; intros ->; apply (bool_decide_unpack _); by vm_compute. Qed.
Lemma burst_seq e i v : fsm e = WR_SEQ_ODD ∨ fsm e = WR_SEQ_EVEN → (i, v) ∈ burst e → i < stamp_i ∧ (i = seq_i → v = seq e).
Proof.
  destruct e as [[] q t l p]; intros [|]; try done; cbn; intros Hi; change stamp_i with 8; change seq_i with 0; set_solver by lia.
Qed.
Lemma seq_burst e : fsm e = WR_SEQ_ODD ∨ fsm e = WR_SEQ_EVEN → seq_i ∈ (burst e).*1.
Proof. destruct e as [[] q t l p]; intros [|]; try done; cbn; by left. Qed.
Lemma idle_burst e : fsm e = IDLE → burst e = [].
Proof. by destruct e as [[] q t l p]. Qed.
Lemma payload_burst e : fsm e = WR_PAYLOAD → pay_ptr e = 0%nat →
  burst e = (stamp_i, stamp e) :: (stamp_i + 1, 0) :: data_words (latched e) ++ [(22, 0); (23, 0)].
Proof. destruct e as [[] q t l p]; try done. cbn [fsm pay_ptr]. by intros _ ->. Qed.
Lemma data_above sn i v : (i, v) ∈ data_words sn → stamp_i < i.
Proof.
  intros Hi. apply (list_elem_of_fmap_2 fst) in Hi. rewrite data_words_indices in Hi. revert Hi. apply Forall_forall.
  vm_compute. repeat constructor.
Qed.
Lemma payload_above e i v : fsm e = WR_PAYLOAD → pay_ptr e = 0%nat → (i, v) ∈ burst e → stamp_i ≤ i ∧ (i = stamp_i → v = stamp e).
Proof.
  intros Ef Hp. rewrite payload_burst by done. rewrite !elem_of_cons, elem_of_app.
  intros [[= -> ->]|[[= -> ->]|[Hi%data_above|Hi]]]; [done|vm_compute; split; congruence|lia|].
  change stamp_i with 8. set_solver by lia.
Qed.

(** What is whole stays so while other words are written. *)
Lemma complete_same s s' k : complete s k → (∀ i, stamp_i < i → mem s' !!! i = mem s !!! i) → stamp_is s' k →
  (∃ l, log s' = log s ++ l) → complete s' k.
Proof.
  intros (sn & El & Hok & Hd & _) Hm Hst [l Hl]. exists sn. split_and!; [|done| |done].
  - rewrite Hl. by apply lookup_app_l_Some.
  - intros i v Hi. rewrite Hm by (by eapply data_above). by apply Hd.
Qed.
Lemma landing_split (l1 l2 : list (Z * Z)) i v : NoDup (l1 ++ (i, v) :: l2).*1 → i ∉ (l1 ++ l2).*1 ∧ NoDup (l1 ++ l2).*1.
Proof. rewrite <-Permutation_middle, fmap_cons, NoDup_cons. done. Qed.
Lemma due_after s i v l1 l2 : NoDup (landing s).*1 → landing s = l1 ++ (i, v) :: l2 →
  seq_i ∈ (l1 ++ l2).*1 ↔ seq_due s ∧ i ≠ seq_i.
Proof.
  unfold seq_due. intros Hnd El. rewrite El in *. apply landing_split in Hnd as [Hi _].
  rewrite <-Permutation_middle, fmap_cons, elem_of_cons. cbn. naive_solver.
Qed.

(** ** The writer keeps it *)

Lemma not_due_idle s : writer_ok s → fsm (ex s) = IDLE → landing s = [].
Proof.
  intros Hw Ef. destruct (w_landing _ Hw) as [_ H]. rewrite idle_burst in H by done. destruct (landing s) as [|w]; [done|].
  specialize (H w ltac:(by left)). by apply elem_of_nil in H.
Qed.
Lemma tick_ok s sn : writer_ok s → fsm (ex s) = IDLE → snapshot_ok sn → writer_ok (exported s (tick (ex s) sn) (log s ++ [sn])).
Proof.
  intros Hw Ef Hsn. pose proof (not_due_idle s Hw Ef) as El. destruct Hw as [Hq Ht _ Hn _ Hm Hf]. rewrite Ef in Hm.
  set (s' := exported _ _ _). assert (fsm (ex s') = WR_SEQ_ODD ∧ ex s' = tick (ex s) sn) as [Ef' Ee] by (unfold s', exported, tick; cbn; by rewrite Ef).
  assert (¬ seq_due s) as Hd by (unfold seq_due; rewrite El; by intros ?%elem_of_nil).
  assert (seq_due s') as Hd' by (apply seq_burst; by left). unfold seq_value in *. rewrite Ef in Hq, Hn.
  rewrite decide_False in Hn by done. assert (length (log s') = S (count s)) as Ec by (cbn; by rewrite length_app, Nat.add_1_r).
  split; unfold seq_value; rewrite ?Ec, ?Ef', ?decide_True by done; rewrite ?Ee; unfold tick; rewrite ?Ef; cbn [seq stamp fsm latched pay_ptr].
  - rewrite Hq, wrap_add_l by done. f_equal. lia.
  - rewrite Ht, wrap_add_l by done. f_equal. lia.
  - unfold s', exported, tick. cbn [landing]. rewrite Ef. split; [by apply burst_nodup|done].
  - cbn. lia.
  - intros _. split_and!; [|done|lia|done]. cbn. apply list_lookup_middle. lia.
  - intros _ Hc. replace (S (count s) - 1)%nat with (count s) by lia. destruct (Hm ltac:(lia)) as (sn0 & H1 & H2 & H3 & H4).
    eapply (complete_same s); [by exists sn0|done|exact H4|by exists [sn]].
  - exact Hf.
Qed.

Lemma burst_started e : pay_ptr e = 0%nat → NoDup (burst e).*1 ∧ ∀ w, w ∈ burst e → w ∈ burst e.
Proof. split; [by apply burst_nodup|done]. Qed.
(** When the payload is there the snapshot is whole. *)
Lemma payload_complete s : fsm (ex s) = WR_PAYLOAD → pay_ptr (ex s) = 0%nat → landing s = [] → payload_landed s →
  log s !! (count s - 1)%nat = Some (latched (ex s)) → snapshot_ok (latched (ex s)) → complete s (count s).
Proof.
  intros Ef Hp El Hm Hlast Hsn. exists (latched (ex s)). split_and!; [done|done| |].
  - intros i v Hi. destruct (Hm i v) as [Hin|Hin]; [|by rewrite El in Hin; apply elem_of_nil in Hin|].
    + rewrite payload_burst by done. rewrite !elem_of_cons, elem_of_app. tauto.
    + apply data_above in Hi. rewrite bool_decide_false in Hin; [done|lia].
  - destruct (Hm stamp_i (stamp (ex s))) as [Hin|Hin]; [|by rewrite El in Hin; apply elem_of_nil in Hin|done].
    rewrite payload_burst by done. by left.
Qed.
Lemma response_ok s : writer_ok s → fsm (ex s) ≠ IDLE → landing s = [] → writer_ok (exported s (mst_done (ex s)) (log s)).
Proof.
  intros Hw Hne El. destruct Hw as [Hq Ht _ Hn Hl Hm Hf]. destruct (Hl Hne) as (Hlast & Hsn & Hc & Hp).
  assert (¬ seq_due s) as Hd by (unfold seq_due; rewrite El; by intros ?%elem_of_nil). rewrite decide_False in Hn by done.
  pose proof (payload_complete s) as Hcomp.
  set (s' := exported _ _ _). unfold seq_value in *. destruct (ex s) as [f q t l p] eqn:Ex. cbn in Hq, Ht, Hn, Hl, Hm, Hlast, Hsn, Hp. subst p.
  destruct f; [done|..].
  - assert (¬ seq_due s') as Hd' by (intros Hin; vm_compute in Hin; set_solver by lia).
    split; unfold seq_value; try apply burst_started; cbn [s' exported ex mst_done fsm seq stamp latched pay_ptr log landing seqs fresh mem]; try done.
    intros i v Hi. by left.
  - assert (mst_done (mk_exporter WR_PAYLOAD q t l 0) = mk_exporter WR_SEQ_EVEN (u32 (q + 1)) t l 0) as E by done.
    assert (seq_due s') as Hd' by (apply seq_burst; right; by rewrite E).
    split; unfold seq_value; cbn [s' exported ex]; rewrite ?E; cbn [fsm seq stamp latched pay_ptr log landing seqs fresh mem]; try done.
    + change (count s') with (count s). rewrite Hq, wrap_add_l by done. f_equal. lia.
    + by apply burst_started.
    + intros _. by apply Hcomp.
  - assert (¬ seq_due s') as Hd' by (intros Hin; by apply elem_of_nil in Hin).
    split; unfold seq_value; try (by apply burst_started); cbn [s' exported ex mst_done fsm seq stamp latched pay_ptr log landing seqs fresh mem]; try done; by rewrite decide_False.
Qed.
Lemma same_key (l : list (Z * Z)) i v w : NoDup l.*1 → (i, v) ∈ l → (i, w) ∈ l → w = v.
Proof.
  intros Hnd Hv Hw. pose proof (elem_of_list_to_map_1 (M := gmap Z) _ _ _ Hnd Hv).
  pose proof (elem_of_list_to_map_1 (M := gmap Z) _ _ _ Hnd Hw). congruence.
Qed.
(** A word of the payload that arrives. *)
Lemma payload_land s i v l1 l2 : writer_ok s → fsm (ex s) = WR_PAYLOAD → landing s = l1 ++ (i, v) :: l2 →
  payload_landed (landed s i v (l1 ++ l2)).
Proof.
  intros Hw Ef El j w Hj. destruct Hw as [_ Ht [_ Hsub] _ Hl Hm _]. destruct (Hl ltac:(congruence)) as (_ & _ & _ & Hp).
  rewrite Ef in Hm. cbn [landed ex landing] in *. assert ((i, v) ∈ burst (ex s)) as Hi by (apply Hsub; rewrite El; set_solver).
  destruct (decide (j = i)) as [->|Hne].
  - assert (w = v) as -> by (by eapply same_key; [apply (burst_nodup _ Hp)|..]). right.
    case_bool_decide as Es; [|apply lookup_total_insert_eq]. left. subst i. unfold stamp_is. cbn [mem landed].
    rewrite lookup_total_insert_eq. destruct (payload_above _ _ _ Ef Hp Hi) as [_ ->]; done.
  - destruct (Hm j w Hj) as [Hin|Hin].
    + left. rewrite El in Hin. rewrite elem_of_app, elem_of_cons in Hin. rewrite elem_of_app. naive_solver.
    + right. unfold stamp_is in *. cbn [landed mem log marked_at]. case_bool_decide; [subst j|]; by rewrite lookup_total_insert_ne.
Qed.
Lemma seq_written e i v : (i, v) ∈ burst e → fsm e ≠ IDLE → pay_ptr e = 0%nat → i = seq_i → v = seq e.
Proof.
  intros Hi Hne Hp ->. destruct (fsm e) eqn:Ef; [done|..].
  - by apply (burst_seq e seq_i v (or_introl Ef)).
  - by apply (payload_above e seq_i v Ef Hp) in Hi as [? _].
  - by apply (burst_seq e seq_i v (or_intror Ef)).
Qed.
Lemma complete_below s s' k : complete s k → log s' = log s → marked_at s' = marked_at s →
  (∀ i, stamp_i ≤ i → mem s' !!! i = mem s !!! i) → complete s' k.
Proof.
  intros Hc El Em Hm. eapply complete_same; [done| | |exists []; by rewrite app_nil_r]; [intros i Hi; apply Hm; lia|].
  destruct Hc as (sn & _ & _ & _ & Hst). unfold stamp_is in *. by rewrite Em, Hm.
Qed.
Lemma land_ok s i v l1 l2 : writer_ok s → landing s = l1 ++ (i, v) :: l2 → writer_ok (landed s i v (l1 ++ l2)).
Proof.
  intros Hw El. pose proof Hw as [Hq Ht [Hnd Hsub] Hn Hl Hm Hf].
  assert ((i, v) ∈ burst (ex s)) as Hi by (apply Hsub; rewrite El; set_solver).
  assert (fsm (ex s) ≠ IDLE) as Hne by (intros Ef; rewrite idle_burst in Hi by done; by apply elem_of_nil in Hi).
  destruct (Hl Hne) as (_ & _ & Hc & Hp). pose proof (due_after s i v l1 l2 Hnd El) as Hdue.
  assert (i = seq_i → seq_due s) as Hsi by (intros ->; unfold seq_due; rewrite El, fmap_app; set_solver).
  assert (1 ≤ seq_value s)%nat as H1 by (unfold seq_value; destruct (fsm (ex s)); lia).
  assert (seqs (landed s i v (l1 ++ l2)) = (if decide (seq_due (landed s i v (l1 ++ l2))) then seq_value s - 1 else seq_value s)%nat) as Hn'.
  { cbn [seqs landed]. rewrite Hn. case_bool_decide as Es; rewrite (decide_ext _ _ _ _ Hdue); repeat case_decide; naive_solver lia. }
  assert (∀ k, i < stamp_i → complete s k → complete (landed s i v (l1 ++ l2)) k) as Hbelow.
  { intros k Hlt Hk. eapply complete_below; [done..|]. intros j Hj. apply lookup_total_insert_ne. lia. }
  split; [done|done| |done|done| |].
  - split; [by rewrite El in Hnd; apply landing_split in Hnd as [_ Hnd]|]. intros w Hin. apply Hsub. rewrite El. set_solver.
  - cbn [landed ex log]. pose proof (payload_land s i v l1 l2 Hw) as Hpay. pose proof (burst_seq (ex s) i v) as Hseq.
    destruct (fsm (ex s)); [done|..].
    + intros Hd Hk. apply Hbelow; [naive_solver|]. apply Hm; [|done]. by apply Hdue.
    + by apply Hpay.
    + intros Hk. apply Hbelow; [naive_solver|]. by apply Hm.
  - intros Hfr. destruct (decide (i = seq_i)) as [Es|Es].
    + rewrite Hn', decide_False by (intros Hd; by apply Hdue in Hd as [_ ?]). split; [|done]. cbn [mem landed]. rewrite Es, lookup_total_insert_eq.
      pose proof (seq_written _ _ _ Hi Hne Hp Es) as ->. done.
    + cbn [fresh landed mem seqs] in *. rewrite bool_decide_false, ?orb_false_r, ?Nat.add_0_r in * by done.
      rewrite lookup_total_insert_ne by done. by apply Hf.
Qed.
(** The bridge's marks. *)
Lemma mark_ok s i v b : writer_ok s → (i, v) = (seq_i, 1) ∨ (i, v) = (stamp_i, 0) → writer_ok (marked s i v b).
Proof.
  intros [Hq Ht Hsub Hn Hl Hm Hf] Hi. assert (i ≤ stamp_i ∧ (i = stamp_i ∧ v = 0 ∨ i = seq_i)) as [Hle Hiv] by (vm_compute; naive_solver).
  assert (∀ k, (k ≤ count s)%nat → stamp_is s k → stamp_is (marked s i v b) k) as Hst.
  { intros k Hk H. unfold stamp_is in *. cbn [marked mem marked_at]. destruct Hiv as [[-> ->]| ->].
    - right. rewrite lookup_total_insert_eq, bool_decide_true by done. done.
    - rewrite lookup_total_insert_ne by done. by rewrite bool_decide_false. }
  assert (∀ k, (k ≤ count s)%nat → complete s k → complete (marked s i v b) k) as Hc.
  { intros k Hk H. eapply complete_same; [done| |apply Hst; [done|]|exists []; by rewrite app_nil_r].
    - intros j Hj. apply lookup_total_insert_ne. lia.
    - by destruct H as (? & _ & _ & _ & H). }
  split; [done..| |].
  - cbn [marked ex log]. destruct (fsm (ex s)) eqn:Ef; [intros H; apply Hc; [done|by apply Hm]|intros Hd H; apply Hc; [cbn; lia|by apply Hm]| |intros H; apply Hc; [done|by apply Hm]].
    intros j w Hj. destruct (Hm j w Hj) as [Hin|Hin]; [by left|right]. case_bool_decide as Es; [by apply Hst|].
    cbn [marked mem]. destruct (Hl ltac:(done)) as (_ & _ & _ & Hp). pose proof (payload_above _ _ _ Ef Hp Hj) as [Hge _].
    rewrite lookup_total_insert_ne; [done|lia].
  - intros Hfr. cbn [marked fresh mem seqs] in *. apply andb_true_iff in Hfr as [Hfr Hs]. apply negb_true_iff, bool_decide_eq_false in Hs.
    rewrite lookup_total_insert_ne by done. by apply Hf.
Qed.
(** Nothing else is of concern to it. *)
Lemma writer_same s s' : writer_ok s → mem s' = mem s → ex s' = ex s → landing s' = landing s → log s' = log s →
  seqs s' = seqs s → fresh s' = fresh s → marked_at s' = marked_at s → writer_ok s'.
Proof.
  destruct s, s'. cbn. intros [] -> -> -> -> -> -> ->. by split.
Qed.
Lemma started_ok m : writer_ok (started m).
Proof. split; try done. - split; [constructor|done]. - cbn. intros H. lia. Qed.

(** An even number, not the mark, says that a snapshot is whole. *)
Lemma even_complete s : writer_ok s → Nat.even (seqs s) = true → (2 ≤ seqs s)%nat →
  ∃ k, (1 ≤ k ≤ count s)%nat ∧ complete s k.
Proof.
  intros [_ _ [_ Hsub] Hn Hl Hm _] He H2. unfold seq_value in Hn. apply Nat.even_spec in He as [h He].
  assert (seq_due s → fsm (ex s) = WR_SEQ_ODD ∨ fsm (ex s) = WR_SEQ_EVEN) as Hdue.
  { intros ([i v] & Ei & Hi%Hsub)%list_elem_of_fmap_1. cbn in Ei. subst i. destruct (fsm (ex s)) eqn:Ef; [|by left| |by right].
    - rewrite idle_burst in Hi by done. by apply elem_of_nil in Hi.
    - destruct (Hl ltac:(done)) as (_ & _ & _ & Hp). by apply payload_above in Hi as [? _]. }
  destruct (fsm (ex s)) eqn:Ef; case_decide as Hd; try (destruct (Hdue Hd); done); try lia.
  - exists (count s). split; [lia|apply Hm; lia].
  - exists (count s - 1)%nat. split; [lia|]. apply Hm; [done|lia].
  - exists (count s). split; [lia|apply Hm; lia].
Qed.

(** ** The invariant of the reader *)

(** The FPGA's number is there, or the mark. *)
Definition anchored (s : system) : Prop := fresh s = false → mem s !!! seq_i = 1.
(** A snapshot of the FPGA's, as a point. *)
Definition whole (s : system) (op : OperatingPoint) : Prop :=
  ∃ k sn st, (1 ≤ k ≤ count s)%nat ∧ log s !! (k - 1)%nat = Some sn ∧ op = snapshot_point st sn ∧
    (st = u32 (Z.of_nat k) ∨ st = 0 ∧ (k ≤ marked_at s)%nat).
Definition indices : list Z := stamp_i :: data_indices.
(** Some words are read, after an even number: if no number came since, they are those in memory. *)
Definition at_words (s : system) (p : prog (option OperatingPoint)) : Prop :=
  ∃ a n vs l rest k, p = loads rest k ∧ (∀ ws, k ws = check a (u32 (Z.of_nat n)) (vs ++ ws)) ∧ l ++ rest = indices ∧ length vs = length l ∧
    seqs s = (n + since s)%nat ∧ Nat.even n = true ∧ (2 ≤ n)%nat ∧ fresh s = true ∧
    (since s = 0%nat → vs = (λ i, mem s !!! i) <$> l).
Definition reading (s : system) (p : prog (option OperatingPoint)) : Prop :=
  (∃ a, p = read_attempts scale a) ∨ at_words s p ∨ (∃ op, p = Done (Some op) ∧ (slow s = false → whole s op)).
Definition reader_ok (s : system) : Prop :=
  (slow s = false → Z.of_nat (since s) < 2 ^ 32) ∧
  match br s with
  | Marking p => p = mark_window ∨ (p = Write stamp_i 0 (Done tt) ∨ p = Done tt) ∧ anchored s
  | Waiting => anchored s
  | Reading p => anchored s ∧ reading s p
  end.

Lemma odd_u32 n : Z.odd (u32 (Z.of_nat n)) = Nat.odd n.
Proof.
  unfold wrap. rewrite <-Z.bit0_odd, Z.mod_pow2_bits_low, Z.bit0_odd by done.
  destruct (Nat.odd n) eqn:E.
  - apply Nat.odd_spec in E as [m ->]. apply Z.odd_spec. exists (Z.of_nat m). lia.
  - apply (f_equal negb) in E. rewrite Nat.negb_odd in E. apply Nat.even_spec in E as [m ->].
    apply negb_true_iff. rewrite Z.negb_odd. apply Z.even_spec. exists (Z.of_nat m). lia.
Qed.
Lemma index_above i : i ∈ indices → stamp_i ≤ i.
Proof. revert i. apply Forall_forall. vm_compute. repeat constructor; done. Qed.
(** The first load of an attempt. *)
Lemma begin_ok s a : writer_ok s → anchored s →
  let v := mem s !!! seq_i in
  reading (loaded s seq_i Waiting) (if Z.odd v then read_attempts scale a else loads indices (check a v)).
Proof.
  intros Hw Ha v. destruct (Z.odd v) eqn:Eo; [left; by exists a|]. right. left.
  destruct (fresh s) eqn:Ef; [|unfold v in Eo; by rewrite Ha in Eo]. destruct (w_fresh _ Hw Ef) as [Ev H1].
  unfold v in *. rewrite Ev in *. rewrite odd_u32 in Eo. apply (f_equal negb) in Eo. rewrite Nat.negb_odd in Eo.
  assert (2 ≤ seqs s)%nat by (pose proof Eo as [m Em]%Nat.even_spec; lia).
  exists a, (seqs s), [], [], indices, (check a (u32 (Z.of_nat (seqs s)))). split_and!; try done.
Qed.
(** Between even numbers that are the same. *)
Lemma words_whole s vs : writer_ok s → Nat.even (seqs s) = true → (2 ≤ seqs s)%nat → vs = (λ i, mem s !!! i) <$> indices →
  ∃ op, point_of vs = Some op ∧ whole s op.
Proof.
  intros Hw He H2 ->. destruct (even_complete s Hw He H2) as (k & Hk & sn & El & Hok & Hd & Hst).
  exists (snapshot_point (mem s !!! stamp_i) sn). split; [|by exists k, sn, (mem s !!! stamp_i)].
  rewrite <-point_of_data by done. unfold indices. rewrite fmap_cons. do 2 f_equal.
  rewrite <-(data_words_indices sn), <-list_fmap_compose. apply list_fmap_ext. intros j [i v] Hj. cbn.
  apply Hd. by eapply list_elem_of_lookup_2.
Qed.
Lemma same_number s n : slow s = false → (slow s = false → Z.of_nat (since s) < 2 ^ 32) → seqs s = (n + since s)%nat →
  u32 (Z.of_nat (seqs s)) = u32 (Z.of_nat n) → since s = 0%nat.
Proof.
  intros Hs Hlt En. specialize (Hlt Hs). rewrite En, wrap_eq, Nat2Z.inj_add.
  replace (_ + _ - _) with (Z.of_nat (since s)) by lia. rewrite Z.mod_small by lia. lia.
Qed.
(** The load of a word of the payload, and the second of the number. *)
Lemma words_next s i k b : writer_ok s → (slow s = false → Z.of_nat (since s) < 2 ^ 32) → at_words s (Read i k) →
  reading (loaded s i b) (k (mem s !!! i)).
Proof.
  intros Hw Hlt (a & n & vs & l & rest & K & Ep & HK & El & Hlen & En & He & H2 & Hf & Hvs).
  destruct rest as [|j rest]; cbn [loads] in Ep.
  - rewrite HK, app_nil_r in Ep. injection Ep as -> ->. rewrite app_nil_r in El. subst l.
    destruct (w_fresh _ Hw Hf) as [-> _]. case_bool_decide as Es; [|left; by exists a]. right. right.
    destruct vs as [|st vs]; [done|]. cbn [point_of]. eexists. split; [done|]. intros Hs.
    assert (since s = 0%nat) as Hz by (by eapply same_number). rewrite Hz, Nat.add_0_r in En.
    destruct (words_whole s (st :: vs)) as (op & Eop & Hop); [done|by rewrite En..|by apply Hvs|].
    injection Eop as <-. exact Hop.
  - injection Ep as -> ->. assert (j ≠ seq_i) as Hj.
    { intros ->. assert (seq_i ∈ indices) as Hin%index_above by (rewrite <-El; set_solver). done. }
    right. left. exists a, n, (vs ++ [mem s !!! j]), (l ++ [j]), rest, (λ ws, K (mem s !!! j :: ws)).
    cbn [loaded seqs since fresh mem]. rewrite bool_decide_false, !length_app, <-!app_assoc, Hlen by done. split_and!; try done.
    + intros ws. by rewrite HK, <-app_assoc.
    + intros Hz. rewrite Hvs, fmap_app by done. done.
Qed.
Lemma load_ok s i k : writer_ok s → reader_ok s → br s = Reading (Read i k) → reader_ok (loaded s i (Reading (k (mem s !!! i)))).
Proof.
  intros Hw [Hlt Hr] Eb. rewrite Eb in Hr. destruct Hr as [Ha Hr]. split.
  - cbn. intros Hs. case_bool_decide; [done|by apply Hlt].
  - split; [exact Ha|]. destruct Hr as [[[|a] Ep]|[Hr|(op & Ep & _)]]; [done| |by apply words_next|done].
    rewrite read_attempts_loads in Ep. injection Ep as -> ->. by apply begin_ok.
Qed.

(** The accesses of the FPGA. *)
Lemma seq_other s i v l1 l2 : writer_ok s → landing s = l1 ++ (i, v) :: l2 → Nat.even (seqs s) = true → i ∉ indices.
Proof.
  intros Hw El He Hin%index_above. pose proof (w_landing _ Hw) as [_ Hsub].
  assert ((i, v) ∈ burst (ex s)) as Hi by (apply Hsub; rewrite El; set_solver).
  assert (fsm (ex s) ≠ IDLE) as Hne by (intros Ef; rewrite idle_burst in Hi by done; by apply elem_of_nil in Hi).
  destruct (w_latched _ Hw Hne) as (_ & _ & Hc & Hp). pose proof (w_seqs _ Hw) as Hn. unfold seq_value in Hn.
  destruct (fsm (ex s)) eqn:Ef; [done| | |].
  - destruct (burst_seq _ _ _ (or_introl Ef) Hi) as [? _]. lia.
  - rewrite decide_False in Hn.
    + rewrite Hn in He. apply Nat.even_spec in He as [m Hm]. lia.
    + intros ([j w] & Ej & Hj%Hsub)%list_elem_of_fmap_1. cbn in Ej. subst j. by apply payload_above in Hj as [? _].
  - destruct (burst_seq _ _ _ (or_intror Ef) Hi) as [? _]. lia.
Qed.
Lemma words_land s i v l1 l2 p : writer_ok s → landing s = l1 ++ (i, v) :: l2 → at_words s p → at_words (landed s i v (l1 ++ l2)) p.
Proof.
  intros Hw El (a & n & vs & l & rest & K & Ep & HK & Ei & Hlen & En & He & H2 & Hf & Hvs).
  exists a, n, vs, l, rest, K. cbn [landed seqs since fresh mem]. rewrite Hf. split_and!; try done; [lia|].
  case_bool_decide as Es; [lia|]. rewrite Nat.add_0_r. intros Hz. rewrite Hvs by done.
  rewrite Hz, Nat.add_0_r in En. pose proof (seq_other s i v l1 l2 Hw El ltac:(by rewrite En)) as Hni.
  apply list_fmap_ext. intros j x Hj. rewrite lookup_total_insert_ne; [done|]. intros ->.
  apply Hni. rewrite <-Ei. apply elem_of_app. left. by eapply list_elem_of_lookup_2.
Qed.
Lemma land_reader s i v l1 l2 : writer_ok s → landing s = l1 ++ (i, v) :: l2 → reader_ok s → reader_ok (landed s i v (l1 ++ l2)).
Proof.
  intros Hw El [Hlt Hr]. set (s' := landed _ _ _ _).
  assert (anchored s → anchored s') as Ha.
  { intros Ha Hf. cbn [s' landed fresh mem] in *. apply orb_false_iff in Hf as [Hf Hs]. apply bool_decide_eq_false in Hs.
    rewrite lookup_total_insert_ne by done. by apply Ha. }
  split.
  - intros Hs. cbn [s' landed slow since] in *. apply orb_false_iff in Hs as [_ Hs]. apply bool_decide_eq_false in Hs. lia.
  - cbn [s' landed br]. destruct (br s); [naive_solver|by apply Ha|]. destruct Hr as [Hr1 Hr]. split; [by apply Ha|].
    destruct Hr as [Hr|[Hr|(op & Ep & Hop)]]; [by left|right; left; by apply words_land|].
    right. right. exists op. split; [done|]. intros Hs. apply Hop. cbn [s' landed slow] in Hs. by apply orb_false_iff in Hs as [Hs _].
Qed.
(** What is sent next changes nothing that the reader sees. *)
Lemma export_reader s e l : reader_ok s → reader_ok (exported s e (log s ++ l)).
Proof.
  intros [Hlt Hr]. split; [exact Hlt|]. cbn [exported br]. destruct (br s); [exact Hr..|]. destruct Hr as [Ha Hr]. split; [exact Ha|].
  destruct Hr as [Hr|[Hr|(op & Ep & Hop)]]; [by left|right; left; exact Hr|]. right. right. exists op. split; [done|].
  intros Hs. destruct (Hop Hs) as (k & sn & st & Hk & El & Eo & Hst). exists k, sn, st. cbn [exported log marked_at].
  rewrite length_app. split_and!; [lia|lia|by apply lookup_app_l_Some|done|done].
Qed.
Lemma export_step_kept s s' : step s s' → writer_ok s ∧ reader_ok s → writer_ok s' ∧ reader_ok s'.
Proof.
  intros Hs [Hw Hr]. destruct Hs as [s sn Ef Hsn|s l1 i v l2 El|s Hne El|s i v p Eb|s Eb|s Eb|s i k Eb|s r Eb].
  - split; [by apply tick_ok|by apply export_reader].
  - split; [by apply land_ok|by apply land_reader].
  - split; [by apply response_ok|]. rewrite <-(app_nil_r (log s)). by apply export_reader.
  - destruct Hr as [Hlt Hr]. rewrite Eb in Hr. destruct Hr as [Ep|[[Ep|Ep] Ha]]; [..|done]; injection Ep as -> -> ->; cbn [mbind prog_bind].
    + split; [apply mark_ok; auto|]. split; [exact Hlt|]. right. split; [by left|]. intros _. apply lookup_total_insert_eq.
    + split; [apply mark_ok; auto|]. split; [exact Hlt|]. right. split; [by right|]. intros Hf.
      cbn [marked mem fresh] in *. rewrite lookup_total_insert_ne by done. apply Ha. by rewrite bool_decide_false, andb_true_r in Hf.
  - destruct Hr as [Hlt Hr]. rewrite Eb in Hr. destruct Hr as [|[_ Ha]]; [done|].
    split; [by apply (writer_same s)|by split; [exact Hlt|exact Ha]].
  - destruct Hr as [Hlt Hr]. rewrite Eb in Hr.
    split; [by apply (writer_same s)|split; [exact Hlt|split; [exact Hr|left; by exists kMaxReadAttempts]]].
  - split; [by apply (writer_same s)|by apply load_ok].
  - destruct Hr as [Hlt Hr]. rewrite Eb in Hr. split; [by apply (writer_same s)|split; [exact Hlt|exact (proj1 Hr)]].
Qed.

Lemma reachable_ok m s : reachable m s → writer_ok s ∧ reader_ok s.
Proof.
  intros Hr. assert (writer_ok (started m) ∧ reader_ok (started m)) as H by (split; [apply started_ok|]; split; [done|by left]).
  unfold reachable in Hr. revert H. induction Hr as [|s1 s2 s3 Hs _ IH]; [done|]. intros H. by apply IH, (export_step_kept s1).
Qed.

(** C4: A snapshot of the state that the bridge takes is one that the FPGA froze at one of
    its ticks, whole: words of two ticks never mix, however the writes of a burst are ordered
    and whenever the loads fall, and nothing is taken from the memory before the first tick.
    Its stamp is the number of the tick, or the zero that the bridge put there before it
    began to read, if the tick was before that.  This holds unless the FPGA writes 2^32
    sequence numbers during one attempt to read. *)
Theorem snapshots_whole m s op : reachable m s → slow s = false → br s = Reading (Done (Some op)) →
  ∃ k sn st, (1 ≤ k ≤ length (log s))%nat ∧ log s !! (k - 1)%nat = Some sn ∧ op = snapshot_point st sn ∧
    (st = u32 (Z.of_nat k) ∨ st = 0 ∧ (k ≤ marked_at s)%nat).
Proof.
  intros Hr Hs Eb. destruct (reachable_ok m s Hr) as [_ [_ Hok]].
  rewrite Eb in Hok. destruct Hok as [_ [[[|a] Ep]|[Hw|(op' & Ep & Hop)]]]; [done|done| |].
  - destruct Hw as (a & n & vs & l & [|j rest] & K & Ep & HK & _); [|done]. cbn in Ep. by rewrite HK in Ep.
  - injection Ep as ->. by apply Hop.
Qed.
(** ** When nothing is written meanwhile *)

(** A program that only loads, on a memory. *)
Fixpoint quiet {A} (m : gmap Z Z) (p : prog A) : option A :=
  match p with
  | Done a => Some a
  | Read i k => quiet m (k (m !!! i))
  | _ => None
  end.
Lemma quiet_loads {A} m l (k : list Z → prog A) : quiet m (loads l k) = quiet m (k ((λ i, m !!! i) <$> l)).
Proof. revert k. induction l as [|i l IH]; intros k; [done|]. cbn [loads quiet]. by rewrite IH. Qed.
(** Between the ticks the first attempt gives the last snapshot. *)
Lemma quiet_snapshot m s : reachable m s → fsm (ex s) = IDLE → fresh s = true →
  ∃ sn st, last (log s) = Some sn ∧ quiet (mem s) (read scale) = Some (Some (snapshot_point st sn)).
Proof.
  intros Hr Ef Hfr. destruct (reachable_ok m s Hr) as [Hw _]. destruct (w_fresh _ Hw Hfr) as [Em H1].
  assert (seqs s = 2 * count s)%nat as En.
  { rewrite (w_seqs _ Hw). unfold seq_value. rewrite Ef, decide_False; [done|]. unfold seq_due.
    rewrite not_due_idle by done. by intros ?%elem_of_nil. }
  assert (complete s (count s)) as Hc by (pose proof (w_memory _ Hw) as Hm; rewrite Ef in Hm; apply Hm; lia).
  destruct Hc as (sn & El & Hok & Hd & Hst). exists sn, (mem s !!! stamp_i). split; [by rewrite last_lookup, <-El; f_equal; lia|].
  unfold read, kMaxReadAttempts. rewrite read_attempts_loads. cbn [quiet]. rewrite Em, odd_u32.
  replace (Nat.odd (seqs s)) with false by (rewrite En, Nat.odd_mul; done).
  rewrite quiet_loads. unfold check. cbn [quiet]. rewrite Em, bool_decide_true by done. cbn [quiet].
  rewrite <-point_of_data by done. rewrite fmap_cons. do 3 f_equal.
  rewrite <-(data_words_indices sn), <-list_fmap_compose. apply list_fmap_ext. intros j [i v] Hj. cbn.
  apply Hd. by eapply list_elem_of_lookup_2.
Qed.

(** ** Runs *)

Inductive action := Tick (sn : snapshot) | Land (n : nat) | Response | Bridge.
Definition act (s : system) (a : action) : option system :=
  match a with
  | Tick sn => if bool_decide (fsm (ex s) = IDLE ∧ snapshot_ok sn) then Some (exported s (tick (ex s) sn) (log s ++ [sn])) else None
  | Land n =>
      match drop n (landing s) with
      | (i, v) :: l2 => Some (landed s i v (take n (landing s) ++ l2))
      | [] => None
      end
  | Response => if bool_decide (fsm (ex s) ≠ IDLE ∧ landing s = []) then Some (exported s (mst_done (ex s)) (log s)) else None
  | Bridge =>
      match br s with
      | Marking (Write i v p) => Some (marked s i v (Marking p))
      | Marking (Done tt) => Some (set_br s Waiting)
      | Waiting => Some (set_br s (Reading (read scale)))
      | Reading (Read i k) => Some (loaded s i (Reading (k (mem s !!! i))))
      | Reading (Done _) => Some (set_br s Waiting)
      | _ => None
      end
  end.
Fixpoint acts (s : system) (l : list action) : option system :=
  match l with [] => Some s | a :: l => s ← act s a; acts s l end.
Lemma act_taken s a s' : act s a = Some s' → step s s'.
Proof.
  destruct a as [sn|n| |]; unfold act.
  - case_bool_decide as H; [|done]. destruct H. intros [= <-]. by apply step_tick.
  - destruct (drop n (landing s)) as [|[i v] l2] eqn:E; [done|]. intros [= <-]. apply step_land. by rewrite <-E, take_drop.
  - case_bool_decide as H; [|done]. destruct H. intros [= <-]. by apply step_response.
  - destruct (br s) as [[[]|i k|i v p|]| |[r|i k|i v p|]] eqn:E; try done; intros [= <-].
    + by apply step_marked.
    + by apply step_mark.
    + by apply step_call.
    + by eapply step_return.
    + by apply step_load.
Qed.
Lemma acts_taken m l s : acts (started m) l = Some s → reachable m s.
Proof.
  unfold reachable. generalize (started m). induction l as [|a l IH]; intros s0; cbn; [intros [= ->]; done|].
  destruct (act s0 a) as [s1|] eqn:E; [|done]. cbn. intros Hl. eapply rtc_l; [by eapply act_taken|by apply IH].
Qed.
Lemma acts_reached m l (P : system → Prop) :
  match acts (started m) l with Some s => P s | None => False end → ∃ s, reachable m s ∧ P s.
Proof. destruct (acts _ l) as [s|] eqn:E; [|done]. intros HP. exists s. split; [by eapply acts_taken|done]. Qed.
End spec.

(** The writes of a burst in an order that is not theirs, and the response. *)
Definition landings (n : nat) : list action := (if Nat.even n then [Land 1] else []) ++ replicate (if Nat.even n then n - 1 else n) (Land 0) ++ [Response].
Definition whole_export : list action := landings 8 ++ landings 16 ++ landings 8.
Definition example_snapshot (n : Z) : snapshot := mk_snapshot [n; n; n] [n; n; n] [n; n; n] [n; n; n].
(** The second tick falls while the bridge reads the first snapshot. *)
Definition example_run : list action :=
  replicate 3 Bridge ++ Tick (example_snapshot 64) :: whole_export ++ replicate 6 Bridge ++
  Tick (example_snapshot 128) :: landings 8 ++ replicate 12 Bridge ++ landings 16 ++ landings 8 ++ replicate 15 Bridge.
Lemma snapshots_whole_witness : ∃ s op,
  reachable export_scale ∅ s ∧ slow s = false ∧ br s = Reading (Done (Some op)) ∧
  (op_stamp op = 2 ∧ op_pos op = replicate 3 (float_of_int 2)) ∧
  ∃ k sn st, (1 ≤ k ≤ length (log s))%nat ∧ log s !! (k - 1)%nat = Some sn ∧ op = snapshot_point export_scale st sn ∧
    (st = u32 (Z.of_nat k) ∨ st = 0 ∧ (k ≤ marked_at s)%nat).
Proof.
  destruct (acts_reached export_scale ∅ example_run (λ s, slow s = false ∧ ∃ op, br s = Reading (Done (Some op)) ∧
    op_stamp op = 2 ∧ op_pos op = replicate 3 (float_of_int 2))) as (s & Hr & Hs & op & Eb & Hop).
  - vm_compute. split; [done|]. eexists. done.
  - exists s, op. split_and!; [done..|by apply Hop|by apply Hop|]. by apply (snapshots_whole export_scale ∅ s op Hr Hs Eb).
Defined.

(** ** What the sequence number does not tell *)

(** [mst_done] does not look at the response: a burst that failed counts as one that is there. *)
Definition failed_response (s : system) : system := exported s (mst_done (ex s)) (log s).
(** INIT, between two ticks. *)
Definition initialised (s : system) : system := exported s reset_exporter (log s).
(** What the bridge takes when [event] falls between two parts of a run. *)
Definition taken_around (before : list action) (event : system → system) (after : list action) : option (Z * list float) :=
  s ← acts export_scale (started ∅) before;
  s ← acts export_scale (event s) after;
  match br s with Reading (Done (Some op)) => Some (op_stamp op, op_pos op) | _ => None end.
Definition first_export : list action := replicate 3 Bridge ++ Tick (example_snapshot 64) :: whole_export.
(** The payload of the second tick fails after four words: the bridge takes the position
    of one axis from that tick and those of the others from the tick before. *)
Lemma failed_burst_mixes :
  taken_around (first_export ++ Tick (example_snapshot 128) :: landings 8 ++ replicate 4 (Land 0)) failed_response
    (landings 8 ++ replicate 16 Bridge)
  = Some (2, [float_of_int 2; float_of_int 1; float_of_int 1]).
Proof. by vm_compute. Qed.
(** INIT while the bridge reads: the number begins again, and is the same after a tick. *)
Lemma init_mixes :
  taken_around (first_export ++ replicate 6 Bridge) initialised
    (Tick (example_snapshot 128) :: whole_export ++ replicate 10 Bridge)
  = Some (1, [float_of_int 1; float_of_int 2; float_of_int 2]).
Proof. by vm_compute. Qed.

End StateExportSpec.
