(* ===== verification/LqrResolve.v ===== *)
(** * Where the bridge finds its registers: panda-server/server/lqr_resolve.c

    The block LQR of the configuration and its fields are looked up by name, their
    registers are taken, the fields that the bridge writes are refused to clients from
    then on, and the window of the state is found in the device tree.  The directory and
    the file of the device tree are arguments, and the text of the log is left out. *)

From S2P Require Import Prelude Errors Parse Format HashTable HashTableSpec Enums StdDev Capture Hardware Fields FieldsSpec Types Extension Registers Table TableSpec TableSetup Quantise GainBridge.
From stdpp Require Import base numbers list gmap option strings pretty.
Open Scope Z_scope.

Module LqrResolve.
Import Parse Capture Hardware Fields Types Extension Registers Table TableSetup.

Section resolve.
Context `{Platform} `{Fpga} `{ExtensionServer} {C TN TZ : Type} `{!StringTable nat TN} `{!StringTable Z TZ}.
Abbreviation database := (database (C := C) (T := TN)).
Abbreviation field := (field (C := C) TN).

(** ** The registers of a field: fields.c and the methods of the classes *)

(** The data of a field, for the classes that have the two methods; tables keep what is
    made of their configuration apart from the state that commands change. *)
Inductive class_data :=
  | PARAM (s : simple_state (T := TZ))
  | READ (s : simple_state (T := TZ))
  | WRITE (b : base_state (T := TZ))
  | TABLE (su : setup) (s : table_state)
  | OTHER.
Definition table_set_read_only (s : table_state) : table_state :=
  mk_table_state (t_row_words s) (max_length s) (table s) (mode_attr s) true (blocks s) (change_index s).
Definition get_registers (d : class_data) : option (res (list Z)) :=
  match d with
  | PARAM s | READ s => Some (register_get_registers (ss_base s))
  | WRITE b => Some (register_get_registers b)
  | TABLE su _ => Some (table_get_registers su)
  | OTHER => None
  end.
Definition set_read_only (d : class_data) : option class_data :=
  match d with
  | PARAM s => Some (PARAM (mk_simple (register_set_read_only (ss_base s)) (ss_values s)))
  | WRITE b => Some (WRITE (register_set_read_only b))
  | TABLE su s => Some (TABLE su (table_set_read_only s))
  | READ _ | OTHER => None
  end.
Definition get_field_registers (data : list class_data) (f : field) : outcome (res (list Z)) :=
  d ← at_index data (fd_class_data f);
  Ret (match get_registers d with Some r => r | None => fail "Field has no register mapping" end).
Definition set_field_read_only (data : list class_data) (f : field) : outcome (error__t * list class_data) :=
  d ← at_index data (fd_class_data f);
  Ret (match set_read_only d with
       | Some d => (None, <[fd_class_data f := d]> data)
       | None => (TEST_OK_ false "Field cannot be marked read-only", data)
       end).
Definition get_block_base (b : block TN) : Z := b_base b.

(** ** The window in the device tree *)

Definition be32 (p : list Z) : Z :=
  match p with
  | p0 :: p1 :: p2 :: p3 :: _ => Z.lor (Z.lor (Z.lor (u32 (Z.shiftl p0 24)) (u32 (Z.shiftl p1 16))) (u32 (Z.shiftl p2 8))) p3
  | _ => 0
  end.
Definition base_dir : cstring := bytes_of "/proc/device-tree/reserved-memory".
Definition node_name : cstring := bytes_of "lqr-state".
(** The names in the directory, if it can be opened; for a file that can be opened, the
    bytes that [read] gives, if it does not fail. *)
Record device_tree := mk_tree {
  entries : option (list cstring);
  node_file : cstring → option (option (list Z));
}.
(** [strncmp] with the length of the name that is looked for. *)
Definition is_node (name : cstring) : bool := bool_decide (take 9 name = node_name).
Definition reg_path (name : cstring) : cstring := take 511 (base_dir ++ bytes_of "/" ++ name ++ bytes_of "/reg").
Definition resolve_state_buffer (tree : device_tree) : res (Z * Z) :=
  match entries tree with
  | None => fail "LQR bridge: no reserved-memory in the device tree"
  | Some names =>
      match find is_node names with
      | None => fail "LQR bridge: reserved-memory node 'lqr-state' not found"
      | Some name =>
          match node_file tree (reg_path name) with
          | None => fail "LQR bridge: cannot open the state reg property"
          | Some reg =>
              match reg with
              | Some reg =>
                  if bool_decide (length reg = 8%nat) then OK (be32 reg, be32 (drop 4 reg))
                  else fail "LQR bridge: unexpected reserved-memory reg size"
              | None => fail "LQR bridge: unexpected reserved-memory reg size"
              end
          end
      end
  end.

(** ** [lqr_resolve] *)

Record lqr_coords := mk_coords {
  block_base : Z;
  block_number : Z;
  start : Z;
  data : Z;
  commit : Z;
  gen : Z;
  state_phys : Z;
  state_bytes : Z;
  export_status : Z;
}.
(** A call whose error ends the chain. *)
Definition chain {A B} (call : outcome (res A)) (k : A → outcome (res B)) : outcome (res B) :=
  r ← call; match r with OK a => k a | Err e => Ret (Err e) end.
Definition find_field (db : database) (b : block TN) (name : string) : outcome (res field) :=
  chain (lookup_field b (bytes_of name)) (λ i, f ← at_index (all_fields db) i; Ret (OK f)).
Definition test_count (name : string) (regs : list Z) (needed : nat) : outcome (res unit) :=
  Ret (test_ok (bool_decide (needed ≤ length regs)%nat)
         ("LQR bridge: " +:+ name +:+ " resolved " +:+ pretty (length regs) +:+ " registers, need >= " +:+ pretty needed)).
(** The block, the fields GAINS and COMMIT, and the registers of the four fields. *)
Record resolved := mk_resolved {
  r_block : block TN;
  r_gains : field;
  r_commit : field;
  r_gains_regs : list Z;
  r_commit_regs : list Z;
  r_gen_regs : list Z;
  r_status_regs : list Z;
}.
(** The calls that change nothing. *)
Definition look_up (db : database) (data : list class_data) : outcome (res resolved) :=
  chain (lookup_block db (bytes_of "LQR")) (λ bix, b ← at_index (Fields.blocks db) bix;
  chain (find_field db b "GAINS") (λ gains,
  chain (find_field db b "COMMIT") (λ commit,
  chain (find_field db b "GEN") (λ gen,
  chain (find_field db b "EXPORT_STATUS") (λ status,
  chain (get_field_registers data gains) (λ gains_regs,
  chain (get_field_registers data commit) (λ commit_regs,
  chain (get_field_registers data gen) (λ gen_regs,
  chain (get_field_registers data status) (λ status_regs,
  chain (test_count "GAINS" gains_regs 2) (λ _,
  chain (test_count "COMMIT" commit_regs 1) (λ _,
  chain (test_count "GEN" gen_regs 1) (λ _,
  chain (test_count "EXPORT_STATUS" status_regs 1) (λ _,
  Ret (OK (mk_resolved b gains commit gains_regs commit_regs gen_regs status_regs))))))))))))))).
Definition set_read_only_both (data : list class_data) (r : resolved) : outcome (error__t * list class_data) :=
  '(error, data) ← set_field_read_only data (r_gains r);
  match error with Some e => Ret (Some e, data) | None => set_field_read_only data (r_commit r) end.
Definition coords_of (r : resolved) (window : Z * Z) : lqr_coords :=
  mk_coords (get_block_base (r_block r)) 0 (r_gains_regs r !!! 0%nat) (r_gains_regs r !!! 1%nat) (r_commit_regs r !!! 0%nat)
    (r_gen_regs r !!! 0%nat) window.1 window.2 (r_status_regs r !!! 0%nat).
Definition lqr_resolve (db : database) (data : list class_data) (tree : device_tree) : outcome (option lqr_coords * list class_data) :=
  found ← look_up db data;
  match found with
  | Err _ => Ret (None, data)
  | OK r =>
      '(error, data) ← set_read_only_both data r;
      match error, resolve_state_buffer tree with
      | None, OK window => Ret (Some (coords_of r window), data)
      | _, _ => Ret (None, data)
      end
  end.
(** [bridge_loop] begins with these. *)
Definition reg_of (c : lqr_coords) : GainBridge.Reg := GainBridge.mk_Reg (start c) (data c) (commit c) (gen c).
End resolve.
End LqrResolve.

(** ** What the bridge finds, it owns *)

Module LqrResolveSpec.
Import Parse Capture Hardware Fields Types Extension Registers Table TableSpec TableSetup LqrResolve.

(** ** The registers that a program of the bridge writes *)

Section writes.
Import GainBridge.
Context `{Platform} (regs : list Z).
Fixpoint writes_only {A} (p : prog A) : Prop :=
  match p with
  | Read _ k => ∀ v, writes_only (k v)
  | Write r _ k => r ∈ regs ∧ writes_only k
  | Done _ | Stop => True
  end.
Lemma writes_bind {A B} (p : prog A) (f : A → prog B) : writes_only p → (∀ a, writes_only (f a)) → writes_only (p ≫= f).
Proof. intros Hp Hf. induction p as [a|r k IH|r v k IH|]; cbn in *; [apply Hf|intros v; by apply IH|naive_solver|done]. Qed.
Lemma writes_words reg f : reg ∈ regs → writes_only (write_words reg f).
Proof. intros Hr. induction f as [|w f IH]; cbn; done. Qed.
Lemma publish_writes N WIDTH p gains q mode : start (reg_ (transport_ p)) ∈ regs → GainBridge.data (reg_ (transport_ p)) ∈ regs →
  commit_reg (reg_ (transport_ p)) ∈ regs → writes_only (publish N WIDTH p gains q mode).
Proof.
  intros H1 H2 H3.
  assert (∀ p', reg_ (transport_ p') = reg_ (transport_ p) → writes_only (publish_frame WIDTH p' gains q mode)) as Hf.
  { intros p' E. unfold publish_frame. destruct (Quantise.quantise_into _ _ _ _) as [f| |]; [|done..].
    apply writes_bind; [|intros _; cbn; by rewrite E]. unfold stage. rewrite E. cbn. split; [done|]. by apply writes_words. }
  assert (writes_only (resync_frame WIDTH p gains q mode)) as Hr by (cbn; intros v; by apply Hf).
  unfold publish. case_bool_decide; [|done]. destruct (pending_ p); [|by apply Hf].
  apply writes_bind; [cbn; intros v; by destruct (swap_of _ _)|]. intros [| |]; [by apply Hf| |done].
  by case_bool_decide.
Qed.
End writes.

(** ** The fields of the bridge *)

Section spec.
Context `{Platform} `{Fpga} `{ExtensionServer} {C TN TZ : Type} `{!StringTable nat TN} `{!StringTable Z TZ}.
Abbreviation database := (database (C := C) (T := TN)).
Abbreviation field := (field (C := C) TN).
Abbreviation class_data := (class_data (TZ := TZ)).

(** The field of that name of the block LQR. *)
Definition lqr_field (db : database) (b : block TN) (name : string) (f : field) : Prop :=
  ∃ bix i, lookup_block db (bytes_of "LQR") = Ret (OK bix) ∧ Fields.blocks db !! bix = Some b ∧
    lookup_field b (bytes_of name) = Ret (OK i) ∧ all_fields db !! i = Some f.
(** The types with an attribute that clients can write: RAW of both, and UNITS of a time. *)
Definition writable_attribute (t : type_data (T := TZ)) : bool :=
  match t with TYPE_SCALAR _ | TYPE_TIME _ => true | _ => false end.
Lemma attributes_closed `{!HasFpga R} (units : Enums.enumeration (T := TZ)) (reg : register_methods R) w t name a number text :
  writable_attribute t = false → (name, a) ∈ type_attrs t → attr_put units reg w t a number text = None.
Proof. destruct t; try done; cbn; intros _; rewrite ?elem_of_cons, ?elem_of_nil; by intros [[= -> ->]|[]] || by intros []. Qed.
(** What a client can write: the value of a field or a table by a command, which is refused
    and changes nothing; and the attributes of the type of a field, of which there is none
    that can be written unless the type is a scalar or a time.  A table has no attribute
    that can be written. *)
Definition refused (d : class_data) : Prop :=
  match d with
  | PARAM s =>
      (∀ w number text, ∃ e, param_put (s, w) number text = Ret (Some e, (s, w))) ∧
      (writable_attribute (bs_type (ss_base s)) = false → ∀ units w name a number text, (name, a) ∈ type_attrs (bs_type (ss_base s)) →
       attr_put units param_methods (s, w) (bs_type (ss_base s)) a number text = None)
  | WRITE b =>
      (∀ w number text, ∃ e, write_put (b, w) number text = Ret (Some e, (b, w))) ∧
      (writable_attribute (bs_type b) = false → ∀ units w name a number text, (name, a) ∈ type_attrs (bs_type b) →
       attr_put units write_methods (b, w) (bs_type b) a number text = None)
  | TABLE _ s => ∀ driver number b format lines, Table.blocks s !! number = Some b →
      ∃ e, process_put_table_command driver number s format lines = Ret (Some e, s, after_blank lines)
  | READ _ | OTHER => False
  end.
Lemma set_read_only_refused d d' : set_read_only d = Some d' → refused d' ∧ get_registers d' = get_registers d.
Proof.
  destruct d as [s|s|b|su s|]; cbn; intros [= <-]; (split; [|done]); cbn.
  - split; [|intros Hw units w name a number text; by apply attributes_closed].
    intros w number text. unfold param_put, base_put. cbn. by eexists.
  - split; [|intros Hw units w name a number text; by apply attributes_closed].
    intros w number text. unfold write_put. cbn. by eexists.
  - intros driver number b format lines Hb. apply (refused_command driver number _ b); [exact Hb|].
    intros streaming last binary (_ & Hro & _). done.
Qed.

Lemma chain_ok {A B} (call : outcome (res A)) (k : A → outcome (res B)) y :
  chain call k = Ret (OK y) → ∃ a, call = Ret (OK a) ∧ k a = Ret (OK y).
Proof. unfold chain. destruct call as [[a|e]| |]; cbn; try done. eauto. Qed.
Lemma at_index_ok {A} (l : list A) i x : at_index l i = Ret x → l !! i = Some x.
Proof. unfold at_index. by destruct (l !! i) as [y|]; intros [= ->]. Qed.
Lemma find_field_ok (db : database) bix b name f : lookup_block db (bytes_of "LQR") = Ret (OK bix) → Fields.blocks db !! bix = Some b →
  find_field db b name = Ret (OK f) → lqr_field db b name f.
Proof.
  intros Hl Hb (i & Hi & Hf)%chain_ok. exists bix, i. split_and!; try done.
  destruct (at_index (all_fields db) i) as [g| |] eqn:E; [|done..]. injection Hf as ->. by apply at_index_ok.
Qed.
Lemma registers_ok (data : list class_data) (f : field) regs : get_field_registers data f = Ret (OK regs) →
  ∃ d, data !! fd_class_data f = Some d ∧ get_registers d = Some (OK regs).
Proof.
  unfold get_field_registers. destruct (at_index data _) as [d| |] eqn:E; [|done..]. cbn. intros [= Hr].
  exists d. split; [by apply at_index_ok|]. destruct (get_registers d); [by subst|done].
Qed.
Lemma count_ok name regs needed u : test_count name regs needed = Ret (OK u) → (needed ≤ length regs)%nat.
Proof. unfold test_count, test_ok, TEST_OK_. case_bool_decide; [done|]. by intros [=]. Qed.

(** The data of the field that has these registers. *)
Definition has_registers (data : list class_data) (f : field) (regs : list Z) : Prop :=
  ∃ d, data !! fd_class_data f = Some d ∧ get_registers d = Some (OK regs).
Lemma look_up_ok (db : database) data r : look_up db data = Ret (OK r) →
  lqr_field db (r_block r) "GAINS" (r_gains r) ∧ lqr_field db (r_block r) "COMMIT" (r_commit r) ∧
  has_registers data (r_gains r) (r_gains_regs r) ∧ has_registers data (r_commit r) (r_commit_regs r) ∧
  (∃ gen status, lqr_field db (r_block r) "GEN" gen ∧ lqr_field db (r_block r) "EXPORT_STATUS" status ∧
    has_registers data gen (r_gen_regs r) ∧ has_registers data status (r_status_regs r)) ∧
  (2 ≤ length (r_gains_regs r) ∧ 1 ≤ length (r_commit_regs r) ∧ 1 ≤ length (r_gen_regs r) ∧ 1 ≤ length (r_status_regs r))%nat.
Proof.
  intros (bix & Hl & E)%chain_ok. destruct (at_index (Fields.blocks db) bix) as [b| |] eqn:Hb; [|done..].
  cbn [mbind outcome_bind] in E. apply at_index_ok in Hb.
  apply chain_ok in E as (gains & Hgains & E). apply chain_ok in E as (commit & Hcommit & E).
  apply chain_ok in E as (gen & Hgen & E). apply chain_ok in E as (status & Hstatus & E).
  apply chain_ok in E as (rg & Hrg & E). apply chain_ok in E as (rc & Hrc & E).
  apply chain_ok in E as (rn & Hrn & E). apply chain_ok in E as (rs & Hrs & E).
  apply chain_ok in E as (? & Hn1%count_ok & E). apply chain_ok in E as (? & Hn2%count_ok & E).
  apply chain_ok in E as (? & Hn3%count_ok & E). apply chain_ok in E as (? & Hn4%count_ok & E). injection E as <-.
  cbn. split_and!; try done; try (by eapply find_field_ok); try (by apply registers_ok).
  exists gen, status. split_and!; try (by eapply find_field_ok); by apply registers_ok.
Qed.

(** The data of the field, before and after, when its clients are shut out. *)
Definition taken_over (data data' : list class_data) (f : field) : Prop :=
  ∃ d d', data !! fd_class_data f = Some d ∧ data' !! fd_class_data f = Some d' ∧ refused d' ∧ get_registers d' = get_registers d.
Lemma set_field_ok data (f : field) data' : set_field_read_only data f = Ret (None, data') →
  taken_over data data' f ∧ (∀ i, i ≠ fd_class_data f → data' !! i = data !! i).
Proof.
  unfold set_field_read_only. destruct (at_index data _) as [d| |] eqn:E; [|done..]. apply at_index_ok in E. cbn.
  destruct (set_read_only d) as [d'|] eqn:Es; intros [= <-]. apply set_read_only_refused in Es as [Hr Hg]. split.
  - exists d, d'. split_and!; try done. rewrite list_lookup_insert_eq; [done|by eapply lookup_lt_Some].
  - intros i Hi. by rewrite list_lookup_insert_ne.
Qed.
Lemma set_both_ok data r data' : set_read_only_both data r = Ret (None, data') →
  taken_over data data' (r_gains r) ∧ taken_over data data' (r_commit r) ∧
  (∀ i, i ≠ fd_class_data (r_gains r) → i ≠ fd_class_data (r_commit r) → data' !! i = data !! i).
Proof.
  unfold set_read_only_both. destruct (set_field_read_only data (r_gains r)) as [[[e|] data1]| |] eqn:E1; [done| |done..].
  cbn [mbind outcome_bind]. intros E2. apply set_field_ok in E1 as [(d & d1 & Hd & Hd1 & Hr1 & Hg1) Ho1].
  apply set_field_ok in E2 as [(d2 & d3 & Hd2 & Hd3 & Hr3 & Hg3) Ho2]. split_and!.
  - destruct (decide (fd_class_data (r_gains r) = fd_class_data (r_commit r))) as [Ei|Hne].
    + exists d, d3. rewrite Ei in *. split_and!; try done. rewrite Hg3. congruence.
    + exists d, d1. rewrite Ho2 by done. done.
  - destruct (decide (fd_class_data (r_gains r) = fd_class_data (r_commit r))) as [Ei|Hne].
    + exists d, d3. rewrite Ei in *. split_and!; try done. rewrite Hg3. congruence.
    + exists d2, d3. rewrite <-Ho1 by done. done.
  - intros i Hi1 Hi2. by rewrite Ho2, Ho1.
Qed.
Lemma long_registers (d : class_data) regs : get_registers d = Some (OK regs) → (2 ≤ length regs)%nat →
  ∃ su s len, d = TABLE su s ∧ su_registers su = Some (regs !!! 0%nat, regs !!! 1%nat, len).
Proof.
  assert (∀ b, register_get_registers (T := TZ) b = OK regs → (2 ≤ length regs)%nat → False) as Hbase.
  { intros b. unfold register_get_registers, test_ok, TEST_OK_. case_bool_decide; cbn; intros [= <-]. cbn. lia. }
  destruct d as [s|s|b|su s|]; cbn; intros [= E] Hlen; try by destruct (Hbase _ E Hlen).
  unfold table_get_registers in E. destruct (su_registers su) as [[[r1 r2] r3]|] eqn:Er; [|done]. injection E as <-.
  by exists su, s, r3.
Qed.

(** C6: When the registers are found they are those of the fields of the block LQR, GAINS
    being a short table; from then on every command that writes the value of GAINS or
    COMMIT is refused and changes nothing, and the other fields are as before.  No attribute
    of them can be written either, unless the configuration makes COMMIT a scalar or a time,
    which it is not in that of the program, [write action]: the methods of the attribute RAW
    do not look whether the field is read-only (raw_write_gets_through).  With these
    registers the publisher writes to those of the two fields and to no others. *)
Theorem bridge_owns_gains (db : database) data tree c data' : lqr_resolve db data tree = Ret (Some c, data') →
  (∃ b gains commit, block_base c = b_base b ∧ lqr_field db b "GAINS" gains ∧ lqr_field db b "COMMIT" commit ∧
    (∃ su s len, data !! fd_class_data gains = Some (TABLE su s) ∧ su_registers su = Some (start c, LqrResolve.data c, len)) ∧
    (∃ rest, has_registers data commit (LqrResolve.commit c :: rest)) ∧
    taken_over data data' gains ∧ taken_over data data' commit ∧
    (∀ i, i ≠ fd_class_data gains → i ≠ fd_class_data commit → data' !! i = data !! i) ∧
    (∃ gen status, lqr_field db b "GEN" gen ∧ lqr_field db b "EXPORT_STATUS" status ∧
      (∃ rest, has_registers data gen (LqrResolve.gen c :: rest)) ∧ (∃ rest, has_registers data status (export_status c :: rest)))) ∧
  resolve_state_buffer tree = OK (state_phys c, state_bytes c) ∧
  (∀ N WIDTH p gains q mode, GainBridge.reg_ (GainBridge.transport_ p) = reg_of c →
    writes_only [start c; LqrResolve.data c; LqrResolve.commit c] (GainBridge.publish N WIDTH p gains q mode)).
Proof.
  unfold lqr_resolve. destruct (look_up db data) as [[r|e]| |] eqn:El; [|done..]. cbn [mbind outcome_bind].
  destruct (set_read_only_both data r) as [[error data1]| |] eqn:Es; [|done..]. cbn [mbind outcome_bind].
  destruct error as [e|]; [done|]. destruct (resolve_state_buffer tree) as [[phys bytes]|e] eqn:Et; [|done]. intros [= <- <-].
  apply look_up_ok in El as (Hfg & Hfc & (dg & Hdg & Hrg) & Hrc & (gen & status & Hfn & Hfs & Hrn & Hrs) & Hn1 & Hn2 & Hn3 & Hn4).
  apply set_both_ok in Es as (Hg & Hc & Ho). destruct (long_registers dg _ Hrg Hn1) as (su & s & len & -> & Hsu).
  assert (∀ l : list Z, (1 ≤ length l)%nat → ∃ rest, l = l !!! 0%nat :: rest) as Hhd by (intros [|x l] ?; cbn in *; [lia|by exists l]).
  destruct (Hhd _ Hn2) as [rc Ec], (Hhd _ Hn3) as [rn En], (Hhd _ Hn4) as [rs Es].
  split; [|split; [done|]].
  - exists (r_block r), (r_gains r), (r_commit r). cbn. split_and!; try done.
    + by exists su, s, len.
    + exists rc. by rewrite <-Ec.
    + exists gen, status. split_and!; try done; [exists rn; by rewrite <-En|exists rs; by rewrite <-Es].
  - intros N WIDTH p gains q mode E. apply publish_writes; rewrite E; cbn; set_solver.
Qed.
(** What is locked stays so when the window is not found, though no bridge runs. *)
Lemma failed_resolve_keeps_lock (db : database) data tree r data' : look_up db data = Ret (OK r) →
  set_read_only_both data r = Ret (None, data') → entries tree = None →
  lqr_resolve db data tree = Ret (None, data') ∧ taken_over data data' (r_gains r) ∧ taken_over data data' (r_commit r).
Proof.
  intros El Es Ht. unfold lqr_resolve. rewrite El. cbn [mbind outcome_bind]. rewrite Es. cbn [mbind outcome_bind].
  unfold resolve_state_buffer. rewrite Ht. split; [done|]. by apply set_both_ok in Es as (Hg & Hc & _).
Qed.
End spec.

(** ** A configuration with the block *)

Section example.
#[local] Existing Instance ARM32.
#[local] Existing Instance register_file.
#[local] Existing Instance scripted_server.
Abbreviation table_of V := (HashTable.hash_table (K := cstring) (V := V)).
#[local] Instance field_names : StringTable nat (table_of nat) := keep_string_table.
#[local] Instance field_labels : StringTable Z (table_of Z) := keep_string_table.
Abbreviation lqr_database := (database (C := unit) (T := table_of nat)).

Definition add_field (bix : nat) (db : lqr_database) (name : string) : lqr_database :=
  match insert_field db bix (bytes_of name) FieldsSpec.example_class st_create (length (all_fields db)) with
  | Ret (_, db) => db
  | _ => db
  end.
Definition lqr_config : lqr_database :=
  match create_block (mk_database st_create [] [] []) (bytes_of "LQR") 1 with
  | Ret (_, bix, db) => foldl (add_field bix) db ["GAINS"; "COMMIT"; "GEN"; "EXPORT_STATUS"]%string
  | _ => mk_database st_create [] [] []
  end.
Definition one_register (reg : Z) : simple_state (T := table_of Z) :=
  mk_simple (mk_base (TYPE_UINT (2 ^ 32 - 1)) 9 reg None false) [mk_simple_field 0 1].
Definition lqr_data : list (class_data (TZ := table_of Z)) :=
  [TABLE (mk_setup 64 (Some (0, 1, 2)) None []) (example_state SHORT_TABLE); WRITE (mk_base TYPE_ACTION 9 3 None false);
   READ (one_register 4); READ (one_register 5)].
Definition example_tree : device_tree :=
  mk_tree (Some [bytes_of "cma"; bytes_of "lqr-state@3fff0000"]) (λ _, Some (Some [63; 255; 0; 0; 0; 0; 16; 0])).

Lemma bridge_owns_gains_witness :
  match lqr_resolve lqr_config lqr_data example_tree with
  | Ret (Some c, data') =>
      c = mk_coords UNASSIGNED_REGISTER 0 0 1 3 4 1073676288 4096 5 ∧
      (∃ b gains, lqr_field lqr_config b "GAINS" gains ∧ taken_over lqr_data data' gains) ∧
      ∀ WIDTH gains, writes_only [0; 1; 3]
        (GainBridge.publish 57 WIDTH (GainBridge.make_publisher (GainBridge.mk_transport (reg_of c) 0)) gains Quantise.gain_q Quantise.HalfAway)
  | _ => False
  end.
Proof.
  destruct (lqr_resolve lqr_config lqr_data example_tree) as [[[c|] data']| |] eqn:E; [|by vm_compute in E..].
  assert (c = mk_coords UNASSIGNED_REGISTER 0 0 1 3 4 1073676288 4096 5) as Ec by (vm_compute in E; by injection E as <- _).
  destruct (bridge_owns_gains lqr_config lqr_data example_tree c data' E) as ((b & gains & commit & _ & Hf & _ & _ & _ & Ht & _) & _ & Hw).
  split; [exact Ec|]. split; [exists b, gains; split; [exact Hf|exact Ht]|]. intros WIDTH g. rewrite Ec in *. by apply Hw.
Defined.

(** If COMMIT were a scalar, a write to its attribute RAW would reach the register although
    the field is read-only. *)
Definition scalar_commit : base_state (T := table_of Z) := mk_base (TYPE_SCALAR (mk_scalar (Double.of_Z 1) (Double.of_Z 0) None)) 9 3 None true.
Lemma raw_write_gets_through units (w : world) :
  (∀ number text, ∃ e, write_put (scalar_commit, w) number text = Ret (Some e, (scalar_commit, w))) ∧
  attr_put units write_methods (scalar_commit, w) (bs_type scalar_commit) ATTR_SCALAR_RAW 0 (bytes_of "5") =
    Some (Ret (None, bs_type scalar_commit, (scalar_commit, mk_world (hw_write_register (w_fpga w) 9 0 3 5) (w_connection w) (w_index w)))).
Proof. split; [intros number text; by eexists|reflexivity]. Qed.
End example.
End LqrResolveSpec.
